(* ===== verification/_CoqProject ===== *)
-Q . S2P
Prelude.v
Bytes.v
Params.v
Externals.v
Primitives.v
Amounts.v
Account.v
Tx.v
Decimal.v
Operations.v
Block.v
Merkle.v
ParallelSmt.v
ParallelSmtProofs.v
SequentialSmt.v
TreeEquivalence.v
AccountLeaf.v
PlasmaState.v
PlasmaProofs.v
Ledger.v
StateKeeper.v
StateKeeperProofs.v
TreeState.v
EventsState.v
DataRestore.v
EthWatch.v
Mempool.v
SignatureChecker.v
EthStorage.v
TxQueue.v
GasAdjuster.v
EthSender.v
ExecLogic.v
EthSenderProofs.v
SenderSlots.v
Storage.v
StorageProofs.v
BlockStorage.v
BlockStorageProofs.v
SenderRecovery.v
Committer.v
CircuitTree.v
Witness.v
WitnessOps.v
WitnessProofs.v
WitnessLedger.v
WitnessFollows.v
ProverPool.v
BlockWitness.v
ProverPoolProofs.v
ProverJobs.v
Observer.v
RestoreStorage.v
RestoreStorageProofs.v
ApiCaches.v
RpcServer.v
EventNotify.v
EventNotifyProofs.v
EventNotifyAnswers.v
EventNotifyEvents.v
RpcAnswers.v
TokenHistory.v
Gadgets.v
Element.v
CircuitSignature.v
Circuit.v
SynthLogic.v
CircuitOps.v
CircuitOpsProofs.v
SynthMono.v
CircuitProofs.v
CircuitSound.v
CircuitWitness.v
Demo.v
Witnesses.v
WitnessesDb.v
WitnessesEth.v
WitnessesProver.v
WitnessesCircuit.v
WitnessesApi.v
