(* ===== verification/Prelude.v ===== *)
(** * Collexi rollup: a verification library for the node of an ERC-721 ZK rollup

    The repository is a ZK rollup in which an account owns a set of token ids.  The
    node (src/core, Rust) executes transactions and priority operations on an account
    tree, packs them into blocks, publishes the blocks' data on Ethereum and proves
    them.  This library models the node's own logic and proves it correct.  Integers
    wrap as in a release build; [unwrap], [expect], [assert!], out-of-range slices and
    the like are panics, which are values of the model ([Prelude.outcome]).

    ** Parts and files (sources under src/core)

    - [Prelude], [Bytes]: results, panics, the state monad with its laws, wrapping
      integers, byte strings.
    - [Params] (models/src/params.rs), [Externals] (crates that are not part of the
      repository: their functions are the class [External], what the code relies on
      is [ExternalLaws], with a concrete instance).
    - [Primitives], [Amounts] (models/src/primitives.rs, node/mod.rs): bit order, the
      decimal float format of fees and amounts.
    - [Account], [Tx], [Decimal], [Operations], [Block] (models/src/node): accounts and
      their updates, signed transactions and the message that a wallet signs, operations
      with their public data, blocks.
    - [Merkle], [ParallelSmt], [ParallelSmtProofs], [SequentialSmt],
      [TreeEquivalence] (models/src/merkle_tree): the full tree as a reference, the
      interface [SparseTree] with its laws, the compressed and cached tree, the plain
      tree, and their equivalence.  [AccountLeaf] (models/src/circuit): the leaves.
    - [PlasmaState] (plasma/src/state.rs), [PlasmaProofs], [Ledger]: the state
      transition function, its refinement of a small ledger relation
      ([PlasmaProofs.ledger_step]), and the safety of that ledger.
    - [StateKeeper], [StateKeeperProofs] (server/src/state_keeper.rs): the actor that
      executes miniblocks and seals blocks; [Mempool] (server/src/mempool.rs,
      block_proposer.rs) and [EthWatch] (server/src/eth_watch.rs) feed it.
      [SignatureChecker] (server/src/api_server/rpc_server.rs, signature_checker.rs): the
      submission of a transaction, from the request to the mempool.
    - [ApiCaches], [RpcServer] (server/src/api_server/rpc_server.rs, storage's tokens and
      operations_ext): the queries of the JSON-RPC server with their caches of answers, on
      the tables of the database; [RpcAnswers] and [TokenHistory] show what they answer.
      [EventNotify] (server/src/api_server/event_notify.rs): the actor that answers
      subscriptions and notifies their clients; [EventNotifyProofs], [EventNotifyAnswers]
      and [EventNotifyEvents] follow the clients, the answers and the notifications.
    - [Storage], [StorageProofs] (storage/src/diff.rs, chain/state,
      chain/account): the state tables of the database, as lists of rows.
      [BlockStorage], [BlockStorageProofs] (storage/src/chain/block, chain/operations,
      prover): blocks, operations and proofs.  JSON columns hold values of the class
      [BlockStorage.Codec].  [Committer] (server/src/committer.rs).
    - [EthStorage] (models/src/ethereum.rs, lib.rs, storage/src/ethereum),
      [TxQueue], [GasAdjuster], [EthSender] (server/src/eth_sender): the operations for
      Ethereum, their tables, the queues and the sender.  [ExecLogic] is a program logic
      of weakest preconditions for the state monad; [EthSenderProofs], [SenderSlots]
      and [SenderRecovery] use it.
    - [CircuitTree] (models/src/circuit): the account tree of the circuit and when it
      holds the same state as a map of accounts ([CircuitTree.mirrors]).  [Witness]
      (circuit/src/operation.rs, account.rs, witness/utils.rs,
      witness/noop.rs): the data that an operation gives the circuit, the builder, the
      commitment to the public data.  [WitnessOps] (circuit/src/witness): the generator
      of every operation.  [WitnessProofs],
      [WitnessLedger] and [WitnessFollows] show that each generator follows a step of the
      ledger, as instances of the interface [WitnessFollows.FollowsLedger].
    - [Gadgets], [Element], [CircuitSignature], [Circuit] (circuit/src/element.rs, utils.rs,
      account.rs, allocated_structures.rs, signature.rs, circuit.rs): the circuit by the
      values that it computes.  A synthesis ([Gadgets.Synth]) is a state monad over one bit,
      whether all constraints so far are satisfied by the allocated values; the gadgets of
      the library franklin_crypto are the class [Gadgets.Gadgets] with the laws
      [Gadgets.GadgetLaws] and a concrete instance ([WitnessesCircuit]).  [SynthLogic] and
      [SynthMono] are the rules of that monad, [SynthLogic] and [CircuitOpsProofs] also what
      each gadget of the code evaluates to, [CircuitOps] the specification of a chunk
      ([CircuitOps.chunk_step]), [CircuitProofs] and [CircuitSound] the
      soundness of the circuit, [CircuitWitness] the circuit on the generated data.
    - [ProverPool], [BlockWitness], [ProverPoolProofs], [ProverJobs]
      (server/src/prover_server.rs, prover_server/pool.rs, storage/src/prover): the pool
      of prover data, its maintainer, the jobs of the provers and the handlers.
      [Observer] (server/src/observer_mode.rs): a server before it becomes the leader.
    - [TreeState], [EventsState], [DataRestore] (data_restore/src):
      restoring the state from Ethereum.  [RestoreStorage], [RestoreStorageProofs]
      (data_restore/src/storage_interactor.rs, storage/src/data_restore): the driver over its
      tables, which can be stopped and continued.
    - [Demo], [Witnesses], [WitnessesDb], [WitnessesEth],
      [WitnessesProver], [WitnessesCircuit], [WitnessesApi]: a concrete
      rollup that is run, and the theorems with hypotheses applied to it.

    The parts interact as in the node: the watcher and the mempool give the proposer
    operations, the proposer sends miniblocks to the keeper, the keeper sends blocks
    with account updates to the committer, which stores them and the operations that
    the sender turns into Ethereum transactions; the maintainer of the prover server
    replays the stored blocks and prepares their proofs, which the committer verifies; the
    restore driver reads the published data back.  Channels are lists of sent messages; the database, the
    Ethereum node and the clock are arguments with their answers.

    ** What the theorems show

    - Restoring: from verified events and published data alone the driver rebuilds the
      keeper's accounts and blocks (DataRestore, EventsState).  A round that is stopped after one
      of its steps is finished by the continued driver; a round that is stopped between
      two blocks, or a round without logs, loses blocks (RestoreStorageProofs).
    - The chain: for every sequence of requests the keeper's blocks are consecutive
      runs of the ledger with the right root hashes, updates, priority intervals and
      sizes (StateKeeperProofs); proposer and keeper stay in step (Mempool).
    - The ledger: a transaction succeeds exactly when it is authorised; tokens leave
      only by their owner's signature, have one owner, transactions are not replayed;
      reported updates replay and roll back (PlasmaProofs, Ledger).
    - Trees: root hashes and Merkle paths equal those of the full tree.
    - Encodings: public data round trips, totality and error behaviour of decoders,
      injectivity of signed bytes, exactness of the float format.
    - The database: under commits, skipped blocks, proofs and verifications every state
      of the chain can be loaded, by replaying or rolling back updates, and blocks are
      read back (BlockStorageProofs); the committer stores a chain of the keeper such
      that a restarted node loads the accounts it has reached, verifies proved blocks in
      order, and never passes a block without a proof (Committer); what the API
      reads of one account (StorageProofs).
    - The sender, for any answers of the node, the signer and the database: consecutive
      nonces, every sent transaction recorded, confirmations only as reported
      (EthSenderProofs); the order of commits, verifications and withdrawals (TxQueue);
      a restart finds the ongoing operations in the tables (SenderRecovery); how a node
      that is unreachable blocks it (SenderSlots); the price (GasAdjuster).

    - Proving: the maintainer's prover data of a block roll the root hash from the state
      before the block to the state after it, chunk by chunk, with the block's public data
      and the contract's commitment (BlockWitness, ProverPoolProofs); where the circuit's
      public data differ from the published ones (ProverPoolProofs.circuit_data_agrees);
      provers get the least free block, once, unless their requests interleave
      (ProverJobs); a new leader starts from the committed and verified states (Observer).

    - The circuit: a satisfied circuit proves a block, as a chain of allowed chunk steps from
      the old root to the new one with the contract's commitment as its public input
      (CircuitSound); what a step may change in an account, and that operations are whole
      (CircuitSound); allocated elements have their widths (CircuitProofs); that the circuit
      takes the ownership of tokens for granted, and that the data of the prover server
      cannot be synthesized (CircuitWitness).

    - The API: a transaction reaches the mempool exactly when the wallet of its account
      signed the message of the transaction and the mempool admits it, and the proposer
      proposes nothing else (SignatureChecker).  Whatever was asked before, a query is
      answered with what the database says now, since only final answers are cached; the
      deposits shown are the unconfirmed ones (RpcAnswers); the history of a token is
      its successful transfers in order (TokenHistory).  A client that subscribed is
      answered at once or waits (EventNotifyAnswers) and is notified at most once
      (EventNotifyProofs), of what the node executed (EventNotifyEvents).

    ** Fuel

    Loops that are not structural take fuel, and a theorem shows that the given fuel
    is enough: [Block.rollup_ops_loop] (the length of the data), [StateKeeper.queue_loop]
    (two rounds per operation), [EthWatch.priority_requests_loop] (one round per chunk),
    the walks in the trees (the depth), [EthSender.send_loop] (every round takes a free
    slot; one more than the free slots), [Committer.poll_for_new_proofs] (one round per
    proof and one more).

    ** Not modelled

    The REST server (rest.rs) and the queries only it has (the history of an account, the
    lists and the search of the explorer), the HTTP layer, the registration of
    subscriptions (rpc_subscriptions.rs), the calls of the JSON-RPC server that only
    forward a value (contract_address, get_tx_fee, tokens), the Ethereum client, leader
    election and supervision: network tasks over the modelled parts
    and libraries.  The circuit's constraints are modelled by the bit that says whether the
    allocated values satisfy them, not as a system of equations in free variables, so that
    nothing is said of other assignments to the variables inside a gadget; the proof
    system, the prover that runs it and the key generator are left out, as are the exit
    circuit, whose body is commented out, and the helpers that sign messages for the tests of
    the circuit.  The test kits, the contracts and the web clients are not part of the node.
    In the prover server errors of the database connection and the HTTP layer are left out,
    and a round of the maintainer is atomic. *)

From stdpp Require Export base tactics numbers list gmap strings sorting.
From Stdlib Require Export ZArith Lia.

#[global] Set Default Goal Selector "!".

(** ** Results, panics and the state monad

    A Rust function that returns [Result<A, Error>] returns a [result A]; a
    call that may unwind ([unwrap], [expect], [assert!], a slice out of range)
    returns an [outcome].  A method that takes [&mut self] and returns a
    [Result] keeps the state it has written also on the [Err] path, hence
    [Exec S A] returns the state next to the [result]. *)

Inductive result (A : Type) : Type :=
| Ok (a : A)
| Err (e : string).
Arguments Ok {A} a.
Arguments Err {A} e.

Inductive outcome (A : Type) : Type :=
| Val (a : A)
| Panic (msg : string).
Arguments Val {A} a.
Arguments Panic {A} msg.

Definition Fallible (A : Type) : Type := outcome (result A).
Definition Exec (S A : Type) : Type := S → outcome (result A * S).

#[global] Instance outcome_ret : MRet outcome := λ A a, Val a.
#[global] Instance outcome_bind : MBind outcome := λ A B f m,
  match m with Val a => f a | Panic msg => Panic msg end.

#[global] Instance fallible_ret : MRet Fallible := λ A a, Val (Ok a).
#[global] Instance fallible_bind : MBind Fallible := λ A B f m,
  match m with
  | Val (Ok a) => f a
  | Val (Err e) => Val (Err e)
  | Panic msg => Panic msg
  end.

#[global] Instance exec_ret {S} : MRet (Exec S) := λ A a s, Val (Ok a, s).
#[global] Instance exec_bind {S} : MBind (Exec S) := λ A B f m s,
  match m s with
  | Val (Ok a, s') => f a s'
  | Val (Err e, s') => Val (Err e, s')
  | Panic msg => Panic msg
  end.

(** The operations of the monads. *)
Definition unwrap {A} (msg : string) (o : option A) : outcome A :=
  match o with Some a => Val a | None => Panic msg end.

Definition assert_that (b : bool) (msg : string) : outcome unit :=
  if b then Val tt else Panic msg.

Definition ok_or {A} (e : string) (o : option A) : Fallible A :=
  match o with Some a => Val (Ok a) | None => Val (Err e) end.

Definition ensure_that (b : bool) (e : string) : Fallible unit :=
  if b then Val (Ok tt) else Val (Err e).

Definition lift_outcome {A} (m : outcome A) : Fallible A :=
  match m with Val a => Val (Ok a) | Panic msg => Panic msg end.

Definition lift {S A} (m : Fallible A) : Exec S A := λ s,
  match m with Val r => Val (r, s) | Panic msg => Panic msg end.

Definition raise {S A} (e : string) : Exec S A := λ s, Val (Err e, s).
Definition gets {S A} (f : S → A) : Exec S A := λ s, Val (Ok (f s), s).
Definition ensure {S} (b : bool) (e : string) : Exec S unit := lift (ensure_that b e).
Definition total {S A} (m : outcome A) : Exec S A := lift (lift_outcome m).

(** A method that changes the state and cannot return [Err]. *)
Definition update {S} (f : S → outcome S) : Exec S unit := λ s,
  match f s with Val s' => Val (Ok tt, s') | Panic msg => Panic msg end.

(** Running a method of a field of the state. *)
Definition zoom {S T A} (get : S → T) (put : T → S → S) (m : Exec T A) : Exec S A := λ s,
  match m (get s) with
  | Val (r, t) => Val (r, put t s)
  | Panic msg => Panic msg
  end.

#[global] Instance result_eq_dec {A} `{EqDecision A} : EqDecision (result A).
Proof. solve_decision. Defined.
#[global] Instance outcome_eq_dec {A} `{EqDecision A} : EqDecision (outcome A).
Proof. solve_decision. Defined.

(** Inversion of the binds: a computation that returns ran its first part. *)
Lemma outcome_bind_Val {A B} (m : outcome A) (f : A → outcome B) b :
  m ≫= f = Val b ↔ ∃ a, m = Val a ∧ f a = Val b.
Proof. destruct m; naive_solver. Qed.

Lemma fallible_bind_Ok {A B} (m : Fallible A) (f : A → Fallible B) b :
  m ≫= f = Val (Ok b) ↔ ∃ a, m = Val (Ok a) ∧ f a = Val (Ok b).
Proof. destruct m as [[]|]; naive_solver. Qed.

Lemma exec_bind_Ok {S A B} (m : Exec S A) (f : A → Exec S B) s b s' :
  (m ≫= f) s = Val (Ok b, s') ↔ ∃ a t, m s = Val (Ok a, t) ∧ f a t = Val (Ok b, s').
Proof.
  unfold mbind, exec_bind. destruct (m s) as [[[] ?]|]; naive_solver.
Qed.

Lemma exec_bind_Err {S A B} (m : Exec S A) (f : A → Exec S B) s e s' :
  (m ≫= f) s = Val (Err e, s') ↔
  m s = Val (Err e, s') ∨ ∃ a t, m s = Val (Ok a, t) ∧ f a t = Val (Err e, s').
Proof.
  unfold mbind, exec_bind. destruct (m s) as [[[] ?]|]; naive_solver.
Qed.

Lemma update_Ok {S} (f : S → outcome S) s r s' :
  update f s = Val (r, s') ↔ r = Ok tt ∧ f s = Val s'.
Proof. unfold update. destruct (f s); naive_solver. Qed.

Lemma ensure_Ok {S} (b : bool) e (s : S) u s' :
  ensure b e s = Val (Ok u, s') ↔ b = true ∧ s' = s.
Proof. unfold ensure, lift, ensure_that. destruct b, u; naive_solver. Qed.

Lemma ensure_Err {S} (b : bool) e (s : S) e' s' :
  ensure b e s = Val (Err e', s') ↔ b = false ∧ e' = e ∧ s' = s.
Proof. unfold ensure, lift, ensure_that. destruct b; naive_solver. Qed.

Lemma total_Val {S A} (m : outcome A) (s : S) r s' :
  total m s = Val (r, s') ↔ ∃ a, m = Val a ∧ r = Ok a ∧ s' = s.
Proof. unfold total, lift, lift_outcome. destruct m; naive_solver. Qed.

Lemma unwrap_Val {A} msg (o : option A) a : unwrap msg o = Val a ↔ o = Some a.
Proof. destruct o; naive_solver. Qed.

Lemma assert_that_Val b msg u : assert_that b msg = Val u ↔ b = true.
Proof. destruct b, u; naive_solver. Qed.

(** [run_inv H] turns a successful run into the runs of its steps. *)
Ltac run_inv_step H :=
  lazymatch type of H with
  | (_ ≫= _) _ = Val (Ok _, _) =>
      let a := fresh "a" in let s := fresh "s" in
      let H1 := fresh "Hrun" in let H2 := fresh "Hrun" in
      apply exec_bind_Ok in H as (a & s & H1 & H2);
      first [progress (run_inv_step H1) | idtac]; first [progress (run_inv_step H2) | idtac]
  | (_ ≫= _) = Val (Ok _) =>
      let a := fresh "a" in let H1 := fresh "Hrun" in let H2 := fresh "Hrun" in
      apply fallible_bind_Ok in H as (a & H1 & H2);
      first [progress (run_inv_step H1) | idtac]; first [progress (run_inv_step H2) | idtac]
  | (_ ≫= _) = Val _ =>
      let a := fresh "a" in let H1 := fresh "Hrun" in let H2 := fresh "Hrun" in
      apply outcome_bind_Val in H as (a & H1 & H2);
      first [progress (run_inv_step H1) | idtac]; first [progress (run_inv_step H2) | idtac]
  | ensure _ _ _ = Val (Ok _, _) => apply ensure_Ok in H as [H ->]
  | total _ _ = Val (_, _) =>
      let a := fresh "a" in apply total_Val in H as (a & H & ? & ?); simplify_eq;
      first [progress (run_inv_step H) | idtac]
  | update _ _ = Val (_, _) =>
      apply update_Ok in H as [? H]; simplify_eq; first [progress (run_inv_step H) | idtac]
  | unwrap _ _ = Val _ => apply unwrap_Val in H
  | assert_that _ _ = Val _ => apply assert_that_Val in H
  | mret _ _ = Val (_, _) => unfold mret, exec_ret in H; simplify_eq
  | gets _ _ = Val (_, _) => unfold gets in H; simplify_eq
  end.
Ltac run_inv H := run_inv_step H; simplify_eq.

(** ** Machine integers: a [w]-bit value is a [Z] in [0, 2^w) *)

Definition wrap (w z : Z) : Z := z mod 2 ^ w.
Definition fits (w z : Z) : Prop := (0 ≤ z < 2 ^ w)%Z.
#[global] Instance fits_dec w z : Decision (fits w z).
Proof. unfold fits. apply _. Defined.

Definition checked_add (w a b : Z) : option Z :=
  if decide (a + b < 2 ^ w)%Z then Some (a + b)%Z else None.
Definition checked_mul (w a b : Z) : option Z :=
  if decide (a * b < 2 ^ w)%Z then Some (a * b)%Z else None.
Definition saturating_mul (w a b : Z) : Z := Z.min (a * b) (2 ^ w - 1).
Definition saturating_sub (a b : Z) : Z := Z.max (a - b) 0.

Lemma wrap_fits w z : (0 ≤ w)%Z → fits w (wrap w z).
Proof. intros. apply Z.mod_pos_bound. lia. Qed.
Lemma wrap_small w z : fits w z → wrap w z = z.
Proof. apply Z.mod_small. Qed.

(** [x & (1 << b) > 0] tests bit [b]. *)
Lemma land_shiftl_testbit x b : (0 ≤ b)%Z → (0 <? Z.land x (Z.shiftl 1 b))%Z = Z.testbit x b.
Proof.
  intros Hb. rewrite Z.shiftl_1_l. destruct (Z.testbit x b) eqn:E.
  - apply Z.ltb_lt. assert (0 ≤ Z.land x (2 ^ b))%Z by (apply Z.land_nonneg; right; apply Z.pow_nonneg; lia).
    destruct (decide (Z.land x (2 ^ b) = 0)%Z) as [E0|]; [|lia].
    assert (Z.testbit (Z.land x (2 ^ b)) b = true) as Ht
      by (rewrite Z.land_spec, E, Z.pow2_bits_true by lia; done).
    by rewrite E0, Z.bits_0 in Ht.
  - apply Z.ltb_ge. replace (Z.land x (2 ^ b)) with 0%Z; [done|]. symmetry. apply Z.bits_inj'.
    intros i Hi. rewrite Z.land_spec, Z.bits_0. destruct (decide (i = b)) as [->|].
    + by rewrite E.
    + rewrite (Z.pow2_bits_false b i) by lia. apply andb_false_r.
Qed.

(** ** Vectors *)

(** [&v[from..to]]: a range out of bounds panics. *)
Definition slice {A} (v : list A) (from to : nat) : outcome (list A) :=
  if decide (from ≤ to ∧ to ≤ length v)
  then Val (take (to - from) (drop from v)) else Panic "slice out of range".

(** [Vec::resize]. *)
Definition vec_resize {A} (n : nat) (x : A) (v : list A) : list A :=
  take n v ++ replicate (n - length v) x.

Lemma vec_resize_length {A} n (x : A) v : length (vec_resize n x v) = n.
Proof. unfold vec_resize. rewrite length_app, length_take, length_replicate. lia. Qed.

Lemma vec_resize_app {A} n (x : A) v :
  length v ≤ n → vec_resize n x v = v ++ replicate (n - length v) x.
Proof. intros. unfold vec_resize. by rewrite take_ge by lia. Qed.

Lemma vec_resize_id {A} (x : A) v : vec_resize (length v) x v = v.
Proof. rewrite vec_resize_app by lia. rewrite Nat.sub_diag. apply app_nil_r. Qed.

Lemma slice_Val {A} (v : list A) from to r :
  slice v from to = Val r ↔ from ≤ to ∧ to ≤ length v ∧ r = take (to - from) (drop from v).
Proof. unfold slice. case_decide; naive_solver. Qed.

(** A slice that lies inside one part of a concatenation. *)
Lemma slice_app_mid {A} (a b c : list A) from to :
  from = length a → to = length a + length b →
  slice (a ++ b ++ c) from to = Val b.
Proof.
  intros -> ->. apply slice_Val. rewrite !length_app. repeat split; [lia..|].
  rewrite drop_app_length, take_app_length' by lia. done.
Qed.

(** Slices of a concatenation, field by field. *)
Lemma slice_skip {A} (a l : list A) from to :
  length a ≤ from → from ≤ to → slice (a ++ l) from to = slice l (from - length a) (to - length a).
Proof.
  intros Ha Hft. unfold slice. rewrite length_app.
  destruct (decide (from ≤ to ∧ to ≤ length a + length l)) as [[]|];
    destruct (decide (from - length a ≤ to - length a ∧ to - length a ≤ length l)) as [[]|]; try done || lia.
  replace (to - length a - (from - length a)) with (to - from) by lia. by rewrite drop_app_ge by lia.
Qed.

Lemma slice_here {A} (f l : list A) to : to = length f → slice (f ++ l) 0 to = Val f.
Proof. intros ->. by apply (slice_app_mid [] f l). Qed.

Lemma slice_here_at {A} (f l : list A) from to :
  from = 0 → to = length f → slice (f ++ l) from to = Val f.
Proof. intros ->. apply slice_here. Qed.

Lemma slice_replicate {A} k n (x : A) from to :
  from = 0 → to = n → n ≤ k → slice (replicate k x) from to = Val (replicate n x).
Proof.
  intros -> -> H. apply slice_Val. rewrite length_replicate, drop_0, take_replicate.
  repeat split; try lia. f_equal. lia.
Qed.

Lemma slice_total {A} (v : list A) from to :
  from ≤ to → to ≤ length v → ∃ r, slice v from to = Val r ∧ length r = to - from.
Proof.
  intros. exists (take (to - from) (drop from v)). rewrite slice_Val, length_take, length_drop.
  repeat split; lia.
Qed.

(** ** Tables as lists of rows

    Filters, keys and order of the rows of a table: the facts that the proofs about the
    schemas of the database share. *)

Open Scope Z_scope.

Lemma Forall2_impl_l {A B} (P Q : A → B → Prop) l k :
  Forall2 P l k → (∀ x y, x ∈ l → P x y → Q x y) → Forall2 Q l k.
Proof. induction 1 as [|x y l k Hx _ IH]; intros H; constructor; [apply H; set_solver|apply IH; set_solver]. Qed.

Lemma filter_snoc_other {A} (f : A → bool) l x : f x = false → List.filter f (l ++ [x]) = List.filter f l.
Proof. intros H. rewrite List.filter_app. cbn. by rewrite H, app_nil_r. Qed.

Lemma Forall2_elem_r {A B} (P : A → B → Prop) l k y : Forall2 P l k → y ∈ k → ∃ x, x ∈ l ∧ P x y.
Proof.
  intros H (i & Hi)%list_elem_of_lookup. destruct (Forall2_lookup_r _ _ _ _ _ H Hi) as (x & Hx & ?).
  exists x. split; [by eapply list_elem_of_lookup_2|done].
Qed.

Lemma sorted_impl {A} (R R' : A → A → Prop) l : (∀ x y, R x y → R' x y) → StronglySorted R l → StronglySorted R' l.
Proof. intros HR. induction 1 as [|x l _ IH Hx]; constructor; [done|]. eapply Forall_impl; [exact Hx|]. intros y. apply HR. Qed.

Lemma sorted_snoc {A} (R : A → A → Prop) l x :
  StronglySorted R l → Forall (λ y, R y x) l → StronglySorted R (l ++ [x]).
Proof.
  induction 1 as [|y l _ IH Hy]; intros H; cbn; [by repeat constructor|]. apply Forall_cons in H as [H1 H2].
  constructor; [by apply IH|]. apply Forall_app_2; [done|by constructor].
Qed.

Lemma existsb_false {A} (f : A → bool) l : (∀ x, x ∈ l → f x = false) → existsb f l = false.
Proof. induction l as [|x l IH]; intros H; [done|]. cbn. rewrite H by set_solver. apply IH. set_solver. Qed.

Lemma filter_none {A} (f : A → bool) l : (∀ x, x ∈ l → f x = false) → List.filter f l = [].
Proof.
  induction l as [|x l IH]; intros H; [done|]. cbn. rewrite H by set_solver. apply IH. set_solver.
Qed.

Section Sorted.
  Context {A : Type} (key : A → Z).

Lemma sorted_filter (R : A → A → Prop) f l : StronglySorted R l → StronglySorted R (List.filter f l).
Proof.
  induction 1 as [|x l _ IH Hx]; cbn; [constructor|]. destruct (f x); [|done]. constructor; [done|].
  apply Forall_forall. intros y Hy%list_elem_of_In. apply List.filter_In in Hy as [Hy _].
  rewrite Forall_forall in Hx. by apply Hx, list_elem_of_In.
Qed.

Lemma indexed_sorted k0 l :
  (∀ i x, l !! i = Some x → key x = k0 + Z.of_nat i) → StronglySorted (λ a b, key a ≤ key b) l.
Proof.
  revert k0. induction l as [|x l IH]; intros k0 H; [constructor|]. constructor.
  - apply (IH (k0 + 1)). intros i y Hi. rewrite (H (S i) y Hi). lia.
  - apply Forall_lookup. intros i y Hi. rewrite (H 0%nat x eq_refl), (H (S i) y Hi). lia.
Qed.

Lemma indexed_NoDup k0 l : (∀ i x, l !! i = Some x → key x = k0 + Z.of_nat i) → NoDup (key <$> l).
Proof.
  intros H. apply NoDup_alt. intros i j z. rewrite !list_lookup_fmap_Some. intros (x & -> & Hx) (y & E & Hy).
  rewrite (H _ _ Hx), (H _ _ Hy) in E. lia.
Qed.

Lemma filter_keys_NoDup f l : NoDup (key <$> l) → NoDup (key <$> List.filter f l).
Proof.
  induction l as [|x l IH]; cbn; [done|]. intros [Hx Hl]%NoDup_cons. destruct (f x); [|by apply IH].
  cbn. apply NoDup_cons. split; [|by apply IH]. contradict Hx. apply list_elem_of_fmap in Hx as (y & E & Hy).
  apply list_elem_of_In, List.filter_In in Hy as [Hy _]. apply list_elem_of_fmap. exists y. by rewrite list_elem_of_In.
Qed.

(** The row with a key, and only it. *)
Lemma filter_key_unique l x : NoDup (key <$> l) → x ∈ l → List.filter (λ y, key y =? key x) l = [x].
Proof.
  induction l as [|y l IH]; cbn; [by intros _ ?%not_elem_of_nil|]. intros [Hy Hl]%NoDup_cons [->|Hx]%elem_of_cons.
  - rewrite Z.eqb_refl. f_equal. apply filter_none. intros z Hz. apply Z.eqb_neq. intros E.
    apply Hy. rewrite <- E. by apply list_elem_of_fmap_2.
  - destruct (Z.eqb_spec (key y) (key x)) as [E|]; [|by apply IH].
    exfalso. apply Hy. rewrite E. by apply list_elem_of_fmap_2.
Qed.

Lemma split_keys l1 x l2 :
  NoDup (key <$> l1 ++ x :: l2) → Forall (λ y, key y ≠ key x) l1 ∧ Forall (λ y, key y ≠ key x) l2.
Proof.
  rewrite fmap_app, fmap_cons. intros (_ & H1 & [H2 _]%NoDup_cons)%NoDup_app. rewrite !Forall_forall. split.
  - intros y Hy E. apply (H1 (key y)); [by apply list_elem_of_fmap_2|]. rewrite E. apply elem_of_cons. by left.
  - intros y Hy E. apply H2. rewrite <- E. by apply list_elem_of_fmap_2.
Qed.

Lemma map_unless (g : A → A) k l : (∀ y, key y ≠ k → g y = y) → Forall (λ y, key y ≠ k) l → g <$> l = l.
Proof. intros Hg. induction 1 as [|y l Hy _ IH]; cbn; [done|]. by rewrite Hg, IH. Qed.

Lemma filter_unless k l : Forall (λ y, key y ≠ k) l → List.filter (λ y, negb (key y =? k)) l = l.
Proof. induction 1 as [|y l Hy _ IH]; cbn; [done|]. by rewrite (proj2 (Z.eqb_neq _ _)), IH. Qed.
End Sorted.
