(* ===== verification/Bytes.v ===== *)
(** * Bytes, bits and big-endian integers

    The parts of Rust's core library on integers as byte arrays
    ([to_be_bytes], [from_be_bytes]) and the bit sequences of the source, with
    the lemmas every codec of the development uses.  A byte is a [Z] in
    [0, 256). *)

From S2P Require Import Prelude.
Open Scope Z_scope.

Notation byte := Z (only parsing).
Notation bytes := (list Z) (only parsing).

Definition is_byte (b : Z) : Prop := 0 ≤ b < 256.
(** An array [[u8; n]]. *)
Definition is_array (n : nat) (l : bytes) : Prop := length l = n ∧ Forall is_byte l.
#[global] Instance is_byte_dec b : Decision (is_byte b).
Proof. unfold is_byte. apply _. Defined.
#[global] Instance is_array_dec n l : Decision (is_array n l).
Proof. unfold is_array. apply _. Defined.

Lemma is_array_length n l : is_array n l → length l = n.
Proof. by intros []. Qed.

Create HintDb bytes.

(** ** Little- and big-endian encodings *)

Fixpoint le_bytes (n : nat) (z : Z) : bytes :=
  match n with
  | O => []
  | S n => z mod 256 :: le_bytes n (z / 256)
  end.

Fixpoint le_val (l : bytes) : Z :=
  match l with
  | [] => 0
  | b :: l => b + 256 * le_val l
  end.

Definition to_be_bytes (n : nat) (z : Z) : bytes := reverse (le_bytes n z).
Definition from_be_bytes (l : bytes) : Z := le_val (reverse l).

Lemma le_bytes_length n z : length (le_bytes n z) = n.
Proof. revert z. induction n; intros; simpl; auto. Qed.

Lemma to_be_bytes_length n z : length (to_be_bytes n z) = n.
Proof. unfold to_be_bytes. by rewrite length_reverse, le_bytes_length. Qed.

Lemma le_bytes_bytes n z : Forall is_byte (le_bytes n z).
Proof.
  revert z. induction n; intros; simpl; constructor; auto.
  apply Z.mod_pos_bound. lia.
Qed.

Lemma to_be_bytes_array n z : is_array n (to_be_bytes n z).
Proof.
  split; [apply to_be_bytes_length|]. unfold to_be_bytes.
  apply Forall_reverse, le_bytes_bytes.
Qed.

Lemma le_val_bound l : Forall is_byte l → 0 ≤ le_val l < 256 ^ Z.of_nat (length l).
Proof.
  induction 1 as [|b l Hb Hl IH]; simpl length; [simpl; lia|].
  rewrite Nat2Z.inj_succ, Z.pow_succ_r by lia. unfold is_byte in Hb. simpl. nia.
Qed.

Lemma le_bytes_val l : Forall is_byte l → le_bytes (length l) (le_val l) = l.
Proof.
  induction 1 as [|b l Hb Hl IH]; simpl; [done|]. unfold is_byte in Hb.
  rewrite (Z.mul_comm 256), Z.mod_add, Z.mod_small by lia.
  rewrite Z.div_add, Z.div_small, Z.add_0_l by lia. by rewrite IH.
Qed.

Lemma le_val_bytes n z : 0 ≤ z < 256 ^ Z.of_nat n → le_val (le_bytes n z) = z.
Proof.
  revert z. induction n as [|n IH]; intros z Hz; simpl; [simpl in Hz; lia|].
  rewrite Nat2Z.inj_succ, Z.pow_succ_r in Hz by lia.
  rewrite IH; [pose proof (Z.div_mod z 256); lia|].
  split; [apply Z.div_pos; lia|apply Z.div_lt_upper_bound; lia].
Qed.

Lemma le_val_app l1 l2 :
  le_val (l1 ++ l2) = le_val l1 + 256 ^ Z.of_nat (length l1) * le_val l2.
Proof.
  induction l1 as [|b l1 IH]; simpl length; [simpl; lia|].
  rewrite Nat2Z.inj_succ, Z.pow_succ_r by lia. simpl. rewrite IH. ring.
Qed.

Lemma le_val_zeros n : le_val (replicate n 0) = 0.
Proof. induction n; simpl; lia. Qed.

Lemma from_to_be_bytes n z : 0 ≤ z < 256 ^ Z.of_nat n → from_be_bytes (to_be_bytes n z) = z.
Proof.
  intros. unfold from_be_bytes, to_be_bytes. rewrite reverse_involutive. by apply le_val_bytes.
Qed.

Lemma to_from_be_bytes n l : is_array n l → to_be_bytes n (from_be_bytes l) = l.
Proof.
  intros [<- Hl]. unfold from_be_bytes, to_be_bytes.
  rewrite <- (length_reverse l), le_bytes_val by (by apply Forall_reverse).
  apply reverse_involutive.
Qed.

Lemma from_be_bytes_bound n l : is_array n l → 0 ≤ from_be_bytes l < 256 ^ Z.of_nat n.
Proof.
  intros [<- Hl]. unfold from_be_bytes. rewrite <- (length_reverse l).
  by apply le_val_bound, Forall_reverse.
Qed.

(** Leading zero bytes do not change the value. *)
Lemma from_be_bytes_pad k l : from_be_bytes (replicate k 0 ++ l) = from_be_bytes l.
Proof.
  unfold from_be_bytes. rewrite reverse_app, reverse_replicate, le_val_app, le_val_zeros. lia.
Qed.

Lemma le_bytes_app m n z :
  le_bytes (m + n) z = le_bytes m z ++ le_bytes n (z / 256 ^ Z.of_nat m).
Proof.
  revert z. induction m as [|m IH]; intros z.
  { simpl. by rewrite Z.div_1_r. }
  simpl. rewrite IH. do 3 f_equal.
  rewrite Zdiv_Zdiv, <- Z.pow_succ_r by lia. f_equal. f_equal. lia.
Qed.

(** [x.to_be_bytes()[1..]] of a [u32] below [2^24]: three bytes. *)
Lemma drop_to_be_bytes k n z :
  drop k (to_be_bytes (k + n) z) = to_be_bytes n z.
Proof.
  unfold to_be_bytes. rewrite Nat.add_comm, le_bytes_app, reverse_app.
  by rewrite drop_app_length' by (by rewrite length_reverse, le_bytes_length).
Qed.

Lemma to_be_bytes_inj n a b :
  0 ≤ a < 256 ^ Z.of_nat n → 0 ≤ b < 256 ^ Z.of_nat n →
  to_be_bytes n a = to_be_bytes n b → a = b.
Proof. intros Ha Hb E. by rewrite <- (from_to_be_bytes n a), E, from_to_be_bytes. Qed.

#[export] Hint Resolve to_be_bytes_array : bytes.
#[export] Hint Rewrite to_be_bytes_length @length_app @length_replicate : bytes.

(** ** Bits *)

(** The value of a little-endian bit sequence. *)
Fixpoint le_bits_val (l : list bool) : Z :=
  match l with
  | [] => 0
  | b :: l => Z.b2z b + 2 * le_bits_val l
  end.

(** The [n] lowest bits, lowest first. *)
Fixpoint le_bits (n : nat) (z : Z) : list bool :=
  match n with
  | O => []
  | S n => Z.odd z :: le_bits n (z / 2)
  end.

Lemma le_bits_length n z : length (le_bits n z) = n.
Proof. revert z. induction n; intros; simpl; auto. Qed.

Lemma le_bits_val_bound l : 0 ≤ le_bits_val l < 2 ^ Z.of_nat (length l).
Proof.
  induction l as [|b l IH]; simpl length; [simpl; lia|].
  rewrite Nat2Z.inj_succ, Z.pow_succ_r by lia. simpl. destruct b; simpl Z.b2z; lia.
Qed.

Lemma le_bits_le_val n z : 0 ≤ z < 2 ^ Z.of_nat n → le_bits_val (le_bits n z) = z.
Proof.
  revert z. induction n as [|n IH]; intros z Hz; simpl; [simpl in Hz; lia|].
  rewrite Nat2Z.inj_succ, Z.pow_succ_r in Hz by lia.
  rewrite IH; [|split; [apply Z.div_pos; lia|apply Z.div_lt_upper_bound; lia]].
  rewrite <- Z.div2_div. pose proof (Z.div2_odd z). lia.
Qed.

Lemma le_bits_val_le l : le_bits (length l) (le_bits_val l) = l.
Proof.
  induction l as [|b l IH]; simpl; [done|].
  rewrite Z.odd_add_mul_2, (Z.mul_comm 2), Z.div_add by lia.
  replace (Z.b2z b / 2) with 0 by (by destruct b). rewrite Z.add_0_l, IH. by destruct b.
Qed.

Lemma le_bits_val_app l1 l2 :
  le_bits_val (l1 ++ l2) = le_bits_val l1 + 2 ^ Z.of_nat (length l1) * le_bits_val l2.
Proof.
  induction l1 as [|b l1 IH]; simpl length; [simpl; lia|].
  rewrite Nat2Z.inj_succ, Z.pow_succ_r by lia. simpl. rewrite IH. ring.
Qed.

Lemma le_bits_testbit n z i : (i < n)%nat → le_bits n z !! i = Some (Z.testbit z (Z.of_nat i)).
Proof.
  revert z i. induction n as [|n IH]; intros z i Hi; [lia|]. destruct i as [|i]; simpl.
  { done. }
  rewrite IH by lia.
  by rewrite Z.div2_bits, <- Nat2Z.inj_succ by lia.
Qed.
