(* ===== verification/Params.v ===== *)
(** * Constants of the protocol (core/models/src/params.rs)

    Lengths and depths are [nat], quantities compared with machine integers are
    [Z].  The two tree depths are [static mut] variables that are initialised
    with a value other than [0], so the branch that reads the environment is
    never taken and the functions return the initial values. *)

From S2P Require Import Prelude.
Open Scope Z_scope.

Definition ACCOUNT_TREE_DEPTH_VALUE : nat := 24.
Definition account_tree_depth : nat := ACCOUNT_TREE_DEPTH_VALUE.
Definition TOKEN_TREE_DEPTH_VALUE : nat := 8.
Definition token_tree_depth : nat := TOKEN_TREE_DEPTH_VALUE.
Definition total_tokens : Z := 2 ^ Z.of_nat token_tree_depth.

Definition ETH_TOKEN_ID : Z := 0.
Definition ACCOUNT_ID_BIT_WIDTH : nat := 24.
Definition TX_TYPE_BIT_WIDTH : nat := 8.
Definition TOKENID_BIT_WIDTH : nat := 16.
Definition FR_ADDRESS_LEN : nat := 20.
Definition NEW_PUBKEY_HASH_WIDTH : nat := FR_ADDRESS_LEN * 8.
Definition ADDRESS_WIDTH : nat := FR_ADDRESS_LEN * 8.
Definition BALANCE_BIT_WIDTH : nat := 128.
Definition NONCE_BIT_WIDTH : nat := 32.
Definition CHUNK_BIT_WIDTH : nat := 64.
Definition BLOCK_NUMBER_BIT_WIDTH : nat := 32.
Definition MAX_CIRCUIT_MSG_HASH_BITS : nat := 736.
Definition ETH_ADDRESS_BIT_WIDTH : nat := 160.
Definition AMOUNT_EXPONENT_BIT_WIDTH : nat := 5.
Definition AMOUNT_MANTISSA_BIT_WIDTH : nat := 35.
Definition FEE_EXPONENT_BIT_WIDTH : nat := 5.
Definition FEE_MANTISSA_BIT_WIDTH : nat := 11.
Definition FR_BIT_WIDTH : nat := 254.
Definition FR_BIT_WIDTH_PADDED : nat := 256.
Definition LEAF_DATA_BIT_WIDTH : nat :=
  NONCE_BIT_WIDTH + NEW_PUBKEY_HASH_WIDTH + FR_BIT_WIDTH_PADDED + ETH_ADDRESS_BIT_WIDTH.
Definition PRIORITY_EXPIRATION : Z := 250.
Definition PAD_MSG_BEFORE_HASH_BITS_LEN : nat := 736.
Definition SIGNED_WITHDRAW_BIT_WIDTH : nat :=
  TX_TYPE_BIT_WIDTH + ACCOUNT_ID_BIT_WIDTH + 2 * ADDRESS_WIDTH + TOKENID_BIT_WIDTH
  + FEE_EXPONENT_BIT_WIDTH + FEE_MANTISSA_BIT_WIDTH + NONCE_BIT_WIDTH.
Definition SIGNED_TRANSFER_BIT_WIDTH : nat :=
  TX_TYPE_BIT_WIDTH + ACCOUNT_ID_BIT_WIDTH + 2 * ADDRESS_WIDTH + TOKENID_BIT_WIDTH
  + FEE_EXPONENT_BIT_WIDTH + FEE_MANTISSA_BIT_WIDTH + NONCE_BIT_WIDTH.
