(* ===== verification/Externals.v ===== *)
(** * Code outside the repository

    The crates the node calls and whose sources are not part of the repository
    are the fields of the class [External]: [bigdecimal], the scalar field and
    the Rescue permutation of [franklin_crypto], its EdDSA signatures, the
    secp256k1 signatures of [parity_crypto], and the SHA-256 and Keccak hashes.
    What the node relies on of them is the class [ExternalLaws].  The instance
    [demo_external] with [demo_laws] gives every field a concrete (and of course
    cryptographically worthless) function, so that the laws are known to be
    consistent and every definition can be run. *)

From S2P Require Import Prelude Bytes.
Open Scope Z_scope.

Class External : Type := {
  (** bigdecimal *)
  BigDecimal : Type;
  bd_is_integer : BigDecimal → bool;
  (** [d.to_string().parse::<u128>().ok()] *)
  bd_parse_u128 : BigDecimal → option Z;
  (** [n.to_string().parse().unwrap()], also [BigDecimal::from] on small values *)
  bd_of_u128 : Z → BigDecimal;
  (** [PartialEq] compares the numbers *)
  bd_eqb : BigDecimal → BigDecimal → bool;
  (** the scalar field of BN256; [into_repr] is four 64-bit limbs, lowest first *)
  Fr : Type;
  fr_repr : Fr → list Z;
  (** [Fr::from_str] on the decimal digits of a number, [ff::from_hex] on its
      hexadecimal digits; [Fr::zero()] is the value at 0 *)
  fr_of_uint : Z → Fr;
  (** [F::from_repr], [PartialEq] and [Field::add_assign] *)
  fr_from_repr : list Z → option Fr;
  fr_eqb : Fr → Fr → bool;
  fr_add : Fr → Fr → Fr;
  (** [ff::BitIterator] over the limbs of a representation, highest bit first *)
  bit_iterator : list Z → list bool;
  (** the Rescue sponge with one output element *)
  multipacking : list bool → list Fr;
  rescue_hash : list Fr → Fr;
  (** EdDSA over the embedded curve *)
  PrivateKey : Type;
  PublicKey : Type;
  Signature : Type;
  pk_into_xy : PublicKey → Fr * Fr;
  pk_from_private : PrivateKey → PublicKey;
  pk_read : bytes → option PublicKey;
  sig_read : bytes → option Signature;
  (** [write] of the point, and of the point and the scalar of a signature *)
  pk_write : PublicKey → option bytes;
  sig_write : Signature → option bytes;
  musig_rescue_sign : PrivateKey → bytes → Signature;
  musig_rescue_verify : PublicKey → bytes → Signature → bool;
  (** secp256k1 *)
  ETHSignature : Type;
  into_electrum : ETHSignature → bytes;
  recover_address : ETHSignature → bytes → option bytes;
  (** hash functions *)
  sha256 : bytes → bytes;
  keccak256 : bytes → bytes;
  (** [hex::encode], as the ASCII codes of the digits *)
  hex_encode : bytes → bytes;
}.

Class ExternalLaws `{External} : Prop := {
  bd_of_u128_integer n : fits 128 n → bd_is_integer (bd_of_u128 n) = true;
  bd_parse_of_u128 n : fits 128 n → bd_parse_u128 (bd_of_u128 n) = Some n;
  bd_parse_fits d n : bd_parse_u128 d = Some n → fits 128 n;
  bd_eqb_parse d d' n n' :
    bd_parse_u128 d = Some n → bd_parse_u128 d' = Some n' → bd_eqb d d' = (n =? n');
  fr_repr_limbs x : length (fr_repr x) = 4%nat ∧ Forall (fits 64) (fr_repr x);
  fr_of_uint_repr n : fits 253 n →
    fr_repr (fr_of_uint n) = (λ i, wrap 64 (n / 2 ^ (64 * i))) <$> [0; 1; 2; 3];
  fr_from_repr_ok x : fr_from_repr (fr_repr x) = Some x;
  fr_from_repr_small n : fits 253 n →
    is_Some (fr_from_repr ((λ i, wrap 64 (n / 2 ^ (64 * i))) <$> [0; 1; 2; 3]));
  fr_eqb_eq x y : fr_eqb x y = true ↔ x = y;
  fr_add_of_uint a b : 0 ≤ a → 0 ≤ b → a + b < 2 ^ 253 →
    fr_add (fr_of_uint a) (fr_of_uint b) = fr_of_uint (a + b);
  bit_iterator_be limbs :
    bit_iterator limbs = reverse (concat (le_bits 64 <$> limbs));
  pk_read_default : is_Some (pk_read (replicate 32 0));
  sig_read_default : is_Some (sig_read (replicate 64 0));
  pk_write_array pk : ∃ b, pk_write pk = Some b ∧ is_array 32 b;
  sig_write_array s : ∃ b, sig_write s = Some b ∧ is_array 64 b;
  musig_rescue_correct sk msg :
    musig_rescue_verify (pk_from_private sk) msg (musig_rescue_sign sk msg) = true;
  into_electrum_array s : is_array 65 (into_electrum s);
  recover_address_array s h a : recover_address s h = Some a → is_array 20 a;
  sha256_array m : is_array 32 (sha256 m);
  hex_encode_length l : length (hex_encode l) = (2 * length l)%nat;
  hex_encode_inj l l' : Forall is_byte l → Forall is_byte l' → hex_encode l = hex_encode l' → l = l';
}.

(** ** A concrete instance *)

Definition demo_digit (d : Z) : Z := if d <? 10 then 48 + d else 87 + d.

Lemma demo_digit_inj d d' : 0 ≤ d < 16 → 0 ≤ d' < 16 → demo_digit d = demo_digit d' → d = d'.
Proof. unfold demo_digit. intros. destruct (Z.ltb_spec d 10), (Z.ltb_spec d' 10); lia. Qed.

(** Numbers below [2^254]. *)
Definition demo_in_range (x : Z) : bool := (0 <=? x) && (x <? 2 ^ 254).
Definition demo_fr : Type := { x : Z | demo_in_range x = true }.
Definition demo_fr_from (x : Z) : option demo_fr :=
  (if demo_in_range x as b return demo_in_range x = b → option demo_fr then λ H, Some (x ↾ H) else λ _, None) eq_refl.
Definition demo_fr_of (x : Z) : demo_fr := default (0 ↾ eq_refl) (demo_fr_from (x mod 2 ^ 254)).

Lemma demo_fr_from_val (x : demo_fr) : demo_fr_from (proj1_sig x) = Some x.
Proof.
  destruct x as [x Hx]. unfold demo_fr_from. cbn. generalize (eq_refl (demo_in_range x)).
  generalize (demo_in_range x) at 2 3. intros b H. destruct b; [|congruence]. do 2 f_equal. apply Eqdep_dec.UIP_dec, Bool.bool_dec.
Qed.
Lemma demo_fr_of_val x : proj1_sig (demo_fr_of x) = x mod 2 ^ 254.
Proof.
  pose proof (Z.mod_pos_bound x (2 ^ 254) ltac:(lia)) as Hb. unfold demo_fr_of, demo_fr_from.
  generalize (eq_refl (demo_in_range (x mod 2 ^ 254))). generalize (demo_in_range (x mod 2 ^ 254)) at 2 3.
  intros b H. destruct b; [done|]. unfold demo_in_range in H. lia.
Qed.

(** Chunks of [n] elements. *)
Fixpoint demo_chunks_fuel {A} (fuel n : nat) (l : list A) : list (list A) :=
  match fuel, l with
  | S fuel, _ :: _ => take n l :: demo_chunks_fuel fuel n (drop n l)
  | _, _ => []
  end.
Definition demo_chunks {A} (n : nat) (l : list A) : list (list A) := demo_chunks_fuel (length l) n l.

Definition demo_limbs (l : list Z) : Z := foldr (λ x acc, x + 2 ^ 64 * acc) 0 l.

Lemma demo_limbs_of x :
  0 ≤ x < 2 ^ 254 → demo_limbs ((λ i, wrap 64 (x / 2 ^ (64 * i))) <$> [0; 1; 2; 3]) = x.
Proof.
  intros Hx. unfold wrap. cbn [fmap list_fmap demo_limbs foldr].
  rewrite !Z.mul_0_r, Z.mul_1_r, Z.pow_0_r, Z.div_1_r, Z.add_0_r. change (2 ^ (64 * 2)) with (2 ^ 64 * 2 ^ 64).
  change (2 ^ (64 * 3)) with (2 ^ 64 * 2 ^ 64 * 2 ^ 64). rewrite <- !Z.div_div by lia. set (B := 2 ^ 64).
  rewrite (Z.mod_small (x / B / B / B)).
  - pose proof (Z.div_mod x B ltac:(done)). pose proof (Z.div_mod (x / B) B ltac:(done)).
    pose proof (Z.div_mod (x / B / B) B ltac:(done)). nia.
  - rewrite !Z.div_div by done. split; [apply Z.div_pos; [lia|done]|]. apply Z.div_lt_upper_bound; [done|]. unfold B. lia.
Qed.

Lemma demo_fr_inj (x y : demo_fr) : proj1_sig x = proj1_sig y → x = y.
Proof. intros E. apply (inj Some). by rewrite <- !demo_fr_from_val, E. Qed.

#[export] Instance demo_external : External := {|
  BigDecimal := Z;
  bd_is_integer _ := true;
  bd_parse_u128 d := if decide (fits 128 d) then Some d else None;
  bd_of_u128 n := n;
  bd_eqb := Z.eqb;
  Fr := demo_fr;
  fr_repr x := (λ i, wrap 64 (proj1_sig x / 2 ^ (64 * i))) <$> [0; 1; 2; 3];
  fr_of_uint := demo_fr_of;
  fr_from_repr l := demo_fr_from (demo_limbs l);
  fr_eqb x y := proj1_sig x =? proj1_sig y;
  fr_add x y := demo_fr_of (proj1_sig x + proj1_sig y);
  bit_iterator limbs := reverse (concat (le_bits 64 <$> limbs));
  multipacking bits := (λ c, demo_fr_of (le_bits_val c)) <$> demo_chunks 253 bits;
  rescue_hash xs := demo_fr_of (foldr (λ x acc, (7 * proj1_sig x + 31 * acc + 5) mod (2 ^ 254)) 1 xs);
  PrivateKey := Z;
  PublicKey := Z;
  Signature := Z * bytes;
  pk_into_xy pk := (demo_fr_of pk, demo_fr_of (pk + 1));
  pk_from_private sk := sk;
  pk_read l := Some (from_be_bytes l);
  sig_read l := Some (0, l);
  pk_write pk := Some (to_be_bytes 32 pk);
  sig_write s := Some (to_be_bytes 32 s.1 ++ to_be_bytes 32 (from_be_bytes s.2));
  musig_rescue_sign sk msg := (sk, msg);
  musig_rescue_verify pk msg s := bool_decide (s = (pk, msg));
  ETHSignature := bytes;
  into_electrum s := to_be_bytes 65 (from_be_bytes s);
  recover_address s _ := Some (to_be_bytes 20 (from_be_bytes s));
  sha256 m := to_be_bytes 32 (from_be_bytes m);
  keccak256 m := to_be_bytes 32 (from_be_bytes m);
  hex_encode l := concat ((λ b, [demo_digit (b / 16); demo_digit (b mod 16)]) <$> l);
|}.

#[export] Instance demo_laws : @ExternalLaws demo_external.
Proof.
  split.
  - done.
  - intros n Hn. unfold bd_parse_u128, bd_of_u128, demo_external. by rewrite decide_True.
  - intros d n. unfold bd_parse_u128, demo_external. case_decide; naive_solver.
  - intros d d' n n'. unfold bd_parse_u128, bd_eqb, demo_external.
    repeat case_decide; naive_solver.
  - intros x. split; [done|]. repeat constructor; apply wrap_fits; lia.
  - intros n Hn. unfold fr_repr, fr_of_uint, demo_external. rewrite demo_fr_of_val, Z.mod_small; [done|]. unfold fits in Hn. lia.
  - intros x. unfold fr_from_repr, fr_repr, demo_external. rewrite demo_limbs_of; [apply demo_fr_from_val|].
    destruct x as [x Hx]. unfold demo_in_range in Hx. cbn. lia.
  - intros n Hn. unfold fr_from_repr, demo_external, fits in *. rewrite demo_limbs_of by lia.
    replace n with (proj1_sig (demo_fr_of n)); [rewrite demo_fr_from_val; by eexists|]. rewrite demo_fr_of_val. apply Z.mod_small. lia.
  - intros x y. unfold fr_eqb, demo_external. rewrite Z.eqb_eq. split; [apply demo_fr_inj|by intros ->].
  - intros a b Ha Hb Hab. apply demo_fr_inj. unfold fr_add, fr_of_uint, demo_external. rewrite !demo_fr_of_val.
    by rewrite <- Z.add_mod by done.
  - done.
  - eexists; reflexivity.
  - eexists; reflexivity.
  - intros pk. eexists. split; [reflexivity|]. apply to_be_bytes_array.
  - intros sg. eexists. split; [reflexivity|]. split; [by rewrite length_app, !to_be_bytes_length|].
    apply Forall_app_2; apply to_be_bytes_array.
  - intros. by apply bool_decide_true.
  - intros. apply to_be_bytes_array.
  - intros s h a [= <-]. apply to_be_bytes_array.
  - intros. apply to_be_bytes_array.
  - intros l. unfold hex_encode, demo_external. induction l as [|b l IH]; [done|].
    rewrite fmap_cons. simpl. simpl in IH. lia.
  - unfold hex_encode, demo_external. intros l l' Hl. revert l'.
    induction Hl as [|b l Hb Hl IH]; intros [|b' l'] Hl' E; try done.
    rewrite !fmap_cons in E. simpl in E. injection E as E1 E2 E3.
    inversion Hl' as [|?? Hb']; subst. unfold is_byte in *.
    apply demo_digit_inj in E1; [|split; [apply Z.div_pos|apply Z.div_lt_upper_bound]; lia..].
    apply demo_digit_inj in E2; [|apply Z.mod_pos_bound; lia..].
    f_equal; [|by apply IH]. pose proof (Z.div_mod b 16). pose proof (Z.div_mod b' 16). lia.
Qed.
