(* ===== verification/Primitives.v ===== *)
(** * Bits, bytes and packed floats (core/models/src/primitives.rs)

    The conversions between integers, bit vectors and byte vectors, and the
    floating-point format in which amounts and fees are published: a mantissa
    and a decimal exponent. *)

From S2P Require Import Prelude Bytes Params Externals.
Open Scope Z_scope.

(** ** Bit vectors *)

(** The loops [acc.push(i & 1 == 1); i >>= 1]. *)
Fixpoint push_bits (n : nat) (i : Z) : list bool :=
  match n with
  | O => []
  | S n => (Z.land i 1 =? 1) :: push_bits n (Z.shiftr i 1)
  end.

(** [impl GetBits for u64]: the sixteen low bits of the successor. *)
Definition get_bits_le_u64 (self : Z) : list bool := push_bits 16 (wrap 64 (self + 1)).

Definition get_bits_le_fixed_u128 (num : Z) (n : nat) : list bool :=
  let it_end := if decide (128 < n)%nat then 128%nat else n in
  vec_resize n false (push_bits it_end num).

(** [BitIteratorLe]: an iterator over the bits of 64-bit limbs. *)
Record BitIteratorLe : Type := { it_t : list Z; it_n : nat; it_len : nat }.

Definition BitIteratorLe_new (t : list Z) : BitIteratorLe :=
  {| it_t := t; it_n := 0; it_len := length t * 64 |}.

Definition BitIteratorLe_next (self : BitIteratorLe) : option bool * BitIteratorLe :=
  if decide (self.(it_n) = self.(it_len)) then (None, self)
  else
    let part := (self.(it_n) `div` 64)%nat in
    let bit := (self.(it_n) - 64 * part)%nat in
    (Some (0 <? Z.land (self.(it_t) !!! part) (Z.shiftl 1 (Z.of_nat bit))),
     {| it_t := self.(it_t); it_n := S self.(it_n); it_len := self.(it_len) |}).

(** [it.take(n)], collected. *)
Fixpoint BitIteratorLe_take (n : nat) (it : BitIteratorLe) : list bool :=
  match n with
  | O => []
  | S n =>
      match BitIteratorLe_next it with
      | (Some b, it') => b :: BitIteratorLe_take n it'
      | (None, _) => []
      end
  end.

(** [impl GetBitsFixed for Fr], on the limbs of [into_repr]. *)
Definition get_bits_le_fixed (repr : list Z) (n : nat) : list bool :=
  let r := BitIteratorLe_take n (BitIteratorLe_new repr) in
  r ++ replicate (n - length r) false.

(** ** Packing bits into bytes *)

(** [slice.chunks(n)]; every chunk but the last has [n] elements. *)
Fixpoint chunks_fuel {A} (fuel n : nat) (l : list A) : list (list A) :=
  match fuel, l with
  | O, _ | _, [] => []
  | S fuel, _ => take n l :: chunks_fuel fuel n (drop n l)
  end.
Definition chunks {A} (n : nat) (l : list A) : list (list A) := chunks_fuel (length l) n l.

(** [for (i, bit) in chunk.enumerate() { if *bit { byte |= 1 << i } }] *)
Fixpoint or_bits (i byte : Z) (chunk : list bool) : Z :=
  match chunk with
  | [] => byte
  | b :: chunk => or_bits (i + 1) (if b then Z.lor byte (Z.shiftl 1 i) else byte) chunk
  end.

Definition pack_bits_into_bytes (bits : list bool) : outcome bytes :=
  assert_that (length bits `mod` 8 =? 0)%nat "assertion failed: bits.len() % 8 == 0";;
  Val (or_bits 0 0 <$> chunks 8 bits).

Definition pack_bits_into_bytes_in_order (bits : list bool) : outcome bytes :=
  assert_that (length bits `mod` 8 =? 0)%nat "assertion failed: bits.len() % 8 == 0";;
  Val ((λ c, or_bits 0 0 (reverse c)) <$> chunks 8 bits).

(** core/models/src/circuit/utils.rs: the same loop without the assertion. *)
Definition le_bit_vector_into_bytes (bits : list bool) : bytes := or_bits 0 0 <$> chunks 8 bits.

Fixpoint byte_be_bits (n : nat) (temp : Z) : list bool :=
  match n with
  | O => []
  | S n => (Z.land temp 128 =? 128) :: byte_be_bits n (wrap 8 (Z.shiftl temp 1))
  end.
Definition bytes_into_be_bits (l : bytes) : list bool := concat (byte_be_bits 8 <$> l).

(** ** Packed floats *)

(** [for (i, bit) in bits.enumerate() { if *bit { acc = acc.checked_add(1 << i)? } }] *)
Fixpoint checked_sum_bits (w i acc : Z) (bits : list bool) : option Z :=
  match bits with
  | [] => Some acc
  | b :: bits =>
      acc' ← (if b : bool then checked_add w acc (Z.shiftl 1 (i mod w)) else Some acc);
      checked_sum_bits w (i + 1) acc' bits
  end.

Definition checked_pow_u128 (base e : Z) : option Z :=
  if decide (base ^ e < 2 ^ 128) then Some (base ^ e) else None.

Definition unpack_float (data : bytes) (exponent_len mantissa_len : nat) : option Z :=
  if negb (exponent_len + mantissa_len =? length data * 8)%nat then None
  else
    let bits := bytes_into_be_bits data in
    mantissa ← checked_sum_bits 128 0 0 (reverse (take mantissa_len bits));
    exponent_pow ← checked_sum_bits 32 0 0
                     (reverse (take exponent_len (drop mantissa_len bits)));
    exponent ← checked_pow_u128 10 exponent_pow;
    checked_mul 128 mantissa exponent.

(** [for _ in 0..n { m = m.saturating_mul(base) }] *)
Fixpoint saturating_pow (n : nat) (base m : Z) : Z :=
  match n with
  | O => m
  | S n => saturating_pow n base (saturating_mul 128 m base)
  end.

(** The [loop] that counts how often the base divides the guess.  A [u128] is
    divided at most 127 times by a base of at least two before it is below the
    base, so [128] rounds are enough. *)
Fixpoint exponent_loop (fuel : nat) (base exponent_temp exponent : Z) : Z :=
  match fuel with
  | O => exponent
  | S fuel =>
      if exponent_temp <? base then exponent
      else exponent_loop fuel base (exponent_temp / base) (exponent + 1)
  end.

(** [for _ in 0..exponent { exponent_temp *= exponent_base }] *)
Fixpoint wrapping_pow (n : nat) (base t : Z) : Z :=
  match n with
  | O => t
  | S n => wrapping_pow n base (wrap 128 (t * base))
  end.

(** [for i in 0..n { encoding.push(x & (1 << i) != 0) }] *)
Definition encode_bits (n : nat) (x : Z) : list bool :=
  (λ i : nat, negb (Z.land x (Z.shiftl 1 (Z.of_nat i)) =? 0)) <$> seq 0 n.

(** The exponent and mantissa that [convert_to_float] chooses. *)
Definition float_parts (integer max_mantissa exponent_base : Z) : Z * Z :=
  if integer >? max_mantissa then
    let exponent := exponent_loop 128 exponent_base (integer / max_mantissa) 0 in
    let exponent_temp := wrapping_pow (Z.to_nat exponent) exponent_base 1 in
    let '(exponent, exponent_temp) :=
      if wrap 128 (exponent_temp * max_mantissa) <? integer
      then (exponent + 1, wrap 128 (exponent_temp * exponent_base))
      else (exponent, exponent_temp) in
    (exponent, integer / exponent_temp)
  else (0, integer).

Definition convert_to_float (integer : Z) (exponent_length mantissa_length : nat)
    (exponent_base : Z) : result (list bool) :=
  let max_power := (2 ^ exponent_length - 1)%nat in
  let max_exponent := saturating_pow max_power exponent_base 1 in
  let max_mantissa := Z.shiftl 1 (Z.of_nat mantissa_length) - 1 in
  if integer >? saturating_mul 128 max_mantissa max_exponent then Err "Integer is too big"
  else
    let '(exponent, mantissa) := float_parts integer max_mantissa exponent_base in
    Ok (encode_bits exponent_length exponent ++ encode_bits mantissa_length mantissa).

(** ** Big-endian slices *)

(** [bytes_slice_to_uint32], [..16], [..128]: left-pads the slice with zeros.
    For a slice longer than the integer the subtraction [N - size] underflows
    and the function does not return. *)
Definition bytes_slice_to_uint (n : nat) (l : bytes) : outcome (option Z) :=
  let size := length l in
  if decide (n < size)%nat then Panic "attempt to subtract with overflow"
  else
    let vec := reverse l in
    let vec := vec ++ replicate (n - size) 0 in
    let vec := reverse vec in
    Val (if decide (length vec = n) then Some (from_be_bytes vec) else None).
Definition bytes_slice_to_uint32 : bytes → outcome (option Z) := bytes_slice_to_uint 4.
Definition bytes_slice_to_uint16 : bytes → outcome (option Z) := bytes_slice_to_uint 2.
Definition bytes_slice_to_uint128 : bytes → outcome (option Z) := bytes_slice_to_uint 16.

Definition bytes32_from_slice (l : bytes) : option bytes :=
  if decide (length l ≠ 32%nat) then None else Some (take 32 l).

(** ** Bit vectors: the loops compute binary expansions *)

Lemma land_1_odd i : (Z.land i 1 =? 1) = Z.odd i.
Proof.
  change 1 with (Z.ones 1) at 1. rewrite Z.land_ones by lia.
  rewrite Zmod_odd. by destruct (Z.odd i).
Qed.

Lemma push_bits_le_bits n i : push_bits n i = le_bits n i.
Proof.
  revert i. induction n as [|n IH]; intros i; simpl; [done|].
  by rewrite land_1_odd, IH, Z.shiftr_div_pow2 by lia.
Qed.

Lemma le_bits_zero n : le_bits n 0 = replicate n false.
Proof.
  induction n as [|n IH]; [done|]. cbn [le_bits replicate]. by rewrite Z.div_0_l, IH by lia.
Qed.

Lemma le_bits_split m n z : le_bits (m + n) z = le_bits m z ++ le_bits n (z / 2 ^ Z.of_nat m).
Proof.
  revert z. induction m as [|m IH]; intros z; [simpl; by rewrite Z.div_1_r|].
  simpl. rewrite IH. do 3 f_equal.
  rewrite Zdiv_Zdiv, <- Z.pow_succ_r by lia. do 2 f_equal. lia.
Qed.

Lemma lor_pow2_add i byte : 0 ≤ i → 0 ≤ byte < 2 ^ i → Z.lor byte (Z.shiftl 1 i) = byte + 2 ^ i.
Proof.
  intros Hi Hb. rewrite Z.shiftl_1_l. symmetry. apply Z.add_nocarry_lor.
  apply Z.bits_inj'. intros n Hn. rewrite Z.land_spec, Z.bits_0, Z.pow2_bits_eqb by done.
  destruct (Z.eqb_spec i n) as [->|]; [|by rewrite andb_false_r].
  rewrite andb_true_r. rewrite <- (Z.mod_small byte (2 ^ n)) by done.
  by apply Z.mod_pow2_bits_high.
Qed.

Lemma or_bits_val i byte chunk :
  0 ≤ i → 0 ≤ byte < 2 ^ i → or_bits i byte chunk = byte + 2 ^ i * le_bits_val chunk.
Proof.
  revert i byte. induction chunk as [|b chunk IH]; intros i byte Hi Hb; simpl; [lia|].
  rewrite IH; [|lia|].
  - rewrite Z.pow_add_r by lia. destruct b; [rewrite lor_pow2_add by done|]; simpl; ring.
  - rewrite Z.pow_add_r by lia. destruct b; [rewrite lor_pow2_add by done|]; lia.
Qed.

Lemma or_bits_0 chunk : or_bits 0 0 chunk = le_bits_val chunk.
Proof. rewrite or_bits_val by (simpl; lia). simpl. lia. Qed.

Lemma byte_be_bits_reverse b : is_byte b → byte_be_bits 8 b = reverse (le_bits 8 b).
Proof.
  intros Hb. assert (forallb (λ b, bool_decide (byte_be_bits 8 b = reverse (le_bits 8 b)))
                       (seqZ 0 256) = true) as H by (vm_compute; reflexivity).
  rewrite forallb_forall in H. apply (bool_decide_eq_true_1 _), H.
  apply list_elem_of_In, elem_of_seqZ. unfold is_byte in Hb. lia.
Qed.

(** The iterator yields the binary expansion of the limbs, lowest limb first. *)
Lemma concat_le_bits_lookup limbs i :
  (i < length limbs * 64)%nat →
  concat (le_bits 64 <$> limbs) !! i = Some (Z.testbit (limbs !!! (i `div` 64)) (Z.of_nat (i - 64 * (i `div` 64))))%nat.
Proof.
  revert i. induction limbs as [|x limbs IH]; intros i Hi; [simpl in Hi; lia|].
  rewrite fmap_cons. change (concat (?a :: ?l)) with (a ++ concat l).
  destruct (decide (i < 64)%nat) as [Hlt|Hge].
  - rewrite lookup_app_l by (by rewrite le_bits_length). rewrite Nat.div_small by done.
    rewrite Nat.mul_0_r, Nat.sub_0_r. by apply le_bits_testbit.
  - rewrite lookup_app_r by (rewrite le_bits_length; lia). rewrite le_bits_length, IH by (simpl in Hi; lia).
    destruct (Nat.le_exists_sub 64 i) as (j & -> & _); [lia|]. rewrite Nat.add_sub.
    assert ((j + 64) `div` 64 = S (j `div` 64))%nat as ->
      by (pose proof (Nat.div_add j 1 64 ltac:(lia)); simpl Nat.mul in *; lia).
    change ((x :: limbs) !!! S ?m) with (limbs !!! m). do 3 f_equal. lia.
Qed.

Lemma concat_le_bits_length limbs : length (concat (le_bits 64 <$> limbs)) = (length limbs * 64)%nat.
Proof.
  induction limbs as [|x limbs IH]; [done|]. rewrite fmap_cons.
  change (concat (?a :: ?l)) with (a ++ concat l). rewrite length_app, le_bits_length, IH. simpl. lia.
Qed.

Lemma BitIteratorLe_take_spec n limbs j :
  (j ≤ length limbs * 64)%nat →
  BitIteratorLe_take n {| it_t := limbs; it_n := j; it_len := length limbs * 64 |} =
  take n (drop j (concat (le_bits 64 <$> limbs))).
Proof.
  revert j. induction n as [|n IH]; intros j Hj; cbn [BitIteratorLe_take]; [done|].
  unfold BitIteratorLe_next. cbn [it_t it_n it_len]. case_decide as E.
  - rewrite drop_ge by (rewrite concat_le_bits_length; lia). done.
  - rewrite land_shiftl_testbit, IH by lia.
    rewrite (drop_S _ _ _ (concat_le_bits_lookup limbs j ltac:(lia))). done.
Qed.

Lemma get_bits_le_fixed_spec limbs n :
  get_bits_le_fixed limbs n =
  take n (concat (le_bits 64 <$> limbs)) ++ replicate (n - length limbs * 64) false.
Proof.
  unfold get_bits_le_fixed, BitIteratorLe_new. rewrite BitIteratorLe_take_spec, drop_0 by lia.
  rewrite length_take, concat_le_bits_length. do 2 f_equal. lia.
Qed.

Lemma get_bits_le_fixed_length limbs n : length (get_bits_le_fixed limbs n) = n.
Proof.
  rewrite get_bits_le_fixed_spec, length_app, length_take, length_replicate, concat_le_bits_length. lia.
Qed.

(** Chunks of a vector whose length is a multiple of the chunk size. *)
Lemma chunks_fuel_enough {A} f n (l : list A) :
  (0 < n)%nat → (length l ≤ f)%nat → chunks_fuel f n l = chunks n l.
Proof.
  intros Hn. unfold chunks. assert (∀ f f' (l : list A),
    (length l ≤ f)%nat → (length l ≤ f')%nat → chunks_fuel f n l = chunks_fuel f' n l) as H.
  { clear f l. induction f as [|f IH]; intros f' l H1 H2.
    - destruct l; [by destruct f'|simpl in *; lia].
    - destruct l as [|x l]; [by destruct f'|]. destruct f' as [|f']; [simpl in *; lia|].
      cbn [chunks_fuel]. f_equal. apply IH; rewrite length_drop; simpl in *; lia. }
  intros. by apply H.
Qed.

Lemma chunks_app {A} n (a l : list A) :
  (0 < n)%nat → length a = n → chunks n (a ++ l) = a :: chunks n l.
Proof.
  intros Hn Ha. unfold chunks at 1. rewrite length_app. destruct a as [|x a]; [simpl in Ha; lia|].
  change ((length (x :: a) + length l)%nat) with (S (length a + length l)).
  change ((x :: a) ++ l) with (x :: (a ++ l)).
  cbn [chunks_fuel]. change (x :: (a ++ l)) with ((x :: a) ++ l).
  rewrite take_app_length', drop_app_length' by done.
  f_equal. apply chunks_fuel_enough; [done|lia].
Qed.

Lemma chunks_length {A} n k (l : list A) :
  (0 < n)%nat → length l = (k * n)%nat → length (chunks n l) = k.
Proof.
  intros Hn. revert l. induction k as [|k IH]; intros l Hl; [by destruct l|].
  rewrite <- (take_drop n l), chunks_app; [|done|rewrite length_take; lia].
  simpl. f_equal. apply IH. rewrite length_drop. lia.
Qed.

(** Induction over a vector by blocks of [n] elements. *)
Lemma list_blocks_ind {A} (n : nat) (P : list A → Prop) :
  P [] → (∀ a l, length a = n → P l → P (a ++ l)) →
  ∀ k l, length l = (k * n)%nat → P l.
Proof.
  intros H0 HS k. induction k as [|k IH]; intros l Hl.
  - by destruct l.
  - rewrite <- (take_drop n l). apply HS.
    + rewrite length_take. lia.
    + apply IH. rewrite length_drop. lia.
Qed.

Lemma mod_0_mult n m : (0 < m)%nat → (n `mod` m = 0)%nat → ∃ k, n = (k * m)%nat.
Proof. intros Hm H. exists (n `div` m)%nat. pose proof (Nat.div_mod_eq n m). lia. Qed.

Lemma bytes_into_be_bits_length l : length (bytes_into_be_bits l) = (length l * 8)%nat.
Proof.
  unfold bytes_into_be_bits. induction l as [|b l IH]; [done|].
  rewrite fmap_cons. simpl. simpl in IH. lia.
Qed.

Lemma pack_in_order_app a l :
  length a = 8%nat →
  (λ c, or_bits 0 0 (reverse c)) <$> chunks 8 (a ++ l)
  = le_bits_val (reverse a) :: ((λ c, or_bits 0 0 (reverse c)) <$> chunks 8 l).
Proof. intros. rewrite chunks_app by (done || lia). by rewrite fmap_cons, or_bits_0. Qed.

Lemma le_bits_val_byte l : length l = 8%nat → is_byte (le_bits_val l).
Proof. intros H. pose proof (le_bits_val_bound l) as Hb. rewrite H in Hb. apply Hb. Qed.

Lemma pack_in_order_bytes k bits :
  length bits = (k * 8)%nat →
  Forall is_byte ((λ c, or_bits 0 0 (reverse c)) <$> chunks 8 bits) ∧
  length ((λ c, or_bits 0 0 (reverse c)) <$> chunks 8 bits) = k.
Proof.
  intros Hl. cut (∀ bits, length bits = (k * 8)%nat →
    Forall is_byte ((λ c, or_bits 0 0 (reverse c)) <$> chunks 8 bits) ∧
    (length ((λ c, or_bits 0 0 (reverse c)) <$> chunks 8 bits) * 8 = length bits)%nat).
  { intros H. destruct (H bits Hl). split; [done|lia]. }
  apply (list_blocks_ind 8 (λ bits, Forall is_byte _ ∧ (_ * 8 = length bits)%nat)); [done|].
  intros a l Ha [IH1 IH2]. rewrite pack_in_order_app by done. split.
  - constructor; [|done]. apply le_bits_val_byte. by rewrite length_reverse.
  - rewrite length_app. simpl length. lia.
Qed.

Lemma unpack_pack_in_order k bits :
  length bits = (k * 8)%nat →
  bytes_into_be_bits ((λ c, or_bits 0 0 (reverse c)) <$> chunks 8 bits) = bits.
Proof.
  revert bits. apply list_blocks_ind; [done|]. intros a l Ha IH.
  rewrite pack_in_order_app by done. unfold bytes_into_be_bits. rewrite fmap_cons. cbn [concat].
  rewrite byte_be_bits_reverse by (apply le_bits_val_byte; by rewrite length_reverse).
  f_equal; [|apply IH]. rewrite <- Ha, <- (length_reverse a), le_bits_val_le.
  apply reverse_involutive.
Qed.

(** ** The loops of [convert_to_float] *)

Lemma exponent_loop_spec f base t e :
  2 ≤ base → 1 ≤ t < 2 ^ Z.of_nat f →
  ∃ k, 0 ≤ k ∧ exponent_loop f base t e = e + k ∧ base ^ k ≤ t < base ^ (k + 1).
Proof.
  intros Hb. revert t e. induction f as [|f IH]; intros t e Ht; [simpl in Ht; lia|].
  cbn [exponent_loop]. destruct (Z.ltb_spec t base).
  { exists 0. split; [lia|]. split; [lia|]. simpl Z.add.
    rewrite Z.pow_0_r, Z.pow_1_r. lia. }
  rewrite Nat2Z.inj_succ, Z.pow_succ_r in Ht by lia.
  destruct (IH (t / base) (e + 1)) as (k & Hk & He & Hlo & Hhi).
  { split; [apply Z.div_le_lower_bound; lia|]. apply Z.div_lt_upper_bound; [lia|]. nia. }
  exists (k + 1). split; [lia|]. split; [lia|].
  rewrite !Z.pow_add_r, Z.pow_1_r in * by lia.
  pose proof (Z.mul_div_le t base). pose proof (Z.mul_succ_div_gt t base).
  nia.
Qed.

Lemma wrapping_pow_spec n base t :
  1 ≤ base → 0 ≤ t → t * base ^ Z.of_nat n < 2 ^ 128 →
  wrapping_pow n base t = t * base ^ Z.of_nat n.
Proof.
  intros Hb. revert t. induction n as [|n IH]; intros t Ht H; cbn [wrapping_pow].
  { simpl. lia. }
  rewrite Nat2Z.inj_succ, Z.pow_succ_r in * by lia.
  assert (1 ≤ base ^ Z.of_nat n) by (assert (0 < base ^ Z.of_nat n) by (apply Z.pow_pos_nonneg; lia); lia).
  rewrite wrap_small by (split; nia). rewrite IH by nia. ring.
Qed.

Lemma min_mul_absorb M m base p :
  0 ≤ m ≤ M → 1 ≤ base → 1 ≤ p → Z.min (Z.min (m * base) M * p) M = Z.min (m * (base * p)) M.
Proof.
  intros. destruct (Z.min_spec (m * base) M) as [[? ->]|[? ->]].
  - f_equal. ring.
  - rewrite (Z.min_r (M * p)), Z.min_r; [done|nia..].
Qed.

Lemma pow_ge_1 base n : 1 ≤ base → 0 ≤ n → 1 ≤ base ^ n.
Proof. intros. assert (0 < base ^ n) by (apply Z.pow_pos_nonneg; lia). lia. Qed.

Lemma saturating_pow_spec n base m :
  1 ≤ base → 0 ≤ m ≤ 2 ^ 128 - 1 →
  saturating_pow n base m = Z.min (m * base ^ Z.of_nat n) (2 ^ 128 - 1).
Proof.
  intros Hb. revert m. induction n as [|n IH]; intros m Hm; cbn [saturating_pow].
  { rewrite Z.min_l; simpl Z.of_nat; rewrite Z.pow_0_r; lia. }
  rewrite Nat2Z.inj_succ, Z.pow_succ_r by lia. unfold saturating_mul.
  rewrite IH by lia. apply min_mul_absorb; [done..|]. apply pow_ge_1; lia.
Qed.

Lemma encode_bits_le_bits n x : encode_bits n x = le_bits n x.
Proof.
  apply list_eq_same_length with n; [by rewrite le_bits_length|
    unfold encode_bits; by rewrite length_fmap, length_seq|].
  intros i a b Hi Ha Hb. unfold encode_bits in Ha. rewrite list_lookup_fmap, lookup_seq_lt in Ha by done.
  rewrite le_bits_testbit in Hb by done. simplify_eq/=.
  rewrite Z.shiftl_1_l. destruct (Z.testbit x (Z.of_nat i)) eqn:Hx.
  - apply negb_true_iff, Z.eqb_neq. intros H0. apply (f_equal (λ z, Z.testbit z (Z.of_nat i))) in H0.
    by rewrite Z.land_spec, Hx, Z.pow2_bits_true, Z.bits_0 in H0 by lia.
  - apply negb_false_iff, Z.eqb_eq, Z.bits_inj'. intros j Hj.
    rewrite Z.land_spec, Z.bits_0, Z.pow2_bits_eqb by lia.
    destruct (Z.eqb_spec (Z.of_nat i) j) as [<-|]; [by rewrite Hx|by rewrite andb_false_r].
Qed.

(** The chosen exponent is the least one for which the mantissa fits. *)
Lemma float_parts_spec integer mm :
  fits 128 integer → 10 ≤ mm →
  ∃ e, float_parts integer mm 10 = (e, integer / 10 ^ e) ∧ 0 ≤ e ∧
       integer ≤ mm * 10 ^ e ∧ (e = 0 ∨ mm * 10 ^ (e - 1) < integer).
Proof.
  intros [H0 H1] Hmm. unfold float_parts. destruct (Z.gtb_spec integer mm) as [Hgt|Hle].
  2: { exists 0. rewrite Z.pow_0_r, Z.div_1_r. repeat split; lia. }
  destruct (exponent_loop_spec 128 10 (integer / mm) 0) as (k & Hk & -> & Hlo & Hhi); [lia|..].
  { split; [apply Z.div_le_lower_bound; lia|]. change (Z.of_nat 128) with 128.
    apply Z.div_lt_upper_bound; [lia|]. nia. }
  rewrite Z.add_0_l. pose proof (Z.mul_div_le integer mm). pose proof (Z.mul_succ_div_gt integer mm).
  pose proof (pow_ge_1 10 k). rewrite wrapping_pow_spec; rewrite ?Z2Nat.id by lia; [|nia..].
  rewrite Z.mul_1_l, (wrap_small 128 (10 ^ k * mm)) by (split; nia).
  rewrite Z.pow_add_r, Z.pow_1_r in Hhi by lia.
  destruct (Z.ltb_spec (10 ^ k * mm) integer).
  - rewrite wrap_small by (split; nia).
    replace (10 ^ k * 10) with (10 ^ (k + 1)) by (rewrite Z.pow_add_r, Z.pow_1_r by lia; ring).
    exists (k + 1). rewrite Z.add_simpl_r. split; [done|]. split; [lia|].
    rewrite Z.pow_add_r, Z.pow_1_r by lia. split; [nia|right; nia].
  - exists k. repeat split; [lia|nia|]. destruct (decide (k = 0)) as [|Hk0]; [by left|right].
    assert (10 ^ k = 10 * 10 ^ (k - 1)) by (rewrite <- Z.pow_succ_r by lia; f_equal; lia). nia.
Qed.

Lemma shiftl_1_pow n : Z.shiftl 1 (Z.of_nat n) = 2 ^ Z.of_nat n.
Proof. by rewrite Z.shiftl_1_l. Qed.

Lemma pow2_nat n : Z.of_nat (2 ^ n - 1) = 2 ^ Z.of_nat n - 1.
Proof.
  assert (1 ≤ 2 ^ n)%nat by (apply Nat.neq_0_lt_0, Nat.pow_nonzero; lia).
  rewrite Nat2Z.inj_sub, Nat2Z.inj_pow by done. done.
Qed.

Lemma pow2_ge_16 ml : (4 ≤ ml)%nat → 16 ≤ 2 ^ Z.of_nat ml.
Proof. intros. change 16 with (2 ^ 4). apply Z.pow_le_mono_r; lia. Qed.

(** [convert_to_float] with base ten rejects exactly the integers above
    [(2^ml - 1) * 10^(2^el - 1)]; every other integer is written as the bits of an
    exponent [e] and of the mantissa [integer / 10^e], both within their widths,
    where [e] is the least exponent for which the mantissa fits (best precision). *)
Theorem convert_to_float_spec integer el ml :
  fits 128 integer → (4 ≤ ml)%nat →
  match convert_to_float integer el ml 10 with
  | Err _ => (2 ^ Z.of_nat ml - 1) * 10 ^ (2 ^ Z.of_nat el - 1) < integer
  | Ok bits =>
      integer ≤ (2 ^ Z.of_nat ml - 1) * 10 ^ (2 ^ Z.of_nat el - 1) ∧
      ∃ e, bits = le_bits el e ++ le_bits ml (integer / 10 ^ e) ∧
           0 ≤ e < 2 ^ Z.of_nat el ∧ 0 ≤ integer / 10 ^ e < 2 ^ Z.of_nat ml ∧
           (e = 0 ∨ (2 ^ Z.of_nat ml - 1) * 10 ^ (e - 1) < integer)
  end.
Proof.
  intros Hi Hml. pose proof (pow2_ge_16 ml Hml). pose proof (proj1 Hi) as H0.
  pose proof (proj2 Hi) as H1. unfold convert_to_float.
  rewrite shiftl_1_pow, saturating_pow_spec, Z.mul_1_l, pow2_nat by lia.
  set (mm := 2 ^ Z.of_nat ml - 1) in *. unfold saturating_mul.
  assert (0 ≤ 2 ^ Z.of_nat el - 1) as Hp
    by (pose proof (pow_ge_1 2 (Z.of_nat el)); lia).
  pose proof (pow_ge_1 10 _ ltac:(lia) Hp) as Hp10.
  destruct (Z.gtb_spec integer (Z.min (mm * Z.min (10 ^ (2 ^ Z.of_nat el - 1)) (2 ^ 128 - 1))
                                  (2 ^ 128 - 1))) as [Hgt|Hle].
  { destruct (Z.min_spec (10 ^ (2 ^ Z.of_nat el - 1)) (2 ^ 128 - 1)) as [[? E]|[? E]];
      rewrite E in Hgt; nia. }
  destruct (float_parts_spec integer mm Hi) as (e & -> & He & Hfit & Hmin); [lia|].
  rewrite !encode_bits_le_bits. split.
  { destruct (Z.min_spec (10 ^ (2 ^ Z.of_nat el - 1)) (2 ^ 128 - 1)) as [[? E]|[? E]];
      rewrite E in Hle; nia. }
  exists e. split; [done|].
  assert (0 < 10 ^ e) by (apply Z.pow_pos_nonneg; lia). split; [split; [done|]|split; [|done]].
  - destruct Hmin as [->|Hmin]; [lia|].
    destruct (Z.le_gt_cases (2 ^ Z.of_nat el) e) as [Hge|]; [|done].
    assert (10 ^ (2 ^ Z.of_nat el - 1) ≤ 10 ^ (e - 1)) by (apply Z.pow_le_mono_r; lia). nia.
  - split; [by apply Z.div_pos|]. apply Z.div_lt_upper_bound; [lia|]. subst mm. nia.
Qed.

Lemma checked_sum_bits_spec w i acc bits :
  0 ≤ i → i + Z.of_nat (length bits) ≤ w → 0 ≤ acc < 2 ^ i →
  checked_sum_bits w i acc bits = Some (acc + 2 ^ i * le_bits_val bits).
Proof.
  revert i acc. induction bits as [|b bits IH]; intros i acc Hi Hw Ha; simpl.
  { f_equal. lia. }
  simpl length in Hw. rewrite Nat2Z.inj_succ in Hw.
  assert (2 ^ (i + 1) = 2 * 2 ^ i) as Hpow by (rewrite Z.pow_add_r by lia; lia).
  assert (2 ^ (i + 1) ≤ 2 ^ w) by (apply Z.pow_le_mono_r; lia).
  destruct b; simpl.
  - rewrite Z.mod_small, Z.shiftl_1_l by lia. unfold checked_add.
    rewrite decide_True by lia. simpl. rewrite IH by lia. f_equal. rewrite Hpow. ring.
  - rewrite IH by lia. f_equal. rewrite Hpow. ring.
Qed.

Lemma checked_sum_bits_le n w x :
  0 ≤ x < 2 ^ Z.of_nat n → Z.of_nat n ≤ w → checked_sum_bits w 0 0 (le_bits n x) = Some x.
Proof.
  intros Hx Hn. rewrite checked_sum_bits_spec.
  - rewrite le_bits_le_val by done. f_equal. lia.
  - lia.
  - rewrite le_bits_length. lia.
  - lia.
Qed.

(** Packed bytes decode to the mantissa times the power of ten. *)
Lemma unpack_float_packed k el ml e m data :
  (el + ml = k * 8)%nat → (el ≤ 32)%nat → (ml ≤ 128)%nat →
  0 ≤ e < 2 ^ Z.of_nat el → 0 ≤ m < 2 ^ Z.of_nat ml →
  10 ^ e < 2 ^ 128 → m * 10 ^ e < 2 ^ 128 →
  pack_bits_into_bytes_in_order (reverse (le_bits el e ++ le_bits ml m)) = Val data →
  length data = k ∧ unpack_float data el ml = Some (m * 10 ^ e).
Proof.
  intros Hk Hel Hml He Hm H1 H2 Hdata. unfold pack_bits_into_bytes_in_order in Hdata.
  apply outcome_bind_Val in Hdata as (u & _ & [= <-]).
  set (bits := reverse (le_bits el e ++ le_bits ml m)).
  assert (length bits = (k * 8)%nat) as Hlen.
  { subst bits. rewrite length_reverse, length_app, !le_bits_length. done. }
  destruct (pack_in_order_bytes k bits Hlen) as [_ Hlen']. split; [done|].
  unfold unpack_float. rewrite Hlen', Hk, Nat.eqb_refl. simpl negb. cbv iota.
  rewrite (unpack_pack_in_order k) by done. subst bits. rewrite reverse_app.
  rewrite take_app_length' by (by rewrite length_reverse, le_bits_length).
  rewrite reverse_involutive, checked_sum_bits_le by (done || lia). cbn [mbind option_bind].
  rewrite drop_app_length' by (by rewrite length_reverse, le_bits_length).
  rewrite take_ge by (by rewrite length_reverse, le_bits_length).
  rewrite reverse_involutive, checked_sum_bits_le by (done || lia). cbn [mbind option_bind].
  unfold checked_pow_u128. rewrite decide_True by done. cbn [mbind option_bind].
  unfold checked_mul. by rewrite decide_True.
Qed.
