(* ===== verification/Amounts.v ===== *)
(** * Packed fees and amounts (core/models/src/node/mod.rs, primitives.rs)

    Fees and token amounts are [BigDecimal]s that are published as packed
    floats.  The packing of both is [pack_as_float] with different widths. *)

From S2P Require Import Prelude Bytes Params Externals Primitives.
Open Scope Z_scope.

Section Amounts.
  Context `{EX : External}.

Definition big_decimal_to_u128 (d : BigDecimal) : outcome Z :=
  assert_that (bd_is_integer d) "big decimal should be integer";;
  unwrap "called `Result::unwrap()` on an `Err` value" (bd_parse_u128 d).

Definition u128_to_bigdecimal (n : Z) : BigDecimal := bd_of_u128 n.

Definition pack_as_float (number : BigDecimal) (exponent_len mantissa_len : nat) : outcome bytes :=
  uint ← big_decimal_to_u128 number;
  vec ← match convert_to_float uint exponent_len mantissa_len 10 with
        | Ok vec => Val vec
        | Err _ => Panic "packing error"
        end;
  pack_bits_into_bytes_in_order (reverse vec).

Definition unpack_as_big_decimal (data : bytes) (exponent_len mantissa_len : nat) :
    option BigDecimal :=
  amount_u128 ← unpack_float data exponent_len mantissa_len;
  Some (bd_of_u128 amount_u128).

Definition pack_token_amount (amount : BigDecimal) : outcome bytes :=
  pack_as_float amount AMOUNT_EXPONENT_BIT_WIDTH AMOUNT_MANTISSA_BIT_WIDTH.

Definition pack_fee_amount (amount : BigDecimal) : outcome bytes :=
  pack_as_float amount FEE_EXPONENT_BIT_WIDTH FEE_MANTISSA_BIT_WIDTH.

Definition unpack_token_amount (data : bytes) : option BigDecimal :=
  u128_to_bigdecimal <$> unpack_float data AMOUNT_EXPONENT_BIT_WIDTH AMOUNT_MANTISSA_BIT_WIDTH.

Definition unpack_fee_amount (data : bytes) : option BigDecimal :=
  u128_to_bigdecimal <$> unpack_float data FEE_EXPONENT_BIT_WIDTH FEE_MANTISSA_BIT_WIDTH.

(** [Some(amount) == unpacked], with the equality of [BigDecimal]. *)
Definition option_bd_eqb (a b : option BigDecimal) : bool :=
  match a, b with
  | Some a, Some b => bd_eqb a b
  | None, None => true
  | _, _ => false
  end.

Definition is_token_amount_packable (amount : BigDecimal) : outcome bool :=
  packed ← pack_token_amount amount;
  Val (option_bd_eqb (Some amount) (unpack_token_amount packed)).

Definition is_fee_amount_packable (amount : BigDecimal) : outcome bool :=
  packed ← pack_fee_amount amount;
  Val (option_bd_eqb (Some amount) (unpack_fee_amount packed)).

Definition closest_packable_fee_amount (amount : BigDecimal) : outcome BigDecimal :=
  fee_packed ← pack_fee_amount amount;
  unwrap "fee repacking" (unpack_fee_amount fee_packed).

Definition closest_packable_token_amount (amount : BigDecimal) : outcome BigDecimal :=
  fee_packed ← pack_token_amount amount;
  unwrap "token amount repacking" (unpack_token_amount fee_packed).

(** ** What packing computes *)

(** [d] is an integral decimal that holds the [u128] [n]. *)
Definition bd_holds (d : BigDecimal) (n : Z) : Prop :=
  bd_is_integer d = true ∧ bd_parse_u128 d = Some n.

(** The values representable with a given mantissa and exponent width. *)
Definition representable (el ml : nat) (n : Z) : Prop :=
  ∃ m e, 0 ≤ m < 2 ^ Z.of_nat ml ∧ 0 ≤ e < 2 ^ Z.of_nat el ∧ n = m * 10 ^ e.

Context `{EXL : !ExternalLaws}.

Lemma bd_of_u128_holds n : fits 128 n → bd_holds (bd_of_u128 n) n.
Proof. split; [by apply bd_of_u128_integer|by apply bd_parse_of_u128]. Qed.

Lemma big_decimal_to_u128_holds d n : bd_holds d n → big_decimal_to_u128 d = Val n.
Proof. intros [H1 H2]. unfold big_decimal_to_u128. rewrite H1, H2. done. Qed.

Lemma pack_reverse_Val bits k :
  length bits = (k * 8)%nat →
  ∃ data, pack_bits_into_bytes_in_order (reverse bits) = Val data.
Proof.
  intros Hl. unfold pack_bits_into_bytes_in_order.
  rewrite length_reverse, Hl, Nat.Div0.mod_mul. simpl. eauto.
Qed.

(** The shape of a packing: the fields that the format has for fees and amounts. *)
Lemma pack_as_float_spec el ml k d n :
  (el + ml = k * 8)%nat → (el ≤ 32)%nat → (4 ≤ ml ≤ 128)%nat → bd_holds d n →
  (n ≤ (2 ^ Z.of_nat ml - 1) * 10 ^ (2 ^ Z.of_nat el - 1) →
   ∃ data e, pack_as_float d el ml = Val data ∧ length data = k ∧
     unpack_float data el ml = Some (n / 10 ^ e * 10 ^ e) ∧
     0 ≤ e < 2 ^ Z.of_nat el ∧ 0 ≤ n / 10 ^ e < 2 ^ Z.of_nat ml ∧
     (e = 0 ∨ (2 ^ Z.of_nat ml - 1) * 10 ^ (e - 1) < n)) ∧
  ((2 ^ Z.of_nat ml - 1) * 10 ^ (2 ^ Z.of_nat el - 1) < n →
   pack_as_float d el ml = Panic "packing error").
Proof.
  intros Hk Hel Hml Hd. assert (fits 128 n) as Hn by (by eapply bd_parse_fits, Hd).
  pose proof (pow2_ge_16 ml ltac:(lia)) as H16.
  unfold pack_as_float. rewrite (big_decimal_to_u128_holds d n Hd). cbn [mbind outcome_bind].
  pose proof (convert_to_float_spec n el ml Hn ltac:(lia)) as Hc.
  destruct (convert_to_float n el ml 10) as [bits|err].
  2: { split; [lia|done]. }
  destruct Hc as (Hbound & e & -> & He & Hm & Hmin). cbn [mbind outcome_bind]. split.
  - intros _. edestruct (pack_reverse_Val (le_bits el e ++ le_bits ml (n / 10 ^ e)) k) as [data Hdata].
    { by rewrite length_app, !le_bits_length. }
    assert (0 < 10 ^ e) by (apply Z.pow_pos_nonneg; lia).
    pose proof (Z.mul_div_le n (10 ^ e)). destruct Hn as [Hn0 Hn1].
    destruct (unpack_float_packed k el ml e (n / 10 ^ e) data) as [Hlen Hun]; try (done || lia).
    { destruct (decide (e = 0)) as [->|He0]; [simpl; lia|]. destruct Hmin as [|Hmin]; [done|].
      replace (10 ^ e) with (10 * 10 ^ (e - 1)) by (rewrite <- Z.pow_succ_r by lia; f_equal; lia).
      nia. }
    exists data, e. repeat split; done || lia.
  - intros Hbig. lia.
Qed.

Lemma representable_exact el ml n e :
  0 ≤ n → 0 ≤ e → n / 10 ^ e < 2 ^ Z.of_nat ml →
  (e = 0 ∨ (2 ^ Z.of_nat ml - 1) * 10 ^ (e - 1) < n) →
  representable el ml n → n / 10 ^ e * 10 ^ e = n.
Proof.
  intros Hn He _ Hmin (m & e' & Hm & He' & ->).
  assert (0 < 10 ^ e) by (apply Z.pow_pos_nonneg; lia).
  assert (0 < 10 ^ e') by (apply Z.pow_pos_nonneg; lia).
  destruct (Z.le_gt_cases e e') as [Hle|Hlt].
  - replace e' with ((e' - e) + e) by lia. rewrite Z.pow_add_r by lia.
    by rewrite Z.mul_assoc, Z.div_mul by lia.
  - destruct Hmin as [->|Hmin]; [lia|]. exfalso.
    assert (10 ^ e' ≤ 10 ^ (e - 1)) by (apply Z.pow_le_mono_r; lia). nia.
Qed.

(** A value is unchanged by packing and unpacking exactly when it is representable. *)
Lemma packed_value_eq_iff el ml n e :
  0 ≤ n → 0 ≤ e < 2 ^ Z.of_nat el → 0 ≤ n / 10 ^ e < 2 ^ Z.of_nat ml →
  (e = 0 ∨ (2 ^ Z.of_nat ml - 1) * 10 ^ (e - 1) < n) →
  n / 10 ^ e * 10 ^ e = n ↔ representable el ml n.
Proof.
  intros Hn He Hm Hmin. split.
  - intros <-. by exists (n / 10 ^ e), e.
  - apply representable_exact; [done|lia..|done].
Qed.

Lemma representable_bound el ml n :
  representable el ml n → n ≤ (2 ^ Z.of_nat ml - 1) * 10 ^ (2 ^ Z.of_nat el - 1).
Proof.
  intros (m & e & Hm & He & ->).
  assert (10 ^ e ≤ 10 ^ (2 ^ Z.of_nat el - 1)) by (apply Z.pow_le_mono_r; lia).
  assert (0 < 10 ^ e) by (apply Z.pow_pos_nonneg; lia). nia.
Qed.

(** The check of [is_*_amount_packable], for any widths. *)
Lemma packable_iff el ml k d n :
  (el + ml = k * 8)%nat → (el ≤ 32)%nat → (4 ≤ ml ≤ 128)%nat → bd_holds d n →
  (packed ← pack_as_float d el ml;
   Val (option_bd_eqb (Some d) (u128_to_bigdecimal <$> unpack_float packed el ml))) = Val true
  ↔ representable el ml n.
Proof.
  intros Hk Hel Hml Hd. assert (fits 128 n) as Hn by (by eapply bd_parse_fits, Hd).
  destruct (pack_as_float_spec el ml k d n Hk Hel Hml Hd) as [Hfit Hbig].
  destruct (Z.le_gt_cases n ((2 ^ Z.of_nat ml - 1) * 10 ^ (2 ^ Z.of_nat el - 1))) as [Hle|Hlt].
  2: { rewrite Hbig by done. split; [done|]. intros ?%representable_bound. lia. }
  destruct (Hfit Hle) as (data & e & -> & _ & Hun & He & Hm & Hmin). cbn [mbind outcome_bind].
  rewrite Hun. cbn [fmap option_fmap option_map]. unfold option_bd_eqb, u128_to_bigdecimal.
  destruct Hn as [Hn0 Hn1]. assert (0 < 10 ^ e) by (apply Z.pow_pos_nonneg; lia).
  pose proof (Z.mul_div_le n (10 ^ e)).
  erewrite bd_eqb_parse; [|apply Hd|apply bd_of_u128_holds; split; lia].
  rewrite <- (packed_value_eq_iff el ml n e) by (done || lia).
  split; [intros [= E%Z.eqb_eq]; lia|]. intros ->. by rewrite Z.eqb_refl.
Qed.

(** A representable value survives packing and unpacking. *)
Lemma pack_as_float_roundtrip el ml k d n :
  (el + ml = k * 8)%nat → (el ≤ 32)%nat → (4 ≤ ml ≤ 128)%nat → bd_holds d n →
  representable el ml n →
  ∃ data, pack_as_float d el ml = Val data ∧ length data = k ∧ unpack_float data el ml = Some n.
Proof.
  intros Hk Hel Hml Hd Hr. assert (fits 128 n) as [Hn0 _] by (by eapply bd_parse_fits, Hd).
  destruct (pack_as_float_spec el ml k d n Hk Hel Hml Hd) as [Hfit _].
  destruct (Hfit (representable_bound _ _ _ Hr)) as (data & e & Hp & Hlen & Hun & He & Hm & Hmin).
  exists data. split; [done|]. split; [done|]. rewrite Hun. f_equal.
  by apply (packed_value_eq_iff el ml).
Qed.

Lemma pack_fee_roundtrip d n :
  bd_holds d n → representable FEE_EXPONENT_BIT_WIDTH FEE_MANTISSA_BIT_WIDTH n →
  ∃ data, pack_fee_amount d = Val data ∧ length data = 2%nat ∧
    unpack_fee_amount data = Some (u128_to_bigdecimal n).
Proof.
  intros Hd Hr. destruct (pack_as_float_roundtrip 5 11 2 d n) as (data & H1 & H2 & H3);
    [done|lia..|done|done|].
  exists data. repeat split; try done. unfold unpack_fee_amount.
  change FEE_EXPONENT_BIT_WIDTH with 5%nat. change FEE_MANTISSA_BIT_WIDTH with 11%nat.
  by rewrite H3.
Qed.

(** Any two bytes are a packed fee: no exponent and mantissa of the format overflow. *)
Lemma unpack_fee_total data :
  length data = 2%nat → ∃ n, unpack_fee_amount data = Some (u128_to_bigdecimal n) ∧ fits 128 n.
Proof.
  intros Hl. unfold unpack_fee_amount, unpack_float. rewrite Hl.
  change FEE_EXPONENT_BIT_WIDTH with 5%nat. change FEE_MANTISSA_BIT_WIDTH with 11%nat.
  change (negb (5 + 11 =? 2 * 8)%nat) with false. cbv iota.
  pose proof (bytes_into_be_bits_length data) as Hb. rewrite Hl in Hb.
  set (bits := bytes_into_be_bits data) in *. set (m := reverse (take 11 bits)).
  set (e := reverse (take 5 (drop 11 bits))).
  assert (length m = 11%nat) as Hm by (subst m; rewrite length_reverse, length_take; lia).
  assert (length e = 5%nat) as He by (subst e; rewrite length_reverse, length_take, length_drop; lia).
  rewrite (checked_sum_bits_spec 128 0 0 m) by (rewrite ?Hm; simpl; lia). cbn [mbind option_bind].
  rewrite (checked_sum_bits_spec 32 0 0 e) by (rewrite ?He; simpl; lia).
  pose proof (le_bits_val_bound m) as Bm. pose proof (le_bits_val_bound e) as Be.
  rewrite Hm in Bm. rewrite He in Be. change (2 ^ Z.of_nat 11) with 2048 in Bm.
  change (2 ^ Z.of_nat 5) with 32 in Be.
  replace (0 + 2 ^ 0 * le_bits_val m) with (le_bits_val m) by lia.
  replace (0 + 2 ^ 0 * le_bits_val e) with (le_bits_val e) by lia. cbn [mbind option_bind].
  assert (0 < 10 ^ le_bits_val e ≤ 10 ^ 31) as Hp
    by (split; [apply Z.pow_pos_nonneg; lia|apply Z.pow_le_mono_r; lia]).
  assert (2048 * 10 ^ 31 < 2 ^ 128) as Hbig by done.
  unfold checked_pow_u128. rewrite decide_True by lia. cbn [mbind option_bind].
  unfold checked_mul. rewrite decide_True by nia. eexists. split; [done|]. split; nia.
Qed.

(** When the check of [is_*_amount_packable] panics, for any widths. *)
Lemma packable_panics_iff el ml k d n :
  (el + ml = k * 8)%nat → (el ≤ 32)%nat → (4 ≤ ml ≤ 128)%nat → bd_holds d n →
  (packed ← pack_as_float d el ml;
   Val (option_bd_eqb (Some d) (u128_to_bigdecimal <$> unpack_float packed el ml)))
  = Panic "packing error"
  ↔ (2 ^ Z.of_nat ml - 1) * 10 ^ (2 ^ Z.of_nat el - 1) < n.
Proof.
  intros Hk Hel Hml Hd. destruct (pack_as_float_spec el ml k d n Hk Hel Hml Hd) as [Hfit Hbig].
  split; [|intros Hlt; by rewrite Hbig].
  intros E. apply Z.nle_gt. intros Hle. destruct (Hfit Hle) as (data & e & Hp & _).
  by rewrite Hp in E.
Qed.

Lemma is_fee_amount_packable_iff amount n :
  bd_holds amount n →
  is_fee_amount_packable amount = Val true ↔
  representable FEE_EXPONENT_BIT_WIDTH FEE_MANTISSA_BIT_WIDTH n.
Proof.
  intros Hd. apply (packable_iff _ _ 2); [done|compute; lia|split; compute; lia|done].
Qed.

(** The checks of packability are exact: a fee (a token amount) that is an integral
    decimal passes [is_fee_amount_packable] ([is_token_amount_packable]) if and only if
    it equals [m * 10^e] for a mantissa of 11 (35) bits and an exponent of 5 bits. The
    check of a fee panics exactly above the largest packable fee, [2047 * 10^31]; the
    check of a token amount never panics, because every 128-bit integer is below the
    largest packable amount. *)
Theorem packable_checks_correct amount n :
  bd_holds amount n →
  (is_fee_amount_packable amount = Val true ↔
   representable FEE_EXPONENT_BIT_WIDTH FEE_MANTISSA_BIT_WIDTH n) ∧
  (is_fee_amount_packable amount = Panic "packing error" ↔ 2047 * 10 ^ 31 < n) ∧
  (is_token_amount_packable amount = Val true ↔
   representable AMOUNT_EXPONENT_BIT_WIDTH AMOUNT_MANTISSA_BIT_WIDTH n) ∧
  is_token_amount_packable amount ≠ Panic "packing error".
Proof.
  intros Hd. split; [by apply is_fee_amount_packable_iff|].
  split; [apply (packable_panics_iff 5 11 2); done || lia|].
  split; [apply (packable_iff 5 35 5); done || lia|].
  intros E. pose proof (packable_panics_iff 5 35 5 amount n) as [Hp _]; [done || lia..|].
  specialize (Hp E).
  destruct (bd_parse_fits amount n) as [_ Hn]; [by eapply Hd|].
  assert (2 ^ 128 < (2 ^ Z.of_nat 35 - 1) * 10 ^ (2 ^ Z.of_nat 5 - 1)) by done. lia.
Qed.

(** [closest_packable_fee_amount] returns for every fee up to the largest packable
    one; the result is packable, is not above the fee, and the fee loses less than
    ten parts in 2047 (it loses nothing when its exponent is zero). *)
Theorem closest_packable_fee_spec amount n :
  bd_holds amount n → n ≤ 2047 * 10 ^ 31 →
  ∃ r q, closest_packable_fee_amount amount = Val r ∧ bd_holds r q ∧
    is_fee_amount_packable r = Val true ∧
    q ≤ n ∧ (q = n ∨ 2047 * (n - q) < 10 * n).
Proof.
  intros Hd Hle. assert (fits 128 n) as [Hn0 Hn1] by (by eapply bd_parse_fits, Hd).
  destruct (pack_as_float_spec 5 11 2 amount n) as [Hfit _]; [done|lia..|done|].
  destruct (Hfit Hle) as (data & e & Hpack & _ & Hun & He & Hm & Hmin).
  assert (0 < 10 ^ e) by (apply Z.pow_pos_nonneg; lia). pose proof (Z.mul_div_le n (10 ^ e)).
  pose proof (Z.mul_succ_div_gt n (10 ^ e)).
  exists (bd_of_u128 (n / 10 ^ e * 10 ^ e)), (n / 10 ^ e * 10 ^ e).
  assert (bd_holds (bd_of_u128 (n / 10 ^ e * 10 ^ e)) (n / 10 ^ e * 10 ^ e)) as Hr
    by (apply bd_of_u128_holds; split; lia).
  split; [|split; [done|split]].
  - unfold closest_packable_fee_amount, pack_fee_amount, unpack_fee_amount.
    change FEE_EXPONENT_BIT_WIDTH with 5%nat. change FEE_MANTISSA_BIT_WIDTH with 11%nat.
    rewrite Hpack. cbn [mbind outcome_bind]. by rewrite Hun.
  - apply (packable_iff 5 11 2 _ (n / 10 ^ e * 10 ^ e)); [done|lia..|done|].
    by exists (n / 10 ^ e), e.
  - split; [lia|]. change (2 ^ Z.of_nat 11 - 1) with 2047 in Hmin.
    destruct (decide (e = 0)) as [->|He0]; [left; rewrite Z.pow_0_r, Z.div_1_r; lia|right].
    destruct Hmin as [|Hmin]; [done|].
    assert (10 ^ e = 10 * 10 ^ (e - 1)) by (rewrite <- Z.pow_succ_r by lia; f_equal; lia). nia.
Qed.
End Amounts.
