(* ===== verification/Account.v ===== *)
(** * Accounts and account updates (core/models/src/node/account.rs, mod.rs)

    An account owns a set of ERC-721 token ids.  Every state change is recorded
    as a list of [AccountUpdate]s: the database stores them, replays them to
    move a state forward and replays their reversals to move it back. *)

From S2P Require Import Prelude Bytes Params.
Open Scope Z_scope.

(** [web3::types::Address] is a 20-byte array. *)
Notation Address := (list Z) (only parsing).
Notation TokenId := Z (only parsing).
Notation AccountId := Z (only parsing).
Notation Nonce := Z (only parsing).
Notation BlockNumber := Z (only parsing).

Definition Address_zero : Address := replicate 20 0.

Record PubKeyHash : Type := mkPubKeyHash { pkh_data : bytes }.
#[global] Instance PubKeyHash_eq_dec : EqDecision PubKeyHash.
Proof. solve_decision. Defined.

Definition PubKeyHash_default : PubKeyHash := mkPubKeyHash (replicate FR_ADDRESS_LEN 0).
Definition PubKeyHash_zero : PubKeyHash := mkPubKeyHash (replicate FR_ADDRESS_LEN 0).

Definition PubKeyHash_from_bytes (l : bytes) : Fallible PubKeyHash :=
  _ ← ensure_that (length l =? FR_ADDRESS_LEN)%nat "Size mismatch";
  Val (Ok (mkPubKeyHash l)).

Record Account : Type := mkAccount {
  pub_key_hash : PubKeyHash;
  address : Address;
  tokens : gset TokenId;
  nonce : Nonce;
}.
#[global] Instance Account_eq_dec : EqDecision Account.
Proof. solve_decision. Defined.

Definition Account_default : Account := {|
  pub_key_hash := PubKeyHash_default;
  address := Address_zero;
  tokens := ∅;
  nonce := 0;
|}.

(** Field assignments. *)
Definition set_pub_key_hash (h : PubKeyHash) (a : Account) : Account :=
  {| pub_key_hash := h; address := address a; tokens := tokens a; nonce := nonce a |}.
Definition set_address (ad : Address) (a : Account) : Account :=
  {| pub_key_hash := pub_key_hash a; address := ad; tokens := tokens a; nonce := nonce a |}.
Definition set_nonce (n : Nonce) (a : Account) : Account :=
  {| pub_key_hash := pub_key_hash a; address := address a; tokens := tokens a; nonce := n |}.
Definition set_tokens (t : gset TokenId) (a : Account) : Account :=
  {| pub_key_hash := pub_key_hash a; address := address a; tokens := t; nonce := nonce a |}.

Inductive AccountUpdate : Type :=
| Create (address : Address) (nonce : Nonce)
| Delete (address : Address) (nonce : Nonce)
| AddToken (old_nonce new_nonce : Nonce) (token : TokenId)
| RemoveToken (old_nonce new_nonce : Nonce) (token : TokenId)
| ChangePubKeyHash (old_pub_key_hash new_pub_key_hash : PubKeyHash) (old_nonce new_nonce : Nonce).
#[global] Instance AccountUpdate_eq_dec : EqDecision AccountUpdate.
Proof. solve_decision. Defined.

Notation AccountMap := (gmap Z Account) (only parsing).
Notation AccountUpdates := (list (Z * AccountUpdate)) (only parsing).

Definition reversed_update (u : AccountUpdate) : AccountUpdate :=
  match u with
  | Create address nonce => Delete address nonce
  | Delete address nonce => Create address nonce
  | AddToken old_nonce new_nonce token => RemoveToken new_nonce old_nonce token
  | RemoveToken old_nonce new_nonce token => AddToken new_nonce old_nonce token
  | ChangePubKeyHash old_pub_key_hash new_pub_key_hash old_nonce new_nonce =>
      ChangePubKeyHash new_pub_key_hash old_pub_key_hash new_nonce old_nonce
  end.

Definition default_with_address (ad : Address) : Account := set_address ad Account_default.

Definition create_account (id : AccountId) (ad : Address) : Account * AccountUpdates :=
  let account := set_address ad Account_default in
  (account, [(id, Create (address account) (nonce account))]).

Definition has_token (token_id : TokenId) (a : Account) : bool := bool_decide (token_id ∈ tokens a).
Definition add_token (token_id : TokenId) (a : Account) : Account :=
  set_tokens ({[token_id]} ∪ tokens a) a.
Definition remove_token (token_id : TokenId) (a : Account) : Account :=
  set_tokens (tokens a ∖ {[token_id]}) a.
(** A [BTreeSet] iterates in increasing order. *)
Definition get_tokens (a : Account) : list TokenId := merge_sort Z.le (elements (tokens a)).

Definition Account_apply_update (account : option Account) (update : AccountUpdate) :
    option Account :=
  match account with
  | Some account =>
      match update with
      | Delete _ _ => None
      | AddToken _ new_nonce token => Some (set_nonce new_nonce (add_token token account))
      | RemoveToken _ new_nonce token => Some (set_nonce new_nonce (remove_token token account))
      | ChangePubKeyHash _ new_pub_key_hash _ new_nonce =>
          Some (set_nonce new_nonce (set_pub_key_hash new_pub_key_hash account))
      | _ => Some account
      end
  | None =>
      match update with
      | Create address nonce => Some (set_nonce nonce (set_address address Account_default))
      | _ => None
      end
  end.

Definition Account_apply_updates (account : option Account) (updates : list AccountUpdate) :
    option Account := foldl Account_apply_update account updates.

(** One round of the loop of [apply_updates]. *)
Definition apply_update_to_map (accounts : AccountMap) (u : Z * AccountUpdate) : AccountMap :=
  let '(id, update) := u in
  match Account_apply_update (accounts !! id) update with
  | Some account => <[id := account]> (delete id accounts)
  | None => delete id accounts
  end.

Definition apply_updates (accounts : AccountMap) (updates : AccountUpdates) : AccountMap :=
  foldl apply_update_to_map accounts updates.

Definition reverse_updates (updates : AccountUpdates) : AccountUpdates :=
  (λ '(id, u), (id, reversed_update u)) <$> reverse updates.

(** ** Lemmas *)

Lemma apply_update_to_map_lookup m id u i :
  apply_update_to_map m (id, u) !! i =
  if decide (i = id) then Account_apply_update (m !! id) u else m !! i.
Proof.
  unfold apply_update_to_map. case_decide; subst; destruct (Account_apply_update _ _);
    by simplify_map_eq.
Qed.

Lemma apply_updates_app m us vs : apply_updates m (us ++ vs) = apply_updates (apply_updates m us) vs.
Proof. apply foldl_app. Qed.

Lemma apply_updates_cons m u us :
  apply_updates m (u :: us) = apply_updates (apply_update_to_map m u) us.
Proof. done. Qed.

Lemma reverse_updates_cons u us :
  reverse_updates (u :: us) = reverse_updates us ++ [(u.1, reversed_update u.2)].
Proof. unfold reverse_updates. rewrite reverse_cons, fmap_app. by destruct u. Qed.

Lemma reversed_update_involutive u : reversed_update (reversed_update u) = u.
Proof. by destruct u. Qed.

Lemma reverse_updates_involutive us : reverse_updates (reverse_updates us) = us.
Proof.
  unfold reverse_updates. rewrite <- fmap_reverse, reverse_involutive, <- list_fmap_compose.
  rewrite <- (list_fmap_id us) at 2. apply list_fmap_ext. intros ? [id u] _.
  simpl. by rewrite reversed_update_involutive.
Qed.

(** The updates of one account in a list of updates. *)
Definition updates_of (id : Z) (us : AccountUpdates) : list AccountUpdate :=
  omap (λ '(i, u), if decide (i = id) then Some u else None) us.

(** Replaying a list of updates over an account map acts on each account
    separately: account [id] becomes what [Account::apply_updates] makes of it with
    the updates recorded for [id], in order, and no other account matters. *)
Theorem apply_updates_pointwise accounts updates id :
  apply_updates accounts updates !! id =
  Account_apply_updates (accounts !! id) (updates_of id updates).
Proof.
  revert accounts. induction updates as [|[i u] us IH]; intros m; [done|].
  rewrite apply_updates_cons, IH, apply_update_to_map_lookup.
  unfold updates_of. cbn [omap list_omap]. case_decide; subst; rewrite ?decide_True by done.
  - done.
  - by rewrite decide_False.
Qed.

(** An update that describes a real change of the account it is applied to. *)
Definition update_valid (account : option Account) (u : AccountUpdate) : Prop :=
  match u, account with
  | Create _ _, None => True
  | Delete ad n, Some a => a = set_nonce n (set_address ad Account_default)
  | AddToken old _ t, Some a => nonce a = old ∧ t ∉ tokens a
  | RemoveToken old _ t, Some a => nonce a = old ∧ t ∈ tokens a
  | ChangePubKeyHash old_h _ old _, Some a => nonce a = old ∧ pub_key_hash a = old_h
  | _, _ => False
  end.

Fixpoint updates_valid (m : AccountMap) (us : AccountUpdates) : Prop :=
  match us with
  | [] => True
  | (id, u) :: us => update_valid (m !! id) u ∧ updates_valid (apply_update_to_map m (id, u)) us
  end.

Lemma updates_valid_app m us vs :
  updates_valid m (us ++ vs) ↔ updates_valid m us ∧ updates_valid (apply_updates m us) vs.
Proof.
  revert m. induction us as [|[id u] us IH]; intros m; cbn [app updates_valid]; [naive_solver|].
  rewrite IH, apply_updates_cons. naive_solver.
Qed.

Lemma Account_ext a b :
  pub_key_hash a = pub_key_hash b → address a = address b →
  tokens a = tokens b → nonce a = nonce b → a = b.
Proof. destruct a, b; simpl; naive_solver. Qed.

Lemma apply_reversed_update a u :
  update_valid a u →
  Account_apply_update (Account_apply_update a u) (reversed_update u) = a.
Proof.
  destruct u, a as [a|]; simpl; try done; intros H.
  { by subst. }
  all: destruct H as [H1 H2]; f_equal; apply Account_ext; simpl; try done.
  - set_solver.
  - apply set_eq. intros x. destruct (decide (x = token)); set_solver.
Qed.

(** Rolling back: if every update describes a real change of the state it is
    applied to, then applying [reverse_updates] of the list after the list itself
    restores the account map. *)
Theorem reverse_updates_restore accounts updates :
  updates_valid accounts updates →
  apply_updates (apply_updates accounts updates) (reverse_updates updates) = accounts.
Proof.
  revert accounts. induction updates as [|[id u] us IH]; intros m; [done|].
  intros [Hu Hus]. rewrite reverse_updates_cons, apply_updates_app, (apply_updates_cons _ _ us).
  rewrite IH by done. apply map_eq. intros i. cbn [apply_updates foldl fst snd].
  rewrite !apply_update_to_map_lookup. repeat case_decide; subst; try done.
  by apply apply_reversed_update.
Qed.
