(* ===== verification/Tx.v ===== *)
(** * Signed transactions (core/models/src/node/tx.rs)

    The four L2 transactions, the bytes that are signed and hashed, and the
    verification of their signatures.  The signature of a [Transfer] or
    [Withdraw] is checked once and cached in the transaction. *)

From stdpp Require Import pretty.
From S2P Require Import Prelude Bytes Params Externals Primitives Amounts Account.
Open Scope Z_scope.

(** The bytes of a string literal. *)
Definition str (s : string) : bytes :=
  (λ c, Z.of_N (Ascii.N_of_ascii c)) <$> String.list_ascii_of_string s.

Section Tx.
  Context `{EX : External}.

(** ** Hashes of messages and keys *)

(** core/models/src/merkle_tree/rescue_hasher.rs *)
Definition hash_bits (bits : list bool) : Fr := rescue_hash (multipacking bits).
Definition hash_elements (elements : list Fr) : Fr := rescue_hash elements.

(** core/models/src/circuit/utils.rs *)
Definition append_le_fixed_width (content : list bool) (x : Fr) (width : nat) : list bool :=
  let token_bits := reverse (bit_iterator (fr_repr x)) in
  content ++ vec_resize width false token_bits.

Definition pub_key_hash_self (pub_key : PublicKey) : list bool :=
  let '(pub_x, pub_y) := pk_into_xy pub_key in
  let pub_key_hash := hash_elements [pub_x; pub_y] in
  append_le_fixed_width [] pub_key_hash NEW_PUBKEY_HASH_WIDTH.

Definition pub_key_hash_bytes (pub_key : PublicKey) : bytes :=
  le_bit_vector_into_bytes (pub_key_hash_self pub_key).

(** core/models/src/node/account.rs *)
Definition PubKeyHash_from_pubkey (public_key : PublicKey) : outcome PubKeyHash :=
  let pk_hash := reverse (pub_key_hash_bytes public_key) in
  match PubKeyHash_from_bytes pk_hash with
  | Val (Ok h) => Val h
  | Val (Err _) => Panic "pk convert error"
  | Panic msg => Panic msg
  end.

(** core/models/src/primitives.rs *)
Definition rescue_hash_tx_msg (msg : bytes) : outcome bytes :=
  let msg_bits := vec_resize PAD_MSG_BEFORE_HASH_BITS_LEN false (bytes_into_be_bits msg) in
  let hash_fr := hash_bits msg_bits in
  pack_bits_into_bytes (append_le_fixed_width [] hash_fr 256).

(** ** Signatures *)

Record TxSignature : Type := mkTxSignature { sig_pub_key : PublicKey; sig_signature : Signature }.

Definition TxSignature_default : outcome TxSignature :=
  pub_key ← unwrap "called `Result::unwrap()` on an `Err` value" (pk_read (replicate 32 0));
  signature ← unwrap "called `Result::unwrap()` on an `Err` value" (sig_read (replicate 64 0));
  Val (mkTxSignature pub_key signature).

Definition verify_musig_rescue (self : TxSignature) (msg : bytes) : outcome (option PublicKey) :=
  hashed_msg ← rescue_hash_tx_msg msg;
  let valid := musig_rescue_verify (sig_pub_key self) hashed_msg (sig_signature self) in
  Val (if valid then Some (sig_pub_key self) else None).
Definition verify_musig : TxSignature → bytes → outcome (option PublicKey) := verify_musig_rescue.

Definition sign_musig_rescue (pk : PrivateKey) (msg : bytes) : outcome TxSignature :=
  hashed_msg ← rescue_hash_tx_msg msg;
  Val (mkTxSignature (pk_from_private pk) (musig_rescue_sign pk hashed_msg)).
Definition sign_musig : PrivateKey → bytes → outcome TxSignature := sign_musig_rescue.

Inductive VerifiedSignatureCache : Type :=
| NotCached
| Cached (signer : option PubKeyHash).

(** [verify_signature] of [Transfer] and [Withdraw], on the signed bytes. *)
Definition verify_cached (cache : VerifiedSignatureCache) (signature : TxSignature) (msg : bytes) :
    outcome (option PubKeyHash) :=
  match cache with
  | Cached cached_signer => Val cached_signer
  | NotCached =>
      signer ← verify_musig signature msg;
      match signer with
      | Some pub_key => h ← PubKeyHash_from_pubkey pub_key; Val (Some h)
      | None => Val None
      end
  end.

(** ** Transfer *)

Record Transfer : Type := mkTransfer {
  tr_account_id : AccountId;
  tr_from : Address;
  tr_to : Address;
  tr_token_id : TokenId;
  tr_fee : BigDecimal;
  tr_nonce : Nonce;
  tr_signature : TxSignature;
  tr_cached_signer : VerifiedSignatureCache;
}.

Definition TRANSFER_TX_TYPE : Z := 5.

Definition Transfer_get_bytes (self : Transfer) : bytes :=
  [TRANSFER_TX_TYPE] ++ drop 1 (to_be_bytes 4 (tr_account_id self)) ++ tr_from self ++ tr_to self
  ++ to_be_bytes 2 (tr_token_id self) ++ to_be_bytes 4 (tr_nonce self).

Definition Transfer_verify_signature (self : Transfer) : outcome (option PubKeyHash) :=
  verify_cached (tr_cached_signer self) (tr_signature self) (Transfer_get_bytes self).

Definition Transfer_set_cached (c : VerifiedSignatureCache) (self : Transfer) : Transfer :=
  mkTransfer (tr_account_id self) (tr_from self) (tr_to self) (tr_token_id self) (tr_fee self)
    (tr_nonce self) (tr_signature self) c.

Definition Transfer_set_signature (s : TxSignature) (self : Transfer) : Transfer :=
  mkTransfer (tr_account_id self) (tr_from self) (tr_to self) (tr_token_id self) (tr_fee self)
    (tr_nonce self) s (tr_cached_signer self).

(** [signature.clone().unwrap_or_default()] *)
Definition signature_or_default (signature : option TxSignature) : outcome TxSignature :=
  match signature with Some s => Val s | None => TxSignature_default end.

Definition Transfer_new (account_id : AccountId) (from to : Address) (token_id : TokenId)
    (fee : BigDecimal) (nonce : Nonce) (signature : option TxSignature) : outcome Transfer :=
  sig ← signature_or_default signature;
  let tx := mkTransfer account_id from to token_id fee nonce sig NotCached in
  match signature with
  | Some _ =>
      signer ← Transfer_verify_signature tx;
      Val (Transfer_set_cached (Cached signer) tx)
  | None => Val tx
  end.

(** Returns the answer and the transaction with its cache filled. *)
Definition Transfer_check_correctness (self : Transfer) : outcome (bool * Transfer) :=
  packable ← (if bd_is_integer (tr_fee self) then is_fee_amount_packable (tr_fee self) else Val false);
  if packable : bool then
    signer ← Transfer_verify_signature self;
    Val (bool_decide (is_Some signer), Transfer_set_cached (Cached signer) self)
  else Val (false, self).

Definition Transfer_new_signed (account_id : AccountId) (from to : Address) (token_id : TokenId)
    (fee : BigDecimal) (nonce : Nonce) (private_key : PrivateKey) : Fallible Transfer :=
  tx ← lift_outcome (Transfer_new account_id from to token_id fee nonce None);
  sig ← lift_outcome (sign_musig private_key (Transfer_get_bytes tx));
  checked ← lift_outcome (Transfer_check_correctness (Transfer_set_signature sig tx));
  if checked.1 : bool then Val (Ok checked.2)
  else Val (Err "Transfer is incorrect, check amounts").

(** ** Withdraw *)

Record Withdraw : Type := mkWithdraw {
  wd_account_id : AccountId;
  wd_from : Address;
  wd_to : Address;
  wd_token_id : TokenId;
  wd_fee : BigDecimal;
  wd_nonce : Nonce;
  wd_signature : TxSignature;
  wd_cached_signer : VerifiedSignatureCache;
}.

Definition WITHDRAW_TX_TYPE : Z := 3.

Definition Withdraw_get_bytes (self : Withdraw) : bytes :=
  [WITHDRAW_TX_TYPE] ++ drop 1 (to_be_bytes 4 (wd_account_id self)) ++ wd_from self ++ wd_to self
  ++ to_be_bytes 2 (wd_token_id self) ++ to_be_bytes 4 (wd_nonce self).

Definition Withdraw_verify_signature (self : Withdraw) : outcome (option PubKeyHash) :=
  verify_cached (wd_cached_signer self) (wd_signature self) (Withdraw_get_bytes self).

Definition Withdraw_set_cached (c : VerifiedSignatureCache) (self : Withdraw) : Withdraw :=
  mkWithdraw (wd_account_id self) (wd_from self) (wd_to self) (wd_token_id self) (wd_fee self)
    (wd_nonce self) (wd_signature self) c.

Definition Withdraw_set_signature (s : TxSignature) (self : Withdraw) : Withdraw :=
  mkWithdraw (wd_account_id self) (wd_from self) (wd_to self) (wd_token_id self) (wd_fee self)
    (wd_nonce self) s (wd_cached_signer self).

Definition Withdraw_new (account_id : AccountId) (from to : Address) (token_id : TokenId)
    (fee : BigDecimal) (nonce : Nonce) (signature : option TxSignature) : outcome Withdraw :=
  sig ← signature_or_default signature;
  let tx := mkWithdraw account_id from to token_id fee nonce sig NotCached in
  match signature with
  | Some _ =>
      signer ← Withdraw_verify_signature tx;
      Val (Withdraw_set_cached (Cached signer) tx)
  | None => Val tx
  end.

Definition Withdraw_check_correctness (self : Withdraw) : outcome (bool * Withdraw) :=
  packable ← (if bd_is_integer (wd_fee self) then is_fee_amount_packable (wd_fee self) else Val false);
  if packable : bool then
    signer ← Withdraw_verify_signature self;
    Val (bool_decide (is_Some signer), Withdraw_set_cached (Cached signer) self)
  else Val (false, self).

Definition Withdraw_new_signed (account_id : AccountId) (from to : Address) (token_id : TokenId)
    (fee : BigDecimal) (nonce : Nonce) (private_key : PrivateKey) : Fallible Withdraw :=
  tx ← lift_outcome (Withdraw_new account_id from to token_id fee nonce None);
  sig ← lift_outcome (sign_musig private_key (Withdraw_get_bytes tx));
  checked ← lift_outcome (Withdraw_check_correctness (Withdraw_set_signature sig tx));
  if checked.1 : bool then Val (Ok checked.2)
  else Val (Err "Transfer is incorrect, check amounts").

(** ** Close *)

Record Close : Type := mkClose {
  cl_account : Address;
  cl_nonce : Nonce;
  cl_signature : TxSignature;
}.

Definition CLOSE_TX_TYPE : Z := 4.

Definition Close_get_bytes (self : Close) : bytes :=
  [CLOSE_TX_TYPE] ++ cl_account self ++ to_be_bytes 4 (cl_nonce self).

Definition Close_verify_signature (self : Close) : outcome (option PubKeyHash) :=
  verify_cached NotCached (cl_signature self) (Close_get_bytes self).

Definition Close_check_correctness (self : Close) : outcome bool :=
  signer ← Close_verify_signature self; Val (bool_decide (is_Some signer)).

(** ** ChangePubKey *)

Record ChangePubKey : Type := mkChangePubKey {
  cpk_account_id : AccountId;
  cpk_account : Address;
  cpk_new_pk_hash : PubKeyHash;
  cpk_nonce : Nonce;
  cpk_eth_signature : option ETHSignature;
}.

Definition CHANGE_PUBKEY_TX_TYPE : Z := 7.

(** [PackedEthSignature::serialize_packed] *)
Definition serialize_packed (s : ETHSignature) : bytes := into_electrum s.

Definition ChangePubKey_get_bytes (self : ChangePubKey) : bytes :=
  [CHANGE_PUBKEY_TX_TYPE] ++ drop 1 (to_be_bytes 4 (cpk_account_id self)) ++ cpk_account self
  ++ pkh_data (cpk_new_pk_hash self) ++ to_be_bytes 4 (cpk_nonce self)
  ++ match cpk_eth_signature self with Some sign => serialize_packed sign | None => [] end.

Definition CHANGE_PUBKEY_SIGNATURE_LEN : nat := 150.

Definition get_eth_signed_data (account_id : AccountId) (nonce : Nonce)
    (new_pubkey_hash : PubKeyHash) : result bytes :=
  let eth_signed_msg :=
    str "Register zkSync pubkey:" ++ [10; 10]
    ++ hex_encode (pkh_data new_pubkey_hash) ++ [10]
    ++ str "nonce: 0x" ++ hex_encode (to_be_bytes 4 nonce) ++ [10]
    ++ str "account id: 0x" ++ hex_encode (drop 1 (to_be_bytes 4 account_id)) ++ [10; 10]
    ++ str "Only sign this message for a trusted client!" in
  if (length eth_signed_msg =? CHANGE_PUBKEY_SIGNATURE_LEN)%nat then Ok eth_signed_msg
  else Err "Change pubkey signed message len is too big".

(** [PackedEthSignature::message_to_signed_bytes] *)
Definition message_to_signed_bytes (msg : bytes) : bytes :=
  let prefix := [25] ++ str "Ethereum Signed Message:" ++ [10] ++ str (pretty (N.of_nat (length msg))) in
  keccak256 (prefix ++ msg).

Definition signature_recover_signer (self : ETHSignature) (msg : bytes) : option Address :=
  recover_address self (message_to_signed_bytes msg).

Definition verify_eth_signature (self : ChangePubKey) : option Address :=
  sign ← cpk_eth_signature self;
  match get_eth_signed_data (cpk_account_id self) (cpk_nonce self) (cpk_new_pk_hash self) with
  | Ok msg => signature_recover_signer sign msg
  | Err _ => None
  end.

Definition ChangePubKey_check_correctness (self : ChangePubKey) : bool :=
  bool_decide (cpk_eth_signature self = None)
  || bool_decide (verify_eth_signature self = Some (cpk_account self)).

(** ** FranklinTx *)

Inductive FranklinTx : Type :=
| TxTransfer (tx : Transfer)
| TxWithdraw (tx : Withdraw)
| TxClose (tx : Close)
| TxChangePubKey (tx : ChangePubKey).

Definition FranklinTx_get_bytes (self : FranklinTx) : bytes :=
  match self with
  | TxTransfer tx => Transfer_get_bytes tx
  | TxWithdraw tx => Withdraw_get_bytes tx
  | TxClose tx => Close_get_bytes tx
  | TxChangePubKey tx => ChangePubKey_get_bytes tx
  end.

(** The hash is taken over [get_bytes]. *)
Definition FranklinTx_hash (self : FranklinTx) : bytes := sha256 (FranklinTx_get_bytes self).

Definition FranklinTx_account (self : FranklinTx) : Address :=
  match self with
  | TxTransfer tx => tr_from tx
  | TxWithdraw tx => wd_from tx
  | TxClose tx => cl_account tx
  | TxChangePubKey tx => cpk_account tx
  end.

Definition FranklinTx_nonce (self : FranklinTx) : Nonce :=
  match self with
  | TxTransfer tx => tr_nonce tx
  | TxWithdraw tx => wd_nonce tx
  | TxClose tx => cl_nonce tx
  | TxChangePubKey tx => cpk_nonce tx
  end.

Definition FranklinTx_check_correctness (self : FranklinTx) : outcome (bool * FranklinTx) :=
  match self with
  | TxTransfer tx => r ← Transfer_check_correctness tx; Val (r.1, TxTransfer r.2)
  | TxWithdraw tx => r ← Withdraw_check_correctness tx; Val (r.1, TxWithdraw r.2)
  | TxClose tx => b ← Close_check_correctness tx; Val (b, TxClose tx)
  | TxChangePubKey tx => Val (ChangePubKey_check_correctness tx, TxChangePubKey tx)
  end.

Definition is_withdraw (self : FranklinTx) : bool :=
  match self with TxWithdraw _ => true | _ => false end.
Definition is_close (self : FranklinTx) : bool :=
  match self with TxClose _ => true | _ => false end.
End Tx.

(** ** What is signed *)

(** Field widths of well-formed transactions: account ids use three bytes. *)
Section Facts.
  Context `{EX : External}.

Definition Transfer_wf (tx : Transfer) : Prop :=
  fits 24 (tr_account_id tx) ∧ is_array 20 (tr_from tx) ∧ is_array 20 (tr_to tx) ∧
  fits 16 (tr_token_id tx) ∧ fits 32 (tr_nonce tx).
Definition Withdraw_wf (tx : Withdraw) : Prop :=
  fits 24 (wd_account_id tx) ∧ is_array 20 (wd_from tx) ∧ is_array 20 (wd_to tx) ∧
  fits 16 (wd_token_id tx) ∧ fits 32 (wd_nonce tx).
Definition Close_wf (tx : Close) : Prop := is_array 20 (cl_account tx) ∧ fits 32 (cl_nonce tx).
Definition ChangePubKey_wf (tx : ChangePubKey) : Prop :=
  fits 24 (cpk_account_id tx) ∧ is_array 20 (cpk_account tx) ∧
  is_array 20 (pkh_data (cpk_new_pk_hash tx)) ∧ fits 32 (cpk_nonce tx).
Definition FranklinTx_wf (t : FranklinTx) : Prop :=
  match t with
  | TxTransfer tx => Transfer_wf tx
  | TxWithdraw tx => Withdraw_wf tx
  | TxClose tx => Close_wf tx
  | TxChangePubKey tx => ChangePubKey_wf tx
  end.

(** What the signed bytes determine: everything but the fee and the signature. *)
Inductive TxContent : Type :=
| CTransfer (account_id : Z) (from to : Address) (token_id nonce : Z)
| CWithdraw (account_id : Z) (from to : Address) (token_id nonce : Z)
| CClose (account : Address) (nonce : Z)
| CChangePubKey (account_id : Z) (account : Address) (new_pk_hash : bytes) (nonce : Z)
    (eth_signature : option bytes).

Definition tx_content (t : FranklinTx) : TxContent :=
  match t with
  | TxTransfer tx => CTransfer (tr_account_id tx) (tr_from tx) (tr_to tx) (tr_token_id tx) (tr_nonce tx)
  | TxWithdraw tx => CWithdraw (wd_account_id tx) (wd_from tx) (wd_to tx) (wd_token_id tx) (wd_nonce tx)
  | TxClose tx => CClose (cl_account tx) (cl_nonce tx)
  | TxChangePubKey tx =>
      CChangePubKey (cpk_account_id tx) (cpk_account tx) (pkh_data (cpk_new_pk_hash tx))
        (cpk_nonce tx) (serialize_packed <$> cpk_eth_signature tx)
  end.

Lemma app_fixed {A} (a a' l l' : list A) n :
  length a = n → length a' = n → a ++ l = a' ++ l' → a = a' ∧ l = l'.
Proof. intros H1 H2. apply app_inj_1. congruence. Qed.

Lemma account_id_bytes_length id : length (drop 1 (to_be_bytes 4 id)) = 3%nat.
Proof. by rewrite length_drop, to_be_bytes_length. Qed.

Lemma account_id_bytes_inj a b :
  fits 24 a → fits 24 b → drop 1 (to_be_bytes 4 a) = drop 1 (to_be_bytes 4 b) → a = b.
Proof. intros Ha Hb. rewrite !(drop_to_be_bytes 1 3). by apply to_be_bytes_inj. Qed.

Lemma to_be_bytes_4_inj a b : fits 32 a → fits 32 b → to_be_bytes 4 a = to_be_bytes 4 b → a = b.
Proof. intros. by apply (to_be_bytes_inj 4). Qed.
Lemma to_be_bytes_2_inj a b : fits 16 a → fits 16 b → to_be_bytes 2 a = to_be_bytes 2 b → a = b.
Proof. intros. by apply (to_be_bytes_inj 2). Qed.

Context `{EXL : !ExternalLaws}.

Lemma chpk_suffix_inj (s s' : option ETHSignature) :
  match s with Some s => serialize_packed s | None => [] end =
  match s' with Some s => serialize_packed s | None => [] end →
  serialize_packed <$> s = serialize_packed <$> s'.
Proof.
  pose proof (λ s, proj1 (into_electrum_array s)) as Hlen. unfold serialize_packed.
  destruct s as [s|], s' as [s'|]; simpl; intros E; try done; [by f_equal|..].
  - specialize (Hlen s). by rewrite E in Hlen.
  - specialize (Hlen s'). by rewrite <- E in Hlen.
Qed.

(** Splits equal concatenations of fields of known length. *)
Ltac split_fields H :=
  repeat (let E := fresh "E" in
    first [ apply (app_fixed _ _ _ _ 3) in H as [E H];
              [|apply account_id_bytes_length|apply account_id_bytes_length]
          | apply (app_fixed _ _ _ _ 20) in H as [E H];
              [|by apply is_array_length|by apply is_array_length]
          | apply (app_fixed _ _ _ _ 2) in H as [E H];
              [|apply to_be_bytes_length|apply to_be_bytes_length]
          | apply (app_fixed _ _ _ _ 4) in H as [E H];
              [|apply to_be_bytes_length|apply to_be_bytes_length] ]).

(** C39: The bytes that are signed and hashed determine the transaction: two well-formed
    transactions with the same [get_bytes] are of the same kind and agree on every
    field, except the fee (which is not among the signed bytes) and the zkSync
    signature. *)
Theorem get_bytes_injective (t1 t2 : FranklinTx) :
  FranklinTx_wf t1 → FranklinTx_wf t2 →
  FranklinTx_get_bytes t1 = FranklinTx_get_bytes t2 → tx_content t1 = tx_content t2.
Proof.
  destruct t1, t2; intros H1 H2 H; try done; cbn [FranklinTx_get_bytes FranklinTx_wf tx_content] in *;
    apply (app_fixed _ _ _ _ 1) in H as [_ Hb]; try done.
  - destruct H1 as (?&?&?&?&?), H2 as (?&?&?&?&?). split_fields Hb.
    f_equal; auto using account_id_bytes_inj, to_be_bytes_2_inj, to_be_bytes_4_inj.
  - destruct H1 as (?&?&?&?&?), H2 as (?&?&?&?&?). split_fields Hb.
    f_equal; auto using account_id_bytes_inj, to_be_bytes_2_inj, to_be_bytes_4_inj.
  - destruct H1, H2. split_fields Hb. f_equal; auto using to_be_bytes_4_inj.
  - destruct H1 as (?&?&?&?), H2 as (?&?&?&?). split_fields Hb.
    f_equal; auto using account_id_bytes_inj, to_be_bytes_4_inj, chpk_suffix_inj.
Qed.

Lemma append_le_fixed_width_length content x w :
  length (append_le_fixed_width content x w) = (length content + w)%nat.
Proof. unfold append_le_fixed_width. by rewrite length_app, vec_resize_length. Qed.

Lemma PubKeyHash_from_pubkey_Val pk :
  ∃ h, PubKeyHash_from_pubkey pk = Val h ∧ length (pkh_data h) = 20%nat.
Proof.
  assert (length (reverse (pub_key_hash_bytes pk)) = 20%nat) as Hlen.
  { unfold pub_key_hash_bytes, le_bit_vector_into_bytes, pub_key_hash_self.
    destruct (pk_into_xy pk). rewrite length_reverse, length_fmap. apply chunks_length; [lia|].
    by rewrite append_le_fixed_width_length. }
  unfold PubKeyHash_from_pubkey, PubKeyHash_from_bytes, ensure_that.
  change FR_ADDRESS_LEN with 20%nat. rewrite Hlen. simpl. eauto.
Qed.

Lemma rescue_hash_tx_msg_Val msg : ∃ h, rescue_hash_tx_msg msg = Val h ∧ length h = 32%nat.
Proof.
  unfold rescue_hash_tx_msg, pack_bits_into_bytes. set (bits := append_le_fixed_width _ _ _).
  assert (length bits = (32 * 8)%nat) as Hl by (subst bits; by rewrite append_le_fixed_width_length).
  rewrite Hl. simpl. eexists. split; [done|]. rewrite length_fmap. by apply chunks_length; [lia|].
Qed.

Lemma verify_cached_Val c sig msg : ∃ r, verify_cached c sig msg = Val r.
Proof.
  destruct c as [|signer]; cbn [verify_cached]; [|by eexists]. unfold verify_musig, verify_musig_rescue.
  destruct (rescue_hash_tx_msg_Val msg) as (h & -> & _). cbn [mbind outcome_bind].
  destruct (musig_rescue_verify _ _ _); [|by eexists].
  destruct (PubKeyHash_from_pubkey_Val (sig_pub_key sig)) as (pkh & -> & _). by eexists.
Qed.

(** A signature made with a private key verifies for its public key. *)
Lemma verify_sign_musig sk msg :
  ∃ s, sign_musig sk msg = Val s ∧ verify_musig s msg = Val (Some (pk_from_private sk)).
Proof.
  unfold sign_musig, sign_musig_rescue, verify_musig, verify_musig_rescue.
  destruct (rescue_hash_tx_msg_Val msg) as (h & -> & _). simpl. eexists. split; [done|].
  simpl. by rewrite musig_rescue_correct.
Qed.

Lemma TxSignature_default_Val : ∃ s, TxSignature_default = Val s.
Proof.
  unfold TxSignature_default. destruct pk_read_default as [pk ->], sig_read_default as [s ->].
  simpl. eauto.
Qed.

Lemma Transfer_new_None account_id from to token_id fee nonce :
  ∃ s, Transfer_new account_id from to token_id fee nonce None =
       Val (mkTransfer account_id from to token_id fee nonce s NotCached).
Proof.
  unfold Transfer_new. simpl. destruct TxSignature_default_Val as [s ->]. simpl. eauto.
Qed.

Lemma Withdraw_new_None account_id from to token_id fee nonce :
  ∃ s, Withdraw_new account_id from to token_id fee nonce None =
       Val (mkWithdraw account_id from to token_id fee nonce s NotCached).
Proof.
  unfold Withdraw_new. simpl. destruct TxSignature_default_Val as [s ->]. simpl. eauto.
Qed.

(** Signing and verifying: for a packable fee, [Transfer::new_signed] returns a
    transfer with the given fields whose signer, as [verify_signature] reports it (from
    the cache it has filled, and also when the cache is dropped), is the hash of the
    public key of the private key used. *)
Theorem Transfer_new_signed_verifies account_id from to token_id fee nonce sk h n :
  PubKeyHash_from_pubkey (pk_from_private sk) = Val h →
  bd_holds fee n → representable FEE_EXPONENT_BIT_WIDTH FEE_MANTISSA_BIT_WIDTH n →
  ∃ tx, Transfer_new_signed account_id from to token_id fee nonce sk = Val (Ok tx) ∧
    tx_content (TxTransfer tx) = CTransfer account_id from to token_id nonce ∧
    Transfer_verify_signature tx = Val (Some h) ∧
    Transfer_verify_signature (Transfer_set_cached NotCached tx) = Val (Some h).
Proof.
  intros Hh Hfee Hrep. unfold Transfer_new_signed.
  destruct (Transfer_new_None account_id from to token_id fee nonce) as [s0 ->]. cbn [lift_outcome mbind fallible_bind].
  set (tx0 := mkTransfer _ _ _ _ _ _ s0 _).
  destruct (verify_sign_musig sk (Transfer_get_bytes tx0)) as (s & -> & Hver).
  cbn [lift_outcome mbind fallible_bind]. set (tx1 := Transfer_set_signature s tx0).
  assert (Transfer_verify_signature tx1 = Val (Some h)) as Hv1.
  { unfold Transfer_verify_signature, verify_cached.
    change (Transfer_get_bytes tx1) with (Transfer_get_bytes tx0). simpl. rewrite Hver. simpl.
    by rewrite Hh. }
  unfold Transfer_check_correctness. change (tr_fee tx1) with fee.
  rewrite (proj1 Hfee). rewrite (proj2 (is_fee_amount_packable_iff fee n Hfee) Hrep).
  cbn [mbind outcome_bind]. rewrite Hv1. cbn.
  eexists. split; [done|]. repeat split. apply Hv1.
Qed.

Lemma length_str_msg h nonce id :
  length (pkh_data h) = 20%nat →
  length (str "Register zkSync pubkey:" ++ [10; 10] ++ hex_encode (pkh_data h) ++ [10]
    ++ str "nonce: 0x" ++ hex_encode (to_be_bytes 4 nonce) ++ [10]
    ++ str "account id: 0x" ++ hex_encode (drop 1 (to_be_bytes 4 id)) ++ [10; 10]
    ++ str "Only sign this message for a trusted client!") = 150%nat.
Proof.
  intros Hh. rewrite !length_app, !hex_encode_length, Hh, account_id_bytes_length, to_be_bytes_length.
  done.
Qed.

(** The message that authorises a new public key hash with an Ethereum signature is
    always 150 bytes long (so [get_eth_signed_data] never returns its error for a
    20-byte hash), and it determines the account id, the nonce and the new hash. *)
Theorem get_eth_signed_data_binding id1 id2 n1 n2 h1 h2 :
  fits 24 id1 → fits 24 id2 → fits 32 n1 → fits 32 n2 →
  is_array 20 (pkh_data h1) → is_array 20 (pkh_data h2) →
  ∃ m1 m2, get_eth_signed_data id1 n1 h1 = Ok m1 ∧ get_eth_signed_data id2 n2 h2 = Ok m2 ∧
    length m1 = 150%nat ∧ (m1 = m2 → id1 = id2 ∧ n1 = n2 ∧ h1 = h2).
Proof.
  intros Hi1 Hi2 Hn1 Hn2 Hh1 Hh2. unfold get_eth_signed_data.
  rewrite !length_str_msg by (by apply is_array_length). do 2 eexists. split; [done|]. split; [done|].
  split; [by apply length_str_msg, is_array_length|]. intros E.
  apply app_fixed with (n := 23%nat) in E as [_ E]; [|done..].
  apply app_fixed with (n := 2%nat) in E as [_ E]; [|done..].
  apply app_fixed with (n := 40%nat) in E as [E1 E];
    [|by rewrite hex_encode_length, (is_array_length 20)..].
  apply app_fixed with (n := 1%nat) in E as [_ E]; [|done..].
  apply app_fixed with (n := 9%nat) in E as [_ E]; [|done..].
  apply app_fixed with (n := 8%nat) in E as [E2 E]; [|by rewrite hex_encode_length..].
  apply app_fixed with (n := 1%nat) in E as [_ E]; [|done..].
  apply app_fixed with (n := 14%nat) in E as [_ E]; [|done..].
  apply app_fixed with (n := 6%nat) in E as [E3 _];
    [|by rewrite hex_encode_length, account_id_bytes_length..].
  apply hex_encode_inj in E1, E2, E3; try apply Hh1; try apply Hh2; try apply to_be_bytes_array.
  2,3: apply Forall_drop, to_be_bytes_array.
  split; [by apply account_id_bytes_inj|]. split; [by apply to_be_bytes_4_inj|].
  destruct h1, h2; simpl in *. by subst.
Qed.
End Facts.
