(* ===== verification/Decimal.v ===== *)
(** * Decimal numbers in texts

    [{}] of an unsigned integer, [str::parse] for unsigned integers, and texts that are
    put together from parts with a separator: [str::split] gives the parts back.  Texts
    are byte strings. *)

From stdpp Require Import pretty.
From S2P Require Import Prelude Bytes Params Externals Primitives Amounts Account Tx.
Open Scope Z_scope.

Definition decimal (n : Z) : bytes := str (pretty (Z.to_N n)).

Definition is_digit (c : Z) : bool := (48 <=? c) && (c <=? 57).

(** The digits are accumulated; too large a number is an error. *)
Fixpoint parse_digits (w acc : Z) (l : bytes) : option Z :=
  match l with
  | [] => Some acc
  | c :: l =>
      let acc := acc * 10 + (c - 48) in
      if is_digit c && (acc <? 2 ^ w) then parse_digits w acc l else None
  end.

(** [parse::<uw>()]: a sign [+] is accepted. *)
Definition parse_uint (w : Z) (l : bytes) : option Z :=
  match l with
  | [] => None
  | c :: l' => if c =? 43 then match l' with [] => None | _ => parse_digits w 0 l' end else parse_digits w 0 l
  end.

(** [s.split(sep)] *)
Fixpoint split_on (sep : Z) (l : bytes) : list bytes :=
  match l with
  | [] => [[]]
  | c :: l =>
      if c =? sep then [] :: split_on sep l
      else match split_on sep l with part :: parts => (c :: part) :: parts | [] => [[c]] end
  end.

(** ** Facts *)

Definition digits_value (acc : Z) (ds : bytes) : Z := foldl (λ a c, a * 10 + (c - 48)) acc ds.

Lemma digits_value_app acc l1 l2 : digits_value acc (l1 ++ l2) = digits_value (digits_value acc l1) l2.
Proof. apply foldl_app. Qed.

Lemma str_cons c s : str (String c s) = Z.of_N (Ascii.N_of_ascii c) :: str s.
Proof. done. Qed.

Lemma str_inj s s' : str s = str s' → s = s'.
Proof.
  revert s'. induction s as [|c s IH]; intros [|c' s']; try done. rewrite !str_cons. intros [= Hc Hs].
  f_equal; [|by apply IH]. rewrite <- (Ascii.ascii_N_embedding c), <- (Ascii.ascii_N_embedding c'). f_equal. lia.
Qed.

Lemma digit_char x : (x < 10)%N → Z.of_N (Ascii.N_of_ascii (pretty_N_char x)) = 48 + Z.of_N x.
Proof.
  intros Hx. assert (x = 0 ∨ x = 1 ∨ x = 2 ∨ x = 3 ∨ x = 4 ∨ x = 5 ∨ x = 6 ∨ x = 7 ∨ x = 8 ∨ x = 9)%N as H by lia.
  by destruct_or! H; subst x.
Qed.

(** The printer puts the digits of the number in front of the text. *)
Lemma pretty_go_digits x s :
  ∃ ds, str (pretty_N_go x s) = ds ++ str s ∧ Forall (λ c, is_digit c = true) ds ∧
        digits_value 0 ds = Z.of_N x ∧ ((0 < x)%N → ds ≠ []).
Proof.
  revert s. induction (N.lt_wf_0 x) as [x _ IH]. intros s. destruct (decide (x = 0)%N) as [->|Hx].
  { exists []. by rewrite pretty_N_go_0. }
  rewrite pretty_N_go_step by lia. destruct (IH (x / 10)%N ltac:(apply N.div_lt; lia)
    (String (pretty_N_char (x mod 10)) s)) as (ds & -> & Hds & Hv & _).
  assert (x mod 10 < 10)%N as Hlt by (apply N.mod_lt; lia). rewrite str_cons, digit_char by done.
  exists (ds ++ [48 + Z.of_N (x mod 10)]). rewrite <- app_assoc. split; [done|]. split.
  { apply Forall_app. split; [done|]. apply Forall_singleton. unfold is_digit. generalize dependent (x mod 10)%N. intros m. lia. }
  split; [|by destruct ds]. rewrite digits_value_app, Hv. unfold digits_value. cbn [foldl].
  rewrite N2Z.inj_div, N2Z.inj_mod. pose proof (Z.div_mod (Z.of_N x) 10 ltac:(done)) as Hx'. change (Z.of_N 10) with 10. lia.
Qed.

Lemma decimal_digits n :
  0 ≤ n → Forall (λ c, is_digit c = true) (decimal n) ∧ digits_value 0 (decimal n) = n ∧ decimal n ≠ [].
Proof.
  intros Hn. unfold decimal, pretty, pretty_N. case_decide as H0.
  { assert (n = 0) as -> by lia. split; [by repeat constructor|done]. }
  destruct (pretty_go_digits (Z.to_N n) "") as (ds & -> & Hds & Hv & Hne). rewrite app_nil_r.
  split; [done|]. split; [by rewrite Hv, Z2N.id|]. apply Hne. lia.
Qed.

Lemma decimal_inj n n' : 0 ≤ n → 0 ≤ n' → decimal n = decimal n' → n = n'.
Proof.
  intros Hn Hn' H. destruct (decimal_digits n Hn) as (_ & <- & _), (decimal_digits n' Hn') as (_ & <- & _). by rewrite H.
Qed.

Lemma digits_value_mono acc ds : 0 ≤ acc → Forall (λ c, is_digit c = true) ds → acc ≤ digits_value acc ds.
Proof.
  intros Ha Hds. revert acc Ha. induction Hds as [|c ds Hc Hds IH]; intros acc Ha; cbn; [done|].
  unfold is_digit in Hc. etransitivity; [|apply IH]; lia.
Qed.

Lemma parse_digits_value w acc ds :
  0 ≤ acc → Forall (λ c, is_digit c = true) ds → digits_value acc ds < 2 ^ w →
  parse_digits w acc ds = Some (digits_value acc ds).
Proof.
  intros Ha Hds. revert acc Ha. induction Hds as [|c ds Hc Hds IH]; intros acc Ha Hv; cbn [parse_digits]; [done|].
  unfold digits_value in Hv. cbn [foldl] in Hv. unfold is_digit in Hc.
  pose proof (digits_value_mono (acc * 10 + (c - 48)) ds ltac:(lia) Hds) as Hm.
  assert (acc * 10 + (c - 48) <? 2 ^ w = true) as Hlt by (apply Z.ltb_lt; unfold digits_value in Hm; lia).
  unfold is_digit. rewrite Hc, Hlt. apply IH; [lia|done].
Qed.

(** Parsing gives a printed number back when it fits. *)
Lemma parse_decimal w n : fits w n → parse_uint w (decimal n) = Some n.
Proof.
  intros [Hn Hw]. destruct (decimal_digits n Hn) as (Hd & Hv & Hne). unfold parse_uint.
  destruct (decimal n) as [|c ds] eqn:E; [done|].
  assert (is_digit c = true) as Hc by (by inversion Hd). unfold is_digit in Hc. rewrite (proj2 (Z.eqb_neq c 43)) by lia.
  rewrite parse_digits_value; [by rewrite Hv|done|done|lia].
Qed.

Lemma decimal_not_in c n : 0 ≤ n → is_digit c = false → c ∉ decimal n.
Proof. intros Hn Hc Hin. destruct (decimal_digits n Hn) as (Hd & _). rewrite Forall_forall in Hd. apply Hd in Hin. congruence. Qed.

(** Texts with a separator. *)
Lemma split_on_app sep l r : sep ∉ l → split_on sep (l ++ sep :: r) = l :: split_on sep r.
Proof.
  intros Hl. induction l as [|c l IH]; cbn [split_on app]; [by rewrite Z.eqb_refl|].
  apply not_elem_of_cons in Hl as [Hc Hl]. rewrite (proj2 (Z.eqb_neq c sep)) by done. by rewrite IH.
Qed.
Lemma split_on_last sep l : sep ∉ l → split_on sep l = [l].
Proof.
  intros Hl. induction l as [|c l IH]; cbn [split_on]; [done|].
  apply not_elem_of_cons in Hl as [Hc Hl]. rewrite (proj2 (Z.eqb_neq c sep)) by done. by rewrite IH.
Qed.
Lemma separated_inj (sep : Z) (l l' r r' : bytes) : sep ∉ l → sep ∉ l' → l ++ sep :: r = l' ++ sep :: r' → l = l' ∧ r = r'.
Proof.
  intros Hl. revert l'. induction l as [|c l IH]; intros [|c' l'] Hl' H; cbn in H; injection H as E; simplify_eq.
  - done.
  - by apply not_elem_of_cons in Hl' as [? _].
  - by apply not_elem_of_cons in Hl as [? _].
  - apply not_elem_of_cons in Hl as [_ Hl], Hl' as [_ Hl']. destruct (IH Hl l' Hl') as [-> ->]; done.
Qed.

(** A number below [10 ^ k] has at most [k] digits, but at least one. *)
Lemma pretty_go_length k x s : (x < 10 ^ N.of_nat k)%N → (length (str (pretty_N_go x s)) ≤ k + length (str s))%nat.
Proof.
  revert x s. induction k as [|k IH]; intros x s Hx.
  { assert (x = 0)%N as -> by (cbn in Hx; lia). by rewrite pretty_N_go_0. }
  destruct (decide (x = 0)%N) as [->|Hx0]; [rewrite pretty_N_go_0; lia|]. rewrite pretty_N_go_step by lia.
  etransitivity; [apply IH|rewrite str_cons; cbn [length]; lia].
  rewrite Nat2N.inj_succ, N.pow_succ_r' in Hx. apply N.Div0.div_lt_upper_bound. lia.
Qed.
Lemma decimal_length k n : 0 ≤ n < 10 ^ Z.of_nat k → (length (decimal n) ≤ Nat.max 1 k)%nat.
Proof.
  intros Hn. unfold decimal, pretty, pretty_N. case_decide; [cbn; lia|].
  etransitivity; [apply (pretty_go_length k)|cbn; lia].
  apply N2Z.inj_lt. rewrite Z2N.id, N2Z.inj_pow by lia. rewrite nat_N_Z. change (Z.of_N 10) with 10. lia.
Qed.
