(* ===== verification/Operations.v ===== *)
(** * Rollup operations and priority operations
    (core/models/src/node/operations.rs, priority_ops.rs)

    An executed transaction is an operation that occupies a fixed number of
    8-byte chunks of the block.  Its public data is what is published on the
    chain; whoever restores the state from the chain decodes the operations
    from it.  Priority operations (deposits, full exits) come from the events
    of the contract. *)

From S2P Require Import Prelude Bytes Params Externals Primitives Amounts Account Tx.
Open Scope Z_scope.

(** ** Priority operations *)

Record Deposit : Type := mkDeposit { dp_from : Address; dp_token_id : TokenId; dp_to : Address }.
Record FullExit : Type := mkFullExit { fe_account_id : AccountId; fe_eth_address : Address }.

Inductive FranklinPriorityOp : Type :=
| PDeposit (op : Deposit)
| PFullExit (op : FullExit).
#[global] Instance Deposit_eq_dec : EqDecision Deposit.
Proof. solve_decision. Defined.
#[global] Instance FullExit_eq_dec : EqDecision FullExit.
Proof. solve_decision. Defined.
#[global] Instance FranklinPriorityOp_eq_dec : EqDecision FranklinPriorityOp.
Proof. solve_decision. Defined.

Record PriorityOp : Type := mkPriorityOp {
  po_serial_id : Z;
  po_data : FranklinPriorityOp;
  po_deadline_block : Z;
  po_eth_hash : bytes;
}.
#[global] Instance PriorityOp_eq_dec : EqDecision PriorityOp.
Proof. solve_decision. Defined.

(** Chunks and operation codes. *)
Definition NOOP_CHUNKS : nat := 1.
Definition DEPOSIT_CHUNKS : nat := 6.
Definition TRANSFER_TO_NEW_CHUNKS : nat := 5.
Definition TRANSFER_CHUNKS : nat := 2.
Definition WITHDRAW_CHUNKS : nat := 6.
Definition CLOSE_CHUNKS : nat := 1.
Definition CHANGE_PUBKEY_CHUNKS : nat := 6.
Definition FULL_EXIT_CHUNKS : nat := 6.

Definition NOOP_OP_CODE : Z := 0.
Definition DEPOSIT_OP_CODE : Z := 1.
Definition TRANSFER_TO_NEW_OP_CODE : Z := 2.
Definition WITHDRAW_OP_CODE : Z := 3.
Definition CLOSE_OP_CODE : Z := 4.
Definition TRANSFER_OP_CODE : Z := 5.
Definition FULL_EXIT_OP_CODE : Z := 6.
Definition CHANGE_PUBKEY_OP_CODE : Z := 7.

Definition try_get_deposit (self : FranklinPriorityOp) : option Deposit :=
  match self with PDeposit deposit => Some deposit | _ => None end.

Definition FranklinPriorityOp_chunks (self : FranklinPriorityOp) : nat :=
  match self with
  | PDeposit _ => DEPOSIT_CHUNKS
  | PFullExit _ => FULL_EXIT_CHUNKS
  end.

(** [slice::split_at] panics when [mid > len]. *)
Definition split_at {A} (mid : nat) (l : list A) : outcome (list A * list A) :=
  if decide (mid ≤ length l)%nat then Val (take mid l, drop mid l)
  else Panic "mid > len".

Definition parse_from_priority_queue_logs (pub_data : bytes) (op_type_id : Z) (sender : Address) :
    Fallible FranklinPriorityOp :=
  if op_type_id =? DEPOSIT_OP_CODE then
    account_id ← lift_outcome (split_at (ACCOUNT_ID_BIT_WIDTH / 8) pub_data);
    token_id ← lift_outcome (split_at (TOKENID_BIT_WIDTH / 8) account_id.2);
    account ← lift_outcome (split_at FR_ADDRESS_LEN token_id.2);
    _ ← ensure_that (bool_decide (account.2 = [])) "DepositOp parse failed: input too big";
    Val (Ok (PDeposit (mkDeposit sender (from_be_bytes token_id.1) account.1)))
  else if op_type_id =? FULL_EXIT_OP_CODE then
    account_id ← lift_outcome (split_at (ACCOUNT_ID_BIT_WIDTH / 8) pub_data);
    id ← lift_outcome (bytes_slice_to_uint32 account_id.1 ≫= unwrap "called `Option::unwrap()` on a `None` value");
    eth_address ← lift_outcome (split_at (ETH_ADDRESS_BIT_WIDTH / 8) account_id.2);
    _ ← ensure_that (bool_decide (eth_address.2 = [])) "FullExitOp parse failed: input too big";
    Val (Ok (PFullExit (mkFullExit id eth_address.1)))
  else Val (Err "Unsupported priority op type").

(** The parameters of a [NewPriorityRequest] event after ABI decoding; the
    decoder is [ethabi::decode]. *)
Record PriorityEvent : Type := mkPriorityEvent {
  ev_sender : Address;
  ev_serial_id : Z;
  ev_op_type : Z;
  ev_pub_data : bytes;
  ev_expiration_block : Z;
}.
Record Log : Type := mkLog { log_data : bytes; log_transaction_hash : option bytes }.

(** [U256::as_u64] panics on a value that does not fit. *)
Definition as_u64 (z : Z) : outcome Z :=
  _ ← assert_that (bool_decide (fits 64 z)) "Integer overflow when casting to u64"; Val z.
Definition as_u32 (z : Z) : outcome Z :=
  _ ← assert_that (bool_decide (fits 32 z)) "Integer overflow when casting to u32"; Val z.

Definition PriorityOp_try_from (decode : bytes → option PriorityEvent) (event : Log) :
    Fallible PriorityOp :=
  ev ← ok_or "Event data decode" (decode (log_data event));
  serial_id ← lift_outcome (as_u64 (ev_serial_id ev));
  op_type ← lift_outcome (as_u32 (ev_op_type ev));
  data ← lift_outcome (
    match parse_from_priority_queue_logs (ev_pub_data ev) (wrap 8 op_type) (ev_sender ev) with
    | Val (Ok data) => Val data
    | Val (Err _) => Panic "Failed to parse priority op data"
    | Panic msg => Panic msg
    end);
  deadline_block ← lift_outcome (as_u64 (ev_expiration_block ev));
  eth_hash ← lift_outcome (unwrap "Event transaction hash is missing" (log_transaction_hash event));
  Val (Ok (mkPriorityOp serial_id data deadline_block eth_hash)).

(** ** Operations *)

Section Ops.
  Context `{EX : External}.

Record DepositOp : Type := mkDepositOp { dpo_priority_op : Deposit; dpo_account_id : AccountId }.
Record TransferToNewOp : Type :=
  mkTransferToNewOp { ttn_tx : Transfer; ttn_from : AccountId; ttn_to : AccountId }.
Record TransferOp : Type :=
  mkTransferOp { tro_tx : Transfer; tro_from : AccountId; tro_to : AccountId }.
Record WithdrawOp : Type := mkWithdrawOp { wdo_tx : Withdraw; wdo_account_id : AccountId }.
Record CloseOp : Type := mkCloseOp { clo_tx : Close; clo_account_id : AccountId }.
Record ChangePubKeyOp : Type := mkChangePubKeyOp { cpo_tx : ChangePubKey; cpo_account_id : AccountId }.
Record FullExitOp : Type := mkFullExitOp { feo_priority_op : FullExit }.

Inductive FranklinOp : Type :=
| OpNoop
| OpDeposit (op : DepositOp)
| OpTransferToNew (op : TransferToNewOp)
| OpWithdraw (op : WithdrawOp)
| OpClose (op : CloseOp)
| OpTransfer (op : TransferOp)
| OpFullExit (op : FullExitOp)
| OpChangePubKeyOffchain (op : ChangePubKeyOp).

(** *** Encoding *)

Definition DepositOp_get_public_data (self : DepositOp) : bytes :=
  vec_resize (DEPOSIT_CHUNKS * 8) 0
    ([DEPOSIT_OP_CODE] ++ drop 1 (to_be_bytes 4 (dpo_account_id self))
     ++ to_be_bytes 2 (dp_token_id (dpo_priority_op self)) ++ dp_to (dpo_priority_op self)).

Definition NoopOp_get_public_data : bytes := vec_resize (NOOP_CHUNKS * 8) 0 [].

Definition TransferToNewOp_get_public_data (self : TransferToNewOp) : bytes :=
  vec_resize (TRANSFER_TO_NEW_CHUNKS * 8) 0
    ([TRANSFER_TO_NEW_OP_CODE] ++ drop 1 (to_be_bytes 4 (ttn_from self))
     ++ to_be_bytes 2 (tr_token_id (ttn_tx self)) ++ tr_to (ttn_tx self)
     ++ drop 1 (to_be_bytes 4 (ttn_to self))).

Definition TransferOp_get_public_data (self : TransferOp) : outcome bytes :=
  fee ← pack_fee_amount (tr_fee (tro_tx self));
  Val (vec_resize (TRANSFER_CHUNKS * 8) 0
    ([TRANSFER_OP_CODE] ++ drop 1 (to_be_bytes 4 (tro_from self))
     ++ to_be_bytes 2 (tr_token_id (tro_tx self)) ++ drop 1 (to_be_bytes 4 (tro_to self)) ++ fee)).

Definition WithdrawOp_get_public_data (self : WithdrawOp) : outcome bytes :=
  fee ← pack_fee_amount (wd_fee (wdo_tx self));
  Val (vec_resize (WITHDRAW_CHUNKS * 8) 0
    ([WITHDRAW_OP_CODE] ++ drop 1 (to_be_bytes 4 (wdo_account_id self))
     ++ to_be_bytes 2 (wd_token_id (wdo_tx self)) ++ fee ++ wd_to (wdo_tx self))).

Definition WITHDRAW_DATA_PREFIX : bytes := [1].
Definition WithdrawOp_get_withdrawal_data (self : WithdrawOp) : bytes :=
  WITHDRAW_DATA_PREFIX ++ wd_to (wdo_tx self) ++ to_be_bytes 2 (wd_token_id (wdo_tx self)).

Definition CloseOp_get_public_data (self : CloseOp) : bytes :=
  vec_resize (CLOSE_CHUNKS * 8) 0
    ([CLOSE_OP_CODE] ++ drop 1 (to_be_bytes 4 (clo_account_id self))).

Definition ChangePubKeyOp_get_public_data (self : ChangePubKeyOp) : bytes :=
  vec_resize (CHANGE_PUBKEY_CHUNKS * 8) 0
    ([CHANGE_PUBKEY_OP_CODE] ++ drop 1 (to_be_bytes 4 (cpo_account_id self))
     ++ pkh_data (cpk_new_pk_hash (cpo_tx self)) ++ cpk_account (cpo_tx self)
     ++ to_be_bytes 4 (cpk_nonce (cpo_tx self))).

Definition get_eth_witness (self : ChangePubKeyOp) : bytes :=
  match cpk_eth_signature (cpo_tx self) with
  | Some eth_signature => serialize_packed eth_signature
  | None => []
  end.

Definition FULL_EXIT_DATA_PREFIX : bytes := [0].
Definition FullExitOp_get_public_data (self : FullExitOp) : bytes :=
  vec_resize (FULL_EXIT_CHUNKS * 8) 0
    ([FULL_EXIT_OP_CODE] ++ drop 1 (to_be_bytes 4 (fe_account_id (feo_priority_op self)))
     ++ fe_eth_address (feo_priority_op self)).
Definition FullExitOp_get_withdrawal_data (self : FullExitOp) : bytes :=
  FULL_EXIT_DATA_PREFIX ++ fe_eth_address (feo_priority_op self).

(** *** Decoding *)

(** [bytes_slice_to_uintN(&bytes[from..from + len]).ok_or_else(..)?] *)
Definition uint_field (n : nat) (bytes : bytes) (from len : nat) (e : string) : Fallible Z :=
  s ← lift_outcome (slice bytes from (from + len));
  v ← lift_outcome (bytes_slice_to_uint n s);
  ok_or e v.
(** [Address::from_slice(&bytes[from..from + len])], which panics unless it gets 20 bytes. *)
Definition address_field (bytes : bytes) (from len : nat) : Fallible Address :=
  s ← lift_outcome (slice bytes from (from + len));
  _ ← lift_outcome (assert_that (length s =? 20)%nat "from_slice: wrong length");
  Val (Ok s).
Definition fee_field (bytes : bytes) (from : nat) (e : string) : Fallible BigDecimal :=
  s ← lift_outcome (slice bytes from (from + (FEE_EXPONENT_BIT_WIDTH + FEE_MANTISSA_BIT_WIDTH) / 8));
  ok_or e (unpack_fee_amount s).

Definition DepositOp_from_public_data (bytes : bytes) : Fallible DepositOp :=
  _ ← ensure_that (length bytes =? DEPOSIT_CHUNKS * 8)%nat "Wrong bytes length for deposit pubdata";
  let account_id_offset := 1%nat in
  let token_id_offset := (account_id_offset + ACCOUNT_ID_BIT_WIDTH / 8)%nat in
  let account_address_offset := (token_id_offset + TOKENID_BIT_WIDTH / 8)%nat in
  account_id ← uint_field 4 bytes account_id_offset (ACCOUNT_ID_BIT_WIDTH / 8)
    "Cant get account id from deposit pubdata";
  token_id ← uint_field 2 bytes token_id_offset (TOKENID_BIT_WIDTH / 8)
    "Cant get token_id from deposit pubdata";
  to ← address_field bytes account_address_offset FR_ADDRESS_LEN;
  Val (Ok (mkDepositOp (mkDeposit Address_zero token_id to) account_id)).

Definition NoopOp_from_public_data (bytes : bytes) : Fallible unit :=
  ensure_that (bool_decide (bytes = [0; 0; 0; 0; 0; 0; 0; 0])) "Wrong pubdata for noop operation".

Definition TransferToNewOp_from_public_data (bytes : bytes) : Fallible TransferToNewOp :=
  _ ← ensure_that (length bytes =? TRANSFER_TO_NEW_CHUNKS * 8)%nat
        "Wrong bytes length for transfer to new pubdata";
  let from_offset := 1%nat in
  let token_id_offset := (from_offset + ACCOUNT_ID_BIT_WIDTH / 8)%nat in
  let to_address_offset := (token_id_offset + TOKENID_BIT_WIDTH / 8)%nat in
  let to_id_offset := (to_address_offset + FR_ADDRESS_LEN)%nat in
  let fee_offset := (to_id_offset + ACCOUNT_ID_BIT_WIDTH / 8)%nat in
  from_id ← uint_field 4 bytes from_offset (ACCOUNT_ID_BIT_WIDTH / 8)
    "Cant get from account id from transfer to new pubdata";
  to_id ← uint_field 4 bytes to_id_offset (ACCOUNT_ID_BIT_WIDTH / 8)
    "Cant get to account id from transfer to new pubdata";
  to ← address_field bytes to_address_offset FR_ADDRESS_LEN;
  token_id ← uint_field 2 bytes token_id_offset (TOKENID_BIT_WIDTH / 8)
    "Cant get token id from transfer to new pubdata";
  fee ← fee_field bytes fee_offset "Cant get fee from transfer to new pubdata";
  tx ← lift_outcome (Transfer_new from_id Address_zero to token_id fee 0 None);
  Val (Ok (mkTransferToNewOp tx from_id to_id)).

Definition TransferOp_from_public_data (bytes : bytes) : Fallible TransferOp :=
  _ ← ensure_that (length bytes =? TRANSFER_CHUNKS * 8)%nat "Wrong bytes length for transfer pubdata";
  let from_offset := 1%nat in
  let token_id_offset := (from_offset + ACCOUNT_ID_BIT_WIDTH / 8)%nat in
  let to_offset := (token_id_offset + TOKENID_BIT_WIDTH / 8)%nat in
  let fee_offset := (to_offset + ACCOUNT_ID_BIT_WIDTH / 8)%nat in
  token_id ← uint_field 2 bytes token_id_offset (TOKENID_BIT_WIDTH / 8)
    "Cant get token id from transfer pubdata";
  fee ← fee_field bytes fee_offset "Cant get fee from transfer pubdata";
  from_id ← uint_field 4 bytes from_offset (ACCOUNT_ID_BIT_WIDTH / 8)
    "Cant get from account id from transfer pubdata";
  to_id ← uint_field 4 bytes to_offset (ACCOUNT_ID_BIT_WIDTH / 8)
    "Cant get to account id from transfer pubdata";
  tx ← lift_outcome (Transfer_new from_id Address_zero Address_zero token_id fee 0 None);
  Val (Ok (mkTransferOp tx from_id to_id)).

Definition WithdrawOp_from_public_data (bytes : bytes) : Fallible WithdrawOp :=
  _ ← ensure_that (length bytes =? WITHDRAW_CHUNKS * 8)%nat "Wrong bytes length for withdraw pubdata";
  let account_offset := 1%nat in
  let token_id_offset := (account_offset + ACCOUNT_ID_BIT_WIDTH / 8)%nat in
  let fee_offset := (token_id_offset + TOKENID_BIT_WIDTH / 8)%nat in
  let eth_address_offset :=
    (fee_offset + (FEE_EXPONENT_BIT_WIDTH + FEE_MANTISSA_BIT_WIDTH) / 8)%nat in
  account_id ← uint_field 4 bytes account_offset (ACCOUNT_ID_BIT_WIDTH / 8)
    "Cant get account id from withdraw pubdata";
  token_id ← uint_field 2 bytes token_id_offset (TOKENID_BIT_WIDTH / 8)
    "Cant get token id from withdraw pubdata";
  to ← address_field bytes eth_address_offset (ETH_ADDRESS_BIT_WIDTH / 8);
  fee ← fee_field bytes fee_offset "Cant get fee from withdraw pubdata";
  tx ← lift_outcome (Withdraw_new account_id Address_zero to token_id fee 0 None);
  Val (Ok (mkWithdrawOp tx account_id)).

Definition CloseOp_from_public_data (bytes : bytes) : Fallible CloseOp :=
  _ ← ensure_that (length bytes =? CLOSE_CHUNKS * 8)%nat "Wrong bytes length for close pubdata";
  let account_id_offset := 1%nat in
  account_id ← uint_field 4 bytes account_id_offset (ACCOUNT_ID_BIT_WIDTH / 8)
    "Cant get from account id from close pubdata";
  signature ← lift_outcome TxSignature_default;
  Val (Ok (mkCloseOp (mkClose Address_zero 0 signature) account_id)).

Definition ChangePubKeyOp_from_public_data (bytes : bytes) : Fallible ChangePubKeyOp :=
  let offset := 1%nat in
  let len := (ACCOUNT_ID_BIT_WIDTH / 8)%nat in
  _ ← ensure_that (bool_decide (offset + len ≤ length bytes)%nat)
        "Change pubkey offchain, pubdata too short";
  account_id ← uint_field 4 bytes offset len "Change pubkey offchain, fail to get account id";
  let offset := (offset + len)%nat in
  let len := (NEW_PUBKEY_HASH_WIDTH / 8)%nat in
  _ ← ensure_that (bool_decide (offset + len ≤ length bytes)%nat)
        "Change pubkey offchain, pubdata too short";
  new_pk_hash ← (lift_outcome (slice bytes offset (offset + len)) ≫= PubKeyHash_from_bytes);
  let offset := (offset + len)%nat in
  let len := (ADDRESS_WIDTH / 8)%nat in
  _ ← ensure_that (bool_decide (offset + len ≤ length bytes)%nat)
        "Change pubkey offchain, pubdata too short";
  account ← address_field bytes offset len;
  let offset := (offset + len)%nat in
  let len := (NONCE_BIT_WIDTH / 8)%nat in
  _ ← ensure_that (bool_decide (offset + len ≤ length bytes)%nat)
        "Change pubkey offchain, pubdata too short";
  nonce ← uint_field 4 bytes offset len "Change pubkey offchain, fail to get nonce";
  Val (Ok (mkChangePubKeyOp (mkChangePubKey account_id account new_pk_hash nonce None) account_id)).

Definition FullExitOp_from_public_data (bytes : bytes) : Fallible FullExitOp :=
  _ ← ensure_that (length bytes =? FULL_EXIT_CHUNKS * 8)%nat "Wrong bytes length for full exit pubdata";
  let account_id_offset := 1%nat in
  let eth_address_offset := (account_id_offset + ACCOUNT_ID_BIT_WIDTH / 8)%nat in
  account_id ← uint_field 4 bytes account_id_offset (ACCOUNT_ID_BIT_WIDTH / 8)
    "Cant get account id from full exit pubdata";
  eth_address ← address_field bytes eth_address_offset (ETH_ADDRESS_BIT_WIDTH / 8);
  Val (Ok (mkFullExitOp (mkFullExit account_id eth_address))).

(** *** FranklinOp *)

Definition FranklinOp_chunks (self : FranklinOp) : nat :=
  match self with
  | OpNoop => NOOP_CHUNKS
  | OpDeposit _ => DEPOSIT_CHUNKS
  | OpTransferToNew _ => TRANSFER_TO_NEW_CHUNKS
  | OpWithdraw _ => WITHDRAW_CHUNKS
  | OpClose _ => CLOSE_CHUNKS
  | OpTransfer _ => TRANSFER_CHUNKS
  | OpFullExit _ => FULL_EXIT_CHUNKS
  | OpChangePubKeyOffchain _ => CHANGE_PUBKEY_CHUNKS
  end.

Definition public_data (self : FranklinOp) : outcome bytes :=
  match self with
  | OpNoop => Val NoopOp_get_public_data
  | OpDeposit op => Val (DepositOp_get_public_data op)
  | OpTransferToNew op => Val (TransferToNewOp_get_public_data op)
  | OpWithdraw op => WithdrawOp_get_public_data op
  | OpClose op => Val (CloseOp_get_public_data op)
  | OpTransfer op => TransferOp_get_public_data op
  | OpFullExit op => Val (FullExitOp_get_public_data op)
  | OpChangePubKeyOffchain op => Val (ChangePubKeyOp_get_public_data op)
  end.

Definition eth_witness (self : FranklinOp) : option bytes :=
  match self with
  | OpChangePubKeyOffchain op => Some (get_eth_witness op)
  | _ => None
  end.

Definition withdrawal_data (self : FranklinOp) : option bytes :=
  match self with
  | OpWithdraw op => Some (WithdrawOp_get_withdrawal_data op)
  | OpFullExit op => Some (FullExitOp_get_withdrawal_data op)
  | _ => None
  end.

Definition from_public_data (bytes : bytes) : Fallible FranklinOp :=
  op_type ← ok_or "Empty pubdata" (head bytes);
  if op_type =? NOOP_OP_CODE then _ ← NoopOp_from_public_data bytes; Val (Ok OpNoop)
  else if op_type =? DEPOSIT_OP_CODE then
    op ← DepositOp_from_public_data bytes; Val (Ok (OpDeposit op))
  else if op_type =? TRANSFER_TO_NEW_OP_CODE then
    op ← TransferToNewOp_from_public_data bytes; Val (Ok (OpTransferToNew op))
  else if op_type =? WITHDRAW_OP_CODE then
    op ← WithdrawOp_from_public_data bytes; Val (Ok (OpWithdraw op))
  else if op_type =? CLOSE_OP_CODE then
    op ← CloseOp_from_public_data bytes; Val (Ok (OpClose op))
  else if op_type =? TRANSFER_OP_CODE then
    op ← TransferOp_from_public_data bytes; Val (Ok (OpTransfer op))
  else if op_type =? FULL_EXIT_OP_CODE then
    op ← FullExitOp_from_public_data bytes; Val (Ok (OpFullExit op))
  else if op_type =? CHANGE_PUBKEY_OP_CODE then
    op ← ChangePubKeyOp_from_public_data bytes; Val (Ok (OpChangePubKeyOffchain op))
  else Val (Err "Wrong operation type").

Definition public_data_length (op_type : Z) : result nat :=
  if op_type =? NOOP_OP_CODE then Ok (NOOP_CHUNKS * 8)%nat
  else if op_type =? DEPOSIT_OP_CODE then Ok (DEPOSIT_CHUNKS * 8)%nat
  else if op_type =? TRANSFER_TO_NEW_OP_CODE then Ok (TRANSFER_TO_NEW_CHUNKS * 8)%nat
  else if op_type =? WITHDRAW_OP_CODE then Ok (WITHDRAW_CHUNKS * 8)%nat
  else if op_type =? CLOSE_OP_CODE then Ok (CLOSE_CHUNKS * 8)%nat
  else if op_type =? TRANSFER_OP_CODE then Ok (TRANSFER_CHUNKS * 8)%nat
  else if op_type =? FULL_EXIT_OP_CODE then Ok (FULL_EXIT_CHUNKS * 8)%nat
  else if op_type =? CHANGE_PUBKEY_OP_CODE then Ok (CHANGE_PUBKEY_CHUNKS * 8)%nat
  else Err "Wrong operation type".

Definition try_get_tx (self : FranklinOp) : result FranklinTx :=
  match self with
  | OpTransfer op => Ok (TxTransfer (tro_tx op))
  | OpTransferToNew op => Ok (TxTransfer (ttn_tx op))
  | OpWithdraw op => Ok (TxWithdraw (wdo_tx op))
  | OpClose op => Ok (TxClose (clo_tx op))
  | OpChangePubKeyOffchain op => Ok (TxChangePubKey (cpo_tx op))
  | _ => Err "Wrong tx type"
  end.

Definition try_get_priority_op (self : FranklinOp) : result FranklinPriorityOp :=
  match self with
  | OpDeposit op => Ok (PDeposit (dpo_priority_op op))
  | OpFullExit op => Ok (PFullExit (feo_priority_op op))
  | _ => Err "Wrong operation type"
  end.

(** core/models/src/node/tx.rs *)
Definition min_chunks (self : FranklinTx) : nat :=
  match self with
  | TxTransfer _ => TRANSFER_CHUNKS
  | TxWithdraw _ => WITHDRAW_CHUNKS
  | TxClose _ => CLOSE_CHUNKS
  | TxChangePubKey _ => CHANGE_PUBKEY_CHUNKS
  end.
End Ops.

(** ** Facts *)

Section OpsFacts.
  Context `{EX : External}.

(** What the public data determines: every field that is not published is reset
    to the value that the decoder puts there. [s] is the default signature. *)
Definition published_fee (fee : BigDecimal) : BigDecimal :=
  u128_to_bigdecimal (default 0 (bd_parse_u128 fee)).

Definition forget (s : TxSignature) (op : FranklinOp) : FranklinOp :=
  match op with
  | OpNoop => OpNoop
  | OpDeposit (mkDepositOp d id) =>
      OpDeposit (mkDepositOp (mkDeposit Address_zero (dp_token_id d) (dp_to d)) id)
  | OpTransferToNew (mkTransferToNewOp tx from to) =>
      OpTransferToNew (mkTransferToNewOp
        (mkTransfer from Address_zero (tr_to tx) (tr_token_id tx) (u128_to_bigdecimal 0) 0 s NotCached)
        from to)
  | OpWithdraw (mkWithdrawOp tx id) =>
      OpWithdraw (mkWithdrawOp
        (mkWithdraw id Address_zero (wd_to tx) (wd_token_id tx) (published_fee (wd_fee tx)) 0 s NotCached)
        id)
  | OpClose (mkCloseOp tx id) => OpClose (mkCloseOp (mkClose Address_zero 0 s) id)
  | OpTransfer (mkTransferOp tx from to) =>
      OpTransfer (mkTransferOp
        (mkTransfer from Address_zero Address_zero (tr_token_id tx) (published_fee (tr_fee tx)) 0 s
           NotCached) from to)
  | OpFullExit (mkFullExitOp op) => OpFullExit (mkFullExitOp op)
  | OpChangePubKeyOffchain (mkChangePubKeyOp tx id) =>
      OpChangePubKeyOffchain (mkChangePubKeyOp
        (mkChangePubKey id (cpk_account tx) (cpk_new_pk_hash tx) (cpk_nonce tx) None) id)
  end.

(** A fee that the fee format can hold. *)
Definition fee_packable (fee : BigDecimal) : Prop :=
  ∃ n, bd_holds fee n ∧ representable FEE_EXPONENT_BIT_WIDTH FEE_MANTISSA_BIT_WIDTH n.

Definition FranklinOp_wf (op : FranklinOp) : Prop :=
  match op with
  | OpNoop => True
  | OpDeposit (mkDepositOp d id) => fits 24 id ∧ fits 16 (dp_token_id d) ∧ is_array 20 (dp_to d)
  | OpTransferToNew (mkTransferToNewOp tx from to) =>
      fits 24 from ∧ fits 24 to ∧ fits 16 (tr_token_id tx) ∧ is_array 20 (tr_to tx)
  | OpWithdraw (mkWithdrawOp tx id) =>
      fits 24 id ∧ fits 16 (wd_token_id tx) ∧ is_array 20 (wd_to tx) ∧ fee_packable (wd_fee tx)
  | OpClose (mkCloseOp _ id) => fits 24 id
  | OpTransfer (mkTransferOp tx from to) =>
      fits 24 from ∧ fits 24 to ∧ fits 16 (tr_token_id tx) ∧ fee_packable (tr_fee tx)
  | OpFullExit (mkFullExitOp op) => fits 24 (fe_account_id op) ∧ is_array 20 (fe_eth_address op)
  | OpChangePubKeyOffchain (mkChangePubKeyOp tx id) =>
      fits 24 id ∧ is_array 20 (pkh_data (cpk_new_pk_hash tx)) ∧ is_array 20 (cpk_account tx) ∧
      fits 32 (cpk_nonce tx)
  end.

Definition op_code (op : FranklinOp) : Z :=
  match op with
  | OpNoop => NOOP_OP_CODE
  | OpDeposit _ => DEPOSIT_OP_CODE
  | OpTransferToNew _ => TRANSFER_TO_NEW_OP_CODE
  | OpWithdraw _ => WITHDRAW_OP_CODE
  | OpClose _ => CLOSE_OP_CODE
  | OpTransfer _ => TRANSFER_OP_CODE
  | OpFullExit _ => FULL_EXIT_OP_CODE
  | OpChangePubKeyOffchain _ => CHANGE_PUBKEY_OP_CODE
  end.

Lemma forget_chunks s op : FranklinOp_chunks (forget s op) = FranklinOp_chunks op.
Proof. by destruct op as [|[]|[]|[]|[]|[]|[]|[]]. Qed.

(** The decoders of single fields. *)
Lemma bytes_slice_to_uint_Val n l :
  (length l ≤ n)%nat → bytes_slice_to_uint n l = Val (Some (from_be_bytes l)).
Proof.
  intros H. unfold bytes_slice_to_uint. rewrite decide_False by lia.
  rewrite reverse_app, reverse_involutive, reverse_replicate.
  rewrite decide_True by (rewrite length_app, length_replicate; lia).
  by rewrite from_be_bytes_pad.
Qed.

Lemma uint_field_Val n l from len e s :
  slice l from (from + len) = Val s → (length s ≤ n)%nat →
  uint_field n l from len e = Val (Ok (from_be_bytes s)).
Proof. intros Hs Hl. unfold uint_field. rewrite Hs. simpl. by rewrite bytes_slice_to_uint_Val. Qed.

Lemma address_field_Val l from len s :
  slice l from (from + len) = Val s → length s = 20%nat → address_field l from len = Val (Ok s).
Proof. intros Hs Hl. unfold address_field. rewrite Hs. simpl. by rewrite Hl. Qed.

Lemma fee_field_Val l from e s d :
  slice l from (from + 2) = Val s → unpack_fee_amount s = Some d → fee_field l from e = Val (Ok d).
Proof.
  intros Hs Hl. unfold fee_field. change ((_ + _) / 8)%nat with 2%nat. rewrite Hs. simpl. by rewrite Hl.
Qed.

Lemma pub_key_hash_field_Val l from to s :
  slice l from to = Val s → length s = 20%nat →
  lift_outcome (slice l from to) ≫= PubKeyHash_from_bytes = Val (Ok (mkPubKeyHash s)).
Proof.
  intros Hs Hl. rewrite Hs. cbn [lift_outcome mbind fallible_bind]. unfold PubKeyHash_from_bytes.
  by rewrite Hl.
Qed.

Lemma from_be_account_id id : fits 24 id → from_be_bytes (drop 1 (to_be_bytes 4 id)) = id.
Proof. intros. rewrite (drop_to_be_bytes 1 3). by apply from_to_be_bytes. Qed.
Lemma from_be_u16 t : fits 16 t → from_be_bytes (to_be_bytes 2 t) = t.
Proof. intros. by apply from_to_be_bytes. Qed.
Lemma from_be_u32 t : fits 32 t → from_be_bytes (to_be_bytes 4 t) = t.
Proof. intros. by apply from_to_be_bytes. Qed.

(** Offsets and lengths as numerals. *)
Ltac norm_widths :=
  change (ACCOUNT_ID_BIT_WIDTH / 8)%nat with 3%nat; change (TOKENID_BIT_WIDTH / 8)%nat with 2%nat;
  change (NEW_PUBKEY_HASH_WIDTH / 8)%nat with 20%nat; change (ADDRESS_WIDTH / 8)%nat with 20%nat;
  change (ETH_ADDRESS_BIT_WIDTH / 8)%nat with 20%nat; change (NONCE_BIT_WIDTH / 8)%nat with 4%nat;
  change ((FEE_EXPONENT_BIT_WIDTH + FEE_MANTISSA_BIT_WIDTH) / 8)%nat with 2%nat;
  change FR_ADDRESS_LEN with 20%nat;
  change DEPOSIT_CHUNKS with 6%nat; change TRANSFER_TO_NEW_CHUNKS with 5%nat;
  change TRANSFER_CHUNKS with 2%nat; change WITHDRAW_CHUNKS with 6%nat;
  change CLOSE_CHUNKS with 1%nat; change CHANGE_PUBKEY_CHUNKS with 6%nat;
  change FULL_EXIT_CHUNKS with 6%nat.

(** [field_at] proves [slice (a ++ b ++ ...) from to = Val f] for the field of a
    record of fields of known length. *)
Ltac solve_len :=
  rewrite ?length_app, ?account_id_bytes_length, ?to_be_bytes_length, ?length_replicate;
  repeat match goal with H : is_array _ ?l |- context [length ?l] => rewrite (proj1 H) end;
  repeat match goal with H : length ?l = _ |- context [length ?l] => rewrite H end;
  simpl; lia.
Ltac field_at :=
  first [ apply slice_here_at; solve_len
        | apply slice_replicate; solve_len
        | rewrite slice_skip by solve_len; field_at ].

Context `{EXL : !ExternalLaws}.

(** Splits a padded record into its fields followed by the padding. *)
Ltac split_record :=
  norm_widths; rewrite vec_resize_app by solve_len; rewrite <- ?app_assoc.
Ltac decode_step :=
  first [ erewrite uint_field_Val by (first [field_at | solve_len])
        | erewrite address_field_Val by (first [field_at | solve_len])
        | erewrite pub_key_hash_field_Val by (first [field_at | solve_len])
        | erewrite fee_field_Val by (first [field_at | eassumption]) ];
  cbn [mbind fallible_bind lift_outcome].
Ltac length_ok :=
  match goal with |- context [ensure_that ?b _] =>
    replace b with true by (symmetry; apply Nat.eqb_eq; solve_len) end;
  cbn [mbind fallible_bind ensure_that].

Lemma DepositOp_roundtrip d id :
  fits 24 id → fits 16 (dp_token_id d) → is_array 20 (dp_to d) →
  DepositOp_from_public_data (DepositOp_get_public_data (mkDepositOp d id)) =
  Val (Ok (mkDepositOp (mkDeposit Address_zero (dp_token_id d) (dp_to d)) id)).
Proof.
  intros Hid Ht Hto. unfold DepositOp_from_public_data, DepositOp_get_public_data. simpl dpo_priority_op.
  simpl dpo_account_id. split_record. length_ok. repeat decode_step.
  by rewrite from_be_account_id, from_be_u16.
Qed.

Lemma TransferToNewOp_roundtrip s tx from to :
  TxSignature_default = Val s →
  fits 24 from → fits 24 to → fits 16 (tr_token_id tx) → is_array 20 (tr_to tx) →
  TransferToNewOp_from_public_data (TransferToNewOp_get_public_data (mkTransferToNewOp tx from to)) =
  Val (Ok (mkTransferToNewOp
    (mkTransfer from Address_zero (tr_to tx) (tr_token_id tx) (u128_to_bigdecimal 0) 0 s NotCached)
    from to)).
Proof.
  intros Hs Hf Ht Htok Hto. unfold TransferToNewOp_from_public_data, TransferToNewOp_get_public_data.
  cbn [ttn_tx ttn_from ttn_to]. split_record. length_ok. do 4 decode_step.
  assert (unpack_fee_amount (replicate 2 0) = Some (u128_to_bigdecimal 0)) as Hfee by done.
  rewrite (λ l from e H, fee_field_Val l from e _ _ H Hfee) by field_at.
  cbn [mbind fallible_bind lift_outcome]. rewrite !from_be_account_id, from_be_u16 by done.
  unfold Transfer_new, signature_or_default. by rewrite Hs.
Qed.

Lemma TransferOp_roundtrip s tx from to :
  TxSignature_default = Val s →
  fits 24 from → fits 24 to → fits 16 (tr_token_id tx) → fee_packable (tr_fee tx) →
  ∃ data, TransferOp_get_public_data (mkTransferOp tx from to) = Val data ∧
    length data = 16%nat ∧ head data = Some TRANSFER_OP_CODE ∧
  TransferOp_from_public_data data =
  Val (Ok (mkTransferOp
    (mkTransfer from Address_zero Address_zero (tr_token_id tx) (published_fee (tr_fee tx)) 0 s NotCached)
    from to)).
Proof.
  intros Hs Hf Ht Htok (n & Hn & Hr). destruct (pack_fee_roundtrip _ _ Hn Hr) as (fee & Hp & Hlen & Hun).
  unfold TransferOp_get_public_data. cbn [tro_tx tro_from tro_to]. rewrite Hp. cbn [mbind outcome_bind].
  eexists. split; [done|]. split; [apply vec_resize_length|]. split; [done|].
  unfold TransferOp_from_public_data. split_record. length_ok. repeat decode_step.
  rewrite !from_be_account_id, from_be_u16 by done. unfold published_fee. rewrite (proj2 Hn). simpl default.
  unfold Transfer_new, signature_or_default. by rewrite Hs.
Qed.

Lemma WithdrawOp_roundtrip s tx id :
  TxSignature_default = Val s →
  fits 24 id → fits 16 (wd_token_id tx) → is_array 20 (wd_to tx) → fee_packable (wd_fee tx) →
  ∃ data, WithdrawOp_get_public_data (mkWithdrawOp tx id) = Val data ∧
    length data = 48%nat ∧ head data = Some WITHDRAW_OP_CODE ∧
  WithdrawOp_from_public_data data =
  Val (Ok (mkWithdrawOp
    (mkWithdraw id Address_zero (wd_to tx) (wd_token_id tx) (published_fee (wd_fee tx)) 0 s NotCached)
    id)).
Proof.
  intros Hs Hid Htok Hto (n & Hn & Hr). destruct (pack_fee_roundtrip _ _ Hn Hr) as (fee & Hp & Hlen & Hun).
  unfold WithdrawOp_get_public_data. cbn [wdo_tx wdo_account_id]. rewrite Hp. cbn [mbind outcome_bind].
  eexists. split; [done|]. split; [apply vec_resize_length|]. split; [done|].
  unfold WithdrawOp_from_public_data. split_record. length_ok. repeat decode_step.
  rewrite !from_be_account_id, from_be_u16 by done. unfold published_fee. rewrite (proj2 Hn). simpl default.
  unfold Withdraw_new, signature_or_default. by rewrite Hs.
Qed.

Lemma CloseOp_roundtrip s tx id :
  TxSignature_default = Val s → fits 24 id →
  CloseOp_from_public_data (CloseOp_get_public_data (mkCloseOp tx id)) =
  Val (Ok (mkCloseOp (mkClose Address_zero 0 s) id)).
Proof.
  intros Hs Hid. unfold CloseOp_from_public_data, CloseOp_get_public_data. cbn [clo_account_id].
  split_record. length_ok. decode_step. rewrite from_be_account_id by done. by rewrite Hs.
Qed.

Lemma FullExitOp_roundtrip op :
  fits 24 (fe_account_id op) → is_array 20 (fe_eth_address op) →
  FullExitOp_from_public_data (FullExitOp_get_public_data (mkFullExitOp op)) = Val (Ok (mkFullExitOp op)).
Proof.
  intros Hid Ha. unfold FullExitOp_from_public_data, FullExitOp_get_public_data. cbn [feo_priority_op].
  split_record. length_ok. repeat decode_step. rewrite from_be_account_id by done. by destruct op.
Qed.

Lemma ChangePubKeyOp_roundtrip tx id :
  fits 24 id → is_array 20 (pkh_data (cpk_new_pk_hash tx)) → is_array 20 (cpk_account tx) →
  fits 32 (cpk_nonce tx) →
  ChangePubKeyOp_from_public_data (ChangePubKeyOp_get_public_data (mkChangePubKeyOp tx id)) =
  Val (Ok (mkChangePubKeyOp
    (mkChangePubKey id (cpk_account tx) (cpk_new_pk_hash tx) (cpk_nonce tx) None) id)).
Proof.
  intros Hid Hh Ha Hn. unfold ChangePubKeyOp_from_public_data, ChangePubKeyOp_get_public_data.
  cbn [cpo_tx cpo_account_id]. split_record.
  repeat (rewrite bool_decide_true by solve_len; cbn [mbind fallible_bind ensure_that];
          decode_step).
  rewrite from_be_account_id, from_be_u32 by done. by destruct (cpk_new_pk_hash tx).
Qed.

Lemma from_public_data_dispatch op data :
  head data = Some (op_code op) →
  match op with
  | OpNoop => NoopOp_from_public_data data = Val (Ok tt)
  | OpDeposit op => DepositOp_from_public_data data = Val (Ok op)
  | OpTransferToNew op => TransferToNewOp_from_public_data data = Val (Ok op)
  | OpWithdraw op => WithdrawOp_from_public_data data = Val (Ok op)
  | OpClose op => CloseOp_from_public_data data = Val (Ok op)
  | OpTransfer op => TransferOp_from_public_data data = Val (Ok op)
  | OpFullExit op => FullExitOp_from_public_data data = Val (Ok op)
  | OpChangePubKeyOffchain op => ChangePubKeyOp_from_public_data data = Val (Ok op)
  end → from_public_data data = Val (Ok op).
Proof.
  intros Hh Hd. unfold from_public_data. rewrite Hh. by destruct op; cbn; rewrite Hd.
Qed.

(** The public data of a well-formed operation, with everything the decoders of
    blocks rely on. *)
Lemma public_data_spec s op :
  TxSignature_default = Val s → FranklinOp_wf op →
  ∃ data, public_data op = Val data ∧ length data = (FranklinOp_chunks op * 8)%nat ∧
    head data = Some (op_code op) ∧ from_public_data data = Val (Ok (forget s op)).
Proof.
  intros Hs Hwf. destruct op as [|[]|[]|[tx id]|[]|[tx from to]|[op]|[]];
    cbn [FranklinOp_wf] in Hwf; destruct_and? Hwf.
  4: destruct (WithdrawOp_roundtrip s tx id) as (data & ? & ? & ? & ?); [done..|]; exists data.
  6: destruct (TransferOp_roundtrip s tx from to) as (data & ? & ? & ? & ?); [done..|]; exists data.
  1-3,5,7-8: eexists.
  all: split; [done || eassumption|]; split; [done || apply vec_resize_length|]; split; [done|];
    apply from_public_data_dispatch; [done|]; cbn [forget].
  all: eauto using DepositOp_roundtrip, TransferToNewOp_roundtrip, CloseOp_roundtrip,
         FullExitOp_roundtrip, ChangePubKeyOp_roundtrip.
Qed.

Lemma public_data_length_code op : public_data_length (op_code op) = Ok (FranklinOp_chunks op * 8)%nat.
Proof. by destruct op. Qed.

(** Publishing and decoding: the public data of a well-formed operation has
    exactly eight bytes for each chunk, [public_data_length] computes that length
    from its first byte, and decoding it gives the operation back up to the fields
    that are not published (addresses of the sender, signatures, nonces and, for a
    transfer to a new account, the fee), which get default values. *)
Theorem from_public_data_roundtrip op :
  FranklinOp_wf op →
  ∃ s data c, TxSignature_default = Val s ∧ public_data op = Val data ∧ head data = Some c ∧
    length data = (FranklinOp_chunks op * 8)%nat ∧ public_data_length c = Ok (length data) ∧
    from_public_data data = Val (Ok (forget s op)).
Proof.
  intros Hwf. destruct TxSignature_default_Val as [s Hs].
  destruct (public_data_spec s op Hs Hwf) as (data & ? & Hl & ? & ?).
  exists s, data, (op_code op). rewrite public_data_length_code, Hl. done.
Qed.

(** Decoding a record of the right length never panics. *)
Lemma uint_field_total n l from len e :
  (from + len ≤ length l)%nat → (len ≤ n)%nat → ∃ v, uint_field n l from len e = Val (Ok v).
Proof.
  intros Hl Hn. destruct (slice_total l from (from + len)) as (r & Hr & Hlen); [lia..|].
  eexists. apply uint_field_Val; [done|lia].
Qed.
Lemma address_field_total l from :
  (from + 20 ≤ length l)%nat → ∃ v, address_field l from 20 = Val (Ok v).
Proof.
  intros Hl. destruct (slice_total l from (from + 20)) as (r & Hr & Hlen); [lia..|].
  eexists. apply address_field_Val; [done|lia].
Qed.
Lemma pub_key_hash_field_total l from :
  (from + 20 ≤ length l)%nat →
  ∃ v, lift_outcome (slice l from (from + 20)) ≫= PubKeyHash_from_bytes = Val (Ok v).
Proof.
  intros Hl. destruct (slice_total l from (from + 20)) as (r & Hr & Hlen); [lia..|].
  eexists. apply pub_key_hash_field_Val; [done|lia].
Qed.
Lemma fee_field_total l from e :
  (from + 2 ≤ length l)%nat → ∃ v, fee_field l from e = Val (Ok v).
Proof.
  intros Hl. destruct (slice_total l from (from + 2)) as (r & Hr & Hlen); [lia..|].
  destruct (unpack_fee_total r) as (n & Hn & _); [lia|]. eexists. by eapply fee_field_Val.
Qed.

(** The length that the decoder of an operation code accepts. *)
Definition accepts_length (op_type : Z) (bytes : bytes) : Prop :=
  if op_type =? NOOP_OP_CODE then bytes = replicate 8 0
  else if op_type =? CHANGE_PUBKEY_OP_CODE then (48 ≤ length bytes)%nat
  else match public_data_length op_type with Ok n => length bytes = n | Err _ => False end.

Ltac total_step :=
  match goal with
  | |- context [uint_field ?n ?l ?f ?k ?e] =>
      let v := fresh "v" in let Hv := fresh in
      edestruct (uint_field_total n l f k e) as [v Hv]; [lia|lia|rewrite Hv; clear Hv]
  | |- context [address_field ?l ?f 20] =>
      let v := fresh "v" in let Hv := fresh in
      edestruct (address_field_total l f) as [v Hv]; [lia|rewrite Hv; clear Hv]
  | |- context [lift_outcome (slice ?l ?f _) ≫= PubKeyHash_from_bytes] =>
      let v := fresh "v" in let Hv := fresh in
      edestruct (pub_key_hash_field_total l f) as [v Hv]; [lia|rewrite Hv; clear Hv]
  | |- context [fee_field ?l ?f ?e] =>
      let v := fresh "v" in let Hv := fresh in
      edestruct (fee_field_total l f e) as [v Hv]; [lia|rewrite Hv; clear Hv]
  end; cbn [mbind fallible_bind lift_outcome].
Ltac total_decoder :=
  norm_widths;
  match goal with |- context [ensure_that (?a =? ?b)%nat ?e] =>
    let H := fresh in
    destruct (Nat.eqb_spec a b) as [H|H]; cbn [mbind fallible_bind ensure_that];
    [left; split; [exact H|]; simpl in H|solve [right; eauto]]
  end; repeat total_step.

Lemma TransferToNewOp_decoder_total l :
  (length l = 40%nat ∧ ∃ op, TransferToNewOp_from_public_data l = Val (Ok op)) ∨
  (length l ≠ 40%nat ∧ ∃ e, TransferToNewOp_from_public_data l = Val (Err e)).
Proof.
  unfold TransferToNewOp_from_public_data. total_decoder.
  edestruct Transfer_new_None as [s ->]. simpl. eauto.
Qed.
Lemma TransferOp_decoder_total l :
  (length l = 16%nat ∧ ∃ op, TransferOp_from_public_data l = Val (Ok op)) ∨
  (length l ≠ 16%nat ∧ ∃ e, TransferOp_from_public_data l = Val (Err e)).
Proof.
  unfold TransferOp_from_public_data. total_decoder.
  edestruct Transfer_new_None as [s ->]. simpl. eauto.
Qed.
Lemma WithdrawOp_decoder_total l :
  (length l = 48%nat ∧ ∃ op, WithdrawOp_from_public_data l = Val (Ok op)) ∨
  (length l ≠ 48%nat ∧ ∃ e, WithdrawOp_from_public_data l = Val (Err e)).
Proof.
  unfold WithdrawOp_from_public_data. total_decoder.
  edestruct Withdraw_new_None as [s ->]. simpl. eauto.
Qed.
Lemma DepositOp_decoder_total l :
  (length l = 48%nat ∧ ∃ op, DepositOp_from_public_data l = Val (Ok op)) ∨
  (length l ≠ 48%nat ∧ ∃ e, DepositOp_from_public_data l = Val (Err e)).
Proof. unfold DepositOp_from_public_data. total_decoder. eauto. Qed.
Lemma CloseOp_decoder_total l :
  (length l = 8%nat ∧ ∃ op, CloseOp_from_public_data l = Val (Ok op)) ∨
  (length l ≠ 8%nat ∧ ∃ e, CloseOp_from_public_data l = Val (Err e)).
Proof.
  unfold CloseOp_from_public_data. total_decoder. destruct TxSignature_default_Val as [s ->].
  simpl. eauto.
Qed.
Lemma FullExitOp_decoder_total l :
  (length l = 48%nat ∧ ∃ op, FullExitOp_from_public_data l = Val (Ok op)) ∨
  (length l ≠ 48%nat ∧ ∃ e, FullExitOp_from_public_data l = Val (Err e)).
Proof. unfold FullExitOp_from_public_data. total_decoder. eauto. Qed.
Lemma ChangePubKeyOp_decoder_total l :
  ((48 ≤ length l)%nat ∧ ∃ op, ChangePubKeyOp_from_public_data l = Val (Ok op)) ∨
  (¬ (48 ≤ length l)%nat ∧ ∃ e, ChangePubKeyOp_from_public_data l = Val (Err e)).
Proof.
  unfold ChangePubKeyOp_from_public_data. norm_widths.
  repeat case_bool_decide; try lia; cbn [mbind fallible_bind ensure_that];
    repeat (total_step; cbn [mbind fallible_bind ensure_that]);
    solve [left; split; [lia|eauto] | right; split; [lia|eauto]].
Qed.

(** [from_public_data] returns, and the operation codes and lengths that it accepts. *)
Lemma from_public_data_accepts bytes :
  (∃ r, from_public_data bytes = Val r) ∧
  ((∃ op, from_public_data bytes = Val (Ok op)) ↔
   ∃ c, head bytes = Some c ∧ accepts_length c bytes).
Proof.
  unfold from_public_data. destruct (head bytes) as [c|]; [|naive_solver].
  cbn [ok_or mbind fallible_bind].
  assert ((∃ c0, Some c = Some c0 ∧ accepts_length c0 bytes) ↔ accepts_length c bytes) as ->
    by naive_solver.
  unfold accepts_length.
  destruct (Z.eqb_spec c NOOP_OP_CODE) as [->|].
  { unfold NoopOp_from_public_data. case_bool_decide; cbn; naive_solver. }
  unfold public_data_length. rewrite (proj2 (Z.eqb_neq c NOOP_OP_CODE)) by done.
  destruct (Z.eqb_spec c DEPOSIT_OP_CODE) as [->|].
  { destruct (DepositOp_decoder_total bytes) as [[? [? ->]]|[? [? ->]]]; cbn; naive_solver. }
  destruct (Z.eqb_spec c TRANSFER_TO_NEW_OP_CODE) as [->|].
  { destruct (TransferToNewOp_decoder_total bytes) as [[? [? ->]]|[? [? ->]]]; cbn; naive_solver. }
  destruct (Z.eqb_spec c WITHDRAW_OP_CODE) as [->|].
  { destruct (WithdrawOp_decoder_total bytes) as [[? [? ->]]|[? [? ->]]]; cbn; naive_solver. }
  destruct (Z.eqb_spec c CLOSE_OP_CODE) as [->|].
  { destruct (CloseOp_decoder_total bytes) as [[? [? ->]]|[? [? ->]]]; cbn; naive_solver. }
  destruct (Z.eqb_spec c TRANSFER_OP_CODE) as [->|].
  { destruct (TransferOp_decoder_total bytes) as [[? [? ->]]|[? [? ->]]]; cbn; naive_solver. }
  destruct (Z.eqb_spec c FULL_EXIT_OP_CODE) as [->|].
  { destruct (FullExitOp_decoder_total bytes) as [[? [? ->]]|[? [? ->]]]; cbn; naive_solver. }
  destruct (Z.eqb_spec c CHANGE_PUBKEY_OP_CODE) as [->|].
  { destruct (ChangePubKeyOp_decoder_total bytes) as [[? [? ->]]|[? [? ->]]]; cbn; naive_solver. }
  naive_solver.
Qed.

Lemma from_public_data_returns bytes : ∃ r, from_public_data bytes = Val r.
Proof. apply from_public_data_accepts. Qed.

(** Decoding is total: for every byte string [from_public_data] returns (it does not
    panic), and it returns an operation exactly when the string is not empty, its
    first byte is an operation code, and its length is the one of that operation (at
    least that long for a change of the public key; eight zero bytes for a noop). *)
Theorem from_public_data_total bytes :
  (∃ r, from_public_data bytes = Val r) ∧
  ((∃ op, from_public_data bytes = Val (Ok op)) ↔
   ∃ c, head bytes = Some c ∧ accepts_length c bytes).
Proof.
  exact (from_public_data_accepts bytes).
Qed.

(** The priority queue and the block agree: when the event's public data is what the
    deposit (full exit) occupies in the block after the operation code and before the
    padding, then parsing it gives the deposit with the event's sender (the full
    exit itself). *)
Theorem parse_priority_log_roundtrip (op : FranklinOp) (p : FranklinPriorityOp) sender data n :
  FranklinOp_wf op → try_get_priority_op op = Ok p → public_data op = Val data →
  n = (match p with PDeposit _ => 25 | PFullExit _ => 23 end)%nat →
  parse_from_priority_queue_logs (take n (drop 1 data)) (op_code op) sender =
  Val (Ok (match p with
           | PDeposit d => PDeposit (mkDeposit sender (dp_token_id d) (dp_to d))
           | PFullExit e => PFullExit e
           end)).
Proof.
  destruct op as [|[d id]|[]|[]|[]|[]|[e]|[]]; intros Hwf [= <-] [= <-] ->; cbn [FranklinOp_wf] in Hwf.
  - destruct Hwf as (?&?&?). unfold DepositOp_get_public_data. cbn [dpo_priority_op dpo_account_id].
    split_record. change (drop 1 ([DEPOSIT_OP_CODE] ++ ?l)) with l.
    rewrite !app_assoc, take_app_length' by solve_len. rewrite <- app_assoc. unfold parse_from_priority_queue_logs, split_at. cbn [Z.eqb op_code].
    change (DEPOSIT_OP_CODE =? DEPOSIT_OP_CODE) with true. cbv iota. norm_widths.
    rewrite decide_True by solve_len. cbn [lift_outcome mbind fallible_bind snd].
    rewrite drop_app_length' by solve_len. rewrite decide_True by solve_len.
    cbn [lift_outcome mbind fallible_bind fst snd]. rewrite take_app_length', drop_app_length' by solve_len.
    rewrite decide_True by solve_len. cbn [lift_outcome mbind fallible_bind fst snd].
    rewrite drop_ge, take_ge by solve_len. rewrite bool_decide_true by done.
    cbn [ensure_that mbind fallible_bind]. by rewrite from_be_u16.
  - destruct Hwf as (?&?). unfold FullExitOp_get_public_data. cbn [feo_priority_op].
    split_record. change (drop 1 ([FULL_EXIT_OP_CODE] ++ ?l)) with l.
    rewrite !app_assoc, take_app_length' by solve_len.
    unfold parse_from_priority_queue_logs, split_at.
    change (op_code _ =? DEPOSIT_OP_CODE) with false.
    change (op_code _ =? FULL_EXIT_OP_CODE) with true. cbv iota. norm_widths.
    rewrite decide_True by solve_len. cbn [lift_outcome mbind fallible_bind fst snd].
    rewrite take_app_length' by solve_len.
    unfold bytes_slice_to_uint32. rewrite bytes_slice_to_uint_Val by solve_len.
    cbn [unwrap lift_outcome mbind fallible_bind outcome_bind fst snd].
    rewrite drop_app_length' by solve_len. rewrite decide_True by solve_len.
    cbn [lift_outcome mbind fallible_bind fst snd].
    rewrite (drop_ge (fe_eth_address e)), take_ge by solve_len. rewrite bool_decide_true by done.
    cbn [ensure_that mbind fallible_bind]. rewrite from_be_account_id by done. by destruct e.
Qed.
End OpsFacts.
