(* ===== verification/Block.v ===== *)
(** * Blocks and their public data
    (core/models/src/node/block.rs, core/models/src/lib.rs,
     core/data_restore/src/rollup_ops.rs)

    A block is a list of executed operations; failed transactions are kept in
    it but publish nothing.  The block's public data is the concatenation of
    the operations' public data, padded with zeros, that is with noops, to the
    size of the block; the restore driver cuts it back into operations. *)

From S2P Require Import Prelude Bytes Params Externals Primitives Amounts Account Tx Operations.
Open Scope Z_scope.

Section Block.
  Context `{EX : External}.

Record ExecutedTx : Type := mkExecutedTx {
  et_tx : FranklinTx;
  et_success : bool;
  et_op : option FranklinOp;
  et_fail_reason : option string;
  et_block_index : option Z;
  et_created_at : Z;
}.

Record ExecutedPriorityOp : Type := mkExecutedPriorityOp {
  epo_priority_op : PriorityOp;
  epo_op : FranklinOp;
  epo_block_index : Z;
}.

Inductive ExecutedOperations : Type :=
| ExTx (tx : ExecutedTx)
| ExPriorityOp (op : ExecutedPriorityOp).

Definition get_executed_op (self : ExecutedOperations) : option FranklinOp :=
  match self with
  | ExTx exec_tx => et_op exec_tx
  | ExPriorityOp exec_op => Some (epo_op exec_op)
  end.

Definition ExecutedOperations_get_eth_public_data (self : ExecutedOperations) : outcome bytes :=
  match get_executed_op self with Some op => public_data op | None => Val [] end.

Definition get_eth_witness_bytes (self : ExecutedOperations) : option bytes :=
  (λ op, default [] (eth_witness op)) <$> get_executed_op self.

Record Block : Type := mkBlock {
  block_number : BlockNumber;
  new_root_hash : Fr;
  fee_account : AccountId;
  block_transactions : list ExecutedOperations;
  processed_priority_ops : Z * Z;
  block_chunks_size : nat;
}.

Definition Block_new (block_number : BlockNumber) (new_root_hash : Fr) (fee_account : AccountId)
    (block_transactions : list ExecutedOperations) (processed_priority_ops : Z * Z)
    (block_chunks_size : nat) : Block :=
  mkBlock block_number new_root_hash fee_account block_transactions processed_priority_ops
    block_chunks_size.

(** The executed operations of a block, in order. *)
Definition block_ops (self : Block) : list FranklinOp :=
  omap get_executed_op (block_transactions self).

Definition sum_chunks (ops : list FranklinOp) : nat := sum_list (FranklinOp_chunks <$> ops).

Definition chunks_used (self : Block) : nat := sum_chunks (block_ops self).

Fixpoint first_block_size (chunks_used : nat) (sizes : list nat) : option nat :=
  match sizes with
  | [] => None
  | block_size :: sizes =>
      if (chunks_used <=? block_size)%nat then Some block_size else first_block_size chunks_used sizes
  end.

Definition smallest_block_size_for_chunks (chunks_used : nat) (available_block_sizes : list nat) :
    outcome nat :=
  match first_block_size chunks_used available_block_sizes with
  | Some block_size => Val block_size
  | None =>
      match last available_block_sizes with
      | Some _ => Panic "Provided chunks amount cannot fit in one block"
      | None => Panic "called `Option::unwrap()` on a `None` value"
      end
  end.

Definition smallest_block_size (self : Block) (available_block_sizes : list nat) : outcome nat :=
  smallest_block_size_for_chunks (chunks_used self) available_block_sizes.

Definition new_from_availabe_block_sizes (block_number : BlockNumber) (new_root_hash : Fr)
    (fee_account : AccountId) (block_transactions : list ExecutedOperations)
    (processed_priority_ops : Z * Z) (available_block_chunks_sizes : list nat) : outcome Block :=
  let block := mkBlock block_number new_root_hash fee_account block_transactions
                 processed_priority_ops 0 in
  size ← smallest_block_size block available_block_chunks_sizes;
  Val (mkBlock block_number new_root_hash fee_account block_transactions processed_priority_ops size).

(** [PrimeFieldRepr::write_be]: the limbs, highest first, each big-endian. *)
Definition repr_write_be (limbs : list Z) : bytes := concat (to_be_bytes 8 <$> reverse limbs).
Definition fe_to_bytes (value : Fr) : bytes := repr_write_be (fr_repr value).
Definition get_eth_encoded_root (self : Block) : bytes := repr_write_be (fr_repr (new_root_hash self)).

(** [flat_map(FranklinOp::public_data)] *)
Fixpoint ops_public_data (ops : list FranklinOp) : outcome bytes :=
  match ops with
  | [] => Val []
  | op :: ops => data ← public_data op; rest ← ops_public_data ops; Val (data ++ rest)
  end.

Definition get_eth_public_data (self : Block) : outcome bytes :=
  executed_tx_pub_data ← ops_public_data (block_ops self);
  Val (vec_resize (block_chunks_size self * 8) 0 executed_tx_pub_data).

Definition get_eth_witness_data (self : Block) : bytes * list Z :=
  foldl (λ '(eth_witness_data, used_bytes) block_tx,
    match get_executed_op block_tx with
    | Some franklin_op =>
        match eth_witness franklin_op with
        | Some witness_bytes =>
            (eth_witness_data ++ witness_bytes, used_bytes ++ [Z.of_nat (length witness_bytes)])
        | None => (eth_witness_data, used_bytes)
        end
    | None => (eth_witness_data, used_bytes)
    end) ([], []) (block_transactions self).

Definition number_of_processed_prior_ops (self : Block) : Z :=
  wrap 64 ((processed_priority_ops self).2 - (processed_priority_ops self).1).

Definition get_withdrawals_data (self : Block) : bytes :=
  foldl (λ withdrawals_data block_tx,
    match get_executed_op block_tx with
    | Some franklin_op =>
        match withdrawal_data franklin_op with
        | Some data => withdrawals_data ++ data
        | None => withdrawals_data
        end
    | None => withdrawals_data
    end) [] (block_transactions self).

(** ** Decoding a block: the loop of [get_rollup_ops_from_data]

    A round of the loop consumes at least eight bytes, so [length data] rounds
    are more than enough; running out of fuel is a panic, which the theorem
    below excludes for the data of a block. *)
Fixpoint rollup_ops_loop (fuel : nat) (data : bytes) (current_pointer : nat)
    (ops : list FranklinOp) : Fallible (list FranklinOp) :=
  match fuel with
  | O => Panic "out of fuel"
  | S fuel =>
      match data !! current_pointer with
      | None => Val (Ok ops)
      | Some op_type =>
          pub_data_size ← Val (public_data_length op_type);
          let pre := current_pointer in
          let post := (pre + pub_data_size)%nat in
          op_data ← lift_outcome (slice data pre post);
          op ← from_public_data op_data;
          rollup_ops_loop fuel data (current_pointer + pub_data_size)%nat (ops ++ [op])
      end
  end.

Definition get_rollup_ops_from_data (data : bytes) : Fallible (list FranklinOp) :=
  rollup_ops_loop (S (length data)) data 0 [].

Record RollupOpsBlock : Type := mkRollupOpsBlock {
  rob_block_num : Z;
  rob_ops : list FranklinOp;
  rob_fee_account : Z;
}.

(** ** Facts *)

Lemma first_block_size_spec n sizes :
  match first_block_size n sizes with
  | Some s => s ∈ sizes ∧ (n ≤ s)%nat ∧ (Sorted le sizes → ∀ t, t ∈ sizes → (n ≤ t → s ≤ t)%nat)
  | None => ∀ t, t ∈ sizes → (t < n)%nat
  end.
Proof.
  induction sizes as [|b sizes IH]; cbn [first_block_size]; [set_solver|].
  destruct (Nat.leb_spec n b).
  - split; [set_solver|]. split; [done|]. intros Hs%Sorted_StronglySorted; [|intros ???; lia].
    inversion Hs as [|?? _ Hall]; subst. rewrite Forall_forall in Hall.
    intros t [->|Ht]%elem_of_cons ?; [done|]. by apply Hall.
  - destruct (first_block_size n sizes) as [s|].
    + destruct IH as (? & ? & Hmin). split; [set_solver|]. split; [done|].
      intros Hs t [->|Ht]%elem_of_cons ?; [lia|]. apply Hmin; [by inversion Hs|done|done].
    + intros t [->|Ht]%elem_of_cons; [done|]. by apply IH.
Qed.

(** The size chosen for a block is one of the available sizes, holds all chunks of
    the block, and is the least such size when the sizes are listed in increasing
    order; the choice panics exactly when no available size is large enough. *)
Theorem smallest_block_size_correct block sizes :
  match smallest_block_size block sizes with
  | Val s => s ∈ sizes ∧ (chunks_used block ≤ s)%nat ∧
             (Sorted le sizes → ∀ t, t ∈ sizes → (chunks_used block ≤ t → s ≤ t)%nat)
  | Panic _ => ∀ t, t ∈ sizes → (t < chunks_used block)%nat
  end.
Proof.
  unfold smallest_block_size, smallest_block_size_for_chunks.
  pose proof (first_block_size_spec (chunks_used block) sizes) as H.
  destruct (first_block_size _ _); [done|]. by destruct (last sizes).
Qed.

Context `{EXL : !ExternalLaws}.

Lemma sum_chunks_cons op ops : sum_chunks (op :: ops) = (FranklinOp_chunks op + sum_chunks ops)%nat.
Proof. done. Qed.

Lemma sum_chunks_app ops ops' : sum_chunks (ops ++ ops') = (sum_chunks ops + sum_chunks ops')%nat.
Proof. induction ops as [|op ops IH]; [done|]. simpl app. rewrite !sum_chunks_cons, IH. lia. Qed.

Lemma op_chunks_pos op : (1 ≤ FranklinOp_chunks op)%nat.
Proof. destruct op; cbv; lia. Qed.

(** One operation is cut off the front of the remaining data. *)
Lemma rollup_ops_loop_step s op pre data post fuel acc :
  TxSignature_default = Val s → FranklinOp_wf op → public_data op = Val data →
  rollup_ops_loop (S fuel) (pre ++ data ++ post) (length pre) acc =
  rollup_ops_loop fuel (pre ++ data ++ post) (length (pre ++ data)) (acc ++ [forget s op]).
Proof.
  intros Hs Hwf Hdata. destruct (public_data_spec s op Hs Hwf) as (d & Hd & Hlen & Hhead & Hfrom).
  rewrite Hdata in Hd. injection Hd as <-. cbn [rollup_ops_loop].
  rewrite lookup_app_r, Nat.sub_diag by lia.
  destruct data as [|c data]; [done|]. injection Hhead as ->. cbn [lookup list_lookup app].
  rewrite public_data_length_code. cbn [mbind fallible_bind]. rewrite <- Hlen.
  rewrite (slice_app_mid pre (op_code op :: data) post) by done.
  cbn [lift_outcome mbind fallible_bind]. rewrite Hfrom. cbn [mbind fallible_bind].
  by rewrite length_app.
Qed.

Lemma ops_public_data_length ops :
  Forall FranklinOp_wf ops →
  ∃ data, ops_public_data ops = Val data ∧ length data = (sum_chunks ops * 8)%nat.
Proof.
  destruct TxSignature_default_Val as [s Hs].
  induction 1 as [|op ops Hwf _ IH]; [by exists []|].
  destruct (public_data_spec s op Hs Hwf) as (d & Hd & Hlen & _). destruct IH as (rest & Hrest & Hl).
  exists (d ++ rest). cbn [ops_public_data]. rewrite Hd. cbn [mbind outcome_bind]. rewrite Hrest.
  split; [done|]. rewrite length_app, Hlen, Hl, sum_chunks_cons. lia.
Qed.

Lemma rollup_ops_loop_ops s ops pre data post fuel acc :
  TxSignature_default = Val s → Forall FranklinOp_wf ops → ops_public_data ops = Val data →
  rollup_ops_loop (length ops + fuel) (pre ++ data ++ post) (length pre) acc =
  rollup_ops_loop fuel (pre ++ data ++ post) (length (pre ++ data)) (acc ++ (forget s <$> ops)).
Proof.
  intros Hs Hwf. revert pre data acc.
  induction Hwf as [|op ops Hop Hwf IH]; intros pre data acc Hdata.
  { injection Hdata as <-. by rewrite !app_nil_r. }
  cbn [ops_public_data] in Hdata. run_inv Hdata. cbn [length Nat.add].
  rewrite <- (app_assoc _ _ post), (rollup_ops_loop_step s op) by done. rewrite (app_assoc pre).
  rewrite IH by done. rewrite <- !app_assoc. by cbn [fmap list_fmap app].
Qed.

Lemma ops_public_data_noops k :
  ops_public_data (replicate k OpNoop) = Val (replicate (k * 8) 0).
Proof. induction k as [|k IH]; [done|]. simpl replicate. cbn [ops_public_data]. by rewrite IH. Qed.

Lemma sum_chunks_length ops : (length ops ≤ sum_chunks ops)%nat.
Proof.
  induction ops as [|op ops IH]; [done|]. rewrite sum_chunks_cons. pose proof (op_chunks_pos op).
  simpl length. lia.
Qed.

Lemma get_rollup_ops_of_ops s ops data :
  TxSignature_default = Val s → Forall FranklinOp_wf ops → ops_public_data ops = Val data →
  get_rollup_ops_from_data data = Val (Ok (forget s <$> ops)).
Proof.
  intros Hs Hwf Hdata. destruct (ops_public_data_length ops Hwf) as (d & Hd & Hlen).
  rewrite Hdata in Hd. injection Hd as <-. unfold get_rollup_ops_from_data.
  pose proof (sum_chunks_length ops). pose proof (rollup_ops_loop_ops s ops [] data []
    (S (length data) - length ops) [] Hs Hwf Hdata) as Hloop.
  rewrite app_nil_r in Hloop. cbn [app length] in Hloop.
  replace (length ops + (S (length data) - length ops))%nat with (S (length data)) in Hloop by lia.
  rewrite Hloop. replace (S (length data) - length ops)%nat with (S (length data - length ops)) by lia.
  cbn [rollup_ops_loop]. by rewrite (proj2 (lookup_ge_None data (length data))) by lia.
Qed.

Lemma block_public_data_ok block :
  Forall FranklinOp_wf (block_ops block) →
  (chunks_used block ≤ block_chunks_size block)%nat →
  ∃ s data, TxSignature_default = Val s ∧ get_eth_public_data block = Val data ∧
    length data = (block_chunks_size block * 8)%nat ∧
    get_rollup_ops_from_data data =
      Val (Ok ((forget s <$> block_ops block) ++
               replicate (block_chunks_size block - chunks_used block) OpNoop)).
Proof.
  intros Hwf Hfit. destruct TxSignature_default_Val as [s Hs].
  destruct (ops_public_data_length _ Hwf) as (d & Hd & Hlen). fold (chunks_used block) in Hlen.
  set (k := (block_chunks_size block - chunks_used block)%nat).
  assert (ops_public_data (block_ops block ++ replicate k OpNoop) = Val (d ++ replicate (k * 8) 0)) as Hall.
  { clear Hlen Hfit. clearbody k. revert d Hd.
    induction Hwf as [|op ops Hop Hwf IH]; intros d Hd.
    - injection Hd as <-. apply ops_public_data_noops.
    - cbn [ops_public_data] in Hd. run_inv Hd. cbn [app ops_public_data]. rewrite Hrun.
      cbn [mbind outcome_bind]. rewrite (IH _ Hrun1). cbn [mbind outcome_bind]. by rewrite app_assoc. }
  assert (vec_resize (block_chunks_size block * 8) 0 d = d ++ replicate (k * 8) 0) as Hpad.
  { rewrite vec_resize_app by lia. do 2 f_equal. lia. }
  exists s, (d ++ replicate (k * 8) 0). split; [done|]. split.
  { unfold get_eth_public_data. rewrite Hd. cbn [mbind outcome_bind]. by rewrite Hpad. }
  split; [rewrite <- Hpad; apply vec_resize_length|].
  rewrite (get_rollup_ops_of_ops s (block_ops block ++ replicate k OpNoop) _ Hs).
  - rewrite fmap_app, fmap_replicate. done.
  - apply Forall_app. split; [done|]. by apply Forall_replicate.
  - done.
Qed.

(** C24: What is published can be restored: for a block whose operations are well formed
    and fit in its size, [get_eth_public_data] returns exactly eight bytes per chunk
    of the block size, and the restore driver decodes these bytes into the block's
    operations (up to the unpublished fields), in order, followed by one noop for
    each unused chunk. *)
Theorem block_public_data_roundtrip block :
  Forall FranklinOp_wf (block_ops block) →
  (chunks_used block ≤ block_chunks_size block)%nat →
  ∃ s data, TxSignature_default = Val s ∧ get_eth_public_data block = Val data ∧
    length data = (block_chunks_size block * 8)%nat ∧
    get_rollup_ops_from_data data =
      Val (Ok ((forget s <$> block_ops block) ++
               replicate (block_chunks_size block - chunks_used block) OpNoop)).
Proof. apply block_public_data_ok. Qed.

Lemma public_data_length_pos c n : public_data_length c = Ok n → (8 ≤ n)%nat.
Proof.
  unfold public_data_length. repeat case_match; intros [= <-]; cbv; lia.
Qed.

Lemma rollup_ops_loop_terminates fuel data p acc :
  (length data - p < fuel)%nat →
  match rollup_ops_loop fuel data p acc with Val _ => True | Panic msg => msg = "slice out of range" end.
Proof.
  revert p acc. induction fuel as [|fuel IH]; intros p acc Hf; [lia|]. cbn [rollup_ops_loop].
  destruct (data !! p) as [c|] eqn:Hc; [|done]. apply lookup_lt_Some in Hc.
  destruct (public_data_length c) as [n|] eqn:Hn; [|done]. apply public_data_length_pos in Hn.
  cbn [mbind fallible_bind]. unfold slice at 1. case_decide; [|done].
  cbn [lift_outcome mbind fallible_bind]. set (d := take _ _).
  destruct (from_public_data_returns d) as [[op|e] ->]; cbn [mbind fallible_bind]; [|done].
  apply IH. lia.
Qed.

(** C40: The decoding loop terminates on every input: it ends with the operations or with
    the error of a decoder, or it panics when it slices past the end of the data. *)
Theorem get_rollup_ops_terminates data :
  match get_rollup_ops_from_data data with
  | Val _ => True
  | Panic msg => msg = "slice out of range"
  end.
Proof. apply rollup_ops_loop_terminates. lia. Qed.

(** Truncated public data is not reported as an error: if the data of an operation
    that follows correct operations is cut short, [get_rollup_ops_from_data] panics
    on the slice instead of returning [Err]. *)
Theorem get_rollup_ops_truncated ops op pre data n :
  Forall FranklinOp_wf ops → FranklinOp_wf op →
  ops_public_data ops = Val pre → public_data op = Val data → (0 < n < length data)%nat →
  get_rollup_ops_from_data (pre ++ take n data) = Panic "slice out of range".
Proof.
  intros Hwf Hop Hpre Hdata Hn. destruct TxSignature_default_Val as [s Hs].
  destruct (public_data_spec s op Hs Hop) as (d & Hd & Hlen & Hhead & _).
  rewrite Hdata in Hd. injection Hd as <-.
  destruct (ops_public_data_length ops Hwf) as (d & Hd & Hl). rewrite Hpre in Hd. injection Hd as <-.
  pose proof (sum_chunks_length ops). unfold get_rollup_ops_from_data.
  pose proof (rollup_ops_loop_ops s ops [] pre (take n data)
    (S (length (pre ++ take n data)) - length ops) [] Hs Hwf Hpre) as Hloop.
  cbn [app length] in Hloop. rewrite length_app, length_take in *.
  replace (length ops + (S (length pre + n `min` length data) - length ops))%nat
    with (S (length pre + n `min` length data)) in Hloop by lia.
  rewrite Hloop. replace (S (length pre + n `min` length data) - length ops)%nat
    with (S (length pre + n `min` length data - length ops)) by lia.
  cbn [rollup_ops_loop]. rewrite lookup_app_r, Nat.sub_diag by lia.
  destruct data as [|c data]; [done|]. injection Hhead as ->. destruct n as [|n]; [lia|].
  cbn [take lookup list_lookup]. rewrite public_data_length_code. cbn [mbind fallible_bind].
  unfold slice. rewrite decide_False; [done|]. rewrite length_app. cbn [length take] in *.
  rewrite length_take. lia.
Qed.
End Block.
