(* ===== verification/Merkle.v ===== *)
(** * Sparse Merkle trees: traits, reference hash and interface
    (core/models/src/merkle_tree/hasher.rs, core/models/src/primitives.rs)

    The tree of depth [D] always has [2^D] leaves: the leaves that were never
    written hold a default item.  [subtree_hash] is the textbook recursive hash
    of such a tree, and [SparseTree] is what the users of a tree rely on.  Both
    implementations of the repository are instances (SequentialSmt.v,
    ParallelSmt.v). *)

From S2P Require Import Prelude.
Open Scope Z_scope.

(** The trait [Hasher]; [compress] gets the level for personalisation. *)
Class Hasher (Hash : Type) : Type := {
  hasher_hash_bits : list bool → Hash;
  hasher_hash_elements : list Hash → Hash;
  hasher_compress : Hash → Hash → nat → Hash;
}.

(** The traits [GetBits] (which may panic) and [Default]. *)
Class GetBits (T : Type) : Type := get_bits_le : T → outcome (list bool).
Class Default (T : Type) : Type := default_value : T.

(** ** Positions in the tree

    A node is numbered as in a binary heap: the root is [1], the children of
    [i] are [2 i] and [2 i + 1], and leaf [k] of a tree of depth [D] is
    [2^D + k]. *)
Section Positions.
  Context (D : nat).

(** The ancestor of leaf [k] at depth [d]. *)
Definition anc (d : nat) (k : Z) : Z := (2 ^ Z.of_nat D + k) / 2 ^ (Z.of_nat D - Z.of_nat d).

Definition leaf_ok (k : Z) : Prop := 0 ≤ k < 2 ^ Z.of_nat D.

Lemma anc_leaf k : anc D k = 2 ^ Z.of_nat D + k.
Proof. unfold anc. rewrite Z.sub_diag. apply Z.div_1_r. Qed.

Lemma anc_range d k :
  (d ≤ D)%nat → leaf_ok k → 2 ^ Z.of_nat d ≤ anc d k < 2 ^ (Z.of_nat d + 1).
Proof.
  intros Hd Hk. unfold leaf_ok in Hk. unfold anc.
  assert (0 < 2 ^ (Z.of_nat D - Z.of_nat d)) by (apply Z.pow_pos_nonneg; lia).
  assert (2 ^ Z.of_nat D = 2 ^ Z.of_nat d * 2 ^ (Z.of_nat D - Z.of_nat d)) as E
    by (rewrite <- Z.pow_add_r by lia; f_equal; lia).
  rewrite Z.pow_add_r by lia. split.
  - apply Z.div_le_lower_bound; lia.
  - apply Z.div_lt_upper_bound; [lia|]. nia.
Qed.

Lemma anc_root k : leaf_ok k → anc 0 k = 1.
Proof.
  intros Hk. pose proof (anc_range 0 k ltac:(lia) Hk) as H.
  change (2 ^ Z.of_nat 0) with 1 in H. change (2 ^ (Z.of_nat 0 + 1)) with 2 in H. lia.
Qed.

Lemma anc_up d e k : (d ≤ e ≤ D)%nat → anc e k / 2 ^ (Z.of_nat e - Z.of_nat d) = anc d k.
Proof.
  intros. unfold anc. rewrite Z.div_div, <- Z.pow_add_r by (try apply Z.pow_pos_nonneg; lia).
  do 2 f_equal. lia.
Qed.

Lemma anc_S d k : (d < D)%nat → anc d k = anc (S d) k / 2.
Proof.
  intros. rewrite <- (anc_up d (S d)) by lia.
  replace (Z.of_nat (S d) - Z.of_nat d) with 1 by lia. done.
Qed.

Lemma anc_inj_up d e k k' : (d ≤ e ≤ D)%nat → anc e k = anc e k' → anc d k = anc d k'.
Proof. intros ? E. rewrite <- (anc_up d e k), E, (anc_up d e) by done. done. Qed.

Lemma anc_leaf_inj k k' : anc D k = anc D k' → k = k'.
Proof. rewrite !anc_leaf. lia. Qed.

(** The depth is determined by the position. *)
Lemma pow2_range_inj d e i :
  2 ^ Z.of_nat d ≤ i < 2 ^ (Z.of_nat d + 1) → 2 ^ Z.of_nat e ≤ i < 2 ^ (Z.of_nat e + 1) → d = e.
Proof.
  intros Hd He. destruct (lt_eq_lt_dec d e) as [[H|H]|H]; [|done|].
  - assert (2 ^ (Z.of_nat d + 1) ≤ 2 ^ Z.of_nat e) by (apply Z.pow_le_mono_r; lia). lia.
  - assert (2 ^ (Z.of_nat e + 1) ≤ 2 ^ Z.of_nat d) by (apply Z.pow_le_mono_r; lia). lia.
Qed.

Lemma anc_depth_inj d e k k' :
  (d ≤ D)%nat → (e ≤ D)%nat → leaf_ok k → leaf_ok k' → anc d k = anc e k' → d = e.
Proof.
  intros Hd He Hk Hk' E. apply (pow2_range_inj d e (anc d k)); [by apply anc_range|].
  rewrite E. by apply anc_range.
Qed.

Lemma anc_child d k :
  (d < D)%nat → anc (S d) k = 2 * anc d k + Z.b2z (Z.odd (anc (S d) k)).
Proof.
  intros Hd. rewrite (anc_S d k) by done. pose proof (Z.div_mod (anc (S d) k) 2) as H.
  rewrite Zmod_odd in H. destruct (Z.odd (anc (S d) k)); simpl Z.b2z; lia.
Qed.

Lemma anc_pos d k : (d ≤ D)%nat → leaf_ok k → 0 < anc d k.
Proof.
  intros Hd Hk. pose proof (anc_range d k Hd Hk).
  assert (0 < 2 ^ Z.of_nat d) by (apply Z.pow_pos_nonneg; lia). lia.
Qed.

Lemma anc_mono d e k : (d < e ≤ D)%nat → leaf_ok k → anc d k < anc e k.
Proof.
  intros He Hk. pose proof (anc_range d k ltac:(lia) Hk). pose proof (anc_range e k ltac:(lia) Hk).
  assert (2 ^ (Z.of_nat d + 1) ≤ 2 ^ Z.of_nat e) by (apply Z.pow_le_mono_r; lia). lia.
Qed.

Lemma anc_shiftr d k : (d < D)%nat → Z.shiftr (anc (S d) k) 1 = anc d k.
Proof. intros. rewrite Z.shiftr_div_pow2 by lia. symmetry. by apply anc_S. Qed.

Lemma anc_shiftr_leaf d k :
  (d ≤ D)%nat → Z.shiftr (2 ^ Z.of_nat D + k) (Z.of_nat (D - d)) = anc d k.
Proof.
  intros. rewrite Z.shiftr_div_pow2 by lia. unfold anc. by rewrite Nat2Z.inj_sub by lia.
Qed.

(** Two leaves part below a unique last common ancestor. *)
Lemma anc_part d k k' :
  (d ≤ D)%nat → leaf_ok k → leaf_ok k' → anc d k ≠ anc d k' →
  ∃ e, (e < d)%nat ∧ anc e k = anc e k' ∧ anc (S e) k ≠ anc (S e) k'.
Proof.
  intros Hd Hk Hk'. induction d as [|d IH]; intros Hne; [by rewrite !anc_root in Hne|].
  destruct (decide (anc d k = anc d k')) as [E|E].
  - exists d. repeat split; [lia|done|done].
  - destruct IH as (e & ? & ? & ?); [lia|done|]. exists e. repeat split; [lia|done|done].
Qed.

(** The order of two positions at a depth is decided where they part. *)
Lemma anc_part_order e d k k' :
  (e < d ≤ D)%nat → anc e k = anc e k' → anc (S e) k ≠ anc (S e) k' →
  anc d k' < anc d k ↔ Z.odd (anc (S e) k) = true.
Proof.
  intros Hd E Hne. rewrite (anc_child e k), (anc_child e k') in Hne by lia. rewrite E in Hne.
  assert (Z.odd (anc (S e) k) = negb (Z.odd (anc (S e) k'))) as Ho
    by (destruct (Z.odd (anc (S e) k)), (Z.odd (anc (S e) k')); simpl in *; done || lia).
  set (p := 2 ^ (Z.of_nat d - Z.of_nat (S e))).
  assert (0 < p) as Hp by (apply Z.pow_pos_nonneg; lia).
  pose proof (anc_up (S e) d k ltac:(lia)) as U. pose proof (anc_up (S e) d k' ltac:(lia)) as U'.
  fold p in U, U'.
  pose proof (Z.div_mod (anc d k) p). pose proof (Z.mod_pos_bound (anc d k) p Hp).
  pose proof (Z.div_mod (anc d k') p). pose proof (Z.mod_pos_bound (anc d k') p Hp).
  rewrite U in *. rewrite U' in *. rewrite (anc_child e k), E in U by lia.
  rewrite (anc_child e k') in U' by lia. rewrite Ho.
  pose proof (anc_child e k ltac:(lia)) as C. pose proof (anc_child e k' ltac:(lia)) as C'.
  rewrite E, Ho in C. destruct (Z.odd (anc (S e) k')); simpl in *; (split; [|done || nia]); nia || done.
Qed.
End Positions.

(** ** The reference hash *)
Section Reference.
  Context {T Hash : Type} `{HT : GetBits T} `{DT : Default T} `{HH : Hasher Hash}.
  Context (D : nat).

Definition bits_of (x : T) : list bool :=
  match get_bits_le x with Val b => b | Panic _ => [] end.
Definition item_hash (x : T) : Hash := hasher_hash_bits (bits_of x).

(** The hash of an untouched subtree of height [h]. *)
Fixpoint default_hash (h : nat) : Hash :=
  match h with
  | O => item_hash default_value
  | S h => hasher_compress (default_hash h) (default_hash h) h
  end.

(** The hash of the subtree of height [h] at position [i]. *)
Fixpoint subtree_hash (items : gmap Z T) (h : nat) (i : Z) : Hash :=
  match h with
  | O => item_hash (default default_value (items !! (i - 2 ^ Z.of_nat D)))
  | S h => hasher_compress (subtree_hash items h (2 * i)) (subtree_hash items h (2 * i + 1)) h
  end.

Definition reference_root (items : gmap Z T) : Hash := subtree_hash items D 1.

Lemma subtree_hash_ext items items' h i :
  (h ≤ D)%nat →
  (∀ k, anc D (D - h) k = i → items !! k = items' !! k) →
  subtree_hash items h i = subtree_hash items' h i.
Proof.
  revert i. induction h as [|h IH]; intros i Hh Hext; cbn [subtree_hash].
  - rewrite Hext; [done|]. rewrite Nat.sub_0_r, anc_leaf. lia.
  - rewrite (IH (2 * i)), (IH (2 * i + 1)); try lia; [done|..]; intros k Hk; apply Hext.
    + rewrite anc_S by lia. replace (S (D - S h)) with (D - h)%nat by lia. rewrite Hk.
      replace (2 * i + 1) with (1 + i * 2) by lia. rewrite Z.div_add by lia. done.
    + rewrite anc_S by lia. replace (S (D - S h)) with (D - h)%nat by lia. rewrite Hk.
      rewrite Z.mul_comm. by apply Z.div_mul.
Qed.

(** Writing a leaf changes the hashes of its ancestors only. *)
Lemma subtree_hash_insert items k v h i :
  (h ≤ D)%nat → anc D (D - h) k ≠ i →
  subtree_hash (<[k := v]> items) h i = subtree_hash items h i.
Proof.
  intros Hh Hi. apply subtree_hash_ext; [done|]. intros k' Hk'.
  rewrite lookup_insert_ne; [done|]. by intros ->.
Qed.

Lemma subtree_hash_empty items h i :
  (h ≤ D)%nat → (∀ k, anc D (D - h) k = i → items !! k = None) →
  subtree_hash items h i = default_hash h.
Proof.
  intros Hh Hempty. transitivity (subtree_hash ∅ h i).
  { apply subtree_hash_ext; [done|]. intros k Hk. rewrite lookup_empty. by apply Hempty. }
  clear Hempty. revert i. induction h as [|h IH]; intros i; cbn [subtree_hash default_hash].
  - by rewrite lookup_empty.
  - by rewrite !IH by lia.
Qed.

(** Recomputing the root from a leaf and its Merkle path: an entry holds the hash of
    the sibling and whether the node is a right child. *)
Fixpoint fold_path (level : nat) (hash : Hash) (path : list (Hash * bool)) : Hash :=
  match path with
  | [] => hash
  | (sibling, going_right) :: path =>
      fold_path (S level)
        (if going_right : bool then hasher_compress sibling hash level
         else hasher_compress hash sibling level) path
  end.

(** The path of leaf [k] from depth [d] up. *)
Fixpoint reference_path (items : gmap Z T) (d : nat) (k : Z) : list (Hash * bool) :=
  match d with
  | O => []
  | S d' =>
      (subtree_hash items (D - d) (Z.lxor (anc D d k) 1), Z.odd (anc D d k)) :: reference_path items d' k
  end.

Lemma lxor_1_bit a (b : bool) : Z.lxor (2 * a + Z.b2z b) 1 = 2 * a + Z.b2z (negb b).
Proof.
  apply Z.bits_inj'. intros n Hn. rewrite Z.lxor_spec. destruct b; simpl Z.b2z; rewrite Z.add_0_r;
    (destruct (decide (n = 0)) as [->|]; [by rewrite Z.testbit_odd_0, Z.testbit_even_0|]);
    replace n with (Z.succ (n - 1)) by lia;
    rewrite Z.testbit_odd_succ, Z.testbit_even_succ by lia;
    rewrite (Z.bits_above_log2 1 (Z.succ (n - 1))) by (simpl; lia); apply xorb_false_r.
Qed.

Lemma lxor_1_child d k :
  (d < D)%nat →
  Z.lxor (anc D (S d) k) 1 = 2 * anc D d k + Z.b2z (negb (Z.odd (anc D (S d) k))).
Proof. intros Hd. rewrite (anc_child D d k Hd) at 1. apply lxor_1_bit. Qed.

Lemma fold_reference_path items d k :
  (d ≤ D)%nat → leaf_ok D k →
  fold_path (D - d) (subtree_hash items (D - d) (anc D d k)) (reference_path items d k) =
  reference_root items.
Proof.
  intros Hd Hk. induction d as [|d IH]; cbn [reference_path fold_path].
  - by rewrite Nat.sub_0_r, anc_root.
  - rewrite <- IH by lia. replace (D - d)%nat with (S (D - S d)) by lia. f_equal. cbn [subtree_hash].
    rewrite lxor_1_child by lia. pose proof (anc_child D d k ltac:(lia)) as Hc.
    destruct (Z.odd (anc D (S d) k)); simpl Z.b2z in *; rewrite Hc, ?Z.add_0_r; done.
Qed.

Lemma reference_path_length items d k : length (reference_path items d k) = d.
Proof. induction d; simpl; auto. Qed.
End Reference.

(** Items whose bits are always defined. *)
Class TotalBits (T : Type) `{HT : GetBits T} : Prop :=
  total_bits : ∀ v : T, ∃ b, get_bits_le v = Val b.

(** ** The interface of a tree of items *)
Class SparseTree (Tree T Hash : Type) : Type := {
  tree_new : nat → outcome Tree;
  tree_get : Tree → Z → option T;
  tree_insert : Tree → Z → T → outcome Tree;
  tree_remove : Tree → Z → outcome (option T * Tree);
  tree_items : Tree → gmap Z T;
  (** computing the root hash may fill caches inside the tree *)
  tree_root_hash : Tree → outcome (Hash * Tree);
}.

Class SparseTreeLaws (Tree T Hash : Type) `{HT : GetBits T, DT : Default T, HH : Hasher Hash}
    `{ST : !SparseTree Tree T Hash} : Type := {
  (** the representation invariant of a tree of the given depth *)
  tree_ok : nat → Tree → Prop;
  tree_new_ok D :
    (1 < D ≤ 32)%nat → (∃ b, get_bits_le (default_value : T) = Val b) →
    ∃ t, tree_new D = Val t ∧ tree_ok D t ∧ tree_items t = ∅;
  tree_get_items t k : tree_get t k = tree_items t !! k;
  tree_items_range D t k : tree_ok D t → is_Some (tree_items t !! k) → leaf_ok D k;
  tree_insert_ok D t k v :
    tree_ok D t → leaf_ok D k →
    ∃ t', tree_insert t k v = Val t' ∧ tree_ok D t' ∧ tree_items t' = <[k := v]> (tree_items t);
  tree_insert_full D t k v :
    tree_ok D t → 0 ≤ k → ¬ leaf_ok D k → ∃ msg, tree_insert t k v = Panic msg;
  tree_remove_ok D t k :
    tree_ok D t → leaf_ok D k →
    ∃ t', tree_remove t k = Val (tree_items t !! k, t') ∧ tree_ok D t' ∧
      tree_items t' = <[k := default_value]> (tree_items t);
  tree_root_hash_ok D t :
    tree_ok D t → (∀ k v, tree_items t !! k = Some v → ∃ b, get_bits_le v = Val b) →
    ∃ t', tree_root_hash t = Val (reference_root D (tree_items t), t') ∧ tree_ok D t' ∧
      tree_items t' = tree_items t;
}.

(** ** Sequences of operations on a tree *)
Inductive TreeOp (T : Type) : Type :=
| TInsert (index : Z) (item : T)
| TRemove (index : Z)
| TRootHash.
Arguments TInsert {T} index item.
Arguments TRemove {T} index.
Arguments TRootHash {T}.

Section Run.
  Context {Tree T Hash : Type} `{HT : GetBits T, DT : Default T, HH : Hasher Hash}.
  Context `{ST : !SparseTree Tree T Hash}.

Definition tree_step (t : Tree) (op : TreeOp T) : outcome Tree :=
  match op with
  | TInsert k v => tree_insert t k v
  | TRemove k => r ← tree_remove t k; Val r.2
  | TRootHash => r ← tree_root_hash t; Val r.2
  end.

Fixpoint tree_run (t : Tree) (ops : list (TreeOp T)) : outcome Tree :=
  match ops with
  | [] => Val t
  | op :: ops => t ← tree_step t op; tree_run t ops
  end.

(** What the operations do to the items. *)
Definition items_step (m : gmap Z T) (op : TreeOp T) : gmap Z T :=
  match op with
  | TInsert k v => <[k := v]> m
  | TRemove k => <[k := default_value]> m
  | TRootHash => m
  end.

Definition op_in_range (D : nat) (op : TreeOp T) : Prop :=
  match op with TInsert k _ | TRemove k => leaf_ok D k | TRootHash => True end.

Context `{SL : !SparseTreeLaws Tree T Hash} `{TB : !TotalBits T}.

Lemma tree_run_ok D t ops :
  tree_ok D t → Forall (op_in_range D) ops →
  ∃ t', tree_run t ops = Val t' ∧ tree_ok D t' ∧ tree_items t' = foldl items_step (tree_items t) ops.
Proof.
  intros Ht Hops. revert t Ht. induction Hops as [|op ops Hop Hops IH]; intros t Ht; [by exists t|].
  cbn [tree_run foldl].
  assert (∃ t1, tree_step t op = Val t1 ∧ tree_ok D t1 ∧ tree_items t1 = items_step (tree_items t) op)
    as (t1 & -> & Ht1 & <-).
  { destruct op as [k v|k|]; cbn [tree_step items_step].
    - by apply tree_insert_ok.
    - destruct (tree_remove_ok D t k) as (t1 & -> & ? & ?); [done..|]. by exists t1.
    - destruct (tree_root_hash_ok D t) as (t1 & -> & ? & ?); [done|intros; apply total_bits|]. by exists t1. }
  cbn [mbind outcome_bind]. by apply IH.
Qed.
End Run.
