(* ===== verification/ParallelSmt.v ===== *)
(** * The sparse Merkle tree of the accounts (core/models/src/merkle_tree/parallel_smt.rs)

    A compressed binary tree stored in a vector of nodes: a node is created
    only for a leaf and for the point where the paths of two leaves part, so an
    edge may jump over many levels.  Hashes are computed on demand and cached
    by position, and [insert] drops the cached hashes of the ancestors of the
    leaf that it writes.  The theorems show that the root hash and the Merkle
    paths that come out of the cache are those of the full tree.

    Positions and references are [Z] and [nat]: for the depths that the code
    uses (24 and 8) all values of the source's [u64]s are far below the width.
    The two halves of [rayon::join] share nothing but the read-only tree, so
    they are evaluated one after the other.  The loops have fuel: a round of
    the loops that walk down the tree increases the depth, a round of the loops
    that walk up halves a position, so [tree_depth + 1] rounds are enough. *)

From S2P Require Import Prelude Merkle.
Open Scope Z_scope.

Inductive NodeDirection : Type := Left | Right.

Record Node : Type := mkNode {
  n_depth : nat;
  n_index : Z;
  n_left : option nat;
  n_right : option nat;
}.

Definition child_index (self : NodeDirection) (parent_idx : Z) : Z :=
  match self with
  | Left => parent_idx * 2
  | Right => parent_idx * 2 + 1
  end.

Definition from_idx (idx : Z) : NodeDirection :=
  let is_left := Z.land idx 1 =? 0 in
  if is_left then Left else Right.

Definition order_elements {A} (self : NodeDirection) (primary_el secondary_el : A) : A * A :=
  match self with
  | Left => (primary_el, secondary_el)
  | Right => (secondary_el, primary_el)
  end.

(** [depth]: [while i.0 > 1 { level += 1; i.0 >>= 1 }] *)
Fixpoint depth_loop (fuel level : nat) (i : Z) : nat :=
  match fuel with
  | O => level
  | S fuel => if 1 <? i then depth_loop fuel (S level) (Z.shiftr i 1) else level
  end.
Definition depth (fuel : nat) (index : Z) : nat := depth_loop fuel 0 index.

(** The loop that halves two positions until they are equal. *)
Fixpoint common_parent (fuel : nat) (first_node_idx second_node_idx : Z) : Z :=
  match fuel with
  | O => first_node_idx
  | S fuel =>
      if first_node_idx =? second_node_idx then first_node_idx
      else common_parent fuel (Z.shiftr first_node_idx 1) (Z.shiftr second_node_idx 1)
  end.

Section Smt.
  Context {T Hash : Type} `{HT : GetBits T} `{DT : Default T} `{HH : Hasher Hash}.

Record SparseMerkleTree : Type := mkSMT {
  items : gmap Z T;
  tree_depth : nat;
  root : nat;
  nodes : list Node;
  prehashed : list Hash;
  cache : gmap Z Hash;
}.

(** Assignments to fields. *)
Definition set_items (i : gmap Z T) (t : SparseMerkleTree) : SparseMerkleTree :=
  mkSMT i (tree_depth t) (root t) (nodes t) (prehashed t) (cache t).
Definition set_nodes (n : list Node) (t : SparseMerkleTree) : SparseMerkleTree :=
  mkSMT (items t) (tree_depth t) (root t) n (prehashed t) (cache t).
Definition set_cache (c : gmap Z Hash) (t : SparseMerkleTree) : SparseMerkleTree :=
  mkSMT (items t) (tree_depth t) (root t) (nodes t) (prehashed t) c.

(** The loop of [new] that fills [prehashed] from the leaves up. *)
Fixpoint prehash_loop (n i : nat) (cur : Hash) (acc : list Hash) : list Hash :=
  match n with
  | O => acc
  | S n => let cur := hasher_compress cur cur i in prehash_loop n (S i) cur (acc ++ [cur])
  end.

Definition smt_new (depth : nat) : outcome SparseMerkleTree :=
  _ ← assert_that (1 <? depth)%nat "assertion failed: tree_depth > 1";
  bits ← get_bits_le (default_value : T);
  let cur := hasher_hash_bits bits in
  let prehashed := reverse (prehash_loop depth 0 cur [cur]) in
  Val (mkSMT ∅ depth 0 [mkNode 0 1 None None] prehashed ∅).

Definition smt_get (t : SparseMerkleTree) (index : Z) : option T := items t !! index.

Definition capacity (t : SparseMerkleTree) : Z := Z.shiftl 1 (Z.of_nat (tree_depth t)).

Definition calculate_level (t : SparseMerkleTree) (cur_depth : nat) : nat :=
  tree_depth t - cur_depth - 1.

(** The loop of [wipe_cache] above the first entry. *)
Fixpoint wipe_loop (fuel : nat) (c : gmap Z Hash) (i parent : Z) : gmap Z Hash :=
  match fuel with
  | O => c
  | S fuel => if parent <? i then wipe_loop fuel (delete i c) (Z.shiftr i 1) parent else c
  end.
Definition wipe_cache (t : SparseMerkleTree) (child parent : Z) : SparseMerkleTree :=
  match cache t !! child with
  | Some _ => set_cache (wipe_loop (S (tree_depth t)) (delete child (cache t)) (Z.shiftr child 1) parent) t
  | None => set_cache (delete child (cache t)) t
  end.

Definition insert_node (t : SparseMerkleTree) (index : Z) (depth : nat) (left right : option nat) :
    nat * SparseMerkleTree :=
  let nodes := nodes t ++ [mkNode depth index left right] in
  ((length nodes - 1)%nat, set_nodes nodes t).

Definition add_child_node (t : SparseMerkleTree) (node_ref : nat) (dir : NodeDirection) (child : nat) :
    outcome SparseMerkleTree :=
  node ← unwrap "index out of bounds" (nodes t !! node_ref);
  let node :=
    match dir with
    | Left => mkNode (n_depth node) (n_index node) (Some child) (n_right node)
    | Right => mkNode (n_depth node) (n_index node) (n_left node) (Some child)
    end in
  Val (set_nodes (<[node_ref := node]> (nodes t)) t).

(** The loop of [insert]. *)
Fixpoint insert_loop (fuel : nat) (t : SparseMerkleTree) (leaf_index : Z) (current_node_ref : nat) :
    outcome SparseMerkleTree :=
  match fuel with
  | O => Panic "out of fuel"
  | S fuel =>
      current_node ← unwrap "index out of bounds" (nodes t !! current_node_ref);
      let current_level := calculate_level t (n_depth current_node) in
      let going_right := 0 <? Z.land leaf_index (Z.shiftl 1 (Z.of_nat current_level)) in
      let '(dir, child_ref) :=
        if going_right then (Right, n_right current_node) else (Left, n_left current_node) in
      match child_ref with
      | Some next_ref =>
          next ← unwrap "index out of bounds" (nodes t !! next_ref);
          let leaf_index_normalized :=
            Z.shiftr leaf_index (Z.of_nat (tree_depth t - n_depth next)) in
          if leaf_index_normalized =? n_index next then
            let t := wipe_cache t (n_index next) (n_index current_node) in
            if n_index next =? leaf_index then Val t
            else insert_loop fuel t leaf_index next_ref
          else
            let common_parent_index :=
              common_parent (S (tree_depth t)) leaf_index_normalized (n_index next) in
            let t := wipe_cache t common_parent_index (n_index current_node) in
            let '(leaf_ref, t) := insert_node t leaf_index (tree_depth t) None None in
            let direction := if n_index next <? leaf_index_normalized then Right else Left in
            let '(lhs, rhs) := order_elements direction (Some leaf_ref) (Some next_ref) in
            let split_depth := depth (S (tree_depth t)) common_parent_index in
            let '(split_node_ref, t) := insert_node t common_parent_index split_depth lhs rhs in
            add_child_node t current_node_ref dir split_node_ref
      | None =>
          let '(leaf_ref, t) := insert_node t leaf_index (tree_depth t) None None in
          add_child_node t current_node_ref dir leaf_ref
      end
  end.

Definition smt_insert (t : SparseMerkleTree) (item_index : Z) (item : T) : outcome SparseMerkleTree :=
  _ ← assert_that (item_index <? capacity t) "assertion failed: item_index < self.capacity()";
  let leaf_index := Z.shiftl 1 (Z.of_nat (tree_depth t)) + item_index in
  let t := set_items (<[item_index := item]> (items t)) t in
  let t := set_cache (delete 1 (cache t)) t in
  insert_loop (S (tree_depth t)) t leaf_index (root t).

Definition smt_remove (t : SparseMerkleTree) (index : Z) : outcome (option T * SparseMerkleTree) :=
  let old := items t !! index in
  let t := set_items (delete index (items t)) t in
  t ← smt_insert t index default_value;
  Val (old, t).

Definition calculate_hash (t : SparseMerkleTree) (cur_depth : nat) (lhs_hash rhs_hash : Hash) : Hash :=
  let level := calculate_level t cur_depth in
  hasher_compress lhs_hash rhs_hash level.

Definition prehashed_at (t : SparseMerkleTree) (depth : nat) : outcome Hash :=
  unwrap "index out of bounds" (prehashed t !! depth).

(** The loop of [calculate_child_hash] that fills the levels between a child and its parent. *)
Fixpoint fill_gaps (fuel : nat) (t : SparseMerkleTree) (parent_depth cur_depth : nat) (cur_idx : Z)
    (cur_hash : Hash) (updates : list (Z * Hash)) : outcome (Hash * list (Z * Hash)) :=
  match fuel with
  | O => Val (cur_hash, updates)
  | S fuel =>
      if (parent_depth <? cur_depth)%nat then
        let direction := from_idx cur_idx in
        supplement_hash ← prehashed_at t (cur_depth + 1);
        let '(lhs_hash, rhs_hash) := order_elements direction cur_hash supplement_hash in
        let cur_hash := calculate_hash t cur_depth lhs_hash rhs_hash in
        let cur_depth := (cur_depth - 1)%nat in
        let cur_idx := Z.shiftr cur_idx 1 in
        fill_gaps fuel t parent_depth cur_depth cur_idx cur_hash (updates ++ [(cur_idx, cur_hash)])
      else Val (cur_hash, updates)
  end.

(** [calculate_child_hash] and [get_child_hash]; [rec] is [get_hash]. *)
Definition calculate_child_hash (rec : nat → outcome (Hash * list (Z * Hash)))
    (t : SparseMerkleTree) (child_ref : nat) (parent : Node) : outcome (Hash * list (Z * Hash)) :=
  child ← unwrap "index out of bounds" (nodes t !! child_ref);
  r ← rec child_ref;
  let '(cur_hash, updates) := r in
  fill_gaps (tree_depth t) t (n_depth parent) (n_depth child - 1) (n_index child) cur_hash updates.

Definition get_child_hash (rec : nat → outcome (Hash * list (Z * Hash)))
    (t : SparseMerkleTree) (parent : Node) (dir : NodeDirection) : outcome (Hash * list (Z * Hash)) :=
  let child_ref := match dir with Left => n_left parent | Right => n_right parent end in
  let child_index := child_index dir (n_index parent) in
  match cache t !! child_index with
  | Some cached => Val (cached, [])
  | None =>
      match child_ref with
      | Some child_ref => calculate_child_hash rec t child_ref parent
      | None => default_hash_for_layer ← prehashed_at t (n_depth parent + 1); Val (default_hash_for_layer, [])
      end
  end.

Fixpoint get_hash (fuel : nat) (t : SparseMerkleTree) (node_ref : nat) :
    outcome (Hash * list (Z * Hash)) :=
  match fuel with
  | O => Panic "out of fuel"
  | S fuel =>
      node ← unwrap "index out of bounds" (nodes t !! node_ref);
      r ← (if (n_depth node =? tree_depth t)%nat then
             let item_index := n_index node - Z.shiftl 1 (Z.of_nat (tree_depth t)) in
             item ← unwrap "no entry found for key" (items t !! item_index);
             item_bits ← get_bits_le item;
             Val (hasher_hash_bits item_bits, [])
           else
             left_hashes ← get_child_hash (get_hash fuel t) t node Left;
             right_hashes ← get_child_hash (get_hash fuel t) t node Right;
             let '(lhs_hash, lhs_updates) := left_hashes in
             let '(rhs_hash, rhs_updates) := right_hashes in
             let hash := calculate_hash t (n_depth node) lhs_hash rhs_hash in
             Val (hash, lhs_updates ++ rhs_updates));
      let '(hash, updates) := r in
      Val (hash, updates ++ [(n_index node, hash)])
  end.

(** Returns the hash and the tree with its cache filled. *)
Definition smt_root_hash (t : SparseMerkleTree) : outcome (Hash * SparseMerkleTree) :=
  r ← get_hash (S (tree_depth t)) t 0;
  let '(root_hash, intermediate_hashes) := r in
  Val (root_hash, set_cache (foldl (λ c '(i, h), <[i := h]> c) (cache t) intermediate_hashes) t).

Definition get_calculated_node_hash (t : SparseMerkleTree) (depth : nat) (node_index : Z) :
    outcome (Hash * bool) :=
  let neighbor_index := Z.lxor node_index 1 in
  let going_right := negb (Z.land node_index 1 =? 0) in
  neighbor_hash ← match cache t !! neighbor_index with
                  | Some hash => Val hash
                  | None => prehashed_at t depth
                  end;
  Val (neighbor_hash, going_right).

(** [for depth in (1..=tree_depth).rev()] *)
Fixpoint path_loop (t : SparseMerkleTree) (depth : nat) (cur_index : Z) : outcome (list (Hash * bool)) :=
  match depth with
  | O => Val []
  | S d =>
      entry ← get_calculated_node_hash t depth cur_index;
      proof ← path_loop t d (Z.shiftr cur_index 1);
      Val (entry :: proof)
  end.

Definition smt_merkle_path (t : SparseMerkleTree) (index : Z) :
    outcome (list (Hash * bool) * SparseMerkleTree) :=
  _ ← assert_that (index <? capacity t) "assertion failed: (index as ItemIndex) < self.capacity()";
  r ← smt_root_hash t;
  let t := r.2 in
  let cur_index := Z.shiftl 1 (Z.of_nat (tree_depth t)) + index in
  proof ← path_loop t (tree_depth t) cur_index;
  Val (proof, t).
End Smt.
Arguments SparseMerkleTree T Hash : clear implicits.
