(* ===== verification/ParallelSmtProofs.v ===== *)
(** * Correctness of the compressed Merkle tree

    The invariant of the node vector says that the nodes form the compressed
    tree of the written leaves, and the invariant of the cache that every
    cached hash is the reference hash of its position and that a cached
    position has all its written descendants cached.  [insert] keeps both, and
    under them [root_hash] and [merkle_path] compute what the full tree
    defines. *)

From S2P Require Import Prelude Merkle ParallelSmt.
Open Scope Z_scope.

(** The direction from depth [d] towards leaf [k]. *)
Definition dir_of (D d : nat) (k : Z) : NodeDirection :=
  if Z.odd (anc D (S d) k) then Right else Left.

Definition child (n : Node) (dir : NodeDirection) : option nat :=
  match dir with Left => n_left n | Right => n_right n end.

Lemma child_index_anc D d k :
  (d < D)%nat → child_index (dir_of D d k) (anc D d k) = anc D (S d) k.
Proof.
  intros. rewrite (anc_child D d k) by done. unfold dir_of, child_index.
  destruct (Z.odd _); simpl; lia.
Qed.

Lemma dir_of_eq D d k k' :
  (d < D)%nat → anc D d k = anc D d k' → dir_of D d k = dir_of D d k' → anc D (S d) k = anc D (S d) k'.
Proof. intros ? E Ed. by rewrite <- !child_index_anc, E, Ed. Qed.

Lemma dir_of_anc D d k k' : anc D (S d) k = anc D (S d) k' → dir_of D d k = dir_of D d k'.
Proof. unfold dir_of. by intros ->. Qed.

Lemma child_index_inv D d k dir :
  (d < D)%nat → child_index dir (anc D d k) = anc D (S d) k → dir = dir_of D d k.
Proof.
  intros Hd. rewrite <- (child_index_anc D d k) by done.
  destruct dir, (dir_of D d k); simpl; try done; lia.
Qed.

(** The test of [insert] for the direction. *)
Lemma going_right_dir D d k :
  (d < D)%nat →
  (0 <? Z.land (2 ^ Z.of_nat D + k) (Z.shiftl 1 (Z.of_nat (D - d - 1)))) = Z.odd (anc D (S d) k).
Proof.
  intros Hd. rewrite <- (anc_shiftr_leaf D (S d) k) by lia.
  replace (D - S d)%nat with (D - d - 1)%nat by lia.
  by rewrite land_shiftl_testbit, <- Z.bit0_odd, Z.shiftr_spec, Z.add_0_l by lia.
Qed.

Lemma depth_loop_spec fuel lvl i e :
  2 ^ Z.of_nat e ≤ i < 2 ^ (Z.of_nat e + 1) → (e < fuel)%nat → depth_loop fuel lvl i = (lvl + e)%nat.
Proof.
  revert lvl i e. induction fuel as [|fuel IH]; intros lvl i e Hi He; [lia|]. cbn [depth_loop].
  destruct e as [|e].
  - change (2 ^ Z.of_nat 0) with 1 in Hi. change (2 ^ (Z.of_nat 0 + 1)) with 2 in Hi.
    destruct (Z.ltb_spec 1 i); lia.
  - rewrite Nat2Z.inj_succ in Hi. rewrite !Z.pow_add_r, Z.pow_succ_r in Hi by lia.
    assert (1 ≤ 2 ^ Z.of_nat e) by (assert (0 < 2 ^ Z.of_nat e) by (apply Z.pow_pos_nonneg; lia); lia).
    destruct (Z.ltb_spec 1 i); [|lia]. rewrite (IH _ _ e); [lia| |lia].
    rewrite Z.shiftr_div_pow2 by lia. rewrite Z.pow_add_r by lia. simpl in *. split.
    + apply Z.div_le_lower_bound; lia.
    + apply Z.div_lt_upper_bound; lia.
Qed.

Lemma depth_anc D e k : (e ≤ D)%nat → leaf_ok D k → depth (S D) (anc D e k) = e.
Proof. intros. apply (depth_loop_spec (S D) 0); [by apply anc_range|lia]. Qed.

Lemma common_parent_spec D fuel d e k k' :
  (e ≤ d ≤ D)%nat → (d - e < fuel)%nat → anc D e k = anc D e k' → (e < d → anc D (S e) k ≠ anc D (S e) k')%nat →
  common_parent fuel (anc D d k) (anc D d k') = anc D e k.
Proof.
  revert d. induction fuel as [|fuel IH]; intros d Hd Hf E Hne; [lia|]. cbn [common_parent].
  destruct (Z.eqb_spec (anc D d k) (anc D d k')) as [E'|E'].
  - destruct (decide (e = d)) as [->|]; [done|]. exfalso. apply Hne; [lia|].
    by apply (anc_inj_up D (S e) d); [lia|].
  - destruct d as [|d]; [replace e with 0%nat in * by lia; done|].
    assert (e ≠ S d) by (by intros ->). rewrite !anc_shiftr by lia. apply IH; [lia|lia|done|].
    intros. apply Hne. lia.
Qed.

Section Proofs.
  Context {T Hash : Type} `{HT : GetBits T} `{DT : Default T} `{HH : Hasher Hash}.
  Implicit Types (t : SparseMerkleTree T Hash) (n m p : Node) (k : Z).

(** ** The invariant *)

Record nodes_ok (D : nat) (I : gmap Z T) (N : list Node) : Prop := {
  no_root : ∃ n, N !! 0%nat = Some n ∧ n_depth n = 0%nat;
  (** every node is the root or lies above a written leaf *)
  no_position r n : N !! r = Some n →
    ∃ k, (n_depth n ≤ D)%nat ∧ leaf_ok D k ∧ n_index n = anc D (n_depth n) k ∧
         (n_depth n = 0%nat ∨ is_Some (I !! k));
  (** an edge leads to a node further down, on the side of the edge *)
  no_child r n dir c : N !! r = Some n → child n dir = Some c →
    ∃ m k, N !! c = Some m ∧ leaf_ok D k ∧ (n_depth n < n_depth m ≤ D)%nat ∧
      n_index n = anc D (n_depth n) k ∧ n_index m = anc D (n_depth m) k ∧ dir = dir_of D (n_depth n) k;
  (** an edge jumps over no node *)
  no_edge r s n m k : N !! r = Some n → N !! s = Some m → leaf_ok D k →
    (n_depth n < n_depth m)%nat → n_index n = anc D (n_depth n) k → n_index m = anc D (n_depth m) k →
    ∃ c p, child n (dir_of D (n_depth n) k) = Some c ∧ N !! c = Some p ∧
      (n_depth n < n_depth p ≤ n_depth m)%nat ∧ n_index p = anc D (n_depth p) k;
  (** positions are not shared *)
  no_unique r s n m : N !! r = Some n → N !! s = Some m → n_index n = n_index m → r = s;
  (** every written leaf has its node *)
  no_leaf k : is_Some (I !! k) → ∃ r n, N !! r = Some n ∧ n_depth n = D ∧ n_index n = anc D D k;
}.

Record cache_ok (D : nat) (I : gmap Z T) (C : gmap Z Hash) : Prop := {
  co_value i h : C !! i = Some h →
    ∃ d, (d ≤ D)%nat ∧ h = subtree_hash D I (D - d) i ∧
      ((d = 0%nat ∧ i = 1) ∨ ∃ k, is_Some (I !! k) ∧ i = anc D d k);
  co_closed k d e : is_Some (I !! k) → (d ≤ e ≤ D)%nat →
    is_Some (C !! anc D d k) → is_Some (C !! anc D e k);
}.

Record smt_ok (D : nat) (t : SparseMerkleTree T Hash) : Prop := {
  so_depth : tree_depth t = D;
  so_pos : (0 < D)%nat;
  so_root : root t = 0%nat;
  so_items k : is_Some (items t !! k) → leaf_ok D k;
  so_prehashed d : (d ≤ D)%nat → prehashed t !! d = Some (default_hash (D - d));
  so_nodes : nodes_ok D (items t) (nodes t);
  so_cache : cache_ok D (items t) (cache t);
}.

(** ** A new tree *)

Lemma prehash_loop_spec (m i : nat) acc :
  prehash_loop m i (default_hash i) acc = acc ++ (default_hash <$> seq (S i) m).
Proof.
  revert i acc. induction m as [|m IH]; intros i acc; cbn [prehash_loop seq fmap list_fmap].
  - by rewrite app_nil_r.
  - change (hasher_compress (default_hash i) (default_hash i) i) with (default_hash (S i) : Hash).
    rewrite IH, <- app_assoc. done.
Qed.

Lemma smt_new_ok D :
  (1 < D)%nat → (∃ b, get_bits_le (default_value : T) = Val b) →
  ∃ t, smt_new D = Val t ∧ smt_ok D t ∧ items t = ∅.
Proof.
  intros HD [b Hb]. unfold smt_new. rewrite (proj2 (Nat.ltb_lt 1 D)) by done.
  cbn [assert_that mbind outcome_bind]. rewrite Hb. cbn [mbind outcome_bind].
  eexists. split; [done|]. split; [|done].
  assert (hasher_hash_bits b = default_hash 0) as ->.
  { unfold default_hash, item_hash, bits_of. by rewrite Hb. }
  rewrite prehash_loop_spec. change ([default_hash 0] ++ (default_hash <$> seq 1 D))
    with (default_hash <$> seq 0 (S D)).
  split; cbn [tree_depth root items nodes prehashed cache]; try done; try lia.
  - intros k [x Hx]. by rewrite lookup_empty in Hx.
  - intros d Hd. rewrite reverse_lookup by (rewrite length_fmap, length_seq; lia).
    rewrite length_fmap, length_seq, list_lookup_fmap, lookup_seq_lt by lia. done.
  - split.
    + by eexists.
    + intros [|r] n Hn; [|done]. injection Hn as <-. cbn [n_depth n_index]. exists 0.
      assert (leaf_ok D 0) as H0 by (split; [lia|apply Z.pow_pos_nonneg; lia]).
      rewrite anc_root by done. repeat split; [lia|apply H0..|by left].
    + intros [|r] n dir c Hn; [|done]. injection Hn as <-. by destruct dir.
    + intros [|r] [|s] n m k Hn Hm; try done. injection Hn as <-. injection Hm as <-. simpl. lia.
    + intros [|r] [|s] n m Hn Hm; done.
    + intros k [x Hx]. by rewrite lookup_empty in Hx.
Qed.

(** ** Adding nodes below a node on the path to a leaf *)

Definition with_child (n : Node) (dir : NodeDirection) (c : nat) : Node :=
  match dir with
  | Left => mkNode (n_depth n) (n_index n) (Some c) (n_right n)
  | Right => mkNode (n_depth n) (n_index n) (n_left n) (Some c)
  end.

Lemma with_child_depth n dir c : n_depth (with_child n dir c) = n_depth n.
Proof. by destruct dir. Qed.
Lemma with_child_index n dir c : n_index (with_child n dir c) = n_index n.
Proof. by destruct dir. Qed.
Lemma child_with_child n dir c : child (with_child n dir c) dir = Some c.
Proof. by destruct dir. Qed.
Lemma child_with_child_ne n dir dir' c : dir ≠ dir' → child (with_child n dir c) dir' = child n dir'.
Proof. by destruct dir, dir'. Qed.
#[local] Instance NodeDirection_eq_dec : EqDecision NodeDirection.
Proof. solve_decision. Defined.

Lemma add_child_node_Val t r dir c n :
  nodes t !! r = Some n →
  add_child_node t r dir c = Val (set_nodes (<[r := with_child n dir c]> (nodes t)) t).
Proof. intros Hn. unfold add_child_node. rewrite Hn. by destruct dir. Qed.

Section ExtendLookup.
  Context (N E : list Node) (cur x : nat) (n : Node) (dk : NodeDirection) (Hcur : N !! cur = Some n).
Let N' := <[cur := with_child n dk x]> (N ++ E).

Lemma extend_inv r m :
  N' !! r = Some m →
  (∃ m0, N !! r = Some m0 ∧ m = if decide (r = cur) then with_child n dk x else m0) ∨
  (∃ i, r = (length N + i)%nat ∧ E !! i = Some m).
Proof.
  unfold N'. pose proof (lookup_lt_Some _ _ _ Hcur) as Hlt.
  destruct (decide (r = cur)) as [->|Hne].
  - rewrite list_lookup_insert_eq by (rewrite length_app; lia). intros [= <-]. left. eauto.
  - rewrite list_lookup_insert_ne by done. intros Hr. apply lookup_app_Some in Hr as [Hr|[Hge Hr]].
    + left. eauto.
    + right. exists (r - length N)%nat. split; [lia|done].
Qed.

Lemma extend_old r m :
  N !! r = Some m → N' !! r = Some (if decide (r = cur) then with_child n dk x else m).
Proof.
  intros Hr. unfold N'. pose proof (lookup_lt_Some _ _ _ Hr).
  case_decide as Hc; [subst; rewrite list_lookup_insert_eq by (rewrite length_app; lia); done|].
  rewrite list_lookup_insert_ne by done. by apply lookup_app_l_Some.
Qed.

Lemma extend_old_shape r m :
  N !! r = Some m → ∃ m', N' !! r = Some m' ∧ n_depth m' = n_depth m ∧ n_index m' = n_index m.
Proof.
  intros Hr. rewrite (extend_old r m Hr). case_decide as Hc; [|by eexists].
  subst. rewrite Hcur in Hr. injection Hr as <-. eexists. split; [done|].
  by rewrite with_child_depth, with_child_index.
Qed.

Lemma extend_new i q : E !! i = Some q → N' !! (length N + i)%nat = Some q.
Proof.
  intros Hq. unfold N'. pose proof (lookup_lt_Some _ _ _ Hcur).
  rewrite list_lookup_insert_ne by lia. rewrite lookup_app_r by lia. by rewrite Nat.add_comm, Nat.add_sub.
Qed.

(** The node that an index of [N'] had before, and its shape. *)
Lemma extend_inv_shape r m :
  N' !! r = Some m →
  (∃ m0, N !! r = Some m0 ∧ n_depth m = n_depth m0 ∧ n_index m = n_index m0 ∧
     ∀ dir, child m dir = if decide (r = cur ∧ dir = dk) then Some x else child m0 dir) ∨
  (∃ i, r = (length N + i)%nat ∧ E !! i = Some m).
Proof.
  intros Hr. destruct (extend_inv r m Hr) as [(m0 & Hm0 & ->)|?]; [left|by right].
  exists m0. split; [done|]. case_decide as Hc.
  - subst r. rewrite Hcur in Hm0. injection Hm0 as <-.
    rewrite with_child_depth, with_child_index. split_and!; try done. intros dir.
    destruct (decide (dir = dk)) as [->|Hd].
    + rewrite decide_True by done. apply child_with_child.
    + rewrite decide_False by naive_solver. by apply child_with_child_ne.
  - split_and!; try done. intros dir. by rewrite decide_False by naive_solver.
Qed.

Lemma extend_first q : E !! 0%nat = Some q → N' !! length N = Some q.
Proof. intros Hq. rewrite <- (Nat.add_0_r (length N)). by apply extend_new. Qed.
End ExtendLookup.

Section Extend.
  Context (D : nat) (I J : gmap Z T) (N E : list Node) (k : Z) (cur x : nat) (n px : Node).
Let dk := dir_of D (n_depth n) k.
Let N' := <[cur := with_child n dk x]> (N ++ E).
  Context (HN : nodes_ok D I N) (Hk : leaf_ok D k) (Hcur : N !! cur = Some n)
    (Hn : (n_depth n < D)%nat) (Hidx : n_index n = anc D (n_depth n) k)
    (HJ : ∀ j, is_Some (J !! j) ↔ j = k ∨ is_Some (I !! j))
    (HE : ∀ i q, E !! i = Some q →
       (n_depth px ≤ n_depth q ≤ D)%nat ∧ n_index q = anc D (n_depth q) k)
    (Hpx : (n_depth n < n_depth px)%nat)
    (HX : ∃ i, x = (length N + i)%nat ∧ E !! i = Some px)
    (HL : ∃ i q, E !! i = Some q ∧ n_depth q = D)
    (HU : ∀ i j q q', E !! i = Some q → E !! j = Some q' → n_index q = n_index q' → i = j)
    (Hfree : ∀ r m, N !! r = Some m → (n_depth n < n_depth m)%nat → n_index m ≠ anc D (n_depth m) k)
    (Hside : ∀ s m k1, N !! s = Some m → leaf_ok D k1 → (n_depth n < n_depth m)%nat →
       n_index n = anc D (n_depth n) k1 → n_index m = anc D (n_depth m) k1 →
       dir_of D (n_depth n) k1 = dk →
       (n_depth px ≤ n_depth m)%nat ∧ anc D (n_depth px) k1 = anc D (n_depth px) k).

Lemma extend_px : N' !! x = Some px.
Proof. destruct HX as (i & Hx & Hi). rewrite Hx. by apply (extend_new N E cur x n dk Hcur). Qed.

Lemma px_ok : (n_depth px ≤ D)%nat ∧ n_index px = anc D (n_depth px) k.
Proof. destruct HX as (i & _ & Hi). destruct (HE i px Hi). lia. Qed.

Context
  (Hchild : ∀ i q dir c, E !! i = Some q → child q dir = Some c →
     ∃ m k1, N' !! c = Some m ∧ leaf_ok D k1 ∧ (n_depth q < n_depth m ≤ D)%nat ∧
       n_index q = anc D (n_depth q) k1 ∧ n_index m = anc D (n_depth m) k1 ∧
       dir = dir_of D (n_depth q) k1)
  (Hedge : ∀ i q s m k1, E !! i = Some q → N' !! s = Some m → leaf_ok D k1 →
     (n_depth q < n_depth m ≤ D)%nat → n_index q = anc D (n_depth q) k1 →
     n_index m = anc D (n_depth m) k1 →
     ∃ c p, child q (dir_of D (n_depth q) k1) = Some c ∧ N' !! c = Some p ∧
       (n_depth q < n_depth p ≤ n_depth m)%nat ∧ n_index p = anc D (n_depth p) k1).

Lemma extend_position r m :
  N' !! r = Some m →
  ∃ k1, (n_depth m ≤ D)%nat ∧ leaf_ok D k1 ∧ n_index m = anc D (n_depth m) k1 ∧
        (n_depth m = 0%nat ∨ is_Some (J !! k1)).
Proof.
  intros Hr. destruct (extend_inv_shape N E cur x n dk Hcur r m Hr) as [(m0 & Hm0 & -> & -> & _)|(i & -> & Hi)].
  - destruct (no_position _ _ _ HN _ _ Hm0) as (k1 & ? & ? & ? & Hs). exists k1.
    split_and!; try done; try lia. destruct Hs; [by left|right]. apply HJ. by right.
  - destruct (HE i m Hi) as [? ?]. exists k. split_and!; try done; try lia.
    right. apply HJ. by left.
Qed.

(** An edge from an old node to a new node. *)
Lemma extend_edge_new r m s q k1 i :
  N !! r = Some m → E !! i = Some q → s = (length N + i)%nat → leaf_ok D k1 →
  (n_depth m < n_depth q)%nat → n_index m = anc D (n_depth m) k1 → n_index q = anc D (n_depth q) k1 →
  (r = cur ∧ dir_of D (n_depth m) k1 = dk ∧ n_depth m = n_depth n ∧ anc D (n_depth px) k1 = anc D (n_depth px) k
     ∧ (n_depth px ≤ n_depth q)%nat) ∨
  (r ≠ cur ∧ ∃ c p, child m (dir_of D (n_depth m) k1) = Some c ∧ N !! c = Some p ∧
     (n_depth m < n_depth p ≤ n_depth q)%nat ∧ n_index p = anc D (n_depth p) k1).
Proof.
  intros Hr Hi -> Hk1 Hd Hm Hq. destruct (HE i q Hi) as [Hdq Hq']. rewrite Hq in Hq'.
  assert (∀ d, (d ≤ n_depth q)%nat → anc D d k1 = anc D d k) as Hsame.
  { intros d Hd'. by apply (anc_inj_up D d (n_depth q)); [lia|]. }
  destruct (lt_eq_lt_dec (n_depth m) (n_depth n)) as [[H1|H1]|H1].
  - right. split.
    { intros ->. rewrite Hcur in Hr. injection Hr as <-. lia. }
    destruct (no_edge _ _ _ HN r cur m n k1 Hr Hcur Hk1 H1 Hm) as (c & p & ? & ? & ? & ?).
    { rewrite Hidx. symmetry. apply Hsame. lia. }
    exists c, p. split_and!; try done; lia.
  - assert (r = cur) as ->.
    { apply (no_unique _ _ _ HN _ _ _ _ Hr Hcur). rewrite Hm, Hidx, H1. apply Hsame. lia. }
    left. rewrite Hcur in Hr. injection Hr as <-. split_and!; try done; try lia.
    + apply dir_of_anc. apply Hsame. lia.
    + apply Hsame. lia.
  - exfalso. apply (Hfree r m Hr H1). rewrite Hm. apply Hsame. lia.
Qed.

Lemma extend_edge r s m m' k1 :
  N' !! r = Some m → N' !! s = Some m' → leaf_ok D k1 →
  (n_depth m < n_depth m')%nat → n_index m = anc D (n_depth m) k1 → n_index m' = anc D (n_depth m') k1 →
  ∃ c p, child m (dir_of D (n_depth m) k1) = Some c ∧ N' !! c = Some p ∧
    (n_depth m < n_depth p ≤ n_depth m')%nat ∧ n_index p = anc D (n_depth p) k1.
Proof.
  intros Hr Hs Hk1 Hd Hm Hm'. destruct (extend_position s m' Hs) as (_ & HD & _ & _).
  destruct px_ok as [HpxD Hpxi].
  destruct (extend_inv_shape N E cur x n dk Hcur r m Hr) as [(m0 & Hr0 & Hdm & Him & Hch)|(i & -> & Hi)].
  2: { by apply (Hedge i m s m' k1). }
  rewrite Hdm, Him in *. rewrite Hch.
  destruct (extend_inv_shape N E cur x n dk Hcur s m' Hs) as [(m0' & Hs0 & Hdm' & Him' & _)|(i & -> & Hi)].
  - rewrite Hdm', Him' in *.
    destruct (no_edge _ _ _ HN r s m0 m0' k1 Hr0 Hs0 Hk1 Hd Hm Hm') as (c & p & Hc & Hp & ? & ?).
    destruct (decide (r = cur ∧ dir_of D (n_depth m0) k1 = dk)) as [[Hrc Hdir]|Hdec].
    + subst r. rewrite Hcur in Hr0. injection Hr0 as <-.
      destruct (Hside s m0' k1) as [? Heq]; [done..|].
      exists x, px. split; [done|]. split; [apply extend_px|]. split; [lia|]. by rewrite Hpxi, Heq.
    + destruct (extend_old_shape N E cur x n dk Hcur c p Hp) as (p' & Hp' & Hdp & Hip). exists c, p'.
      rewrite Hdp, Hip. done.
  - destruct (extend_edge_new r m0 (length N + i) m' k1 i) as
      [(-> & Hdir & Hdn & Heq & ?)|(Hne & c & p & Hc & Hp & ? & ?)]; [done..| |].
    + rewrite decide_True by (by rewrite Hdir). exists x, px. split; [done|]. split; [apply extend_px|].
      split; [lia|]. by rewrite Hpxi, Heq.
    + rewrite decide_False by naive_solver. destruct (extend_old_shape N E cur x n dk Hcur c p Hp) as (p' & Hp' & Hdp & Hip).
      exists c, p'. rewrite Hdp, Hip. done.
Qed.

Lemma extend_child r m dir c :
  N' !! r = Some m → child m dir = Some c →
  ∃ m' k1, N' !! c = Some m' ∧ leaf_ok D k1 ∧ (n_depth m < n_depth m' ≤ D)%nat ∧
    n_index m = anc D (n_depth m) k1 ∧ n_index m' = anc D (n_depth m') k1 ∧
    dir = dir_of D (n_depth m) k1.
Proof.
  intros Hr Hc. destruct px_ok as [HpxD Hpxi].
  destruct (extend_inv_shape N E cur x n dk Hcur r m Hr) as [(m0 & Hr0 & Hdm & Him & Hch)|(i & -> & Hi)].
  2: { by apply (Hchild i m dir c). }
  rewrite Hch in Hc. destruct (decide (r = cur ∧ dir = dk)) as [[Hrc ->]|Hdec].
  - subst r. injection Hc as <-. rewrite Hcur in Hr0. injection Hr0 as <-.
    exists px, k. rewrite Hdm, Him. split_and!; try done; try apply extend_px; try apply Hk; lia.
  - destruct (no_child _ _ _ HN _ _ _ _ Hr0 Hc) as (m' & k1 & Hm' & ? & ? & ? & ? & ?).
    destruct (extend_old_shape N E cur x n dk Hcur c m' Hm') as (p' & Hp' & Hdp & Hip). exists p', k1.
    rewrite Hdm, Him, Hdp, Hip. done.
Qed.

Lemma extend_nodes_ok : nodes_ok D J N'.
Proof.
  split.
  - destruct (no_root _ _ _ HN) as (m & Hm & Hd). destruct (extend_old_shape N E cur x n dk Hcur _ _ Hm) as (m' & ? & ? & ?).
    exists m'. split; [done|lia].
  - apply extend_position.
  - apply extend_child.
  - intros. by eapply extend_edge.
  - intros r s m m' Hr Hs Heq.
    destruct (extend_inv_shape N E cur x n dk Hcur r m Hr) as [(m0 & Hr0 & Hdm & Him & _)|(i & -> & Hi)],
      (extend_inv_shape N E cur x n dk Hcur s m' Hs) as [(m0' & Hs0 & Hdm' & Him' & _)|(j & -> & Hj)].
    + apply (no_unique _ _ _ HN _ _ _ _ Hr0 Hs0). congruence.
    + exfalso. destruct (HE j m' Hj) as [Hd Hq].
      destruct (no_position _ _ _ HN _ _ Hr0) as (k1 & ? & ? & Hp & _).
      assert (n_depth m0 = n_depth m') as E1.
      { apply (anc_depth_inj D _ _ k1 k); [done|lia|done|done|congruence]. }
      apply (Hfree r m0 Hr0); [lia|]. rewrite <- Him, Heq, E1. done.
    + exfalso. destruct (HE i m Hi) as [Hd Hq].
      destruct (no_position _ _ _ HN _ _ Hs0) as (k1 & ? & ? & Hp & _).
      assert (n_depth m0' = n_depth m) as E1.
      { apply (anc_depth_inj D _ _ k1 k); [done|lia|done|done|congruence]. }
      apply (Hfree s m0' Hs0); [lia|]. rewrite <- Him', <- Heq, E1. done.
    + f_equal. by apply (HU i j m m').
  - intros j [->|Hj]%HJ.
    + destruct HL as (i & q & Hi & Hq). destruct (HE i q Hi) as [_ Hqi].
      exists (length N + i)%nat, q. split; [by apply (extend_new N E cur x n dk Hcur)|]. rewrite Hqi, Hq. done.
    + destruct (no_leaf _ _ _ HN j Hj) as (r & m & Hr & Hd & Hi).
      destruct (extend_old_shape N E cur x n dk Hcur _ _ Hr) as (m' & ? & ? & ?). exists r, m'. split_and!; [done|lia|congruence].
Qed.
End Extend.

(** Overwriting a leaf that is already there. *)
Lemma nodes_ok_dom D I J N :
  (∀ j, is_Some (J !! j) ↔ is_Some (I !! j)) → nodes_ok D I N → nodes_ok D J N.
Proof.
  intros HJ [H1 H2 H3 H4 H5 H6]. split; try done.
  - intros r n Hn. destruct (H2 r n Hn) as (k & ? & ? & ? & Hs). exists k. rewrite HJ. done.
  - intros k Hk. apply H6. by apply HJ.
Qed.

(** The first new leaf on one side of a node. *)
Lemma nodes_ok_new_leaf D I J N k cur n :
  nodes_ok D I N → leaf_ok D k → N !! cur = Some n → (n_depth n < D)%nat →
  n_index n = anc D (n_depth n) k → child n (dir_of D (n_depth n) k) = None →
  (∀ j, is_Some (J !! j) ↔ j = k ∨ is_Some (I !! j)) →
  nodes_ok D J (<[cur := with_child n (dir_of D (n_depth n) k) (length N)]>
                  (N ++ [mkNode D (anc D D k) None None])).
Proof.
  intros HN Hk Hcur Hn Hidx Hnone HJ.
  assert (∀ s m k1, N !! s = Some m → leaf_ok D k1 → (n_depth n < n_depth m)%nat →
    n_index n = anc D (n_depth n) k1 → n_index m = anc D (n_depth m) k1 →
    dir_of D (n_depth n) k1 ≠ dir_of D (n_depth n) k) as Hempty.
  { intros s m k1 Hs Hk1 Hd Hn1 Hm1 Heq.
    destruct (no_edge _ _ _ HN cur s n m k1) as (c & p & Hc & _); [done..|].
    by rewrite Heq, Hnone in Hc. }
  apply (extend_nodes_ok D I J N [mkNode D (anc D D k) None None] k cur (length N) n
           (mkNode D (anc D D k) None None)); try done.
  - intros [|i] q Hq; [|done]. injection Hq as <-. done.
  - exists 0%nat. split; [lia|done].
  - by exists 0%nat, (mkNode D (anc D D k) None None).
  - by intros [|i] [|j] q q' Hq Hq'.
  - intros r m Hr Hd Heq. by apply (Hempty r m k).
  - intros s m k1 Hs Hk1 Hd Hn1 Hm1 Heq. by destruct (Hempty s m k1).
  - intros [|i] q dir c Hq; [|done]. injection Hq as <-. by destruct dir.
  - intros [|i] q s m k1 Hq; [|done]. injection Hq as <-. simpl. lia.
Qed.

(** A new leaf whose path parts from that of an edge in the middle of the edge. *)
Lemma nodes_ok_split D I J N k k' e cur c n nx :
  let dk := dir_of D (n_depth n) k in
  let leaf := mkNode D (anc D D k) None None in
  let split := with_child (with_child (mkNode e (anc D e k) None None) (dir_of D e k) (length N))
                 (dir_of D e k') c in
  nodes_ok D I N → leaf_ok D k → leaf_ok D k' → N !! cur = Some n → (n_depth n < D)%nat →
  n_index n = anc D (n_depth n) k → child n dk = Some c → N !! c = Some nx →
  (n_depth n < e < n_depth nx)%nat → (n_depth nx ≤ D)%nat → n_index nx = anc D (n_depth nx) k' →
  anc D e k = anc D e k' → anc D (S e) k ≠ anc D (S e) k' →
  (∀ j, is_Some (J !! j) ↔ j = k ∨ is_Some (I !! j)) →
  nodes_ok D J (<[cur := with_child n dk (S (length N))]> (N ++ [leaf; split])).
Proof.
  intros dk leaf split HN Hk Hk' Hcur Hn Hidx Hc Hnx He HD Hinx Heq Hne HJ.
  assert (∀ s m k1, N !! s = Some m → leaf_ok D k1 → (n_depth n < n_depth m)%nat →
    n_index n = anc D (n_depth n) k1 → n_index m = anc D (n_depth m) k1 →
    dir_of D (n_depth n) k1 = dk →
    (n_depth nx ≤ n_depth m)%nat ∧ n_index nx = anc D (n_depth nx) k1) as Hbelow.
  { intros s m k1 Hs Hk1 Hd Hn1 Hm1 Hdir.
    destruct (no_edge _ _ _ HN cur s n m k1) as (c' & p & Hc' & Hp & ? & ?); [done..|].
    rewrite Hdir, Hc in Hc'. injection Hc' as <-. rewrite Hnx in Hp. injection Hp as <-.
    split; [lia|done]. }
  assert (dir_of D e k ≠ dir_of D e k') as Hdirs.
  { intros Hd. apply Hne. by apply dir_of_eq; [lia|..]. }
  assert (n_depth split = e ∧ n_index split = anc D e k) as [Hds His].
  { subst split. by rewrite !with_child_depth, !with_child_index. }
  assert (n_depth leaf = D ∧ n_index leaf = anc D D k) as [Hdl Hil] by done.
  assert (∀ k1, n_index nx = anc D (n_depth nx) k1 → ∀ d, (d ≤ n_depth nx)%nat → anc D d k1 = anc D d k') as Hup.
  { intros k1 H1 d Hd. apply (anc_inj_up D d (n_depth nx)); [lia|]. congruence. }
  apply (extend_nodes_ok D I J N [leaf; split] k cur (S (length N)) n split); try done; fold dk.
  - intros [|[|i]] q Hq; [..|done]; injection Hq as <-; rewrite ?Hds, ?His, ?Hdl, ?Hil; split; done || lia.
  - rewrite Hds. lia.
  - exists 1%nat. split; [lia|done].
  - by exists 0%nat, leaf.
  - intros [|[|i]] [|[|j]] q q' Hq Hq'; try done; injection Hq as <-; injection Hq' as <-;
      rewrite His, Hil; intros E1; exfalso;
      assert (e = D) by (apply (anc_depth_inj D _ _ k k); try done; lia); lia.
  - intros r m Hr Hd Hm. destruct (Hbelow r m k Hr Hk Hd Hidx Hm eq_refl) as [? Hb].
    apply Hne. apply (Hup k Hb). lia.
  - intros s m k1 Hs Hk1 Hd Hn1 Hm1 Hdir.
    destruct (Hbelow s m k1 Hs Hk1 Hd Hn1 Hm1 Hdir) as [? Hb]. rewrite Hds. split; [lia|].
    rewrite (Hup k1 Hb) by lia. done.
  - intros [|[|i]] q dir c' Hq; [..|done]; injection Hq as <-.
    { by destruct dir. }
    intros Hch. rewrite Hds, His. destruct (decide (dir = dir_of D e k')) as [->|Hd].
    + subst split. rewrite child_with_child in Hch. injection Hch as <-.
      destruct (extend_old_shape N [leaf; with_child (with_child (mkNode e (anc D e k) None None)
        (dir_of D e k) (length N)) (dir_of D e k') c] cur (S (length N)) n dk Hcur c nx Hnx)
        as (m & Hm & Hdm & Him).
      exists m, k'. rewrite Hdm, Him. split_and!; done || lia.
    + assert (dir = dir_of D e k) as ->.
      { destruct dir, (dir_of D e k), (dir_of D e k'); done. }
      subst split. rewrite child_with_child_ne, child_with_child in Hch by congruence. injection Hch as <-.
      exists leaf, k. rewrite Hdl, Hil. split_and!; try done; try lia.
      by apply (extend_first N _ cur (S (length N)) n dk Hcur).
  - intros i q s m k1 Hq Hs Hk1 Hdm Hq1 Hm1.
    destruct i as [|[|i]]; [..|done]; injection Hq as <-; [rewrite Hdl in Hdm; lia|].
    rewrite Hds, His in *.
    destruct (extend_inv_shape N [leaf; split] cur (S (length N)) n dk Hcur s m Hs)
      as [(m0 & Hs0 & Hd0 & Hi0 & _)|(i & -> & Hi)].
    + rewrite Hd0, Hi0 in *.
      assert (∀ d, (d ≤ e)%nat → anc D d k1 = anc D d k) as Hsame.
      { intros d Hd. apply (anc_inj_up D d e); [lia|done]. }
      destruct (Hbelow s m0 k1) as [? Hb]; try done; try lia.
      { rewrite Hidx. symmetry. apply Hsame. lia. }
      { apply dir_of_anc. apply Hsame. lia. }
      assert (dir_of D e k1 = dir_of D e k') as -> by (apply dir_of_anc, (Hup k1 Hb); lia).
      destruct (extend_old_shape N [leaf; split] cur (S (length N)) n dk Hcur c nx Hnx)
        as (p & Hp & Hdp & Hip).
      exists c, p. rewrite Hdp, Hip. split_and!; try done; try lia.
      subst split. apply child_with_child.
    + destruct i as [|[|i]]; [..|done]; injection Hi as <-; [|lia].
      rewrite Hdl, Hil in *. apply anc_leaf_inj in Hm1 as <-. exists (length N), leaf.
      rewrite Hdl, Hil. split_and!; try done; try lia.
      * subst split. rewrite child_with_child_ne by congruence. apply child_with_child.
      * by apply (extend_first N _ cur (S (length N)) n dk Hcur).
Qed.

(** ** Dropping the cached hashes of the path *)

(** [C'] is [C] without the ancestors of [k] at the depths [(d, e]]. *)
Definition wiped (D : nat) (k : Z) (d e : nat) (C C' : gmap Z Hash) : Prop :=
  (∀ i, (d < i ≤ e)%nat → C' !! anc D i k = None) ∧
  (∀ x, (∀ i, (d < i ≤ e)%nat → x ≠ anc D i k) → C' !! x = C !! x).

Lemma wipe_loop_spec D fuel C j d k :
  leaf_ok D k → (d ≤ j ≤ D)%nat → (j - d < fuel)%nat →
  wiped D k d j C (wipe_loop fuel C (anc D j k) (anc D d k)).
Proof.
  intros Hk. revert C j. induction fuel as [|fuel IH]; intros C j Hj Hf; [lia|]. cbn [wipe_loop].
  destruct (decide (j = d)) as [->|Hne].
  { rewrite Z.ltb_irrefl. split; [lia|done]. }
  rewrite (proj2 (Z.ltb_lt _ _)) by (apply anc_mono; [lia|done]).
  destruct j as [|j]; [lia|]. rewrite anc_shiftr by lia.
  destruct (IH (delete (anc D (S j) k) C) j) as [H1 H2]; [lia..|]. split.
  - intros i Hi. destruct (decide (i = S j)) as [->|]; [|apply H1; lia].
    rewrite H2; [apply lookup_delete_eq|]. intros i' Hi' E.
    apply anc_depth_inj in E; [lia|lia|lia|done|done].
  - intros x Hx. rewrite H2 by (intros; apply Hx; lia). rewrite lookup_delete_ne; [done|].
    intros <-. apply (Hx (S j)); [lia|done].
Qed.

Lemma wipe_cache_spec D t e d k :
  tree_depth t = D → leaf_ok D k → (d < e ≤ D)%nat →
  (∀ i, (d < i ≤ e)%nat → is_Some (cache t !! anc D i k) → is_Some (cache t !! anc D e k)) →
  ∃ C', wipe_cache t (anc D e k) (anc D d k) = set_cache C' t ∧ wiped D k d e (cache t) C'.
Proof.
  intros Ht Hk He Hclosed. unfold wipe_cache. destruct (cache t !! anc D e k) as [h|] eqn:Hc.
  - destruct e as [|e]; [lia|]. rewrite Ht, anc_shiftr by lia. eexists. split; [done|].
    destruct (wipe_loop_spec D (S D) (delete (anc D (S e) k) (cache t)) e d k) as [H1 H2]; [done|lia..|].
    split.
    + intros i Hi. destruct (decide (i = S e)) as [->|]; [|apply H1; lia].
      rewrite H2; [apply lookup_delete_eq|]. intros i' Hi' E.
      apply anc_depth_inj in E; [lia|lia|lia|done|done].
    + intros x Hx. rewrite H2 by (intros; apply Hx; lia). rewrite lookup_delete_ne; [done|].
      intros <-. apply (Hx (S e)); [lia|done].
  - eexists. split; [done|]. split.
    + intros i Hi. destruct (decide (i = e)) as [->|Hne]; [apply lookup_delete_eq|].
      rewrite lookup_delete_ne by (intros E; apply anc_depth_inj in E; [lia|lia|lia|done|done]).
      apply eq_None_not_Some. intros Hs. apply Hclosed in Hs; [|lia]. destruct Hs. congruence.
    + intros x Hx. rewrite lookup_delete_ne; [done|]. intros <-. apply (Hx e); [lia|done].
Qed.

(** The cache while [insert] is at depth [d]: the ancestors of [k] down to [d] are gone. *)
Definition cache_stage (D : nat) (k : Z) (d : nat) (C C' : gmap Z Hash) : Prop :=
  (∀ i, (i ≤ d)%nat → C' !! anc D i k = None) ∧
  (∀ x, (∀ i, (i ≤ d)%nat → x ≠ anc D i k) → C' !! x = C !! x).

Lemma cache_stage_step D k d e C C1 C2 :
  leaf_ok D k → (d ≤ e ≤ D)%nat →
  cache_stage D k d C C1 → wiped D k d e C1 C2 → cache_stage D k e C C2.
Proof.
  intros Hk He [H1 H2] [H3 H4]. split.
  - intros i Hi. destruct (decide (i ≤ d)%nat); [|apply H3; lia].
    rewrite H4; [by apply H1|]. intros i' Hi' E. apply anc_depth_inj in E; [lia|lia|lia|done|done].
  - intros x Hx. rewrite H4, H2; [done|..]; intros; apply Hx; lia.
Qed.

(** Ancestors that were not cached count as dropped. *)
Lemma cache_stage_extend D k d e C C1 :
  leaf_ok D k → (d ≤ e ≤ D)%nat → cache_stage D k d C C1 →
  (∀ i, (d < i ≤ e)%nat → C !! anc D i k = None) → cache_stage D k e C C1.
Proof.
  intros Hk He Hstage Hnone. destruct Hstage as [H1 H2]. split.
  - intros i Hi. destruct (decide (i ≤ d)%nat); [by apply H1|]. rewrite H2.
    + apply Hnone. lia.
    + intros i' Hi' E. apply anc_depth_inj in E; [lia|lia|lia|done|done].
  - intros x Hx. apply H2. intros i Hi. apply Hx. lia.
Qed.

Lemma cache_stage_below D k d C C1 i :
  leaf_ok D k → (d < i ≤ D)%nat → cache_stage D k d C C1 → C1 !! anc D i k = C !! anc D i k.
Proof.
  intros Hk Hi [_ H]. apply H. intros j Hj E. apply anc_depth_inj in E; [lia|lia|lia|done|done].
Qed.

(** A cached position below the root lies above a written leaf. *)
Lemma cached_nonempty D I C k d :
  leaf_ok D k → (∀ k, is_Some (I !! k) → leaf_ok D k) → (0 < d ≤ D)%nat →
  cache_ok D I C → is_Some (C !! anc D d k) → ∃ k', is_Some (I !! k') ∧ anc D d k' = anc D d k.
Proof.
  intros Hk HI Hd HC [h Hh]. destruct (co_value _ _ _ HC _ _ Hh) as (d' & ? & _ & [[-> E]|(k' & Hk' & E)]).
  - pose proof (anc_mono D 0 d k ltac:(lia) Hk). rewrite anc_root in * by done. lia.
  - exists k'. assert (d = d') as -> by (apply (anc_depth_inj D d d' k k'); auto; lia). done.
Qed.

(** ** [insert] *)

(** Turning at the code's tests and records. *)
Lemma insert_dir D d k n :
  (d < D)%nat →
  (if 0 <? Z.land (2 ^ Z.of_nat D + k) (Z.shiftl 1 (Z.of_nat (D - d - 1)))
   then (Right, n_right n) else (Left, n_left n)) = (dir_of D d k, child n (dir_of D d k)).
Proof. intros Hd. rewrite going_right_dir by done. unfold dir_of. by destruct (Z.odd _). Qed.

Lemma split_node_shape D e d k k' r c :
  (e < d ≤ D)%nat → anc D e k = anc D e k' → anc D (S e) k ≠ anc D (S e) k' →
  (let '(lhs, rhs) := order_elements (if anc D d k' <? anc D d k then Right else Left) (Some r) (Some c) in
   mkNode e (anc D e k) lhs rhs) =
  with_child (with_child (mkNode e (anc D e k) None None) (dir_of D e k) r) (dir_of D e k') c.
Proof.
  intros Hd E Hne. pose proof (anc_part_order D e d k k' Hd E Hne) as H1.
  pose proof (anc_part_order D e d k' k Hd (eq_sym E) (not_eq_sym Hne)) as H2. unfold dir_of.
  assert (anc D d k ≠ anc D d k') by (intros ?; by apply Hne, (anc_inj_up D (S e) d); [lia|]).
  destruct (Z.ltb_spec (anc D d k') (anc D d k)) as [Hlt|Hge].
  - rewrite (proj1 H1 Hlt). destruct (Z.odd (anc D (S e) k')) eqn:Ho; [|done].
    apply proj2 in H2. specialize (H2 eq_refl). lia.
  - assert (anc D d k < anc D d k') as Hlt by lia. rewrite (proj1 H2 Hlt).
    destruct (Z.odd (anc D (S e) k)) eqn:Ho; [|done]. apply proj2 in H1. specialize (H1 eq_refl). lia.
Qed.

Section InsertLoop.
  Context (D : nat) (I : gmap Z T) (N : list Node) (C0 : gmap Z Hash) (k : Z).
  Context (HN : nodes_ok D I N) (HC : cache_ok D I C0) (Hk : leaf_ok D k)
    (HI : ∀ k, is_Some (I !! k) → leaf_ok D k).

(** What [insert] leaves behind. *)
Definition inserted (t : SparseMerkleTree T Hash) (r : outcome (SparseMerkleTree T Hash)) : Prop :=
  ∃ N' C', r = Val (set_cache C' (set_nodes N' t)) ∧
    (∀ J : gmap Z T, (∀ j, is_Some (J !! j) ↔ j = k ∨ is_Some (I !! j)) → nodes_ok D J N') ∧
    cache_stage D k D C0 C'.

Lemma inserted_set_cache t C r : inserted (set_cache C t) r → inserted t r.
Proof. intros (N' & C' & -> & ? & ?). by exists N', C'. Qed.

(** A written leaf below the edge of [n] towards [k]. *)
Lemma toward_k cur n i k' :
  N !! cur = Some n → n_index n = anc D (n_depth n) k → (n_depth n < i ≤ D)%nat →
  is_Some (I !! k') → anc D i k' = anc D i k →
  ∃ c p, child n (dir_of D (n_depth n) k) = Some c ∧ N !! c = Some p ∧ n_index p = anc D (n_depth p) k' ∧
    (n_depth p ≤ D)%nat.
Proof.
  intros Hcur Hidx Hi Hk' E. destruct (no_leaf _ _ _ HN k' Hk') as (r & m & Hr & Hd & Hm).
  destruct (no_edge _ _ _ HN cur r n m k') as (c & p & Hc & Hp & ? & ?).
  - done.
  - done.
  - by apply HI.
  - lia.
  - rewrite Hidx. apply (anc_inj_up D (n_depth n) i); [lia|done].
  - by rewrite Hd.
  - exists c, p. split_and!; [|done..|lia]. rewrite <- Hc. f_equal. apply dir_of_anc.
    symmetry. apply (anc_inj_up D (S (n_depth n)) i); [lia|done].
Qed.

Lemma insert_no_child t cur n :
  nodes t = N → tree_depth t = D → N !! cur = Some n → (n_depth n < D)%nat →
  n_index n = anc D (n_depth n) k → child n (dir_of D (n_depth n) k) = None →
  cache_stage D k (n_depth n) C0 (cache t) →
  inserted t (let '(leaf_ref, t) := insert_node t (anc D D k) D None None in
              add_child_node t cur (dir_of D (n_depth n) k) leaf_ref).
Proof.
  intros HtN HtD Hcur Hn Hidx Hnone Hstage. unfold insert_node. rewrite HtN.
  rewrite (add_child_node_Val _ _ _ _ n) by (cbn; by apply lookup_app_l_Some).
  eexists _, (cache t). split; [unfold set_cache, set_nodes; cbn; reflexivity|]. split.
  - intros J HJ. rewrite length_app, Nat.add_sub. cbn [nodes set_nodes].
    by apply (nodes_ok_new_leaf D I J).
  - apply (cache_stage_extend D k (n_depth n)); [done|lia|done|]. intros i Hi.
    apply eq_None_not_Some. intros Hs.
    destruct (cached_nonempty D I C0 k i) as (k' & Hk' & E); [done..|lia|done|done|].
    destruct (toward_k cur n i k') as (c & p & Hc & _); [done..|]. by rewrite Hnone in Hc.
Qed.

Lemma insert_split t cur n c nx k' e :
  nodes t = N → tree_depth t = D → N !! cur = Some n → (n_depth n < D)%nat →
  n_index n = anc D (n_depth n) k → child n (dir_of D (n_depth n) k) = Some c → N !! c = Some nx →
  (n_depth n < e < n_depth nx)%nat → (n_depth nx ≤ D)%nat → n_index nx = anc D (n_depth nx) k' →
  is_Some (I !! k') → anc D e k = anc D e k' → anc D (S e) k ≠ anc D (S e) k' →
  cache_stage D k (n_depth n) C0 (cache t) →
  inserted t (
    let t := wipe_cache t (anc D e k) (n_index n) in
    let '(leaf_ref, t) := insert_node t (anc D D k) (tree_depth t) None None in
    let '(lhs, rhs) := order_elements
      (if n_index nx <? anc D (n_depth nx) k then Right else Left) (Some leaf_ref) (Some c) in
    let '(split_node_ref, t) := insert_node t (anc D e k) (depth (S (tree_depth t)) (anc D e k)) lhs rhs in
    add_child_node t cur (dir_of D (n_depth n) k) split_node_ref).
Proof.
  intros HtN HtD Hcur Hn Hidx Hc Hnx He HD Hinx Hk' Heq Hne Hstage.
  destruct (wipe_cache_spec D t e (n_depth n) k) as (C' & Hw & Hwiped); [done|done|lia| |].
  { intros i Hi. rewrite (cache_stage_below D k (n_depth n) C0 (cache t) i) by (done || lia).
    rewrite (cache_stage_below D k (n_depth n) C0 (cache t) e) by (done || lia).
    rewrite (anc_inj_up D i e k k'), Heq by (done || lia). apply (co_closed _ _ _ HC); [done|lia]. }
  rewrite <- Hidx in Hw. rewrite Hw. cbv zeta. unfold insert_node at 1. cbn [nodes set_cache tree_depth set_nodes].
  rewrite HtN, HtD, length_app, Nat.add_sub, Hinx.
  pose proof (split_node_shape D e (n_depth nx) k k' (length N) c ltac:(lia) Heq Hne) as Hshape.
  destruct (order_elements _ _ _) as [lhs rhs]. unfold insert_node. cbn [nodes set_nodes tree_depth set_cache].
  rewrite depth_anc by (done || lia). rewrite Hshape, <- app_assoc, length_app. cbn [app length].
  rewrite (add_child_node_Val _ _ _ _ n) by (cbn; by apply lookup_app_l_Some).
  eexists _, C'. split; [unfold set_cache, set_nodes; cbn; reflexivity|]. split.
  - intros J HJ. cbn [nodes set_nodes length]. replace (length N + 2 - 1)%nat with (S (length N)) by lia.
    by apply (nodes_ok_split D I J N k k' e cur c n nx); auto.
  - apply (cache_stage_extend D k e); [done|lia|by apply (cache_stage_step D k (n_depth n) e _ (cache t)); [|lia|..]|].
    intros i Hi. apply eq_None_not_Some. intros Hs.
    destruct (cached_nonempty D I C0 k i) as (k2 & Hk2 & E2); [done..|lia|done|done|].
    destruct (toward_k cur n i k2) as (c' & p & Hc' & Hp & Hpi & _); [done|done|lia|done|done|].
    rewrite Hc in Hc'. injection Hc' as <-. rewrite Hnx in Hp. injection Hp as <-.
    apply Hne. rewrite <- (anc_inj_up D (S e) i k2 k) by (done || lia).
    apply (anc_inj_up D (S e) (n_depth nx)); [lia|]. congruence.
Qed.

Lemma insert_loop_spec fuel t cur n :
  nodes t = N → tree_depth t = D → N !! cur = Some n → (n_depth n < D)%nat →
  (D - n_depth n < fuel)%nat → n_index n = anc D (n_depth n) k →
  cache_stage D k (n_depth n) C0 (cache t) →
  inserted t (insert_loop fuel t (2 ^ Z.of_nat D + k) cur).
Proof.
  revert t cur n. induction fuel as [|fuel IH]; intros t cur n HtN HtD Hcur Hn Hf Hidx Hstage; [lia|].
  cbn [insert_loop]. rewrite HtN, Hcur. cbn [unwrap mbind outcome_bind]. unfold calculate_level.
  rewrite HtD, insert_dir by done.
  destruct (child n (dir_of D (n_depth n) k)) as [c|] eqn:Hc.
  2: { rewrite <- anc_leaf. by apply insert_no_child. }
  destruct (no_child _ _ _ HN _ _ _ _ Hcur Hc) as (nx & k1 & Hnx & Hk1 & Hd & Hn1 & Hx1 & Hdir).
  rewrite Hnx. cbn [unwrap mbind outcome_bind]. rewrite anc_shiftr_leaf by lia.
  destruct (no_position _ _ _ HN _ _ Hnx) as (k' & _ & Hk' & Hinx & [?|HkI]); [lia|].
  assert (anc D (S (n_depth n)) k = anc D (S (n_depth n)) k') as Hside.
  { transitivity (anc D (S (n_depth n)) k1).
    - apply dir_of_eq; [lia|congruence|done].
    - apply (anc_inj_up D _ (n_depth nx)); [lia|congruence]. }
  destruct (Z.eqb_spec (anc D (n_depth nx) k) (n_index nx)) as [Hon|Hoff].
  - destruct (wipe_cache_spec D t (n_depth nx) (n_depth n) k) as (C' & Hw & Hwiped); [done|done|lia| |].
    { intros i Hi. rewrite (cache_stage_below D k (n_depth n) C0 (cache t) i) by (done || lia).
      rewrite (cache_stage_below D k (n_depth n) C0 (cache t) (n_depth nx)) by (done || lia).
      assert (anc D (n_depth nx) k = anc D (n_depth nx) k') as Hkk by congruence.
      rewrite (anc_inj_up D i (n_depth nx) k k'), Hkk by (done || lia). apply (co_closed _ _ _ HC); [done|lia]. }
    rewrite Hon, <- Hidx in Hw. rewrite Hw. apply (inserted_set_cache t C').
    assert (cache_stage D k (n_depth nx) C0 C') as Hstage'
      by (apply (cache_stage_step D k (n_depth n) _ _ (cache t)); [done|lia|done|done]).
    destruct (Z.eqb_spec (n_index nx) (2 ^ Z.of_nat D + k)) as [Hleaf|Hleaf].
    + rewrite <- anc_leaf in Hleaf.
      assert (n_depth nx = D) as HdD by (apply (anc_depth_inj D _ _ k k); try done; try lia; congruence).
      exists N, C'. split; [by rewrite <- HtN; destruct t|]. split.
      * intros J HJ. apply (nodes_ok_dom D I); [|done]. intros j. rewrite HJ.
        assert (k = k') as -> by (apply (anc_leaf_inj D); congruence). naive_solver.
      * by rewrite HdD in Hstage'.
    + assert (n_depth nx ≠ D) by (intros HdD; apply Hleaf; rewrite <- Hon, HdD; apply anc_leaf).
      apply (IH (set_cache C' t) c nx); try done; lia.
  - assert (anc D (n_depth nx) k ≠ anc D (n_depth nx) k') as Hoff' by congruence.
    destruct (anc_part D (n_depth nx) k k') as (e & He & Heq & Hne); [lia|done..|].
    assert (n_depth n < e)%nat.
    { destruct (decide (n_depth n < e)%nat); [done|]. destruct Hne.
      apply (anc_inj_up D _ (S (n_depth n))); [lia|done]. }
    assert (common_parent (S D) (anc D (n_depth nx) k) (n_index nx) = anc D e k) as ->
      by (rewrite Hinx; apply common_parent_spec; done || lia).
    rewrite <- anc_leaf. by apply (insert_split t cur n c nx k' e); auto; lia.
Qed.
End InsertLoop.

(** The cache after the ancestors of the written leaf were dropped. *)
Lemma cache_ok_insert D I C C' k v :
  leaf_ok D k → (∀ k, is_Some (I !! k) → leaf_ok D k) →
  cache_ok D I C → cache_stage D k D C C' → cache_ok D (<[k := v]> I) C'.
Proof.
  intros Hk HI HC [Hgone Hkept].
  assert (∀ i h, C' !! i = Some h → C !! i = Some h ∧ ∀ d, (d ≤ D)%nat → i ≠ anc D d k) as Hold.
  { intros i h Hi. assert (∀ d, (d ≤ D)%nat → i ≠ anc D d k) as Hno.
    { intros d Hd ->. rewrite Hgone in Hi by done. done. }
    rewrite Hkept in Hi; [done|]. by intros; apply Hno. }
  split.
  - intros i h Hi. destruct (Hold i h Hi) as [HiC Hno].
    destruct (co_value _ _ _ HC _ _ HiC) as (d & Hd & -> & Hpos). exists d. split; [done|]. split.
    + rewrite subtree_hash_insert; [done|lia|]. replace (D - (D - d))%nat with d by lia.
      intros E. by apply (Hno d).
    + destruct Hpos as [?|(k1 & Hk1 & ->)]; [by left|right]. exists k1. split; [|done].
      apply lookup_insert_is_Some'. by right.
  - intros k1 d e Hk1 Hde [h Hh]. destruct (Hold _ _ Hh) as [HhC Hno].
    assert (k1 ≠ k) as Hne by (intros ->; apply (Hno d); [lia|done]).
    rewrite lookup_insert_ne in Hk1 by done.
    destruct (co_closed _ _ _ HC k1 d e) as [h' Hh']; [done..|by eexists|].
    exists h'. rewrite Hkept; [done|]. intros i Hi E.
    assert (e = i) as <- by (apply (anc_depth_inj D e i k1 k); auto; lia).
    apply (Hno d); [lia|]. by apply (anc_inj_up D d e).
Qed.

Lemma capacity_pow t : capacity t = 2 ^ Z.of_nat (tree_depth t).
Proof. unfold capacity. apply Z.shiftl_1_l. Qed.

Lemma smt_insert_ok D t k v :
  smt_ok D t → leaf_ok D k →
  ∃ t', smt_insert t k v = Val t' ∧ smt_ok D t' ∧ items t' = <[k := v]> (items t).
Proof.
  intros Ht Hk. pose proof (so_depth _ _ Ht) as HD. pose proof (so_pos _ _ Ht) as Hpos.
  unfold smt_insert. rewrite capacity_pow, HD, (proj2 (Z.ltb_lt _ _)) by apply Hk.
  cbn [assert_that mbind outcome_bind]. rewrite Z.shiftl_1_l.
  destruct (no_root _ _ _ (so_nodes _ _ Ht)) as (n & Hn & Hd).
  destruct (no_position _ _ _ (so_nodes _ _ Ht) _ _ Hn) as (k0 & _ & Hk0 & Hi & _). rewrite Hd in Hi.
  edestruct (insert_loop_spec D (items t) (nodes t) (cache t) k (so_nodes _ _ Ht) (so_cache _ _ Ht) Hk
    (so_items _ _ Ht) (S D) (set_cache (delete 1 (cache t)) (set_items (<[k := v]> (items t)) t)) 0 n)
    as (N' & C' & Hrun & HN' & HC'); try done; try lia.
  { by rewrite Hd, Hi, !anc_root. }
  { rewrite Hd. split.
    - intros i Hle. replace i with 0%nat by lia. rewrite anc_root by done. apply lookup_delete_eq.
    - intros x Hx. apply lookup_delete_ne. intros <-. apply (Hx 0%nat); [lia|]. by rewrite anc_root. }
  change (root (set_cache _ _)) with (root t). change (tree_depth (set_cache _ _)) with (tree_depth t).
  change (cache (set_items _ _)) with (cache t). rewrite (so_root _ _ Ht), HD, Hrun.
  eexists. split; [done|]. split; [|done].
  split; cbn [tree_depth root items prehashed nodes cache set_cache set_nodes set_items]; try apply Ht; try done.
  - intros j [->|[]]%lookup_insert_is_Some; [done|]. by apply (so_items _ _ Ht).
  - apply HN'. intros j. rewrite lookup_insert_is_Some'. naive_solver.
  - eapply cache_ok_insert; [done|apply Ht|apply Ht|done].
Qed.

Lemma smt_insert_full D t k v :
  smt_ok D t → 0 ≤ k → ¬ leaf_ok D k → ∃ msg, smt_insert t k v = Panic msg.
Proof.
  intros Ht H0 Hk. unfold smt_insert. rewrite capacity_pow, (so_depth _ _ Ht).
  rewrite (proj2 (Z.ltb_ge _ _)) by (unfold leaf_ok in Hk; lia). by eexists.
Qed.

Lemma smt_remove_ok D t k :
  smt_ok D t → leaf_ok D k →
  ∃ t', smt_remove t k = Val (items t !! k, t') ∧ smt_ok D t' ∧
    items t' = <[k := default_value]> (items t).
Proof.
  intros Ht Hk. destruct (smt_insert_ok D t k default_value Ht Hk) as (t' & Hrun & ? & ?).
  exists t'. split; [|done]. unfold smt_remove.
  assert (smt_insert (set_items (delete k (items t)) t) k default_value =
          smt_insert t k default_value) as ->.
  { unfold smt_insert. cbn [items set_items]. by rewrite insert_delete_eq. }
  by rewrite Hrun.
Qed.

(** ** [root_hash] *)

Lemma from_idx_dir D d k : from_idx (anc D (S d) k) = dir_of D d k.
Proof.
  unfold from_idx, dir_of. change 1 with (Z.ones 1). rewrite Z.land_ones by lia.
  change (2 ^ 1) with 2. rewrite Zmod_odd. by destruct (Z.odd _).
Qed.

Section Hashes.
  Context (D : nat) (t : SparseMerkleTree T Hash) (Ht : smt_ok D t).
  Context (Hbits : ∀ k v, items t !! k = Some v → ∃ b, get_bits_le v = Val b).
  Notation I := (items t).

(** A hash to be cached: the reference hash of the root or of a position above a
    written leaf. *)
Definition update_ok (u : Z * Hash) : Prop :=
  ∃ d, (d ≤ D)%nat ∧ u.2 = subtree_hash D I (D - d) u.1 ∧
    ((d = 0%nat ∧ u.1 = 1) ∨ ∃ k, is_Some (I !! k) ∧ u.1 = anc D d k).

(** The position of [k] at depth [e] is cached or among the updates. *)
Definition known (U : list (Z * Hash)) (k : Z) (e : nat) : Prop :=
  is_Some (cache t !! anc D e k) ∨ anc D e k ∈ U.*1.

(** All written leaves below the position of [k0] at depth [d] are known from there on. *)
Definition covers (U : list (Z * Hash)) (d : nat) (i : Z) : Prop :=
  ∀ k e, is_Some (I !! k) → anc D d k = i → (d ≤ e ≤ D)%nat → known U k e.

Definition hashed (d : nat) (i : Z) (r : outcome (Hash * list (Z * Hash))) : Prop :=
  ∃ U, r = Val (subtree_hash D I (D - d) i, U) ∧ Forall update_ok U ∧ covers U d i.

Lemma known_app_l U V k e : known U k e → known (U ++ V) k e.
Proof. intros [?|?]; [by left|right]. rewrite fmap_app. set_solver. Qed.
Lemma known_app_r U V k e : known V k e → known (U ++ V) k e.
Proof. intros [?|?]; [by left|right]. rewrite fmap_app. set_solver. Qed.

Lemma prehashed_at_Val d : (d ≤ D)%nat → prehashed_at t d = Val (default_hash (D - d)).
Proof. intros. unfold prehashed_at. by rewrite (so_prehashed _ _ Ht) by done. Qed.

(** Combining a position with its untouched sibling. *)
Lemma subtree_hash_sibling d k :
  (d < D)%nat →
  (∀ k', is_Some (I !! k') → anc D d k' = anc D d k → anc D (S d) k' = anc D (S d) k) →
  (let '(lhs, rhs) := order_elements (dir_of D d k) (subtree_hash D I (D - S d) (anc D (S d) k))
                        (default_hash (D - S d)) in
   calculate_hash t d lhs rhs) = subtree_hash D I (D - d) (anc D d k).
Proof.
  intros Hd Hall. replace (D - d)%nat with (S (D - S d)) by lia. cbn [subtree_hash].
  unfold calculate_hash, calculate_level. rewrite (so_depth _ _ Ht).
  replace (D - d - 1)%nat with (D - S d)%nat by lia.
  assert (∀ i, i / 2 = anc D d k → i ≠ anc D (S d) k → subtree_hash D I (D - S d) i = default_hash (D - S d)) as Hsib.
  { intros i Hi Hne. apply subtree_hash_empty; [lia|]. intros k' Hk'.
    replace (D - (D - S d))%nat with (S d) in Hk' by lia. apply eq_None_not_Some. intros Hs. apply Hne.
    rewrite <- Hk'. apply Hall; [done|]. rewrite anc_S, Hk' by done. done. }
  pose proof (child_index_anc D d k Hd) as Hc. destruct (dir_of D d k) eqn:Hdir; simpl in Hc |- *.
  - rewrite <- Hc, (Hsib (2 * anc D d k + 1)), (Z.mul_comm 2); [done| |lia].
    rewrite Z.mul_comm, Z.div_add_l by lia. change (1 / 2) with 0. lia.
  - rewrite <- Hc, (Hsib (2 * anc D d k)), (Z.mul_comm 2); [done| |lia].
    rewrite Z.mul_comm. by apply Z.div_mul.
Qed.

Lemma fill_gaps_spec fuel dn dm d k U :
  (dn ≤ d < dm)%nat → (dm ≤ D)%nat → (d - dn < fuel)%nat → is_Some (I !! k) →
  (∀ k', is_Some (I !! k') → anc D (S dn) k' = anc D (S dn) k → anc D dm k' = anc D dm k) →
  Forall update_ok U → (∀ e, (S d ≤ e < dm)%nat → anc D e k ∈ U.*1) →
  ∃ V, fill_gaps fuel t dn d (anc D (S d) k) (subtree_hash D I (D - S d) (anc D (S d) k)) U =
         Val (subtree_hash D I (D - S dn) (anc D (S dn) k), U ++ V) ∧
       Forall update_ok (U ++ V) ∧ ∀ e, (S dn ≤ e < dm)%nat → anc D e k ∈ (U ++ V).*1.
Proof.
  intros Hd HdD Hf Hk Hall. revert d U Hd Hf.
  induction fuel as [|fuel IH]; intros d U Hd Hf HU Hin; [lia|]. cbn [fill_gaps].
  destruct (Nat.ltb_spec dn d) as [Hlt|Hge].
  2: { replace d with dn in * by lia. exists []. rewrite app_nil_r. split; [done|]. by split. }
  rewrite prehashed_at_Val by lia. cbn [mbind outcome_bind]. replace (d + 1)%nat with (S d) by lia.
  rewrite from_idx_dir. pose proof (subtree_hash_sibling d k ltac:(lia)) as Hsib.
  destruct (order_elements _ _ _) as [lhs rhs]. rewrite Hsib.
  2: { intros k' Hk' E. apply (anc_inj_up D (S d) dm); [lia|]. apply Hall; [done|].
       apply (anc_inj_up D (S dn) d); [lia|done]. }
  rewrite anc_shiftr by lia. destruct d as [|d]; [lia|]. replace (S d - 1)%nat with d by lia.
  destruct (IH d (U ++ [(anc D (S d) k, subtree_hash D I (D - S d) (anc D (S d) k))])) as (V & HV & HV1 & HV2).
  - lia.
  - lia.
  - apply Forall_app. split; [done|]. constructor; [|done]. exists (S d). split; [lia|]. split; [done|].
    right. by exists k.
  - intros e He. rewrite fmap_app. apply elem_of_app.
    destruct (decide (e = S d)) as [->|]; [right; set_solver|left; apply Hin; lia].
  - exists ((anc D (S d) k, subtree_hash D I (D - S d) (anc D (S d) k)) :: V).
    rewrite <- app_assoc in *. done.
Qed.

Lemma side_parent d k dir i : (d < D)%nat → anc D (S d) k = child_index dir i → i = anc D d k.
Proof.
  intros Hd Hside. rewrite (anc_S D d k Hd), Hside. destruct dir; simpl.
  - by rewrite Z.div_mul.
  - rewrite Z.div_add_l by lia. change (1 / 2) with 0. lia.
Qed.

(** All written leaves on one side of a node are below the edge on that side. *)
Lemma edge_covers r n dir c m k :
  nodes t !! r = Some n → child n dir = Some c → nodes t !! c = Some m →
  is_Some (I !! k) → (n_depth n < D)%nat → anc D (S (n_depth n)) k = child_index dir (n_index n) →
  n_index m = anc D (n_depth m) k.
Proof.
  intros Hr Hc Hm Hk Hn Hside. pose proof (so_items _ _ Ht k Hk) as HkD.
  pose proof (side_parent _ _ _ _ Hn Hside) as Hnk.
  destruct (no_leaf _ _ _ (so_nodes _ _ Ht) k Hk) as (s & l & Hs & Hd & Hl).
  destruct (no_edge _ _ _ (so_nodes _ _ Ht) r s n l k) as (c' & p & Hc' & Hp & _ & Hpi);
    [done..|lia|done|by rewrite Hd|].
  rewrite Hnk in Hside. rewrite <- (child_index_inv D _ k dir) in Hc' by done.
  rewrite Hc in Hc'. injection Hc' as <-. rewrite Hm in Hp. by injection Hp as <-.
Qed.

Lemma no_child_empty r n dir k :
  nodes t !! r = Some n → child n dir = None → is_Some (I !! k) → (n_depth n < D)%nat →
  anc D (S (n_depth n)) k ≠ child_index dir (n_index n).
Proof.
  intros Hr Hc Hk Hn Hside. pose proof (so_items _ _ Ht k Hk) as HkD.
  pose proof (side_parent _ _ _ _ Hn Hside) as Hnk.
  destruct (no_leaf _ _ _ (so_nodes _ _ Ht) k Hk) as (s & l & Hs & Hd & Hl).
  destruct (no_edge _ _ _ (so_nodes _ _ Ht) r s n l k) as (c' & p & Hc' & _);
    [done..|lia|done|by rewrite Hd|].
  rewrite Hnk in Hside. rewrite <- (child_index_inv D _ k dir) in Hc' by done. congruence.
Qed.

Lemma get_child_hash_spec rec r n dir :
  nodes t !! r = Some n → (n_depth n < D)%nat →
  (∀ c m, child n dir = Some c → nodes t !! c = Some m → hashed (n_depth m) (n_index m) (rec c)) →
  hashed (S (n_depth n)) (child_index dir (n_index n)) (get_child_hash rec t n dir).
Proof.
  intros Hr Hn Hrec. unfold get_child_hash. fold (child n dir).
  destruct (no_position _ _ _ (so_nodes _ _ Ht) _ _ Hr) as (k0 & _ & Hk0 & Hi0 & _).
  destruct (cache t !! child_index dir (n_index n)) as [h|] eqn:Hcache.
  - destruct (co_value _ _ _ (so_cache _ _ Ht) _ _ Hcache) as (d & Hd & -> & Hpos).
    assert (2 ^ Z.of_nat (S (n_depth n)) ≤ child_index dir (n_index n) < 2 ^ (Z.of_nat (S (n_depth n)) + 1)) as Hrange.
    { pose proof (anc_range D (n_depth n) k0 ltac:(lia) Hk0) as Hra. rewrite <- Hi0 in Hra.
      rewrite Z.pow_add_r in Hra by lia. rewrite Nat2Z.inj_succ, Z.pow_add_r, Z.pow_succ_r by lia.
      destruct dir; simpl in *; lia. }
    assert (d = S (n_depth n)) as ->.
    { destruct Hpos as [[-> Hi1]|(k & Hk & Hi1)]; rewrite Hi1 in Hrange.
      - rewrite Nat2Z.inj_succ, Z.pow_succ_r in Hrange by lia.
        assert (0 < 2 ^ Z.of_nat (n_depth n)) by (apply Z.pow_pos_nonneg; lia). lia.
      - apply (pow2_range_inj _ _ (anc D d k)); [|done]. apply anc_range; [done|]. by apply (so_items _ _ Ht). }
    exists []. split; [done|]. split; [constructor|]. intros k e Hk Hke He. left.
    apply (co_closed _ _ _ (so_cache _ _ Ht) k (S (n_depth n))); [done..|]. rewrite Hke. by eexists.
  - destruct (child n dir) as [c|] eqn:Hc.
    + destruct (no_child _ _ _ (so_nodes _ _ Ht) _ _ _ _ Hr Hc) as (m & k1 & Hm & _ & Hdm & _ & _ & _).
      destruct (no_position _ _ _ (so_nodes _ _ Ht) _ _ Hm) as (km & _ & Hkm & Him & [?|HkI]); [lia|].
      assert (anc D (S (n_depth n)) km = child_index dir (n_index n)) as Hside.
      { destruct (no_child _ _ _ (so_nodes _ _ Ht) _ _ _ _ Hr Hc) as (m' & k2 & Hm' & _ & _ & Hn2 & Hm2 & ->).
        rewrite Hm in Hm'. injection Hm' as <-. rewrite Hn2, child_index_anc by done.
        apply (anc_inj_up D _ (n_depth m)); [lia|congruence]. }
      destruct (Hrec c m eq_refl Hm) as (U & HU & HUok & HUcov). unfold calculate_child_hash.
      rewrite Hm. cbn [unwrap mbind outcome_bind]. rewrite HU. cbn [mbind outcome_bind].
      assert (∀ k', is_Some (I !! k') → anc D (S (n_depth n)) k' = anc D (S (n_depth n)) km →
              anc D (n_depth m) k' = anc D (n_depth m) km) as Hall.
      { intros k' Hk' E. rewrite <- Him. symmetry. apply (edge_covers r n dir c m k'); try done. congruence. }
      rewrite Him, (so_depth _ _ Ht).
      replace (n_depth m) with (S (n_depth m - 1)) at 2 3 4 by lia.
      destruct (fill_gaps_spec D (n_depth n) (n_depth m) (n_depth m - 1) km U) as (V & HV & HV1 & HV2);
        [lia|lia|lia|done|done|done|lia|].
      rewrite HV, <- Hside. exists (U ++ V). split; [done|]. split; [done|].
      intros k e Hk Hke He. destruct (decide (e < n_depth m)%nat) as [Hlt|Hge].
      * right. rewrite (anc_inj_up D e (n_depth m) k km) by (try lia; by apply Hall). apply HV2. lia.
      * apply known_app_l, HUcov; [done| |lia]. rewrite Him. by apply Hall.
    + rewrite prehashed_at_Val by lia. cbn [mbind outcome_bind]. exists []. split.
      * do 2 f_equal. replace (n_depth n + 1)%nat with (S (n_depth n)) by lia. symmetry.
        apply subtree_hash_empty; [lia|]. intros k Hk.
        replace (D - (D - S (n_depth n)))%nat with (S (n_depth n)) in Hk by lia.
        apply eq_None_not_Some. intros Hs. by apply (no_child_empty r n dir k) in Hk.
      * split; [constructor|]. intros k e Hk Hke. by apply (no_child_empty r n dir k) in Hke.
Qed.

Lemma get_hash_spec fuel r n :
  nodes t !! r = Some n → (D - n_depth n < fuel)%nat →
  hashed (n_depth n) (n_index n) (get_hash fuel t r).
Proof.
  revert r n. induction fuel as [|fuel IH]; intros r n Hr Hf; [lia|]. cbn [get_hash].
  rewrite Hr. cbn [unwrap mbind outcome_bind]. rewrite (so_depth _ _ Ht).
  destruct (no_position _ _ _ (so_nodes _ _ Ht) _ _ Hr) as (k0 & HdD & Hk0 & Hi0 & Hpos).
  assert (update_ok (n_index n, subtree_hash D I (D - n_depth n) (n_index n))) as Hself.
  { exists (n_depth n). split; [done|]. split; [done|]. destruct Hpos as [Hz|Hk]; [left|right; by exists k0].
    split; [done|]. simpl. by rewrite Hi0, Hz, anc_root. }
  destruct (Nat.eqb_spec (n_depth n) D) as [HdnD|HdnD].
  - destruct Hpos as [?|[v Hv]]; [pose proof (so_pos _ _ Ht); lia|]. destruct (Hbits k0 v Hv) as [b Hb].
    rewrite Hi0, HdnD, anc_leaf, Z.shiftl_1_l.
    replace (2 ^ Z.of_nat D + k0 - 2 ^ Z.of_nat D) with k0 by lia. rewrite Hv.
    cbn [unwrap mbind outcome_bind]. rewrite Hb. cbn [mbind outcome_bind app].
    assert (hasher_hash_bits b = subtree_hash D I (D - D) (2 ^ Z.of_nat D + k0)) as ->.
    { rewrite Nat.sub_diag. cbn [subtree_hash].
      replace (2 ^ Z.of_nat D + k0 - 2 ^ Z.of_nat D) with k0 by lia. rewrite Hv. simpl.
      unfold item_hash, bits_of. by rewrite Hb. }
    rewrite Hi0, HdnD, anc_leaf in Hself. eexists. split; [done|]. split; [by constructor|].
    intros k e Hk Hke He. right. replace e with D by lia. rewrite Hke. set_solver.
  - assert (n_depth n < D)%nat as Hn by lia.
    assert (∀ dir c m, child n dir = Some c → nodes t !! c = Some m →
      hashed (n_depth m) (n_index m) (get_hash fuel t c)) as Hrec.
    { intros dir c m Hc Hm.
      destruct (no_child _ _ _ (so_nodes _ _ Ht) _ _ _ _ Hr Hc) as (m' & k1 & Hm' & _ & Hd & _).
      rewrite Hm in Hm'. injection Hm' as <-. apply IH; [done|lia]. }
    destruct (get_child_hash_spec (get_hash fuel t) r n Left Hr Hn (Hrec Left)) as (U & -> & HU1 & HU2).
    cbn [mbind outcome_bind].
    destruct (get_child_hash_spec (get_hash fuel t) r n Right Hr Hn (Hrec Right)) as (V & -> & HV1 & HV2).
    cbn [mbind outcome_bind].
    assert (calculate_hash t (n_depth n) (subtree_hash D I (D - S (n_depth n)) (child_index Left (n_index n)))
      (subtree_hash D I (D - S (n_depth n)) (child_index Right (n_index n))) =
      subtree_hash D I (D - n_depth n) (n_index n)) as ->.
    { unfold calculate_hash, calculate_level. rewrite (so_depth _ _ Ht).
      assert (D - n_depth n = S (D - S (n_depth n)))%nat as -> by lia. cbn [subtree_hash child_index].
      rewrite (Z.mul_comm 2). f_equal. lia. }
    eexists. split; [done|]. split.
    { rewrite !Forall_app. split_and!; [done..|by constructor]. }
    intros k e Hk Hke He. destruct (decide (e = n_depth n)) as [->|].
    { apply known_app_r. right. rewrite Hke. set_solver. }
    apply known_app_l. destruct (dir_of D (n_depth n) k) eqn:Hdir;
      pose proof (child_index_anc D (n_depth n) k Hn) as Hside; rewrite Hdir, Hke in Hside.
    + apply known_app_l, HU2; [done|by rewrite Hside|lia].
    + apply known_app_r, HV2; [done|by rewrite Hside|lia].
Qed.

Lemma fold_insert_lookup (U : list (Z * Hash)) (C : gmap Z Hash) i h :
  foldl (λ c '(i, h), <[i := h]> c) C U !! i = Some h → (i, h) ∈ U ∨ C !! i = Some h.
Proof.
  revert C. induction U as [|[j g] U IH]; intros C; simpl; [by right|]. intros [H|H]%IH; [left; set_solver|].
  destruct (decide (i = j)) as [->|].
  - rewrite lookup_insert_eq in H. injection H as ->. left. set_solver.
  - rewrite lookup_insert_ne in H by done. by right.
Qed.

Lemma fold_insert_keeps (U : list (Z * Hash)) (C : gmap Z Hash) i :
  is_Some (C !! i) ∨ i ∈ U.*1 → is_Some (foldl (λ c '(i, h), <[i := h]> c) C U !! i).
Proof.
  revert C. induction U as [|[j g] U IH]; intros C; simpl; [set_solver|]. intros H. apply IH.
  destruct (decide (i = j)) as [->|]; [left; rewrite lookup_insert_eq; by eexists|].
  rewrite lookup_insert_ne by done. set_solver.
Qed.

(** [root_hash] returns the reference hash and leaves every position above a written
    leaf in the cache. *)
Lemma smt_root_hash_spec :
  ∃ t', smt_root_hash t = Val (reference_root D I, t') ∧ smt_ok D t' ∧ items t' = I ∧
    ∀ k e, is_Some (I !! k) → (e ≤ D)%nat → is_Some (cache t' !! anc D e k).
Proof.
  unfold smt_root_hash. destruct (no_root _ _ _ (so_nodes _ _ Ht)) as (n & Hn & Hd).
  destruct (no_position _ _ _ (so_nodes _ _ Ht) _ _ Hn) as (k0 & _ & Hk0 & Hi & _).
  rewrite Hd, anc_root in Hi by done.
  destruct (get_hash_spec (S (tree_depth t)) 0 n Hn) as (U & -> & HU & Hcov).
  { rewrite (so_depth _ _ Ht). lia. }
  cbn [mbind outcome_bind]. rewrite Hd, Hi, Nat.sub_0_r in *. eexists. split; [done|].
  assert (∀ k e, is_Some (I !! k) → (e ≤ D)%nat →
    is_Some (foldl (λ c '(i, h), <[i := h]> c) (cache t) U !! anc D e k)) as Hall.
  { intros k e Hk He. apply fold_insert_keeps. apply Hcov; [done| |lia].
    apply anc_root. by apply (so_items _ _ Ht). }
  split_and!; [|done|apply Hall].
  split; cbn [tree_depth root items prehashed nodes cache set_cache]; try apply Ht.
  split.
  - intros i h [Hin|Hold]%fold_insert_lookup.
    + rewrite Forall_forall in HU. by apply (HU (i, h)).
    + by apply (co_value _ _ _ (so_cache _ _ Ht)).
  - intros k d e Hk Hde _. apply Hall; [done|lia].
Qed.
End Hashes.

Lemma path_loop_spec D t d k :
  smt_ok D t → leaf_ok D k → (d ≤ D)%nat →
  (∀ k e, is_Some (items t !! k) → (e ≤ D)%nat → is_Some (cache t !! anc D e k)) →
  path_loop t d (anc D d k) = Val (reference_path D (items t) d k).
Proof.
  intros Ht Hk Hd Hall. induction d as [|d IH]; cbn [path_loop reference_path]; [done|].
  unfold get_calculated_node_hash.
  assert (negb (Z.land (anc D (S d) k) 1 =? 0) = Z.odd (anc D (S d) k)) as ->.
  { change 1 with (Z.ones 1). rewrite Z.land_ones by lia. change (2 ^ 1) with 2. rewrite Zmod_odd.
    by destruct (Z.odd _). }
  set (sib := Z.lxor (anc D (S d) k) 1).
  assert (∃ ks, leaf_ok D ks ∧ anc D (S d) ks = sib) as (ks & Hks & Hsib).
  { subst sib. rewrite lxor_1_child by lia.
    set (p := 2 ^ (Z.of_nat D - Z.of_nat (S d))).
    assert (0 < p) as Hp by (apply Z.pow_pos_nonneg; lia).
    assert (2 ^ Z.of_nat D = 2 ^ Z.of_nat (S d) * p) as EP
      by (subst p; rewrite <- Z.pow_add_r by lia; f_equal; lia).
    set (i := 2 * anc D d k + Z.b2z (negb (Z.odd (anc D (S d) k)))).
    assert (2 ^ Z.of_nat (S d) ≤ i < 2 ^ (Z.of_nat (S d) + 1)) as Hri.
    { pose proof (anc_range D d k ltac:(lia) Hk) as Hra. subst i.
      rewrite Z.pow_add_r in Hra by lia. rewrite Nat2Z.inj_succ, Z.pow_add_r, Z.pow_succ_r by lia.
      destruct (negb _); simpl; lia. }
    rewrite Z.pow_add_r in Hri by lia. exists (i * p - 2 ^ Z.of_nat D). split; [split; nia|].
    unfold anc. fold p. replace (2 ^ Z.of_nat D + (i * p - 2 ^ Z.of_nat D)) with (i * p) by lia.
    apply Z.div_mul. lia. }
  assert ((match cache t !! sib with Some hash => Val hash | None => prehashed_at t (S d) end) =
          Val (subtree_hash D (items t) (D - S d) sib)) as ->.
  { destruct (cache t !! sib) as [h|] eqn:Hc.
    - destruct (co_value _ _ _ (so_cache _ _ Ht) _ _ Hc) as (d' & Hd' & -> & Hpos).
      assert (d' = S d) as ->; [|done]. destruct Hpos as [[-> E]|(k' & Hk' & E)].
      + rewrite <- Hsib in E. pose proof (anc_mono D 0 (S d) ks ltac:(lia) Hks).
        rewrite anc_root in * by done. lia.
      + symmetry. apply (anc_depth_inj D _ _ ks k'); try done. { by apply (so_items _ _ Ht). } congruence.
    - rewrite (prehashed_at_Val D t Ht) by lia. f_equal. symmetry. apply subtree_hash_empty; [lia|].
      intros k' Hk'. replace (D - (D - S d))%nat with (S d) in Hk' by lia. apply eq_None_not_Some.
      intros Hs. destruct (Hall k' (S d) Hs Hd) as [h Hh]. congruence. }
  cbn [mbind outcome_bind]. rewrite anc_shiftr by lia. by rewrite IH by lia.
Qed.

(** C22: For every tree that [new], [insert] and [remove] can build, [root_hash] returns
    the hash of the full binary tree of depth [D] over the items (an absent item
    counting as the default one): the compressed nodes and the cache are invisible.
    The items are unchanged and the invariant is kept. *)
Theorem smt_root_hash_correct D t :
  smt_ok D t → (∀ k v, items t !! k = Some v → ∃ b, get_bits_le v = Val b) →
  ∃ t', smt_root_hash t = Val (reference_root D (items t), t') ∧ smt_ok D t' ∧ items t' = items t.
Proof.
  intros Ht Hbits. destruct (smt_root_hash_spec D t Ht Hbits) as (t' & ? & ? & ? & _). by exists t'.
Qed.

(** A Merkle path opens the leaf against the root hash. *)
Lemma smt_merkle_path_spec D t k :
  smt_ok D t → leaf_ok D k → (∀ k v, items t !! k = Some v → ∃ b, get_bits_le v = Val b) →
  ∃ path t', smt_merkle_path t k = Val (path, t') ∧ length path = D ∧
    fold_path 0 (item_hash (default default_value (items t !! k))) path = reference_root D (items t) ∧
    path = reference_path D (items t) D k ∧ smt_ok D t' ∧ items t' = items t.
Proof.
  intros Ht Hk Hbits. destruct (smt_root_hash_spec D t Ht Hbits) as (t' & Hrun & Ht' & Hi & Hall).
  unfold smt_merkle_path. rewrite capacity_pow, (so_depth _ _ Ht), (proj2 (Z.ltb_lt _ _)) by apply Hk.
  cbn [assert_that mbind outcome_bind]. rewrite Hrun. cbn [mbind outcome_bind snd].
  rewrite (so_depth _ _ Ht'), Z.shiftl_1_l, <- anc_leaf. rewrite <- Hi in *.
  rewrite (path_loop_spec D t' D k) by done. cbn [mbind outcome_bind].
  eexists _, t'. split; [done|]. split; [apply reference_path_length|]. split; [|done].
  rewrite <- (fold_reference_path D (items t') D k) by done. rewrite Nat.sub_diag. cbn [subtree_hash].
  rewrite anc_leaf. by replace (2 ^ Z.of_nat D + k - 2 ^ Z.of_nat D) with k by lia.
Qed.

(** A Merkle path proves membership: for every index below the capacity,
    [merkle_path] returns one entry per level, and recomputing the hashes along it
    from the item at the index (the default item if there is none) gives the root
    hash that [root_hash] returns; the directions are the bits of the index. *)
Theorem smt_merkle_path_correct D t k :
  smt_ok D t → leaf_ok D k → (∀ k v, items t !! k = Some v → ∃ b, get_bits_le v = Val b) →
  ∃ path t', smt_merkle_path t k = Val (path, t') ∧ length path = D ∧
    fold_path 0 (item_hash (default default_value (items t !! k))) path = reference_root D (items t) ∧
    path = reference_path D (items t) D k ∧ smt_ok D t' ∧ items t' = items t.
Proof. apply smt_merkle_path_spec. Qed.

(** ** The interface *)
#[global] Instance smt_sparse_tree : SparseTree (SparseMerkleTree T Hash) T Hash := {|
  tree_new := smt_new;
  tree_get := smt_get;
  tree_insert := smt_insert;
  tree_remove := smt_remove;
  tree_items := items;
  tree_root_hash := smt_root_hash;
|}.

#[global] Instance smt_sparse_tree_laws : SparseTreeLaws (SparseMerkleTree T Hash) T Hash.
Proof.
  refine {| tree_ok := smt_ok |}.
  - intros D HD. apply smt_new_ok. lia.
  - done.
  - intros D t k Ht. by apply (so_items _ _ Ht).
  - apply smt_insert_ok.
  - apply smt_insert_full.
  - apply smt_remove_ok.
  - intros D t Ht Hbits. destruct (smt_root_hash_spec D t Ht Hbits) as (t' & ? & ? & ? & _). by exists t'.
Defined.
End Proofs.
