(* ===== verification/SequentialSmt.v ===== *)
(** * The plain sparse Merkle tree (core/models/src/merkle_tree/sequential_smt.rs)

    Every hash on the path of a written leaf is stored under its level and its
    position in the level and is updated by [insert]; absent hashes are those
    of the empty subtrees.  A key of the hash table packs the level and the
    position into one integer, which is injective because positions are below
    [2^32]. *)

From S2P Require Import Prelude Merkle.
Open Scope Z_scope.

(** [HashIndex] is the level and the position in the level. *)
Definition pack (self : nat * Z) : Z :=
  let packed := 0 in
  let packed := packed + Z.of_nat self.1 in
  let packed := Z.shiftl packed 32 in
  packed + self.2.

Section Smt.
  Context {T Hash : Type} `{HT : GetBits T} `{DT : Default T} `{HH : Hasher Hash}.

Record SparseMerkleTree : Type := mkSMT {
  tree_depth : nat;
  prehashed : list Hash;
  items : gmap Z T;
  hashes : gmap Z Hash;
}.

Definition set_items (i : gmap Z T) (t : SparseMerkleTree) : SparseMerkleTree :=
  mkSMT (tree_depth t) (prehashed t) i (hashes t).
Definition set_hashes (h : gmap Z Hash) (t : SparseMerkleTree) : SparseMerkleTree :=
  mkSMT (tree_depth t) (prehashed t) (items t) h.

Definition capacity (t : SparseMerkleTree) : Z := Z.shiftl 1 (Z.of_nat (tree_depth t)).

Definition get_hash (t : SparseMerkleTree) (index : nat * Z) : outcome Hash :=
  _ ← assert_that (index.1 <=? tree_depth t)%nat "assertion failed: index.0 <= self.tree_depth";
  _ ← assert_that (index.2 <? capacity t) "assertion failed: index.1 < self.capacity()";
  match hashes t !! pack index with
  | Some hash => Val hash
  | None => unwrap "called `Option::unwrap()` on a `None` value" (prehashed t !! index.1)
  end.

Definition update_hash (t : SparseMerkleTree) (index : nat * Z) : outcome SparseMerkleTree :=
  _ ← assert_that (index.1 <? tree_depth t)%nat "assertion failed: index.0 < self.tree_depth";
  _ ← assert_that (index.2 <? capacity t) "assertion failed: index.1 < self.capacity()";
  let lhs_index := ((index.1 + 1)%nat, Z.shiftl index.2 1) in
  let rhs_index := ((index.1 + 1)%nat, Z.shiftl index.2 1 + 1) in
  lhs_hash ← get_hash t lhs_index;
  rhs_hash ← get_hash t rhs_index;
  let hash := hasher_compress lhs_hash rhs_hash (tree_depth t - 1 - index.1)%nat in
  Val (set_hashes (<[pack index := hash]> (hashes t)) t).

(** [for _ in 0..next_level.0] *)
Fixpoint recalculate_loop (n : nat) (t : SparseMerkleTree) (next_level : nat * Z) :
    outcome (SparseMerkleTree * (nat * Z)) :=
  match n with
  | O => Val (t, next_level)
  | S n =>
      let next_level := ((next_level.1 - 1)%nat, Z.shiftr next_level.2 1) in
      t ← update_hash t next_level;
      recalculate_loop n t next_level
  end.

Definition recalculate_hashes (t : SparseMerkleTree) (index : Z) (item : T) : outcome SparseMerkleTree :=
  let hash_index := (tree_depth t, index) in
  bits ← get_bits_le item;
  let hash := hasher_hash_bits bits in
  let t := set_hashes (<[pack hash_index := hash]> (hashes t)) t in
  r ← recalculate_loop (tree_depth t) t hash_index;
  _ ← assert_that (r.2.1 =? 0)%nat "assertion failed: `(left == right)`";
  Val r.1.

Definition smt_insert (t : SparseMerkleTree) (index : Z) (item : T) : outcome SparseMerkleTree :=
  _ ← assert_that (index <? capacity t) "assertion failed: index < self.capacity()";
  t ← recalculate_hashes t index item;
  Val (set_items (<[index := item]> (items t)) t).

(** [(0..tree_depth).rev().map(..)]: the position moves up with each element. *)
Fixpoint path_loop (n : nat) (t : SparseMerkleTree) (hash_index : nat * Z) :
    outcome (list (Hash * bool)) :=
  match n with
  | O => Val []
  | S n =>
      let dir := 0 <? Z.land hash_index.2 1 in
      let proof_index := (hash_index.1, Z.lxor hash_index.2 1) in
      hash ← get_hash t proof_index;
      rest ← path_loop n t ((hash_index.1 - 1)%nat, Z.shiftr hash_index.2 1);
      Val ((hash, dir) :: rest)
  end.

Definition smt_merkle_path (t : SparseMerkleTree) (index : Z) : outcome (list (Hash * bool)) :=
  _ ← assert_that (index <? capacity t) "assertion failed: index < self.capacity()";
  path_loop (tree_depth t) t (tree_depth t, index).

Definition smt_root_hash (t : SparseMerkleTree) : outcome Hash := get_hash t (0%nat, 0).

Fixpoint prehash_loop (n i : nat) (cur : Hash) (acc : list Hash) : list Hash :=
  match n with
  | O => acc
  | S n => let cur := hasher_compress cur cur i in prehash_loop n (S i) cur (acc ++ [cur])
  end.

Definition new_with_leaf (depth : nat) (default_leaf : T) : outcome SparseMerkleTree :=
  bits ← get_bits_le default_leaf;
  let cur := hasher_hash_bits bits in
  let prehashed := reverse (prehash_loop depth 0 cur [cur]) in
  _ ← assert_that (length prehashed - 1 =? depth)%nat "assertion failed: `(left == right)`";
  Val (mkSMT depth prehashed ∅ ∅).

Definition smt_new (depth : nat) : outcome SparseMerkleTree := new_with_leaf depth default_value.

Definition smt_get (t : SparseMerkleTree) (index : Z) : option T := items t !! index.

Definition smt_remove (t : SparseMerkleTree) (index : Z) : outcome (option T * SparseMerkleTree) :=
  let old := items t !! index in
  let t := set_items (delete index (items t)) t in
  t ← smt_insert t index default_value;
  Val (old, t).

Definition smt_delete (t : SparseMerkleTree) (index : Z) : outcome SparseMerkleTree :=
  r ← smt_remove t index; Val r.2.
End Smt.
Arguments SparseMerkleTree T Hash : clear implicits.

(** ** Correctness *)
Section Proofs.
  Context {T Hash : Type} `{HT : GetBits T} `{DT : Default T} `{HH : Hasher Hash}.
  Implicit Types (t : SparseMerkleTree T Hash).

(** The stored or default hash of a position. *)
Definition hash_at (t : SparseMerkleTree T Hash) (d : nat) (i : Z) : option Hash :=
  match hashes t !! pack (d, i) with Some h => Some h | None => prehashed t !! d end.

Record smt_ok (D : nat) (t : SparseMerkleTree T Hash) : Prop := {
  so_depth : tree_depth t = D;
  so_bound : (D ≤ 32)%nat;
  so_items k : is_Some (items t !! k) → leaf_ok D k;
  so_hash d i : (d ≤ D)%nat → 0 ≤ i < 2 ^ Z.of_nat d →
    hash_at t d i = Some (subtree_hash D (items t) (D - d) (2 ^ Z.of_nat d + i));
}.

Lemma pack_inj d e i j :
  0 ≤ i < 2 ^ 32 → 0 ≤ j < 2 ^ 32 → pack (d, i) = pack (e, j) → d = e ∧ i = j.
Proof.
  unfold pack. cbn [fst snd]. rewrite !Z.shiftl_mul_pow2 by lia. set (p := 2 ^ 32). intros. split; nia.
Qed.

Lemma level_bound D d i : (d ≤ D ≤ 32)%nat → 0 ≤ i < 2 ^ Z.of_nat d → 0 ≤ i < 2 ^ 32.
Proof.
  intros Hd Hi. assert (2 ^ Z.of_nat d ≤ 2 ^ 32) by (apply Z.pow_le_mono_r; lia). lia.
Qed.

Lemma seq_capacity_pow t : capacity t = 2 ^ Z.of_nat (tree_depth t).
Proof. unfold capacity. apply Z.shiftl_1_l. Qed.

Lemma get_hash_Val D t d i h :
  tree_depth t = D → (d ≤ D)%nat → 0 ≤ i < 2 ^ Z.of_nat d → hash_at t d i = Some h →
  get_hash t (d, i) = Val h.
Proof.
  intros HD Hd Hi Hh. unfold get_hash. cbn [fst snd]. rewrite HD, (proj2 (Nat.leb_le _ _)) by done.
  cbn [assert_that mbind outcome_bind]. rewrite seq_capacity_pow, HD.
  assert (2 ^ Z.of_nat d ≤ 2 ^ Z.of_nat D) by (apply Z.pow_le_mono_r; lia).
  rewrite (proj2 (Z.ltb_lt _ _)) by lia. cbn [assert_that mbind outcome_bind].
  unfold hash_at in Hh. destruct (hashes t !! pack (d, i)); [by injection Hh as ->|]. by rewrite Hh.
Qed.

Lemma seq_prehash_loop_spec (m i : nat) acc :
  prehash_loop m i (default_hash i) acc = acc ++ (default_hash <$> seq (S i) m).
Proof.
  revert i acc. induction m as [|m IH]; intros i acc; cbn [prehash_loop seq fmap list_fmap].
  - by rewrite app_nil_r.
  - change (hasher_compress (default_hash i) (default_hash i) i) with (default_hash (S i) : Hash).
    rewrite IH, <- app_assoc. done.
Qed.

Lemma seq_smt_new_ok D :
  (D ≤ 32)%nat → (∃ b, get_bits_le (default_value : T) = Val b) →
  ∃ t, smt_new D = Val t ∧ smt_ok D t ∧ items t = ∅.
Proof.
  intros HD [b Hb]. unfold smt_new, new_with_leaf. rewrite Hb. cbn [mbind outcome_bind].
  assert (hasher_hash_bits b = default_hash 0) as ->.
  { unfold default_hash, item_hash, bits_of. by rewrite Hb. }
  rewrite seq_prehash_loop_spec. change ([default_hash 0] ++ (default_hash <$> seq 1 D))
    with (default_hash <$> seq 0 (S D)).
  rewrite length_reverse, length_fmap, length_seq.
  rewrite (proj2 (Nat.eqb_eq _ _)) by lia. cbn [assert_that mbind outcome_bind].
  eexists. split; [done|]. split; [|done]. split; cbn [tree_depth items]; try done.
  - intros k [x Hx]. by rewrite lookup_empty in Hx.
  - intros d i Hd Hi. unfold hash_at. cbn [hashes prehashed]. rewrite lookup_empty.
    rewrite reverse_lookup by (rewrite length_fmap, length_seq; lia).
    rewrite length_fmap, length_seq, list_lookup_fmap, lookup_seq_lt by lia. simpl. f_equal.
    rewrite subtree_hash_empty; [f_equal; lia|lia|]. intros. apply lookup_empty.
Qed.

(** The hashes while [recalculate_hashes] has reached level [l] on its way up. *)
Definition hashes_stage (D : nat) (J : gmap Z T) (k : Z) (l : nat) (t : SparseMerkleTree T Hash) : Prop :=
  ∀ d i, (d ≤ D)%nat → 0 ≤ i < 2 ^ Z.of_nat d → ((l ≤ d)%nat ∨ 2 ^ Z.of_nat d + i ≠ anc D d k) →
  hash_at t d i = Some (subtree_hash D J (D - d) (2 ^ Z.of_nat d + i)).

(** The position in its level of the ancestor of [k]. *)
Definition level_pos (D d : nat) (k : Z) : Z := anc D d k - 2 ^ Z.of_nat d.

Lemma level_pos_bound D d k :
  (d ≤ D)%nat → leaf_ok D k → 0 ≤ level_pos D d k < 2 ^ Z.of_nat d.
Proof.
  intros Hd Hk. pose proof (anc_range D d k Hd Hk) as H. rewrite Z.pow_add_r in H by lia.
  unfold level_pos. simpl in H. lia.
Qed.

Lemma level_pos_up D d k : (d < D)%nat → Z.shiftr (level_pos D (S d) k) 1 = level_pos D d k.
Proof.
  intros Hd. rewrite Z.shiftr_div_pow2 by lia. unfold level_pos. change (2 ^ 1) with 2.
  rewrite (anc_S D d k), Nat2Z.inj_succ, Z.pow_succ_r by lia.
  replace (anc D (S d) k - 2 * 2 ^ Z.of_nat d) with (anc D (S d) k + (- 2 ^ Z.of_nat d) * 2) by lia.
  rewrite Z.div_add by lia. lia.
Qed.

Lemma hash_at_insert t d i e j h :
  0 ≤ i < 2 ^ 32 → 0 ≤ j < 2 ^ 32 →
  hash_at (set_hashes (<[pack (d, i) := h]> (hashes t)) t) e j =
  if decide (d = e ∧ i = j) then Some h else hash_at t e j.
Proof.
  intros Hi Hj. unfold hash_at. cbn [hashes prehashed set_hashes]. case_decide as E.
  - destruct E as [-> ->]. by rewrite lookup_insert_eq.
  - rewrite lookup_insert_ne; [done|]. intros Hp. apply pack_inj in Hp; [|done..]. done.
Qed.

Lemma update_hash_spec D J k l t :
  (S l ≤ D ≤ 32)%nat → leaf_ok D k → tree_depth t = D → hashes_stage D J k (S l) t →
  ∃ h, update_hash t (l, level_pos D l k) = Val (set_hashes h t) ∧ hashes_stage D J k l (set_hashes h t).
Proof.
  intros Hl Hk HD Hst. pose proof (level_pos_bound D l k ltac:(lia) Hk) as Hpos.
  unfold update_hash. cbn [fst snd]. rewrite HD, (proj2 (Nat.ltb_lt _ _)) by lia.
  cbn [assert_that mbind outcome_bind]. rewrite seq_capacity_pow, HD.
  assert (2 ^ Z.of_nat l ≤ 2 ^ Z.of_nat D) by (apply Z.pow_le_mono_r; lia).
  rewrite (proj2 (Z.ltb_lt _ _)) by lia. cbn [assert_that mbind outcome_bind].
  rewrite Z.shiftl_mul_pow2, Nat.add_1_r by lia. change (2 ^ 1) with 2.
  assert (2 ^ Z.of_nat (S l) = 2 * 2 ^ Z.of_nat l) as E2 by (rewrite Nat2Z.inj_succ, Z.pow_succ_r; lia).
  erewrite get_hash_Val; [|done|lia|lia|apply Hst; [lia|lia|by left]]. cbn [mbind outcome_bind].
  erewrite get_hash_Val; [|done|lia|lia|apply Hst; [lia|lia|by left]]. cbn [mbind outcome_bind].
  eexists. split; [done|]. intros d i Hd Hi Hcase.
  assert (0 ≤ i < 2 ^ 32) by (apply (level_bound D d); [lia|done]).
  rewrite hash_at_insert; [|apply (level_bound D l); [lia|done]|done].
  case_decide as E.
  - destruct E as [<- <-]. f_equal. replace (D - l)%nat with (S (D - S l)) by lia. cbn [subtree_hash].
    replace (D - 1 - l)%nat with (D - S l)%nat by lia. rewrite E2. do 2 f_equal; lia.
  - apply Hst; [done|done|]. destruct (decide (d = l)) as [->|]; [|destruct Hcase; [left; lia|by right]].
    right. intros E'. apply E. split; [done|]. unfold level_pos. lia.
Qed.

Lemma recalculate_loop_spec D J k l t :
  (l ≤ D ≤ 32)%nat → leaf_ok D k → tree_depth t = D → hashes_stage D J k l t →
  ∃ h, recalculate_loop l t (l, level_pos D l k) = Val (set_hashes h t, (0%nat, level_pos D 0 k)) ∧
    hashes_stage D J k 0 (set_hashes h t).
Proof.
  revert t. induction l as [|l IH]; intros t Hl Hk HD Hst; cbn [recalculate_loop].
  { exists (hashes t). by destruct t. }
  cbn [fst snd]. replace (S l - 1)%nat with l by lia. rewrite level_pos_up by lia.
  destruct (update_hash_spec D J k l t) as (h & -> & Hst'); [done..|]. cbn [mbind outcome_bind].
  destruct (IH (set_hashes h t)) as (h' & -> & ?); [lia|done..|]. by exists h'.
Qed.

(** [insert] on a tree whose hashes are those of the items [I]. *)
Lemma smt_insert_gen D I t k v b :
  tree_depth t = D → (D ≤ 32)%nat → leaf_ok D k → get_bits_le v = Val b →
  (∀ d i, (d ≤ D)%nat → 0 ≤ i < 2 ^ Z.of_nat d →
    hash_at t d i = Some (subtree_hash D I (D - d) (2 ^ Z.of_nat d + i))) →
  ∃ h, smt_insert t k v = Val (set_items (<[k := v]> (items t)) (set_hashes h t)) ∧
    hashes_stage D (<[k := v]> I) k 0 (set_hashes h t).
Proof.
  intros HD H32 Hk Hb Hhash.
  unfold smt_insert. rewrite seq_capacity_pow, HD, (proj2 (Z.ltb_lt _ _)) by apply Hk.
  cbn [assert_that mbind outcome_bind]. unfold recalculate_hashes. rewrite Hb. cbn [mbind outcome_bind].
  set (t1 := set_hashes _ t). assert (tree_depth t1 = D) as HD1 by done.
  assert (level_pos D D k = k) as Hlp by (unfold level_pos; rewrite anc_leaf; lia).
  assert (hashes_stage D (<[k := v]> I) k D t1) as Hst.
  { intros d i Hd Hi Hcase. subst t1. rewrite HD.
    assert (0 ≤ i < 2 ^ 32) by (apply (level_bound D d); [lia|done]).
    rewrite hash_at_insert; [|apply (level_bound D D); [lia|apply Hk]|done]. case_decide as E.
    - destruct E as [<- <-]. f_equal. rewrite Nat.sub_diag. cbn [subtree_hash].
      replace (2 ^ Z.of_nat D + k - 2 ^ Z.of_nat D) with k by lia. rewrite lookup_insert_eq. simpl.
      unfold item_hash, bits_of. by rewrite Hb.
    - rewrite Hhash by done. f_equal. symmetry. apply subtree_hash_insert; [lia|].
      replace (D - (D - d))%nat with d by lia. destruct Hcase as [Hge|Hne]; [|done].
      replace d with D in * by lia. intros E'. apply E. split; [done|]. rewrite anc_leaf in E'. lia. }
  destruct (recalculate_loop_spec D (<[k := v]> I) k D t1) as (h & Hrun & Hst'); [lia|done..|].
  rewrite Hlp in Hrun. rewrite HD1, HD, Hrun. cbn [mbind outcome_bind fst snd]. simpl (0 =? 0)%nat.
  cbn [assert_that mbind outcome_bind]. exists h. done.
Qed.

Lemma seq_smt_insert_ok D t k v b :
  smt_ok D t → leaf_ok D k → get_bits_le v = Val b →
  ∃ t', smt_insert t k v = Val t' ∧ smt_ok D t' ∧ items t' = <[k := v]> (items t).
Proof.
  intros Ht Hk Hb. destruct (smt_insert_gen D (items t) t k v b) as (h & Hrun & Hst); try done; try apply Ht.
  eexists. split; [done|]. split; [|done]. split; try done; try apply Ht.
  - cbn [items set_items]. intros j [->|[]]%lookup_insert_is_Some; [done|]. by apply (so_items _ _ Ht).
  - intros d i Hd Hi. apply Hst; [done|done|left; lia].
Qed.

Lemma seq_smt_remove_ok D t k b :
  smt_ok D t → leaf_ok D k → get_bits_le (default_value : T) = Val b →
  ∃ t', smt_remove t k = Val (items t !! k, t') ∧ smt_ok D t' ∧
    items t' = <[k := default_value]> (items t).
Proof.
  intros Ht Hk Hb. unfold smt_remove.
  destruct (smt_insert_gen D (items t) (set_items (delete k (items t)) t) k default_value b)
    as (h & Hrun & Hst); try done; try apply Ht.
  rewrite Hrun. cbn [mbind outcome_bind items set_items]. rewrite insert_delete_eq in *.
  eexists. split; [done|]. split; [|done]. split; try done; try apply Ht.
  - cbn [items set_items]. intros j [->|[]]%lookup_insert_is_Some; [done|]. by apply (so_items _ _ Ht).
  - intros d i Hd Hi. apply Hst; [done|done|left; lia].
Qed.

Lemma seq_smt_root_hash_ok D t : smt_ok D t → smt_root_hash t = Val (reference_root D (items t)).
Proof.
  intros Ht. unfold smt_root_hash. eapply get_hash_Val; [apply Ht|lia|simpl; lia|].
  rewrite (so_hash _ _ Ht); [|lia|simpl; lia]. by rewrite Nat.sub_0_r.
Qed.

Lemma seq_path_loop_spec D t d k :
  smt_ok D t → leaf_ok D k → (d ≤ D)%nat →
  path_loop d t (d, level_pos D d k) = Val (reference_path D (items t) d k).
Proof.
  intros Ht Hk Hd. induction d as [|d IH]; cbn [path_loop reference_path]; [done|]. cbn [fst snd].
  pose proof (level_pos_bound D (S d) k Hd Hk) as Hb. pose proof (level_pos_bound D d k ltac:(lia) Hk) as Hb'.
  assert (2 ^ Z.of_nat (S d) = 2 * 2 ^ Z.of_nat d) as E2 by (rewrite Nat2Z.inj_succ, Z.pow_succ_r; lia).
  assert (Z.lxor (level_pos D (S d) k) 1 = Z.lxor (anc D (S d) k) 1 - 2 ^ Z.of_nat (S d)) as Hx.
  { rewrite lxor_1_child by lia. unfold level_pos. rewrite (anc_child D d k) at 1 by lia. rewrite E2.
    replace (2 * anc D d k + Z.b2z (Z.odd (anc D (S d) k)) - 2 * 2 ^ Z.of_nat d)
      with (2 * level_pos D d k + Z.b2z (Z.odd (anc D (S d) k))) by (unfold level_pos; lia).
    rewrite lxor_1_bit. unfold level_pos. lia. }
  assert ((0 <? Z.land (level_pos D (S d) k) 1) = Z.odd (anc D (S d) k)) as ->.
  { change 1 with (Z.ones 1). rewrite Z.land_ones by lia. change (2 ^ 1) with 2. rewrite Zmod_odd.
    unfold level_pos. rewrite E2, Z.odd_sub, Z.odd_mul. simpl. rewrite xorb_false_r. by destruct (Z.odd _). }
  rewrite lxor_1_child in Hx by lia.
  erewrite get_hash_Val; [|apply Ht|done| |apply (so_hash _ _ Ht); [done|]].
  2,3: rewrite Hx, E2; unfold level_pos in Hb'; destruct (Z.odd _); simpl; lia.
  cbn [mbind outcome_bind]. replace (S d - 1)%nat with d by lia. rewrite level_pos_up, IH by lia.
  cbn [mbind outcome_bind]. do 3 f_equal. f_equal. rewrite lxor_1_child, Hx by lia. lia.
Qed.

(** The Merkle path of the plain tree is the same as that of the full tree and
    proves the item against the root hash. *)
Theorem sequential_merkle_path_correct D t k :
  smt_ok D t → leaf_ok D k →
  ∃ path, smt_merkle_path t k = Val path ∧ smt_root_hash t = Val (reference_root D (items t)) ∧
    path = reference_path D (items t) D k ∧
    fold_path 0 (item_hash (default default_value (items t !! k))) path = reference_root D (items t).
Proof.
  intros Ht Hk. unfold smt_merkle_path. rewrite seq_capacity_pow, (so_depth _ _ Ht), (proj2 (Z.ltb_lt _ _)) by apply Hk.
  cbn [assert_that mbind outcome_bind].
  assert (k = level_pos D D k) as Hlp by (unfold level_pos; rewrite anc_leaf; lia).
  assert (path_loop D t (D, k) = path_loop D t (D, level_pos D D k)) as -> by congruence.
  rewrite (seq_path_loop_spec D t D k) by done. eexists. split; [done|].
  split; [by apply seq_smt_root_hash_ok|]. split; [done|].
  rewrite <- (fold_reference_path D (items t) D k) by done. rewrite Nat.sub_diag. cbn [subtree_hash].
  rewrite anc_leaf. by replace (2 ^ Z.of_nat D + k - 2 ^ Z.of_nat D) with k by lia.
Qed.
End Proofs.

(** ** The interface, for items whose bits are always defined *)
Section Interface.
  Context {T Hash : Type} `{HT : GetBits T} `{DT : Default T} `{HH : Hasher Hash}.

#[global] Instance seq_sparse_tree : SparseTree (SparseMerkleTree T Hash) T Hash := {|
  tree_new := smt_new;
  tree_get := smt_get;
  tree_insert := smt_insert;
  tree_remove := smt_remove;
  tree_items := items;
  tree_root_hash := λ t, h ← smt_root_hash t; Val (h, t);
|}.

Lemma seq_insert_full D (t : SparseMerkleTree T Hash) k v :
  smt_ok D t → 0 ≤ k → ¬ leaf_ok D k → ∃ msg, smt_insert t k v = Panic msg.
Proof.
  intros Ht H0 Hk. unfold smt_insert. rewrite seq_capacity_pow, (so_depth _ _ Ht).
  rewrite (proj2 (Z.ltb_ge _ _)) by (unfold leaf_ok in Hk; lia). by eexists.
Qed.

#[global] Instance seq_sparse_tree_laws `{TB : !TotalBits T} :
  SparseTreeLaws (SparseMerkleTree T Hash) T Hash.
Proof.
  refine {| tree_ok := smt_ok |}.
  - intros D HD. apply seq_smt_new_ok. lia.
  - done.
  - intros D t k Ht. by apply (so_items _ _ Ht).
  - intros D t k v Ht Hk. destruct (total_bits v) as [b Hb]. by eapply seq_smt_insert_ok.
  - apply seq_insert_full.
  - intros D t k Ht Hk. destruct (total_bits (default_value : T)) as [b Hb]. by eapply seq_smt_remove_ok.
  - intros D t Ht _. exists t. cbn [tree_root_hash seq_sparse_tree tree_items].
    by rewrite (seq_smt_root_hash_ok D t Ht).
Defined.
End Interface.
