(* ===== verification/TreeEquivalence.v ===== *)
(** * The two Merkle trees agree (core/models/src/merkle_tree/tests.rs)

    The compressed tree with its cache and the plain tree are interchangeable:
    whatever sequence of insertions, removals and root computations is run on
    both, they hold the same items and return the same root hash. *)

From S2P Require Import Prelude Merkle ParallelSmt ParallelSmtProofs SequentialSmt.
Open Scope Z_scope.

Section Equivalence.
  Context {T Hash : Type} `{HT : GetBits T} `{DT : Default T} `{HH : Hasher Hash} `{TB : !TotalBits T}.
  Notation Par := (ParallelSmt.SparseMerkleTree T Hash).
  Notation Seq := (SequentialSmt.SparseMerkleTree T Hash).

(** C23: Starting from empty trees of the same depth (between 2 and 32), every sequence of
    [insert], [remove] and [root_hash] with indices below the capacity succeeds on
    the parallel and on the sequential tree, and afterwards both return the same
    root hash, which is the hash of the full tree over the resulting items. *)
Theorem parallel_sequential_same_root D ops :
  (1 < D ≤ 32)%nat → Forall (op_in_range D) ops →
  ∃ (p p' : Par) (q : Seq) (h : Hash),
    (t ← ParallelSmt.smt_new D; tree_run t ops) = Val p ∧ ParallelSmt.smt_root_hash p = Val (h, p') ∧
    (t ← SequentialSmt.smt_new D; tree_run t ops) = Val q ∧ SequentialSmt.smt_root_hash q = Val h ∧
    ParallelSmt.items p = SequentialSmt.items q ∧ h = reference_root D (ParallelSmt.items p).
Proof.
  intros HD Hops. pose proof (total_bits (default_value : T)) as Hb.
  destruct (tree_new_ok (Tree := Par) D HD Hb) as (p0 & Hp0 & Hok0 & Hi0).
  destruct (tree_new_ok (Tree := Seq) D HD Hb) as (q0 & Hq0 & Hokq0 & Hiq0).
  destruct (tree_run_ok D p0 ops Hok0 Hops) as (p & Hp & Hokp & Hip).
  destruct (tree_run_ok D q0 ops Hokq0 Hops) as (q & Hq & Hokq & Hiq).
  destruct (tree_root_hash_ok D p Hokp) as (p' & Hrp & _ & _); [intros; apply total_bits|].
  rewrite Hi0 in Hip. rewrite Hiq0, <- Hip in Hiq. cbn in Hp0, Hq0, Hip, Hiq.
  exists p, p', q, (reference_root D (ParallelSmt.items p)).
  rewrite Hp0, Hq0. cbn [mbind outcome_bind]. split_and!; try done.
  rewrite <- Hiq. by apply seq_smt_root_hash_ok.
Qed.
End Equivalence.
