(* ===== verification/AccountLeaf.v ===== *)
(** * The leaf of an account in the state tree
    (core/models/src/circuit/account.rs, core/models/src/node/account.rs,
     core/models/src/merkle_tree/rescue_hasher.rs)

    The bits that are hashed for an account are its nonce, public key hash and
    address and the root of a Merkle tree of depth 8 that holds the tokens of
    the account: token [t] is stored at leaf [t]. *)

From S2P Require Import Prelude Bytes Params Externals Primitives Account Tx Merkle ParallelSmt.
From S2P Require Import ParallelSmtProofs.
Open Scope Z_scope.

Section Leaf.
  Context `{EX : External}.

#[global] Instance rescue_hasher : Hasher Fr := {|
  hasher_hash_bits := hash_bits;
  hasher_hash_elements := hash_elements;
  hasher_compress lhs rhs _ := rescue_hash [lhs; rhs];
|}.

Record Token : Type := mkToken { tk_id : Fr }.

(** The assertion on the capacity of the field compares two constants. *)
#[global] Instance Token_get_bits : GetBits Token := λ self,
  Val (get_bits_le_fixed (fr_repr (tk_id self)) TOKENID_BIT_WIDTH).
#[global] Instance Token_default : Default Token := mkToken (fr_of_uint 0).
#[global] Instance Token_total_bits : TotalBits Token.
Proof. intros v. by eexists. Qed.

Record CircuitAccount : Type := mkCircuitAccount {
  ca_subtree : ParallelSmt.SparseMerkleTree Token Fr;
  ca_nonce : Fr;
  ca_pub_key_hash : Fr;
  ca_address : Fr;
}.

Definition CircuitAccount_default : outcome CircuitAccount :=
  subtree ← smt_new token_tree_depth;
  Val (mkCircuitAccount subtree (fr_of_uint 0) (fr_of_uint 0) (fr_of_uint 0)).

Definition PubKeyHash_to_fr (self : PubKeyHash) : Fr := fr_of_uint (from_be_bytes (pkh_data self)).
Definition eth_address_to_fr (address : Address) : Fr := fr_of_uint (from_be_bytes address).

(** [for (i, b) in tokens { circuit_account.subtree.insert(i, b) }] *)
Fixpoint insert_tokens (subtree : ParallelSmt.SparseMerkleTree Token Fr) (tokens : list TokenId) :
    outcome (ParallelSmt.SparseMerkleTree Token Fr) :=
  match tokens with
  | [] => Val subtree
  | token :: tokens =>
      subtree ← smt_insert subtree token (mkToken (fr_of_uint token));
      insert_tokens subtree tokens
  end.

Definition CircuitAccount_from (acc : Account) : outcome CircuitAccount :=
  circuit_account ← CircuitAccount_default;
  subtree ← insert_tokens (ca_subtree circuit_account) (get_tokens acc);
  Val (mkCircuitAccount subtree (fr_of_uint (nonce acc)) (PubKeyHash_to_fr (pub_key_hash acc))
         (eth_address_to_fr (address acc))).

Definition get_state_root (self : CircuitAccount) : outcome Fr :=
  r ← smt_root_hash (ca_subtree self);
  let balance_root := r.1 in
  let state_root_padding := fr_of_uint 0 in
  Val (hash_elements [balance_root; state_root_padding]).

Definition CircuitAccount_get_bits_le (self : CircuitAccount) : outcome (list bool) :=
  let leaf_content :=
    get_bits_le_fixed (fr_repr (ca_nonce self)) NONCE_BIT_WIDTH
    ++ get_bits_le_fixed (fr_repr (ca_pub_key_hash self)) NEW_PUBKEY_HASH_WIDTH
    ++ get_bits_le_fixed (fr_repr (ca_address self)) ADDRESS_WIDTH in
  state_root ← get_state_root self;
  let state_tree_hash_bits := get_bits_le_fixed (fr_repr state_root) FR_BIT_WIDTH in
  let state_tree_hash_bits := vec_resize FR_BIT_WIDTH_PADDED false state_tree_hash_bits in
  let leaf_content := leaf_content ++ state_tree_hash_bits in
  _ ← assert_that (length leaf_content =? LEAF_DATA_BIT_WIDTH)%nat "Account bit width mismatch";
  Val leaf_content.

#[global] Instance Account_get_bits : GetBits Account := λ self,
  circuit_account ← CircuitAccount_from self; CircuitAccount_get_bits_le circuit_account.
#[global] Instance Account_default_value : Default Account := Account_default.

(** [impl PartialEq for Account] compares the bits. *)
Definition Account_eq (self other : Account) : outcome bool :=
  a ← get_bits_le self; b ← get_bits_le other; Val (bool_decide (a = b)).
End Leaf.

(** ** Facts *)
Section LeafFacts.
  Context `{EX : External}.

Definition token_ok (t : TokenId) : Prop := leaf_ok token_tree_depth t.
#[global] Instance token_ok_dec t : Decision (token_ok t).
Proof. unfold token_ok, leaf_ok. apply _. Defined.

Lemma token_ok_range t : token_ok t ↔ 0 ≤ t < total_tokens.
Proof. done. Qed.

(** The items of the token tree. *)
Definition token_items (tokens : gset TokenId) : gmap Z Token :=
  set_to_map (λ t, (t, mkToken (fr_of_uint t))) tokens.

Lemma get_tokens_elem a t : t ∈ get_tokens a ↔ t ∈ tokens a.
Proof. unfold get_tokens. by rewrite merge_sort_Permutation, elem_of_elements. Qed.

Lemma get_tokens_NoDup a : NoDup (get_tokens a).
Proof. unfold get_tokens. rewrite merge_sort_Permutation. apply NoDup_elements. Qed.

Lemma token_items_lookup T k :
  token_items T !! k = if decide (k ∈ T) then Some (mkToken (fr_of_uint k)) else None.
Proof.
  unfold token_items. case_decide as E.
  - apply lookup_set_to_map; [|by exists k]. naive_solver.
  - apply eq_None_not_Some. intros [v Hv]. apply lookup_set_to_map in Hv; [|naive_solver].
    naive_solver.
Qed.

Lemma insert_tokens_spec st l :
  smt_ok token_tree_depth st → Forall (λ t, 0 ≤ t) l →
  (Forall token_ok l ∧ ∃ st', insert_tokens st l = Val st' ∧ smt_ok token_tree_depth st' ∧
     items st' = foldl (λ (m : gmap Z Token) t, <[t := mkToken (fr_of_uint t)]> m) (items st) l) ∨
  (¬ Forall token_ok l ∧ ∃ msg, insert_tokens st l = Panic msg).
Proof.
  intros Hst Hl. revert st Hst. induction Hl as [|t l Ht Hl IH]; intros st Hst.
  { left. split; [constructor|]. by exists st. }
  cbn [insert_tokens foldl]. destruct (decide (token_ok t)) as [Hok|Hno].
  - destruct (smt_insert_ok token_tree_depth st t (mkToken (fr_of_uint t)) Hst Hok) as (st1 & -> & Hst1 & <-).
    cbn [mbind outcome_bind]. destruct (IH st1 Hst1) as [[? ?]|[Hn ?]]; [left|right].
    + split; [by constructor|done].
    + split; [|done]. intros HF. inversion HF. done.
  - destruct (smt_insert_full token_tree_depth st t (mkToken (fr_of_uint t)) Hst Ht Hno) as [msg ->].
    right. split; [|by eexists]. intros HF. inversion HF. done.
Qed.

Lemma foldl_insert_lookup l (m : gmap Z Token) (k : Z) :
  foldl (λ (m : gmap Z Token) t, <[t := mkToken (fr_of_uint t)]> m) m l !! k =
  if decide (k ∈ l) then Some (mkToken (fr_of_uint k)) else m !! k.
Proof.
  revert m. induction l as [|t l IH]; intros m; cbn [foldl]; [done|]. rewrite IH.
  destruct (decide (k ∈ l)) as [Hin|Hin]; [rewrite decide_True by set_solver; done|].
  destruct (decide (k = t)) as [->|Hne].
  - rewrite lookup_insert_eq, decide_True by set_solver. done.
  - rewrite lookup_insert_ne, decide_False by set_solver. done.
Qed.

Lemma token_tree_new : ∃ st : ParallelSmt.SparseMerkleTree Token Fr,
  smt_new token_tree_depth = Val st ∧ smt_ok token_tree_depth st ∧ items st = ∅.
Proof. apply smt_new_ok; [cbv; lia|by eexists]. Qed.

(** The bits of an account all of whose tokens fit the token tree. *)
Definition leaf_bits (a : Account) : list bool :=
  get_bits_le_fixed (fr_repr (fr_of_uint (nonce a))) NONCE_BIT_WIDTH
  ++ get_bits_le_fixed (fr_repr (PubKeyHash_to_fr (pub_key_hash a))) NEW_PUBKEY_HASH_WIDTH
  ++ get_bits_le_fixed (fr_repr (eth_address_to_fr (address a))) ADDRESS_WIDTH
  ++ vec_resize FR_BIT_WIDTH_PADDED false
       (get_bits_le_fixed (fr_repr (hash_elements
          [reference_root token_tree_depth (token_items (tokens a)); fr_of_uint 0])) FR_BIT_WIDTH).

Definition tokens_nonneg (a : Account) : Prop := ∀ t, t ∈ tokens a → 0 ≤ t.
Definition tokens_ok (a : Account) : Prop := ∀ t, t ∈ tokens a → token_ok t.

Lemma account_bits_spec a :
  tokens_nonneg a →
  (tokens_ok a ∧ get_bits_le a = Val (leaf_bits a)) ∨
  (¬ tokens_ok a ∧ ∃ msg, get_bits_le a = Panic msg).
Proof.
  intros Hnn. unfold get_bits_le, Account_get_bits, CircuitAccount_from, CircuitAccount_default.
  destruct token_tree_new as (st & -> & Hst & Hi). cbn [mbind outcome_bind ca_subtree].
  destruct (insert_tokens_spec st (get_tokens a) Hst) as [[Hall (st' & -> & Hst' & Hi')]|[Hno (msg & ->)]].
  { apply Forall_forall. intros t Ht%get_tokens_elem. by apply Hnn. }
  - left. assert (items st' = token_items (tokens a)) as Hit.
    { apply map_eq. intros k. rewrite Hi', Hi, foldl_insert_lookup, token_items_lookup, lookup_empty.
      pose proof (get_tokens_elem a k). repeat case_decide; naive_solver. }
    split; [intros t Ht; rewrite Forall_forall in Hall; by apply Hall, get_tokens_elem|].
    cbn [mbind outcome_bind]. unfold CircuitAccount_get_bits_le, get_state_root.
    cbn [ca_subtree ca_nonce ca_pub_key_hash ca_address].
    destruct (smt_root_hash_spec token_tree_depth st' Hst') as (st2 & -> & _); [by eexists|].
    cbn [mbind outcome_bind fst]. rewrite Hit.
    set (bits := (_ ++ _ ++ _) ++ _). assert (length bits = LEAF_DATA_BIT_WIDTH) as Hlen.
    { subst bits. rewrite !length_app, vec_resize_length, !get_bits_le_fixed_length. done. }
    rewrite Hlen, Nat.eqb_refl. cbn [assert_that mbind outcome_bind]. f_equal. subst bits.
    unfold leaf_bits. by rewrite <- !app_assoc.
  - right. split; [|by eexists]. intros Hok. apply Hno, Forall_forall. intros t Ht%get_tokens_elem.
    by apply Hok.
Qed.

(** The bits of an account are defined exactly when all of its token ids are below
    256, the capacity of the token tree; otherwise computing them panics. They then
    have the length that the circuit expects. *)
Theorem account_bits_defined_iff a :
  tokens_nonneg a →
  ((∃ b, get_bits_le a = Val b) ↔ ∀ t, t ∈ tokens a → t < total_tokens) ∧
  (∀ b, get_bits_le a = Val b → length b = LEAF_DATA_BIT_WIDTH).
Proof.
  intros Hnn. assert (tokens_ok a ↔ ∀ t, t ∈ tokens a → t < total_tokens) as <-.
  { split; intros H t Ht; [by apply token_ok_range, H|]. apply token_ok_range. split; [by apply Hnn|by apply H]. }
  destruct (account_bits_spec a Hnn) as [[Hok Hb]|[Hno [msg Hb]]]; rewrite Hb; split.
  - naive_solver.
  - intros b [= <-]. unfold leaf_bits. by rewrite !length_app, vec_resize_length, !get_bits_le_fixed_length.
  - naive_solver.
  - naive_solver.
Qed.

(** The token tree cannot tell an absent leaf from the default one. *)
Lemma subtree_hash_items_ext {T Hash} `{HT : GetBits T, DT : Default T, HH : Hasher Hash}
    D (I J : gmap Z T) h i :
  (∀ k, default default_value (I !! k) = default default_value (J !! k)) →
  subtree_hash (Hash := Hash) D I h i = subtree_hash D J h i.
Proof.
  intros Hext. revert i. induction h as [|h IH]; intros i; cbn [subtree_hash]; [by rewrite Hext|].
  by rewrite !IH.
Qed.

(** Token 0 leaves no trace in the state: an account has the same bits, hence the
    same leaf hash and the same root hash of the state, whether or not it owns token
    0, because the leaf of token 0 equals the default leaf; the equality of accounts
    ([PartialEq]) cannot tell the two apart either. *)
Theorem token_zero_invisible a :
  tokens_ok a → 0 ∉ tokens a →
  get_bits_le (add_token 0 a) = get_bits_le a ∧ add_token 0 a ≠ a ∧
  Account_eq (add_token 0 a) a = Val true.
Proof.
  intros Hok H0. assert (tokens_nonneg a) as Hnn by (intros t Ht; by apply Hok).
  assert (tokens_ok (add_token 0 a)) as Hok'.
  { intros t. unfold add_token, set_tokens. cbn [tokens]. intros [->%elem_of_singleton|Ht]%elem_of_union; [|by apply Hok].
    apply token_ok_range. done. }
  assert (tokens_nonneg (add_token 0 a)) as Hnn' by (intros t Ht; by apply Hok').
  assert (get_bits_le (add_token 0 a) = get_bits_le a) as Hbits.
  { destruct (account_bits_spec a Hnn) as [[_ ->]|[? _]]; [|done].
    destruct (account_bits_spec _ Hnn') as [[_ ->]|[? _]]; [|done].
    f_equal. unfold leaf_bits. cbn [nonce pub_key_hash address tokens add_token set_tokens].
    assert (reference_root (Hash := Fr) token_tree_depth (token_items ({[0]} ∪ tokens a)) =
            reference_root token_tree_depth (token_items (tokens a))) as ->; [|done].
    apply subtree_hash_items_ext. intros k.
    rewrite !token_items_lookup. destruct (decide (k = 0)) as [->|Hk].
    - by rewrite decide_True, decide_False by set_solver.
    - destruct (decide (k ∈ tokens a)); [by rewrite decide_True by set_solver|].
      by rewrite decide_False by set_solver. }
  split; [done|]. split.
  - intros E. apply H0. rewrite <- E. unfold add_token, set_tokens. cbn [tokens]. set_solver.
  - unfold Account_eq. rewrite Hbits. destruct (account_bits_spec a Hnn) as [[_ ->]|[? _]]; [|done].
    cbn [mbind outcome_bind]. by rewrite bool_decide_true.
Qed.
End LeafFacts.
