(* ===== verification/PlasmaState.v ===== *)
(** * The state of the rollup and its operations (core/plasma/src/state.rs)

    The accounts live in a sparse Merkle tree that is indexed by account id; a
    map from addresses to ids is kept beside it.  Transactions are checked and
    applied one by one; each returns the operation that was executed and the
    list of account updates that the database stores.

    The tree is used through its interface [SparseTree], so the definitions run
    on any implementation and the theorems use the laws of the interface only.
    Integers wrap as in a release build. *)

From S2P Require Import Prelude Bytes Params Externals Primitives Amounts Account Tx Operations Merkle.
From S2P Require Import AccountLeaf.
Open Scope Z_scope.

Section Plasma.
  Context `{EX : External} {Tree : Type} `{ST : !SparseTree Tree Account Fr}.

Record CollectedFee : Type := mkCollectedFee { cf_token : TokenId; cf_amount : BigDecimal }.

Record OpSuccess : Type := mkOpSuccess {
  os_fee : option CollectedFee;
  os_updates : AccountUpdates;
  os_executed_op : FranklinOp;
}.

Record PlasmaState : Type := mkPlasmaState {
  token_tree : Tree;
  account_id_by_address : gmap Address AccountId;
  ps_block_number : BlockNumber;
}.

Definition PlasmaState_empty : outcome PlasmaState :=
  let tree_depth := account_tree_depth in
  token_tree ← tree_new tree_depth;
  Val (mkPlasmaState token_tree ∅ 0).

Definition PlasmaState_new (token_tree : Tree) (account_id_by_address : gmap Address AccountId)
    (current_block : BlockNumber) : PlasmaState :=
  mkPlasmaState token_tree account_id_by_address current_block.

Definition get_account (account_id : AccountId) (self : PlasmaState) : option Account :=
  tree_get (token_tree self) account_id.

Definition insert_account (id : AccountId) (account : Account) (self : PlasmaState) : outcome PlasmaState :=
  let account_id_by_address := <[address account := id]> (account_id_by_address self) in
  token_tree ← tree_insert (token_tree self) id account;
  Val (mkPlasmaState token_tree account_id_by_address (ps_block_number self)).

Definition remove_account (id : AccountId) (self : PlasmaState) : outcome PlasmaState :=
  match get_account id self with
  | Some account =>
      let account_id_by_address := delete (address account) (account_id_by_address self) in
      r ← tree_remove (token_tree self) id;
      Val (mkPlasmaState r.2 account_id_by_address (ps_block_number self))
  | None => Val self
  end.

(** [for (id, account) in accounts]: the map is iterated in the order of [map_to_list]. *)
Fixpoint insert_accounts (accounts : list (Z * Account)) (self : PlasmaState) : outcome PlasmaState :=
  match accounts with
  | [] => Val self
  | (id, account) :: accounts => self ← insert_account id account self; insert_accounts accounts self
  end.
Definition from_acc_map (accounts : AccountMap) (current_block : BlockNumber) : outcome PlasmaState :=
  empty ← PlasmaState_empty;
  let empty := mkPlasmaState (token_tree empty) (account_id_by_address empty) current_block in
  insert_accounts (map_to_list accounts) empty.

Definition get_accounts (self : PlasmaState) : list (Z * Account) :=
  (λ '(id, a), (wrap 32 id, a)) <$> map_to_list (tree_items (token_tree self)).

(** Returns the hash and the state whose tree has filled its cache. *)
Definition root_hash (self : PlasmaState) : outcome (Fr * PlasmaState) :=
  r ← tree_root_hash (token_tree self);
  Val (r.1, mkPlasmaState r.2 (account_id_by_address self) (ps_block_number self)).

Definition get_account_by_address (address : Address) (self : PlasmaState) :
    outcome (option (AccountId * Account)) :=
  match account_id_by_address self !! address with
  | None => Val None
  | Some account_id =>
      account ← unwrap "Failed to get account by cached pubkey" (get_account account_id self);
      Val (Some (account_id, account))
  end.

Definition chunks_for_tx (franklin_tx : FranklinTx) (self : PlasmaState) : outcome nat :=
  match franklin_tx with
  | TxTransfer tx =>
      to ← get_account_by_address (tr_to tx) self;
      Val (match to with Some _ => TRANSFER_CHUNKS | None => TRANSFER_TO_NEW_CHUNKS end)
  | _ => Val (min_chunks franklin_tx)
  end.

Definition get_free_account_id (self : PlasmaState) : AccountId :=
  wrap 32 (Z.of_nat (size (tree_items (token_tree self)))).

(** The effects of the methods below. *)
Definition insert_account_m (id : AccountId) (account : Account) : Exec PlasmaState unit :=
  update (insert_account id account).
Definition get_account_unwrap (id : AccountId) : Exec PlasmaState Account :=
  account ← gets (get_account id);
  total (unwrap "called `Option::unwrap()` on a `None` value" account).
Definition by_address (address : Address) : Exec PlasmaState (option (AccountId * Account)) := λ s,
  match get_account_by_address address s with
  | Val r => Val (Ok r, s)
  | Panic msg => Panic msg
  end.

Definition increment_nonce (a : Account) : Account := set_nonce (wrap 32 (nonce a + 1)) a.

(** ** Operations *)

Definition apply_deposit_op (op : DepositOp) : Exec PlasmaState AccountUpdates :=
  existing ← gets (get_account (dpo_account_id op));
  let '(account, updates) :=
    match existing with
    | Some account => (account, [])
    | None => create_account (dpo_account_id op) (dp_to (dpo_priority_op op))
    end in
  let old_nonce := nonce account in
  let account := add_token (dp_token_id (dpo_priority_op op)) account in
  _ ← insert_account_m (dpo_account_id op) account;
  mret (updates ++ [(dpo_account_id op,
                     AddToken old_nonce old_nonce (dp_token_id (dpo_priority_op op)))]).

(** The loop over the tokens of the account. *)
Fixpoint full_exit_loop (tokens : list TokenId) (account_id : AccountId) (old_nonce : Nonce)
    (account : Account) (updates : AccountUpdates) : Account * AccountUpdates :=
  match tokens with
  | [] => (account, updates)
  | token :: tokens =>
      full_exit_loop tokens account_id old_nonce (remove_token token account)
        (updates ++ [(account_id, RemoveToken old_nonce old_nonce token)])
  end.

Definition apply_full_exit_op (op : FullExitOp) : Exec PlasmaState AccountUpdates :=
  let account_id := fe_account_id (feo_priority_op op) in
  account ← gets (get_account account_id);
  account ← total (unwrap "Full exit account not found" account);
  let old_nonce := nonce account in
  let tokens := get_tokens account in
  let '(account, updates) := full_exit_loop tokens account_id old_nonce account [] in
  _ ← insert_account_m account_id account;
  mret updates.

Definition apply_transfer_to_new_op (op : TransferToNewOp) :
    Exec PlasmaState (CollectedFee * AccountUpdates) :=
  let tx := ttn_tx op in
  existing ← gets (get_account (ttn_to op));
  _ ← total (assert_that (bool_decide (existing = None)) "Transfer to new account exists");
  let '(to_account, updates) := create_account (ttn_to op) (tr_to tx) in
  from_account ← get_account_unwrap (ttn_from op);
  let from_old_nonce := nonce from_account in
  _ ← ensure (tr_nonce tx =? from_old_nonce) "Nonce mismatch";
  _ ← ensure (has_token (tr_token_id tx) from_account) "Not current owner";
  let from_account := remove_token (tr_token_id tx) from_account in
  let from_account := increment_nonce from_account in
  let from_new_nonce := nonce from_account in
  let to_account_nonce := nonce to_account in
  let to_account := add_token (tr_token_id tx) to_account in
  _ ← insert_account_m (ttn_from op) from_account;
  _ ← insert_account_m (ttn_to op) to_account;
  let updates := updates
    ++ [(ttn_from op, RemoveToken from_old_nonce from_new_nonce (tr_token_id tx))]
    ++ [(ttn_to op, AddToken to_account_nonce to_account_nonce (tr_token_id tx))] in
  let fee := mkCollectedFee (tr_token_id tx) (tr_fee tx) in
  mret (fee, updates).

Definition apply_withdraw_op (op : WithdrawOp) : Exec PlasmaState (CollectedFee * AccountUpdates) :=
  let tx := wdo_tx op in
  from_account ← get_account_unwrap (wdo_account_id op);
  let from_old_nonce := nonce from_account in
  _ ← ensure (wd_nonce tx =? from_old_nonce) "Nonce mismatch";
  _ ← ensure (has_token (wd_token_id tx) from_account) "Not current owner";
  let from_account := remove_token (wd_token_id tx) from_account in
  let from_account := increment_nonce from_account in
  let from_new_nonce := nonce from_account in
  _ ← insert_account_m (wdo_account_id op) from_account;
  let updates := [(wdo_account_id op, RemoveToken from_old_nonce from_new_nonce (wd_token_id tx))] in
  let fee := mkCollectedFee (wd_token_id tx) (wd_fee tx) in
  mret (fee, updates).

(** The test in the loop over all tokens does not depend on the loop variable and there
    is at least one token, so the loop is one test. *)
Definition apply_close_op (op : CloseOp) : Exec PlasmaState (CollectedFee * AccountUpdates) :=
  account ← get_account_unwrap (clo_account_id op);
  _ ← ensure (bool_decide (get_tokens account = [])) "Account is not empty";
  _ ← ensure (cl_nonce (clo_tx op) =? nonce account) "Nonce mismatch";
  _ ← update (remove_account (clo_account_id op));
  let updates := [(clo_account_id op, Delete (address account) (nonce account))] in
  let fee := mkCollectedFee ETH_TOKEN_ID (bd_of_u128 0) in
  mret (fee, updates).

Definition apply_change_pubkey_op (op : ChangePubKeyOp) :
    Exec PlasmaState (CollectedFee * AccountUpdates) :=
  let tx := cpo_tx op in
  account ← get_account_unwrap (cpo_account_id op);
  let old_pub_key_hash := pub_key_hash account in
  let old_nonce := nonce account in
  _ ← ensure (cpk_nonce tx =? nonce account) "Nonce mismatch";
  let account := set_pub_key_hash (cpk_new_pk_hash tx) account in
  let account := increment_nonce account in
  let new_pub_key_hash := pub_key_hash account in
  let new_nonce := nonce account in
  _ ← insert_account_m (cpo_account_id op) account;
  let updates := [(cpo_account_id op,
                   ChangePubKeyHash old_pub_key_hash new_pub_key_hash old_nonce new_nonce)] in
  let fee := mkCollectedFee ETH_TOKEN_ID (bd_of_u128 0) in
  mret (fee, updates).

Definition apply_transfer_op_to_self (op : TransferOp) : Exec PlasmaState (CollectedFee * AccountUpdates) :=
  let tx := tro_tx op in
  _ ← ensure (tro_from op =? tro_to op) "Bug: transfer to self should not be called.";
  account ← get_account_unwrap (tro_from op);
  let old_nonce := nonce account in
  _ ← ensure (tr_nonce tx =? old_nonce) "Nonce mismatch";
  _ ← ensure (has_token (tr_token_id tx) account) "Not current owner";
  let account := increment_nonce account in
  _ ← insert_account_m (tro_from op) account;
  let fee := mkCollectedFee (tr_token_id tx) (tr_fee tx) in
  mret (fee, []).

Definition apply_transfer_op (op : TransferOp) : Exec PlasmaState (CollectedFee * AccountUpdates) :=
  if tro_from op =? tro_to op then apply_transfer_op_to_self op
  else
    let tx := tro_tx op in
    from_account ← get_account_unwrap (tro_from op);
    to_account ← get_account_unwrap (tro_to op);
    let from_old_nonce := nonce from_account in
    _ ← ensure (tr_nonce tx =? from_old_nonce) "Nonce mismatch";
    _ ← ensure (has_token (tr_token_id tx) from_account) "Not current owner";
    let from_account := remove_token (tr_token_id tx) from_account in
    let from_account := increment_nonce from_account in
    let from_new_nonce := nonce from_account in
    let to_account_nonce := nonce to_account in
    let to_account := add_token (tr_token_id tx) to_account in
    _ ← insert_account_m (tro_from op) from_account;
    _ ← insert_account_m (tro_to op) to_account;
    let updates :=
      [(tro_from op, RemoveToken from_old_nonce from_new_nonce (tr_token_id tx));
       (tro_to op, AddToken to_account_nonce to_account_nonce (tr_token_id tx))] in
    let fee := mkCollectedFee (tr_token_id tx) (tr_fee tx) in
    mret (fee, updates).

(** ** Transactions *)

Definition apply_deposit (priority_op : Deposit) : Exec PlasmaState OpSuccess :=
  existing ← by_address (dp_to priority_op);
  account_id ← match existing with
               | Some (account_id, _) => mret account_id
               | None => gets get_free_account_id
               end;
  let deposit_op := mkDepositOp priority_op account_id in
  updates ← apply_deposit_op deposit_op;
  mret (mkOpSuccess None updates (OpDeposit deposit_op)).

Definition apply_full_exit (priority_op : FullExit) : Exec PlasmaState OpSuccess :=
  let op := mkFullExitOp priority_op in
  updates ← apply_full_exit_op op;
  mret (mkOpSuccess None updates (OpFullExit op)).

Definition apply_transfer (tx : Transfer) : Exec PlasmaState OpSuccess :=
  _ ← ensure (tr_token_id tx <? wrap 16 total_tokens) "Token id is not supported";
  from_acc ← by_address (tr_from tx);
  from_acc ← lift (ok_or "From account does not exist" from_acc);
  let '(from, from_account) := from_acc in
  _ ← ensure (bool_decide (pub_key_hash from_account ≠ PubKeyHash_default)) "Account is locked";
  signer ← total (Transfer_verify_signature tx);
  _ ← ensure (bool_decide (signer = Some (pub_key_hash from_account))) "Transfer signature is incorrect";
  _ ← ensure (from =? tr_account_id tx) "Transfer account id is incorrect";
  to_acc ← by_address (tr_to tx);
  match to_acc with
  | Some (to, _) =>
      let transfer_op := mkTransferOp tx from to in
      r ← apply_transfer_op transfer_op;
      let '(fee, updates) := r in
      mret (mkOpSuccess (Some fee) updates (OpTransfer transfer_op))
  | None =>
      to ← gets get_free_account_id;
      let transfer_to_new_op := mkTransferToNewOp tx from to in
      r ← apply_transfer_to_new_op transfer_to_new_op;
      let '(fee, updates) := r in
      mret (mkOpSuccess (Some fee) updates (OpTransferToNew transfer_to_new_op))
  end.

Definition apply_withdraw (tx : Withdraw) : Exec PlasmaState OpSuccess :=
  _ ← ensure (wd_token_id tx <? wrap 16 total_tokens) "Token id is not supported";
  acc ← by_address (wd_from tx);
  acc ← lift (ok_or "Account does not exist" acc);
  let '(account_id, account) := acc in
  _ ← ensure (bool_decide (pub_key_hash account ≠ PubKeyHash_default)) "Account is locked";
  signer ← total (Withdraw_verify_signature tx);
  _ ← ensure (bool_decide (signer = Some (pub_key_hash account))) "withdraw signature is incorrect";
  _ ← ensure (account_id =? wd_account_id tx) "Withdraw account id is incorrect";
  let withdraw_op := mkWithdrawOp tx account_id in
  r ← apply_withdraw_op withdraw_op;
  let '(fee, updates) := r in
  mret (mkOpSuccess (Some fee) updates (OpWithdraw withdraw_op)).

Definition apply_close (_tx : Close) : Exec PlasmaState OpSuccess := raise "Account closing is disabled".

Definition apply_change_pubkey (tx : ChangePubKey) : Exec PlasmaState OpSuccess :=
  acc ← by_address (cpk_account tx);
  acc ← lift (ok_or "Account does not exist" acc);
  let '(account_id, account) := acc in
  _ ← ensure (bool_decide (cpk_eth_signature tx = None)
              || bool_decide (verify_eth_signature tx = Some (address account)))
        "ChangePubKey signature is incorrect";
  _ ← ensure (account_id =? cpk_account_id tx) "ChangePubKey account id is incorrect";
  let change_pk_op := mkChangePubKeyOp tx account_id in
  r ← apply_change_pubkey_op change_pk_op;
  let '(fee, updates) := r in
  mret (mkOpSuccess (Some fee) updates (OpChangePubKeyOffchain change_pk_op)).

Definition execute_priority_op (op : FranklinPriorityOp) : Exec PlasmaState OpSuccess :=
  match op with
  | PDeposit op => apply_deposit op
  | PFullExit op => apply_full_exit op
  end.

Definition execute_tx (tx : FranklinTx) : Exec PlasmaState OpSuccess :=
  match tx with
  | TxTransfer tx => apply_transfer tx
  | TxWithdraw tx => apply_withdraw tx
  | TxClose tx => apply_close tx
  | TxChangePubKey tx => apply_change_pubkey tx
  end.

(** Collecting fees is disabled: the loop over the fees is commented out in the source. *)
Definition collect_fee (fees : list CollectedFee) (fee_account : AccountId) :
    Exec PlasmaState AccountUpdates :=
  account ← gets (get_account fee_account);
  _ ← total (unwrap "Fee account should be present in the account tree" account);
  mret [].
End Plasma.
Arguments PlasmaState Tree : clear implicits.
