(* ===== verification/PlasmaProofs.v ===== *)
(** * Correctness of the state transitions

    [ledger_step] is the specification: how one executed operation changes the
    map of accounts, and the updates it reports.  The methods of [PlasmaState]
    are shown to refine it, over any tree that satisfies the laws of
    [SparseTree]: an operation that is refused leaves the state as it was, and
    an operation that is executed makes the step of the ledger and keeps the
    invariant. *)

From S2P Require Import Prelude Bytes Params Externals Primitives Amounts Account Tx Operations Merkle.
From S2P Require Import AccountLeaf PlasmaState.
Open Scope Z_scope.

Section Ledger.
  Context `{EX : External}.

(** ** The specification *)

Inductive ledger_step (m : AccountMap) : FranklinOp → AccountUpdates → AccountMap → Prop :=
| LDeposit d id a :
    m !! id = Some a →
    ledger_step m (OpDeposit (mkDepositOp d id)) [(id, AddToken (nonce a) (nonce a) (dp_token_id d))]
      (<[id := add_token (dp_token_id d) a]> m)
| LDepositNew d id :
    m !! id = None →
    ledger_step m (OpDeposit (mkDepositOp d id))
      [(id, Create (dp_to d) 0); (id, AddToken 0 0 (dp_token_id d))]
      (<[id := add_token (dp_token_id d) (default_with_address (dp_to d))]> m)
| LTransferToNew tx from to a :
    m !! from = Some a → m !! to = None →
    tr_nonce tx = nonce a → tr_token_id tx ∈ tokens a →
    ledger_step m (OpTransferToNew (mkTransferToNewOp tx from to))
      [(to, Create (tr_to tx) 0);
       (from, RemoveToken (nonce a) (wrap 32 (nonce a + 1)) (tr_token_id tx));
       (to, AddToken 0 0 (tr_token_id tx))]
      (<[to := add_token (tr_token_id tx) (default_with_address (tr_to tx))]>
         (<[from := increment_nonce (remove_token (tr_token_id tx) a)]> m))
| LTransfer tx from to a b :
    from ≠ to → m !! from = Some a → m !! to = Some b →
    tr_nonce tx = nonce a → tr_token_id tx ∈ tokens a →
    ledger_step m (OpTransfer (mkTransferOp tx from to))
      [(from, RemoveToken (nonce a) (wrap 32 (nonce a + 1)) (tr_token_id tx));
       (to, AddToken (nonce b) (nonce b) (tr_token_id tx))]
      (<[to := add_token (tr_token_id tx) b]>
         (<[from := increment_nonce (remove_token (tr_token_id tx) a)]> m))
| LTransferSelf tx from a :
    m !! from = Some a → tr_nonce tx = nonce a → tr_token_id tx ∈ tokens a →
    ledger_step m (OpTransfer (mkTransferOp tx from from)) [] (<[from := increment_nonce a]> m)
| LWithdraw tx id a :
    m !! id = Some a → wd_nonce tx = nonce a → wd_token_id tx ∈ tokens a →
    ledger_step m (OpWithdraw (mkWithdrawOp tx id))
      [(id, RemoveToken (nonce a) (wrap 32 (nonce a + 1)) (wd_token_id tx))]
      (<[id := increment_nonce (remove_token (wd_token_id tx) a)]> m)
| LChangePubKey tx id a :
    m !! id = Some a → cpk_nonce tx = nonce a →
    ledger_step m (OpChangePubKeyOffchain (mkChangePubKeyOp tx id))
      [(id, ChangePubKeyHash (pub_key_hash a) (cpk_new_pk_hash tx) (nonce a) (wrap 32 (nonce a + 1)))]
      (<[id := increment_nonce (set_pub_key_hash (cpk_new_pk_hash tx) a)]> m)
| LFullExit e a :
    m !! fe_account_id e = Some a →
    ledger_step m (OpFullExit (mkFullExitOp e))
      ((λ t, (fe_account_id e, RemoveToken (nonce a) (nonce a) t)) <$> get_tokens a)
      (<[fe_account_id e := set_tokens ∅ a]> m).

(** The checks of an operation against the account that it debits. *)
Definition op_guard (m : AccountMap) (op : FranklinOp) : Prop :=
  match op with
  | OpTransfer (mkTransferOp tx from _) | OpTransferToNew (mkTransferToNewOp tx from _) =>
      ∃ a, m !! from = Some a ∧ tr_nonce tx = nonce a ∧ tr_token_id tx ∈ tokens a
  | OpWithdraw (mkWithdrawOp tx id) =>
      ∃ a, m !! id = Some a ∧ wd_nonce tx = nonce a ∧ wd_token_id tx ∈ tokens a
  | OpChangePubKeyOffchain (mkChangePubKeyOp tx id) =>
      ∃ a, m !! id = Some a ∧ cpk_nonce tx = nonce a
  | _ => True
  end.

(** The accounts of an operation are those that its addresses name; a new account gets
    the next free id. *)
Definition op_addressed (m : AccountMap) (op : FranklinOp) : Prop :=
  match op with
  | OpDeposit (mkDepositOp d id) =>
      (∃ a, m !! id = Some a ∧ address a = dp_to d) ∨
      (id = Z.of_nat (size m) ∧ id < 2 ^ 24 ∧ ∀ j a, m !! j = Some a → address a ≠ dp_to d)
  | OpTransferToNew (mkTransferToNewOp tx from to) =>
      (∃ a, m !! from = Some a ∧ address a = tr_from tx) ∧
      to = Z.of_nat (size m) ∧ to < 2 ^ 24 ∧ ∀ j a, m !! j = Some a → address a ≠ tr_to tx
  | OpTransfer (mkTransferOp tx from to) =>
      (∃ a, m !! from = Some a ∧ address a = tr_from tx) ∧ (∃ b, m !! to = Some b ∧ address b = tr_to tx)
  | OpWithdraw (mkWithdrawOp tx id) => ∃ a, m !! id = Some a ∧ address a = wd_from tx
  | OpChangePubKeyOffchain (mkChangePubKeyOp tx id) => ∃ a, m !! id = Some a ∧ address a = cpk_account tx
  | _ => True
  end.

Lemma increment_nonce_address a : address (increment_nonce a) = address a.
Proof. done. Qed.
Lemma has_token_spec t a : has_token t a = true ↔ t ∈ tokens a.
Proof. apply bool_decide_eq_true. Qed.
End Ledger.

Section Proofs.
  Context `{EX : External} {Tree : Type} `{ST : !SparseTree Tree Account Fr}.
  Context `{SL : !SparseTreeLaws Tree Account Fr}.
  Implicit Types (s : PlasmaState Tree) (a : Account).

Definition accounts (s : PlasmaState Tree) : AccountMap := tree_items (token_tree s).

(** ** The invariant: the index of addresses is exact and the ids are dense *)
Record state_ok (s : PlasmaState Tree) : Prop := {
  sk_tree : tree_ok account_tree_depth (token_tree s);
  sk_index ad id :
    account_id_by_address s !! ad = Some id ↔ ∃ a, accounts s !! id = Some a ∧ address a = ad;
  sk_dense id : is_Some (accounts s !! id) ↔ 0 ≤ id < Z.of_nat (size (accounts s));
}.

Lemma get_account_lookup id s : get_account id s = accounts s !! id.
Proof. apply tree_get_items. Qed.

Lemma sk_range s id : state_ok s → is_Some (accounts s !! id) → leaf_ok account_tree_depth id.
Proof. intros Hs. by apply tree_items_range, Hs. Qed.

(** Two accounts with one address are the same account. *)
Lemma sk_address_inj s id id' a a' :
  state_ok s → accounts s !! id = Some a → accounts s !! id' = Some a' →
  address a = address a' → id = id'.
Proof.
  intros Hs Ha Ha' E. assert (account_id_by_address s !! address a = Some id) as H1
    by (apply (sk_index _ Hs); eauto).
  assert (account_id_by_address s !! address a = Some id') as H2 by (apply (sk_index _ Hs); eauto).
  congruence.
Qed.

Lemma same_account s id id' a a' :
  state_ok s → accounts s !! id = Some a → accounts s !! id' = Some a' →
  address a = address a' → id = id' ∧ a = a'.
Proof.
  intros Hs Ha Ha' E. pose proof (sk_address_inj s id id' a a' Hs Ha Ha' E) as ->. naive_solver.
Qed.

Lemma sk_capacity s : state_ok s → Z.of_nat (size (accounts s)) ≤ 2 ^ 24.
Proof.
  intros Hs. destruct (decide (size (accounts s) = 0%nat)) as [->|Hne]; [simpl; lia|].
  assert (leaf_ok account_tree_depth (Z.of_nat (size (accounts s)) - 1)) as [_ Hlt].
  { apply (sk_range s); [done|]. apply (sk_dense _ Hs). lia. }
  change (2 ^ Z.of_nat account_tree_depth) with (2 ^ 24) in Hlt. lia.
Qed.

Lemma get_account_by_address_spec s ad :
  state_ok s →
  match get_account_by_address ad s with
  | Val (Some (id, a)) => accounts s !! id = Some a ∧ address a = ad ∧
      account_id_by_address s !! ad = Some id
  | Val None => account_id_by_address s !! ad = None
  | Panic _ => False
  end.
Proof.
  intros Hs. unfold get_account_by_address.
  destruct (account_id_by_address s !! ad) as [id|] eqn:Hi; [|done].
  pose proof (proj1 (sk_index _ Hs ad id) Hi) as (a & Ha & Had).
  rewrite get_account_lookup, Ha. simpl. done.
Qed.

(** Writing an account that exists, with the same address. *)
Lemma insert_account_existing s id a a0 :
  state_ok s → accounts s !! id = Some a0 → address a = address a0 →
  ∃ s', insert_account id a s = Val s' ∧ state_ok s' ∧ accounts s' = <[id := a]> (accounts s) ∧
    ps_block_number s' = ps_block_number s.
Proof.
  intros Hs Ha0 Had. unfold insert_account.
  destruct (tree_insert_ok account_tree_depth (token_tree s) id a) as (t' & -> & Hok & Hit).
  { apply Hs. } { apply (sk_range s); [done|by eexists]. }
  cbn [mbind outcome_bind]. eexists. split; [done|]. unfold accounts. cbn [token_tree ps_block_number].
  split; [|done]. fold (accounts s) in Hit.
  assert (account_id_by_address s !! address a = Some id) as Hidx
    by (apply (sk_index _ Hs); exists a0; done).
  split; unfold accounts; cbn [token_tree account_id_by_address]; [done|..].
  - intros ad id'. rewrite Hit, insert_id by done. rewrite (sk_index _ Hs).
    destruct (decide (id = id')) as [<-|Hne].
    + rewrite lookup_insert_eq, Ha0. naive_solver.
    + by rewrite lookup_insert_ne.
  - intros id'. rewrite Hit, map_size_insert, Ha0. rewrite <- (sk_dense _ Hs).
    rewrite lookup_insert_is_Some'. split; [intros [<-|]|]; [by eexists|done|by right].
Qed.

(** Writing a new account with a new address under the next free id. *)
Lemma insert_account_fresh s id a :
  state_ok s → id = Z.of_nat (size (accounts s)) → id < 2 ^ 24 →
  account_id_by_address s !! address a = None →
  ∃ s', insert_account id a s = Val s' ∧ state_ok s' ∧ accounts s' = <[id := a]> (accounts s) ∧
    ps_block_number s' = ps_block_number s.
Proof.
  intros Hs Hid Hlt Hnone. unfold insert_account.
  assert (accounts s !! id = None) as Hfree.
  { apply eq_None_not_Some. rewrite (sk_dense _ Hs). lia. }
  destruct (tree_insert_ok account_tree_depth (token_tree s) id a) as (t' & -> & Hok & Hit).
  { apply Hs. } { split; [lia|done]. }
  cbn [mbind outcome_bind]. eexists. split; [done|]. unfold accounts. cbn [token_tree ps_block_number].
  split; [|done]. fold (accounts s) in Hit.
  split; unfold accounts; cbn [token_tree account_id_by_address]; [done|..].
  - intros ad id'. rewrite Hit. destruct (decide (ad = address a)) as [->|Hne].
    + rewrite lookup_insert_eq. split.
      * intros [= <-]. exists a. by rewrite lookup_insert_eq.
      * intros (a' & Ha' & E). destruct (decide (id = id')) as [->|Hne']; [done|].
        rewrite lookup_insert_ne in Ha' by done.
        assert (account_id_by_address s !! address a = Some id') by (apply (sk_index _ Hs); eauto).
        congruence.
    + rewrite lookup_insert_ne, (sk_index _ Hs) by done. destruct (decide (id = id')) as [<-|Hne'].
      * rewrite lookup_insert_eq, Hfree. naive_solver.
      * by rewrite lookup_insert_ne.
  - intros id'. rewrite Hit, map_size_insert, Hfree, lookup_insert_is_Some', (sk_dense _ Hs). lia.
Qed.

(** ** Refinement of the operations *)

(** The outcome of an operation: refused with the state unchanged, or executed. *)
Definition op_outcome (s : PlasmaState Tree) (op : FranklinOp)
    (r : outcome (result (CollectedFee * AccountUpdates) * PlasmaState Tree)) : Prop :=
  (¬ op_guard (accounts s) op ∧ ∃ e, r = Val (Err e, s)) ∨
  (op_guard (accounts s) op ∧ ∃ fee us s', r = Val (Ok (fee, us), s') ∧ state_ok s' ∧
     ledger_step (accounts s) op us (accounts s') ∧ ps_block_number s' = ps_block_number s).

Lemma get_account_unwrap_Val id s a :
  accounts s !! id = Some a → get_account_unwrap id s = Val (Ok a, s).
Proof.
  intros Ha. unfold get_account_unwrap, gets, mbind, exec_bind. rewrite get_account_lookup, Ha. done.
Qed.

(** Runs the next step of a method. *)
Ltac step := unfold mbind at 1, exec_bind at 1.
Ltac refuse := left; split; [naive_solver|by eexists].

Lemma apply_withdraw_op_ok s tx id a :
  state_ok s → accounts s !! id = Some a →
  op_outcome s (OpWithdraw (mkWithdrawOp tx id)) (apply_withdraw_op (mkWithdrawOp tx id) s).
Proof.
  intros Hs Ha. unfold apply_withdraw_op. cbn [wdo_tx wdo_account_id].
  step. rewrite (get_account_unwrap_Val id s a Ha). step. unfold ensure, lift, ensure_that at 1.
  destruct (Z.eqb_spec (wd_nonce tx) (nonce a)) as [Hn|Hn]; [|refuse]. step. unfold lift, ensure_that.
  destruct (has_token (wd_token_id tx) a) eqn:Ht.
  2: { left. split; [|by eexists]. intros (a' & Ha' & _ & Ht'). simplify_eq. apply has_token_spec in Ht'.
       congruence. }
  apply has_token_spec in Ht. step. unfold insert_account_m, update.
  destruct (insert_account_existing s id (increment_nonce (remove_token (wd_token_id tx) a)) a)
    as (s' & -> & Hs' & Hacc & Hb); [done..|].
  right. split; [by exists a|]. eexists _, _, s'. split; [done|]. split; [done|]. split; [|done].
  rewrite Hacc. by apply LWithdraw.
Qed.

Lemma apply_change_pubkey_op_ok s tx id a :
  state_ok s → accounts s !! id = Some a →
  op_outcome s (OpChangePubKeyOffchain (mkChangePubKeyOp tx id))
    (apply_change_pubkey_op (mkChangePubKeyOp tx id) s).
Proof.
  intros Hs Ha. unfold apply_change_pubkey_op. cbn [cpo_tx cpo_account_id].
  step. rewrite (get_account_unwrap_Val id s a Ha). step. unfold ensure, lift, ensure_that.
  destruct (Z.eqb_spec (cpk_nonce tx) (nonce a)) as [Hn|Hn]; [|refuse].
  step. unfold insert_account_m, update.
  destruct (insert_account_existing s id
    (increment_nonce (set_pub_key_hash (cpk_new_pk_hash tx) a)) a)
    as (s' & -> & Hs' & Hacc & Hb); [done..|].
  right. split; [by exists a|]. eexists _, _, s'. split; [done|]. split; [done|]. split; [|done].
  rewrite Hacc. by apply LChangePubKey.
Qed.

Lemma apply_transfer_op_ok s tx from to a b :
  state_ok s → accounts s !! from = Some a → accounts s !! to = Some b →
  op_outcome s (OpTransfer (mkTransferOp tx from to)) (apply_transfer_op (mkTransferOp tx from to) s).
Proof.
  intros Hs Ha Hb. unfold apply_transfer_op, apply_transfer_op_to_self. cbn [tro_tx tro_from tro_to].
  destruct (Z.eqb_spec from to) as [<-|Hne].
  - step. cbn [ensure lift ensure_that]. step. rewrite (get_account_unwrap_Val from s a Ha).
    step. unfold ensure, lift, ensure_that at 1.
    destruct (Z.eqb_spec (tr_nonce tx) (nonce a)) as [Hn|Hn]; [|refuse]. step. unfold lift, ensure_that.
    destruct (has_token (tr_token_id tx) a) eqn:Ht.
    2: { left. split; [|by eexists]. intros (a' & Ha' & _ & Ht'). simplify_eq. apply has_token_spec in Ht'.
         congruence. }
    apply has_token_spec in Ht. step. unfold insert_account_m, update.
    destruct (insert_account_existing s from (increment_nonce a) a) as (s' & -> & Hs' & Hacc & Hbl); [done..|].
    right. split; [by exists a|]. eexists _, _, s'. split; [done|]. split; [done|]. split; [|done].
    rewrite Hacc. by apply LTransferSelf.
  - step. rewrite (get_account_unwrap_Val from s a Ha). step. rewrite (get_account_unwrap_Val to s b Hb).
    step. unfold ensure, lift, ensure_that at 1.
    destruct (Z.eqb_spec (tr_nonce tx) (nonce a)) as [Hn|Hn]; [|refuse]. step. unfold lift, ensure_that.
    destruct (has_token (tr_token_id tx) a) eqn:Ht.
    2: { left. split; [|by eexists]. intros (a' & Ha' & _ & Ht'). simplify_eq. apply has_token_spec in Ht'.
         congruence. }
    apply has_token_spec in Ht. step. unfold insert_account_m at 1, update.
    destruct (insert_account_existing s from (increment_nonce (remove_token (tr_token_id tx) a)) a)
      as (s1 & -> & Hs1 & Hacc1 & Hbl1); [done..|].
    step. unfold insert_account_m, update.
    destruct (insert_account_existing s1 to (add_token (tr_token_id tx) b) b)
      as (s2 & -> & Hs2 & Hacc2 & Hbl2); [done|by rewrite Hacc1, lookup_insert_ne|done|].
    right. split; [by exists a|]. eexists _, _, s2. split; [done|]. split; [done|]. split; [|congruence].
    rewrite Hacc2, Hacc1. by apply LTransfer.
Qed.

Lemma apply_transfer_to_new_op_ok s tx from to a :
  state_ok s → accounts s !! from = Some a → to = Z.of_nat (size (accounts s)) → to < 2 ^ 24 →
  account_id_by_address s !! tr_to tx = None →
  op_outcome s (OpTransferToNew (mkTransferToNewOp tx from to))
    (apply_transfer_to_new_op (mkTransferToNewOp tx from to) s).
Proof.
  intros Hs Ha Hto Hlt Hnew. unfold apply_transfer_to_new_op. cbn [ttn_tx ttn_from ttn_to].
  assert (accounts s !! to = None) as Hfree.
  { apply eq_None_not_Some. rewrite (sk_dense _ Hs). lia. }
  step. unfold gets. rewrite get_account_lookup, Hfree. step.
  rewrite bool_decide_true by done. cbn [total lift lift_outcome assert_that create_account]. step. rewrite (get_account_unwrap_Val from s a Ha). step.
  unfold ensure, lift, ensure_that at 1.
  destruct (Z.eqb_spec (tr_nonce tx) (nonce a)) as [Hn|Hn]; [|refuse]. step. unfold lift, ensure_that.
  destruct (has_token (tr_token_id tx) a) eqn:Ht.
  2: { left. split; [|by eexists]. intros (a' & Ha' & _ & Ht'). simplify_eq. apply has_token_spec in Ht'.
       congruence. }
  apply has_token_spec in Ht. step. unfold insert_account_m at 1, update.
  destruct (insert_account_existing s from (increment_nonce (remove_token (tr_token_id tx) a)) a)
    as (s1 & -> & Hs1 & Hacc1 & Hbl1); [done..|].
  step. unfold insert_account_m, update.
  assert (size (accounts s1) = size (accounts s)) as Hsize by (by rewrite Hacc1, map_size_insert, Ha).
  destruct (insert_account_fresh s1 to (add_token (tr_token_id tx) (set_address (tr_to tx) Account_default)))
    as (s2 & -> & Hs2 & Hacc2 & Hbl2); [done|by rewrite Hsize|done| |].
  { apply eq_None_not_Some. intros [id Hid]. apply (sk_index _ Hs1) in Hid as (b & Hb & Had).
    rewrite Hacc1 in Hb.
    assert (∃ b0, accounts s !! id = Some b0 ∧ address b0 = tr_to tx) as Hold.
    { destruct (decide (from = id)) as [<-|Hne].
      - rewrite lookup_insert_eq in Hb. injection Hb as <-. exists a. done.
      - rewrite lookup_insert_ne in Hb by done. exists b. done. }
    apply (sk_index _ Hs) in Hold. congruence. }
  right. split; [by exists a|]. eexists _, _, s2. split; [done|]. split; [done|]. split; [|congruence].
  rewrite Hacc2, Hacc1. by apply LTransferToNew.
Qed.

(** Priority operations are never refused. *)
Lemma apply_deposit_op_ok s d id :
  state_ok s →
  ((∃ a, accounts s !! id = Some a) ∨
   (id = Z.of_nat (size (accounts s)) ∧ id < 2 ^ 24 ∧ account_id_by_address s !! dp_to d = None)) →
  ∃ us s', apply_deposit_op (mkDepositOp d id) s = Val (Ok us, s') ∧ state_ok s' ∧
    ledger_step (accounts s) (OpDeposit (mkDepositOp d id)) us (accounts s') ∧
    ps_block_number s' = ps_block_number s.
Proof.
  intros Hs Hcase. unfold apply_deposit_op. cbn [dpo_account_id dpo_priority_op]. step. unfold gets.
  rewrite get_account_lookup. destruct Hcase as [[a Ha]|(Hid & Hlt & Hnew)].
  - rewrite Ha. step. unfold insert_account_m, update.
    destruct (insert_account_existing s id (add_token (dp_token_id d) a) a)
      as (s' & -> & Hs' & Hacc & Hb); [done..|].
    eexists _, s'. split; [done|]. split; [done|]. split; [|done]. rewrite Hacc. by apply LDeposit.
  - assert (accounts s !! id = None) as Hfree.
    { apply eq_None_not_Some. rewrite (sk_dense _ Hs). lia. }
    rewrite Hfree. cbn [create_account]. step. unfold insert_account_m, update.
    destruct (insert_account_fresh s id (add_token (dp_token_id d) (set_address (dp_to d) Account_default)))
      as (s' & -> & Hs' & Hacc & Hb); [done..|].
    eexists _, s'. split; [done|]. split; [done|]. split; [|done]. rewrite Hacc. by apply LDepositNew.
Qed.

Lemma full_exit_loop_spec l id n a us :
  full_exit_loop l id n a us =
  (set_tokens (tokens a ∖ list_to_set l) a, us ++ ((λ t, (id, RemoveToken n n t)) <$> l)).
Proof.
  revert a us. induction l as [|t l IH]; intros a us; cbn [full_exit_loop].
  - rewrite app_nil_r. f_equal. destruct a. unfold set_tokens. cbn. f_equal. set_solver.
  - rewrite IH. f_equal; [|by rewrite <- app_assoc].
    unfold remove_token, set_tokens. cbn. f_equal. set_solver.
Qed.

Lemma apply_full_exit_op_ok s e a :
  state_ok s → accounts s !! fe_account_id e = Some a →
  ∃ us s', apply_full_exit_op (mkFullExitOp e) s = Val (Ok us, s') ∧ state_ok s' ∧
    ledger_step (accounts s) (OpFullExit (mkFullExitOp e)) us (accounts s') ∧
    ps_block_number s' = ps_block_number s.
Proof.
  intros Hs Ha. unfold apply_full_exit_op. cbn [feo_priority_op]. step. unfold gets.
  rewrite get_account_lookup, Ha. step. cbn [total lift lift_outcome unwrap].
  rewrite full_exit_loop_spec. cbn [app].
  assert (tokens a ∖ list_to_set (get_tokens a) = ∅) as ->.
  { apply set_eq. intros t. rewrite elem_of_difference, elem_of_list_to_set, get_tokens_elem. set_solver. }
  step. unfold insert_account_m, update.
  destruct (insert_account_existing s (fe_account_id e) (set_tokens ∅ a) a)
    as (s' & -> & Hs' & Hacc & Hb); [done..|].
  eexists _, s'. split; [done|]. split; [done|]. split; [|done]. rewrite Hacc. by apply LFullExit.
Qed.

(** ** Refinement of the transactions *)

(** What a transaction must satisfy to be executed. *)
Definition authorised (m : AccountMap) (tx : FranklinTx) : Prop :=
  match tx with
  | TxTransfer tx => ∃ a, m !! tr_account_id tx = Some a ∧ address a = tr_from tx ∧
      pub_key_hash a ≠ PubKeyHash_default ∧
      Transfer_verify_signature tx = Val (Some (pub_key_hash a)) ∧
      tr_nonce tx = nonce a ∧ tr_token_id tx ∈ tokens a ∧ tr_token_id tx < total_tokens
  | TxWithdraw tx => ∃ a, m !! wd_account_id tx = Some a ∧ address a = wd_from tx ∧
      pub_key_hash a ≠ PubKeyHash_default ∧
      Withdraw_verify_signature tx = Val (Some (pub_key_hash a)) ∧
      wd_nonce tx = nonce a ∧ wd_token_id tx ∈ tokens a ∧ wd_token_id tx < total_tokens
  | TxClose _ => False
  | TxChangePubKey tx => ∃ a, m !! cpk_account_id tx = Some a ∧ address a = cpk_account tx ∧
      (cpk_eth_signature tx = None ∨ verify_eth_signature tx = Some (address a)) ∧
      cpk_nonce tx = nonce a
  end.

(** The account that an operation debits, and the account id that a transaction names. *)
Definition op_sender (op : FranklinOp) : option AccountId :=
  match op with
  | OpTransfer (mkTransferOp _ from _) => Some from
  | OpTransferToNew (mkTransferToNewOp _ from _) => Some from
  | OpWithdraw (mkWithdrawOp _ id) => Some id
  | OpChangePubKeyOffchain (mkChangePubKeyOp _ id) => Some id
  | _ => None
  end.
Definition tx_sender (tx : FranklinTx) : option AccountId :=
  match tx with
  | TxTransfer tx => Some (tr_account_id tx)
  | TxWithdraw tx => Some (wd_account_id tx)
  | TxClose _ => None
  | TxChangePubKey tx => Some (cpk_account_id tx)
  end.

(** What the state can be after [tx], with the result that is returned. *)
Definition tx_outcome (s : PlasmaState Tree) (tx : FranklinTx)
    (r : outcome (result OpSuccess * PlasmaState Tree)) : Prop :=
  (¬ authorised (accounts s) tx ∧ ∃ e, r = Val (Err e, s)) ∨
  (authorised (accounts s) tx ∧ ∃ res s', r = Val (Ok res, s') ∧ state_ok s' ∧
     ledger_step (accounts s) (os_executed_op res) (os_updates res) (accounts s') ∧
     op_addressed (accounts s) (os_executed_op res) ∧
     try_get_tx (os_executed_op res) = Ok tx ∧ op_sender (os_executed_op res) = tx_sender tx ∧
     chunks_for_tx tx s = Val (FranklinOp_chunks (os_executed_op res)) ∧
     ps_block_number s' = ps_block_number s).

Lemma by_address_Val s ad :
  state_ok s →
  (∃ id a, by_address ad s = Val (Ok (Some (id, a)), s) ∧ accounts s !! id = Some a ∧ address a = ad) ∨
  (by_address ad s = Val (Ok None, s) ∧ account_id_by_address s !! ad = None ∧
   ∀ id a, accounts s !! id = Some a → address a ≠ ad).
Proof.
  intros Hs. unfold by_address. pose proof (get_account_by_address_spec s ad Hs) as H.
  destruct (get_account_by_address ad s) as [[[id a]|]|]; [left|right|done].
  - exists id, a. naive_solver.
  - split; [done|]. split; [done|]. intros id a Ha Had.
    assert (account_id_by_address s !! ad = Some id) by (apply (sk_index _ Hs); eauto). congruence.
Qed.

Lemma get_free_account_id_size s :
  Z.of_nat (size (accounts s)) < 2 ^ 24 → get_free_account_id s = Z.of_nat (size (accounts s)).
Proof. intros H. unfold get_free_account_id. fold (accounts s). apply wrap_small. split; lia. Qed.

Context `{EXL : !ExternalLaws}.

Lemma apply_transfer_ok s tx :
  state_ok s → Z.of_nat (size (accounts s)) < 2 ^ 24 →
  tx_outcome s (TxTransfer tx) (execute_tx (TxTransfer tx) s).
Proof.
  intros Hs Hsize. cbn [execute_tx]. unfold apply_transfer, ensure, lift, ensure_that.
  change (wrap 16 total_tokens) with total_tokens. step.
  destruct (Z.ltb_spec (tr_token_id tx) total_tokens) as [Htok|Htok].
  2: { left. split; [|by eexists]. intros (a & ?). lia. }
  step. destruct (by_address_Val s (tr_from tx) Hs) as [(from & a & -> & Ha & Had)|(-> & _ & Hno)].
  2: { left. split; [|by eexists]. intros (a & ? & ? & _). naive_solver. }
  step. cbn [ok_or]. step. case_bool_decide as Hpk.
  2: { left. split; [|by eexists]. intros (a' & Ha' & Had' & Hpk' & _). apply Hpk'.
       by destruct (same_account s from (tr_account_id tx) a a' Hs Ha Ha') as [_ <-]; [congruence|]. }
  step. unfold total, lift, Transfer_verify_signature.
  destruct (verify_cached_Val (tr_cached_signer tx) (tr_signature tx) (Transfer_get_bytes tx)) as [signer Hsig].
  rewrite Hsig. cbn [lift_outcome]. step. case_bool_decide as Hsg.
  2: { left. split; [|by eexists]. intros (a' & Ha' & Had' & _ & Hs' & _). apply Hsg.
       destruct (same_account s from (tr_account_id tx) a a' Hs Ha Ha') as [_ ->]; [congruence|].
       unfold Transfer_verify_signature in Hs'. congruence. }
  step. destruct (Z.eqb_spec from (tr_account_id tx)) as [Hid|Hid].
  2: { left. split; [|by eexists]. intros (a' & Ha' & Had' & _). apply Hid.
       by destruct (same_account s from (tr_account_id tx) a a' Hs Ha Ha') as [-> _]; [congruence|]. }
  assert ((∃ a, accounts s !! from = Some a ∧ tr_nonce tx = nonce a ∧ tr_token_id tx ∈ tokens a) ↔
          authorised (accounts s) (TxTransfer tx)) as Hauth.
  { split.
    - intros (a' & Ha' & Hn & Ht). simplify_eq. exists a. split_and!; done.
    - intros (a' & Ha' & _ & _ & _ & Hn & Ht & _). exists a'. rewrite Hid. done. }
  step. destruct (by_address_Val s (tr_to tx) Hs) as [(to & b & Hto & Hb & Hbd)|(Hto & Hnew & Hno)]; rewrite Hto.
  - step. destruct (apply_transfer_op_ok s tx from to a b Hs Ha Hb)
      as [[Hg [e ->]]|(Hg & fee & us & s' & -> & Hs' & Hstep & Hbl)].
    { left. split; [|by eexists]. by rewrite <- Hauth. }
    right. split; [by apply Hauth|]. eexists _, s'. split; [done|].
    split; [done|]. split; [done|]. split; [by cbn [os_executed_op op_addressed]; eauto 10|]. split; [done|].
    split; [by cbn; rewrite Hid|]. split; [|done]. cbn [chunks_for_tx]. unfold by_address in Hto.
    destruct (get_account_by_address (tr_to tx) s); simplify_eq. done.
  - step. unfold gets. rewrite get_free_account_id_size by done. step.
    destruct (apply_transfer_to_new_op_ok s tx from (Z.of_nat (size (accounts s))) a)
      as [[Hg [e ->]]|(Hg & fee & us & s' & -> & Hs' & Hstep & Hbl)]; [done..| |].
    { left. split; [|by eexists]. by rewrite <- Hauth. }
    right. split; [by apply Hauth|]. eexists _, s'. split; [done|].
    split; [done|]. split; [done|]. split; [by cbn [os_executed_op op_addressed]; eauto 10|]. split; [done|].
    split; [by cbn; rewrite Hid|]. split; [|done]. cbn [chunks_for_tx]. unfold by_address in Hto.
    destruct (get_account_by_address (tr_to tx) s); simplify_eq. done.
Qed.

Lemma apply_withdraw_ok s tx :
  state_ok s → tx_outcome s (TxWithdraw tx) (execute_tx (TxWithdraw tx) s).
Proof.
  intros Hs. cbn [execute_tx]. unfold apply_withdraw, ensure, lift, ensure_that.
  change (wrap 16 total_tokens) with total_tokens. step.
  destruct (Z.ltb_spec (wd_token_id tx) total_tokens) as [Htok|Htok].
  2: { left. split; [|by eexists]. intros (a & ?). lia. }
  step. destruct (by_address_Val s (wd_from tx) Hs) as [(id & a & -> & Ha & Had)|(-> & _ & Hno)].
  2: { left. split; [|by eexists]. intros (a & ? & ? & _). naive_solver. }
  step. cbn [ok_or]. step. case_bool_decide as Hpk.
  2: { left. split; [|by eexists]. intros (a' & Ha' & Had' & Hpk' & _). apply Hpk'.
       by destruct (same_account s id (wd_account_id tx) a a' Hs Ha Ha') as [_ <-]; [congruence|]. }
  step. unfold total, lift, Withdraw_verify_signature.
  destruct (verify_cached_Val (wd_cached_signer tx) (wd_signature tx) (Withdraw_get_bytes tx)) as [signer Hsig].
  rewrite Hsig. cbn [lift_outcome]. step. case_bool_decide as Hsg.
  2: { left. split; [|by eexists]. intros (a' & Ha' & Had' & _ & Hs' & _). apply Hsg.
       destruct (same_account s id (wd_account_id tx) a a' Hs Ha Ha') as [_ ->]; [congruence|].
       unfold Withdraw_verify_signature in Hs'. congruence. }
  step. destruct (Z.eqb_spec id (wd_account_id tx)) as [Hid|Hid].
  2: { left. split; [|by eexists]. intros (a' & Ha' & Had' & _). apply Hid.
       by destruct (same_account s id (wd_account_id tx) a a' Hs Ha Ha') as [-> _]; [congruence|]. }
  assert (op_guard (accounts s) (OpWithdraw (mkWithdrawOp tx id)) ↔
          authorised (accounts s) (TxWithdraw tx)) as Hauth.
  { split.
    - intros (a' & Ha' & Hn & Ht). simplify_eq. exists a. split_and!; done.
    - intros (a' & Ha' & _ & _ & _ & Hn & Ht & _). exists a'. rewrite Hid. done. }
  step. destruct (apply_withdraw_op_ok s tx id a Hs Ha)
    as [[Hg [e ->]]|(Hg & fee & us & s' & -> & Hs' & Hstep & Hbl)].
  { left. split; [|by eexists]. by rewrite <- Hauth. }
  right. split; [by apply Hauth|]. eexists _, s'. split; [done|].
  split; [done|]. split; [done|]. split; [by cbn [os_executed_op op_addressed]; eauto 10|]. split; [done|]. split; [by cbn; rewrite Hid|done].
Qed.

Lemma apply_change_pubkey_ok s tx :
  state_ok s → tx_outcome s (TxChangePubKey tx) (execute_tx (TxChangePubKey tx) s).
Proof.
  intros Hs. cbn [execute_tx]. unfold apply_change_pubkey, ensure, lift, ensure_that.
  step. destruct (by_address_Val s (cpk_account tx) Hs) as [(id & a & -> & Ha & Had)|(-> & _ & Hno)].
  2: { left. split; [|by eexists]. intros (a & ? & ? & _). naive_solver. }
  step. cbn [ok_or]. step.
  destruct (bool_decide (cpk_eth_signature tx = None) || _) eqn:Hsg.
  2: { left. split; [|by eexists]. intros (a' & Ha' & Had' & Hs' & _).
       destruct (same_account s id (cpk_account_id tx) a a' Hs Ha Ha') as [_ ->]; [congruence|].
       apply orb_false_iff in Hsg as [H1%bool_decide_eq_false H2%bool_decide_eq_false]. naive_solver. }
  apply orb_true_iff in Hsg. rewrite !bool_decide_eq_true in Hsg.
  step. destruct (Z.eqb_spec id (cpk_account_id tx)) as [Hid|Hid].
  2: { left. split; [|by eexists]. intros (a' & Ha' & Had' & _). apply Hid.
       by destruct (same_account s id (cpk_account_id tx) a a' Hs Ha Ha') as [-> _]; [congruence|]. }
  assert (op_guard (accounts s) (OpChangePubKeyOffchain (mkChangePubKeyOp tx id)) ↔
          authorised (accounts s) (TxChangePubKey tx)) as Hauth.
  { split.
    - intros (a' & Ha' & Hn). simplify_eq. exists a. split_and!; done.
    - intros (a' & Ha' & _ & _ & Hn). exists a'. rewrite Hid. done. }
  step. destruct (apply_change_pubkey_op_ok s tx id a Hs Ha)
    as [[Hg [e ->]]|(Hg & fee & us & s' & -> & Hs' & Hstep & Hbl)].
  { left. split; [|by eexists]. by rewrite <- Hauth. }
  right. split; [by apply Hauth|]. eexists _, s'. split; [done|].
  split; [done|]. split; [done|]. split; [by cbn [os_executed_op op_addressed]; eauto 10|]. split; [done|]. split; [by cbn; rewrite Hid|done].
Qed.

Lemma execute_tx_ok s tx :
  state_ok s → Z.of_nat (size (accounts s)) < 2 ^ 24 → tx_outcome s tx (execute_tx tx s).
Proof.
  intros Hs Hsize. destruct tx as [tx|tx|tx|tx].
  - by apply apply_transfer_ok.
  - by apply apply_withdraw_ok.
  - left. split; [by intros []|]. by eexists.
  - by apply apply_change_pubkey_ok.
Qed.

(** C3: Transactions refine the ledger: in a consistent state that can still take an
    account, executing a transaction never panics. It succeeds exactly when the
    transaction is authorised (the sender's account exists under the given id, is not
    locked, signed the transaction with its key, the nonce is its nonce and it owns
    the token; or, for a new public key, the Ethereum signature is that of the
    account or is checked on the contract); then the state makes one step of the
    ledger with the reported operation and updates, which names the accounts of the
    transaction's addresses, keeps its invariant, and the operation has the number of chunks that [chunks_for_tx] announced. Otherwise it
    returns an error and the state is exactly what it was. *)
Theorem execute_tx_refines s tx :
  state_ok s → Z.of_nat (size (accounts s)) < 2 ^ 24 →
  (¬ authorised (accounts s) tx ∧ ∃ e, execute_tx tx s = Val (Err e, s)) ∨
  (authorised (accounts s) tx ∧ ∃ res s', execute_tx tx s = Val (Ok res, s') ∧ state_ok s' ∧
     ledger_step (accounts s) (os_executed_op res) (os_updates res) (accounts s') ∧
     op_addressed (accounts s) (os_executed_op res) ∧
     try_get_tx (os_executed_op res) = Ok tx ∧ op_sender (os_executed_op res) = tx_sender tx ∧
     chunks_for_tx tx s = Val (FranklinOp_chunks (os_executed_op res)) ∧
     ps_block_number s' = ps_block_number s).
Proof. apply execute_tx_ok. Qed.

(** What a priority operation needs: a full exit names an existing account, and a
    deposit finds its account or room for a new one. *)
Definition priority_op_enabled (s : PlasmaState Tree) (op : FranklinPriorityOp) : Prop :=
  match op with
  | PDeposit d => (∃ id a, accounts s !! id = Some a ∧ address a = dp_to d) ∨
                  Z.of_nat (size (accounts s)) < 2 ^ 24
  | PFullExit e => is_Some (accounts s !! fe_account_id e)
  end.

Lemma execute_priority_op_ok s op :
  state_ok s → priority_op_enabled s op →
  ∃ res s', execute_priority_op op s = Val (Ok res, s') ∧ state_ok s' ∧
    ledger_step (accounts s) (os_executed_op res) (os_updates res) (accounts s') ∧
    op_addressed (accounts s) (os_executed_op res) ∧
    try_get_priority_op (os_executed_op res) = Ok op ∧
    FranklinOp_chunks (os_executed_op res) = FranklinPriorityOp_chunks op ∧
    ps_block_number s' = ps_block_number s.
Proof.
  intros Hs Hen. destruct op as [d|e]; cbn [execute_priority_op].
  - unfold apply_deposit. step.
    destruct (by_address_Val s (dp_to d) Hs) as [(id & a & -> & Ha & Had)|(-> & Hnew & Hno)].
    + step. cbn [mret exec_ret]. step.
      destruct (apply_deposit_op_ok s d id Hs) as (us & s' & -> & ? & ? & ?); [left; by eexists|].
      eexists _, s'. split; [done|]. split_and!; try done. left. eauto.
    + destruct Hen as [(id & a & Ha & Had)|Hsize]; [by destruct (Hno id a)|].
      step. unfold gets. rewrite get_free_account_id_size by done. step.
      destruct (apply_deposit_op_ok s d (Z.of_nat (size (accounts s))) Hs) as (us & s' & -> & ? & ? & ?);
        [by right|]. eexists _, s'. split; [done|]. split_and!; try done. by right.
  - destruct Hen as [a Ha]. unfold apply_full_exit. step.
    destruct (apply_full_exit_op_ok s e a Hs Ha) as (us & s' & -> & ? & ? & ?).
    eexists _, s'. split; [done|]. done.
Qed.

(** C4: Priority operations refine the ledger: a deposit whose account exists or still
    finds a free id, and a full exit of an existing account, are always executed and
    make one step of the ledger; a full exit of an account that does not exist
    unwinds the state keeper instead of being skipped. *)
Theorem execute_priority_op_refines s op :
  state_ok s →
  (priority_op_enabled s op →
   ∃ res s', execute_priority_op op s = Val (Ok res, s') ∧ state_ok s' ∧
     ledger_step (accounts s) (os_executed_op res) (os_updates res) (accounts s') ∧
     op_addressed (accounts s) (os_executed_op res) ∧
     try_get_priority_op (os_executed_op res) = Ok op ∧
     FranklinOp_chunks (os_executed_op res) = FranklinPriorityOp_chunks op ∧
     ps_block_number s' = ps_block_number s) ∧
  (∀ e, op = PFullExit e → accounts s !! fe_account_id e = None →
     execute_priority_op op s = Panic "Full exit account not found").
Proof.
  intros Hs. split; [by apply execute_priority_op_ok|]. intros e -> Hnone.
  cbn [execute_priority_op]. unfold apply_full_exit, apply_full_exit_op, gets. cbn [feo_priority_op].
  unfold mbind, exec_bind. by rewrite get_account_lookup, Hnone.
Qed.

(** ** The initial state *)

(** The invariant without the density of ids, which holds while accounts are loaded. *)
Definition index_ok (s : PlasmaState Tree) : Prop :=
  tree_ok account_tree_depth (token_tree s) ∧
  ∀ ad id, account_id_by_address s !! ad = Some id ↔ ∃ a, accounts s !! id = Some a ∧ address a = ad.

(** An account map of a database: dense ids below the capacity, distinct addresses. *)
Definition account_map_ok (m : AccountMap) : Prop :=
  (∀ id, is_Some (m !! id) ↔ 0 ≤ id < Z.of_nat (size m)) ∧ Z.of_nat (size m) ≤ 2 ^ 24 ∧
  (∀ id id' a a', m !! id = Some a → m !! id' = Some a' → address a = address a' → id = id').

Lemma insert_accounts_ok l s :
  index_ok s → NoDup l.*1 → Forall (λ p, leaf_ok account_tree_depth p.1) l →
  (∀ id a id' a', ((id, a) ∈ l ∨ accounts s !! id = Some a) → ((id', a') ∈ l ∨ accounts s !! id' = Some a') →
     address a = address a' → id = id') →
  (∀ id a, (id, a) ∈ l → accounts s !! id = None) →
  ∃ s', insert_accounts l s = Val s' ∧ index_ok s' ∧ accounts s' = list_to_map l ∪ accounts s ∧
    ps_block_number s' = ps_block_number s.
Proof.
  revert s. induction l as [|[id a] l IH]; intros s [Ht Hidx] Hnd Hrange Huniq Hfree.
  { exists s. split; [done|]. split; [done|]. split; [|done]. cbn. by rewrite map_empty_union. }
  cbn [insert_accounts]. unfold insert_account. inversion Hrange as [|?? Hid Hrange']; subst.
  rewrite fmap_cons in Hnd. apply NoDup_cons in Hnd as [Hnin Hnd]. cbn [fst] in *.
  destruct (tree_insert_ok account_tree_depth (token_tree s) id a Ht Hid) as (t' & -> & Hok & Hit).
  cbn [mbind outcome_bind]. fold (accounts s) in Hit.
  set (s1 := mkPlasmaState t' _ _). assert (accounts s1 = <[id := a]> (accounts s)) as Hacc1 by done.
  assert (accounts s !! id = None) as Hnone by (apply (Hfree id a); set_solver).
  destruct (IH s1) as (s' & Hrun & Hok' & Hacc & Hb); [|done|done|..].
  - split; [done|]. intros ad id'. rewrite Hacc1. subst s1. cbn [account_id_by_address].
    destruct (decide (ad = address a)) as [->|Hne].
    + rewrite lookup_insert_eq. split.
      * intros [= <-]. exists a. by rewrite lookup_insert_eq.
      * intros (a' & Ha' & E). f_equal. destruct (decide (id = id')) as [|Hne']; [done|].
        rewrite lookup_insert_ne in Ha' by done. apply (Huniq id a id' a'); [left; set_solver|by right|done].
    + rewrite lookup_insert_ne, Hidx by done. destruct (decide (id = id')) as [<-|Hne'].
      * rewrite lookup_insert_eq, Hnone. naive_solver.
      * by rewrite lookup_insert_ne.
  - intros i b i' b'. rewrite Hacc1, !lookup_insert_Some.
    intros [?|[[<- <-]|[_ ?]]] [?|[[<- <-]|[_ ?]]] ?; (eapply Huniq; [..|done]); set_solver.
  - intros i b Hin. rewrite Hacc1, lookup_insert_ne; [apply (Hfree i b); set_solver|].
    intros <-. apply Hnin. apply list_elem_of_fmap. by exists (id, b).
  - exists s'. split; [done|]. split; [done|]. split; [|done]. rewrite Hacc, Hacc1. cbn [list_to_map foldr].
    rewrite <- insert_union_r; [by rewrite insert_union_l|]. by apply not_elem_of_list_to_map_1.
Qed.

Lemma from_acc_map_ok m b :
  (∃ bits, get_bits_le (default_value : Account) = Val bits) → account_map_ok m →
  ∃ s, from_acc_map m b = Val s ∧ state_ok s ∧ accounts s = m ∧ ps_block_number s = b.
Proof.
  intros Hbits (Hdense & Hcap & Huniq). unfold from_acc_map, PlasmaState_empty.
  cbv zeta.
  destruct (tree_new_ok (Tree := Tree) account_tree_depth) as (t & -> & Ht & Hi); [cbv; lia|done|].
  cbn [mbind outcome_bind token_tree account_id_by_address].
  set (s0 := mkPlasmaState t ∅ b). assert (accounts s0 = ∅) as Hacc0 by done.
  destruct (insert_accounts_ok (map_to_list m) s0) as (s & Hrun & [Hok Hidx] & Hacc & Hb).
  - split; [done|]. intros ad id. rewrite Hacc0. subst s0. cbn [account_id_by_address].
    rewrite !lookup_empty. naive_solver.
  - apply NoDup_fst_map_to_list.
  - apply Forall_forall. intros [id a] Hin. apply elem_of_map_to_list in Hin. cbn.
    assert (0 ≤ id < Z.of_nat (size m)) by (apply Hdense; by eexists). split; [lia|].
    change (2 ^ Z.of_nat account_tree_depth) with (2 ^ 24). lia.
  - intros id a id' a'. rewrite Hacc0, !elem_of_map_to_list, !lookup_empty.
    intros [?|?] [?|?] ?; [by eapply Huniq|done..].
  - intros. by rewrite Hacc0, lookup_empty.
  - exists s. split; [done|]. rewrite Hacc0, map_union_empty, list_to_map_to_list in Hacc.
    split; [|done]. split; [done|done|]. intros id. rewrite Hacc. apply Hdense.
Qed.

(** Restarting from the database: for an account map with dense ids and distinct
    addresses, [from_acc_map] builds a consistent state that holds exactly these
    accounts and the given block number. *)
Theorem from_acc_map_correct m b :
  account_map_ok m →
  ∃ s, from_acc_map m b = Val s ∧ state_ok s ∧ accounts s = m ∧ ps_block_number s = b.
Proof.
  apply from_acc_map_ok. destruct (account_bits_spec Account_default) as [[_ Hb]|[Hno _]].
  - intros t. cbn. set_solver.
  - by eexists.
  - destruct Hno. intros t. cbn. set_solver.
Qed.
End Proofs.
