(* ===== verification/Ledger.v ===== *)
(** * Safety of the ledger

    What the steps of the ledger guarantee to the owners of tokens and to the
    database: the reported updates reproduce the new state (with one
    exception), they can be rolled back, a token has one owner, tokens move
    only when their owner has signed, and a transaction is executed once. *)

From S2P Require Import Prelude Bytes Params Externals Primitives Amounts Account Tx Operations Merkle.
From S2P Require Import AccountLeaf PlasmaState PlasmaProofs.
Open Scope Z_scope.

Section Ledger.
  Context `{EX : External}.
  Implicit Types (m : AccountMap) (op : FranklinOp) (us : AccountUpdates).

Definition is_self_transfer (op : FranklinOp) : Prop :=
  match op with OpTransfer (mkTransferOp _ from to) => from = to | _ => False end.

Lemma apply_update_insert m id u a :
  Account_apply_update (m !! id) u = Some a → apply_update_to_map m (id, u) = <[id := a]> m.
Proof.
  intros H. unfold apply_update_to_map. rewrite H. by rewrite insert_delete_eq.
Qed.

Lemma increment_nonce_ne a : fits 32 (nonce a) → nonce (increment_nonce a) ≠ nonce a.
Proof.
  intros [H0 H1]. cbn [increment_nonce set_nonce nonce]. unfold wrap.
  destruct (decide (nonce a + 1 = 2 ^ 32)) as [E|]; [rewrite E, Z.mod_same by lia; lia|].
  rewrite Z.mod_small by lia. lia.
Qed.

(** ** The updates reproduce the step *)

Lemma full_exit_replay m id a l :
  m !! id = Some a →
  apply_updates m ((λ t, (id, RemoveToken (nonce a) (nonce a) t)) <$> l) =
  <[id := set_tokens (tokens a ∖ list_to_set l) a]> m.
Proof.
  revert m a. induction l as [|t l IH]; intros m a Ha.
  - cbn. rewrite insert_id; [done|]. rewrite Ha. f_equal. destruct a. unfold set_tokens. cbn. f_equal. set_solver.
  - rewrite fmap_cons, apply_updates_cons.
    rewrite (apply_update_insert _ _ _ (set_nonce (nonce a) (remove_token t a))) by (by rewrite Ha).
    rewrite (IH _ (set_nonce (nonce a) (remove_token t a))) by apply lookup_insert_eq.
    rewrite insert_insert_eq. f_equal. unfold set_tokens, remove_token, set_nonce. cbn. f_equal. set_solver.
Qed.

Lemma set_tokens_all a : tokens a ∖ list_to_set (get_tokens a) = ∅.
Proof.
  apply set_eq. intros t. rewrite elem_of_difference, elem_of_list_to_set, get_tokens_elem. set_solver.
Qed.

Lemma ledger_step_replay m op us m' :
  ledger_step m op us m' → ¬ is_self_transfer op → apply_updates m us = m'.
Proof.
  intros Hstep Hself. destruct Hstep as [d id a Ha|d id Hn|tx from to a Ha Hn Hno Ht
    |tx from to a b Hne Ha Hb Hno Ht|tx from a|tx id a Ha Hno Ht|tx id a Ha Hno|e a Ha]; [..| |].
  - cbn [apply_updates foldl]. apply apply_update_insert. by rewrite Ha.
  - cbn [apply_updates foldl]. rewrite (apply_update_insert m id _ (default_with_address (dp_to d)))
      by (by rewrite Hn).
    erewrite apply_update_insert by (by rewrite lookup_insert_eq). by rewrite insert_insert_eq.
  - cbn [apply_updates foldl]. assert (from ≠ to) as Hne by (intros ->; congruence).
    rewrite (apply_update_insert m to _ (default_with_address (tr_to tx))) by (by rewrite Hn).
    erewrite (apply_update_insert _ from) by (by rewrite lookup_insert_ne, Ha by done).
    erewrite (apply_update_insert _ to) by (by rewrite lookup_insert_ne, lookup_insert_eq by done).
    rewrite (insert_insert_ne m) by done. by rewrite insert_insert_eq.
  - cbn [apply_updates foldl]. erewrite (apply_update_insert _ from) by (by rewrite Ha).
    erewrite (apply_update_insert _ to) by (by rewrite lookup_insert_ne, Hb by done). done.
  - by destruct Hself.
  - cbn [apply_updates foldl]. by erewrite apply_update_insert by (by rewrite Ha).
  - cbn [apply_updates foldl]. by erewrite apply_update_insert by (by rewrite Ha).
  - by rewrite full_exit_replay, set_tokens_all by done.
Qed.

(** ** Ownership *)

Definition owns m id t : Prop := ∃ a, m !! id = Some a ∧ t ∈ tokens a.
Definition owned m t : Prop := ∃ id, owns m id t.
Definition single_owner m : Prop := ∀ t id id', owns m id t → owns m id' t → id = id'.

Lemma owns_insert m id a j t :
  owns (<[id := a]> m) j t ↔ (j = id ∧ t ∈ tokens a) ∨ (j ≠ id ∧ owns m j t).
Proof.
  unfold owns. destruct (decide (id = j)) as [<-|Hne].
  - rewrite lookup_insert_eq. naive_solver.
  - rewrite lookup_insert_ne by done. naive_solver.
Qed.

Lemma owns_lookup m id a t : m !! id = Some a → owns m id t ↔ t ∈ tokens a.
Proof. unfold owns. naive_solver. Qed.

(** A deposit brings a token that nobody owns yet (the contract holds it until then). *)
Definition deposits_fresh m op : Prop :=
  match op with OpDeposit (mkDepositOp d _) => ¬ owned m (dp_token_id d) | _ => True end.

(** How a step changes the owner of each token. *)
Lemma ledger_step_owns m op us m' :
  ledger_step m op us m' →
  ∀ j t, owns m' j t ↔
    match op with
    | OpDeposit (mkDepositOp d id) => owns m j t ∨ (j = id ∧ t = dp_token_id d)
    | OpTransferToNew (mkTransferToNewOp tx from to) =>
        (owns m j t ∧ ¬ (j = from ∧ t = tr_token_id tx)) ∨ (j = to ∧ t = tr_token_id tx)
    | OpTransfer (mkTransferOp tx from to) =>
        (owns m j t ∧ ¬ (j = from ∧ t = tr_token_id tx)) ∨ (j = to ∧ t = tr_token_id tx)
    | OpWithdraw (mkWithdrawOp tx id) => owns m j t ∧ ¬ (j = id ∧ t = wd_token_id tx)
    | OpFullExit (mkFullExitOp e) => owns m j t ∧ j ≠ fe_account_id e
    | _ => owns m j t
    end.
Proof.
  intros Hstep j t. destruct Hstep as [d id a Ha|d id Hn|tx from to a Ha Hn Hno Ht
    |tx from to a b Hne Ha Hb Hno Ht|tx from a Ha Hno Ht|tx id a Ha Hno Ht|tx id a Ha Hno|e a Ha].
  - rewrite owns_insert. cbn [add_token set_tokens tokens]. rewrite elem_of_union, elem_of_singleton.
    pose proof (owns_lookup m id a t Ha). destruct (decide (j = id)) as [->|]; naive_solver.
  - rewrite owns_insert. cbn [add_token set_tokens tokens default_with_address set_address Account_default].
    assert (¬ owns m id t) by (unfold owns; naive_solver).
    destruct (decide (j = id)) as [->|]; set_solver.
  - assert (from ≠ to) as Hne by (intros ->; congruence). assert (¬ owns m to t) by (unfold owns; naive_solver).
    rewrite !owns_insert.
    cbn [add_token remove_token increment_nonce set_nonce set_tokens tokens default_with_address set_address Account_default].
    pose proof (owns_lookup m from a t Ha). rewrite elem_of_difference, elem_of_union, !elem_of_singleton.
    destruct (decide (j = to)) as [->|]; [set_solver|]. destruct (decide (j = from)) as [->|]; set_solver.
  - rewrite !owns_insert. cbn [add_token remove_token increment_nonce set_nonce set_tokens tokens].
    pose proof (owns_lookup m from a t Ha). pose proof (owns_lookup m to b t Hb).
    rewrite elem_of_difference, elem_of_union, !elem_of_singleton.
    destruct (decide (j = to)) as [->|]; [naive_solver|]. destruct (decide (j = from)) as [->|]; naive_solver.
  - rewrite owns_insert. cbn [increment_nonce set_nonce tokens]. pose proof (owns_lookup m from a t Ha).
    destruct (decide (j = from)) as [->|]; [|naive_solver]. destruct (decide (t = tr_token_id tx)); naive_solver.
  - rewrite owns_insert. cbn [remove_token increment_nonce set_nonce set_tokens tokens].
    pose proof (owns_lookup m id a t Ha). rewrite elem_of_difference, elem_of_singleton.
    destruct (decide (j = id)) as [->|]; naive_solver.
  - rewrite owns_insert. cbn [set_pub_key_hash increment_nonce set_nonce set_tokens tokens].
    pose proof (owns_lookup m id a t Ha). destruct (decide (j = id)) as [->|]; naive_solver.
  - rewrite owns_insert. cbn [set_tokens tokens]. set_solver.
Qed.

Lemma ledger_step_sender_owns m op us m' :
  ledger_step m op us m' →
  match op with
  | OpTransferToNew (mkTransferToNewOp tx from _) | OpTransfer (mkTransferOp tx from _) =>
      owns m from (tr_token_id tx)
  | _ => True
  end.
Proof. destruct 1; unfold owns; try done; eauto. Qed.

Lemma ledger_step_single_owner m op us m' :
  single_owner m → deposits_fresh m op → ledger_step m op us m' → single_owner m'.
Proof.
  intros Hone Hfresh Hstep t id id'. pose proof (ledger_step_sender_owns m op us m' Hstep) as Hsend.
  rewrite !(ledger_step_owns m op us m' Hstep).
  destruct op as [|[d i]|[tx from to]|[tx i]|[tx i]|[tx from to]|[e]|[tx i]]; cbn [deposits_fresh] in Hfresh.
  - apply Hone.
  - unfold owned in Hfresh. intros [H1|[-> ->]] [H2|[-> ?]]; [by eapply Hone|naive_solver..].
  - intros [[H1 N1]|[-> ->]] [[H2 N2]|[-> ?]]; subst; try done; [by eapply Hone|..].
    + destruct N1. split; [|done]. by eapply Hone.
    + destruct N2. split; [|done]. by eapply Hone.
  - intros [H1 _] [H2 _]. by eapply Hone.
  - apply Hone.
  - intros [[H1 N1]|[-> ->]] [[H2 N2]|[-> ?]]; subst; try done; [by eapply Hone|..].
    + destruct N1. split; [|done]. by eapply Hone.
    + destruct N2. split; [|done]. by eapply Hone.
  - intros [H1 _] [H2 _]. by eapply Hone.
  - apply Hone.
Qed.

(** ** Rolling back *)

Lemma full_exit_updates_valid m id a l :
  m !! id = Some a → NoDup l → (∀ t, t ∈ l → t ∈ tokens a) →
  updates_valid m ((λ t, (id, RemoveToken (nonce a) (nonce a) t)) <$> l).
Proof.
  intros Ha Hnd. revert m a Ha. induction Hnd as [|t l Hnin Hnd IH]; intros m a Ha Hsub; [done|].
  rewrite fmap_cons. cbn [updates_valid]. split.
  - rewrite Ha. cbn [update_valid]. set_solver.
  - rewrite (apply_update_insert _ _ _ (set_nonce (nonce a) (remove_token t a))) by (by rewrite Ha).
    apply (IH _ (set_nonce (nonce a) (remove_token t a))); [apply lookup_insert_eq|].
    intros t' Ht'. cbn [set_nonce remove_token set_tokens tokens]. set_solver.
Qed.

Lemma ledger_step_updates_valid m op us m' :
  single_owner m → deposits_fresh m op → ledger_step m op us m' → updates_valid m us.
Proof.
  intros Hone Hfresh Hstep. destruct Hstep as [d id a Ha|d id Hn|tx from to a Ha Hn Hno Ht
    |tx from to a b Hne Ha Hb Hno Ht|tx from a|tx id a Ha Hno Ht|tx id a Ha Hno|e a Ha];
    cbn [updates_valid deposits_fresh] in *.
  - rewrite Ha. cbn. split; [|done]. split; [done|]. intros Ht. apply Hfresh. exists id, a. done.
  - rewrite Hn. split; [done|]. split; [|done].
    erewrite apply_update_insert by (by rewrite Hn). rewrite lookup_insert_eq. cbn. set_solver.
  - assert (from ≠ to) as Hne by (intros ->; congruence). rewrite Hn. split; [done|].
    erewrite (apply_update_insert m to) by (by rewrite Hn). rewrite lookup_insert_ne, Ha by done.
    split; [done|]. split; [|done].
    erewrite (apply_update_insert _ from) by (by rewrite lookup_insert_ne, Ha by done).
    rewrite lookup_insert_ne, lookup_insert_eq by done. cbn. set_solver.
  - rewrite Ha. split; [done|]. split; [|done]. erewrite (apply_update_insert _ from) by (by rewrite Ha).
    rewrite lookup_insert_ne, Hb by done. cbn. split; [done|]. intros Hbt. apply Hne.
    apply (Hone (tr_token_id tx)); eexists; done.
  - done.
  - by rewrite Ha.
  - by rewrite Ha.
  - apply full_exit_updates_valid; [done|apply get_tokens_NoDup|]. intros t. by rewrite get_tokens_elem.
Qed.
End Ledger.

Section Safety.
  Context `{EX : External} `{EXL : !ExternalLaws} {Tree : Type} `{ST : !SparseTree Tree Account Fr}.
  Context `{SL : !SparseTreeLaws Tree Account Fr}.
  Implicit Types (s : PlasmaState Tree).

(** A state that can execute transactions. *)
Definition ready s : Prop := state_ok s ∧ Z.of_nat (size (accounts s)) < 2 ^ 24.

Lemma execute_tx_Ok s tx res s' :
  ready s → execute_tx tx s = Val (Ok res, s') →
  authorised (accounts s) tx ∧ state_ok s' ∧
  ledger_step (accounts s) (os_executed_op res) (os_updates res) (accounts s') ∧
  try_get_tx (os_executed_op res) = Ok tx ∧ op_sender (os_executed_op res) = tx_sender tx.
Proof.
  intros [Hs Hsz] Hrun. destruct (execute_tx_ok s tx Hs Hsz) as [[_ [e He]]|(Ha & r & s1 & Hr & ? & ? & _ & ? & ? & _)].
  - congruence.
  - rewrite Hrun in Hr. injection Hr as -> ->. done.
Qed.

(** The nonces of all accounts are 32-bit integers. *)
Definition nonces_ok (m : AccountMap) : Prop := ∀ id a, m !! id = Some a → fits 32 (nonce a).

(** The database can follow the state: the updates that an executed transaction
    reports turn the old accounts into the new ones, unless the transaction is a
    transfer of an account to itself. That one increments the nonce but reports no
    update, so whoever replays the updates is left with the old nonce. *)
Theorem execute_tx_updates_replay s tx res s' :
  ready s → nonces_ok (accounts s) → execute_tx tx s = Val (Ok res, s') →
  apply_updates (accounts s) (os_updates res) = accounts s' ↔ ¬ is_self_transfer (os_executed_op res).
Proof.
  intros Hs Hnon Hrun. destruct (execute_tx_Ok s tx res s' Hs Hrun) as (_ & _ & Hstep & _ & _). split.
  - intros Heq Hself. destruct Hstep as [| | |tx0 from to a b Hne|tx0 from a Ha Hno Ht| | |]; try done.
    apply (increment_nonce_ne a); [by eapply Hnon|].
    assert (accounts s !! from = Some (increment_nonce a)) as E.
    { cbn in Heq. rewrite Heq. apply lookup_insert_eq. }
    rewrite Ha in E. injection E as E. by rewrite <- E.
  - by apply ledger_step_replay.
Qed.

(** A block can be rolled back: when every token has at most one owner, the reversed
    updates of an executed transaction lead from the state that its updates produce
    back to the state before it. *)
Theorem execute_tx_updates_rollback s tx res s' :
  ready s → single_owner (accounts s) → execute_tx tx s = Val (Ok res, s') →
  apply_updates (apply_updates (accounts s) (os_updates res)) (reverse_updates (os_updates res)) =
  accounts s.
Proof.
  intros Hs Hone Hrun. destruct (execute_tx_Ok s tx res s' Hs Hrun) as (_ & _ & Hstep & Htx & _).
  apply reverse_updates_restore. eapply ledger_step_updates_valid; [done| |done].
  by destruct (os_executed_op res) as [|[]|[]|[]|[]|[]|[]|[]].
Qed.

(** C14: A token has one owner: executing transactions, full exits, and deposits of tokens
    that nobody in the rollup owns never lets two accounts own the same token. *)
Theorem single_owner_preserved s s' :
  ready s → single_owner (accounts s) →
  (∀ tx r, execute_tx tx s = Val (r, s') → single_owner (accounts s')) ∧
  (∀ op r, priority_op_enabled s op →
     (∀ d, op = PDeposit d → ¬ owned (accounts s) (dp_token_id d)) →
     execute_priority_op op s = Val (r, s') → single_owner (accounts s')).
Proof.
  intros Hs Hone. split.
  - intros tx [res|e] Hrun.
    + destruct (execute_tx_Ok s tx res s' Hs Hrun) as (_ & _ & Hstep & Htx & _).
      eapply ledger_step_single_owner; [done| |done].
      by destruct (os_executed_op res) as [|[]|[]|[]|[]|[]|[]|[]].
    + destruct (execute_tx_ok s tx (proj1 Hs) (proj2 Hs)) as [[_ [e' He]]|(_ & ? & ? & ? & _)]; [|congruence].
      rewrite Hrun in He. by injection He as _ ->.
  - intros op r Hen Hfresh Hrun.
    destruct (execute_priority_op_ok s op (proj1 Hs) Hen) as (res & s1 & Hr & _ & Hstep & _ & Hop & _).
    rewrite Hrun in Hr. injection Hr as -> ->. eapply ledger_step_single_owner; [done| |done].
    destruct (os_executed_op res) as [|[d id]|[]|[]|[]|[]|[]|[]]; try done.
    cbn in Hop. injection Hop as <-. by apply Hfresh.
Qed.

Lemma token_lost_by_tx s tx res s' id a t :
  ready s → execute_tx tx s = Val (Ok res, s') →
  accounts s !! id = Some a → t ∈ tokens a → ¬ owns (accounts s') id t →
  pub_key_hash a ≠ PubKeyHash_default ∧
  match tx with
  | TxTransfer tx => tr_account_id tx = id ∧ tr_from tx = address a ∧ tr_token_id tx = t ∧
      tr_nonce tx = nonce a ∧ Transfer_verify_signature tx = Val (Some (pub_key_hash a))
  | TxWithdraw tx => wd_account_id tx = id ∧ wd_from tx = address a ∧ wd_token_id tx = t ∧
      wd_nonce tx = nonce a ∧ Withdraw_verify_signature tx = Val (Some (pub_key_hash a))
  | _ => False
  end.
Proof.
  intros Hs Hrun Ha Ht Hlost. destruct (execute_tx_Ok s tx res s' Hs Hrun) as (Hauth & _ & Hstep & Htx & Hsender).
  assert (owns (accounts s) id t) as Howns by (by exists a).
  rewrite (ledger_step_owns _ _ _ _ Hstep) in Hlost.
  destruct (os_executed_op res) as [|[d i]|[tx0 from to]|[tx0 i]|[tx0 i]|[tx0 from to]|[e]|[tx0 i]];
    try done; cbn in Htx; injection Htx as <-; cbn [authorised] in Hauth; cbn in Hsender; simplify_eq.
  - destruct (decide (id = tr_account_id tx0 ∧ t = tr_token_id tx0)) as [[-> ->]|]; [|naive_solver].
    destruct Hauth as (a' & Ha' & ? & ? & ? & ? & _). simplify_eq. done.
  - destruct (decide (id = wd_account_id tx0 ∧ t = wd_token_id tx0)) as [[-> ->]|]; [|naive_solver].
    destruct Hauth as (a' & Ha' & ? & ? & ? & ? & _). simplify_eq. done.
  - destruct (decide (id = tr_account_id tx0 ∧ t = tr_token_id tx0)) as [[-> ->]|]; [|naive_solver].
    destruct Hauth as (a' & Ha' & ? & ? & ? & ? & _). simplify_eq. done.
Qed.

Lemma token_lost_by_priority_op s op res s' id a t :
  ready s → execute_priority_op op s = Val (Ok res, s') →
  accounts s !! id = Some a → t ∈ tokens a → ¬ owns (accounts s') id t →
  ∃ e, op = PFullExit e ∧ fe_account_id e = id.
Proof.
  intros [Hs Hroom] Hrun Ha Ht Hlost. assert (owns (accounts s) id t) as Howns by (by exists a).
  assert (priority_op_enabled s op) as Hen.
  { destruct op as [d|e]; [by right|]. cbn. destruct (accounts s !! fe_account_id e) eqn:E; [done|]. exfalso. revert Hrun.
    cbn [execute_priority_op]. unfold apply_full_exit, apply_full_exit_op, gets, mbind, exec_bind. cbn [feo_priority_op].
    by rewrite get_account_lookup, E. }
  destruct (execute_priority_op_ok s op Hs Hen) as (res' & s1 & Hr & _ & Hstep & _ & Hop & _).
  rewrite Hrun in Hr. injection Hr as <- <-. rewrite (ledger_step_owns _ _ _ _ Hstep) in Hlost.
  destruct (os_executed_op res) as [|[d i]|[tx0 from to]|[tx0 i]|[tx0 i]|[tx0 from to]|[e]|[tx0 i]]; try done; cbn in Hop; injection Hop as <-.
  - naive_solver.
  - exists e. split; [done|]. destruct (decide (fe_account_id e = id)); [done|]. naive_solver.
Qed.

(** C11: How a token leaves an account: if an account owned a token before a transaction was executed and does not own it
    afterwards, then the transaction is a transfer or a withdrawal of exactly that token, it names that account as the
    sender, and its signature verifies for the account's (non-default) public key hash and its current nonce; if it was
    a priority operation, it is a full exit of that account, whoever has requested it. *)
Theorem how_tokens_leave s s' id a t :
  ready s → accounts s !! id = Some a → t ∈ tokens a → ¬ owns (accounts s') id t →
  (∀ tx res, execute_tx tx s = Val (Ok res, s') →
     pub_key_hash a ≠ PubKeyHash_default ∧
     match tx with
     | TxTransfer tx => tr_account_id tx = id ∧ tr_from tx = address a ∧ tr_token_id tx = t ∧
         tr_nonce tx = nonce a ∧ Transfer_verify_signature tx = Val (Some (pub_key_hash a))
     | TxWithdraw tx => wd_account_id tx = id ∧ wd_from tx = address a ∧ wd_token_id tx = t ∧
         wd_nonce tx = nonce a ∧ Withdraw_verify_signature tx = Val (Some (pub_key_hash a))
     | _ => False
     end) ∧
  (∀ op res, execute_priority_op op s = Val (Ok res, s') → ∃ e, op = PFullExit e ∧ fe_account_id e = id).
Proof.
  intros Hs Ha Ht Hlost. split; intros ?? Hrun.
  - by eapply token_lost_by_tx.
  - by eapply token_lost_by_priority_op.
Qed.

(** A transaction is executed once: right after it was executed, the same transaction
    is refused and leaves the state unchanged, because the nonce of its sender has
    moved on. *)
Theorem execute_tx_no_replay s tx res s' :
  ready s → nonces_ok (accounts s) → execute_tx tx s = Val (Ok res, s') →
  Z.of_nat (size (accounts s')) < 2 ^ 24 →
  ∃ e, execute_tx tx s' = Val (Err e, s').
Proof.
  intros Hs Hnon Hrun Hsz. destruct (execute_tx_Ok s tx res s' Hs Hrun) as (Hauth & Hs' & Hstep & Htx & Hsender).
  destruct (execute_tx_ok s' tx Hs' Hsz) as [[_ ?]|[Hauth' _]]; [done|exfalso].
  destruct Hstep as [| |tx0 from to a Ha Hn Hno Ht
    |tx0 from to a b Hne Ha Hb Hno Ht|tx0 from a Ha Hno Ht|tx0 id a Ha Hno Ht|tx0 id a Ha Hno|]; try done;
    cbn in Htx, Hsender; injection Htx as <-; cbn in Hsender; injection Hsender as ->;
    destruct Hauth' as (a' & Ha' & Hrest); pose proof (increment_nonce_ne a (Hnon _ _ Ha)) as Hinc.
  - rewrite lookup_insert_ne, lookup_insert_eq in Ha' by (intros ->; congruence). injection Ha' as <-.
    cbn in Hrest, Hinc. destruct_and! Hrest. congruence.
  - rewrite lookup_insert_ne, lookup_insert_eq in Ha' by done. injection Ha' as <-.
    cbn in Hrest, Hinc. destruct_and! Hrest. congruence.
  - rewrite lookup_insert_eq in Ha'. injection Ha' as <-. cbn in Hrest, Hinc. destruct_and! Hrest. congruence.
  - rewrite lookup_insert_eq in Ha'. injection Ha' as <-. cbn in Hrest, Hinc. destruct_and! Hrest. congruence.
  - rewrite lookup_insert_eq in Ha'. injection Ha' as <-. cbn in Hrest, Hinc. destruct_and! Hrest. congruence.
Qed.
End Safety.
