(* ===== verification/StateKeeper.v ===== *)
(** * The state keeper (core/server/src/state_keeper.rs)

    The state keeper is the only writer of the rollup state.  It executes the
    operations of proposed miniblocks, collects them in a pending block, seals
    the pending block when an operation does not fit any more (or after too
    many miniblocks), and sends every sealed block to the committer.

    The two channels it writes to are modelled as the lists of all messages
    sent so far.  [utc_now n] is the [n]-th reading of the clock.  The loops
    over the queues take fuel, because a transaction that does not fit is put
    back after sealing the block; [execute_tx_batch] uses two rounds per
    operation, which StateKeeperProofs.v shows to be enough when the largest
    block size holds any single operation. *)

From S2P Require Import Prelude Bytes Params Externals Primitives Amounts Account Tx Operations Block Merkle.
From S2P Require Import AccountLeaf PlasmaState.
Open Scope Z_scope.

Section StateKeeper.
  Context `{EX : External} {Tree : Type} `{ST : !SparseTree Tree Account Fr}.
  Context (utc_now : nat → Z).

Record ProposedBlock : Type := mkProposedBlock {
  pb_priority_ops : list PriorityOp;
  pb_txs : list FranklinTx;
}.

Record CommitRequest : Type := mkCommitRequest {
  cr_block : Block;
  cr_accounts_updated : AccountUpdates;
}.

Record ExecutedOpsNotify : Type := mkExecutedOpsNotify {
  eon_operations : list ExecutedOperations;
  eon_block_number : BlockNumber;
}.

Inductive ExecutedOpId : Type :=
| IdTransaction (hash : bytes)
| IdPriorityOp (serial_id : Z).

Inductive StateKeeperRequest : Type :=
| GetAccount (addr : Address)
| GetLastUnprocessedPriorityOp
| ExecuteMiniBlock (proposed_block : ProposedBlock)
| GetExecutedInPendingBlock (op_id : ExecutedOpId)
| SealBlock.

(** What is sent back over the [oneshot] channel of a request. *)
Inductive StateKeeperReply : Type :=
| ReplyAccount (r : option (AccountId * Account))
| ReplyPriorityOp (n : Z)
| ReplyExecuted (r : option (BlockNumber * bool))
| ReplyNone.

Definition MAX_PENDING_BLOCK_ITERATIONS : nat := 5 * 10.

Record PendingBlock : Type := mkPendingBlock {
  success_operations : list ExecutedOperations;
  failed_txs : list ExecutedTx;
  account_updates : AccountUpdates;
  chunks_left : nat;
  pending_op_block_index : Z;
  unprocessed_priority_op_before : Z;
  pending_block_iteration : nat;
}.

Definition PendingBlock_new (unprocessed_priority_op_before : Z) (chunks_left : nat) : PendingBlock := {|
  success_operations := [];
  failed_txs := [];
  account_updates := [];
  chunks_left := chunks_left;
  pending_op_block_index := 0;
  unprocessed_priority_op_before := unprocessed_priority_op_before;
  pending_block_iteration := 0;
|}.

Record PlasmaStateKeeper : Type := mkKeeper {
  sk_state : PlasmaState Tree;
  fee_account_id : AccountId;
  current_unprocessed_priority_op : Z;
  pending_block : PendingBlock;
  tx_for_commitments : list CommitRequest;
  executed_tx_notify_sender : list ExecutedOpsNotify;
  available_block_chunk_sizes : list nat;
  clock_readings : nat;
}.

(** ** Initial parameters *)

Record PlasmaStateInitParams : Type := mkInitParams {
  ip_tree : Tree;
  acc_id_by_addr : gmap Address AccountId;
  last_block_number : BlockNumber;
  ip_unprocessed_priority_op : Z;
}.

Definition InitParams_new : outcome PlasmaStateInitParams :=
  tree ← tree_new account_tree_depth;
  Val (mkInitParams tree ∅ 0 0).

Definition InitParams_insert_account (id : Z) (acc : Account) (self : PlasmaStateInitParams) :
    outcome PlasmaStateInitParams :=
  let acc_id_by_addr := <[address acc := id]> (acc_id_by_addr self) in
  tree ← tree_insert (ip_tree self) id acc;
  Val (mkInitParams tree acc_id_by_addr (last_block_number self) (ip_unprocessed_priority_op self)).

Definition InitParams_remove_account (id : Z) (self : PlasmaStateInitParams) :
    outcome (option Account * PlasmaStateInitParams) :=
  r ← tree_remove (ip_tree self) id;
  let acc_id_by_addr :=
    match r.1 with
    | Some acc => delete (address acc) (acc_id_by_addr self)
    | None => acc_id_by_addr self
    end in
  Val (r.1, mkInitParams r.2 acc_id_by_addr (last_block_number self) (ip_unprocessed_priority_op self)).

Fixpoint InitParams_insert_accounts (accounts : list (Z * Account)) (self : PlasmaStateInitParams) :
    outcome PlasmaStateInitParams :=
  match accounts with
  | [] => Val self
  | (id, acc) :: accounts =>
      self ← InitParams_insert_account id acc self;
      InitParams_insert_accounts accounts self
  end.

(** The answers of the database are arguments: [committed_ops] gives the committed
    block of a number, if there is one. *)
Definition unprocessed_priority_op_id (committed_ops : BlockNumber → result (option Block))
    (block_number : BlockNumber) : result Z :=
  match committed_ops block_number with
  | Ok (Some block) => Ok (processed_priority_ops block).2
  | Ok None => Ok 0
  | Err e => Err (String.append "could not convert storage_op: " e)
  end.

Definition load_from_db (committed_state : result (BlockNumber * AccountMap))
    (committed_ops : BlockNumber → result (option Block)) : Exec PlasmaStateInitParams unit :=
  loaded ← lift (Val match committed_state with
                     | Ok r => Ok r
                     | Err e => Err (String.append "couldn't load committed state: " e)
                     end);
  let '(block_number, accounts) := loaded in
  _ ← update (InitParams_insert_accounts (map_to_list accounts));
  _ ← update (λ self, Val (mkInitParams (ip_tree self) (acc_id_by_addr self) block_number
                             (ip_unprocessed_priority_op self)));
  op_id ← lift (Val (unprocessed_priority_op_id committed_ops block_number));
  update (λ self, Val (mkInitParams (ip_tree self) (acc_id_by_addr self) (last_block_number self) op_id)).

(** The loop of [load_state_diff]. *)
Fixpoint apply_state_diff (updates : AccountUpdates) (self : PlasmaStateInitParams) :
    outcome PlasmaStateInitParams :=
  match updates with
  | [] => Val self
  | (id, update) :: updates =>
      r ← InitParams_remove_account id self;
      self ← match Account_apply_update r.1 update with
             | Some account => InitParams_insert_account id account r.2
             | None => Val r.2
             end;
      apply_state_diff updates self
  end.

Definition load_state_diff (state_diff : result (option (BlockNumber * AccountUpdates)))
    (committed_ops : BlockNumber → result (option Block)) : Exec PlasmaStateInitParams unit :=
  state_diff ← lift (Val match state_diff with
                         | Ok r => Ok r
                         | Err e => Err (String.append "failed to load committed state: " e)
                         end);
  match state_diff with
  | None => mret tt
  | Some (block_number, updates) =>
      _ ← update (apply_state_diff updates);
      op_id ← lift (Val (unprocessed_priority_op_id committed_ops block_number));
      update (λ self, Val (mkInitParams (ip_tree self) (acc_id_by_addr self) block_number op_id))
  end.

(** ** Construction *)

(** [iter().max()] *)
Definition max_size (sizes : list nat) : option nat :=
  match sizes with [] => None | _ => Some (foldr max 0%nat sizes) end.

Definition StateKeeper_new (initial_state : PlasmaStateInitParams) (fee_account_address : Address)
    (available_block_chunk_sizes : list nat) : outcome PlasmaStateKeeper :=
  _ ← assert_that (bool_decide (available_block_chunk_sizes ≠ [])) "no block sizes";
  let sorted := merge_sort le available_block_chunk_sizes in
  _ ← assert_that (bool_decide (sorted = available_block_chunk_sizes)) "block sizes are not sorted";
  let state := PlasmaState_new (ip_tree initial_state) (acc_id_by_addr initial_state)
                 (wrap 32 (last_block_number initial_state + 1)) in
  fee_account ← get_account_by_address fee_account_address state;
  fee_account ← unwrap "Fee account should be present in the account tree" fee_account;
  max_block_size ← unwrap "called `Option::unwrap()` on a `None` value"
                     (max_size available_block_chunk_sizes);
  r ← root_hash state;
  Val {|
    sk_state := r.2;
    fee_account_id := fee_account.1;
    current_unprocessed_priority_op := ip_unprocessed_priority_op initial_state;
    pending_block := PendingBlock_new (ip_unprocessed_priority_op initial_state) max_block_size;
    tx_for_commitments := [];
    executed_tx_notify_sender := [];
    available_block_chunk_sizes := available_block_chunk_sizes;
    clock_readings := 0;
  |}.

(** The updates written to the database for block 0, and the state and root hash of the
    genesis block; [committed_state] is what the database holds. *)
Definition create_genesis_block (committed_state : BlockNumber * AccountMap)
    (fee_account_address : Address) : outcome (AccountUpdates * PlasmaState Tree * Fr) :=
  let '(last_committed, accounts) := committed_state in
  _ ← assert_that ((last_committed =? 0) && bool_decide (accounts = ∅)) "db should be empty";
  let fee_account := set_address fee_account_address Account_default in
  let db_account_update := Create fee_account_address (nonce fee_account) in
  let accounts := <[0 := fee_account]> accounts in
  state ← from_acc_map accounts (wrap 32 (last_committed + 1));
  r ← root_hash state;
  Val ([(0, db_account_update)], r.2, r.1).

(** ** Field assignments *)

Definition set_pending (p : PendingBlock) (k : PlasmaStateKeeper) : PlasmaStateKeeper := {|
  sk_state := sk_state k; fee_account_id := fee_account_id k;
  current_unprocessed_priority_op := current_unprocessed_priority_op k;
  pending_block := p; tx_for_commitments := tx_for_commitments k;
  executed_tx_notify_sender := executed_tx_notify_sender k;
  available_block_chunk_sizes := available_block_chunk_sizes k; clock_readings := clock_readings k |}.
Definition set_sk_state (s : PlasmaState Tree) (k : PlasmaStateKeeper) : PlasmaStateKeeper := {|
  sk_state := s; fee_account_id := fee_account_id k;
  current_unprocessed_priority_op := current_unprocessed_priority_op k;
  pending_block := pending_block k; tx_for_commitments := tx_for_commitments k;
  executed_tx_notify_sender := executed_tx_notify_sender k;
  available_block_chunk_sizes := available_block_chunk_sizes k; clock_readings := clock_readings k |}.
Definition set_unprocessed (n : Z) (k : PlasmaStateKeeper) : PlasmaStateKeeper := {|
  sk_state := sk_state k; fee_account_id := fee_account_id k;
  current_unprocessed_priority_op := n;
  pending_block := pending_block k; tx_for_commitments := tx_for_commitments k;
  executed_tx_notify_sender := executed_tx_notify_sender k;
  available_block_chunk_sizes := available_block_chunk_sizes k; clock_readings := clock_readings k |}.
Definition tick (k : PlasmaStateKeeper) : PlasmaStateKeeper := {|
  sk_state := sk_state k; fee_account_id := fee_account_id k;
  current_unprocessed_priority_op := current_unprocessed_priority_op k;
  pending_block := pending_block k; tx_for_commitments := tx_for_commitments k;
  executed_tx_notify_sender := executed_tx_notify_sender k;
  available_block_chunk_sizes := available_block_chunk_sizes k; clock_readings := S (clock_readings k) |}.
Definition send_commit (c : CommitRequest) (k : PlasmaStateKeeper) : PlasmaStateKeeper := {|
  sk_state := sk_state k; fee_account_id := fee_account_id k;
  current_unprocessed_priority_op := current_unprocessed_priority_op k;
  pending_block := pending_block k; tx_for_commitments := tx_for_commitments k ++ [c];
  executed_tx_notify_sender := executed_tx_notify_sender k;
  available_block_chunk_sizes := available_block_chunk_sizes k; clock_readings := clock_readings k |}.
Definition send_notify (n : ExecutedOpsNotify) (k : PlasmaStateKeeper) : PlasmaStateKeeper := {|
  sk_state := sk_state k; fee_account_id := fee_account_id k;
  current_unprocessed_priority_op := current_unprocessed_priority_op k;
  pending_block := pending_block k; tx_for_commitments := tx_for_commitments k;
  executed_tx_notify_sender := executed_tx_notify_sender k ++ [n];
  available_block_chunk_sizes := available_block_chunk_sizes k; clock_readings := clock_readings k |}.

(** The pending block takes a successful operation. *)
Definition push_success (op : ExecutedOperations) (updates : AccountUpdates) (chunks_needed : nat)
    (p : PendingBlock) : PendingBlock := {|
  success_operations := success_operations p ++ [op];
  failed_txs := failed_txs p;
  account_updates := account_updates p ++ updates;
  chunks_left := (chunks_left p - chunks_needed)%nat;
  pending_op_block_index := wrap 32 (pending_op_block_index p + 1);
  unprocessed_priority_op_before := unprocessed_priority_op_before p;
  pending_block_iteration := pending_block_iteration p |}.
Definition push_failed (tx : ExecutedTx) (p : PendingBlock) : PendingBlock := {|
  success_operations := success_operations p;
  failed_txs := failed_txs p ++ [tx];
  account_updates := account_updates p;
  chunks_left := chunks_left p;
  pending_op_block_index := pending_op_block_index p;
  unprocessed_priority_op_before := unprocessed_priority_op_before p;
  pending_block_iteration := pending_block_iteration p |}.
Definition next_iteration (p : PendingBlock) : PendingBlock := {|
  success_operations := success_operations p;
  failed_txs := failed_txs p;
  account_updates := account_updates p;
  chunks_left := chunks_left p;
  pending_op_block_index := pending_op_block_index p;
  unprocessed_priority_op_before := unprocessed_priority_op_before p;
  pending_block_iteration := S (pending_block_iteration p) |}.

(** ** Executing operations

    [inr op] is [Err(op)]: there is no space in the current block. *)

(** The fee of an executed operation is collected at once. *)
Definition collect_op_fee (fee : option CollectedFee) (fee_account_id : AccountId)
    (s : PlasmaState Tree) : outcome (AccountUpdates * PlasmaState Tree) :=
  match fee with
  | Some fee =>
      match collect_fee [fee] fee_account_id s with
      | Val (Ok fee_updates, s) => Val (fee_updates, s)
      | Val (Err e, _) => Panic e
      | Panic msg => Panic msg
      end
  | None => Val ([], s)
  end.

Definition apply_priority_op (priority_op : PriorityOp) (self : PlasmaStateKeeper) :
    outcome ((ExecutedOperations + PriorityOp) * PlasmaStateKeeper) :=
  let chunks_needed := FranklinPriorityOp_chunks (po_data priority_op) in
  if (chunks_left (pending_block self) <? chunks_needed)%nat then Val (inr priority_op, self)
  else
    match execute_priority_op (po_data priority_op) (sk_state self) with
    | Val (Ok (mkOpSuccess fee updates executed_op), state) =>
        r ← collect_op_fee fee (fee_account_id self) state;
        let '(fee_updates, state) := r in
        let block_index := pending_op_block_index (pending_block self) in
        let exec_result := ExPriorityOp (mkExecutedPriorityOp priority_op executed_op block_index) in
        let pending := push_success exec_result (updates ++ fee_updates) chunks_needed (pending_block self) in
        let next := wrap 64 (current_unprocessed_priority_op self + 1) in
        Val (inl exec_result, set_unprocessed next (set_pending pending (set_sk_state state self)))
    | Val (Err e, _) => Panic e
    | Panic msg => Panic msg
    end.

Definition apply_tx (tx : FranklinTx) (self : PlasmaStateKeeper) :
    outcome ((ExecutedOperations + FranklinTx) * PlasmaStateKeeper) :=
  chunks_needed ← chunks_for_tx tx (sk_state self);
  if (chunks_left (pending_block self) <? chunks_needed)%nat then Val (inr tx, self)
  else
    let now := utc_now (clock_readings self) in
    match execute_tx tx (sk_state self) with
    | Val (Ok (mkOpSuccess fee updates executed_op), state) =>
        r ← collect_op_fee fee (fee_account_id self) state;
        let '(fee_updates, state) := r in
        let block_index := pending_op_block_index (pending_block self) in
        let exec_result := ExTx (mkExecutedTx tx true (Some executed_op) None (Some block_index) now) in
        let pending := push_success exec_result (updates ++ fee_updates) chunks_needed (pending_block self) in
        Val (inl exec_result, tick (set_pending pending (set_sk_state state self)))
    | Val (Err e, state) =>
        let failed_tx := mkExecutedTx tx false None (Some e) None now in
        let pending := push_failed failed_tx (pending_block self) in
        Val (inl (ExTx failed_tx), tick (set_pending pending (set_sk_state state self)))
    | Panic msg => Panic msg
    end.

(** ** Sealing *)

Definition seal_pending_block (self : PlasmaStateKeeper) : outcome PlasmaStateKeeper :=
  max_block_size ← unwrap "failed to get max block size" (last (available_block_chunk_sizes self));
  let pending := pending_block self in
  let self := set_pending (PendingBlock_new (current_unprocessed_priority_op self) max_block_size) self in
  let block_transactions := success_operations pending ++ (ExTx <$> failed_txs pending) in
  r ← root_hash (sk_state self);
  let '(new_root, state) := r in
  block ← new_from_availabe_block_sizes (ps_block_number state) new_root (fee_account_id self)
            block_transactions
            (unprocessed_priority_op_before pending, current_unprocessed_priority_op self)
            (available_block_chunk_sizes self);
  let commit_request := mkCommitRequest block (account_updates pending) in
  let state := mkPlasmaState (token_tree state) (account_id_by_address state)
                 (wrap 32 (ps_block_number state + 1)) in
  Val (send_commit commit_request (set_sk_state state self)).

(** Sends and clears the list; the list is a variable of the caller. *)
Definition notify_executed_ops (executed_ops : list ExecutedOperations) (self : PlasmaStateKeeper) :
    list ExecutedOperations * PlasmaStateKeeper :=
  ([], send_notify (mkExecutedOpsNotify executed_ops (ps_block_number (sk_state self))) self).

(** The loop over a queue, for either kind of operation. *)
Fixpoint queue_loop {Op : Type}
    (apply : Op → PlasmaStateKeeper → outcome ((ExecutedOperations + Op) * PlasmaStateKeeper))
    (fuel : nat) (queue : list Op) (executed_ops : list ExecutedOperations) (self : PlasmaStateKeeper) :
    outcome (list ExecutedOperations * PlasmaStateKeeper) :=
  match queue with
  | [] => Val (executed_ops, self)
  | op :: rest =>
      match fuel with
      | O => Panic "out of fuel"
      | S fuel =>
          r ← apply op self;
          match r with
          | (inl exec_op, self) => queue_loop apply fuel rest (executed_ops ++ [exec_op]) self
          | (inr op, self) =>
              let '(executed_ops, self) := notify_executed_ops executed_ops self in
              self ← seal_pending_block self;
              queue_loop apply fuel (op :: rest) executed_ops self
          end
      end
  end.

Definition execute_tx_batch (proposed_block : ProposedBlock) (self : PlasmaStateKeeper) :
    outcome PlasmaStateKeeper :=
  r ← queue_loop apply_priority_op (2 * length (pb_priority_ops proposed_block))
        (pb_priority_ops proposed_block) [] self;
  let '(executed_ops, self) := r in
  r ← queue_loop apply_tx (2 * length (pb_txs proposed_block)) (pb_txs proposed_block) executed_ops self;
  let '(executed_ops, self) := r in
  r ← (if bool_decide (success_operations (pending_block self) = []) then Val (executed_ops, self)
       else
         let self := set_pending (next_iteration (pending_block self)) self in
         if (MAX_PENDING_BLOCK_ITERATIONS <? pending_block_iteration (pending_block self))%nat then
           let '(executed_ops, self) := notify_executed_ops executed_ops self in
           self ← seal_pending_block self;
           Val (executed_ops, self)
         else Val (executed_ops, self));
  let '(executed_ops, self) := r in
  Val (notify_executed_ops executed_ops self).2.

(** ** Requests *)

Definition check_executed_in_pending_block (op_id : ExecutedOpId) (self : PlasmaStateKeeper) :
    option (BlockNumber * bool) :=
  let current_block_number := ps_block_number (sk_state self) in
  let success := success_operations (pending_block self) in
  match op_id with
  | IdTransaction hash =>
      let is_tx op := match op with ExTx exec_tx => bool_decide (FranklinTx_hash (et_tx exec_tx) = hash)
                                  | _ => false end in
      if existsb is_tx success then Some (current_block_number, true)
      else if existsb (λ failed_tx, bool_decide (FranklinTx_hash (et_tx failed_tx) = hash))
                (failed_txs (pending_block self))
      then Some (current_block_number, false)
      else None
  | IdPriorityOp serial_id =>
      let is_op op := match op with ExPriorityOp exec_op => po_serial_id (epo_priority_op exec_op) =? serial_id
                                  | _ => false end in
      if existsb is_op success then Some (current_block_number, true) else None
  end.

Definition keeper_account (address : Address) (self : PlasmaStateKeeper) :
    outcome (option (AccountId * Account)) :=
  get_account_by_address address (sk_state self).

(** One round of the loop of [run]. *)
Definition handle_request (req : StateKeeperRequest) (self : PlasmaStateKeeper) :
    outcome (StateKeeperReply * PlasmaStateKeeper) :=
  match req with
  | GetAccount addr => r ← keeper_account addr self; Val (ReplyAccount r, self)
  | GetLastUnprocessedPriorityOp => Val (ReplyPriorityOp (current_unprocessed_priority_op self), self)
  | ExecuteMiniBlock proposed_block => self ← execute_tx_batch proposed_block self; Val (ReplyNone, self)
  | GetExecutedInPendingBlock op_id =>
      Val (ReplyExecuted (check_executed_in_pending_block op_id self), self)
  | SealBlock => self ← seal_pending_block self; Val (ReplyNone, self)
  end.

Fixpoint run (requests : list StateKeeperRequest) (self : PlasmaStateKeeper) :
    outcome (list StateKeeperReply * PlasmaStateKeeper) :=
  match requests with
  | [] => Val ([], self)
  | req :: requests =>
      r ← handle_request req self;
      rest ← run requests r.2;
      Val (r.1 :: rest.1, rest.2)
  end.
End StateKeeper.
Arguments PlasmaStateKeeper {EX} Tree : assert.
Arguments PlasmaStateInitParams Tree : clear implicits.
