(* ===== verification/StateKeeperProofs.v ===== *)
(** * Correctness of the state keeper

    [chain] is the specification of the output: consecutive blocks, each of
    which is a run of the ledger from where the previous block ended, with the
    updates of that run, the root hash of the resulting accounts, the interval
    of processed priority operations, and the smallest size that holds its operations.
    The invariant [keeper_ok] says that the blocks sent so far are such a
    chain and that the pending block continues it.  Every request keeps it. *)

From S2P Require Import Prelude Bytes Params Externals Primitives Amounts Account Tx Operations Block Merkle.
From S2P Require Import AccountLeaf PlasmaState PlasmaProofs Ledger StateKeeper.
Open Scope Z_scope.

(** ** The specification *)
Section Chain.
  Context `{EX : External}.
  Implicit Types (m : AccountMap) (op : FranklinOp) (us : AccountUpdates).

(** An operation that brings in no token outside the token tree. *)
Definition op_token_ok op : Prop :=
  match op with OpDeposit (mkDepositOp d _) => token_ok (dp_token_id d) | _ => True end.

(** A run of the ledger over a list of operations, with all updates. *)
Inductive ledger_run m : list FranklinOp → AccountUpdates → AccountMap → Prop :=
| run_nil : ledger_run m [] [] m
| run_snoc ops us m1 op us1 m2 :
    ledger_run m ops us m1 → ledger_step m1 op us1 m2 → op_addressed m1 op → op_token_ok op →
    ledger_run m (ops ++ [op]) (us ++ us1) m2.

(** The number of priority operations in a list of operations. *)
Definition is_priority_op op : bool :=
  match op with OpDeposit _ | OpFullExit _ => true | _ => false end.
Definition count_priority (ops : list FranklinOp) : Z := Z.of_nat (length (List.filter is_priority_op ops)).

Definition executed_index (e : ExecutedOperations) : option Z :=
  match e with ExTx t => et_block_index t | ExPriorityOp p => Some (epo_block_index p) end.

(** Executed operations come first and carry their position. *)
Definition block_indexed (l : list ExecutedOperations) : Prop :=
  ∀ i e, l !! i = Some e → is_Some (get_executed_op e) → executed_index e = Some (wrap 32 (Z.of_nat i)).

(** What a block of the chain promises. *)
Record block_ok (sizes : list nat) (n p : Z) m (c : CommitRequest) m' : Prop := {
  bo_run : ledger_run m (block_ops (cr_block c)) (cr_accounts_updated c) m';
  bo_number : block_number (cr_block c) = n;
  bo_root : new_root_hash (cr_block c) = reference_root account_tree_depth m';
  bo_priority : processed_priority_ops (cr_block c) =
    (p, wrap 64 (p + count_priority (block_ops (cr_block c))));
  bo_fits : (chunks_used (cr_block c) ≤ block_chunks_size (cr_block c))%nat;
  bo_size : smallest_block_size (cr_block c) sizes = Val (block_chunks_size (cr_block c));
  bo_indexed : block_indexed (block_transactions (cr_block c));
}.

Inductive chain (sizes : list nat) (n0 p0 : Z) m0 : list CommitRequest → Z → Z → AccountMap → Prop :=
| chain_start : chain sizes n0 p0 m0 [] n0 p0 m0
| chain_seal cs n p m c m' :
    chain sizes n0 p0 m0 cs n p m → block_ok sizes n p m c m' →
    chain sizes n0 p0 m0 (cs ++ [c]) (wrap 32 (n + 1)) (processed_priority_ops (cr_block c)).2 m'.

(** ** Facts about runs *)

Definition leaves_ok m : Prop := ∀ id a, m !! id = Some a → tokens_ok a.

Lemma tokens_ok_add t a : token_ok t → tokens_ok a → tokens_ok (add_token t a).
Proof. intros Ht Ha u. cbn. intros [->%elem_of_singleton|?]%elem_of_union; [done|by apply Ha]. Qed.
Lemma tokens_ok_default ad : tokens_ok (default_with_address ad).
Proof. intros u. cbn. set_solver. Qed.
Lemma tokens_ok_sub a b : tokens b ⊆ tokens a → tokens_ok a → tokens_ok b.
Proof. intros Hsub Ha u Hu. by apply Ha, Hsub. Qed.

Lemma leaves_ok_insert m id a : tokens_ok a → leaves_ok m → leaves_ok (<[id := a]> m).
Proof. intros Ha Hm j b [[<- <-]|[_ ?]]%lookup_insert_Some; [done|by eapply Hm]. Qed.

Lemma leaves_ok_step m op us m' :
  leaves_ok m → op_token_ok op → ledger_step m op us m' → leaves_ok m'.
Proof.
  intros Hm Hop Hstep. destruct Hstep; cbn [op_token_ok] in Hop;
    repeat match goal with
    | |- leaves_ok (<[_ := _]> _) => apply leaves_ok_insert
    | H : tr_token_id ?tx ∈ tokens ?a |- tokens_ok (add_token (tr_token_id ?tx) _) =>
        apply tokens_ok_add; [eapply (Hm _ a); eassumption|]
    | |- tokens_ok (add_token _ _) => apply tokens_ok_add; [done|]
    | |- tokens_ok (default_with_address _) => apply tokens_ok_default
    | |- leaves_ok _ => done
    end.
  all: match goal with
       | H : _ !! _ = Some ?a |- tokens_ok ?b =>
           lazymatch b with context [a] => apply (tokens_ok_sub a); [cbn; set_solver|by eapply Hm] end
       end.
Qed.

(** The keys only grow, by at most one. *)
Definition grows (d : nat) m m' : Prop :=
  (∀ id, is_Some (m !! id) → is_Some (m' !! id)) ∧ (size m' ≤ size m + d)%nat.

Lemma grows_refl m : grows 0 m m.
Proof. split; [done|lia]. Qed.
Lemma grows_trans d d' m m' m'' : grows d m m' → grows d' m' m'' → grows (d + d') m m''.
Proof. intros [H1 ?] [H2 ?]. split; [auto|lia]. Qed.
Lemma grows_insert_old d m m' id a : grows d m m' → is_Some (m' !! id) → grows d m (<[id := a]> m').
Proof.
  intros [H Hs] Hid. split.
  - intros j Hj. rewrite lookup_insert_is_Some'. right. by apply H.
  - by rewrite map_size_insert_Some.
Qed.
Lemma grows_insert m m' d id a : grows d m m' → grows (S d) m (<[id := a]> m').
Proof.
  intros [H Hs]. split.
  - intros j Hj. rewrite lookup_insert_is_Some'. right. by apply H.
  - rewrite map_size_insert. destruct (m' !! id); cbn; lia.
Qed.

Lemma ledger_step_grows m op us m' : ledger_step m op us m' → grows 1 m m'.
Proof.
  intros Hstep. assert (∀ n, grows 0 m n → grows 1 m n) as Hw by (intros n [? ?]; split; [done|lia]).
  destruct Hstep; try (apply grows_insert; by apply grows_refl).
  - apply grows_insert, grows_insert_old; [apply grows_refl|by eexists].
  - apply Hw, grows_insert_old; [apply grows_insert_old; [apply grows_refl|by eexists]|].
    rewrite lookup_insert_ne by done. by eexists.
Qed.
End Chain.

(** ** The invariant of the keeper *)
Section Keeper.
  Context `{EX : External} `{EXL : !ExternalLaws} {Tree : Type} `{ST : !SparseTree Tree Account Fr}.
  Context `{SL : !SparseTreeLaws Tree Account Fr}.
  Context (utc_now : nat → Z).
  (** The block number, the priority operation and the accounts from which the keeper
      started, and the block sizes. *)
  Context (n0 p0 : Z) (m0 : AccountMap) (sizes : list nat).
  Implicit Types (k : PlasmaStateKeeper Tree).

Definition keeper_accounts k : AccountMap := accounts (sk_state k).
Definition pending_txs k : list ExecutedOperations :=
  success_operations (pending_block k) ++ (ExTx <$> failed_txs (pending_block k)).
Definition pending_ops k : list FranklinOp := omap get_executed_op (success_operations (pending_block k)).

(** The largest operation takes six chunks. *)
Definition MAX_OP_CHUNKS : nat := 6.

(** A notification names the block that contains its operations. *)
Definition notified_in k (n : ExecutedOpsNotify) : Prop :=
  (∃ c, c ∈ tx_for_commitments k ∧ block_number (cr_block c) = eon_block_number n ∧
        eon_operations n ⊆ block_transactions (cr_block c)) ∨
  (eon_block_number n = ps_block_number (sk_state k) ∧ eon_operations n ⊆ pending_txs k).

Record keeper_ok k : Prop := {
  ko_state : state_ok (sk_state k);
  ko_leaves : leaves_ok (keeper_accounts k);
  ko_fee : is_Some (keeper_accounts k !! fee_account_id k);
  ko_sizes : ∃ max, last (available_block_chunk_sizes k) = Some max ∧ (MAX_OP_CHUNKS ≤ max)%nat ∧
    (chunks_left (pending_block k) + sum_chunks (pending_ops k) = max)%nat;
  ko_failed : Forall (λ t, et_op t = None) (failed_txs (pending_block k));
  ko_success : Forall (λ e, is_Some (get_executed_op e)) (success_operations (pending_block k));
  ko_index : pending_op_block_index (pending_block k) =
    wrap 32 (Z.of_nat (length (success_operations (pending_block k))));
  ko_indexed : block_indexed (success_operations (pending_block k));
  ko_priority : current_unprocessed_priority_op k =
    wrap 64 (unprocessed_priority_op_before (pending_block k) + count_priority (pending_ops k));
  ko_chain : ∃ m,
    chain (available_block_chunk_sizes k) n0 p0 m0 (tx_for_commitments k)
      (ps_block_number (sk_state k)) (unprocessed_priority_op_before (pending_block k)) m ∧
    ledger_run m (pending_ops k) (account_updates (pending_block k)) (keeper_accounts k);
  ko_notified : Forall (notified_in k) (executed_tx_notify_sender k);
  ko_available : available_block_chunk_sizes k = sizes;
}.

Lemma count_priority_app l l' : count_priority (l ++ l') = count_priority l + count_priority l'.
Proof. unfold count_priority. rewrite List.filter_app, length_app. lia. Qed.

Lemma failed_no_ops l : Forall (λ t, et_op t = None) l → omap get_executed_op (ExTx <$> l) = [].
Proof. induction 1 as [|t l Ht _ IH]; [done|]. cbn. by rewrite Ht. Qed.

Lemma leaf_bits_defined m : leaves_ok m → ∀ id (a : Account), m !! id = Some a → ∃ b, get_bits_le a = Val b.
Proof.
  intros Hm id a Ha. destruct (account_bits_spec a) as [[_ ->]|[Hno _]]; [|by eexists|].
  - intros t Ht. by apply (Hm _ _ Ha).
  - destruct Hno. by eapply Hm.
Qed.

Lemma root_hash_ok s :
  state_ok s → leaves_ok (accounts s) →
  ∃ s', root_hash s = Val (reference_root account_tree_depth (accounts s), s') ∧ state_ok s' ∧
    accounts s' = accounts s ∧ ps_block_number s' = ps_block_number s.
Proof.
  intros Hs Hl. unfold root_hash.
  destruct (tree_root_hash_ok account_tree_depth (token_tree s)) as (t' & -> & Ht & Hi);
    [apply Hs|by apply leaf_bits_defined|].
  cbn [mbind outcome_bind fst snd]. eexists. split; [done|].
  assert (accounts (mkPlasmaState t' (account_id_by_address s) (ps_block_number s)) = accounts s) as E by done.
  split; [|done]. split; [done|..].
  - intros. rewrite E. apply (sk_index _ Hs).
  - intros. rewrite E. apply (sk_dense _ Hs).
Qed.

(** ** Taking an operation into the pending block *)

Lemma collect_op_fee_ok fee id s :
  is_Some (accounts s !! id) → collect_op_fee fee id s = Val ([], s).
Proof.
  intros [a Ha]. destruct fee as [fee|]; [|done]. unfold collect_op_fee, collect_fee, gets.
  unfold mbind, exec_bind. by rewrite get_account_lookup, Ha.
Qed.

Lemma block_indexed_snoc l e :
  block_indexed l → executed_index e = Some (wrap 32 (Z.of_nat (length l))) → block_indexed (l ++ [e]).
Proof.
  intros Hl He i e' [Hi|[Hlen Hi]]%lookup_app_Some Hop; [by apply Hl|].
  destruct (i - length l)%nat as [|j] eqn:E; [|done]. injection Hi as <-.
  by replace i with (length l) by lia.
Qed.

(** A successful operation [e] with operation [op] joins the pending block. *)
Lemma push_success_ok k s' e op us k' :
  keeper_ok k → state_ok s' → ledger_step (keeper_accounts k) op us (accounts s') → op_token_ok op →
  op_addressed (keeper_accounts k) op → ps_block_number s' = ps_block_number (sk_state k) →
  get_executed_op e = Some op → executed_index e = Some (pending_op_block_index (pending_block k)) →
  (FranklinOp_chunks op ≤ chunks_left (pending_block k))%nat →
  sk_state k' = s' → fee_account_id k' = fee_account_id k →
  current_unprocessed_priority_op k' =
    (if is_priority_op op then wrap 64 (current_unprocessed_priority_op k + 1)
     else current_unprocessed_priority_op k) →
  pending_block k' = push_success e us (FranklinOp_chunks op) (pending_block k) →
  tx_for_commitments k' = tx_for_commitments k →
  executed_tx_notify_sender k' = executed_tx_notify_sender k →
  available_block_chunk_sizes k' = available_block_chunk_sizes k →
  keeper_ok k'.
Proof.
  intros Hk Hs' Hstep Htok Hadd Hnum Hop Hidx Hch Es Ef Ep Eb Ec En Ea.
  assert (keeper_accounts k' = accounts s') as Em by (unfold keeper_accounts; by rewrite Es).
  assert (pending_ops k' = pending_ops k ++ [op]) as Epo.
  { unfold pending_ops. rewrite Eb. cbn [push_success success_operations].
    rewrite omap_app. cbn. by rewrite Hop. }
  split; rewrite ?Em, ?Es, ?Ef, ?Ec, ?En, ?Ea, ?Epo, ?Eb; cbn [push_success success_operations failed_txs account_updates
    chunks_left pending_op_block_index unprocessed_priority_op_before].
  - done.
  - eapply leaves_ok_step; [apply (ko_leaves _ Hk)|done|done].
  - apply (proj1 (ledger_step_grows _ _ _ _ Hstep)), (ko_fee _ Hk).
  - destruct (ko_sizes _ Hk) as (max & ? & ? & Hmax). exists max. split; [done|]. split; [done|].
    rewrite sum_chunks_app. unfold sum_chunks at 2. cbn. lia.
  - apply (ko_failed _ Hk).
  - apply Forall_app. split; [apply (ko_success _ Hk)|]. apply Forall_singleton. by eexists.
  - rewrite (ko_index _ Hk), length_app. unfold wrap. rewrite Zplus_mod_idemp_l. f_equal. cbn. lia.
  - apply block_indexed_snoc; [apply (ko_indexed _ Hk)|]. by rewrite Hidx, (ko_index _ Hk).
  - rewrite Ep, count_priority_app, (ko_priority _ Hk).
    assert (count_priority [op] = if is_priority_op op then 1 else 0) as ->
      by (unfold count_priority; cbn [List.filter]; by destruct (is_priority_op op)).
    destruct (is_priority_op op); [unfold wrap; rewrite Zplus_mod_idemp_l|]; f_equal; lia.
  - destruct (ko_chain _ Hk) as (m & Hch' & Hrun). exists m. split; [by rewrite Hnum|].
    by eapply run_snoc.
  - eapply Forall_impl; [apply (ko_notified _ Hk)|]. intros n [Hn|[E1 E2]]; [left; by rewrite Ec|right].
    rewrite Es, Hnum. split; [done|]. intros x Hx%E2. unfold pending_txs in *. rewrite Eb.
    cbn [push_success success_operations failed_txs]. set_solver.
  - apply (ko_available _ Hk).
Qed.

(** What executing one operation of a queue guarantees, for both kinds of operations:
    it is taken into the pending block and reported, and the counter of priority
    operations advances by [adv], or fewer than six chunks are left. *)
Definition takes {Op : Type}
    (apply : Op → PlasmaStateKeeper Tree → outcome ((ExecutedOperations + Op) * PlasmaStateKeeper Tree))
    (fine : AccountMap → Op → Prop) (reports : Op → ExecutedOperations → Prop) (adv : Z) : Prop :=
  ∀ op k, keeper_ok k → fine (keeper_accounts k) op → Z.of_nat (size (keeper_accounts k)) < 2 ^ 24 →
    (∃ e k', apply op k = Val (inl e, k') ∧ keeper_ok k' ∧
       grows 1 (keeper_accounts k) (keeper_accounts k') ∧ reports op e ∧
       pending_txs k ⊆ pending_txs k' ∧ e ∈ pending_txs k' ∧
       executed_tx_notify_sender k' = executed_tx_notify_sender k ∧
       current_unprocessed_priority_op k' = wrap 64 (current_unprocessed_priority_op k + adv)) ∨
    (apply op k = Val (inr op, k) ∧ (chunks_left (pending_block k) < MAX_OP_CHUNKS)%nat).

(** A priority operation that can be executed: a full exit of an existing account, a
    deposit of a token that the token tree can hold. *)
Definition priority_op_fine (m : AccountMap) (op : PriorityOp) : Prop :=
  match po_data op with
  | PDeposit d => token_ok (dp_token_id d)
  | PFullExit e => is_Some (m !! fe_account_id e)
  end.

Definition reports_priority_op (op : PriorityOp) (e : ExecutedOperations) : Prop :=
  ∃ x i, e = ExPriorityOp (mkExecutedPriorityOp op x i) ∧ try_get_priority_op x = Ok (po_data op).

Definition reports_tx (tx : FranklinTx) (e : ExecutedOperations) : Prop :=
  ∃ t, e = ExTx t ∧ et_tx t = tx ∧
    match et_op t with
    | Some x => et_success t = true ∧ et_fail_reason t = None ∧ try_get_tx x = Ok tx
    | None => et_success t = false ∧ is_Some (et_fail_reason t) ∧ et_block_index t = None
    end.

Lemma push_success_pending k k' e us c :
  pending_block k' = push_success e us c (pending_block k) →
  pending_txs k ⊆ pending_txs k' ∧ e ∈ pending_txs k'.
Proof. intros E. unfold pending_txs. rewrite E. cbn [push_success success_operations failed_txs]. set_solver. Qed.

Lemma apply_priority_op_ok : takes apply_priority_op priority_op_fine reports_priority_op 1.
Proof.
  intros op k Hk Hfine Hsize. unfold apply_priority_op.
  assert (FranklinPriorityOp_chunks (po_data op) ≤ MAX_OP_CHUNKS)%nat as Hmax
    by (destruct (po_data op); cbv; lia).
  destruct (Nat.ltb_spec (chunks_left (pending_block k)) (FranklinPriorityOp_chunks (po_data op))) as [Hlt|Hge];
    [right; split; [done|lia]|left].
  destruct (execute_priority_op_ok (sk_state k) (po_data op)) as ([fee us x] & s' & -> & Hs' & Hstep & Hadd & Hget & Hch & Hn).
  { apply (ko_state _ Hk). }
  { unfold priority_op_fine in Hfine. destruct (po_data op); [by right|done]. }
  cbn [os_executed_op os_updates] in *. pose proof (ledger_step_grows _ _ _ _ Hstep) as Hg.
  rewrite collect_op_fee_ok by apply Hg, (ko_fee _ Hk). cbn [mbind outcome_bind]. rewrite app_nil_r.
  rewrite <- Hch in *. set (e := ExPriorityOp _). set (k' := set_unprocessed _ _). exists e, k'.
  split; [done|]. split.
  { apply (push_success_ok k s' e x us); try done; destruct x as [|[d i]|[]|[]|[]|[]|[]|[]]; try done.
    cbn in Hget. injection Hget as E. unfold priority_op_fine in Hfine. by rewrite <- E in Hfine. }
  split; [done|]. split; [by eexists _, _|].
  destruct (push_success_pending k k' e us (FranklinOp_chunks x)); done.
Qed.

Lemma chunks_for_tx_Val s tx :
  state_ok s → ∃ c, chunks_for_tx tx s = Val c ∧ (c ≤ MAX_OP_CHUNKS)%nat.
Proof.
  intros Hs. destruct tx as [tx|tx|tx|tx]; cbn [chunks_for_tx]; try (eexists; split; [done|cbv; lia]).
  pose proof (get_account_by_address_spec s (tr_to tx) Hs) as Hspec.
  destruct (get_account_by_address (tr_to tx) s) as [[]|]; [..|done];
    (eexists; split; [done|cbv; lia]).
Qed.

Lemma push_failed_ok k t k' :
  keeper_ok k → et_op t = None → sk_state k' = sk_state k → fee_account_id k' = fee_account_id k →
  current_unprocessed_priority_op k' = current_unprocessed_priority_op k →
  pending_block k' = push_failed t (pending_block k) →
  tx_for_commitments k' = tx_for_commitments k →
  executed_tx_notify_sender k' = executed_tx_notify_sender k →
  available_block_chunk_sizes k' = available_block_chunk_sizes k →
  keeper_ok k' ∧ pending_txs k ⊆ pending_txs k' ∧ ExTx t ∈ pending_txs k'.
Proof.
  intros Hk Ht Es Ef Ep Eb Ec En Ea.
  assert (pending_txs k ⊆ pending_txs k' ∧ ExTx t ∈ pending_txs k') as [Hsub Hin].
  { unfold pending_txs. rewrite Eb. cbn [push_failed success_operations failed_txs]. rewrite fmap_app. set_solver. }
  split; [|done]. destruct Hk as [Hs Hl Hf Hz Hfa Hsu Hi Hix Hp Hch Hn Hav].
  unfold keeper_accounts, pending_ops in *.
  split; unfold keeper_accounts, pending_ops; rewrite ?Es, ?Ef, ?Ec, ?En, ?Ea, ?Eb, ?Ep; try done.
  - cbn [push_failed failed_txs]. apply Forall_app. by rewrite Forall_singleton.
  - eapply Forall_impl; [done|]. intros n [Hn'|[E1 E2]]; [left; by rewrite Ec|right].
    rewrite Es. split; [done|]. intros x Hx%E2. by apply Hsub.
Qed.

Lemma current_wrapped k :
  keeper_ok k → current_unprocessed_priority_op k = wrap 64 (current_unprocessed_priority_op k + 0).
Proof. intros Hk. rewrite (ko_priority _ Hk), Z.add_0_r. unfold wrap. by rewrite Zmod_mod. Qed.

Lemma apply_tx_ok : takes (apply_tx utc_now) (λ _ _, True) reports_tx 0.
Proof.
  intros tx k Hk _ Hsize. unfold apply_tx.
  destruct (chunks_for_tx_Val (sk_state k) tx) as (c & Hc & Hmax); [apply (ko_state _ Hk)|].
  rewrite Hc. cbn [mbind outcome_bind].
  destruct (Nat.ltb_spec (chunks_left (pending_block k)) c) as [Hlt|Hge]; [right; split; [done|lia]|left].
  destruct (execute_tx_ok (sk_state k) tx (ko_state _ Hk) Hsize)
    as [[_ [msg ->]]|(_ & [fee us x] & s' & -> & Hs' & Hstep & Hadd & Hget & _ & Hch & Hn)].
  { set (t := mkExecutedTx _ _ _ _ _ _). set (k' := tick _). exists (ExTx t), k'. split; [done|].
    destruct (push_failed_ok k t k') as (? & ? & ?); try done. split; [done|].
    split; [split; [done|change (keeper_accounts k') with (keeper_accounts k); lia]|]. split; [|split_and!; [done|done|done|by apply (current_wrapped k)]]. exists t. split; [done|]. split; [done|].
    cbn. split; [done|]. split; [by eexists|done]. }
  cbn [os_executed_op os_updates] in *. pose proof (ledger_step_grows _ _ _ _ Hstep) as Hg.
  rewrite collect_op_fee_ok by apply Hg, (ko_fee _ Hk). cbn [mbind outcome_bind]. rewrite app_nil_r.
  rewrite Hc in Hch. injection Hch as ->. set (e := ExTx _). set (k' := tick _). exists e, k'.
  split; [done|]. split.
  { apply (push_success_ok k s' e x us); try done; by destruct x as [|[d i]|[]|[]|[]|[]|[]|[]]. }
  split; [done|]. split; [by eexists|].
  destruct (push_success_pending k k' e us (FranklinOp_chunks x)); [done|].
  split_and!; [done|done|done|by apply (current_wrapped k)].
Qed.

(** ** Sealing *)

Lemma new_block_ok n h f txs pr szs max :
  last szs = Some max → (sum_chunks (omap get_executed_op txs) ≤ max)%nat →
  ∃ size, new_from_availabe_block_sizes n h f txs pr szs = Val (mkBlock n h f txs pr size) ∧
    smallest_block_size (mkBlock n h f txs pr size) szs = Val size ∧
    (sum_chunks (omap get_executed_op txs) ≤ size)%nat.
Proof.
  intros Hlast Hle. unfold new_from_availabe_block_sizes, smallest_block_size, smallest_block_size_for_chunks.
  unfold chunks_used, block_ops. cbn [block_transactions].
  pose proof (first_block_size_spec (sum_chunks (omap get_executed_op txs)) szs) as Hspec.
  destruct (first_block_size _ szs) as [s|].
  - exists s. destruct Hspec as (? & ? & _). done.
  - apply last_Some_elem_of, Hspec in Hlast. lia.
Qed.

Lemma block_indexed_failed l fs :
  block_indexed l → Forall (λ t, et_op t = None) fs → block_indexed (l ++ (ExTx <$> fs)).
Proof.
  intros Hl Hfs i e [Hi|[Hlen Hi]]%lookup_app_Some Hop; [by apply Hl|].
  apply list_lookup_fmap_Some in Hi as (t & -> & Ht).
  rewrite Forall_forall in Hfs. cbn in Hop. rewrite (Hfs t) in Hop; [by destruct Hop|].
  by eapply list_elem_of_lookup_2.
Qed.

Lemma seal_pending_block_ok k :
  keeper_ok k →
  ∃ c k', seal_pending_block k = Val k' ∧ keeper_ok k' ∧ keeper_accounts k' = keeper_accounts k ∧
    tx_for_commitments k' = tx_for_commitments k ++ [c] ∧ block_transactions (cr_block c) = pending_txs k ∧
    executed_tx_notify_sender k' = executed_tx_notify_sender k ∧
    pending_txs k' = [] ∧ (MAX_OP_CHUNKS ≤ chunks_left (pending_block k'))%nat ∧
    current_unprocessed_priority_op k' = current_unprocessed_priority_op k.
Proof.
  intros Hk. destruct (ko_sizes _ Hk) as (max & Hlast & Hsix & Hbudget).
  unfold seal_pending_block. rewrite Hlast. cbn [unwrap mbind outcome_bind sk_state set_pending].
  destruct (root_hash_ok (sk_state k) (ko_state _ Hk) (ko_leaves _ Hk)) as (s' & -> & Hs' & Hacc & Hnum).
  cbn [mbind outcome_bind]. fold (pending_txs k). rewrite Hnum.
  cbn [available_block_chunk_sizes set_pending fee_account_id current_unprocessed_priority_op].
  assert (omap get_executed_op (pending_txs k) = pending_ops k) as Eops.
  { unfold pending_txs. by rewrite omap_app, (failed_no_ops _ (ko_failed _ Hk)), app_nil_r. }
  edestruct (new_block_ok (ps_block_number (sk_state k))) as (size & -> & Hin & Hfit);
    [done|rewrite Eops; lia|]. rewrite Eops in Hfit. cbn [mbind outcome_bind].
  set (c := mkCommitRequest _ _). set (k' := send_commit c _). exists c, k'.
  assert (keeper_accounts k' = keeper_accounts k) as Em by (unfold keeper_accounts in *; by rewrite <- Hacc).
  split; [done|]. split; [|by split_and!].
  destruct (ko_chain _ Hk) as (m & Hchain & Hrun).
  split; rewrite ?Em; try done.
  - destruct Hs' as [Ht Hi Hd]. split; [done|..]; done.
  - apply (ko_leaves _ Hk).
  - apply (ko_fee _ Hk).
  - exists max. split; [done|]. split; [done|]. cbn. lia.
  - cbn. unfold count_priority, wrap. cbn. rewrite Z.add_0_r, (ko_priority _ Hk). symmetry. apply Zmod_mod.
  - exists (keeper_accounts k). split; [|constructor].
    apply (chain_seal _ _ _ _ _ _ _ _ c (keeper_accounts k) Hchain). split; try done.
    + cbn. unfold block_ops. cbn [block_transactions]. by rewrite Eops.
    + cbn. f_equal. unfold block_ops. cbn [block_transactions]. rewrite Eops. apply (ko_priority _ Hk).
    + cbn. unfold chunks_used, block_ops. cbn [block_transactions]. by rewrite Eops.
    + apply block_indexed_failed; [apply (ko_indexed _ Hk)|apply (ko_failed _ Hk)].
  - eapply Forall_impl; [apply (ko_notified _ Hk)|]. intros n [(c' & Hc' & ? & ?)|[E1 E2]]; left.
    + exists c'. split; [|done]. cbn. set_solver.
    + exists c. split; [cbn; set_solver|]. cbn. done.
  - apply (ko_available _ Hk).
Qed.

(** Notifying about operations of the pending block. *)
Lemma notify_ok k ops :
  keeper_ok k → ops ⊆ pending_txs k →
  keeper_ok (send_notify (mkExecutedOpsNotify ops (ps_block_number (sk_state k))) k).
Proof.
  intros [Hs Hl Hf Hz Hfa Hsu Hi Hix Hp Hch Hn Hav] Hsub. split; try done.
  cbn. apply Forall_app. split; [done|]. apply Forall_singleton. by right.
Qed.

(** ** Emptying a queue *)

Section Queue.
  Context {Op : Type}.
  Context (apply : Op → PlasmaStateKeeper Tree → outcome ((ExecutedOperations + Op) * PlasmaStateKeeper Tree)).
  Context (fine : AccountMap → Op → Prop) (reports : Op → ExecutedOperations → Prop).
  Context (adv : Z) (Htakes : takes apply fine reports adv).
  Context (Hstable : ∀ d m m' op, grows d m m' → fine m op → fine m' op).

(** The operations reported by notifications sent after [k], up to [k']. *)
Definition notified_since k k' (es : list ExecutedOperations) : Prop :=
  ∃ ns, executed_tx_notify_sender k' = executed_tx_notify_sender k ++ ns ∧ es = mjoin (eon_operations <$> ns).

Lemma notified_since_refl k k' :
  executed_tx_notify_sender k' = executed_tx_notify_sender k → notified_since k k' [].
Proof. intros E. exists []. by rewrite app_nil_r. Qed.

Lemma notified_since_trans k k1 k2 es es' :
  notified_since k k1 es → notified_since k1 k2 es' → notified_since k k2 (es ++ es').
Proof.
  intros (ns & E & ->) (ns' & E' & ->). exists (ns ++ ns').
  by rewrite E', E, app_assoc, fmap_app, join_app.
Qed.

Lemma queue_loop_ok queue fuel done_ops k :
  keeper_ok k → done_ops ⊆ pending_txs k → Forall (fine (keeper_accounts k)) queue →
  Z.of_nat (size (keeper_accounts k) + length queue) ≤ 2 ^ 24 → (2 * length queue ≤ fuel)%nat →
  ∃ rest k' es ns, queue_loop apply fuel queue done_ops k = Val (rest, k') ∧ keeper_ok k' ∧
    rest ⊆ pending_txs k' ∧ grows (length queue) (keeper_accounts k) (keeper_accounts k') ∧
    Forall2 reports queue es ∧ notified_since k k' ns ∧ done_ops ++ es = ns ++ rest ∧
    current_unprocessed_priority_op k' =
      wrap 64 (current_unprocessed_priority_op k + adv * Z.of_nat (length queue)).
Proof.
  revert fuel done_ops k. induction queue as [|op queue IH]; intros fuel done_ops k Hk Hdone Hfine Hsize Hfuel.
  { exists done_ops, k, [], []. destruct fuel; cbn [queue_loop]; split_and!; try done;
      [apply grows_refl|by apply notified_since_refl|by rewrite app_nil_r|by rewrite Z.mul_0_r; apply (current_wrapped k)
      |apply grows_refl|by apply notified_since_refl|by rewrite app_nil_r|by rewrite Z.mul_0_r; apply (current_wrapped k)]. }
  inversion Hfine as [|?? Hop Hrest]; subst. cbn [length] in *.
  (* taking the head, from any keeper that has the same accounts *)
  assert (∀ f d k1, keeper_ok k1 → d ⊆ pending_txs k1 → keeper_accounts k1 = keeper_accounts k →
    (2 * length queue ≤ f)%nat → ∀ e k2, apply op k1 = Val (inl e, k2) → keeper_ok k2 →
    grows 1 (keeper_accounts k1) (keeper_accounts k2) → reports op e → pending_txs k1 ⊆ pending_txs k2 →
    e ∈ pending_txs k2 → executed_tx_notify_sender k2 = executed_tx_notify_sender k1 →
    current_unprocessed_priority_op k1 = current_unprocessed_priority_op k →
    current_unprocessed_priority_op k2 = wrap 64 (current_unprocessed_priority_op k1 + adv) →
    ∃ rest k' es ns, queue_loop apply f queue (d ++ [e]) k2 = Val (rest, k') ∧ keeper_ok k' ∧
      rest ⊆ pending_txs k' ∧ grows (S (length queue)) (keeper_accounts k) (keeper_accounts k') ∧
      Forall2 reports (op :: queue) es ∧ notified_since k1 k' ns ∧ d ++ es = ns ++ rest ∧
      current_unprocessed_priority_op k' =
        wrap 64 (current_unprocessed_priority_op k + adv * Z.of_nat (S (length queue)))) as Htake.
  { intros f d k1 Hk1 Hd Em Hf e k2 Hap Hk2 Hg Hrep Hsub Hin Hnot Hc1 Hc2. rewrite Em in Hg.
    destruct (IH f (d ++ [e]) k2) as (rest & k' & es & ns & Hrun & Hk' & Hr & Hg' & Hes & Hns & Hall & Hcur).
    - done.
    - set_solver.
    - eapply Forall_impl; [exact Hrest|]. intros o. by apply Hstable with (d := 1%nat).
    - destruct Hg as [_ Hg]. lia.
    - done.
    - exists rest, k', (e :: es), ns. split_and!; try done.
      + by apply (grows_trans 1 (length queue) _ _ _ Hg).
      + by constructor.
      + apply (notified_since_trans k1 k2 k' []); [by apply notified_since_refl|done].
      + by rewrite <- Hall, <- app_assoc.
      + rewrite Hcur, Hc2, Hc1. unfold wrap. rewrite Zplus_mod_idemp_l. f_equal. lia. }
  destruct fuel as [|fuel]; [lia|]. cbn [queue_loop].
  destruct (Htakes op k Hk Hop ltac:(lia)) as [(e & k2 & Hap & Hk2 & Hg & Hrep & Hsub & Hin & Hnot & Hcur)|[Hap _]];
    rewrite Hap; cbn [mbind outcome_bind].
  { apply (Htake fuel done_ops k) with (e := e); try done. lia. }
  unfold notify_executed_ops. cbv beta iota zeta. set (k0 := send_notify _ k).
  assert (keeper_ok k0) as Hk0 by (by apply notify_ok).
  destruct (seal_pending_block_ok k0 Hk0) as (c & k1 & -> & Hk1 & Em1 & _ & _ & Hn1 & Hp1 & Hroom & Hcur1).
  cbn [mbind outcome_bind]. change (keeper_accounts k0) with (keeper_accounts k) in Em1.
  destruct fuel as [|fuel]; [lia|]. cbn [queue_loop].
  destruct (Htakes op k1 Hk1) as [(e & k2 & Hap1 & Hk2 & Hg & Hrep & Hsub & Hin & Hnot & Hcur)|[_ ?]];
    [by rewrite Em1|rewrite Em1; lia| |lia].
  rewrite Hap1. cbn [mbind outcome_bind].
  destruct (Htake fuel [] k1) with (e := e) (k2 := k2)
    as (rest & k' & es & ns & Hrun & Hk' & Hr & Hg' & Hes & Hns & Hall & Hcur'); try done; [set_solver|lia|].
  exists rest, k', es, (done_ops ++ ns). split_and!; try done.
  - apply (notified_since_trans k k1); [|done]. exists [mkExecutedOpsNotify done_ops (ps_block_number (sk_state k))].
    split; [by rewrite Hn1|]. cbn. by rewrite app_nil_r.
  - rewrite <- app_assoc. f_equal. done.
Qed.
End Queue.

(** ** Miniblocks *)

Definition reports_op (op : PriorityOp + FranklinTx) (e : ExecutedOperations) : Prop :=
  match op with inl op => reports_priority_op op e | inr tx => reports_tx tx e end.

(** The operations of a miniblock in the order of execution. *)
Definition miniblock_ops (b : ProposedBlock) : list (PriorityOp + FranklinTx) :=
  (inl <$> pb_priority_ops b) ++ (inr <$> pb_txs b).

Definition miniblock_fine (m : AccountMap) (b : ProposedBlock) : Prop :=
  Forall (priority_op_fine m) (pb_priority_ops b) ∧
  Z.of_nat (size m + length (miniblock_ops b)) ≤ 2 ^ 24.

Lemma priority_op_fine_grows d m m' op : grows d m m' → priority_op_fine m op → priority_op_fine m' op.
Proof. intros [Hg _]. unfold priority_op_fine. destruct (po_data op); [done|apply Hg]. Qed.

Lemma next_iteration_ok k : keeper_ok k → keeper_ok (set_pending (next_iteration (pending_block k)) k).
Proof. intros [Hs Hl Hf Hz Hfa Hsu Hi Hix Hp Hch Hn Hav]. by split. Qed.

Lemma Forall2_inj {A B C} (f : A → C) (P : C → B → Prop) (Q : A → B → Prop) l l' :
  (∀ a b, Q a b → P (f a) b) → Forall2 Q l l' → Forall2 P (f <$> l) l'.
Proof. intros H. induction 1; [done|]. rewrite fmap_cons. constructor; auto. Qed.

Lemma execute_tx_batch_ok b k :
  keeper_ok k → miniblock_fine (keeper_accounts k) b →
  ∃ k' es, execute_tx_batch utc_now b k = Val k' ∧ keeper_ok k' ∧
    grows (length (miniblock_ops b)) (keeper_accounts k) (keeper_accounts k') ∧
    notified_since k k' es ∧ Forall2 reports_op (miniblock_ops b) es ∧
    current_unprocessed_priority_op k' =
      wrap 64 (current_unprocessed_priority_op k + Z.of_nat (length (pb_priority_ops b))).
Proof.
  intros Hk [Hfine Hroom]. unfold execute_tx_batch, miniblock_ops in *.
  rewrite length_app, !length_fmap in *.
  destruct (queue_loop_ok apply_priority_op priority_op_fine reports_priority_op 1 apply_priority_op_ok
    priority_op_fine_grows (pb_priority_ops b) (2 * length (pb_priority_ops b)) [] k)
    as (d1 & k1 & es1 & ns1 & -> & Hk1 & Hd1 & Hg1 & Hes1 & Hns1 & E1 & Hc1); [done|set_solver|done|lia|lia|].
  cbn [mbind outcome_bind].
  destruct (queue_loop_ok (apply_tx utc_now) (λ _ _, True) reports_tx 0 apply_tx_ok
    ltac:(done) (pb_txs b) (2 * length (pb_txs b)) d1 k1)
    as (d2 & k2 & es2 & ns2 & -> & Hk2 & Hd2 & Hg2 & Hes2 & Hns2 & E2 & Hc2).
  { done. } { done. } { by apply Forall_true. } { destruct Hg1. lia. } { lia. }
  cbn [mbind outcome_bind].
  assert (grows (length (pb_priority_ops b) + length (pb_txs b)) (keeper_accounts k) (keeper_accounts k2)) as Hg
    by by eapply grows_trans.
  assert (Forall2 reports_op ((inl <$> pb_priority_ops b) ++ (inr <$> pb_txs b)) (es1 ++ es2)) as Hes
    by (apply Forall2_app; by eapply Forall2_inj).
  assert (es1 ++ es2 = (ns1 ++ ns2) ++ d2) as Eall by (cbn in E1; by rewrite E1, <- !app_assoc, E2).
  pose proof (notified_since_trans _ _ _ _ _ Hns1 Hns2) as Hns.
  assert (current_unprocessed_priority_op k2 =
    wrap 64 (current_unprocessed_priority_op k + Z.of_nat (length (pb_priority_ops b)))) as Hcur.
  { rewrite Hc2, Hc1. unfold wrap. rewrite Zplus_mod_idemp_l. f_equal. lia. }
  assert (∀ k3, keeper_ok k3 → keeper_accounts k3 = keeper_accounts k2 → d2 ⊆ pending_txs k3 →
    executed_tx_notify_sender k3 = executed_tx_notify_sender k2 →
    let k4 := (notify_executed_ops d2 k3).2 in
    keeper_ok k4 ∧ keeper_accounts k4 = keeper_accounts k2 ∧ notified_since k k4 (es1 ++ es2)) as Hlast.
  { intros k3 Hk3 Em Hd E3. cbn. split; [by apply notify_ok|]. split; [done|]. rewrite Eall.
    apply (notified_since_trans k k2); [done|].
    exists [mkExecutedOpsNotify d2 (ps_block_number (sk_state k3))]. cbn. by rewrite E3, app_nil_r. }
  destruct (bool_decide (success_operations (pending_block k2) = [])).
  { cbn [mbind outcome_bind]. destruct (Hlast k2) as (? & Em & ?); try done. eexists _, _. split; [done|].
    split; [done|]. by rewrite Em. }
  pose proof (next_iteration_ok k2 Hk2) as Hk3. set (k3 := set_pending _ k2) in *.
  destruct (MAX_PENDING_BLOCK_ITERATIONS <? pending_block_iteration (pending_block k3))%nat.
  2: { cbn [mbind outcome_bind]. destruct (Hlast k3) as (? & Em & ?); try done. eexists _, _. split; [done|].
       split; [done|]. by rewrite Em. }
  destruct (Hlast k3) as (Hk4 & Em & Hns4); try done.
  set (k4 := (notify_executed_ops d2 k3).2) in Hk4, Em, Hns4.
  change (notify_executed_ops d2 k3) with (@nil ExecutedOperations, k4). cbv beta iota zeta.
  destruct (seal_pending_block_ok k4 Hk4) as (c & k5 & -> & Hk5 & Em5 & _ & _ & Hn5 & _ & _ & Hc5).
  cbn [mbind outcome_bind]. eexists _, (es1 ++ es2). split; [done|]. split; [by apply notify_ok; [|set_solver]|].
  cbn [notify_executed_ops snd]. split; [by rewrite <- Em, <- Em5 in Hg|].
  split; [|split; [done|by etrans; [exact Hc5|]]].
  rewrite <- (app_nil_r (es1 ++ es2)). apply (notified_since_trans k k4); [done|].
  exists [mkExecutedOpsNotify [] (ps_block_number (sk_state k5))]. cbn. by rewrite Hn5.
Qed.

(** ** Requests *)

(** The operations that a request executes. *)
Definition request_ops (r : StateKeeperRequest) : list (PriorityOp + FranklinTx) :=
  match r with ExecuteMiniBlock b => miniblock_ops b | _ => [] end.

Definition request_fine (m : AccountMap) (r : StateKeeperRequest) : Prop :=
  match r with ExecuteMiniBlock b => Forall (priority_op_fine m) (pb_priority_ops b) | _ => True end.

Lemma request_fine_grows d m m' r : grows d m m' → request_fine m r → request_fine m' r.
Proof.
  intros Hg. destruct r as [| |b| |]; try done. intros H. eapply Forall_impl; [exact H|].
  intros op. by eapply priority_op_fine_grows.
Qed.

Lemma handle_request_ok r k :
  keeper_ok k → request_fine (keeper_accounts k) r →
  Z.of_nat (size (keeper_accounts k) + length (request_ops r)) ≤ 2 ^ 24 →
  ∃ reply k' es, handle_request utc_now r k = Val (reply, k') ∧ keeper_ok k' ∧
    grows (length (request_ops r)) (keeper_accounts k) (keeper_accounts k') ∧
    notified_since k k' es ∧ Forall2 reports_op (request_ops r) es.
Proof.
  intros Hk Hfine Hroom. destruct r as [ad| |b|op_id|]; cbn [handle_request request_ops] in *.
  - unfold keeper_account. pose proof (get_account_by_address_spec _ ad (ko_state _ Hk)) as Hspec.
    destruct (get_account_by_address ad (sk_state k)); [|done]. eexists _, k, []. split; [done|].
    split_and!; try done; [apply grows_refl|by apply notified_since_refl].
  - eexists _, k, []. split_and!; try done; [apply grows_refl|by apply notified_since_refl].
  - destruct (execute_tx_batch_ok b k Hk) as (k' & es & -> & ? & ? & ? & ? & _); [done|]. by eexists _, k', es.
  - eexists _, k, []. split_and!; try done; [apply grows_refl|by apply notified_since_refl].
  - destruct (seal_pending_block_ok k Hk) as (c & k' & -> & Hk' & Em & _ & _ & Hn & _).
    eexists _, k', []. rewrite Em. split_and!; try done; [apply grows_refl|by apply notified_since_refl].
Qed.

Lemma run_ok rs k :
  keeper_ok k → Forall (request_fine (keeper_accounts k)) rs →
  Z.of_nat (size (keeper_accounts k) + length (mjoin (request_ops <$> rs))) ≤ 2 ^ 24 →
  ∃ replies k' es, run utc_now rs k = Val (replies, k') ∧ keeper_ok k' ∧ length replies = length rs ∧
    notified_since k k' es ∧ Forall2 reports_op (mjoin (request_ops <$> rs)) es.
Proof.
  revert k. induction rs as [|r rs IH]; intros k Hk Hfine Hroom.
  { exists [], k, []. split_and!; try done. by apply notified_since_refl. }
  inversion Hfine as [|?? Hr Hrs]; subst. rewrite fmap_cons in *.
  change (mjoin (request_ops r :: ?l)) with (request_ops r ++ mjoin l) in *.
  rewrite length_app in Hroom. cbn [run].
  destruct (handle_request_ok r k Hk Hr ltac:(lia)) as (reply & k1 & es1 & -> & Hk1 & Hg & Hns1 & Hes1).
  cbn [mbind outcome_bind fst snd].
  destruct (IH k1) as (replies & k' & es & -> & Hk' & Hlen & Hns & Hes); [done|..].
  - eapply Forall_impl; [exact Hrs|]. intros q. by eapply request_fine_grows.
  - destruct Hg. lia.
  - eexists _, k', (es1 ++ es). split; [done|]. split; [done|]. split; [cbn; lia|]. split.
    + by eapply notified_since_trans.
    + by apply Forall2_app.
Qed.
End Keeper.

(** ** From start to end *)
Section Theorems.
  Context `{EX : External} `{EXL : !ExternalLaws} {Tree : Type} `{ST : !SparseTree Tree Account Fr}.
  Context `{SL : !SparseTreeLaws Tree Account Fr}.
  Context (utc_now : nat → Z).
  Implicit Types (ip : PlasmaStateInitParams Tree).

(** The state from which a keeper starts. *)
Definition ip_state ip : PlasmaState Tree :=
  PlasmaState_new (ip_tree ip) (acc_id_by_addr ip) (wrap 32 (last_block_number ip + 1)).
Definition ip_accounts ip : AccountMap := accounts (ip_state ip).

Definition init_ok ip (fee_account_address : Address) (sizes : list nat) : Prop :=
  state_ok (ip_state ip) ∧ leaves_ok (ip_accounts ip) ∧ fits 64 (ip_unprocessed_priority_op ip) ∧
  is_Some (acc_id_by_addr ip !! fee_account_address) ∧
  Sorted le sizes ∧ ∃ max, last sizes = Some max ∧ (MAX_OP_CHUNKS ≤ max)%nat.

Lemma Sorted_max_last sizes max : Sorted le sizes → last sizes = Some max → max_size sizes = Some max.
Proof.
  intros Hs%Sorted_StronglySorted; [|intros ???; lia]. intros Hl.
  destruct sizes as [|s sizes]; [done|]. cbn [max_size]. f_equal. revert s max Hs Hl.
  induction sizes as [|s' sizes IH]; intros s max Hs Hl; [injection Hl as <-; cbn; lia|].
  inversion Hs as [|?? Hs' Hall]; subst. assert (last (s' :: sizes) = Some max) as Hl' by done.
  specialize (IH s' max Hs' Hl'). cbn [foldr] in *. rewrite Forall_forall in Hall.
  pose proof (Hall max (last_Some_elem_of _ _ Hl')). lia.
Qed.

Lemma merge_sort_sorted_id sizes : Sorted le sizes → merge_sort le sizes = sizes.
Proof.
  intros Hs. apply (Sorted_unique le); [apply (Sorted_merge_sort le)|done|apply merge_sort_Permutation].
Qed.

Lemma StateKeeper_new_ok ip ad sizes :
  init_ok ip ad sizes →
  ∃ k, StateKeeper_new ip ad sizes = Val k ∧ keeper_accounts k = ip_accounts ip ∧
    keeper_ok (wrap 32 (last_block_number ip + 1)) (ip_unprocessed_priority_op ip) (ip_accounts ip) sizes k ∧
    executed_tx_notify_sender k = [].
Proof.
  intros (Hs & Hl & Hfit & [id Hid] & Hsort & max & Hlast & Hmax). unfold StateKeeper_new.
  assert (sizes ≠ []) as Hne by (intros E; by rewrite E in Hlast).
  rewrite (bool_decide_true (sizes ≠ [])) by done. cbn [assert_that mbind outcome_bind].
  rewrite bool_decide_true by (by apply merge_sort_sorted_id). cbn [assert_that mbind outcome_bind].
  fold (ip_state ip). pose proof (get_account_by_address_spec (ip_state ip) ad Hs) as Hfee.
  destruct (get_account_by_address ad (ip_state ip)) as [[[fid fa]|]|]; [|by cbn in Hfee; congruence|done].
  destruct Hfee as (Hfa & _ & _). cbn [unwrap mbind outcome_bind].
  rewrite (Sorted_max_last sizes max Hsort Hlast). cbn [unwrap mbind outcome_bind].
  destruct (root_hash_ok (ip_state ip) Hs Hl) as (s' & -> & Hs' & Hacc & Hnum).
  cbn [mbind outcome_bind fst snd]. eexists. split; [done|]. split; [done|]. split; [|done].
  split; unfold keeper_accounts, pending_ops; cbn; try done.
  - by rewrite Hacc.
  - rewrite Hacc. by eexists.
  - exists max. split_and!; [done|done|lia].
  - unfold count_priority. cbn. by rewrite Z.add_0_r, wrap_small.
  - exists (ip_accounts ip). rewrite Hnum, Hacc. split; constructor.
Qed.

(** C2: The state keeper produces a correct chain: started from a consistent state with
    block sizes of which the largest holds any operation, and given any sequence of
    requests whose priority operations can be executed (full exits only of accounts that exist at
    the start, deposits only of tokens within the token tree) and that does not exhaust the account ids, the keeper answers every request without panicking or looping
    forever. The blocks it has sent then form a chain: consecutive numbers, each
    block a run of the ledger from where the previous one ended, with exactly the
    updates of that run, the root hash of the resulting accounts, the interval of
    the priority operations it contains, and the smallest available size that holds
    its operations; the pending block continues the chain to the current accounts. Every
    operation of every miniblock was reported exactly once, in order, in a
    notification that names the block containing it. *)
Theorem state_keeper_correct ip fee_account_address sizes requests :
  init_ok ip fee_account_address sizes →
  Forall (request_fine (ip_accounts ip)) requests →
  Z.of_nat (size (ip_accounts ip) + length (mjoin (request_ops <$> requests))) ≤ 2 ^ 24 →
  ∃ k replies k' m,
    StateKeeper_new ip fee_account_address sizes = Val k ∧ run utc_now requests k = Val (replies, k') ∧
    length replies = length requests ∧
    chain sizes (wrap 32 (last_block_number ip + 1)) (ip_unprocessed_priority_op ip) (ip_accounts ip)
      (tx_for_commitments k') (ps_block_number (sk_state k'))
      (unprocessed_priority_op_before (pending_block k')) m ∧
    ledger_run m (pending_ops k') (account_updates (pending_block k')) (keeper_accounts k') ∧
    Forall2 reports_op (mjoin (request_ops <$> requests))
      (mjoin (eon_operations <$> executed_tx_notify_sender k')) ∧
    Forall (notified_in k') (executed_tx_notify_sender k').
Proof.
  intros Hinit Hfine Hroom.
  destruct (StateKeeper_new_ok ip _ _ Hinit) as (k & Hnew & Em & Hk & En).
  destruct (run_ok utc_now _ _ _ _ requests k Hk) as (replies & k' & es & Hrun & Hk' & Hlen & (ns & Ens & ->) & Hes);
    [by rewrite Em..|].
  destruct (ko_chain _ _ _ _ _ Hk') as (m & Hchain & Hpend). rewrite (ko_available _ _ _ _ _ Hk') in Hchain.
  exists k, replies, k', m.
  split; [done|]. split; [done|]. split; [done|].
  split; [done|]. split; [done|]. rewrite En in Ens. cbn in Ens. rewrite Ens at 1. split; [done|].
  apply (ko_notified _ _ _ _ _ Hk').
Qed.

(** ** The database follows *)

Lemma ledger_run_replay m ops us m' :
  ledger_run m ops us m' → Forall (λ op, ¬ is_self_transfer op) ops → apply_updates m us = m'.
Proof.
  induction 1 as [|ops us m1 op us1 m2 _ IH Hstep _ _]; intros Hself; [done|].
  rewrite Forall_app, Forall_singleton in Hself. destruct Hself as [Hops Hop].
  rewrite apply_updates_app, IH by done. exact (ledger_step_replay _ _ _ _ Hstep Hop).
Qed.

Lemma chain_replay szs n p m0 cs n' p' m :
  chain szs n p m0 cs n' p' m →
  Forall (λ c, Forall (λ op, ¬ is_self_transfer op) (block_ops (cr_block c))) cs →
  apply_updates m0 (mjoin (cr_accounts_updated <$> cs)) = m.
Proof.
  induction 1 as [|cs n' p' m c m' _ IH Hb]; intros Hself; [done|].
  rewrite Forall_app, Forall_singleton in Hself. destruct Hself as [Hcs Hc].
  rewrite fmap_app, join_app, apply_updates_app, IH by done. cbn. rewrite app_nil_r.
  by eapply ledger_run_replay; [apply (bo_run _ _ _ _ _ _ Hb)|].
Qed.

(** The database can be rebuilt from what the keeper sends: applying the account
    updates of all sent blocks and of the pending block, in order, to the accounts
    from which the keeper started gives its current accounts, as long as none of the
    executed operations is a transfer of an account to itself. *)
Theorem keeper_updates_replay n p m0 sizes (k : PlasmaStateKeeper Tree) :
  keeper_ok n p m0 sizes k →
  Forall (λ c, Forall (λ op, ¬ is_self_transfer op) (block_ops (cr_block c))) (tx_for_commitments k) →
  Forall (λ op, ¬ is_self_transfer op) (pending_ops k) →
  apply_updates m0 (mjoin (cr_accounts_updated <$> tx_for_commitments k) ++
                    account_updates (pending_block k)) = keeper_accounts k.
Proof.
  intros Hk Hcs Hp. destruct (ko_chain _ _ _ _ _ Hk) as (m & Hchain & Hrun).
  rewrite apply_updates_app, (chain_replay _ _ _ _ _ _ _ _ Hchain) by done. by eapply ledger_run_replay.
Qed.

(** The genesis block: on an empty database [create_genesis_block] builds a consistent
    state whose only account is the fee account with id 0, writes the update that
    creates exactly this account, and computes the root hash of this state; on any
    other database it panics. *)
Theorem genesis_block_correct last_committed (m : AccountMap) (ad : Address) :
  (last_committed = 0 ∧ m = ∅ →
   ∃ us (s : PlasmaState Tree) h, create_genesis_block (last_committed, m) ad = Val (us, s, h) ∧
     state_ok s ∧ ps_block_number s = 1 ∧ accounts s = {[0 := default_with_address ad]} ∧
     apply_updates ∅ us = accounts s ∧ h = reference_root account_tree_depth (accounts s)) ∧
  (¬ (last_committed = 0 ∧ m = ∅) →
   create_genesis_block (Tree := Tree) (last_committed, m) ad = Panic "db should be empty").
Proof.
  split.
  - intros [-> ->]. unfold create_genesis_block. rewrite (bool_decide_true (∅ = ∅)) by done.
    cbn [Z.eqb andb assert_that mbind outcome_bind].
    set (m := <[0 := _]> ∅). assert (m = {[0 := default_with_address ad]}) as Em by done.
    destruct (from_acc_map_ok (Tree := Tree) m 1) as (s & Hs & Hok & Hacc & Hn).
    { by apply (leaf_bits_defined {[0 := Account_default]}) with (id := 0); [intros i a [_ <-]%lookup_singleton_Some u; cbn; set_solver|]. }
    { unfold account_map_ok. rewrite Em, map_size_singleton. split_and!; [|lia|].
      - intros id. cbn. rewrite lookup_singleton_is_Some. lia.
      - intros id id' a a' [<- _]%lookup_singleton_Some [<- _]%lookup_singleton_Some. done. }
    change (wrap 32 (0 + 1)) with 1. rewrite Hs. cbn [mbind outcome_bind].
    destruct (root_hash_ok s Hok) as (s' & -> & Hok' & Hacc' & Hn').
    { rewrite Hacc, Em. intros i a [_ <-]%lookup_singleton_Some. apply tokens_ok_default. }
    cbn [mbind outcome_bind fst snd]. eexists _, s', _. split; [done|]. rewrite Hn', Hacc', Hacc.
    split_and!; try done.
  - intros Hno. unfold create_genesis_block. destruct (Z.eqb_spec last_committed 0); [|done].
    case_bool_decide; [|done]. by destruct Hno.
Qed.

(** ** Loading a difference from the database *)

(** Every update applies to an account with an id of the tree and leaves an account whose
    address no other account has. *)
Fixpoint diff_applies (m : AccountMap) (us : AccountUpdates) : Prop :=
  match us with
  | [] => True
  | (id, u) :: us =>
      leaf_ok account_tree_depth id ∧
      (∃ a, Account_apply_update (m !! id) u = Some a ∧
            (∀ id' a', m !! id' = Some a' → address a' = address a → id' = id)) ∧
      diff_applies (apply_update_to_map m (id, u)) us
  end.

(** Taking an account out of the parameters and putting another one in. *)
Lemma init_replace_account ip id a :
  index_ok (ip_state ip) → leaf_ok account_tree_depth id →
  (∀ id' a', ip_accounts ip !! id' = Some a' → address a' = address a → id' = id) →
  ∃ ip1 ip', InitParams_remove_account id ip = Val (ip_accounts ip !! id, ip1) ∧
    InitParams_insert_account id a ip1 = Val ip' ∧ index_ok (ip_state ip') ∧
    ip_accounts ip' = <[id := a]> (ip_accounts ip) ∧
    last_block_number ip' = last_block_number ip ∧
    ip_unprocessed_priority_op ip' = ip_unprocessed_priority_op ip.
Proof.
  intros [Ht Hidx] Hid Huniq. unfold InitParams_remove_account, InitParams_insert_account.
  destruct (tree_remove_ok account_tree_depth (ip_tree ip) id Ht Hid) as (t1 & -> & Ht1 & Hi1).
  cbn [mbind outcome_bind fst snd]. fold (ip_accounts ip).
  set (ip1 := mkInitParams t1 _ _ _).
  destruct (tree_insert_ok account_tree_depth t1 id a Ht1 Hid) as (t2 & Hins & Ht2 & Hi2).
  rewrite Hi1, insert_insert_eq in Hi2.
  exists ip1. eexists. split; [done|]. cbn [ip_tree ip1]. rewrite Hins. cbn [mbind outcome_bind]. split; [done|].
  split; [|done]. split; [done|]. intros ad j. unfold accounts, ip_state, PlasmaState_new in *.
  cbn [token_tree account_id_by_address ip_tree acc_id_by_addr] in *. rewrite Hi2.
  change (tree_items (ip_tree ip)) with (ip_accounts ip) in *.
  destruct (decide (ad = address a)) as [->|Hne].
  - rewrite lookup_insert_eq. split.
    + intros [= <-]. exists a. by rewrite lookup_insert_eq.
    + intros (a' & [[-> _]|[_ Ha']]%lookup_insert_Some & E); [done|]. f_equal. symmetry. by eapply Huniq.
  - rewrite lookup_insert_ne by done. destruct (decide (id = j)) as [<-|Hj].
    + rewrite lookup_insert_eq. split; [|intros (a' & [= <-] & ?); congruence].
      destruct (ip_accounts ip !! id) as [old|] eqn:Hold; cbn [ip1 acc_id_by_addr].
      * intros [Hd Hx]%lookup_delete_Some. apply Hidx in Hx as (a' & Ha' & E).
        rewrite Hold in Ha'. injection Ha' as <-. congruence.
      * intros Hx%Hidx. naive_solver.
    + rewrite lookup_insert_ne by done. rewrite <- Hidx.
      destruct (ip_accounts ip !! id) as [old|] eqn:Hold; [|done]. cbn [ip1 acc_id_by_addr].
      rewrite lookup_delete_Some. split; [naive_solver|]. intros Hx. split; [|done]. intros <-.
      assert (acc_id_by_addr ip !! address old = Some id) as Hy by (apply Hidx; eauto). congruence.
Qed.

Lemma apply_state_diff_ok us ip :
  index_ok (ip_state ip) → diff_applies (ip_accounts ip) us →
  ∃ ip', apply_state_diff us ip = Val ip' ∧ index_ok (ip_state ip') ∧
    ip_accounts ip' = apply_updates (ip_accounts ip) us.
Proof.
  revert ip. induction us as [|[id u] us IH]; intros ip Hip; [by exists ip|].
  cbn [diff_applies]. intros (Hid & (a & Ha & Huniq) & Hrest).
  destruct (init_replace_account ip id a Hip Hid Huniq) as (ip1 & ip2 & Hrem & Hins & Hip2 & Hacc2 & _).
  cbn [apply_state_diff]. rewrite Hrem. cbn [mbind outcome_bind fst snd]. rewrite Ha, Hins. cbn [mbind outcome_bind].
  rewrite apply_updates_cons, (apply_update_insert _ _ _ a Ha), <- Hacc2.
  apply IH; [done|]. by rewrite Hacc2, <- (apply_update_insert _ _ u a Ha).
Qed.

(** Following the database: [load_state_diff] with updates that all apply leaves exactly
    the accounts that [apply_updates] computes, with an exact index of addresses, and
    takes over the block number and the next priority operation of the new block. *)
Theorem load_state_diff_correct ip block_number us committed_ops op_id :
  index_ok (ip_state ip) → diff_applies (ip_accounts ip) us →
  unprocessed_priority_op_id committed_ops block_number = Ok op_id →
  ∃ ip', load_state_diff (Ok (Some (block_number, us))) committed_ops ip = Val (Ok tt, ip') ∧
    index_ok (ip_state ip') ∧ ip_accounts ip' = apply_updates (ip_accounts ip) us ∧
    last_block_number ip' = block_number ∧ ip_unprocessed_priority_op ip' = op_id.
Proof.
  intros Hip Hdiff Hop. destruct (apply_state_diff_ok us ip Hip Hdiff) as (ip' & Hrun & Hip' & Hacc).
  unfold load_state_diff, lift, update, mbind, exec_bind. cbn. rewrite Hrun, Hop. eexists. split; [done|]. done.
Qed.

(** An account that was deleted comes back when the state is loaded: after
    [load_state_diff] with a single [Delete] of an existing account, the tree holds the
    default account under that id instead of no account, because removing an item from
    the tree stores the default item; [apply_updates] removes it. *)
Theorem load_state_diff_delete ip block_number id a ad n committed_ops op_id :
  index_ok (ip_state ip) → ip_accounts ip !! id = Some a →
  unprocessed_priority_op_id committed_ops block_number = Ok op_id →
  ∃ ip', load_state_diff (Ok (Some (block_number, [(id, Delete ad n)]))) committed_ops ip = Val (Ok tt, ip') ∧
    ip_accounts ip' !! id = Some Account_default ∧
    apply_updates (ip_accounts ip) [(id, Delete ad n)] !! id = None.
Proof.
  intros [Ht Hidx] Ha Hop. assert (leaf_ok account_tree_depth id) as Hid.
  { apply (tree_items_range (Tree := Tree) account_tree_depth (ip_tree ip)); [done|]. by exists a. }
  destruct (tree_remove_ok account_tree_depth (ip_tree ip) id Ht Hid) as (t1 & Hrem & Ht1 & Hi1).
  unfold load_state_diff, lift, update, mbind, exec_bind. cbn [apply_state_diff]. unfold InitParams_remove_account.
  rewrite Hrem. cbn [mbind outcome_bind fst snd]. change (tree_items (ip_tree ip) !! id) with (ip_accounts ip !! id).
  rewrite Ha. cbn [Account_apply_update mbind outcome_bind]. rewrite Hop. eexists. split; [done|]. split.
  - unfold ip_accounts, accounts, ip_state, PlasmaState_new. cbn [token_tree ip_tree]. rewrite Hi1.
    by rewrite lookup_insert_eq.
  - cbn. rewrite Ha. cbn. by rewrite lookup_delete_eq.
Qed.
End Theorems.
