(* ===== verification/TreeState.v ===== *)
(** * Restoring the state from Ethereum (core/data_restore/src/tree_state.rs)

    The restore driver keeps its own copy of the rollup state and replays the
    operations that it has decoded from the public data of each committed
    block.  Fields that are not published (the sender's address and nonce) are
    filled in from the state.  [utc_now n] is the [n]-th reading of the clock.

    Restoring is exact: the driver reaches the accounts, the updates, the root hash, the
    size and the priority counters of the state keeper from the public data of
    a block alone, over any tree that satisfies the laws of [SparseTree]. *)

From S2P Require Import Prelude Bytes Params Externals Primitives Amounts Account Tx Operations Block.
From S2P Require Import Merkle AccountLeaf PlasmaState PlasmaProofs Ledger StateKeeper StateKeeperProofs.
Open Scope Z_scope.

Section TreeState.
  Context `{EX : External} {Tree : Type} `{ST : !SparseTree Tree Account Fr}.
  Context (utc_now : nat → Z).

Record TreeState : Type := mkTreeState {
  ts_state : PlasmaState Tree;
  ts_current_unprocessed_priority_op : Z;
  last_fee_account_address : Address;
  ts_available_block_chunk_sizes : list nat;
  ts_clock_readings : nat;
}.

Definition TreeState_new (available_block_chunk_sizes : list nat) : outcome TreeState :=
  state ← PlasmaState_empty;
  Val (mkTreeState state 0 Address_zero available_block_chunk_sizes 0).

Definition TreeState_load (current_block : Z) (accounts : AccountMap) (current_unprocessed_priority_op : Z)
    (fee_account : AccountId) (available_block_chunk_sizes : list nat) : outcome TreeState :=
  state ← from_acc_map accounts current_block;
  account ← unwrap "Cant get fee account from tree state" (get_account fee_account state);
  Val (mkTreeState state current_unprocessed_priority_op (address account) available_block_chunk_sizes 0).

(** Field assignments. *)
Definition set_ts_state (s : PlasmaState Tree) (self : TreeState) : TreeState :=
  mkTreeState s (ts_current_unprocessed_priority_op self) (last_fee_account_address self)
    (ts_available_block_chunk_sizes self) (ts_clock_readings self).
Definition set_ts_priority_op (n : Z) (self : TreeState) : TreeState :=
  mkTreeState (ts_state self) n (last_fee_account_address self)
    (ts_available_block_chunk_sizes self) (ts_clock_readings self).
Definition set_fee_address (a : Address) (self : TreeState) : TreeState :=
  mkTreeState (ts_state self) (ts_current_unprocessed_priority_op self) a
    (ts_available_block_chunk_sizes self) (ts_clock_readings self).
Definition ts_tick (self : TreeState) : TreeState :=
  mkTreeState (ts_state self) (ts_current_unprocessed_priority_op self) (last_fee_account_address self)
    (ts_available_block_chunk_sizes self) (S (ts_clock_readings self)).

(** A method of the state, called on the field. *)
Definition on_state {A} (m : Exec (PlasmaState Tree) A) : Exec TreeState A := zoom ts_state set_ts_state m.

(** A method whose Rust type has no error. *)
Definition infallible {S A} (m : Exec S A) : Exec S A := λ s,
  match m s with Val (Err e, _) => Panic e | r => r end.

Definition map_err {S A} (prefix : string) (m : Exec S A) : Exec S A := λ s,
  match m s with Val (Err e, s') => Val (Err (String.append prefix e), s') | r => r end.

(** The local variables of [update_tree_states_from_ops_block]. *)
Record BlockAcc : Type := mkBlockAcc {
  ba_accounts_updated : AccountUpdates;
  ba_fees : list CollectedFee;
  ba_ops : list ExecutedOperations;
  ba_current_op_block_index : Z;
}.

Definition push_fee (fee : option CollectedFee) (fees : list CollectedFee) : list CollectedFee :=
  match fee with Some fee => fees ++ [fee] | None => fees end.

Definition update_from_priority_operation (priority_op : FranklinPriorityOp) (op_result : OpSuccess)
    (acc : BlockAcc) : Exec TreeState BlockAcc := λ self,
  let block_index := ba_current_op_block_index acc in
  let exec_result := mkExecutedPriorityOp (mkPriorityOp 0 priority_op 0 []) (os_executed_op op_result)
                       block_index in
  Val (Ok (mkBlockAcc (ba_accounts_updated acc ++ os_updates op_result)
             (push_fee (os_fee op_result) (ba_fees acc))
             (ba_ops acc ++ [ExPriorityOp exec_result])
             (wrap 32 (ba_current_op_block_index acc + 1))),
       set_ts_priority_op (wrap 64 (ts_current_unprocessed_priority_op self + 1)) self).

Definition update_from_tx (tx : FranklinTx) (tx_result : OpSuccess) (acc : BlockAcc) :
    Exec TreeState BlockAcc := λ self,
  let block_index := ba_current_op_block_index acc in
  let exec_result := mkExecutedTx tx true (Some (os_executed_op tx_result)) None (Some block_index)
                       (utc_now (ts_clock_readings self)) in
  Val (Ok (mkBlockAcc (ba_accounts_updated acc ++ os_updates tx_result)
             (push_fee (os_fee tx_result) (ba_fees acc))
             (ba_ops acc ++ [ExTx exec_result])
             (wrap 32 (ba_current_op_block_index acc + 1))),
       ts_tick self).

(** [self.state.get_account(id).ok_or_else(..)?] *)
Definition account_or (e : string) (id : AccountId) : Exec TreeState Account :=
  account ← gets (λ self, get_account id (ts_state self));
  lift (ok_or e account).

Definition restore_from (ad : Address) (n : Nonce) (tx : Transfer) : Transfer :=
  mkTransfer (tr_account_id tx) ad (tr_to tx) (tr_token_id tx) (tr_fee tx) n (tr_signature tx)
    (tr_cached_signer tx).
Definition restore_from_to (ad to : Address) (n : Nonce) (tx : Transfer) : Transfer :=
  mkTransfer (tr_account_id tx) ad to (tr_token_id tx) (tr_fee tx) n (tr_signature tx)
    (tr_cached_signer tx).
Definition restore_withdraw (ad : Address) (n : Nonce) (tx : Withdraw) : Withdraw :=
  mkWithdraw (wd_account_id tx) ad (wd_to tx) (wd_token_id tx) (wd_fee tx) n (wd_signature tx)
    (wd_cached_signer tx).
Definition restore_close (ad : Address) (n : Nonce) (tx : Close) : Close :=
  mkClose ad n (cl_signature tx).
Definition restore_change_pubkey (ad : Address) (n : Nonce) (tx : ChangePubKey) : ChangePubKey :=
  mkChangePubKey (cpk_account_id tx) ad (cpk_new_pk_hash tx) n (cpk_eth_signature tx).

(** One round of the loop over the operations. *)
Definition restore_operation (operation : FranklinOp) (acc : BlockAcc) : Exec TreeState BlockAcc :=
  match operation with
  | OpDeposit op =>
      let priority_op := PDeposit (dpo_priority_op op) in
      op_result ← on_state (infallible (execute_priority_op priority_op));
      update_from_priority_operation priority_op op_result acc
  | OpTransferToNew op =>
      from ← account_or "TransferToNew fail: Nonexistent account" (ttn_from op);
      let op := mkTransferToNewOp (restore_from (address from) (nonce from) (ttn_tx op))
                  (ttn_from op) (ttn_to op) in
      let tx := TxTransfer (ttn_tx op) in
      r ← map_err "TransferToNew fail: " (on_state (apply_transfer_to_new_op op));
      update_from_tx tx (mkOpSuccess (Some r.1) r.2 (OpTransferToNew op)) acc
  | OpWithdraw op =>
      account ← account_or "Withdraw fail: Nonexistent account" (wdo_account_id op);
      let op := mkWithdrawOp (restore_withdraw (address account) (nonce account) (wdo_tx op))
                  (wdo_account_id op) in
      let tx := TxWithdraw (wdo_tx op) in
      r ← map_err "Withdraw fail: " (on_state (apply_withdraw_op op));
      update_from_tx tx (mkOpSuccess (Some r.1) r.2 (OpWithdraw op)) acc
  | OpClose op =>
      account ← account_or "Close fail: Nonexistent account" (clo_account_id op);
      let op := mkCloseOp (restore_close (address account) (nonce account) (clo_tx op)) (clo_account_id op) in
      let tx := TxClose (clo_tx op) in
      r ← map_err "Close fail: " (on_state (apply_close_op op));
      update_from_tx tx (mkOpSuccess (Some r.1) r.2 (OpClose op)) acc
  | OpTransfer op =>
      from ← account_or "Nonexistent account" (tro_from op);
      to ← account_or "Nonexistent account" (tro_to op);
      let op := mkTransferOp (restore_from_to (address from) (address to) (nonce from) (tro_tx op))
                  (tro_from op) (tro_to op) in
      let tx := TxTransfer (tro_tx op) in
      r ← map_err "Withdraw fail: " (on_state (apply_transfer_op op));
      update_from_tx tx (mkOpSuccess (Some r.1) r.2 (OpTransfer op)) acc
  | OpFullExit op =>
      let priority_op := PFullExit (feo_priority_op op) in
      op_result ← on_state (infallible (execute_priority_op priority_op));
      update_from_priority_operation priority_op op_result acc
  | OpChangePubKeyOffchain op =>
      account ← account_or "ChangePubKeyOffChain fail: Nonexistent account" (cpo_account_id op);
      let op := mkChangePubKeyOp (restore_change_pubkey (address account) (nonce account) (cpo_tx op))
                  (cpo_account_id op) in
      let tx := TxChangePubKey (cpo_tx op) in
      r ← map_err "ChangePubKeyOffChain fail: " (on_state (apply_change_pubkey_op op));
      update_from_tx tx (mkOpSuccess (Some r.1) r.2 (OpChangePubKeyOffchain op)) acc
  | OpNoop => mret acc
  end.

Fixpoint restore_operations (operations : list FranklinOp) (acc : BlockAcc) : Exec TreeState BlockAcc :=
  match operations with
  | [] => mret acc
  | operation :: operations => acc ← restore_operation operation acc; restore_operations operations acc
  end.

Definition update_tree_states_from_ops_block (ops_block : RollupOpsBlock) :
    Exec TreeState (Block * AccountUpdates) :=
  last_unprocessed_prior_op ← gets ts_current_unprocessed_priority_op;
  acc ← restore_operations (rob_ops ops_block) (mkBlockAcc [] [] [] 0);
  fee_account ← account_or "Nonexistent account" (rob_fee_account ops_block);
  fee_updates ← on_state (infallible (collect_fee (ba_fees acc) (rob_fee_account ops_block)));
  let accounts_updated := ba_accounts_updated acc ++ fee_updates in
  _ ← update (λ self, Val (set_fee_address (address fee_account) self));
  root ← on_state (λ s, match root_hash s with Val (h, s) => Val (Ok h, s) | Panic msg => Panic msg end);
  current ← gets ts_current_unprocessed_priority_op;
  sizes ← gets ts_available_block_chunk_sizes;
  block ← total (new_from_availabe_block_sizes (rob_block_num ops_block) root (rob_fee_account ops_block)
                   (ba_ops acc) (last_unprocessed_prior_op, current) sizes);
  _ ← update (λ self, let s := ts_state self in
        Val (set_ts_state (mkPlasmaState (token_tree s) (account_id_by_address s)
                             (wrap 32 (ps_block_number s + 1))) self));
  mret (block, accounts_updated).
End TreeState.
Arguments TreeState Tree : clear implicits.

Section Published.
  Context `{EX : External}.
  Implicit Types (m : AccountMap) (op : FranklinOp).

(** The operation as it is restored: the decoded operation with the fields that the state
    supplies. Signatures, the sender of a deposit and the fee of a transfer to a new
    account are lost. *)
Definition restored (sg : TxSignature) op : FranklinOp :=
  match op with
  | OpTransferToNew (mkTransferToNewOp tx from to) =>
      OpTransferToNew (mkTransferToNewOp
        (mkTransfer from (tr_from tx) (tr_to tx) (tr_token_id tx) (u128_to_bigdecimal 0) (tr_nonce tx)
           sg NotCached) from to)
  | OpTransfer (mkTransferOp tx from to) =>
      OpTransfer (mkTransferOp
        (mkTransfer from (tr_from tx) (tr_to tx) (tr_token_id tx) (published_fee (tr_fee tx)) (tr_nonce tx)
           sg NotCached) from to)
  | OpWithdraw (mkWithdrawOp tx id) =>
      OpWithdraw (mkWithdrawOp
        (mkWithdraw id (wd_from tx) (wd_to tx) (wd_token_id tx) (published_fee (wd_fee tx)) (wd_nonce tx)
           sg NotCached) id)
  | _ => forget sg op
  end.

Lemma restored_chunks sg op : FranklinOp_chunks (restored sg op) = FranklinOp_chunks op.
Proof. by destruct op as [|[]|[]|[]|[]|[]|[]|[]]. Qed.

(** The ledger does not look at the lost fields. *)
Lemma ledger_step_restored sg m op us m' : ledger_step m op us m' → ledger_step m (restored sg op) us m'.
Proof.
  destruct 1; cbn [restored forget].
  - by apply (LDeposit m (mkDeposit Address_zero _ _)).
  - by apply (LDepositNew m (mkDeposit Address_zero _ _)).
  - by apply (LTransferToNew m (mkTransfer _ _ _ _ _ _ _ _)).
  - by apply (LTransfer m (mkTransfer _ _ _ _ _ _ _ _)).
  - by apply (LTransferSelf m (mkTransfer _ _ _ _ _ _ _ _)).
  - by apply (LWithdraw m (mkWithdraw _ _ _ _ _ _ _ _)).
  - by apply (LChangePubKey m (mkChangePubKey _ _ _ _ _)).
  - by apply LFullExit.
Qed.

Lemma ledger_step_det m op us m1 us' m2 :
  ledger_step m op us m1 → ledger_step m op us' m2 → us = us' ∧ m1 = m2.
Proof. intros H1 H2. destruct H1; inversion H2; simplify_eq; try done; congruence. Qed.

Lemma ledger_step_guard m op us m' : ledger_step m op us m' → op_guard m op.
Proof. destruct 1; cbn; eauto. Qed.

(** The address of a deposit determines its account. *)
Lemma op_addressed_deposit m d d' id id' :
  (∀ i j a b, m !! i = Some a → m !! j = Some b → address a = address b → i = j) → dp_to d = dp_to d' →
  op_addressed m (OpDeposit (mkDepositOp d id)) → op_addressed m (OpDeposit (mkDepositOp d' id')) → id = id'.
Proof.
  cbn. intros Hinj -> [(a & Ha & E)|(-> & _ & Hno)] [(a' & Ha' & E')|(-> & _ & Hno')]; try done.
  - eapply Hinj; [done..|congruence].
  - by destruct (Hno' _ _ Ha).
  - by destruct (Hno _ _ Ha').
Qed.
End Published.

Section Restore.
  Context `{EX : External} `{EXL : !ExternalLaws} {Tree : Type} `{ST : !SparseTree Tree Account Fr}.
  Context `{SL : !SparseTreeLaws Tree Account Fr}.
  Context (utc_now : nat → Z).
  Implicit Types (ts : TreeState Tree) (m : AccountMap).

Definition ts_accounts ts : AccountMap := accounts (ts_state ts).

(** What one restored operation does. *)
Definition restores (sg : TxSignature) (op : FranklinOp) (us : AccountUpdates) m' ts acc
    (r : outcome (result BlockAcc * TreeState Tree)) : Prop :=
  ∃ acc' ts', r = Val (Ok acc', ts') ∧ state_ok (ts_state ts') ∧ ts_accounts ts' = m' ∧
    ts_available_block_chunk_sizes ts' = ts_available_block_chunk_sizes ts ∧
    ts_current_unprocessed_priority_op ts' =
      (if is_priority_op op then wrap 64 (ts_current_unprocessed_priority_op ts + 1)
       else ts_current_unprocessed_priority_op ts) ∧
    ba_accounts_updated acc' = ba_accounts_updated acc ++ us ∧
    omap get_executed_op (ba_ops acc') = omap get_executed_op (ba_ops acc) ++ [restored sg op].

Lemma account_or_Val e id a ts :
  ts_accounts ts !! id = Some a → account_or e id ts = Val (Ok a, ts).
Proof.
  unfold ts_accounts. intros Ha. unfold account_or, gets, mbind, exec_bind. by rewrite get_account_lookup, Ha.
Qed.

Lemma restore_priority_op_ok sg op p us m' ts acc :
  state_ok (ts_state ts) → ledger_step (ts_accounts ts) op us m' → op_addressed (ts_accounts ts) op →
  try_get_priority_op (restored sg op) = Ok p → is_priority_op op = true →
  restores sg op us m' ts acc
    ((on_state (infallible (execute_priority_op p)) ≫= λ r, update_from_priority_operation p r acc) ts).
Proof.
  intros Hs Hstep Hadd Hp Hprio. pose proof (ledger_step_restored sg _ _ _ _ Hstep) as Hstep'.
  destruct (execute_priority_op_ok (ts_state ts) p Hs) as ([fee us' op'] & s' & Hrun & Hs' & Hstep2 & Hadd2 & Hget & _).
  { destruct op as [|[d id]|[]|[]|[]|[]|[e]|[]]; try done; cbn in Hp; injection Hp as <-; cbn.
    - destruct Hadd as [(a & Ha & E)|(? & ? & _)]; [left; by exists id, a|right; unfold ts_accounts in *; lia].
    - inversion Hstep; subst. by eexists. }
  assert (op' = restored sg op) as ->.
  { destruct op as [|[d id]|[]|[]|[]|[]|[e]|[]]; try done; cbn in Hp; injection Hp as <-;
      cbn [os_executed_op] in *; destruct op' as [|[d' id']|[]|[]|[]|[]|[e']|[]]; try done;
      cbn in Hget; injection Hget as ->; [|done].
    cbn [restored forget]. do 2 f_equal.
    eapply (op_addressed_deposit (ts_accounts ts)); [|done|exact Hadd2|exact Hadd]. intros ????. by eapply sk_address_inj. }
  cbn [os_executed_op os_updates] in *. destruct (ledger_step_det _ _ _ _ _ _ Hstep' Hstep2) as [<- ->].
  unfold restores, on_state, zoom, infallible, update_from_priority_operation, mbind, exec_bind. rewrite Hrun.
  eexists _, _. split; [done|]. cbn [ba_ops ba_accounts_updated]. rewrite omap_app, Hprio. by split_and!.
Qed.

(** The shape of the other operations. *)
Lemma restore_tx_ok sg op us m' ts acc tx msg
    (apply : Exec (PlasmaState Tree) (CollectedFee * AccountUpdates)) :
  ledger_step (ts_accounts ts) op us m' → is_priority_op op = false →
  op_outcome (ts_state ts) (restored sg op) (apply (ts_state ts)) →
  restores sg op us m' ts acc
    ((map_err msg (on_state apply) ≫= λ r,
        update_from_tx utc_now tx (mkOpSuccess (Some r.1) r.2 (restored sg op)) acc) ts).
Proof.
  intros Hstep Hprio [[Hg _]|(_ & fee & us' & s' & Hrun & Hs' & Hstep2 & Hn)].
  { destruct Hg. eapply ledger_step_guard. by apply ledger_step_restored. }
  destruct (ledger_step_det _ _ _ _ _ _ (ledger_step_restored sg _ _ _ _ Hstep) Hstep2) as [<- ->].
  unfold restores, map_err, on_state, zoom, update_from_tx, mbind, exec_bind. rewrite Hrun.
  eexists _, _. split; [done|]. cbn [ba_ops ba_accounts_updated]. rewrite omap_app, Hprio. by split_and!.
Qed.

Lemma restore_operation_ok sg op us m' ts acc :
  state_ok (ts_state ts) → ledger_step (ts_accounts ts) op us m' → op_addressed (ts_accounts ts) op →
  restores sg op us m' ts acc (restore_operation utc_now (forget sg op) acc ts).
Proof.
  intros Hs Hstep Hadd. destruct op as [|[d id]|[tx from to]|[tx id]|[tx id]|[tx from to]|[e]|[tx id]];
    cbn [forget restore_operation]; try (by inversion Hstep).
  - by apply (restore_priority_op_ok sg (OpDeposit (mkDepositOp d id))).
  - cbn in Hadd. destruct Hadd as ((a & Ha & Had) & Hto & Hlt & Hno).
    unfold mbind at 1, exec_bind at 1. cbn [ttn_from ttn_to ttn_tx]. rewrite (account_or_Val _ _ a) by done.
    assert (nonce a = tr_nonce tx) as Hn by (inversion Hstep; simplify_eq; done). rewrite Had, Hn.
    apply (restore_tx_ok sg (OpTransferToNew (mkTransferToNewOp tx from to)) _ _ _ _ _ _ _ Hstep); [done|].
    eapply apply_transfer_to_new_op_ok; try done. cbn [tr_to restore_from].
    apply eq_None_not_Some. intros [j Hj]. apply (sk_index _ Hs) in Hj as (b & Hb & E). by apply (Hno j b).
  - destruct Hadd as (a & Ha & Had).
    unfold mbind at 1, exec_bind at 1. cbn [wdo_account_id wdo_tx]. rewrite (account_or_Val _ _ a) by done.
    assert (nonce a = wd_nonce tx) as Hn by (inversion Hstep; simplify_eq; done). rewrite Had, Hn.
    apply (restore_tx_ok sg (OpWithdraw (mkWithdrawOp tx id)) _ _ _ _ _ _ _ Hstep); [done|].
    by eapply apply_withdraw_op_ok.
  - destruct Hadd as ((a & Ha & Had) & b & Hb & Hbd).
    unfold mbind at 1, exec_bind at 1. cbn [tro_from tro_to tro_tx]. rewrite (account_or_Val _ _ a) by done.
    unfold mbind at 1, exec_bind at 1. rewrite (account_or_Val _ _ b) by done.
    assert (nonce a = tr_nonce tx) as Hn by (inversion Hstep; simplify_eq; done). rewrite Had, Hbd, Hn.
    apply (restore_tx_ok sg (OpTransfer (mkTransferOp tx from to)) _ _ _ _ _ _ _ Hstep); [done|].
    by eapply apply_transfer_op_ok.
  - by apply (restore_priority_op_ok sg (OpFullExit (mkFullExitOp e))).
  - destruct Hadd as (a & Ha & Had).
    unfold mbind at 1, exec_bind at 1. cbn [cpo_account_id cpo_tx]. rewrite (account_or_Val _ _ a) by done.
    assert (nonce a = cpk_nonce tx) as Hn by (inversion Hstep; simplify_eq; done). rewrite Had, Hn.
    apply (restore_tx_ok sg (OpChangePubKeyOffchain (mkChangePubKeyOp tx id)) _ _ _ _ _ _ _ Hstep); [done|].
    by eapply apply_change_pubkey_op_ok.
Qed.

(** ** Blocks *)

Lemma restore_operations_app l l' acc ts :
  restore_operations utc_now (l ++ l') acc ts =
  (restore_operations utc_now l acc ≫= λ acc, restore_operations utc_now l' acc) ts.
Proof.
  revert acc ts. induction l as [|op l IH]; intros acc ts; [done|]. cbn [app restore_operations].
  unfold mbind, exec_bind in *. destruct (restore_operation utc_now op acc ts) as [[[acc'|e] ts']|msg]; [|done..].
  apply IH.
Qed.

Lemma restore_noops k acc ts : restore_operations utc_now (replicate k OpNoop) acc ts = Val (Ok acc, ts).
Proof. induction k as [|k IH]; [done|]. cbn [replicate restore_operations restore_operation]. apply IH. Qed.

Lemma restore_operations_ok sg m ops us m' ts :
  ledger_run m ops us m' → state_ok (ts_state ts) → ts_accounts ts = m →
  ∃ acc ts', restore_operations utc_now (forget sg <$> ops) (mkBlockAcc [] [] [] 0) ts = Val (Ok acc, ts') ∧
    state_ok (ts_state ts') ∧ ts_accounts ts' = m' ∧
    ts_available_block_chunk_sizes ts' = ts_available_block_chunk_sizes ts ∧
    (ts_current_unprocessed_priority_op ts' =
       wrap 64 (ts_current_unprocessed_priority_op ts + count_priority ops) ∨
     ts_current_unprocessed_priority_op ts' = ts_current_unprocessed_priority_op ts ∧ count_priority ops = 0) ∧
    ba_accounts_updated acc = us ∧ omap get_executed_op (ba_ops acc) = restored sg <$> ops.
Proof.
  intros Hrun Hs Hm. induction Hrun as [|ops us m1 op us1 m2 _ IH Hstep Hadd _].
  { eexists _, ts. split; [done|]. split_and!; try done. by right. }
  destruct IH as (acc & ts1 & Hrun & Hs1 & Hm1 & Hsz & Hp & Hus & Hops).
  rewrite fmap_app, restore_operations_app. unfold mbind, exec_bind. rewrite Hrun. rewrite <- Hm1 in Hstep, Hadd.
  destruct (restore_operation_ok sg op us1 m2 ts1 acc Hs1 Hstep Hadd)
    as (acc' & ts2 & Hrun2 & Hs2 & Hm2 & Hsz2 & Hp2 & Hus2 & Hops2).
  cbn [fmap list_fmap restore_operations]. unfold mbind, exec_bind. rewrite Hrun2.
  exists acc', ts2. split; [done|]. split; [done|]. split; [done|]. split; [congruence|].
  split; [|split; [by rewrite Hus2, Hus|by rewrite Hops2, Hops, fmap_app]].
  assert (count_priority (ops ++ [op]) = count_priority ops + if is_priority_op op then 1 else 0) as ->.
  { rewrite count_priority_app. unfold count_priority at 2. cbn [List.filter]. by destruct (is_priority_op op). }
  rewrite Hp2. destruct (is_priority_op op).
  - left. destruct Hp as [-> | [-> ->]]; [|done]. unfold wrap. rewrite Zplus_mod_idemp_l. f_equal. lia.
  - destruct Hp as [-> | [-> ->]]; [left|by right]. f_equal. lia.
Qed.

Lemma ledger_run_leaves_ok m ops us m' : ledger_run m ops us m' → leaves_ok m → leaves_ok m'.
Proof. induction 1; [done|]. intros ?. eapply leaves_ok_step; [|done|done]. auto. Qed.

Lemma sum_chunks_restored sg ops : sum_chunks (restored sg <$> ops) = sum_chunks ops.
Proof.
  unfold sum_chunks. rewrite <- list_fmap_compose. f_equal. apply list_fmap_ext. intros ? op _. apply restored_chunks.
Qed.

(** The restored block: what is compared with the block that the keeper sealed. *)
Definition same_block (sg : TxSignature) (b b' : Block) : Prop :=
  block_number b' = block_number b ∧ new_root_hash b' = new_root_hash b ∧ fee_account b' = fee_account b ∧
  processed_priority_ops b' = processed_priority_ops b ∧ block_chunks_size b' = block_chunks_size b ∧
  block_ops b' = restored sg <$> block_ops b.

(** A restore state that mirrors the keeper before a block. *)
Definition mirrors ts (sizes : list nat) (p : Z) m : Prop :=
  state_ok (ts_state ts) ∧ ts_accounts ts = m ∧ ts_current_unprocessed_priority_op ts = p ∧
  ts_available_block_chunk_sizes ts = sizes.

Lemma restore_block_ok sg sizes n p m c m' ts k :
  block_ok sizes n p m c m' → leaves_ok m → fits 64 p → is_Some (m' !! fee_account (cr_block c)) →
  mirrors ts sizes p m →
  ∃ b' ts', update_tree_states_from_ops_block utc_now
      (mkRollupOpsBlock n ((forget sg <$> block_ops (cr_block c)) ++ replicate k OpNoop)
         (fee_account (cr_block c))) ts = Val (Ok (b', cr_accounts_updated c), ts') ∧
    same_block sg (cr_block c) b' ∧ mirrors ts' sizes (processed_priority_ops (cr_block c)).2 m'.
Proof.
  intros Hb Hl Hp [fa Hfa] (Hs & Hm & Hpr & Hsz).
  destruct (restore_operations_ok sg m _ _ m' ts (bo_run _ _ _ _ _ _ Hb) Hs Hm)
    as (acc & ts1 & Hrun & Hs1 & Hm1 & Hsz1 & Hp1 & Hus & Hops).
  assert (ts_current_unprocessed_priority_op ts1 = wrap 64 (p + count_priority (block_ops (cr_block c)))) as Hpr1.
  { destruct Hp1 as [-> | [-> ->]]; [by rewrite Hpr|]. by rewrite Z.add_0_r, wrap_small, Hpr. }
  pose proof (ledger_run_leaves_ok _ _ _ _ (bo_run _ _ _ _ _ _ Hb) Hl) as Hl'.
  unfold update_tree_states_from_ops_block, gets, mbind, exec_bind. cbn [rob_ops rob_fee_account rob_block_num].
  rewrite restore_operations_app. unfold mbind at 1, exec_bind at 1. rewrite Hrun, restore_noops.
  rewrite (account_or_Val _ _ fa) by (by rewrite Hm1).
  unfold on_state at 1, zoom at 1, infallible at 1, collect_fee at 1, gets, mbind, exec_bind.
  rewrite get_account_lookup. fold (ts_accounts ts1). rewrite Hm1, Hfa.
  cbn [unwrap total lift lift_outcome mret exec_ret update]. unfold update, on_state, zoom.
  cbn [ts_state set_fee_address set_ts_state].
  destruct (root_hash_ok (ts_state ts1) Hs1) as (s2 & -> & Hs2 & Hacc2 & Hn2);
    [by fold (ts_accounts ts1); rewrite Hm1|].
  cbn [ts_current_unprocessed_priority_op ts_available_block_chunk_sizes set_ts_state set_fee_address].
  rewrite Hsz1, Hsz, Hpr, Hpr1. fold (ts_accounts ts1). rewrite Hm1.
  unfold new_from_availabe_block_sizes, total, lift, lift_outcome.
  assert (∀ x h f l pr z, smallest_block_size (mkBlock x h f l pr z) sizes =
    smallest_block_size_for_chunks (sum_chunks (omap get_executed_op l)) sizes) as Hsmall by done.
  assert (smallest_block_size_for_chunks (sum_chunks (block_ops (cr_block c))) sizes =
          Val (block_chunks_size (cr_block c))) as Hsize by apply (bo_size _ _ _ _ _ _ Hb).
  rewrite Hsmall, Hops, sum_chunks_restored, Hsize.
  cbn [mbind outcome_bind]. eexists _, _. rewrite app_nil_r, Hus. split; [done|]. split.
  - unfold same_block. rewrite (bo_number _ _ _ _ _ _ Hb), (bo_root _ _ _ _ _ _ Hb).
    rewrite (bo_priority _ _ _ _ _ _ Hb).
    cbn [block_number new_root_hash fee_account processed_priority_ops block_chunks_size].
    do 5 (split; [reflexivity|]). exact Hops.
  - unfold mirrors. cbn [ts_state set_ts_state ts_current_unprocessed_priority_op ts_available_block_chunk_sizes
      set_fee_address].
    rewrite Hsz1, Hpr1, (bo_priority _ _ _ _ _ _ Hb). split; [destruct Hs2 as [Ht Hi Hd]; by split|].
    split; [|done]. etrans; [|exact Hm1]. exact Hacc2.
Qed.
End Restore.
