(* ===== verification/EventsState.v ===== *)
(** * The events of the rollup contract
    (core/data_restore/src/events_state.rs, events.rs)

    The restore driver reads the contract's [BlockCommit], [BlockVerification]
    and [BlocksRevert] events, keeps the committed blocks that are not yet
    restored, and hands out those that were verified.  Answers of the Ethereum
    node are arguments; a 32-byte hash is an integer. *)

From S2P Require Import Prelude Bytes Params Externals Primitives Amounts Account Tx Operations.
Open Scope Z_scope.

Inductive EventType : Type := Committed | Verified.

Record BlockEvent : Type := mkBlockEvent {
  be_block_num : Z;
  be_transaction_hash : Z;
  be_block_type : EventType;
}.

Record EventsState : Type := mkEventsState {
  committed_events : list BlockEvent;
  verified_events : list BlockEvent;
  last_watched_eth_block_number : Z;
}.

Definition EventsState_default : EventsState := mkEventsState [] [] 0.

(** A log of the contract. *)
Record BlockLog : Type := mkBlockLog {
  bl_topics : list Z;
  bl_transaction_hash : option Z;
}.

Section Events.
  (** The signatures of the three events, from the contract's ABI. *)
  Context (block_verified_topic block_comitted_topic reverted_topic : Z).

(** [while i != len { if v[i].block_num > n { v.remove(i) } else { i += 1 } }] *)
Fixpoint revert_loop (fuel : nat) (i : nat) (committed_total : Z) (v : list BlockEvent) : list BlockEvent :=
  match fuel with
  | O => v
  | S fuel =>
      match v !! i with
      | None => v
      | Some e =>
          if committed_total <? be_block_num e
          then revert_loop fuel i committed_total (delete i v)
          else revert_loop fuel (S i) committed_total v
      end
  end.

Definition index_topic (l : BlockLog) (i : nat) : outcome Z :=
  unwrap "index out of bounds" (bl_topics l !! i).

(** One round of the loop over the logs. *)
Definition process_log (log : BlockLog) (self : EventsState) : outcome EventsState :=
  topic ← index_topic log 0;
  _ ← assert_that (2 <=? length (bl_topics log))%nat "Cant get enouth topics from event";
  self ← (if topic =? reverted_topic then
            _ ← assert_that (length (bl_topics log) =? 3)%nat "Cant get enouth topics from reverted event";
            t ← index_topic log 2;
            committed_total ← as_u32 t;
            Val (mkEventsState
                   (revert_loop (length (committed_events self)) 0 committed_total (committed_events self))
                   (verified_events self) (last_watched_eth_block_number self))
          else Val self);
  tx_hash ← unwrap "There are no tx hash in block event" (bl_transaction_hash log);
  block_num ← index_topic log 1;
  block_num ← as_u32 block_num;
  if topic =? block_verified_topic then
    Val (mkEventsState (committed_events self)
           (verified_events self ++ [mkBlockEvent block_num tx_hash Verified])
           (last_watched_eth_block_number self))
  else if topic =? block_comitted_topic then
    Val (mkEventsState (committed_events self ++ [mkBlockEvent block_num tx_hash Committed])
           (verified_events self) (last_watched_eth_block_number self))
  else Val self.

Fixpoint process_logs (logs : list BlockLog) (self : EventsState) : outcome EventsState :=
  match logs with
  | [] => Val self
  | log :: logs => self ← process_log log self; process_logs logs self
  end.

Definition update_blocks_state (logs : list BlockLog) (self : EventsState) : outcome (bool * EventsState) :=
  match logs with
  | [] => Val (false, self)
  | _ => self ← process_logs logs self; Val (true, self)
  end.

Definition remove_verified_events (self : EventsState) : outcome EventsState :=
  let count_to_remove := length (verified_events self) in
  _ ← slice (committed_events self) 0 count_to_remove;
  Val (mkEventsState (drop count_to_remove (committed_events self)) []
         (last_watched_eth_block_number self)).

Definition get_only_verified_committed_events (self : EventsState) : outcome (list BlockEvent) :=
  slice (committed_events self) 0 (length (verified_events self)).

(** The range of Ethereum blocks to look at next, [None] when there is no new block;
    [last_block] is the number of the latest block, and the integers wrap. *)
Definition next_range (last_block last_watched_block_number eth_blocks_step end_eth_blocks_offset : Z) :
    option (Z * Z) :=
  let latest_eth_block_minus_delta := wrap 64 (last_block - end_eth_blocks_offset) in
  if latest_eth_block_minus_delta =? last_watched_block_number then None
  else
    let from_block_number := wrap 64 (last_watched_block_number + 1) in
    let to_block_number :=
      if latest_eth_block_minus_delta <=? wrap 64 (from_block_number + eth_blocks_step)
      then latest_eth_block_minus_delta
      else wrap 64 (from_block_number + eth_blocks_step) in
    Some (from_block_number, to_block_number).

(** [block_number] and [logs from to] are the answers of the node. *)
Definition get_new_events_and_last_watched_block (block_number : result Z)
    (logs : Z → Z → result (list BlockLog))
    (last_watched_block_number eth_blocks_step end_eth_blocks_offset : Z) :
    result (list BlockLog * Z) :=
  match block_number with
  | Err e => Err e
  | Ok last_block =>
      match next_range last_block last_watched_block_number eth_blocks_step end_eth_blocks_offset with
      | None => Ok ([], last_watched_block_number)
      | Some (from, to) =>
          match logs from to with
          | Ok block_logs => Ok (block_logs, to)
          | Err e => Err (String.append "No new logs: " e)
          end
      end
  end.

Definition update_events_state (block_number : result Z) (logs : Z → Z → result (list BlockLog))
    (eth_blocks_step end_eth_blocks_offset : Z) : Exec EventsState (list BlockEvent * Z) :=
  _ ← update remove_verified_events;
  watched ← gets last_watched_eth_block_number;
  r ← lift (Val (get_new_events_and_last_watched_block block_number logs watched eth_blocks_step
                   end_eth_blocks_offset));
  let '(block_events, to_block_number) := r in
  _ ← update (λ self, Val (mkEventsState (committed_events self) (verified_events self) to_block_number));
  self ← gets id;
  r ← total (update_blocks_state block_events self);
  let '(has_logs, self) := r in
  _ ← update (λ _, Val self);
  mret (if has_logs : bool then (committed_events self ++ verified_events self, to_block_number)
        else ([], to_block_number)).
End Events.

(** ** The contract

    What the driver relies on: blocks are committed in order, the lowest
    unverified block is verified next, and only unverified blocks are reverted. *)

Record Contract : Type := mkContract {
  ct_verified : nat;
  (** the hash of the transaction that committed block [1], [2], ... *)
  ct_commits : list Z;
}.

Inductive contract_step (vt ct rt : Z) : Contract → BlockLog → Contract → Prop :=
| step_commit c h :
    Z.of_nat (S (length (ct_commits c))) < 2 ^ 32 →
    contract_step vt ct rt c (mkBlockLog [ct; Z.of_nat (S (length (ct_commits c)))] (Some h))
      (mkContract (ct_verified c) (ct_commits c ++ [h]))
| step_verify c h :
    (ct_verified c < length (ct_commits c))%nat →
    contract_step vt ct rt c (mkBlockLog [vt; Z.of_nat (S (ct_verified c))] (Some h))
      (mkContract (S (ct_verified c)) (ct_commits c))
| step_revert c h n :
    (ct_verified c ≤ n ≤ length (ct_commits c))%nat →
    contract_step vt ct rt c (mkBlockLog [rt; Z.of_nat (ct_verified c); Z.of_nat n] (Some h))
      (mkContract (ct_verified c) (take n (ct_commits c))).

Inductive contract_steps (vt ct rt : Z) : Contract → list BlockLog → Contract → Prop :=
| steps_nil c : contract_steps vt ct rt c [] c
| steps_cons c log c1 logs c2 :
    contract_step vt ct rt c log c1 → contract_steps vt ct rt c1 logs c2 →
    contract_steps vt ct rt c (log :: logs) c2.

Definition contract_ok (c : Contract) : Prop :=
  (ct_verified c ≤ length (ct_commits c))%nat ∧ Z.of_nat (length (ct_commits c)) < 2 ^ 32.

(** The events of the blocks numbered from [S b] on. *)
Fixpoint commit_events (b : nat) (hashes : list Z) : list BlockEvent :=
  match hashes with
  | [] => []
  | h :: hashes => mkBlockEvent (Z.of_nat (S b)) h Committed :: commit_events (S b) hashes
  end.

(** The driver has handed out the blocks up to [b] and mirrors the contract beyond. *)
Definition events_match (b : nat) (c : Contract) (es : EventsState) : Prop :=
  (b ≤ ct_verified c)%nat ∧ contract_ok c ∧
  committed_events es = commit_events b (drop b (ct_commits c)) ∧
  length (verified_events es) = (ct_verified c - b)%nat.

(** ** Facts *)

Lemma revert_loop_filter fuel i n v :
  (length v ≤ i + fuel)%nat →
  revert_loop fuel i n v = take i v ++ List.filter (λ e, negb (n <? be_block_num e)) (drop i v).
Proof.
  revert i v. induction fuel as [|fuel IH]; intros i v Hf; cbn [revert_loop].
  { rewrite take_ge, drop_ge by lia. by rewrite app_nil_r. }
  destruct (v !! i) as [e|] eqn:Hi.
  - pose proof (lookup_lt_Some _ _ _ Hi). rewrite (drop_S v e i Hi). cbn [List.filter].
    destruct (n <? be_block_num e); cbn [negb].
    + rewrite IH by (rewrite length_delete by (by eexists); lia). rewrite delete_take_drop.
      rewrite take_app_le by (rewrite length_take; lia). rewrite take_take, Nat.min_id.
      by rewrite drop_app_length' by (rewrite length_take; lia).
    + rewrite IH by lia. rewrite (take_S_r v i e Hi), <- app_assoc. done.
  - apply lookup_ge_None in Hi. rewrite take_ge, drop_ge by lia. by rewrite app_nil_r.
Qed.

Lemma commit_events_app b l l' :
  commit_events b (l ++ l') = commit_events b l ++ commit_events (b + length l) l'.
Proof.
  revert b. induction l as [|h l IH]; intros b; cbn [commit_events app length]; [by rewrite Nat.add_0_r|].
  rewrite IH. do 3 f_equal. lia.
Qed.

Lemma commit_events_length b l : length (commit_events b l) = length l.
Proof. revert b. induction l; intros; cbn; auto. Qed.

Lemma commit_events_take b n l : take n (commit_events b l) = commit_events b (take n l).
Proof. revert b n. induction l; intros b [|n]; cbn; f_equal; auto. Qed.

Lemma commit_events_drop b n l : (n ≤ length l)%nat → drop n (commit_events b l) = commit_events (b + n) (drop n l).
Proof.
  revert b n. induction l as [|h l IH]; intros b [|n] Hn; cbn in *; rewrite ?Nat.add_0_r; try done.
  rewrite IH by lia. f_equal. lia.
Qed.

Lemma commit_events_filter b n l :
  List.filter (λ e, negb (Z.of_nat n <? be_block_num e)) (commit_events b l) = commit_events b (take (n - b) l).
Proof.
  revert b. induction l as [|h l IH]; intros b; cbn [commit_events List.filter]; [by rewrite take_nil|].
  cbn [be_block_num]. destruct (Z.ltb_spec (Z.of_nat n) (Z.of_nat (S b))); cbn [negb].
  - rewrite IH. replace (n - S b)%nat with 0%nat by lia. replace (n - b)%nat with 0%nat by lia. done.
  - rewrite IH. replace (n - b)%nat with (S (n - S b)) by lia. done.
Qed.

Lemma as_u32_nat n : Z.of_nat n < 2 ^ 32 → as_u32 (Z.of_nat n) = Val (Z.of_nat n).
Proof. intros. unfold as_u32. by rewrite bool_decide_true by (unfold fits; lia). Qed.

Section Correct.
  Context (vt ct rt : Z) (Htopics : vt ≠ ct ∧ vt ≠ rt ∧ ct ≠ rt).

Lemma process_log_ok b c log c' es :
  contract_step vt ct rt c log c' → events_match b c es →
  ∃ es', process_log vt ct rt log es = Val es' ∧ events_match b c' es' ∧
    last_watched_eth_block_number es' = last_watched_eth_block_number es.
Proof.
  destruct Htopics as (Hvc & Hvr & Hcr).
  intros Hstep. destruct Hstep as [c h Hfit|c h Hlt|c h n Hn]; intros (Hb & [Hv Hlen] & Hcom & Hver);
    unfold process_log, index_topic; cbn [bl_topics bl_transaction_hash lookup list_lookup unwrap mbind outcome_bind
      length Nat.leb Nat.eqb assert_that].
  - destruct (Z.eqb_spec ct rt); [done|]. cbn [mbind outcome_bind]. rewrite as_u32_nat by lia. cbn [mbind outcome_bind].
    destruct (Z.eqb_spec ct vt); [congruence|]. rewrite Z.eqb_refl. eexists. split; [done|]. split; [|done].
    unfold events_match, contract_ok; split_and!; cbn [ct_verified ct_commits committed_events verified_events]; [done|rewrite length_app; cbn [length]; lia..| |done].
    rewrite drop_app_le by lia. rewrite commit_events_app, length_drop, <- Hcom. cbn [commit_events].
    replace (S (b + (length (ct_commits c) - b)))%nat with (S (length (ct_commits c))) by lia. done.
  - destruct (Z.eqb_spec vt rt); [done|]. cbn [mbind outcome_bind]. rewrite as_u32_nat by lia. cbn [mbind outcome_bind].
    rewrite Z.eqb_refl. eexists. split; [done|]. split; [|done].
    unfold events_match, contract_ok; split_and!; cbn [ct_verified ct_commits committed_events verified_events]; try done; try lia.
    rewrite length_app, Hver. cbn. lia.
  - rewrite Z.eqb_refl. cbn [mbind outcome_bind]. rewrite as_u32_nat by lia. cbn [mbind outcome_bind].
    rewrite as_u32_nat by lia. cbn [mbind outcome_bind].
    destruct (Z.eqb_spec rt vt); [congruence|]. destruct (Z.eqb_spec rt ct); [congruence|].
    eexists. split; [done|]. split; [|done].
    unfold events_match, contract_ok; split_and!; cbn [ct_verified ct_commits committed_events verified_events]; try done.
    + rewrite length_take. lia.
    + rewrite length_take. lia.
    + rewrite revert_loop_filter by lia. rewrite take_0, drop_0, Hcom, commit_events_filter.
      cbn [app]. by rewrite take_drop_commute, Nat.add_comm, Nat.sub_add by lia.
Qed.

Lemma process_logs_ok b c logs c' es :
  contract_steps vt ct rt c logs c' → events_match b c es →
  ∃ es', process_logs vt ct rt logs es = Val es' ∧ events_match b c' es' ∧
    last_watched_eth_block_number es' = last_watched_eth_block_number es.
Proof.
  intros Hsteps. revert es. induction Hsteps as [c|c log c1 logs c2 Hstep _ IH]; intros es Hes; [by exists es|].
  destruct (process_log_ok b c log c1 es Hstep Hes) as (es1 & Hrun & Hes1 & Hw1).
  destruct (IH es1 Hes1) as (es2 & Hrun2 & Hes2 & Hw2).
  exists es2. cbn [process_logs]. rewrite Hrun. cbn [mbind outcome_bind]. split; [done|]. split; [done|]. congruence.
Qed.

(** The handed-out events are those of the verified blocks. *)
Lemma verified_committed_events_ok b c es :
  events_match b c es →
  get_only_verified_committed_events es =
  Val (commit_events b (take (ct_verified c - b) (drop b (ct_commits c)))).
Proof.
  intros (Hb & [Hv Hlen] & Hcom & Hver). unfold get_only_verified_committed_events. apply slice_Val.
  rewrite Hver, Hcom, commit_events_length, length_drop, drop_0, commit_events_take. split_and!; [lia|lia|].
  by rewrite Nat.sub_0_r.
Qed.

Lemma remove_verified_events_ok b c es :
  events_match b c es →
  ∃ es', remove_verified_events es = Val es' ∧ events_match (ct_verified c) c es' ∧
    last_watched_eth_block_number es' = last_watched_eth_block_number es.
Proof.
  intros (Hb & [Hv Hlen] & Hcom & Hver). unfold remove_verified_events.
  destruct (slice_total (committed_events es) 0 (length (verified_events es))) as (x & -> & _); [lia| |].
  { rewrite Hver, Hcom, commit_events_length, length_drop. lia. }
  cbn [mbind outcome_bind]. eexists. split; [done|]. split; [|done].
  unfold events_match, contract_ok; split_and!; cbn [committed_events verified_events length]; try done; [|lia].
  rewrite Hver, Hcom, commit_events_drop by (rewrite length_drop; lia). rewrite drop_drop.
  replace (b + (ct_verified c - b))%nat with (ct_verified c) by lia. done.
Qed.

(** A round that reads the logs of the contract. *)
Lemma update_events_state_run b c c' es last_block logs block_logs step offset range :
  events_match b c es → contract_steps vt ct rt c block_logs c' →
  next_range last_block (last_watched_eth_block_number es) step offset = Some range →
  logs range.1 range.2 = Ok block_logs →
  ∃ es0 es', verified_events es0 = [] ∧ process_logs vt ct rt block_logs es0 = Val es' ∧
    update_events_state vt ct rt (Ok last_block) logs step offset es =
      Val (Ok (match block_logs with [] => [] | _ => committed_events es' ++ verified_events es' end, range.2), es') ∧
    last_watched_eth_block_number es' = range.2 ∧ events_match (ct_verified c) c' es'.
Proof.
  intros Hes Hsteps Hrange Hlogs. destruct range as [from to]. cbn [fst snd] in *.
  destruct (remove_verified_events_ok b c es Hes) as (es1 & Hrem & Hes1 & Hw1).
  set (es2 := mkEventsState (committed_events es1) (verified_events es1) to).
  assert (events_match (ct_verified c) c es2) as Hes2 by done.
  destruct (process_logs_ok _ _ _ _ _ Hsteps Hes2) as (es3 & Hrun & Hes3 & Hw3).
  exists es2, es3. split.
  { destruct Hes2 as (_ & _ & _ & Hver). rewrite Nat.sub_diag in Hver. by apply nil_length_inv. }
  split; [done|]. split; [|done].
  unfold update_events_state, update, lift, gets, total, mbind, exec_bind. rewrite Hrem, Hw1.
  unfold get_new_events_and_last_watched_block. rewrite Hrange, Hlogs. fold es2. cbn [id lift lift_outcome].
  unfold update_blocks_state. destruct block_logs as [|l ls]; [by injection Hrun as <-|]. by rewrite Hrun.
Qed.

(** C27: Every verified block is handed out once: if the driver mirrors the contract, and the
    node returns the logs that the contract emitted in the next range of blocks, then
    [update_events_state] succeeds and the driver mirrors the contract again; the
    events it then hands out are those of exactly the blocks that were verified in
    that range, in order, each with the transaction that committed it (also when
    unverified blocks were reverted and committed anew in between). *)
Theorem update_events_state_correct b c c' es last_block logs block_logs step offset range :
  events_match b c es → contract_steps vt ct rt c block_logs c' →
  next_range last_block (last_watched_eth_block_number es) step offset = Some range →
  logs range.1 range.2 = Ok block_logs →
  ∃ evs es', update_events_state vt ct rt (Ok last_block) logs step offset es = Val (Ok (evs, range.2), es') ∧
    last_watched_eth_block_number es' = range.2 ∧ events_match (ct_verified c) c' es' ∧
    get_only_verified_committed_events es' =
      Val (commit_events (ct_verified c)
             (take (ct_verified c' - ct_verified c) (drop (ct_verified c) (ct_commits c')))).
Proof.
  intros Hes Hsteps Hrange Hlogs.
  destruct (update_events_state_run b c c' es last_block logs block_logs step offset range Hes Hsteps Hrange Hlogs)
    as (_ & es' & _ & _ & Hrun & Hw & Hes'). eexists _, es'. split; [exact Hrun|]. split; [done|]. split; [done|].
  by apply verified_committed_events_ok.
Qed.
End Correct.
