(* ===== verification/DataRestore.v ===== *)
(** * The restore driver
    (core/data_restore/src/data_restore_driver.rs, rollup_ops.rs,
     eth_tx_helpers.rs, contract_functions.rs)

    The driver turns contract events into decoded blocks and replays them on
    its state.  The Ethereum node ([transaction]) and the ABI decoder ([decode])
    are parameters; what is written to the database is kept as a list. *)

From S2P Require Import Prelude Bytes Params Externals Primitives Amounts Account Tx Operations Block Merkle.
From S2P Require Import AccountLeaf PlasmaState PlasmaProofs Ledger StateKeeper StateKeeperProofs TreeState.
From S2P Require Import EventsState.
Open Scope Z_scope.

(** [ethabi::Token], as far as it is looked at. *)
Inductive EthToken : Type :=
| TokUint (n : Z)
| TokAddress (a : Address)
| TokBytes (b : bytes)
| TokOther.

Definition FUNC_NAME_HASH_LENGTH : nat := 4.

Definition get_input_data_from_ethereum_transaction (input_data : bytes) : Fallible bytes :=
  _ ← ensure_that (FUNC_NAME_HASH_LENGTH <? length input_data)%nat "No commitment data in tx";
  Val (Ok (drop FUNC_NAME_HASH_LENGTH input_data)).

Definition index_token (i : nat) (l : list EthToken) : outcome EthToken :=
  unwrap "index out of bounds" (l !! i).

(** The widths of the encoded initialization parameters. *)
Definition INPUT_DATA_ADDRESS_BYTES_WIDTH : nat := 32.
Definition INPUT_DATA_ROOT_HASH_BYTES_WIDTH : nat := 32.
Definition ENCODED_INIT_PARAMETERS_WIDTH : nat :=
  3 * INPUT_DATA_ADDRESS_BYTES_WIDTH + INPUT_DATA_ROOT_HASH_BYTES_WIDTH.

Definition get_genesis_account (decode_init : bytes → option (list EthToken)) (input : bytes) :
    Fallible Account :=
  input_data ← get_input_data_from_ethereum_transaction input;
  _ ← lift_outcome (assert_that (ENCODED_INIT_PARAMETERS_WIDTH <=? length input_data)%nat
                      "slice out of range");
  let encoded_init_parameters := drop (length input_data - ENCODED_INIT_PARAMETERS_WIDTH) input_data in
  decoded ← ok_or "can't get decoded init parameters from contract creation transaction"
              (decode_init encoded_init_parameters);
  token ← lift_outcome (index_token 2 decoded);
  match token with
  | TokAddress genesis_operator_address => Val (Ok (default_with_address genesis_operator_address))
  | _ => Val (Err "can't get decoded init parameter from contract creation transaction")
  end.

Section Driver.
  Context `{EX : External} {Tree : Type} `{ST : !SparseTree Tree Account Fr}.
  Context (utc_now : nat → Z).
  (** The input data of the Ethereum transaction with the given hash, and the ABI decoder for
      the parameters of a commitment. *)
  Context (transaction : Z → result bytes) (decode : bytes → option (list EthToken)).

Definition get_rollup_ops_block (event_data : BlockEvent) : Fallible RollupOpsBlock :=
  input ← Val (transaction (be_transaction_hash event_data));
  input_data ← get_input_data_from_ethereum_transaction input;
  decoded_commitment_parameters ← ok_or "can't get decoded parameters from commitment transaction"
                                    (decode input_data);
  t1 ← lift_outcome (index_token 1 decoded_commitment_parameters);
  t3 ← lift_outcome (index_token 3 decoded_commitment_parameters);
  match t1, t3 with
  | TokUint fee_acc, TokBytes public_data =>
      ops ← get_rollup_ops_from_data public_data;
      fee_account ← lift_outcome (as_u32 fee_acc);
      Val (Ok (mkRollupOpsBlock (be_block_num event_data) ops fee_account))
  | _, _ => Val (Err "can't parse commitment parameters")
  end.

(** The driver; [saved_*] are the writes to the database, in order. *)
Record DataRestoreDriver : Type := mkDriver {
  drv_events_state : EventsState;
  drv_tree_state : TreeState Tree;
  saved_ops : list RollupOpsBlock;
  saved_blocks : list (Block * AccountUpdates);
  saved_genesis : list AccountUpdate;
  drv_available_block_chunk_sizes : list nat;
}.

Definition expect {A} (msg : string) (m : Fallible A) : outcome A :=
  match m with
  | Val (Ok a) => Val a
  | Val (Err _) => Panic msg
  | Panic msg => Panic msg
  end.

Definition set_genesis_state (decode_init : bytes → option (list EthToken)) (genesis_input : bytes)
    (genesis_eth_block_number : Z) (self : DataRestoreDriver) : outcome DataRestoreDriver :=
  let events := mkEventsState (committed_events (drv_events_state self))
                  (verified_events (drv_events_state self)) genesis_eth_block_number in
  genesis_account ← expect "Cant get genesis account address" (get_genesis_account decode_init genesis_input);
  let account_update := Create (address genesis_account) (nonce genesis_account) in
  tree_state ← TreeState_load 0 {[0 := genesis_account]} 0 0 (drv_available_block_chunk_sizes self);
  Val (mkDriver events tree_state (saved_ops self) (saved_blocks self) (saved_genesis self ++ [account_update])
         (drv_available_block_chunk_sizes self)).

(** The first loop of [update_tree_state]. *)
Fixpoint restore_blocks (new_ops_blocks : list RollupOpsBlock) (tree_state : TreeState Tree) :
    outcome (list (Block * AccountUpdates) * TreeState Tree) :=
  match new_ops_blocks with
  | [] => Val ([], tree_state)
  | op_block :: new_ops_blocks =>
      match update_tree_states_from_ops_block utc_now op_block tree_state with
      | Val (Ok r, tree_state) =>
          rest ← restore_blocks new_ops_blocks tree_state;
          Val (r :: rest.1, rest.2)
      | Val (Err _, _) => Panic "Updating tree state: cant update tree from operations"
      | Panic msg => Panic msg
      end
  end.

Definition update_tree_state (new_ops_blocks : list RollupOpsBlock) (self : DataRestoreDriver) :
    outcome DataRestoreDriver :=
  r ← restore_blocks new_ops_blocks (drv_tree_state self);
  Val (mkDriver (drv_events_state self) r.2 (saved_ops self) (saved_blocks self ++ r.1) (saved_genesis self)
         (drv_available_block_chunk_sizes self)).

Fixpoint ops_blocks_of_events (events : list BlockEvent) : outcome (list RollupOpsBlock) :=
  match events with
  | [] => Val []
  | event :: events =>
      block ← expect "Cant get new operation blocks from events" (get_rollup_ops_block event);
      blocks ← ops_blocks_of_events events;
      Val (block :: blocks)
  end.

Definition get_new_operation_blocks_from_events (self : DataRestoreDriver) : outcome (list RollupOpsBlock) :=
  events ← get_only_verified_committed_events (drv_events_state self);
  ops_blocks_of_events events.

Definition update_operations_state (self : DataRestoreDriver) :
    outcome (list RollupOpsBlock * DataRestoreDriver) :=
  new_blocks ← get_new_operation_blocks_from_events self;
  Val (new_blocks, mkDriver (drv_events_state self) (drv_tree_state self) (saved_ops self ++ new_blocks)
                     (saved_blocks self) (saved_genesis self) (drv_available_block_chunk_sizes self)).

(** ** Correctness *)

Context `{EXL : !ExternalLaws} `{SL : !SparseTreeLaws Tree Account Fr}.

(** The transaction with hash [h] carries the public data of the block. *)
Definition committed_by (h : Z) (b : Block) : Prop :=
  ∃ input params data, transaction h = Ok input ∧ (FUNC_NAME_HASH_LENGTH < length input)%nat ∧
    decode (drop FUNC_NAME_HASH_LENGTH input) = Some params ∧
    params !! 1%nat = Some (TokUint (fee_account b)) ∧ params !! 3%nat = Some (TokBytes data) ∧
    get_eth_public_data b = Val data.

(** A block that can be published. *)
Definition publishable (b : Block) : Prop :=
  Forall FranklinOp_wf (block_ops b) ∧ (chunks_used b ≤ block_chunks_size b)%nat ∧ fits 32 (fee_account b).

(** What the driver decodes from it. *)
Definition decoded_block (sg : TxSignature) (n : Z) (b : Block) : RollupOpsBlock :=
  mkRollupOpsBlock n ((forget sg <$> block_ops b) ++ replicate (block_chunks_size b - chunks_used b) OpNoop)
    (fee_account b).

Lemma get_rollup_ops_block_ok sg n h b ty :
  TxSignature_default = Val sg → publishable b → committed_by h b →
  get_rollup_ops_block (mkBlockEvent n h ty) = Val (Ok (decoded_block sg n b)).
Proof.
  intros Hsg (Hwf & Hfit & Hfee) (input & params & data & Htx & Hlen & Hdec & H1 & H3 & Hdata).
  destruct (block_public_data_ok b Hwf Hfit) as (s & d & Hs & Hd & _ & Hops).
  rewrite Hsg in Hs. injection Hs as <-. rewrite Hdata in Hd. injection Hd as <-.
  unfold get_rollup_ops_block, get_input_data_from_ethereum_transaction. cbn [be_transaction_hash be_block_num].
  rewrite Htx. cbn [mbind fallible_bind]. rewrite (proj2 (Nat.ltb_lt _ _) Hlen). cbn [ensure_that mbind fallible_bind].
  rewrite Hdec. cbn [ok_or mbind fallible_bind]. unfold index_token. rewrite H1, H3.
  cbn [unwrap lift_outcome mbind fallible_bind]. rewrite Hops. cbn [mbind fallible_bind].
  unfold as_u32. rewrite bool_decide_true by done. done.
Qed.

Lemma ops_blocks_of_events_ok sg b0 hs (bs : list Block) :
  TxSignature_default = Val sg → Forall publishable bs → Forall2 committed_by hs bs →
  ops_blocks_of_events (commit_events b0 hs) =
  Val (imap (λ i b, decoded_block sg (Z.of_nat (S (b0 + i))) b) bs).
Proof.
  intros Hsg Hpub Hcom. revert b0. induction Hcom as [|h b hs bs Hh Hcom IH]; intros b0; [done|].
  inversion Hpub as [|?? Hb Hbs]; subst. cbn [commit_events ops_blocks_of_events].
  rewrite (get_rollup_ops_block_ok sg _ _ b) by done. cbn [expect mbind outcome_bind]. rewrite IH by done.
  cbn [mbind outcome_bind imap]. rewrite Nat.add_0_r. do 2 f_equal. apply imap_ext. intros i x _. unfold compose.
  do 3 f_equal. lia.
Qed.

Lemma restore_blocks_app l l' ts :
  restore_blocks (l ++ l') ts =
  (r ← restore_blocks l ts; r' ← restore_blocks l' r.2; Val (r.1 ++ r'.1, r'.2)).
Proof.
  revert ts. induction l as [|b l IH]; intros ts; cbn [app restore_blocks].
  - cbn [mbind outcome_bind fst snd app]. destruct (restore_blocks l' ts) as [[]|]; done.
  - destruct (update_tree_states_from_ops_block utc_now b ts) as [[[r|e] ts']|msg]; [|done..].
    rewrite IH. destruct (restore_blocks l ts') as [[rs ts1]|]; [|done]. cbn [mbind outcome_bind fst snd].
    destruct (restore_blocks l' ts1) as [[]|]; done.
Qed.

Lemma ledger_run_keys m ops us m' id : ledger_run m ops us m' → is_Some (m !! id) → is_Some (m' !! id).
Proof.
  induction 1 as [|ops us m1 op us1 m2 _ IH Hstep _ _]; [done|]. intros H%IH.
  by apply (proj1 (ledger_step_grows _ _ _ _ Hstep)).
Qed.

Lemma chain_keys sizes n p m cs n' p' m' :
  chain sizes n p m cs n' p' m' → leaves_ok m → fits 64 p →
  leaves_ok m' ∧ fits 64 p' ∧ ∀ id, is_Some (m !! id) → is_Some (m' !! id).
Proof.
  induction 1 as [|cs n' p' m' c m'' _ IH Hb]; [done|]. intros Hl Hp. destruct (IH Hl Hp) as (Hl' & Hp' & Hk).
  split; [by eapply ledger_run_leaves_ok; [apply (bo_run _ _ _ _ _ _ Hb)|]|]. split.
  - rewrite (bo_priority _ _ _ _ _ _ Hb). apply wrap_fits. lia.
  - intros id Hid%Hk. by eapply ledger_run_keys; [apply (bo_run _ _ _ _ _ _ Hb)|].
Qed.

Lemma restore_chain_ok sg sizes n p m cs n' p' m' ts :
  chain sizes n p m cs n' p' m' → leaves_ok m → fits 64 p →
  Forall (λ c, is_Some (m !! fee_account (cr_block c))) cs → mirrors ts sizes p m →
  ∃ rs ts', restore_blocks ((λ c, decoded_block sg (block_number (cr_block c)) (cr_block c)) <$> cs) ts = Val (rs, ts') ∧
    Forall2 (λ c r, same_block sg (cr_block c) r.1 ∧ r.2 = cr_accounts_updated c) cs rs ∧ mirrors ts' sizes p' m'.
Proof.
  intros Hchain Hl Hp. revert ts. induction Hchain as [|cs n' p' m' c m'' Hchain IH Hb]; intros ts Hfee Hts.
  { exists [], ts. split; [done|]. by split. }
  rewrite Forall_app, Forall_singleton in Hfee. destruct Hfee as [Hfees Hfee].
  destruct (IH ts Hfees Hts) as (rs & ts1 & Hrun & Hrs & Hts1).
  destruct (chain_keys _ _ _ _ _ _ _ _ Hchain Hl Hp) as (Hl' & Hp' & Hk).
  destruct (restore_block_ok utc_now sg sizes n' p' m' c m'' ts1
    (block_chunks_size (cr_block c) - chunks_used (cr_block c))%nat Hb Hl' Hp') as (b' & ts2 & Hup & Hsame & Hts2); [|done|].
  { eapply ledger_run_keys; [apply (bo_run _ _ _ _ _ _ Hb)|by apply Hk]. }
  exists (rs ++ [(b', cr_accounts_updated c)]), ts2. split.
  - rewrite fmap_app, restore_blocks_app, Hrun. cbn [mbind outcome_bind fst snd fmap list_fmap restore_blocks].
    unfold decoded_block. rewrite (bo_number _ _ _ _ _ _ Hb), Hup. done.
  - split; [|done]. apply Forall2_app; [done|]. by constructor.
Qed.

Lemma chain_numbers sizes n p m cs n' p' m' :
  chain sizes n p m cs n' p' m' → fits 32 n →
  n' = wrap 32 (n + Z.of_nat (length cs)) ∧
  ∀ i c, cs !! i = Some c → block_number (cr_block c) = wrap 32 (n + Z.of_nat i).
Proof.
  intros Hchain Hn. induction Hchain as [|cs n' p' m' c m'' _ [IHn IH] Hb].
  { split; [|done]. cbn. by rewrite Z.add_0_r, wrap_small. }
  rewrite length_app. cbn [length]. split.
  - rewrite IHn. unfold wrap. rewrite Zplus_mod_idemp_l. f_equal. lia.
  - intros i c' [Hi|[Hi Hc]]%lookup_app_Some; [by apply IH|].
    destruct (i - length cs)%nat as [|j] eqn:E; [|done]. injection Hc as <-.
    rewrite (bo_number _ _ _ _ _ _ Hb), IHn. do 3 f_equal. lia.
Qed.

Lemma decoded_blocks_imap sg b0 sizes p m cs n' p' m' :
  chain sizes (Z.of_nat (S b0)) p m cs n' p' m' → Z.of_nat (b0 + length cs) < 2 ^ 32 - 1 →
  imap (λ i b, decoded_block sg (Z.of_nat (S (b0 + i))) b) (cr_block <$> cs) =
  (λ c, decoded_block sg (block_number (cr_block c)) (cr_block c)) <$> cs.
Proof.
  intros Hchain Hlt.
  destruct (chain_numbers _ _ _ _ _ _ _ _ Hchain) as [_ Hnum]; [unfold fits; lia|].
  apply list_eq. intros i. rewrite list_lookup_imap, !list_lookup_fmap.
  destruct (cs !! i) as [c|] eqn:Hi; [|done]. cbn. f_equal. f_equal.
  pose proof (lookup_lt_Some _ _ _ Hi). rewrite (Hnum i c Hi), wrap_small by (unfold fits; lia). lia.
Qed.

(** C1: The state can be restored from Ethereum alone: let the state keeper have sent a chain of
    blocks with publishable operations, from accounts that the driver mirrors, and let
    the contract's verified events name transactions that carry the public data of
    these blocks. Then the driver decodes and replays all of them without an error or
    a panic; it ends with exactly the keeper's accounts and priority counter, and every
    block it stores has the number, root hash, fee account, priority interval, size
    and (up to signatures, deposit senders and one fee) the operations of the
    keeper's block, and exactly its account updates. *)
Theorem restore_from_ethereum sizes b0 p m cs n' p' m' hs (d : DataRestoreDriver) :
  chain sizes (Z.of_nat (S b0)) p m cs n' p' m' → Z.of_nat (b0 + length cs) < 2 ^ 32 - 1 →
  leaves_ok m → fits 64 p → Forall (λ c, is_Some (m !! fee_account (cr_block c))) cs →
  Forall publishable (cr_block <$> cs) → Forall2 committed_by hs (cr_block <$> cs) →
  mirrors (drv_tree_state d) sizes p m →
  get_only_verified_committed_events (drv_events_state d) = Val (commit_events b0 hs) →
  ∃ sg ops d1 d2 rs, update_operations_state d = Val (ops, d1) ∧ update_tree_state ops d1 = Val d2 ∧
    mirrors (drv_tree_state d2) sizes p' m' ∧ saved_blocks d2 = saved_blocks d ++ rs ∧
    Forall2 (λ c r, same_block sg (cr_block c) r.1 ∧ r.2 = cr_accounts_updated c) cs rs.
Proof.
  intros Hchain Hlt Hl Hp Hfee Hpub Hcom Hts Hev. destruct TxSignature_default_Val as [sg Hsg].
  pose proof (ops_blocks_of_events_ok sg b0 hs _ Hsg Hpub Hcom) as Hops.
  rewrite (decoded_blocks_imap sg b0 _ _ _ _ _ _ _ Hchain Hlt) in Hops.
  destruct (restore_chain_ok sg _ _ _ _ _ _ _ _ _ Hchain Hl Hp Hfee Hts) as (rs & ts' & Hrun & Hrs & Hts').
  exists sg. eexists _, _, _, rs. split.
  { unfold update_operations_state, get_new_operation_blocks_from_events. rewrite Hev. cbn [mbind outcome_bind].
    rewrite Hops. done. }
  unfold update_tree_state. cbn [drv_tree_state]. rewrite Hrun. split; [done|]. done.
Qed.
End Driver.
