(* ===== verification/EthWatch.v ===== *)
(** * The Ethereum watcher (core/server/src/eth_watch.rs)

    The watcher polls the Ethereum node for priority operations and accepts
    them after enough confirmations.  The node's answers are arguments of the
    operations: the current block number, and the logs in a range of blocks
    ([None] as the upper end is [BlockNumber::Latest]). *)

From S2P Require Import Prelude Bytes Params Externals Primitives Amounts Account Tx Operations.
Open Scope Z_scope.

(** A log of the contract, with the block that contains it. *)
Record EthLog : Type := mkEthLog {
  el_block_number : option Z;
  el_log : Log;
}.

Record EthNode : Type := mkEthNode {
  node_block_number : result Z;
  node_logs : Z → option Z → result (list EthLog);
}.

Record ETHState : Type := mkETHState {
  eth_tokens : gmap Z Address;
  unconfirmed_queue : list (Z * PriorityOp);
  priority_queue : gmap Z PriorityOp;
}.

Record EthWatch : Type := mkEthWatch {
  last_ethereum_block : Z;
  eth_state : ETHState;
  number_of_confirmations_for_event : Z;
}.

Definition add_new_token (id : Z) (address : Address) (self : ETHState) : ETHState :=
  mkETHState (<[id := address]> (eth_tokens self)) (unconfirmed_queue self) (priority_queue self).

Definition EthWatch_new (number_of_confirmations_for_event : Z) : EthWatch :=
  mkEthWatch 0 (mkETHState ∅ [] ∅) number_of_confirmations_for_event.

Definition set_unconfirmed (q : list (Z * PriorityOp)) (self : EthWatch) : EthWatch :=
  mkEthWatch (last_ethereum_block self)
    (mkETHState (eth_tokens (eth_state self)) q (priority_queue (eth_state self)))
    (number_of_confirmations_for_event self).
Definition set_priority_queue (q : gmap Z PriorityOp) (self : EthWatch) : EthWatch :=
  mkEthWatch (last_ethereum_block self)
    (mkETHState (eth_tokens (eth_state self)) (unconfirmed_queue (eth_state self)) q)
    (number_of_confirmations_for_event self).
Definition set_last_block (n : Z) (self : EthWatch) : EthWatch :=
  mkEthWatch n (eth_state self) (number_of_confirmations_for_event self).

Section Watch.
  (** The ABI decoder of the [NewPriorityRequest] event. *)
  Context (decode : bytes → option PriorityEvent).

Definition parse_priority_op (event : EthLog) : Fallible PriorityOp :=
  match PriorityOp_try_from decode (el_log event) with
  | Val (Err e) => Val (Err (String.append "Failed to parse priority queue event log from ETH: " e))
  | r => r
  end.

(** [map(..).collect()] stops at the first error. *)
Fixpoint collect_ops (events : list EthLog) : Fallible (list PriorityOp) :=
  match events with
  | [] => Val (Ok [])
  | event :: events =>
      op ← parse_priority_op event;
      ops ← collect_ops events;
      Val (Ok (op :: ops))
  end.

Fixpoint collect_ops_with_blocks (events : list EthLog) : Fallible (list (Z * PriorityOp)) :=
  match events with
  | [] => Val (Ok [])
  | event :: events =>
      block_number ← ok_or "No block number set in the queue event log" (el_block_number event);
      op ← parse_priority_op event;
      ops ← collect_ops_with_blocks events;
      Val (Ok ((block_number, op) :: ops))
  end.

Definition get_priority_op_events (node : EthNode) (from : Z) (to : option Z) : Fallible (list PriorityOp) :=
  events ← Val (node_logs node from to);
  collect_ops events.

Definition get_priority_op_events_with_blocks (node : EthNode) (from : Z) (to : option Z) :
    Fallible (list (Z * PriorityOp)) :=
  events ← Val (node_logs node from to);
  collect_ops_with_blocks events.

Definition update_unconfirmed_queue (node : EthNode) (current_ethereum_block : Z) (self : EthWatch) :
    outcome EthWatch :=
  let block_from_number := saturating_sub current_ethereum_block (number_of_confirmations_for_event self) in
  match get_priority_op_events_with_blocks node block_from_number None with
  | Val (Ok pending_events) => Val (set_unconfirmed pending_events self)
  | Val (Err _) => Panic "Failed to restore priority queue events from ETH"
  | Panic msg => Panic msg
  end.

(** The loop that inserts accepted operations. *)
Definition accept_ops (ops : list PriorityOp) (self : EthWatch) : EthWatch :=
  set_priority_queue
    (foldl (λ q op, <[po_serial_id op := op]> q) (priority_queue (eth_state self)) ops) self.

Definition restore_state_from_eth (node : EthNode) (current_ethereum_block : Z) (self : EthWatch) :
    outcome EthWatch :=
  let new_block_with_accepted_events :=
    saturating_sub current_ethereum_block (number_of_confirmations_for_event self) in
  let previous_block_with_accepted_events :=
    saturating_sub new_block_with_accepted_events PRIORITY_EXPIRATION in
  self ← update_unconfirmed_queue node current_ethereum_block self;
  match get_priority_op_events node previous_block_with_accepted_events
          (Some new_block_with_accepted_events) with
  | Val (Ok prior_queue_events) => Val (accept_ops prior_queue_events self)
  | Val (Err _) => Panic "Failed to restore priority queue events from ETH"
  | Panic msg => Panic msg
  end.

(** The [debug_assert!] is not part of a release build. *)
Definition process_new_blocks (node : EthNode) (current_eth_block : Z) : Exec EthWatch unit :=
  self ← gets id;
  let previous_block_with_accepted_events :=
    saturating_sub (wrap 64 (last_ethereum_block self + 1)) (number_of_confirmations_for_event self) in
  let new_block_with_accepted_events :=
    saturating_sub current_eth_block (number_of_confirmations_for_event self) in
  priority_op_events ← lift (get_priority_op_events node previous_block_with_accepted_events
                               (Some new_block_with_accepted_events));
  _ ← update (λ self, Val (accept_ops priority_op_events self));
  _ ← update (update_unconfirmed_queue node current_eth_block);
  update (λ self, Val (set_last_block current_eth_block self)).

(** The loop of [get_priority_requests]: every operation uses at least one chunk, so
    [max_chunks + 1] rounds are enough. *)
Fixpoint priority_requests_loop (fuel : nat) (queue : gmap Z PriorityOp) (max_chunks used_chunks : nat)
    (current_priority_op : Z) (res : list PriorityOp) : list PriorityOp :=
  match fuel with
  | O => res
  | S fuel =>
      match queue !! current_priority_op with
      | None => res
      | Some op =>
          let chunks := FranklinPriorityOp_chunks (po_data op) in
          if (used_chunks + chunks <=? max_chunks)%nat
          then priority_requests_loop fuel queue max_chunks (used_chunks + chunks)%nat
                 (wrap 64 (current_priority_op + 1)) (res ++ [op])
          else res
      end
  end.

Definition get_priority_requests (first_serial_id : Z) (max_chunks : nat) (self : EthWatch) : list PriorityOp :=
  priority_requests_loop (S max_chunks) (priority_queue (eth_state self)) max_chunks 0 first_serial_id [].

(** The start of [run]. *)
Definition watch_start (node : EthNode) (self : EthWatch) : outcome EthWatch :=
  block ← match node_block_number node with Ok block => Val block | Err _ => Panic "Block number" end;
  let self := set_last_block block self in
  restore_state_from_eth node (saturating_sub block (number_of_confirmations_for_event self)) self.

(** The request [PollETHNode]; an error of [process_new_blocks] is only logged. *)
Definition poll_eth_node (node : EthNode) (self : EthWatch) : outcome EthWatch :=
  match node_block_number node with
  | Err _ => Val self
  | Ok block =>
      if last_ethereum_block self <? block
      then match process_new_blocks node block self with
           | Val (_, self) => Val self
           | Panic msg => Panic msg
           end
      else Val self
  end.

Fixpoint watch_polls (nodes : list EthNode) (self : EthWatch) : outcome EthWatch :=
  match nodes with
  | [] => Val self
  | node :: nodes => self ← poll_eth_node node self; watch_polls nodes self
  end.
End Watch.

(** ** Facts *)

Definition queue_keyed (q : gmap Z PriorityOp) : Prop := ∀ id op, q !! id = Some op → po_serial_id op = id.

Lemma accept_ops_queue ops w :
  queue_keyed (priority_queue (eth_state w)) → queue_keyed (priority_queue (eth_state (accept_ops ops w))).
Proof.
  unfold accept_ops. cbn. generalize (priority_queue (eth_state w)).
  induction ops as [|op ops IH]; intros q Hq; [done|]. cbn [foldl]. apply IH.
  intros id o [[<- <-]|[_ ?]]%lookup_insert_Some; [done|by apply Hq].
Qed.

(** ** Serving priority operations *)

Lemma priority_op_chunks_pos op : (1 ≤ FranklinPriorityOp_chunks op)%nat.
Proof. destruct op; cbv; lia. Qed.

Definition ops_chunks (ops : list PriorityOp) : nat := sum_list_with (λ op, FranklinPriorityOp_chunks (po_data op)) ops.

Lemma ops_chunks_cons op ops :
  ops_chunks (op :: ops) = (FranklinPriorityOp_chunks (po_data op) + ops_chunks ops)%nat.
Proof. done. Qed.

Lemma priority_requests_loop_spec fuel q max used cur res :
  (max - used < fuel)%nat → (used ≤ max)%nat → fits 64 cur → 
  ∃ new, priority_requests_loop fuel q max used cur res = res ++ new ∧
    (used + ops_chunks new ≤ max)%nat ∧
    (∀ i op, new !! i = Some op → q !! wrap 64 (cur + Z.of_nat i) = Some op) ∧
    (∀ op, q !! wrap 64 (cur + Z.of_nat (length new)) = Some op →
       (max < used + ops_chunks new + FranklinPriorityOp_chunks (po_data op))%nat).
Proof.
  revert used cur res. induction fuel as [|fuel IH]; intros used cur res Hfuel Hused Hcur; [lia|].
  cbn [priority_requests_loop]. destruct (q !! cur) as [op|] eqn:Hop.
  - pose proof (priority_op_chunks_pos (po_data op)).
    destruct (Nat.leb_spec (used + FranklinPriorityOp_chunks (po_data op)) max) as [Hle|Hgt].
    + destruct (IH (used + FranklinPriorityOp_chunks (po_data op))%nat (wrap 64 (cur + 1)) (res ++ [op]))
        as (new & -> & Hch & Hget & Hmax); [lia|lia|apply wrap_fits; lia|].
      exists (op :: new). split; [by rewrite <- app_assoc|]. rewrite ops_chunks_cons. split; [lia|].
      assert (∀ n, wrap 64 (wrap 64 (cur + 1) + Z.of_nat n) = wrap 64 (cur + Z.of_nat (S n))) as Hw.
      { intros n. unfold wrap. rewrite Zplus_mod_idemp_l. f_equal. lia. }
      split.
      * intros [|i] o Hi; [injection Hi as <-; by rewrite Z.add_0_r, wrap_small|]. rewrite <- Hw. by apply Hget.
      * intros o Ho. cbn [length] in Ho. rewrite <- Hw in Ho. specialize (Hmax o Ho). lia.
    + exists []. rewrite app_nil_r. split; [done|]. cbn. split; [lia|]. split; [done|].
      intros o. rewrite Z.add_0_r, wrap_small, Hop by done. intros [= <-]. lia.
  - exists []. rewrite app_nil_r. split; [done|]. cbn. split; [lia|]. split; [done|].
    intros o. by rewrite Z.add_0_r, wrap_small, Hop by done.
Qed.

(** The served priority operations are the longest run of accepted operations with consecutive
    serial ids from the requested one whose chunks fit in the limit: they are the
    operations with these ids, in order, they fit, and the next one is not accepted yet
    or does not fit. *)
Theorem get_priority_requests_spec first max w :
  queue_keyed (priority_queue (eth_state w)) → fits 64 first →
  let ops := get_priority_requests first max w in
  (ops_chunks ops ≤ max)%nat ∧
  (∀ i op, ops !! i = Some op → po_serial_id op = wrap 64 (first + Z.of_nat i) ∧
     priority_queue (eth_state w) !! wrap 64 (first + Z.of_nat i) = Some op) ∧
  (∀ op, priority_queue (eth_state w) !! wrap 64 (first + Z.of_nat (length ops)) = Some op →
     (max < ops_chunks ops + FranklinPriorityOp_chunks (po_data op))%nat).
Proof.
  intros Hq Hfirst. unfold get_priority_requests.
  destruct (priority_requests_loop_spec (S max) (priority_queue (eth_state w)) max 0 first [])
    as (new & -> & Hch & Hget & Hmax); [lia|lia|done|].
  cbn. split; [done|]. split; [|done]. intros i op Hi. split; [|by apply Hget]. by apply Hq, Hget.
Qed.

(** ** Accepting priority operations *)
Section Accept.
  Context (decode : bytes → option PriorityEvent).
  (** The history of Ethereum: the priority operations with their blocks and logs, and
      the number of confirmations. *)
  Context (history : list (Z * PriorityOp * EthLog)) (c : Z).

Definition in_range (from to : Z) (x : Z * PriorityOp * EthLog) : bool := (from <=? x.1.1) && (x.1.1 <=? to).
Definition logs_in (from to : Z) : list EthLog := snd <$> List.filter (in_range from to) history.
Definition ops_in (from to : Z) : list PriorityOp := (snd ∘ fst) <$> List.filter (in_range from to) history.

(** The logs decode to the operations, whose serial ids are distinct. *)
Definition history_ok : Prop :=
  Forall (λ x : Z * PriorityOp * EthLog,
    el_block_number x.2 = Some x.1.1 ∧ parse_priority_op decode x.2 = Val (Ok x.1.2)) history ∧
  (∀ x y, x ∈ history → y ∈ history → po_serial_id x.1.2 = po_serial_id y.1.2 → x = y).

(** A node at height [h] that answers according to the history. *)
Definition honest (h : Z) (node : EthNode) : Prop :=
  node_block_number node = Ok h ∧ fits 63 h ∧
  ∀ from to, node_logs node from to = Ok (logs_in from (Z.min h (default h to))).

(** The queue holds exactly the operations of the blocks in [P]. *)
Definition accepted (P : Z → Prop) (w : EthWatch) : Prop :=
  ∀ id op, priority_queue (eth_state w) !! id = Some op ↔
    po_serial_id op = id ∧ ∃ b l, (b, op, l) ∈ history ∧ P b.

Context (Hhist : history_ok).

Lemma history_entry b op l :
  (b, op, l) ∈ history → el_block_number l = Some b ∧ parse_priority_op decode l = Val (Ok op).
Proof. intros Hin. destruct Hhist as [Hall _]. rewrite Forall_forall in Hall. by apply Hall in Hin. Qed.

Lemma elem_of_filter_range from to x : x ∈ List.filter (in_range from to) history ↔ x ∈ history ∧ from ≤ x.1.1 ≤ to.
Proof. rewrite !list_elem_of_In, List.filter_In. unfold in_range. rewrite andb_true_iff, !Z.leb_le. done. Qed.

Lemma ops_in_elem from to op : op ∈ ops_in from to ↔ ∃ b l, (b, op, l) ∈ history ∧ from ≤ b ≤ to.
Proof.
  unfold ops_in. rewrite list_elem_of_fmap. setoid_rewrite elem_of_filter_range. split.
  - intros ([[b o] l] & -> & ?). by exists b, l.
  - intros (b & l & ?). by exists (b, op, l).
Qed.

Lemma collect_ops_history (l : list (Z * PriorityOp * EthLog)) :
  (∀ x, x ∈ l → x ∈ history) → collect_ops decode (snd <$> l) = Val (Ok ((snd ∘ fst) <$> l)).
Proof.
  induction l as [|[[b op] e] l IH]; intros Hsub; [done|]. rewrite !fmap_cons. cbn [collect_ops snd].
  destruct (history_entry b op e) as [_ ->]; [by apply Hsub, list_elem_of_here|]. cbn [mbind fallible_bind].
  rewrite IH by (intros; by apply Hsub, list_elem_of_further). done.
Qed.

Lemma collect_blocks_history (l : list (Z * PriorityOp * EthLog)) :
  (∀ x, x ∈ l → x ∈ history) → collect_ops_with_blocks decode (snd <$> l) = Val (Ok (fst <$> l)).
Proof.
  induction l as [|[[b op] e] l IH]; intros Hsub; [done|]. rewrite !fmap_cons. cbn [collect_ops_with_blocks snd].
  destruct (history_entry b op e) as [-> ->]; [by apply Hsub, list_elem_of_here|]. cbn [ok_or mbind fallible_bind].
  rewrite IH by (intros; by apply Hsub, list_elem_of_further). done.
Qed.

Lemma get_events_honest h node from to :
  honest h node → get_priority_op_events decode node from to = Val (Ok (ops_in from (Z.min h (default h to)))).
Proof.
  intros (_ & _ & Hl). unfold get_priority_op_events. rewrite Hl. cbn [mbind fallible_bind].
  apply collect_ops_history. intros x Hx%elem_of_filter_range. tauto.
Qed.

Lemma update_unconfirmed_honest h node b w :
  honest h node → ∃ q, update_unconfirmed_queue decode node b w = Val (set_unconfirmed q w).
Proof.
  intros (_ & _ & Hl). unfold update_unconfirmed_queue, get_priority_op_events_with_blocks. rewrite Hl.
  cbn [mbind fallible_bind from_option id]. unfold logs_in. rewrite collect_blocks_history; [by eexists|].
  intros x Hx%elem_of_filter_range. tauto.
Qed.

Lemma foldl_insert_serial (ops : list PriorityOp) (q : gmap Z PriorityOp) id op :
  (∀ o o', o ∈ ops → o' ∈ ops → po_serial_id o = po_serial_id o' → o = o') →
  foldl (λ q op, <[po_serial_id op := op]> q) q ops !! id = Some op ↔
  (op ∈ ops ∧ po_serial_id op = id) ∨ (q !! id = Some op ∧ ∀ o, o ∈ ops → po_serial_id o ≠ id).
Proof.
  revert q. induction ops as [|o ops IH]; intros q Huniq; cbn [foldl]; [set_solver|].
  rewrite IH by (intros; apply Huniq; set_solver). rewrite lookup_insert_Some. split.
  - intros [?|[[[<- <-]|[? ?]] Hno]]; [set_solver..|]. right. set_solver.
  - intros [[[->|?]%elem_of_cons <-]|[? Hno]]; [|set_solver|set_solver].
    destruct (decide (Exists (λ o', po_serial_id o' = po_serial_id o) ops)) as [Hex|Hno].
    + apply Exists_exists in Hex as (o' & Hin & E). left. assert (o' = o) as -> by (apply Huniq; set_solver). done.
    + right. split; [by left|]. intros o' Hin E. apply Hno, Exists_exists. eauto.
Qed.

Lemma accept_ops_in from to P w :
  accepted P w → accepted (λ b, P b ∨ from ≤ b ≤ to) (accept_ops (ops_in from to) w).
Proof.
  intros Hacc id op. destruct Hhist as [_ Huniq]. unfold accept_ops. cbn. rewrite foldl_insert_serial.
  2: { intros o o' (b & l & Hin & _)%ops_in_elem (b' & l' & Hin' & _)%ops_in_elem E.
       by injection (Huniq _ _ Hin Hin' E). }
  rewrite ops_in_elem. unfold accepted in Hacc. rewrite Hacc. split.
  - intros [[(b & l & ? & ?) ?]|[(? & b & l & ? & ?) _]]; (split; [done|]); exists b, l; tauto.
  - intros (<- & b & l & Hin & [HP|Hr]); [|left; eauto].
    destruct (decide (from ≤ b ≤ to)); [left; eauto|right]. split; [eauto|].
    intros o (b' & l' & Hin' & Hr)%ops_in_elem E. injection (Huniq _ _ Hin Hin' (eq_sym E)) as ->. naive_solver.
Qed.

Lemma accepted_ext P Q w : (∀ b, P b ↔ Q b) → accepted P w → accepted Q w.
Proof. intros HPQ Hacc id op. unfold accepted in Hacc. rewrite Hacc. setoid_rewrite HPQ. done. Qed.

(** The blocks whose operations are accepted when the watcher was started at height [h0]
    and has seen height [h]. *)
Definition accepted_blocks (h0 h b : Z) : Prop :=
  saturating_sub (saturating_sub (saturating_sub h0 c) c) PRIORITY_EXPIRATION ≤ b
    ≤ saturating_sub (saturating_sub h0 c) c ∨
  saturating_sub (h0 + 1) c ≤ b ≤ saturating_sub h c.

Context (Hc : 0 ≤ c).

Lemma watch_start_ok h0 node w :
  honest h0 node → priority_queue (eth_state w) = ∅ → number_of_confirmations_for_event w = c →
  ∃ w', watch_start decode node w = Val w' ∧ last_ethereum_block w' = h0 ∧
    number_of_confirmations_for_event w' = c ∧ accepted (accepted_blocks h0 h0) w'.
Proof.
  intros Hn Hq Hconf. pose proof Hn as (Hb & Hfit & _). unfold watch_start. rewrite Hb. cbn [mbind outcome_bind].
  unfold restore_state_from_eth. cbn [number_of_confirmations_for_event set_last_block]. rewrite Hconf.
  destruct (update_unconfirmed_honest h0 node (saturating_sub h0 c) (set_last_block h0 w) Hn) as [q ->].
  cbn [mbind outcome_bind]. rewrite (get_events_honest h0) by done. eexists. split; [done|]. split; [done|].
  split; [done|]. cbn [from_option id].
  eapply accepted_ext; [|apply (accept_ops_in _ _ (λ _, False))].
  - intros b. cbn beta. unfold accepted_blocks, saturating_sub, PRIORITY_EXPIRATION. unfold fits in *. lia.
  - intros id op. cbn. rewrite Hq, lookup_empty. naive_solver.
Qed.

Lemma poll_ok h0 h node w :
  honest h node → 0 ≤ h0 ≤ last_ethereum_block w → last_ethereum_block w < 2 ^ 63 →
  number_of_confirmations_for_event w = c → accepted (accepted_blocks h0 (last_ethereum_block w)) w →
  ∃ w', poll_eth_node decode node w = Val w' ∧ last_ethereum_block w' = Z.max (last_ethereum_block w) h ∧
    number_of_confirmations_for_event w' = c ∧ accepted (accepted_blocks h0 (last_ethereum_block w')) w'.
Proof.
  intros Hn Hh0 Hlast Hconf Hacc. pose proof Hn as (Hb & Hfit & _). unfold poll_eth_node. rewrite Hb.
  destruct (Z.ltb_spec (last_ethereum_block w) h) as [Hlt|Hge]; [|exists w; split_and!; try done; lia].
  unfold process_new_blocks, gets, mbind, exec_bind. cbn [id]. rewrite Hconf.
  rewrite (get_events_honest h) by done. cbn [from_option id lift]. unfold update at 1, update at 1.
  set (w1 := accept_ops _ w).
  destruct (update_unconfirmed_honest h node h w1 Hn) as [q ->]. cbn [update]. eexists. split; [done|].
  split; [cbn; lia|]. split; [done|]. cbn [last_ethereum_block set_last_block].
  pose proof (accept_ops_in (saturating_sub (wrap 64 (last_ethereum_block w + 1)) c)
    (Z.min h (saturating_sub h c)) _ w Hacc) as Hacc'.
  eapply accepted_ext; [|exact Hacc']. intros b. cbn beta.
  rewrite wrap_small by (unfold fits; lia).
  unfold accepted_blocks, saturating_sub, PRIORITY_EXPIRATION. unfold fits in *. lia.
Qed.

Lemma watch_polls_ok h0 hs nodes w :
  Forall2 honest hs nodes → 0 ≤ h0 ≤ last_ethereum_block w → last_ethereum_block w < 2 ^ 63 →
  number_of_confirmations_for_event w = c → accepted (accepted_blocks h0 (last_ethereum_block w)) w →
  ∃ w', watch_polls decode nodes w = Val w' ∧ last_ethereum_block w' = foldl Z.max (last_ethereum_block w) hs ∧
    accepted (accepted_blocks h0 (last_ethereum_block w')) w'.
Proof.
  intros Hn. revert w. induction Hn as [|h node hs nodes Hnode _ IH]; intros w Hh0 Hlast Hconf Hacc.
  { by exists w. }
  cbn [watch_polls foldl].
  destruct (poll_ok h0 h node w) as (w1 & -> & Hl1 & Hc1 & Hacc1); [done..|]. destruct Hnode as (_ & Hfit & _).
  cbn [mbind outcome_bind].
  destruct (IH w1) as (w2 & -> & Hl2 & Hacc2); [unfold fits in Hfit; lia|unfold fits in Hfit; lia|done|done|].
  exists w2. split; [done|]. split; [|done]. by rewrite Hl2, Hl1.
Qed.
End Accept.

(** C28: What the watcher accepts: started at height [h0] and polled any number of times, with
    honest answers, it never panics and its queue holds exactly the priority operations of
    the blocks from [h0 + 1 - c] to [h - c], where [h] is the highest block seen and [c]
    the number of confirmations, and those of the 250 blocks up to [h0 - 2c]. So no
    operation is lost or taken early while it runs; but the confirmations are subtracted
    twice at the start, and the operations of the [c] blocks after [h0 - 2c] are never
    accepted. *)
Theorem eth_watch_accepts decode history c h0 hs node nodes :
  history_ok decode history → 0 ≤ c → honest history h0 node → Forall2 (honest history) hs nodes →
  ∃ w w', watch_start decode node (EthWatch_new c) = Val w ∧ watch_polls decode nodes w = Val w' ∧
    last_ethereum_block w' = foldl Z.max h0 hs ∧
    ∀ id op, priority_queue (eth_state w') !! id = Some op ↔
      po_serial_id op = id ∧ ∃ b l, (b, op, l) ∈ history ∧
        (saturating_sub (saturating_sub (saturating_sub h0 c) c) 250 ≤ b ≤ saturating_sub (saturating_sub h0 c) c ∨
         saturating_sub (h0 + 1) c ≤ b ≤ saturating_sub (foldl Z.max h0 hs) c).
Proof.
  intros Hhist Hc Hnode Hnodes. pose proof Hnode as (_ & Hfit & _). unfold fits in Hfit.
  destruct (watch_start_ok decode history c Hhist Hc h0 node (EthWatch_new c)) as (w & Hw & Hl & Hconf & Hacc); [done..|].
  destruct (watch_polls_ok decode history c Hhist Hc h0 hs nodes w) as (w' & Hw' & Hl' & Hacc');
    [done|lia|lia|done|by rewrite Hl|].
  exists w, w'. split; [done|]. split; [done|]. rewrite Hl in Hl'. split; [done|]. rewrite Hl' in Hacc'. apply Hacc'.
Qed.
