(* ===== verification/Mempool.v ===== *)
(** * The mempool and the block proposer
    (core/server/src/mempool.rs, block_proposer.rs)

    The mempool is a queue of checked transactions with the committed nonces
    of the accounts.  The block proposer asks it for a miniblock: first the
    priority operations that the Ethereum watcher serves, then transactions
    from the front of the queue while they fit. *)

From S2P Require Import Prelude Bytes Params Externals Primitives Amounts Account Tx Operations Block Merkle.
From S2P Require Import AccountLeaf PlasmaState PlasmaProofs Ledger StateKeeper StateKeeperProofs EthWatch.
Open Scope Z_scope.

Section Mempool.
  Context `{EX : External}.

Inductive TxAddError : Type :=
| NonceMismatch
| IncorrectTx
| EIP1271SignatureVerificationFail
| MissingEthSignature
| IncorrectEthSignature
| ChangePkNotAuthorized
| Other.

Definition ProposedBlock_is_empty (self : ProposedBlock) : bool :=
  bool_decide (pb_priority_ops self = []) && match pb_txs self with [] => true | _ => false end.

Record MempoolState : Type := mkMempoolState {
  account_nonces : gmap Address Nonce;
  account_ids : gmap Z Address;
  ready_txs : list FranklinTx;
}.

Record Mempool : Type := mkMempool {
  mempool_state : MempoolState;
  max_block_size_chunks : Z;
}.

Definition mempool_chunks_for_tx (self : MempoolState) (tx : FranklinTx) : Z :=
  match tx with
  | TxTransfer t =>
      match account_nonces self !! tr_to t with
      | Some _ => Z.of_nat TRANSFER_CHUNKS
      | None => Z.of_nat TRANSFER_TO_NEW_CHUNKS
      end
  | _ => Z.of_nat (min_chunks tx)
  end.

(** The loop over the accounts loaded from the database. *)
Definition restore_from_db (accounts : AccountMap) : MempoolState :=
  foldl (λ self '(id, account),
           mkMempoolState (<[address account := nonce account]> (account_nonces self))
             (<[id := address account]> (account_ids self)) (ready_txs self))
        (mkMempoolState ∅ ∅ []) (map_to_list accounts).

Definition mempool_nonce (self : MempoolState) (ad : Address) : Nonce := default 0 (account_nonces self !! ad).

Definition add_tx (tx : FranklinTx) (self : MempoolState) : (unit + TxAddError) * MempoolState :=
  if mempool_nonce self (FranklinTx_account tx) <=? FranklinTx_nonce tx
  then (inl tt, mkMempoolState (account_nonces self) (account_ids self) (ready_txs self ++ [tx]))
  else (inr NonceMismatch, self).

Definition set_account_nonce (id : Z) (new_nonce : Nonce) (self : MempoolState) : MempoolState :=
  match account_ids self !! id with
  | Some ad =>
      match account_nonces self !! ad with
      | Some _ => mkMempoolState (<[ad := new_nonce]> (account_nonces self)) (account_ids self) (ready_txs self)
      | None => self
      end
  | None => self
  end.

(** One round of the loop of the request [UpdateNonces]. *)
Definition update_nonce (u : Z * AccountUpdate) (self : MempoolState) : MempoolState :=
  let '(id, update) := u in
  match update with
  | Create address nonce =>
      mkMempoolState (<[address := nonce]> (account_nonces self)) (<[id := address]> (account_ids self))
        (ready_txs self)
  | Delete address _ =>
      mkMempoolState (delete address (account_nonces self)) (delete id (account_ids self)) (ready_txs self)
  | AddToken _ new_nonce _ => set_account_nonce id new_nonce self
  | RemoveToken _ new_nonce _ => set_account_nonce id new_nonce self
  | ChangePubKeyHash _ _ _ new_nonce => set_account_nonce id new_nonce self
  end.

Definition update_nonces (updates : AccountUpdates) (self : MempoolState) : MempoolState :=
  foldl (λ self u, update_nonce u self) self updates.

(** The loop of [prepare_tx_for_block]; it stops at the first transaction that does not
    fit, which goes back to the front of the queue. *)
Fixpoint take_txs (self : MempoolState) (queue : list FranklinTx) (chunks_left : Z)
    (txs_for_commit : list FranklinTx) : Z * list FranklinTx * list FranklinTx :=
  match queue with
  | [] => (chunks_left, txs_for_commit, [])
  | tx :: queue =>
      let chunks_for_tx := mempool_chunks_for_tx self tx in
      if chunks_for_tx <=? chunks_left
      then take_txs self queue (chunks_left - chunks_for_tx) (txs_for_commit ++ [tx])
      else (chunks_left, txs_for_commit, tx :: queue)
  end.

Definition prepare_tx_for_block (chunks_left : Z) (self : Mempool) : Z * list FranklinTx * Mempool :=
  let st := mempool_state self in
  let '(chunks_left, txs, queue) := take_txs st (ready_txs st) chunks_left [] in
  (chunks_left, txs,
   mkMempool (mkMempoolState (account_nonces st) (account_ids st) queue) (max_block_size_chunks self)).

(** [priority_ops] is the answer of the watcher to [GetPriorityQueueOps]; the subtraction
    wraps. *)
Definition select_priority_ops (priority_ops : list PriorityOp) (self : Mempool) : Z * list PriorityOp :=
  (wrap 64 (max_block_size_chunks self - Z.of_nat (ops_chunks priority_ops)), priority_ops).

Definition propose_new_block (watch : EthWatch) (current_unprocessed_priority_op : Z) (self : Mempool) :
    ProposedBlock * Mempool :=
  let '(chunks_left, priority_ops) :=
    select_priority_ops
      (get_priority_requests current_unprocessed_priority_op (Z.to_nat (max_block_size_chunks self)) watch) self in
  let '(_, txs, self) := prepare_tx_for_block chunks_left self in
  (mkProposedBlock priority_ops txs, self).

Inductive MempoolRequest : Type :=
| NewTx (tx : FranklinTx)
| UpdateNonces (updates : AccountUpdates)
| GetBlock (last_priority_op_number : Z).

Inductive MempoolReply : Type :=
| ReplyAdded (r : unit + TxAddError)
| ReplyBlock (b : ProposedBlock)
| ReplyNothing.

(** One round of the loop of [run]. *)
Definition mempool_handle (watch : EthWatch) (req : MempoolRequest) (self : Mempool) : MempoolReply * Mempool :=
  match req with
  | NewTx tx =>
      let '(r, st) := add_tx tx (mempool_state self) in
      (ReplyAdded r, mkMempool st (max_block_size_chunks self))
  | GetBlock n => let '(b, self) := propose_new_block watch n self in (ReplyBlock b, self)
  | UpdateNonces updates =>
      (ReplyNothing, mkMempool (update_nonces updates (mempool_state self)) (max_block_size_chunks self))
  end.

(** ** The block proposer *)

Record BlockProposer : Type := mkBlockProposer { current_priority_op_number : Z }.

(** The request sent to the state keeper, and the new states of the mempool and the
    proposer. *)
Definition commit_new_tx_mini_batch (watch : EthWatch) (mempool : Mempool) (self : BlockProposer) :
    StateKeeperRequest * Mempool * BlockProposer :=
  let '(proposed_block, mempool) := propose_new_block watch (current_priority_op_number self) mempool in
  (ExecuteMiniBlock proposed_block, mempool,
   mkBlockProposer (wrap 64 (current_priority_op_number self +
                             Z.of_nat (length (pb_priority_ops proposed_block))))).

(** ** Facts *)

Definition txs_chunks (self : MempoolState) (txs : list FranklinTx) : Z :=
  foldr (λ tx acc, mempool_chunks_for_tx self tx + acc) 0 txs.

Lemma txs_chunks_cons self tx txs :
  txs_chunks self (tx :: txs) = mempool_chunks_for_tx self tx + txs_chunks self txs.
Proof. done. Qed.

Lemma take_txs_spec self queue left acc :
  let '(left', txs, rest) := take_txs self queue left acc in
  ∃ new, txs = acc ++ new ∧ new ++ rest = queue ∧ left' + txs_chunks self new = left ∧
    (0 ≤ left → 0 ≤ left') ∧ match rest with [] => True | tx :: _ => left' < mempool_chunks_for_tx self tx end.
Proof.
  revert left acc. induction queue as [|tx queue IH]; intros left acc; cbn [take_txs].
  { exists []. rewrite app_nil_r. split_and!; try done. cbn. lia. }
  destruct (Z.leb_spec (mempool_chunks_for_tx self tx) left) as [Hle|Hgt].
  - specialize (IH (left - mempool_chunks_for_tx self tx) (acc ++ [tx])).
    destruct (take_txs self queue _ _) as [[left' txs] rest]. destruct IH as (new & -> & <- & Hl & Hpos & Hrest).
    exists (tx :: new). rewrite <- app_assoc. split_and!; try done; [rewrite txs_chunks_cons; lia|]. intros. apply Hpos. lia.
  - exists []. rewrite app_nil_r. split_and!; try done. cbn. lia.
Qed.

(** Proposing a miniblock: the transactions are taken from the front of the queue, in
    order, and nothing is lost; together with the priority operations they fit in the
    largest block by the mempool's own count; and taking stops only when the queue is
    empty or the next transaction does not fit any more. *)
Theorem propose_new_block_correct watch n (mp : Mempool) :
  queue_keyed (priority_queue (eth_state watch)) → fits 64 n → fits 64 (max_block_size_chunks mp) →
  let '(b, mp') := propose_new_block watch n mp in
  let used := Z.of_nat (ops_chunks (pb_priority_ops b)) + txs_chunks (mempool_state mp) (pb_txs b) in
  pb_priority_ops b = get_priority_requests n (Z.to_nat (max_block_size_chunks mp)) watch ∧
  pb_txs b ++ ready_txs (mempool_state mp') = ready_txs (mempool_state mp) ∧
  used ≤ max_block_size_chunks mp ∧
  match ready_txs (mempool_state mp') with
  | [] => True
  | tx :: _ => max_block_size_chunks mp < used + mempool_chunks_for_tx (mempool_state mp) tx
  end.
Proof.
  intros Hq Hn Hmax. unfold propose_new_block, select_priority_ops, prepare_tx_for_block.
  set (ops := get_priority_requests _ _ _).
  assert (ops_chunks ops ≤ Z.to_nat (max_block_size_chunks mp))%nat as Hops.
  { subst ops. unfold get_priority_requests.
    destruct (priority_requests_loop_spec (S (Z.to_nat (max_block_size_chunks mp)))
      (priority_queue (eth_state watch)) (Z.to_nat (max_block_size_chunks mp)) 0 n [])
      as (new & -> & Hch & _); [lia|lia|done|]. done. }
  unfold fits in Hmax. rewrite wrap_small by (unfold fits; lia).
  pose proof (take_txs_spec (mempool_state mp) (ready_txs (mempool_state mp))
    (max_block_size_chunks mp - Z.of_nat (ops_chunks ops)) []) as Hspec.
  destruct (take_txs _ _ _ _) as [[left' txs] rest]. destruct Hspec as (new & -> & Hall & Hleft & Hpos & Hrest).
  cbn [pb_priority_ops pb_txs mempool_state ready_txs app]. split; [done|]. split; [done|]. split; [lia|].
  destruct rest; [done|]. lia.
Qed.

(** ** Nonces *)

(** The mempool knows the address of every account id and the nonce of every address. *)
Record nonces_match (m : AccountMap) (self : MempoolState) : Prop := {
  nm_ids : account_ids self = address <$> m;
  nm_nonces ad n : account_nonces self !! ad = Some n ↔ ∃ id a, m !! id = Some a ∧ address a = ad ∧ nonce a = n;
  nm_unique id id' a a' : m !! id = Some a → m !! id' = Some a' → address a = address a' → id = id';
}.

(** An update that creates an account under a free id and address. *)
Definition creates_fresh (m : AccountMap) (u : Z * AccountUpdate) : Prop :=
  match u with
  | (id, Create ad _) => m !! id = None ∧ ∀ j a, m !! j = Some a → address a ≠ ad
  | (_, Delete _ _) => False
  | _ => True
  end.

Fixpoint updates_fresh (m : AccountMap) (us : AccountUpdates) : Prop :=
  match us with
  | [] => True
  | u :: us => creates_fresh m u ∧ updates_fresh (apply_update_to_map m u) us
  end.

Lemma updates_fresh_app m us vs :
  updates_fresh m (us ++ vs) ↔ updates_fresh m us ∧ updates_fresh (apply_updates m us) vs.
Proof.
  revert m. induction us as [|u us IH]; intros m; cbn [app updates_fresh]; [naive_solver|].
  rewrite IH, apply_updates_cons. naive_solver.
Qed.

(** An account gets a new nonce and keeps its address. *)
Lemma set_account_nonce_match m self id a a' :
  nonces_match m self → m !! id = Some a → address a' = address a →
  nonces_match (<[id := a']> m) (set_account_nonce id (nonce a') self).
Proof.
  intros [Hids Hnon Huniq] Ha Had. unfold set_account_nonce. rewrite Hids, lookup_fmap, Ha. cbn [fmap option_fmap option_map].
  assert (account_nonces self !! address a = Some (nonce a)) as -> by (apply Hnon; eauto).
  split; cbn [account_ids account_nonces].
  - rewrite fmap_insert, Had, insert_id; [done|]. by rewrite lookup_fmap, Ha.
  - intros ad n. destruct (decide (ad = address a)) as [->|Hne].
    + rewrite lookup_insert_eq. split.
      * intros [= <-]. exists id, a'. by rewrite lookup_insert_eq.
      * intros (j & b & [[<- <-]|[Hj Hb]]%lookup_insert_Some & Hbd & <-); [done|].
        destruct Hj. by eapply Huniq.
    + rewrite lookup_insert_ne, Hnon by done. split.
      * intros (j & b & Hb & Hbd & Hbn). exists j, b. split; [|done]. rewrite lookup_insert_ne; [done|].
        intros ->. simplify_eq.
      * intros (j & b & [[<- <-]|[Hj Hb]]%lookup_insert_Some & Hbd & Hbn); [congruence|]. eauto.
  - intros i j b b'. rewrite !lookup_insert_Some.
    intros [[<- <-]|[Hi Hb]] [[<- <-]|[Hj Hb']] E; try done; [| |by eapply Huniq].
    + eapply Huniq; [exact Ha|exact Hb'|congruence].
    + eapply Huniq; [exact Hb|exact Ha|congruence].
Qed.

Lemma update_nonce_match m self u :
  nonces_match m self → creates_fresh m u → nonces_match (apply_update_to_map m u) (update_nonce u self).
Proof.
  intros Hm Hu. destruct u as [id [ad n|ad n|o n t|o n t|h h' o n]]; cbn [creates_fresh update_nonce] in *.
  2: done.
  2-4: destruct (m !! id) as [a|] eqn:Ha.
  1: {
    destruct Hu as [Hfree Hno]. erewrite apply_update_insert by (by rewrite Hfree).
    destruct Hm as [Hids Hnon Huniq]. split; cbn [account_ids account_nonces].
    - by rewrite fmap_insert, Hids.
    - intros ad' n'. destruct (decide (ad' = ad)) as [->|Hne].
      + rewrite lookup_insert_eq. split.
        * intros [= <-]. eexists id, _. by rewrite lookup_insert_eq.
        * intros (j & b & [[<- <-]|[Hj Hb]]%lookup_insert_Some & Hbd & <-); [done|]. by destruct (Hno j b).
      + rewrite lookup_insert_ne, Hnon by done. split.
        * intros (j & b & Hb & ?). exists j, b. rewrite lookup_insert_ne; [done|]. intros ->. congruence.
        * intros (j & b & [[<- <-]|[Hj Hb]]%lookup_insert_Some & Hbd & Hbn); [by cbn in Hbd|]. eauto.
    - intros i j b b'. rewrite !lookup_insert_Some.
      intros [[<- <-]|[Hi Hb]] [[<- <-]|[Hj Hb']] E; try done; [| |by eapply Huniq].
      + by destruct (Hno j b').
      + by destruct (Hno i b). }
  1,3,5: erewrite apply_update_insert by (by rewrite Ha); by eapply set_account_nonce_match.
  all: assert (account_ids self !! id = None) as Hnone by (by rewrite (nm_ids _ _ Hm), lookup_fmap, Ha);
    unfold apply_update_to_map, set_account_nonce; rewrite Ha, Hnone; by rewrite delete_id.
Qed.

Lemma update_nonces_match us m self :
  nonces_match m self → updates_fresh m us → nonces_match (apply_updates m us) (update_nonces us self).
Proof.
  revert m self. induction us as [|u us IH]; intros m self Hm; [done|]. intros [Hu Hus].
  rewrite apply_updates_cons. cbn [update_nonces foldl]. apply IH; [|done]. by apply update_nonce_match.
Qed.

(** The updates of the ledger create accounts under free ids and addresses. *)
Lemma ledger_step_fresh m op us m' : ledger_step m op us m' → op_addressed m op → updates_fresh m us.
Proof.
  intros Hstep Hadd. destruct Hstep as [d id a Ha|d id Hn|tx from to a Ha Hn Hno Ht
    |tx from to a b Hne Ha Hb Hno Ht|tx from a|tx id a Ha Hno Ht|tx id a Ha Hno|e a Ha]; cbn; try done.
  - destruct Hadd as [(a & Ha & _)|(_ & _ & Hno)]; [congruence|]. done.
  - destruct Hadd as (_ & _ & _ & Hfree). done.
  - generalize (get_tokens a) at 1. intros l. generalize m at 1. induction l as [|t l IH]; intros m1; [done|].
    rewrite fmap_cons. cbn. split; [done|]. apply IH.
Qed.

Lemma ledger_run_fresh m ops us m' :
  ledger_run m ops us m' → Forall (λ op, ¬ is_self_transfer op) ops → updates_fresh m us.
Proof.
  induction 1 as [|ops us m1 op us1 m2 Hrun IH Hstep Hadd _]; intros Hself; [done|].
  rewrite Forall_app, Forall_singleton in Hself. destruct Hself as [Hops Hop].
  apply updates_fresh_app. split; [by apply IH|]. rewrite (ledger_run_replay _ _ _ _ Hrun) by done.
  by eapply ledger_step_fresh.
Qed.

(** The mempool knows the committed nonces: if its tables match the accounts before a
    block, and it receives the updates of the block (a run of the ledger without
    transfers of an account to itself), then its tables match the accounts after the
    block. *)
Theorem update_nonces_correct m ops us m' self :
  nonces_match m self → ledger_run m ops us m' → Forall (λ op, ¬ is_self_transfer op) ops →
  nonces_match m' (update_nonces us self).
Proof.
  intros Hm Hrun Hself. rewrite <- (ledger_run_replay _ _ _ _ Hrun Hself).
  apply update_nonces_match; [done|]. by eapply ledger_run_fresh.
Qed.
End Mempool.

(** ** The proposer and the keeper *)
Section Sync.
  Context `{EX : External} `{EXL : !ExternalLaws} {Tree : Type} `{ST : !SparseTree Tree Account Fr}.
  Context `{SL : !SparseTreeLaws Tree Account Fr}.
  Context (utc_now : nat → Z).

Lemma ops_chunks_length ops : (length ops ≤ ops_chunks ops)%nat.
Proof.
  induction ops as [|op ops IH]; [done|]. rewrite ops_chunks_cons. cbn [length].
  pose proof (priority_op_chunks_pos (po_data op)). lia.
Qed.

(** C26: The proposer and the state keeper stay in step: if they agree on the next priority
    operation and every accepted priority operation can be executed, then the keeper
    executes the miniblock that the proposer sends without panicking, they agree on the
    next priority operation afterwards, and the priority operations that were executed
    are those with the consecutive serial ids from the old counter up to the new one,
    in order. *)
Theorem proposer_keeper_in_sync n0 p0 m0 sizes (k : PlasmaStateKeeper Tree) watch mp bp :
  keeper_ok n0 p0 m0 sizes k → current_priority_op_number bp = current_unprocessed_priority_op k →
  queue_keyed (priority_queue (eth_state watch)) →
  (∀ id op, priority_queue (eth_state watch) !! id = Some op → priority_op_fine (keeper_accounts k) op) →
  fits 64 (max_block_size_chunks mp) →
  Z.of_nat (size (keeper_accounts k)) + max_block_size_chunks mp +
    Z.of_nat (length (ready_txs (mempool_state mp))) ≤ 2 ^ 24 →
  let '(req, mp', bp') := commit_new_tx_mini_batch watch mp bp in
  ∃ reply k' es ops, handle_request utc_now req k = Val (reply, k') ∧ keeper_ok n0 p0 m0 sizes k' ∧
    current_priority_op_number bp' = current_unprocessed_priority_op k' ∧
    notified_since k k' es ∧ Forall2 reports_op (request_ops req) es ∧
    request_ops req = (inl <$> ops) ++ (inr <$> take (length (ready_txs (mempool_state mp))
      - length (ready_txs (mempool_state mp'))) (ready_txs (mempool_state mp))) ∧
    current_unprocessed_priority_op k' = wrap 64 (current_unprocessed_priority_op k + Z.of_nat (length ops)) ∧
    ∀ i op, ops !! i = Some op →
      po_serial_id op = wrap 64 (current_unprocessed_priority_op k + Z.of_nat i).
Proof.
  intros Hk Hsync Hkeyed Hfine Hmax Hcap. unfold commit_new_tx_mini_batch, propose_new_block.
  unfold select_priority_ops, prepare_tx_for_block. rewrite Hsync.
  assert (fits 64 (current_unprocessed_priority_op k)) as Hcur
    by (rewrite (ko_priority _ _ _ _ _ Hk); apply wrap_fits; lia).
  set (ops := get_priority_requests _ _ _).
  destruct (priority_requests_loop_spec (S (Z.to_nat (max_block_size_chunks mp))) (priority_queue (eth_state watch))
    (Z.to_nat (max_block_size_chunks mp)) 0 (current_unprocessed_priority_op k) [])
    as (new & Enew & Hch & Hget & _); [lia|lia|done|]. cbn [app] in Enew.
  assert (ops = new) as Eops by done. rewrite Eops in *. unfold fits in Hmax.
  rewrite wrap_small by (unfold fits; lia).
  pose proof (take_txs_spec (mempool_state mp) (ready_txs (mempool_state mp))
    (max_block_size_chunks mp - Z.of_nat (ops_chunks new)) []) as Hspec.
  destruct (take_txs _ _ _ _) as [[left' txs] rest]. destruct Hspec as (txs' & -> & Hall & _).
  cbn [app handle_request request_ops mempool_state ready_txs current_priority_op_number pb_priority_ops].
  pose proof (ops_chunks_length new). pose proof (f_equal length Hall) as Hlen. rewrite length_app in Hlen.
  destruct (execute_tx_batch_ok utc_now n0 p0 m0 sizes (mkProposedBlock new txs') k Hk)
    as (k' & es & -> & Hk' & _ & Hns & Hes & Hc').
  { split.
    - cbn. apply Forall_forall. intros op [i Hi]%list_elem_of_lookup. by eapply Hfine, Hget.
    - unfold miniblock_ops. cbn. rewrite length_app, !length_fmap. lia. }
  eexists _, k', es, new. split; [done|]. split; [done|]. split; [by rewrite Hc'|]. split; [done|]. split; [done|].
  split.
  - unfold miniblock_ops. cbn [pb_priority_ops pb_txs]. do 2 f_equal. rewrite <- Hall.
    rewrite length_app. rewrite Nat.add_sub. by rewrite take_app_length.
  - split; [done|]. intros i op Hi. by apply Hkeyed, Hget.
Qed.
End Sync.
