(* ===== verification/SignatureChecker.v ===== *)
(** * Submitting transactions
    (core/server/src/signature_checker.rs, api_server/rpc_server.rs, eth_watch.rs,
    core/models/src/node/tx.rs)

    [tx_submit] of the JSON-RPC server: the Ethereum signature of a transaction is
    checked, then its own signature, then the mempool compares the nonce.  The contracts
    on Ethereum are functions with their answers.  A checker that panics drops its
    channel, which the server reports as an internal error. *)

From S2P Require Import Prelude Bytes Params Externals Primitives Amounts Account Tx Decimal Operations Block Merkle.
From S2P Require Import AccountLeaf PlasmaState StateKeeper EthWatch Mempool.
Open Scope Z_scope.

Section SignatureChecker.
  Context `{EX : External}.

(** [{:?}] of an address *)
Definition debug_address (a : Address) : bytes := str "0x" ++ hex_encode a.

Definition sign_message (kind : string) (token_id : TokenId) (to : Address) (nonce : Nonce) (account_id : AccountId) : bytes :=
  str kind ++ str " " ++ decimal token_id ++ [10] ++ str "To: " ++ debug_address to ++ [10] ++ str "Nonce: "
  ++ decimal nonce ++ [10] ++ str "Account Id: " ++ decimal account_id.

Definition Transfer_get_ethereum_sign_message (self : Transfer) : bytes :=
  sign_message "Transfer" (tr_token_id self) (tr_to self) (tr_nonce self) (tr_account_id self).
Definition Withdraw_get_ethereum_sign_message (self : Withdraw) : bytes :=
  sign_message "Withdraw" (wd_token_id self) (wd_to self) (wd_nonce self) (wd_account_id self).

Inductive TxEthSignature : Type :=
| EthereumSignature (signature : ETHSignature)
| EIP1271Signature (signature : bytes).

(** ** The contracts (eth_watch.rs) *)

Definition EIP1271_SUCCESS_RETURN_VALUE : bytes := [32; 193; 59; 11].

Record Contracts : Type := mkContracts {
  isValidSignature : Address → bytes → bytes → result bytes;
  authFacts : Address → Z → result bytes;
}.

Definition is_eip1271_signature_correct (contracts : Contracts) (address : Address) (message signature : bytes) : result bool :=
  match isValidSignature contracts address message signature with
  | Ok received => Ok (bool_decide (received = EIP1271_SUCCESS_RETURN_VALUE))
  | Err e => Err ("Failed to query contract isValidSignature: " ++ e)
  end.

Definition is_new_pubkey_hash_authorized (contracts : Contracts) (address : Address) (nonce : Nonce) (pub_key_hash : PubKeyHash) :
    result bool :=
  match authFacts contracts address nonce with
  | Ok auth_fact => Ok (bool_decide (auth_fact = keccak256 (pkh_data pub_key_hash)))
  | Err e => Err ("Failed to query contract authFacts: " ++ e)
  end.

(** The answer to [EthWatchRequest::IsPubkeyChangeAuthorized]. *)
Definition pubkey_change_authorized (contracts : Contracts) (address : Address) (nonce : Nonce) (pubkey_hash : PubKeyHash) : bool :=
  match is_new_pubkey_hash_authorized contracts address nonce pubkey_hash with Ok b => b | Err _ => false end.

(** ** The signature checker *)

Record VerifyTxSignatureRequest : Type := mkVerifyRequest {
  vr_tx : FranklinTx;
  vr_eth_sign_data : option (TxEthSignature * bytes);
}.

(** [VerifiedTx] has no constructor but [verify]. *)
Record VerifiedTx : Type := mkVerifiedTx { into_inner : FranklinTx }.

Definition eip1271_message (message : bytes) : bytes :=
  [25] ++ str "Ethereum Signed Message:" ++ [10] ++ decimal (Z.of_nat (length message)) ++ message.

Definition verify_request_eth_signature (contracts : Contracts) (request : VerifyTxSignatureRequest) : unit + TxAddError :=
  let check_signature : unit + TxAddError :=
    match vr_eth_sign_data request with
    | None => inl tt
    | Some (EthereumSignature packed_signature, message) =>
        match signature_recover_signer packed_signature message with
        | None => inr IncorrectEthSignature
        | Some signer_account =>
            if bool_decide (signer_account = FranklinTx_account (vr_tx request)) then inl tt else inr IncorrectEthSignature
        end
    | Some (EIP1271Signature signature, message) =>
        match is_eip1271_signature_correct contracts (FranklinTx_account (vr_tx request)) (eip1271_message message) signature with
        | Err _ => inr EIP1271SignatureVerificationFail
        | Ok signature_correct => if signature_correct : bool then inl tt else inr IncorrectTx
        end
    end in
  match vr_tx request with
  | TxChangePubKey change_pk =>
      if bool_decide (cpk_eth_signature change_pk = None)
         && negb (pubkey_change_authorized contracts (cpk_account change_pk) (cpk_nonce change_pk) (cpk_new_pk_hash change_pk))
      then inr ChangePkNotAuthorized
      else check_signature
  | _ => check_signature
  end.

Definition verify_tx_correctness (tx : FranklinTx) : outcome (FranklinTx + TxAddError) :=
  checked ← FranklinTx_check_correctness tx;
  Val (if checked.1 : bool then inl checked.2 else inr IncorrectTx).

Definition VerifiedTx_verify (contracts : Contracts) (request : VerifyTxSignatureRequest) : outcome (VerifiedTx + TxAddError) :=
  match verify_request_eth_signature contracts request with
  | inr e => Val (inr e)
  | inl tt =>
      r ← verify_tx_correctness (vr_tx request);
      Val (match r with inl tx => inl (mkVerifiedTx tx) | inr e => inr e end)
  end.

(** ** The JSON-RPC server *)

Inductive RpcErrorCodes : Type :=
| RpcNonceMismatch
| RpcIncorrectTx
| RpcMissingEthSignature
| RpcEIP1271SignatureVerificationFail
| RpcIncorrectEthSignature
| RpcChangePkNotAuthorized
| RpcOther
| RpcAccountCloseDisabled.

Definition rpc_error_code (c : RpcErrorCodes) : Z :=
  match c with
  | RpcNonceMismatch => 101
  | RpcIncorrectTx => 103
  | RpcMissingEthSignature => 200
  | RpcEIP1271SignatureVerificationFail => 201
  | RpcIncorrectEthSignature => 202
  | RpcChangePkNotAuthorized => 203
  | RpcOther => 300
  | RpcAccountCloseDisabled => 301
  end.

Definition RpcErrorCodes_from (error : TxAddError) : RpcErrorCodes :=
  match error with
  | NonceMismatch => RpcNonceMismatch
  | IncorrectTx => RpcIncorrectTx
  | MissingEthSignature => RpcMissingEthSignature
  | EIP1271SignatureVerificationFail => RpcEIP1271SignatureVerificationFail
  | IncorrectEthSignature => RpcIncorrectEthSignature
  | ChangePkNotAuthorized => RpcChangePkNotAuthorized
  | Other => RpcOther
  end.

(** [Display] *)
Definition TxAddError_to_string (error : TxAddError) : string :=
  match error with
  | NonceMismatch => "Tx nonce is too low."
  | IncorrectTx => "Tx is incorrect"
  | EIP1271SignatureVerificationFail => "EIP1271 signature could not be verified"
  | MissingEthSignature => "MissingEthSignature"
  | IncorrectEthSignature => "Eth signature is incorrect"
  | ChangePkNotAuthorized => "Change pubkey tx is not authorized onchain"
  | Other => "Internal error"
  end.

(** [jsonrpc_core::Error] *)
Record RpcError : Type := mkRpcError { re_code : Z; re_message : string }.
Definition internal_error : RpcError := mkRpcError (-32603) "Internal error".
Definition rpc_message (error : TxAddError) : RpcError :=
  mkRpcError (rpc_error_code (RpcErrorCodes_from error)) (TxAddError_to_string error).

Definition get_tx_info_message_to_sign (tx : FranklinTx) : option bytes :=
  match tx with
  | TxTransfer tx => Some (Transfer_get_ethereum_sign_message tx)
  | TxWithdraw tx => Some (Withdraw_get_ethereum_sign_message tx)
  | _ => None
  end.

Definition verify_tx_info_message_signature (contracts : Contracts) (tx : FranklinTx) (signature : option TxEthSignature)
    (msg_to_sign : option bytes) : VerifiedTx + RpcError :=
  let eth_sign_data : option (TxEthSignature * bytes) + RpcError :=
    match msg_to_sign with
    | Some message_to_sign =>
        match signature with
        | Some signature => inl (Some (signature, message_to_sign))
        | None => inr (rpc_message MissingEthSignature)
        end
    | None => inl None
    end in
  match eth_sign_data with
  | inr e => inr e
  | inl eth_sign_data =>
      match VerifiedTx_verify contracts (mkVerifyRequest tx eth_sign_data) with
      | Panic _ => inr internal_error
      | Val (inr e) => inr (rpc_message e)
      | Val (inl verified) => inl verified
      end
  end.

Definition tx_submit (contracts : Contracts) (tx : FranklinTx) (signature : option TxEthSignature) (mempool : Mempool) :
    (bytes + RpcError) * Mempool :=
  if is_close tx then (inr (mkRpcError (rpc_error_code RpcAccountCloseDisabled) "Account close tx is disabled."), mempool)
  else
    match verify_tx_info_message_signature contracts tx signature (get_tx_info_message_to_sign tx) with
    | inr e => (inr e, mempool)
    | inl verified_tx =>
        let hash := FranklinTx_hash tx in
        let '(tx_add_result, st) := add_tx (into_inner verified_tx) (mempool_state mempool) in
        (match tx_add_result with inl _ => inl hash | inr e => inr (rpc_message e) end,
         mkMempool st (max_block_size_chunks mempool))
    end.

(** ** What is admitted *)

(** The account signed the message, with its key or through its contract. *)
Definition eth_signed (contracts : Contracts) (account : Address) (message : bytes) (signature : TxEthSignature) : Prop :=
  match signature with
  | EthereumSignature packed_signature => signature_recover_signer packed_signature message = Some account
  | EIP1271Signature signature =>
      isValidSignature contracts account (eip1271_message message) signature = Ok EIP1271_SUCCESS_RETURN_VALUE
  end.

(** The Ethereum account agrees to the transaction. *)
Definition eth_authorised (contracts : Contracts) (tx : FranklinTx) (signature : option TxEthSignature) : Prop :=
  match tx with
  | TxTransfer t => ∃ s, signature = Some s ∧ eth_signed contracts (tr_from t) (Transfer_get_ethereum_sign_message t) s
  | TxWithdraw t => ∃ s, signature = Some s ∧ eth_signed contracts (wd_from t) (Withdraw_get_ethereum_sign_message t) s
  | TxChangePubKey t =>
      cpk_eth_signature t = None →
      authFacts contracts (cpk_account t) (cpk_nonce t) = Ok (keccak256 (pkh_data (cpk_new_pk_hash t)))
  | TxClose _ => False
  end.

Definition admitted (contracts : Contracts) (tx : FranklinTx) (signature : option TxEthSignature) (self : MempoolState)
    (checked : FranklinTx) : Prop :=
  eth_authorised contracts tx signature ∧ FranklinTx_check_correctness tx = Val (true, checked) ∧
  mempool_nonce self (FranklinTx_account tx) ≤ FranklinTx_nonce tx.

Inductive refused (contracts : Contracts) (tx : FranklinTx) (signature : option TxEthSignature) (self : MempoolState) :
    RpcError → Prop :=
| refused_close :
    is_close tx = true → refused contracts tx signature self (mkRpcError 301 "Account close tx is disabled.")
| refused_unsigned m :
    get_tx_info_message_to_sign tx = Some m → signature = None →
    refused contracts tx signature self (mkRpcError 200 "MissingEthSignature")
| refused_key t :
    tx = TxChangePubKey t → ¬ eth_authorised contracts tx signature →
    refused contracts tx signature self (mkRpcError 203 "Change pubkey tx is not authorized onchain")
| refused_signer m s :
    get_tx_info_message_to_sign tx = Some m → signature = Some (EthereumSignature s) →
    signature_recover_signer s m ≠ Some (FranklinTx_account tx) →
    refused contracts tx signature self (mkRpcError 202 "Eth signature is incorrect")
| refused_query m s e :
    get_tx_info_message_to_sign tx = Some m → signature = Some (EIP1271Signature s) →
    isValidSignature contracts (FranklinTx_account tx) (eip1271_message m) s = Err e →
    refused contracts tx signature self (mkRpcError 201 "EIP1271 signature could not be verified")
| refused_contract m s r :
    get_tx_info_message_to_sign tx = Some m → signature = Some (EIP1271Signature s) →
    isValidSignature contracts (FranklinTx_account tx) (eip1271_message m) s = Ok r → r ≠ EIP1271_SUCCESS_RETURN_VALUE →
    refused contracts tx signature self (mkRpcError 103 "Tx is incorrect")
| refused_incorrect tx' :
    eth_authorised contracts tx signature → FranklinTx_check_correctness tx = Val (false, tx') →
    refused contracts tx signature self (mkRpcError 103 "Tx is incorrect")
| refused_panic msg :
    eth_authorised contracts tx signature → FranklinTx_check_correctness tx = Panic msg →
    refused contracts tx signature self internal_error
| refused_nonce tx' :
    eth_authorised contracts tx signature → FranklinTx_check_correctness tx = Val (true, tx') →
    FranklinTx_nonce tx < mempool_nonce self (FranklinTx_account tx) →
    refused contracts tx signature self (mkRpcError 101 "Tx nonce is too low.").

Definition push_tx (tx : FranklinTx) (self : Mempool) : Mempool :=
  let st := mempool_state self in
  mkMempool (mkMempoolState (account_nonces st) (account_ids st) (ready_txs st ++ [tx])) (max_block_size_chunks self).

(** Checking a transaction fills its cache of the signer only. *)
Lemma check_correctness_same tx b tx' :
  FranklinTx_check_correctness tx = Val (b, tx') →
  FranklinTx_account tx' = FranklinTx_account tx ∧ FranklinTx_nonce tx' = FranklinTx_nonce tx ∧
  FranklinTx_get_bytes tx' = FranklinTx_get_bytes tx.
Proof.
  destruct tx as [t|t|t|t]; cbn [FranklinTx_check_correctness]; intros H.
  - apply outcome_bind_Val in H as ([b' t'] & H & [= <- <-]). unfold Transfer_check_correctness in H.
    apply outcome_bind_Val in H as ([] & _ & H); [|by injection H as <- <-].
    apply outcome_bind_Val in H as (? & _ & [= <- <-]). done.
  - apply outcome_bind_Val in H as ([b' t'] & H & [= <- <-]). unfold Withdraw_check_correctness in H.
    apply outcome_bind_Val in H as ([] & _ & H); [|by injection H as <- <-].
    apply outcome_bind_Val in H as (? & _ & [= <- <-]). done.
  - by apply outcome_bind_Val in H as (? & _ & [= <- <-]).
  - by injection H as <- <-.
Qed.

Lemma message_verified contracts tx s self m :
  get_tx_info_message_to_sign tx = Some m →
  match verify_request_eth_signature contracts (mkVerifyRequest tx (Some (s, m))) with
  | inl _ => eth_signed contracts (FranklinTx_account tx) m s
  | inr e => refused contracts tx (Some s) self (rpc_message e)
  end.
Proof.
  intros Hm. assert (∀ A (f : ChangePubKey → A) a, match tx with TxChangePubKey t => f t | _ => a end = a) as Htx
    by (by destruct tx).
  unfold verify_request_eth_signature. cbn [vr_tx vr_eth_sign_data]. rewrite Htx. destruct s as [s|s].
  - destruct (signature_recover_signer s m) as [a|] eqn:E; [|eapply refused_signer; [done|done|congruence]].
    case_bool_decide as Ha; [cbn; by rewrite <- Ha|]. eapply refused_signer; [done|done|congruence].
  - unfold is_eip1271_signature_correct. destruct (isValidSignature _ _ _ _) as [r|e] eqn:E; [|by eapply refused_query].
    case_bool_decide as Hr; [unfold eth_signed; by rewrite E, Hr|]. by eapply refused_contract.
Qed.

(** The rest of the check, for a request whose Ethereum signature is right. *)
Lemma correctness_verified contracts tx signature data self :
  eth_authorised contracts tx signature →
  verify_request_eth_signature contracts (mkVerifyRequest tx data) = inl tt →
  match VerifiedTx_verify contracts (mkVerifyRequest tx data) with
  | Val (inl v) => FranklinTx_check_correctness tx = Val (true, into_inner v)
  | Val (inr e) => refused contracts tx signature self (rpc_message e)
  | Panic _ => refused contracts tx signature self internal_error
  end.
Proof.
  intros Ha Hv. unfold VerifiedTx_verify. rewrite Hv. unfold verify_tx_correctness. cbn [vr_tx].
  destruct (FranklinTx_check_correctness tx) as [[[] tx']|msg] eqn:E; cbn; [done| |].
  - by eapply refused_incorrect.
  - by eapply refused_panic.
Qed.

Lemma verify_message_spec contracts tx signature self :
  is_close tx = false →
  match verify_tx_info_message_signature contracts tx signature (get_tx_info_message_to_sign tx) with
  | inl v => eth_authorised contracts tx signature ∧ FranklinTx_check_correctness tx = Val (true, into_inner v)
  | inr e => refused contracts tx signature self e
  end.
Proof.
  intros Hc. unfold verify_tx_info_message_signature.
  assert (∀ data, match verify_request_eth_signature contracts (mkVerifyRequest tx data) with
                  | inl _ => eth_authorised contracts tx signature
                  | inr e => refused contracts tx signature self (rpc_message e) end →
    match match VerifiedTx_verify contracts (mkVerifyRequest tx data) with
          | Panic _ => inr internal_error | Val (inr e) => inr (rpc_message e) | Val (inl verified) => inl verified end with
    | inl v => eth_authorised contracts tx signature ∧ FranklinTx_check_correctness tx = Val (true, into_inner v)
    | inr e => refused contracts tx signature self e
    end) as Hrest.
  { intros data. destruct (verify_request_eth_signature _ _) as [[]|e] eqn:E; intros H.
    - pose proof (correctness_verified contracts tx signature data self H E) as Hv.
      by destruct (VerifiedTx_verify _ _) as [[v|e]|].
    - unfold VerifiedTx_verify. by rewrite E. }
  destruct (get_tx_info_message_to_sign tx) as [m|] eqn:Hm.
  - destruct signature as [s|]; [|by eapply refused_unsigned]. apply Hrest.
    pose proof (message_verified contracts tx s self m Hm) as H. destruct (verify_request_eth_signature _ _); [|done].
    destruct tx as [t|t|t|t]; try done; injection Hm as <-; by exists s.
  - apply Hrest. destruct tx as [t|t|t|t]; try done. unfold verify_request_eth_signature. cbn [vr_tx vr_eth_sign_data].
    unfold pubkey_change_authorized, is_new_pubkey_hash_authorized.
    case_bool_decide as Hn; [|cbn; by intros ?].
    assert (authFacts contracts (cpk_account t) (cpk_nonce t) ≠ Ok (keccak256 (pkh_data (cpk_new_pk_hash t))) →
            refused contracts (TxChangePubKey t) signature self (rpc_message ChangePkNotAuthorized)) as Hno.
    { intros H. by eapply refused_key; [|intros H'%H]. }
    destruct (authFacts _ _ _) as [r|e] eqn:E; [|by apply Hno].
    case_bool_decide as Hr; cbn; [intros _; by rewrite E, Hr|apply Hno; congruence].
Qed.

Lemma tx_submit_spec contracts tx signature mempool :
  match tx_submit contracts tx signature mempool with
  | (inl hash, mempool') =>
      hash = FranklinTx_hash tx ∧
      ∃ checked, admitted contracts tx signature (mempool_state mempool) checked ∧ mempool' = push_tx checked mempool
  | (inr e, mempool') => refused contracts tx signature (mempool_state mempool) e ∧ mempool' = mempool
  end.
Proof.
  unfold tx_submit. destruct (is_close tx) eqn:Hc; [by split; [apply refused_close|]|].
  pose proof (verify_message_spec contracts tx signature (mempool_state mempool) Hc) as H.
  destruct (verify_tx_info_message_signature _ _ _ _) as [[v]|e]; [|by split].
  destruct H as [Ha Hv]. cbn [into_inner] in *. destruct (check_correctness_same _ _ _ Hv) as (Hac & Hn & _).
  unfold add_tx. rewrite Hac, Hn. destruct (Z.leb_spec (mempool_nonce (mempool_state mempool) (FranklinTx_account tx))
    (FranklinTx_nonce tx)) as [Hle|Hlt]; cbn.
  - split; [done|]. by exists v.
  - split; [by eapply refused_nonce|]. by destruct mempool.
Qed.

(** C12: A submitted transaction is either admitted, and then its hash is returned and the checked
    transaction is put at the end of the queue of the mempool, or refused with the error
    of the check that failed, and then nothing changes. *)
Theorem tx_submit_correct contracts tx signature mempool :
  match tx_submit contracts tx signature mempool with
  | (inl hash, mempool') =>
      hash = FranklinTx_hash tx ∧
      ∃ checked, admitted contracts tx signature (mempool_state mempool) checked ∧ mempool' = push_tx checked mempool
  | (inr e, mempool') => refused contracts tx signature (mempool_state mempool) e ∧ mempool' = mempool
  end.
Proof. apply tx_submit_spec. Qed.

(** An admitted transaction is not refused. *)
Lemma admitted_not_refused contracts tx signature self checked e :
  admitted contracts tx signature self checked → ¬ refused contracts tx signature self e.
Proof.
  intros (Ha & Hv & Hn) H. destruct H as [Hc|m Hm ->|t -> Hno|m s Hm -> Hs|m s e Hm -> He|m s r Hm -> Hr Hne|tx' _ H|msg _ H|tx' _ _ H];
    try congruence; try lia; destruct tx as [t'|t'|t'|t']; try done; injection Hm as <-; destruct Ha as (s' & [= <-] & Hs'); cbn in *; congruence.
Qed.

(** ** The transactions of the proposer *)

(** A submission that returned a hash, and the state of the mempool at that time. *)
Record Admission : Type := mkAdmission {
  ad_contracts : Contracts;
  ad_tx : FranklinTx;
  ad_signature : option TxEthSignature;
  ad_state : MempoolState;
}.
Definition admits (a : Admission) (checked : FranklinTx) : Prop :=
  admitted (ad_contracts a) (ad_tx a) (ad_signature a) (ad_state a) checked.

(** The mempool under the requests of the API server, the proposer and the committer: the
    submissions that were admitted and the transactions that were proposed so far. *)
Inductive serves (mempool0 : Mempool) : list Admission → list FranklinTx → Mempool → Prop :=
| serves_start : serves mempool0 [] [] mempool0
| serves_submit admissions proposed mempool contracts tx signature r mempool' :
    serves mempool0 admissions proposed mempool → tx_submit contracts tx signature mempool = (r, mempool') →
    serves mempool0
      (admissions ++ match r with inl _ => [mkAdmission contracts tx signature (mempool_state mempool)] | inr _ => [] end)
      proposed mempool'
| serves_propose admissions proposed mempool watch n block mempool' :
    serves mempool0 admissions proposed mempool → propose_new_block watch n mempool = (block, mempool') →
    serves mempool0 admissions (proposed ++ pb_txs block) mempool'
| serves_commit admissions proposed mempool updates :
    serves mempool0 admissions proposed mempool →
    serves mempool0 admissions proposed
      (mkMempool (update_nonces updates (mempool_state mempool)) (max_block_size_chunks mempool)).

Lemma update_nonces_ready updates self : ready_txs (update_nonces updates self) = ready_txs self.
Proof.
  unfold update_nonces. revert self. induction updates as [|[id u] updates IH]; intros self; [done|]. cbn [foldl].
  rewrite IH. destruct u; cbn; try done; unfold set_account_nonce; by repeat case_match.
Qed.

Lemma propose_ready watch n mp b mp' :
  propose_new_block watch n mp = (b, mp') → pb_txs b ++ ready_txs (mempool_state mp') = ready_txs (mempool_state mp).
Proof.
  unfold propose_new_block, select_priority_ops, prepare_tx_for_block. intros H.
  pose proof (take_txs_spec (mempool_state mp) (ready_txs (mempool_state mp))) as Hspec.
  match type of H with context [take_txs _ _ ?left []] => specialize (Hspec left []) end.
  destruct (take_txs _ _ _ _) as [[left txs] rest]. injection H as <- <-. by destruct Hspec as (new & -> & <- & _).
Qed.

(** C13: The transactions that were proposed, followed by those that wait, are the admitted ones in the order of
    their submission: none is lost, repeated or overtaken, and none gets in without the
    agreement of its Ethereum account and its own signature. *)
Theorem proposed_txs_admitted mempool0 admissions proposed mempool :
  serves mempool0 admissions proposed mempool →
  ∃ checked, Forall2 admits admissions checked ∧
    proposed ++ ready_txs (mempool_state mempool) = ready_txs (mempool_state mempool0) ++ checked.
Proof.
  induction 1 as [|admissions proposed mp c tx sg r mp' _ (checked & Hall & E) H
                 |admissions proposed mp watch n b mp' _ (checked & Hall & E) H
                 |admissions proposed mp updates _ (checked & Hall & E)].
  - exists []. by rewrite app_nil_r.
  - pose proof (tx_submit_spec c tx sg mp) as Hs. rewrite H in Hs. destruct r as [h|e].
    + destruct Hs as (_ & tx' & Ha & ->). exists (checked ++ [tx']). split; [by apply Forall2_app; [|constructor]|].
      cbn. by rewrite !app_assoc, E.
    + destruct Hs as (_ & ->). exists checked. by rewrite app_nil_r.
  - exists checked. split; [done|]. by rewrite <- app_assoc, (propose_ready _ _ _ _ _ H).
  - exists checked. split; [done|]. cbn. by rewrite update_nonces_ready.
Qed.

End SignatureChecker.

(** ** The signed message *)
Section Message.
  Context `{EX : External} `{EXL : !ExternalLaws}.

(** The first line of a message is its kind and the token, then come the recipient, the
    nonce and the account. *)
Lemma sign_message_inj kind kind' t t' a a' n n' k k' :
  (kind = "Transfer" ∨ kind = "Withdraw") → (kind' = "Transfer" ∨ kind' = "Withdraw") →
  is_array 20 a → is_array 20 a' → 0 ≤ t → 0 ≤ t' → 0 ≤ n → 0 ≤ n' → 0 ≤ k → 0 ≤ k' →
  sign_message kind t a n k = sign_message kind' t' a' n' k' → kind = kind' ∧ t = t' ∧ a = a' ∧ n = n' ∧ k = k'.
Proof.
  intros Hkind Hkind' Ha Ha' Ht Ht' Hn Hn' Hk Hk' H. unfold sign_message in H.
  apply app_inj_1 in H as [Hkk H]; [|by destruct Hkind as [-> | ->], Hkind' as [-> | ->]].
  apply str_inj in Hkk as ->. split; [done|]. apply app_inv_head in H. cbn [app] in H.
  apply separated_inj in H as [Et H]; [|by apply decimal_not_in..]. apply decimal_inj in Et as ->; [|done..].
  split; [done|]. apply app_inv_head in H. apply app_inj_1 in H as [Ea H].
  2:{ unfold debug_address. rewrite !length_app, !hex_encode_length. by rewrite (proj1 Ha), (proj1 Ha'). }
  apply app_inv_head in Ea. apply hex_encode_inj in Ea as ->; [|apply Ha|apply Ha']. split; [done|].
  apply (app_inv_head [10]), app_inv_head in H. apply separated_inj in H as [En H]; [|by apply decimal_not_in..].
  apply decimal_inj in En as ->; [|done..]. split; [done|]. apply app_inv_head in H. by apply decimal_inj in H.
Qed.
End Message.
