(* ===== verification/EthStorage.v ===== *)
(** * Operations on Ethereum and their tables
    (core/models/src/ethereum.rs, core/models/src/lib.rs, core/storage/src/ethereum/mod.rs)

    The operations that the committer hands to the sender of Ethereum transactions, the
    record that the sender keeps for each of them, and the tables where they are stored.
    The tables are lists of rows in the order of insertion; ids come from sequences.
    [diesel]'s [first] without an order takes the first row.  A schema method runs in one
    database transaction: it returns the new tables, or an error and no change.

    [into_op] (of the block schema) turns a row of [operations] into an [Operation], and
    [u256_from_str] is [U256::from_str] of the [web3] crate on the decimal digits of a
    number. *)

From S2P Require Import Prelude Bytes Params Externals Primitives Amounts Account Tx Operations Block.
Open Scope Z_scope.

Section EthOps.
  Context `{EX : External}.

Record EncodedProofPlonk : Type := mkProof { pr_inputs : list Z; pr_proof : list Z }.
#[global] Instance EncodedProofPlonk_eq_dec : EqDecision EncodedProofPlonk.
Proof. solve_decision. Defined.

Inductive ActionType : Type := COMMIT | VERIFY.
#[global] Instance ActionType_eq_dec : EqDecision ActionType.
Proof. solve_decision. Defined.

Definition ActionType_to_string (self : ActionType) : string :=
  match self with COMMIT => "COMMIT" | VERIFY => "VERIFY" end.

Definition ActionType_from_str (s : string) : result ActionType :=
  if decide (s = "COMMIT"%string) then Ok COMMIT
  else if decide (s = "VERIFY"%string) then Ok VERIFY
  else Err "Should be either: COMMIT or VERIFY".

Inductive Action : Type :=
| ACommit
| AVerify (proof : EncodedProofPlonk).

Definition get_type (self : Action) : ActionType :=
  match self with ACommit => COMMIT | AVerify _ => VERIFY end.

Record Operation : Type := mkOperation {
  op_id : option Z;
  op_action : Action;
  op_block : Block;
  op_accounts_updated : AccountUpdates;
}.

Inductive OperationType : Type := Commit | Verify | Withdraw_.
#[global] Instance OperationType_eq_dec : EqDecision OperationType.
Proof. solve_decision. Defined.

Definition OperationType_to_string (self : OperationType) : string :=
  match self with Commit => "commit" | Verify => "verify" | Withdraw_ => "withdraw" end.

Definition OperationType_from_str (s : string) : result OperationType :=
  if decide (s = "commit"%string) then Ok Commit
  else if decide (s = "verify"%string) then Ok Verify
  else if decide (s = "withdraw"%string) then Ok Withdraw_
  else Err "Unknown type of operation".

Record ETHOperation : Type := mkETHOperation {
  eo_id : Z;
  eo_op_type : OperationType;
  eo_op : option Operation;
  eo_nonce : Z;
  eo_last_deadline_block : Z;
  eo_last_used_gas_price : Z;
  eo_used_tx_hashes : list Z;
  eo_encoded_tx_data : bytes;
  eo_confirmed : bool;
  eo_final_hash : option Z;
}.

Definition is_stuck (self : ETHOperation) (current_block : Z) : bool :=
  eo_last_deadline_block self <=? current_block.

Definition is_verify (self : ETHOperation) : bool :=
  match eo_op self with
  | Some op => match op_action op with AVerify _ => true | ACommit => false end
  | None => false
  end.

Record InsertedOperationResponse : Type := mkInserted { ins_id : Z; ins_nonce : Z }.

Lemma OperationType_roundtrip t : OperationType_from_str (OperationType_to_string t) = Ok t.
Proof. by destruct t. Qed.
End EthOps.

(** Signed 64-bit integers. *)
Definition to_i64 (z : Z) : Z := if wrap 64 z <? 2 ^ 63 then wrap 64 z else wrap 64 z - 2 ^ 64.
Lemma wrap_to_i64 z : wrap 64 (to_i64 z) = wrap 64 z.
Proof.
  unfold to_i64, wrap. case_match; [by rewrite Z.mod_mod|].
  replace (z mod 2 ^ 64 - 2 ^ 64) with (z mod 2 ^ 64 + -1 * 2 ^ 64) by lia. by rewrite Z_mod_plus_full, Z.mod_mod.
Qed.

(** [ORDER BY key ASC]. *)
Section OrderBy.
  Context {A : Type} (key : A → Z).

Fixpoint insert_by (x : A) (l : list A) : list A :=
  match l with
  | [] => [x]
  | y :: l => if key x <=? key y then x :: y :: l else y :: insert_by x l
  end.
Definition order_by (l : list A) : list A := foldr insert_by [] l.

Lemma order_by_sorted l : StronglySorted (λ a b, key a ≤ key b) l → order_by l = l.
Proof.
  induction 1 as [|x l _ IH Hx]; [done|]. cbn. fold (order_by l). rewrite IH.
  destruct l as [|y l]; [done|]. cbn. apply Forall_cons in Hx as [Hx _]. by rewrite (proj2 (Z.leb_le _ _)).
Qed.
Lemma elem_of_order_by l x : x ∈ order_by l → x ∈ l.
Proof.
  induction l as [|y l IH]; [done|]. cbn. fold (order_by l).
  assert (∀ k, x ∈ insert_by y k → x = y ∨ x ∈ k) as Hins.
  { induction k as [|z k IHk]; cbn; [set_solver|]. case_match; set_solver. }
  intros [->|H]%Hins; [by left|right; by apply IH].
Qed.
(** The first row. *)
Lemma head_order_by l : match head (order_by l) with Some x => x ∈ l | None => l = [] end.
Proof.
  assert (∀ x k, order_by (x :: k) ≠ []) as Hne.
  { intros x k. unfold order_by. cbn. destruct (foldr _ _ _) as [|y l']; cbn; [done|by destruct (_ <=? _)]. }
  destruct l as [|x l]; [done|]. pose proof (elem_of_order_by (x :: l)) as Hin.
  destruct (order_by (x :: l)) as [|y k] eqn:E; [by apply Hne in E|]. apply Hin. left.
Qed.
End OrderBy.

Section EthStorage.
  Context `{EX : External}.

Record StorageETHOperation : Type := mkStorageETHOperation {
  se_id : Z;
  se_nonce : Z;
  se_confirmed : bool;
  se_raw_tx : bytes;
  se_op_type : string;
  se_final_hash : option Z;
  se_last_deadline_block : Z;
  se_last_used_gas_price : Z;
}.

Record ETHTxHash : Type := mkETHTxHash { th_id : Z; th_eth_op_id : Z; th_tx_hash : Z }.
Record ETHBinding : Type := mkETHBinding { bd_op_id : Z; bd_eth_op_id : Z }.
Record ETHParams : Type := mkETHParams {
  ep_nonce : Z;
  ep_gas_price_limit : Z;
  ep_commit_ops : Z;
  ep_verify_ops : Z;
  ep_withdraw_ops : Z;
}.
Record StoredOperation : Type := mkStoredOperation {
  so_id : Z;
  so_block_number : Z;
  so_action_type : string;
  so_confirmed : bool;
}.

Record EthDb : Type := mkEthDb {
  eth_operations : list StorageETHOperation;
  eth_operations_seq : Z;
  eth_tx_hashes : list ETHTxHash;
  eth_tx_hashes_seq : Z;
  eth_ops_binding : list ETHBinding;
  eth_parameters : option ETHParams;
  operations : list StoredOperation;
}.

Definition set_eth_operations (l : list StorageETHOperation) (db : EthDb) : EthDb :=
  mkEthDb l (eth_operations_seq db) (eth_tx_hashes db) (eth_tx_hashes_seq db) (eth_ops_binding db)
    (eth_parameters db) (operations db).
Definition set_eth_parameters (p : ETHParams) (db : EthDb) : EthDb :=
  mkEthDb (eth_operations db) (eth_operations_seq db) (eth_tx_hashes db) (eth_tx_hashes_seq db)
    (eth_ops_binding db) (Some p) (operations db).
Definition set_operations (l : list StoredOperation) (db : EthDb) : EthDb :=
  mkEthDb (eth_operations db) (eth_operations_seq db) (eth_tx_hashes db) (eth_tx_hashes_seq db)
    (eth_ops_binding db) (eth_parameters db) l.

Definition first_params (db : EthDb) : Fallible ETHParams := ok_or "NotFound" (eth_parameters db).

Definition get_next_nonce (db : EthDb) : Fallible (Z * EthDb) :=
  old_nonce ← first_params db;
  let new_nonce_value := to_i64 (ep_nonce old_nonce + 1) in
  Val (Ok (ep_nonce old_nonce,
           set_eth_parameters (mkETHParams new_nonce_value (ep_gas_price_limit old_nonce)
             (ep_commit_ops old_nonce) (ep_verify_ops old_nonce) (ep_withdraw_ops old_nonce)) db)).

Definition report_created_operation (operation_type : OperationType) (db : EthDb) : Fallible EthDb :=
  current_stats ← first_params db;
  let stats := match operation_type with
    | Commit => mkETHParams (ep_nonce current_stats) (ep_gas_price_limit current_stats)
                  (to_i64 (ep_commit_ops current_stats + 1)) (ep_verify_ops current_stats) (ep_withdraw_ops current_stats)
    | Verify => mkETHParams (ep_nonce current_stats) (ep_gas_price_limit current_stats)
                  (ep_commit_ops current_stats) (to_i64 (ep_verify_ops current_stats + 1)) (ep_withdraw_ops current_stats)
    | Withdraw_ => mkETHParams (ep_nonce current_stats) (ep_gas_price_limit current_stats)
                  (ep_commit_ops current_stats) (ep_verify_ops current_stats) (to_i64 (ep_withdraw_ops current_stats + 1))
    end in
  Val (Ok (set_eth_parameters stats db)).

(** [U256::from] of a signed integer panics on a negative one. *)
Definition u256_from_i64 (z : Z) : outcome Z :=
  _ ← assert_that (0 <=? z) "Unsigned integer can't be created from negative value"; Val z.

Definition save_new_eth_tx (op_type : OperationType) (op_id : option Z) (last_deadline_block : Z)
    (last_used_gas_price : Z) (raw_tx : bytes) (db : EthDb) : Fallible (InsertedOperationResponse * EthDb) :=
  r ← get_next_nonce db;
  let '(nonce, db) := r in
  let eth_op_id := eth_operations_seq db in
  let row := mkStorageETHOperation eth_op_id nonce false raw_tx (OperationType_to_string op_type) None
               last_deadline_block last_used_gas_price in
  let binding := match op_id with Some op_id => [mkETHBinding op_id eth_op_id] | None => [] end in
  let db := mkEthDb (eth_operations db ++ [row]) (eth_op_id + 1) (eth_tx_hashes db) (eth_tx_hashes_seq db)
              (eth_ops_binding db ++ binding) (eth_parameters db) (operations db) in
  db ← report_created_operation op_type db;
  nonce ← lift_outcome (u256_from_i64 nonce);
  Val (Ok (mkInserted eth_op_id nonce, db)).

Definition get_eth_op_id (hash : Z) (db : EthDb) : Fallible Z :=
  hash_entry ← ok_or "NotFound" (head (List.filter (λ h, th_tx_hash h =? hash) (eth_tx_hashes db)));
  Val (Ok (th_eth_op_id hash_entry)).

Definition add_hash_entry (eth_op_id hash : Z) (db : EthDb) : Fallible EthDb :=
  Val (Ok (mkEthDb (eth_operations db) (eth_operations_seq db)
             (eth_tx_hashes db ++ [mkETHTxHash (eth_tx_hashes_seq db) eth_op_id hash]) (eth_tx_hashes_seq db + 1)
             (eth_ops_binding db) (eth_parameters db) (operations db))).

Definition update_eth_tx (eth_op_id new_deadline_block new_gas_value : Z) (db : EthDb) : Fallible EthDb :=
  Val (Ok (set_eth_operations
    ((λ e, if se_id e =? eth_op_id
           then mkStorageETHOperation (se_id e) (se_nonce e) (se_confirmed e) (se_raw_tx e) (se_op_type e)
                  (se_final_hash e) new_deadline_block new_gas_value
           else e) <$> eth_operations db) db)).

(** [i64::try_from(gas_price_limit).expect(..)] *)
Definition update_gas_price_limit (gas_price_limit : Z) (db : EthDb) : Fallible EthDb :=
  _ ← lift_outcome (assert_that (gas_price_limit <? 2 ^ 63) "Can't convert U256 to i64");
  Val (Ok (match eth_parameters db with
           | Some p => set_eth_parameters (mkETHParams (ep_nonce p) gas_price_limit (ep_commit_ops p)
                         (ep_verify_ops p) (ep_withdraw_ops p)) db
           | None => db
           end)).

Definition load_gas_price_limit (db : EthDb) : Fallible Z :=
  params ← first_params db;
  _ ← lift_outcome (assert_that (0 <=? ep_gas_price_limit params) "Negative gas limit value stored in DB");
  Val (Ok (ep_gas_price_limit params)).

Record ETHStats : Type := mkETHStats { st_commit_ops : Z; st_verify_ops : Z; st_withdraw_ops : Z }.

(** [load_stats] with the conversion to [usize]. *)
Definition load_stats (db : EthDb) : Fallible ETHStats :=
  params ← first_params db;
  Val (Ok (mkETHStats (wrap 64 (ep_commit_ops params)) (wrap 64 (ep_verify_ops params)) (wrap 64 (ep_withdraw_ops params)))).

Definition confirm_eth_tx (hash : Z) (db : EthDb) : Fallible EthDb :=
  eth_op_id ← get_eth_op_id hash db;
  let updated := List.filter (λ e, se_id e =? eth_op_id) (eth_operations db) in
  let db := set_eth_operations
    ((λ e, if se_id e =? eth_op_id
           then mkStorageETHOperation (se_id e) (se_nonce e) true (se_raw_tx e) (se_op_type e) (Some hash)
                  (se_last_deadline_block e) (se_last_used_gas_price e)
           else e) <$> eth_operations db) db in
  _ ← lift_outcome (assert_that (length updated =? 1)%nat "Unexpected amount of operations were confirmed");
  match head (List.filter (λ b, bd_eth_op_id b =? eth_op_id) (eth_ops_binding db)) with
  | Some binding =>
      op ← ok_or "NotFound" (head (List.filter (λ o, so_id o =? bd_op_id binding) (operations db)));
      Val (Ok (set_operations
        ((λ o, if so_id o =? so_id op
               then mkStoredOperation (so_id o) (so_block_number o) (so_action_type o) true else o)
         <$> operations db) db))
  | None => Val (Ok db)
  end.

Section Loading.
  Context (into_op : StoredOperation → Fallible Operation) (u256_from_str : Z → option Z).

(** The left joins of [load_unconfirmed_operations]. *)
Definition joined_operations (db : EthDb) (e : StorageETHOperation) : list (option StoredOperation) :=
  match List.filter (λ b, bd_eth_op_id b =? se_id e) (eth_ops_binding db) with
  | [] => [None]
  | bindings =>
      mjoin ((λ b, match List.filter (λ o, so_id o =? bd_op_id b) (operations db) with
                   | [] => [None]
                   | ops => Some <$> ops
                   end) <$> bindings)
  end.

Definition unconfirmed_rows (db : EthDb) : list (StorageETHOperation * option StoredOperation) :=
  mjoin ((λ e, (λ o, (e, o)) <$> joined_operations db e)
         <$> order_by se_id (List.filter (λ e, negb (se_confirmed e)) (eth_operations db))).

Definition hashes_of (db : EthDb) (eth_op_id : Z) : list Z :=
  th_tx_hash <$> order_by th_id (List.filter (λ h, th_eth_op_id h =? eth_op_id) (eth_tx_hashes db)).

(** One round of the loop of [load_unconfirmed_operations]. *)
Definition convert_unconfirmed (db : EthDb) (row : StorageETHOperation * option StoredOperation) :
    Fallible ETHOperation :=
  let '(eth_op, raw_op) := row in
  let used_tx_hashes := hashes_of db (se_id eth_op) in
  _ ← lift_outcome (assert_that (bool_decide (used_tx_hashes ≠ [])) "No hashes stored for the Ethereum operation");
  op ← match raw_op with
       | Some raw_op => op ← into_op raw_op; Val (Ok (Some op))
       | None => Val (Ok None)
       end;
  op_type ← lift_outcome (match OperationType_from_str (se_op_type eth_op) with
                          | Ok t => Val t
                          | Err _ => Panic "Stored operation type must have a valid value"
                          end);
  last_used_gas_price ← lift_outcome (unwrap "called `Result::unwrap()` on an `Err` value"
                                        (u256_from_str (se_last_used_gas_price eth_op)));
  nonce ← lift_outcome (u256_from_i64 (se_nonce eth_op));
  Val (Ok (mkETHOperation (se_id eth_op) op_type op nonce (wrap 64 (se_last_deadline_block eth_op))
             last_used_gas_price used_tx_hashes (se_raw_tx eth_op) (se_confirmed eth_op) (se_final_hash eth_op))).

Fixpoint convert_all {A B} (f : A → Fallible B) (l : list A) : Fallible (list B) :=
  match l with
  | [] => Val (Ok [])
  | x :: l => y ← f x; ys ← convert_all f l; Val (Ok (y :: ys))
  end.

Definition load_unconfirmed_operations (db : EthDb) : Fallible (list ETHOperation) :=
  convert_all (convert_unconfirmed db) (unconfirmed_rows db).

(** Rows of [operations] without a binding; the conversion of the others is not tried. *)
Definition unprocessed_rows (db : EthDb) : list StoredOperation :=
  List.filter (λ o, match List.filter (λ b, bd_op_id b =? so_id o) (eth_ops_binding db) with
                    | [] => true | _ => false end)
    (order_by so_id (List.filter (λ o, negb (so_confirmed o)) (operations db))).

Definition load_unprocessed_operations (db : EthDb) : Fallible (list Operation) :=
  convert_all (λ o, match into_op o with
                    | Val (Err _) => Panic "Can't convert the operation"
                    | r => r
                    end) (unprocessed_rows db).

Definition restore_state (db : EthDb) : Fallible (list ETHOperation * list Operation) :=
  unconfirmed_ops ← load_unconfirmed_operations db;
  unprocessed_ops ← load_unprocessed_operations db;
  Val (Ok (unconfirmed_ops, unprocessed_ops)).
End Loading.
End EthStorage.
