(* ===== verification/TxQueue.v ===== *)
(** * The queue of Ethereum transactions (core/server/src/eth_sender/tx_queue)

    Three queues and the policy that picks the next transaction to send.  The counters
    are 64-bit and wrap. *)

From S2P Require Import Prelude Bytes Params Externals Primitives Amounts Account Tx Operations Block EthStorage.
Open Scope Z_scope.

(** ** The underlying queues *)

Module CounterQueue.
Section Queue.
  Context {T : Type}.

Record CounterQueue : Type := mkCounterQueue { elements : list T; counter : Z }.

Definition new (counter : Z) : CounterQueue := mkCounterQueue [] counter.

Definition return_popped (element : T) (self : CounterQueue) : CounterQueue :=
  mkCounterQueue (element :: elements self) (wrap 64 (counter self - 1)).

Definition push_back (element : T) (self : CounterQueue) : CounterQueue :=
  mkCounterQueue (elements self ++ [element]) (counter self).

Definition pop_front (self : CounterQueue) : option T * CounterQueue :=
  match elements self with
  | element :: rest => (Some element, mkCounterQueue rest (wrap 64 (counter self + 1)))
  | [] => (None, self)
  end.

Definition get_count (self : CounterQueue) : Z := counter self.
End Queue.
Arguments CounterQueue T : clear implicits.
End CounterQueue.

Module SparseQueue.
Section Queue.
  Context {T : Type}.

Record SparseQueue : Type := mkSparseQueue { next_expected_idx : Z; elements : gmap Z T }.

Definition new (next_expected_idx : Z) : SparseQueue := mkSparseQueue next_expected_idx ∅.

Definition return_popped (element : T) (self : SparseQueue) : SparseQueue :=
  let popped_index := wrap 64 (next_expected_idx self - 1) in
  mkSparseQueue popped_index (<[popped_index := element]> (elements self)).

Definition insert (idx : Z) (element : T) (self : SparseQueue) : outcome SparseQueue :=
  _ ← assert_that (next_expected_idx self <=? idx)
        "Can't insert the element with index lower than the next expected one";
  Val (mkSparseQueue (next_expected_idx self) (<[idx := element]> (elements self))).

Definition pop_front (self : SparseQueue) : option T * SparseQueue :=
  match elements self !! next_expected_idx self with
  | Some value =>
      (Some value, mkSparseQueue (wrap 64 (next_expected_idx self + 1))
                     (delete (next_expected_idx self) (elements self)))
  | None => (None, self)
  end.

Definition has_next (self : SparseQueue) : bool :=
  bool_decide (is_Some (elements self !! next_expected_idx self)).

Definition next_id (self : SparseQueue) : Z := next_expected_idx self.
End Queue.
Arguments SparseQueue T : clear implicits.
End SparseQueue.

(** ** The transaction queue *)
Section TxQueue.
  Context `{EX : External}.

Record TxData : Type := mkTxData {
  td_op_type : OperationType;
  td_raw : bytes;
  td_operation : option Operation;
}.

Definition from_operation (op_type : OperationType) (operation : Operation) (raw : bytes) : TxData :=
  mkTxData op_type raw (Some operation).
Definition from_raw (op_type : OperationType) (raw : bytes) : TxData := mkTxData op_type raw None.

Record TxQueueBuilder : Type := mkTxQueueBuilder {
  b_max_pending_txs : Z;
  b_sent_pending_txs : Z;
  b_commit_operations_count : Z;
  b_verify_operations_count : Z;
  b_withdraw_operations_count : Z;
}.

Record TxQueue : Type := mkTxQueue {
  max_pending_txs : Z;
  sent_pending_txs : Z;
  commit_operations : CounterQueue.CounterQueue TxData;
  verify_operations : SparseQueue.SparseQueue TxData;
  withdraw_operations : CounterQueue.CounterQueue TxData;
}.

(** The builder's [new] and [with_*] methods. *)
Definition TxQueueBuilder_new (max_pending_txs : Z) : TxQueueBuilder := mkTxQueueBuilder max_pending_txs 0 0 0 0.
Definition with_sent_pending_txs (n : Z) (b : TxQueueBuilder) : TxQueueBuilder :=
  mkTxQueueBuilder (b_max_pending_txs b) n (b_commit_operations_count b) (b_verify_operations_count b)
    (b_withdraw_operations_count b).
Definition with_commit_operations_count (n : Z) (b : TxQueueBuilder) : TxQueueBuilder :=
  mkTxQueueBuilder (b_max_pending_txs b) (b_sent_pending_txs b) n (b_verify_operations_count b)
    (b_withdraw_operations_count b).
Definition with_verify_operations_count (n : Z) (b : TxQueueBuilder) : TxQueueBuilder :=
  mkTxQueueBuilder (b_max_pending_txs b) (b_sent_pending_txs b) (b_commit_operations_count b) n
    (b_withdraw_operations_count b).
Definition with_withdraw_operations_count (n : Z) (b : TxQueueBuilder) : TxQueueBuilder :=
  mkTxQueueBuilder (b_max_pending_txs b) (b_sent_pending_txs b) (b_commit_operations_count b)
    (b_verify_operations_count b) n.

Definition build (self : TxQueueBuilder) : TxQueue := {|
  max_pending_txs := b_max_pending_txs self;
  sent_pending_txs := b_sent_pending_txs self;
  commit_operations := CounterQueue.new (b_commit_operations_count self);
  verify_operations := SparseQueue.new (wrap 64 (b_verify_operations_count self + 1));
  withdraw_operations := CounterQueue.new (b_withdraw_operations_count self);
|}.

(** Field assignments. *)
Definition set_commit (q : CounterQueue.CounterQueue TxData) (self : TxQueue) : TxQueue :=
  mkTxQueue (max_pending_txs self) (sent_pending_txs self) q (verify_operations self) (withdraw_operations self).
Definition set_verify (q : SparseQueue.SparseQueue TxData) (self : TxQueue) : TxQueue :=
  mkTxQueue (max_pending_txs self) (sent_pending_txs self) (commit_operations self) q (withdraw_operations self).
Definition set_withdraw (q : CounterQueue.CounterQueue TxData) (self : TxQueue) : TxQueue :=
  mkTxQueue (max_pending_txs self) (sent_pending_txs self) (commit_operations self) (verify_operations self) q.
Definition set_sent (n : Z) (self : TxQueue) : TxQueue :=
  mkTxQueue (max_pending_txs self) n (commit_operations self) (verify_operations self) (withdraw_operations self).

Definition add_commit_operation (commit_operation : TxData) (self : TxQueue) : TxQueue :=
  set_commit (CounterQueue.push_back commit_operation (commit_operations self)) self.

Definition add_verify_operation (block_idx : Z) (verify_operation : TxData) (self : TxQueue) : outcome TxQueue :=
  q ← SparseQueue.insert block_idx verify_operation (verify_operations self);
  Val (set_verify q self).

Definition add_withdraw_operation (withdraw_operation : TxData) (self : TxQueue) : TxQueue :=
  set_withdraw (CounterQueue.push_back withdraw_operation (withdraw_operations self)) self.

Definition return_popped (element : TxData) (self : TxQueue) : TxQueue :=
  match td_op_type element with
  | Commit => set_commit (CounterQueue.return_popped element (commit_operations self)) self
  | Verify => set_verify (SparseQueue.return_popped element (verify_operations self)) self
  | Withdraw_ => set_withdraw (CounterQueue.return_popped element (withdraw_operations self)) self
  end.

(** [has_next] just held, so the [unwrap] of the verify branch cannot panic; it is kept. *)
Definition get_next_operation (self : TxQueue) : outcome (option TxData * TxQueue) :=
  let next_verify_op_id := SparseQueue.next_id (verify_operations self) in
  let next_commit_op_id := wrap 64 (CounterQueue.get_count (commit_operations self) + 1) in
  if (next_verify_op_id <? next_commit_op_id) && SparseQueue.has_next (verify_operations self) then
    let '(op, q) := SparseQueue.pop_front (verify_operations self) in
    op ← unwrap "called `Option::unwrap()` on a `None` value" op;
    Val (Some op, set_verify q self)
  else
    let next_withdraw_op_id := wrap 64 (CounterQueue.get_count (withdraw_operations self) + 1) in
    let '(withdraw, q) :=
      if next_withdraw_op_id <? next_verify_op_id
      then CounterQueue.pop_front (withdraw_operations self)
      else (None, withdraw_operations self) in
    let self := set_withdraw q self in
    match withdraw with
    | Some withdraw_operation => Val (Some withdraw_operation, self)
    | None =>
        let '(commit, q) := CounterQueue.pop_front (commit_operations self) in
        Val (commit, set_commit q self)
    end.

Definition pop_front (self : TxQueue) : outcome (option TxData * TxQueue) :=
  if max_pending_txs self <=? sent_pending_txs self then Val (None, self)
  else
    r ← get_next_operation self;
    match r.1 with
    | Some op => Val (Some op, set_sent (wrap 64 (sent_pending_txs r.2 + 1)) r.2)
    | None => Val (None, r.2)
    end.

Definition report_commitment (self : TxQueue) : outcome TxQueue :=
  _ ← assert_that (0 <? sent_pending_txs self) "No transactions are expected to be confirmed";
  Val (set_sent (wrap 64 (sent_pending_txs self - 1)) self).

(** ** Sequences of calls *)

Inductive QueueOp : Type :=
| QCommit (d : TxData)
| QVerify (idx : Z) (d : TxData)
| QWithdraw (d : TxData)
| QPop
| QReturn
| QReport.

(** A call on the queue and on the transactions that have been popped so far; [QReturn] gives back the last of them,
    as the sender does when it cannot initialize the operation. *)
Definition queue_step (op : QueueOp) (s : list TxData * TxQueue) : outcome (list TxData * TxQueue) :=
  let '(out, q) := s in
  match op with
  | QCommit d => Val (out, add_commit_operation d q)
  | QVerify idx d => q ← add_verify_operation idx d q; Val (out, q)
  | QWithdraw d => Val (out, add_withdraw_operation d q)
  | QPop => r ← pop_front q; Val (out ++ option_list r.1, r.2)
  | QReturn => d ← unwrap "nothing was popped" (last out); Val (removelast out, return_popped d q)
  | QReport => q ← report_commitment q; Val (out, q)
  end.

Fixpoint queue_run (ops : list QueueOp) (s : list TxData * TxQueue) : outcome (list TxData * TxQueue) :=
  match ops with
  | [] => Val s
  | op :: ops => s ← queue_step op s; queue_run ops s
  end.

(** What was added to the queues, and the transactions of a kind among those popped. *)
Definition commits_added (ops : list QueueOp) : list TxData :=
  omap (λ op, match op with QCommit d => Some d | _ => None end) ops.
Definition withdraws_added (ops : list QueueOp) : list TxData :=
  omap (λ op, match op with QWithdraw d => Some d | _ => None end) ops.
Definition of_type (t : OperationType) (ds : list TxData) : list TxData :=
  List.filter (λ d, bool_decide (td_op_type d = t)) ds.
Definition count_type (t : OperationType) (ds : list TxData) : Z := Z.of_nat (length (of_type t ds)).

(** The transactions that were given back, and those reported as confirmed. *)
Definition returns (ops : list QueueOp) : Z :=
  Z.of_nat (length (List.filter (λ op, match op with QReturn => true | _ => false end) ops)).
Definition reports (ops : list QueueOp) : Z :=
  Z.of_nat (length (List.filter (λ op, match op with QReport => true | _ => false end) ops)).

(** Every transaction is added to the queue of its kind. *)
Definition typed_op (op : QueueOp) : Prop :=
  match op with
  | QCommit d => td_op_type d = Commit
  | QVerify _ d => td_op_type d = Verify
  | QWithdraw d => td_op_type d = Withdraw_
  | _ => True
  end.

(** ** The order of the popped transactions *)
Section Order.
  Context (c0 v0 w0 s0 : Z).

(** Commits are ahead of verifications, verifications of withdrawals. *)
Definition ordered_counts (ds : list TxData) : Prop :=
  w0 + count_type Withdraw_ ds ≤ v0 + count_type Verify ds ≤ c0 + count_type Commit ds.

Record queue_ok (adds : list QueueOp) (ps : list TxData) (q : TxQueue) : Prop := {
  qo_commit_count : CounterQueue.counter (commit_operations q) = c0 + count_type Commit ps;
  qo_verify_next : SparseQueue.next_expected_idx (verify_operations q) = v0 + 1 + count_type Verify ps;
  qo_withdraw_count : CounterQueue.counter (withdraw_operations q) = w0 + count_type Withdraw_ ps;
  qo_commits : of_type Commit ps ++ CounterQueue.elements (commit_operations q) = commits_added adds;
  qo_withdraws : of_type Withdraw_ ps ++ CounterQueue.elements (withdraw_operations q) = withdraws_added adds;
  qo_commit_typed : Forall (λ d, td_op_type d = Commit) (CounterQueue.elements (commit_operations q));
  qo_withdraw_typed : Forall (λ d, td_op_type d = Withdraw_) (CounterQueue.elements (withdraw_operations q));
  qo_verify_added idx d : SparseQueue.elements (verify_operations q) !! idx = Some d →
    QVerify idx d ∈ adds ∧ td_op_type d = Verify;
  qo_verify_popped j d : of_type Verify ps !! j = Some d → QVerify (v0 + 1 + Z.of_nat j) d ∈ adds;
  qo_ordered i : ordered_counts (take i ps);
  qo_sent : sent_pending_txs q = s0 + Z.of_nat (length ps) + returns adds - reports adds;
  qo_in_flight : 0 ≤ sent_pending_txs q ≤ max_pending_txs q;
}.

Lemma of_type_app t ds ds' : of_type t (ds ++ ds') = of_type t ds ++ of_type t ds'.
Proof. apply List.filter_app. Qed.

Lemma count_type_snoc t ds d :
  count_type t (ds ++ [d]) = count_type t ds + (if decide (td_op_type d = t) then 1 else 0).
Proof.
  unfold count_type. rewrite of_type_app, length_app. unfold of_type at 2. cbn.
  case_bool_decide; case_decide; try done; cbn; lia.
Qed.

Lemma of_type_snoc_same t ds d : td_op_type d = t → of_type t (ds ++ [d]) = of_type t ds ++ [d].
Proof. intros H. rewrite of_type_app. unfold of_type at 2. cbn. by rewrite bool_decide_true. Qed.
Lemma of_type_snoc_other t ds d : td_op_type d ≠ t → of_type t (ds ++ [d]) = of_type t ds.
Proof. intros H. rewrite of_type_app. unfold of_type at 2. cbn. rewrite bool_decide_false by done. by rewrite app_nil_r. Qed.

Lemma count_type_nonneg t ds : 0 ≤ count_type t ds.
Proof. unfold count_type. lia. Qed.

Lemma commits_added_length adds : (length (commits_added adds) ≤ length adds)%nat.
Proof. induction adds as [|[] adds IH]; cbn; unfold commits_added in *; lia. Qed.
Lemma commits_added_snoc adds op :
  commits_added (adds ++ [op]) = commits_added adds ++ option_list (match op with QCommit d => Some d | _ => None end).
Proof. unfold commits_added. rewrite omap_app. by destruct op. Qed.
Lemma withdraws_added_snoc adds op :
  withdraws_added (adds ++ [op]) =
  withdraws_added adds ++ option_list (match op with QWithdraw d => Some d | _ => None end).
Proof. unfold withdraws_added. rewrite omap_app. by destruct op. Qed.

Lemma returns_snoc adds op : returns (adds ++ [op]) = returns adds + (match op with QReturn => 1 | _ => 0 end).
Proof. unfold returns. rewrite List.filter_app, length_app. destruct op; cbn; lia. Qed.
Lemma reports_snoc adds op : reports (adds ++ [op]) = reports adds + (match op with QReport => 1 | _ => 0 end).
Proof. unfold reports. rewrite List.filter_app, length_app. destruct op; cbn; lia. Qed.

Lemma count_commits_bound adds ps q :
  queue_ok adds ps q → count_type Commit ps ≤ Z.of_nat (length adds).
Proof.
  intros H. pose proof (f_equal length (qo_commits _ _ _ H)) as E. rewrite length_app in E.
  unfold count_type. pose proof (commits_added_length adds). lia.
Qed.

(** A popped transaction extends the sequence. *)
Lemma ordered_snoc ps d :
  (∀ i, ordered_counts (take i ps)) → ordered_counts (ps ++ [d]) → ∀ i, ordered_counts (take i (ps ++ [d])).
Proof.
  intros Hps Hd i. destruct (decide (i ≤ length ps)%nat) as [Hi|Hi].
  - by rewrite take_app_le.
  - rewrite take_ge; [done|]. rewrite length_app. cbn. lia.
Qed.

Context (Hc0 : 0 ≤ w0 ≤ v0) (Hv0 : v0 ≤ c0).

(** Adding leaves what was popped and the counters as they are. *)
Lemma queue_ok_add adds ps q op :
  queue_ok adds ps q → typed_op op →
  match op with
  | QCommit d => queue_ok (adds ++ [op]) ps (add_commit_operation d q)
  | QWithdraw d => queue_ok (adds ++ [op]) ps (add_withdraw_operation d q)
  | QVerify idx d => queue_ok (adds ++ [op]) ps
      (set_verify (SparseQueue.mkSparseQueue (SparseQueue.next_expected_idx (verify_operations q))
         (<[idx := d]> (SparseQueue.elements (verify_operations q)))) q)
  | QPop => queue_ok (adds ++ [op]) ps q
  | _ => True
  end.
Proof.
  intros [H1 H2 H3 H4 H5 H6 H7 H8 H9 H10 H11 H12] Hty.
  destruct op; try done; (split; cbn; [done..| | | | | | |done| |done]; rewrite ?commits_added_snoc, ?withdraws_added_snoc, ?returns_snoc, ?reports_snoc; cbn;
    rewrite ?app_nil_r, ?Z.add_0_r).
  all: try done.
  all: try (rewrite app_assoc; congruence).
  all: try (apply Forall_app; split; [done|by constructor]).
  all: try (intros j d' Hj; specialize (H9 _ _ Hj); set_solver).
  all: try (intros j d' Hj; specialize (H8 _ _ Hj); set_solver).
  intros j d' [[<- <-]|[_ Hj]]%lookup_insert_Some; [set_solver|]. specialize (H8 _ _ Hj). set_solver.
Qed.

(** The policy: what [get_next_operation] returns, by cases. *)
Inductive next_operation (q : TxQueue) : option TxData → TxQueue → Prop :=
| next_verify d :
    SparseQueue.next_expected_idx (verify_operations q) <
      wrap 64 (CounterQueue.counter (commit_operations q) + 1) →
    SparseQueue.elements (verify_operations q) !! SparseQueue.next_expected_idx (verify_operations q) = Some d →
    next_operation q (Some d) (set_verify (SparseQueue.mkSparseQueue
      (wrap 64 (SparseQueue.next_expected_idx (verify_operations q) + 1))
      (delete (SparseQueue.next_expected_idx (verify_operations q)) (SparseQueue.elements (verify_operations q)))) q)
| next_withdraw d rest :
    wrap 64 (CounterQueue.counter (withdraw_operations q) + 1) <
      SparseQueue.next_expected_idx (verify_operations q) →
    CounterQueue.elements (withdraw_operations q) = d :: rest →
    next_operation q (Some d) (set_withdraw (CounterQueue.mkCounterQueue rest
      (wrap 64 (CounterQueue.counter (withdraw_operations q) + 1))) q)
| next_commit d rest :
    CounterQueue.elements (commit_operations q) = d :: rest →
    next_operation q (Some d) (set_commit (CounterQueue.mkCounterQueue rest
      (wrap 64 (CounterQueue.counter (commit_operations q) + 1))) q)
| next_none : CounterQueue.elements (commit_operations q) = [] → next_operation q None q.

Lemma get_next_operation_cases q : ∃ d q', get_next_operation q = Val (d, q') ∧ next_operation q d q'.
Proof.
  destruct q as [mx sent [ce cc] [vn ve] [we wc]]. unfold get_next_operation, SparseQueue.next_id,
    CounterQueue.get_count, SparseQueue.has_next, SparseQueue.pop_front.
  cbn [verify_operations commit_operations withdraw_operations SparseQueue.next_expected_idx SparseQueue.elements
    CounterQueue.counter].
  destruct (Z.ltb_spec vn (wrap 64 (cc + 1))) as [Hv|Hv]; cbn [andb].
  - destruct (ve !! vn) as [d|] eqn:E.
    + rewrite bool_decide_true by done. cbn. eexists _, _. split; [done|]. by apply next_verify.
    + rewrite bool_decide_false by (by intros []). destruct (Z.ltb_spec (wrap 64 (wc + 1)) vn) as [Hw|Hw]; cbn.
      * destruct we as [|d we]; cbn; [|eexists _, _; split; [done|by eapply next_withdraw]].
        destruct ce as [|d ce]; cbn; (eexists _, _; split; [done|]); [by apply next_none|by eapply next_commit].
      * destruct ce as [|d ce]; cbn; (eexists _, _; split; [done|]); [by apply next_none|by eapply next_commit].
  - destruct (Z.ltb_spec (wrap 64 (wc + 1)) vn) as [Hw|Hw]; cbn.
    + destruct we as [|d we]; cbn; [|eexists _, _; split; [done|by eapply next_withdraw]].
      destruct ce as [|d ce]; cbn; (eexists _, _; split; [done|]); [by apply next_none|by eapply next_commit].
    + destruct ce as [|d ce]; cbn; (eexists _, _; split; [done|]); [by apply next_none|by eapply next_commit].
Qed.

Ltac count_snoc Hty :=
  rewrite ?count_type_snoc, ?Hty; repeat (case_decide; try done); rewrite ?Z.add_0_r.

(** Popping keeps the order. *)
Lemma next_operation_ok adds ps q d q' n :
  queue_ok adds ps q → c0 + Z.of_nat (length adds) < 2 ^ 64 - 1 → next_operation q (Some d) q' →
  n = sent_pending_txs q + 1 → n ≤ max_pending_txs q → queue_ok (adds ++ [QPop]) (ps ++ [d]) (set_sent n q').
Proof.
  intros Hq Hb Hnext En Hn. pose proof (count_commits_bound _ _ _ Hq) as Hcb.
  destruct (queue_ok_add adds ps q QPop Hq I) as [H1 H2 H3 H4 H5 H6 H7 H8 H9 H10 H11 H12].
  assert (n = s0 + Z.of_nat (length (ps ++ [d])) + returns (adds ++ [QPop]) - reports (adds ++ [QPop])) as Hsent by (rewrite length_app; cbn; lia).
  pose proof (H10 (length ps)) as Hord. rewrite take_ge in Hord by lia. destruct Hord as [Hw Hv].
  pose proof (count_type_nonneg Commit ps). pose proof (count_type_nonneg Verify ps). pose proof (count_type_nonneg Withdraw_ ps).
  inversion Hnext as [d' Hlt Hd E1 E2|d' rest Hlt Hel E1 E2|d' rest Hel E1 E2|]; subst d'; subst q'; clear Hnext.
  - destruct (H8 _ _ Hd) as [Hadd Hty]. rewrite H1, wrap_small in Hlt by (unfold fits; lia).
    split; cbn; count_snoc Hty; rewrite ?(of_type_snoc_other _ _ d) by (by rewrite Hty); try (done || lia).
    + rewrite H2, wrap_small by (unfold fits; lia). lia.
    + intros idx e [_ He]%lookup_delete_Some. by apply H8.
    + intros j e. rewrite of_type_snoc_same by done. intros [Hj|[Hj He]]%lookup_app_Some; [by apply H9|].
      destruct (j - _)%nat as [|k] eqn:Ej in He; [|done]. injection He as <-. rewrite H2 in Hadd.
      unfold count_type in Hadd. replace (Z.of_nat j) with (Z.of_nat (length (of_type Verify ps))) by lia. done.
    + apply ordered_snoc; [done|]. unfold ordered_counts. count_snoc Hty. lia.
  - rewrite Hel in *. apply Forall_cons in H7 as [Hty H7]. rewrite H3 in Hlt |- *.
    assert (fits 64 (w0 + count_type Withdraw_ ps + 1)) as Hfit by (unfold fits; lia). rewrite (wrap_small _ _ Hfit) in Hlt |- *.
    split; cbn; count_snoc Hty; rewrite ?(of_type_snoc_other _ _ d) by (by rewrite Hty); try (done || lia).
    + rewrite of_type_snoc_same, <- app_assoc by done. done.
    + apply ordered_snoc; [done|]. unfold ordered_counts. count_snoc Hty. lia.
  - rewrite Hel in *. apply Forall_cons in H6 as [Hty H6]. rewrite H1.
    assert (fits 64 (c0 + count_type Commit ps + 1)) as Hfit by (unfold fits; lia). rewrite (wrap_small _ _ Hfit).
    split; cbn; count_snoc Hty; rewrite ?(of_type_snoc_other _ _ d) by (by rewrite Hty); try (done || lia).
    + rewrite of_type_snoc_same, <- app_assoc by done. done.
    + apply ordered_snoc; [done|]. unfold ordered_counts. count_snoc Hty. lia.
Qed.

Lemma queue_ok_report adds ps q :
  queue_ok adds ps q → 0 < sent_pending_txs q → queue_ok (adds ++ [QReport]) ps (set_sent (sent_pending_txs q - 1) q).
Proof.
  intros [H1 H2 H3 H4 H5 H6 H7 H8 H9 H10 H11 H12] Hn.
  split; cbn; rewrite ?commits_added_snoc, ?withdraws_added_snoc, ?returns_snoc, ?reports_snoc; cbn; rewrite ?app_nil_r; try (done || lia).
  - intros idx d Hd. destruct (H8 idx d Hd). set_solver.
  - intros j d Hd. specialize (H9 j d Hd). set_solver.
Qed.

(** What was popped last goes back to the front of its queue; its slot stays taken. *)
Lemma queue_ok_return adds ps d q :
  queue_ok adds (ps ++ [d]) q → c0 + Z.of_nat (length adds) < 2 ^ 64 - 1 → queue_ok (adds ++ [QReturn]) ps (return_popped d q).
Proof.
  intros Hq Hb. pose proof (count_commits_bound _ _ _ Hq) as Hcb.
  destruct Hq as [H1 H2 H3 H4 H5 H6 H7 H8 H9 H10 H11 H12].
  pose proof (H10 (length (ps ++ [d]))) as Hord. rewrite take_ge in Hord by lia. destruct Hord as [Hw Hv].
  pose proof (count_type_nonneg Commit ps). pose proof (count_type_nonneg Verify ps). pose proof (count_type_nonneg Withdraw_ ps).
  assert (∀ i, ordered_counts (take i ps)) as Hord'.
  { intros i. destruct (decide (i ≤ length ps)%nat).
    - specialize (H10 i). by rewrite take_app_le in H10 by lia.
    - specialize (H10 (length ps)). rewrite take_app_le in H10 by lia. by rewrite !take_ge in * by lia. }
  assert (∀ j e, of_type Verify ps !! j = Some e → QVerify (v0 + 1 + Z.of_nat j) e ∈ adds ++ [QReturn]) as H9'.
  { intros j e Hj. apply elem_of_app. left. apply H9. rewrite of_type_app. by apply lookup_app_l_Some. }
  assert (∀ idx e, SparseQueue.elements (verify_operations q) !! idx = Some e → QVerify idx e ∈ adds ++ [QReturn] ∧ td_op_type e = Verify) as H8'.
  { intros idx e He. destruct (H8 idx e He). set_solver. }
  rewrite length_app in H11. cbn [length] in H11. unfold return_popped.
  destruct (td_op_type d) eqn:Hty; rewrite !count_type_snoc, Hty in *; repeat (case_decide; try done).
  all: split; cbn; rewrite ?commits_added_snoc, ?withdraws_added_snoc, ?returns_snoc, ?reports_snoc; cbn; rewrite ?app_nil_r; try (done || lia).
  all: rewrite ?of_type_snoc_same, ?(of_type_snoc_other _ _ d) in * by (done || by rewrite Hty).
  all: try (rewrite <- app_assoc in *; done); try (by constructor); try (rewrite ?H1, ?H2, ?H3, wrap_small by (unfold fits; lia); lia); try done.
  rewrite H2. rewrite wrap_small by (unfold fits; lia). intros idx e [[<- <-]|[_ He]]%lookup_insert_Some; [|by apply H8'].
  split; [|done]. apply elem_of_app. left. specialize (H9 (length (of_type Verify ps)) d). rewrite list_lookup_middle in H9 by done.
  specialize (H9 eq_refl). unfold count_type in *. by replace (v0 + 1 + (Z.of_nat (length (of_type Verify ps)) + 1) - 1) with (v0 + 1 + Z.of_nat (length (of_type Verify ps))) by lia.
Qed.

Lemma queue_step_ok adds ps q op ps' q' :
  queue_ok adds ps q → typed_op op → c0 + Z.of_nat (length adds) < 2 ^ 64 - 1 → max_pending_txs q < 2 ^ 64 →
  queue_step op (ps, q) = Val (ps', q') → queue_ok (adds ++ [op]) ps' q' ∧ max_pending_txs q' = max_pending_txs q.
Proof.
  intros Hq Hty Hb Hm Hrun. pose proof (queue_ok_add adds ps q op Hq Hty) as Hadd. pose proof (qo_in_flight _ _ _ Hq) as Hs.
  destruct op as [d|idx d|d| | |]; cbn [queue_step] in Hrun.
  - by injection Hrun as <- <-.
  - unfold add_verify_operation, SparseQueue.insert in Hrun. destruct (_ <=? idx); [|done]. by injection Hrun as <- <-.
  - by injection Hrun as <- <-.
  - unfold pop_front in Hrun. destruct (Z.leb_spec (max_pending_txs q) (sent_pending_txs q)) as [Hle|Hlt].
    { injection Hrun as <- <-. by rewrite app_nil_r. }
    destruct (get_next_operation_cases q) as (d & q1 & Hget & Hnext). rewrite Hget in Hrun.
    destruct d as [d|].
    + cbn in Hrun. injection Hrun as <- <-.
      assert (sent_pending_txs q1 = sent_pending_txs q ∧ max_pending_txs q1 = max_pending_txs q) as [-> Hm1]
        by (by inversion Hnext).
      rewrite wrap_small by (unfold fits; lia). split; [|done].
      eapply next_operation_ok; [done|lia|done|lia|lia].
    + injection Hrun as <- <-. inversion Hnext; subst. by rewrite app_nil_r.
  - destruct ps as [|d ps _] using rev_ind; [done|]. rewrite last_snoc, removelast_last in Hrun. injection Hrun as <- <-.
    split; [apply queue_ok_return; done|]. unfold return_popped. destruct (td_op_type d); done.
  - unfold report_commitment in Hrun. destruct (Z.ltb_spec 0 (sent_pending_txs q)); [|done].
    injection Hrun as <- <-. rewrite wrap_small by (unfold fits; lia). split; [by apply queue_ok_report|done].
Qed.

Lemma queue_run_ok adds ps q ops out q' :
  queue_ok adds ps q → Forall typed_op ops → c0 + Z.of_nat (length adds + length ops) < 2 ^ 64 →
  max_pending_txs q < 2 ^ 64 → queue_run ops (ps, q) = Val (out, q') →
  queue_ok (adds ++ ops) out q' ∧ max_pending_txs q' = max_pending_txs q.
Proof.
  intros Hq Hty. revert adds ps q Hq. induction Hty as [|op ops Hop _ IH]; intros adds ps q Hq Hb Hm Hrun.
  { injection Hrun as <- <-. by rewrite app_nil_r. }
  cbn [queue_run length] in *. destruct (queue_step op (ps, q)) as [[ps1 q1]|] eqn:Hstep; [|done]. cbn in Hrun.
  destruct (queue_step_ok _ _ _ _ _ _ Hq Hop ltac:(lia) Hm Hstep) as (Hq1 & Hm1).
  specialize (IH (adds ++ [op]) ps1 q1 Hq1). rewrite length_app in IH. cbn [length] in IH.
  rewrite <- app_assoc in IH. rewrite <- Hm1 in Hm |- *. apply IH; [lia|exact Hm|exact Hrun].
Qed.
End Order.

(** C15: The queue in the order of the contract: whatever is added, popped, given back and reported, every pop takes one of
    the [max_pending_txs] slots and every report frees one, a transaction that is given back keeps its slot; the
    transactions that have left the queue are the commits (and the withdrawals) in the order in which they were added, the
    verifications with consecutive block numbers, never a verification before the commit with the same number, and
    never more withdrawals than verifications. *)
Theorem tx_queue_order b ops out q :
  let q0 := build b in
  0 ≤ b_withdraw_operations_count b ≤ b_verify_operations_count b →
  b_verify_operations_count b ≤ b_commit_operations_count b →
  b_commit_operations_count b + Z.of_nat (length ops) < 2 ^ 64 - 1 →
  0 ≤ b_sent_pending_txs b ≤ b_max_pending_txs b → b_max_pending_txs b < 2 ^ 64 →
  Forall typed_op ops → queue_run ops ([], q0) = Val (out, q) →
  sent_pending_txs q = b_sent_pending_txs b + Z.of_nat (length out) + returns ops - reports ops ∧
  0 ≤ sent_pending_txs q ≤ b_max_pending_txs b ∧
  of_type Commit out `prefix_of` commits_added ops ∧ of_type Withdraw_ out `prefix_of` withdraws_added ops ∧
  (∀ j d, of_type Verify out !! j = Some d → QVerify (b_verify_operations_count b + 1 + Z.of_nat j) d ∈ ops) ∧
  (∀ i, b_withdraw_operations_count b + count_type Withdraw_ (take i out)
          ≤ b_verify_operations_count b + count_type Verify (take i out)
          ≤ b_commit_operations_count b + count_type Commit (take i out)).
Proof.
  intros q0 Hw Hv Hb Hs Hm Hty Hrun.
  assert (queue_ok (b_commit_operations_count b) (b_verify_operations_count b) (b_withdraw_operations_count b) (b_sent_pending_txs b) [] [] q0) as H0.
  { split; cbn [q0 build commit_operations verify_operations withdraw_operations sent_pending_txs max_pending_txs
      CounterQueue.new SparseQueue.new CounterQueue.counter CounterQueue.elements SparseQueue.next_expected_idx
      SparseQueue.elements]; try done; unfold ordered_counts, count_type, returns, reports; rewrite ?take_nil; cbn [of_type List.filter length];
      try lia.
    - rewrite wrap_small by (unfold fits; lia). lia.
    - intros i. rewrite take_nil. cbn. lia. }
  destruct (queue_run_ok _ _ _ _ Hw Hv [] [] q0 ops out q H0 Hty) as [Hq Emax]; [cbn; lia|done|done|]. cbn [app] in Hq.
  destruct Hq as [H1 H2 H3 H4 H5 H6 H7 H8 H9 H10 H11 H12]. rewrite Emax in H12. split; [done|]. split; [done|].
  rewrite <- H4, <- H5. split; [by eexists|]. split; [by eexists|]. done.
Qed.
End TxQueue.
