(* ===== verification/GasAdjuster.v ===== *)
(** * The gas price adjuster (core/server/src/eth_sender/gas_adjuster)

    Gas prices are 256-bit integers whose arithmetic panics on overflow.  The answers
    of the Ethereum node, the clock and the configurable parameters are arguments; the
    scale factor is given as the percentage that [(scale_factor * 100.0).round() as u64]
    computes. *)

From S2P Require Import Prelude.
Open Scope Z_scope.

(** ** 256-bit arithmetic *)

Definition u256_checked (z : Z) : outcome Z :=
  _ ← assert_that (bool_decide (fits 256 z)) "arithmetic operation overflow"; Val z.
Definition u256_add (a b : Z) : outcome Z := u256_checked (a + b).
Definition u256_sub (a b : Z) : outcome Z := u256_checked (a - b).
Definition u256_mul (a b : Z) : outcome Z := u256_checked (a * b).
Definition u256_div (a b : Z) : outcome Z :=
  _ ← assert_that (negb (b =? 0)) "division by zero"; Val (a / b).

(** ** Statistics *)

Record GasStatistics : Type := mkGasStatistics {
  samples : list Z;
  current_sum : Z;
  current_max_price : Z;
}.

Definition GAS_PRICE_SAMPLES_AMOUNT : nat := 10.

Definition GasStatistics_new (initial_max_price : Z) : GasStatistics := mkGasStatistics [] 0 initial_max_price.

Definition add_sample (price : Z) (self : GasStatistics) : outcome GasStatistics :=
  self ← (if (GAS_PRICE_SAMPLES_AMOUNT <=? length (samples self))%nat then
            match samples self with
            | popped_price :: rest =>
                sum ← u256_sub (current_sum self) popped_price;
                Val (mkGasStatistics rest sum (current_max_price self))
            | [] => Panic "called `Option::unwrap()` on a `None` value"
            end
          else Val self);
  sum ← u256_add (current_sum self) price;
  Val (mkGasStatistics (samples self ++ [price]) sum (current_max_price self)).

Definition update_limit (multiplier : Z) (self : GasStatistics) : outcome GasStatistics :=
  if (length (samples self) <? GAS_PRICE_SAMPLES_AMOUNT)%nat then Val self
  else
    average_price ← u256_div (current_sum self) (Z.of_nat (length (samples self)));
    scaled ← u256_mul average_price multiplier;
    max_price ← u256_div scaled 100;
    Val (mkGasStatistics (samples self) (current_sum self) max_price).

Definition get_limit (self : GasStatistics) : Z := current_max_price self.

(** ** The adjuster *)

Record GasAdjuster : Type := mkGasAdjuster {
  statistics : GasStatistics;
  last_price_renewal : Z;
}.

(** [GasAdjuster::new] with the limit loaded from the database. *)
Definition GasAdjuster_new (gas_price_limit now : Z) : GasAdjuster :=
  mkGasAdjuster (GasStatistics_new gas_price_limit) now.

Definition scale_up (price_to_scale current_network_price : Z) : outcome Z :=
  scaled ← u256_mul price_to_scale 115;
  replacement_price ← u256_div scaled 100;
  Val (Z.max current_network_price replacement_price).

Definition limit_max (price : Z) (self : GasAdjuster) : Z := Z.min price (get_limit (statistics self)).

Definition get_gas_price (network_price : result Z) (old_tx_gas_price : option Z) : Exec GasAdjuster Z :=
  network_price ← lift (Val network_price);
  scaled_price ← total (match old_tx_gas_price with
                        | Some old_price => scale_up old_price network_price
                        | None => Val network_price
                        end);
  price ← gets (limit_max scaled_price);
  _ ← update (λ self,
        stats ← add_sample price (statistics self);
        Val (mkGasAdjuster stats (last_price_renewal self)));
  mret price.

(** [keep_updated] up to the write to the database: the limit to be stored, if any. *)
Definition keep_updated (now interval multiplier : Z) (self : GasAdjuster) : outcome (option Z * GasAdjuster) :=
  if interval <=? now - last_price_renewal self then
    stats ← update_limit multiplier (statistics self);
    Val (Some (get_limit stats), mkGasAdjuster stats now)
  else Val (None, self).

(** ** Correctness *)

Definition sum_list_Z (l : list Z) : Z := foldr Z.add 0 l.

(** The sum is that of the kept samples, of which there are at most ten. Prices fit in
    240 bits, so that the arithmetic does not overflow. *)
Record stats_ok (self : GasStatistics) : Prop := {
  so_len : (length (samples self) ≤ GAS_PRICE_SAMPLES_AMOUNT)%nat;
  so_sum : current_sum self = sum_list_Z (samples self);
  so_fit : Forall (fits 240) (samples self);
  so_limit : fits 240 (current_max_price self);
}.

Lemma sum_list_Z_app l l' : sum_list_Z (l ++ l') = sum_list_Z l + sum_list_Z l'.
Proof. induction l as [|x l IH]; cbn; [done|]. fold (sum_list_Z (l ++ l')) (sum_list_Z l). lia. Qed.

Lemma sum_list_Z_bound l b :
  Forall (λ x, 0 ≤ x ≤ b) l → 0 ≤ sum_list_Z l ≤ Z.of_nat (length l) * b.
Proof. induction 1 as [|x l Hx _ IH]; cbn; [lia|]. fold (sum_list_Z l). lia. Qed.

Lemma samples_bound l : Forall (fits 240) l → (length l ≤ 10)%nat → 0 ≤ sum_list_Z l ≤ 2 ^ 244.
Proof.
  intros H Hlen. assert (0 ≤ sum_list_Z l ≤ Z.of_nat (length l) * 2 ^ 240) as [? Hle].
  { apply sum_list_Z_bound. eapply Forall_impl; [exact H|]. unfold fits. intros; lia. }
  split; [done|]. etrans; [exact Hle|]. change (2 ^ 244) with (16 * 2 ^ 240). nia.
Qed.

Lemma u256_checked_Val z : fits 256 z → u256_checked z = Val z.
Proof. intros H. unfold u256_checked. by rewrite bool_decide_true. Qed.

Lemma add_sample_ok price self :
  stats_ok self → fits 240 price →
  ∃ self', add_sample price self = Val self' ∧ stats_ok self' ∧ get_limit self' = get_limit self ∧
    samples self' = drop (length (samples self) + 1 - GAS_PRICE_SAMPLES_AMOUNT) (samples self ++ [price]).
Proof.
  intros [Hlen Hsum Hfit Hlim] Hp. unfold add_sample, GAS_PRICE_SAMPLES_AMOUNT in *.
  destruct self as [l sum mx]. cbn [samples current_sum current_max_price] in *. subst sum.
  destruct (Nat.leb_spec 10 (length l)) as [Hge|Hlt].
  - destruct l as [|x l]; [cbn in Hge; lia|]. cbn [length] in *. apply Forall_cons in Hfit as [Hx Hl].
    pose proof (samples_bound l Hl ltac:(lia)). cbn [sum_list_Z foldr]. fold (sum_list_Z l). unfold u256_sub, u256_add.
    rewrite u256_checked_Val by (unfold fits in *; lia). cbn [mbind outcome_bind current_sum samples current_max_price].
    rewrite u256_checked_Val by (unfold fits in *; lia). cbn [mbind outcome_bind]. eexists. split; [done|].
    replace (S (length l) + 1 - 10)%nat with 1%nat by lia. split; [|done].
    split; unfold GAS_PRICE_SAMPLES_AMOUNT; cbn [samples current_sum current_max_price]; [rewrite length_app; cbn; lia|rewrite sum_list_Z_app; cbn; lia|by apply Forall_app_2; [|constructor]|done].
  - pose proof (samples_bound l Hfit ltac:(lia)). unfold u256_add. cbn [mbind outcome_bind current_sum samples current_max_price].
    rewrite u256_checked_Val by (unfold fits in *; lia). cbn [mbind outcome_bind]. eexists. split; [done|].
    replace (length l + 1 - 10)%nat with 0%nat by lia. rewrite drop_0. split; [|done].
    split; unfold GAS_PRICE_SAMPLES_AMOUNT; cbn [samples current_sum current_max_price]; [rewrite length_app; cbn; lia|rewrite sum_list_Z_app; cbn; lia|by apply Forall_app_2; [|constructor]|done].
Qed.

(** C38: The gas price of a transaction: [get_gas_price] returns the network's price, raised for a
    stuck transaction to 115 percent of the old price, and cut to the limit; it keeps the
    last ten prices and leaves the limit as it is. So a replacement is at least 15 percent
    (rounded down) above the old price if and only if the limit allows it; otherwise it
    gets the limit, which may be below the old price. *)
Theorem gas_price_spec net old self :
  stats_ok (statistics self) → fits 240 net → from_option (fits 240) True old →
  let target := from_option (λ p, Z.max net (p * 115 / 100)) net old in
  let limit := get_limit (statistics self) in
  ∃ self', get_gas_price (Ok net) old self = Val (Ok (Z.min target limit), self') ∧
    stats_ok (statistics self') ∧ get_limit (statistics self') = limit ∧
    ∀ p, old = Some p → (p * 115 / 100 ≤ Z.min target limit ↔ p * 115 / 100 ≤ limit).
Proof.
  intros Hs Hn Ho target limit. unfold get_gas_price, lift, mbind, exec_bind, total, gets, update.
  assert (fits 240 (Z.min target limit)) as Hp.
  { pose proof (so_limit _ Hs) as Hl. subst target limit. unfold get_limit, fits in *. destruct old as [p|]; cbn in *; [|lia].
    assert (0 ≤ p * 115 / 100) by (apply Z.div_pos; lia). lia. }
  assert (match old with Some old_price => scale_up old_price net | None => Val net end = Val target) as ->.
  { subst target. destruct old as [p|]; [|done]. cbn in *. unfold scale_up, u256_mul, u256_div. unfold fits in *.
    rewrite u256_checked_Val by (unfold fits; lia). done. }
  cbn [lift_outcome].
  destruct (add_sample_ok (limit_max target self) (statistics self) Hs Hp) as (st & Hadd & Hst & Hl & _).
  unfold lift. rewrite Hadd. unfold limit_max in *. fold limit.
  eexists. split; [done|]. split; [done|].
  split; [done|]. intros p ->. subst target. cbn. lia.
Qed.

(** The limit: once ten prices are known, [keep_updated] sets the limit to the average of the
    last ten prices times the factor; before that it leaves the limit as it is. *)
Theorem keep_updated_spec now interval multiplier self :
  stats_ok (statistics self) → 0 ≤ multiplier < 2 ^ 10 → interval ≤ now - last_price_renewal self →
  ∃ self', keep_updated now interval multiplier self = Val (Some (get_limit (statistics self')), self') ∧
    last_price_renewal self' = now ∧ samples (statistics self') = samples (statistics self) ∧
    get_limit (statistics self') =
      if decide (length (samples (statistics self)) = GAS_PRICE_SAMPLES_AMOUNT)
      then sum_list_Z (samples (statistics self)) / 10 * multiplier / 100
      else get_limit (statistics self).
Proof.
  intros [Hlen Hsum Hfit Hlim] Hmul Hint. unfold keep_updated, update_limit. rewrite (proj2 (Z.leb_le _ _)) by done.
  unfold GAS_PRICE_SAMPLES_AMOUNT in *. destruct (Nat.ltb_spec (length (samples (statistics self))) 10) as [Hlt|Hge].
  - exists (mkGasAdjuster (statistics self) now). cbn. rewrite decide_False by lia. done.
  - assert (length (samples (statistics self)) = 10%nat) as E by lia. rewrite E.
    pose proof (samples_bound _ Hfit ltac:(lia)) as Hb. rewrite <- Hsum in Hb.
    assert (0 ≤ current_sum (statistics self) / 10 ≤ current_sum (statistics self)) as Hd.
    { split; [apply Z.div_pos; lia|]. apply Z.div_le_upper_bound; lia. }
    unfold u256_div, u256_mul. cbn [Z.of_nat]. change (Z.of_nat 10) with 10.
    cbn [Z.eqb negb assert_that mbind outcome_bind].
    rewrite u256_checked_Val; [|unfold fits; nia].
    exists (mkGasAdjuster (mkGasStatistics (samples (statistics self)) (current_sum (statistics self))
      (current_sum (statistics self) / 10 * multiplier / 100)) now). cbn. by rewrite Hsum.
Qed.
