(* ===== verification/EthSender.v ===== *)
(** * The sender of Ethereum transactions (core/server/src/eth_sender/mod.rs, database.rs)

    The answers of the Ethereum node, of the signer and of the database's connections are
    an environment that is asked by the number of the call; the channel of notifications
    and the transactions handed to the node are lists.  [Database::transaction] takes one
    connection of the pool and runs the closure, whose accesses take connections of their
    own: an error of the closure does not undo what these have written. *)

From S2P Require Import Prelude Bytes Params Externals Primitives Amounts Account Tx Operations Block.
From S2P Require Import EthStorage TxQueue GasAdjuster.
Open Scope Z_scope.

Section EthSender.
  Context `{EX : External}.

Inductive TxCheckMode : Type := Latest | Old.

Record ExecutedTxStatus : Type := mkStatus {
  confirmations : Z;
  success : bool;
  receipt : option bytes;
}.

Inductive TxCheckOutcome : Type :=
| CheckCommitted
| CheckPending
| CheckStuck
| CheckFailed (receipt : bytes).

Inductive OperationCommitment : Type := OpCommitted | OpPending.

Record EthSenderOptions : Type := mkOptions {
  expected_wait_time_block : Z;
  wait_confirmations : Z;
  max_txs_in_flight : Z;
}.

Record SignedCallResult : Type := mkSigned {
  sc_raw_tx : bytes;
  sc_gas_price : Z;
  sc_nonce : Z;
  sc_hash : Z;
}.

(** Calls of the contract, before ABI encoding. *)
Inductive EthCall : Type :=
| commitBlock (block_number fee_account : Z) (root public_data witness : bytes) (witness_sizes : list Z)
| verifyBlock (block_number : Z) (proof : list Z) (withdrawals_data : bytes)
| completeWithdrawals (n : Z).

Definition MAX_WITHDRAWALS_TO_COMPLETE_IN_A_CALL : Z := 20.

Record Environment : Type := mkEnvironment {
  env_block_number : nat → result Z;
  env_gas_price : nat → result Z;
  env_tx_status : nat → Z → result (option ExecutedTxStatus);
  env_send_tx : nat → result unit;
  env_sign : nat → bytes → Z → Z → result SignedCallResult;
  env_encode : EthCall → bytes;
  (** whether the connection can be had and the statements succeed *)
  env_db : nat → result unit;
  env_notify : nat → result unit;
}.

Record ETHSender : Type := mkSender {
  ongoing_ops : list ETHOperation;
  es_db : EthDb;
  tx_queue : TxQueue;
  gas_adjuster : GasAdjuster;
  op_notify : list Operation;
  sent_txs : list SignedCallResult;
  calls : nat;
}.

Definition set_ongoing (l : list ETHOperation) (self : ETHSender) : ETHSender :=
  mkSender l (es_db self) (tx_queue self) (gas_adjuster self) (op_notify self) (sent_txs self) (calls self).
Definition set_db (db : EthDb) (self : ETHSender) : ETHSender :=
  mkSender (ongoing_ops self) db (tx_queue self) (gas_adjuster self) (op_notify self) (sent_txs self) (calls self).
Definition set_tx_queue (q : TxQueue) (self : ETHSender) : ETHSender :=
  mkSender (ongoing_ops self) (es_db self) q (gas_adjuster self) (op_notify self) (sent_txs self) (calls self).
Definition set_gas_adjuster (g : GasAdjuster) (self : ETHSender) : ETHSender :=
  mkSender (ongoing_ops self) (es_db self) (tx_queue self) g (op_notify self) (sent_txs self) (calls self).
Definition add_notify (op : Operation) (self : ETHSender) : ETHSender :=
  mkSender (ongoing_ops self) (es_db self) (tx_queue self) (gas_adjuster self) (op_notify self ++ [op]) (sent_txs self)
    (calls self).
Definition add_sent (tx : SignedCallResult) (self : ETHSender) : ETHSender :=
  mkSender (ongoing_ops self) (es_db self) (tx_queue self) (gas_adjuster self) (op_notify self) (sent_txs self ++ [tx])
    (calls self).
Definition next_call (self : ETHSender) : ETHSender :=
  mkSender (ongoing_ops self) (es_db self) (tx_queue self) (gas_adjuster self) (op_notify self) (sent_txs self)
    (S (calls self)).

Section Run.
  Context (env : Environment) (options : EthSenderOptions).

(** One call of the environment. *)
Definition ask {A} (answer : nat → result A) : Exec ETHSender A := λ self,
  Val (answer (calls self), next_call self).

(** ** The database *)

Definition on_db {A} (f : EthDb → Fallible (A * EthDb)) : Exec ETHSender A := λ self,
  match f (es_db self) with
  | Val (Ok (a, db)) => Val (Ok a, set_db db self)
  | Val (Err e) => Val (Err e, self)
  | Panic msg => Panic msg
  end.
Definition db_access {A} (f : EthDb → Fallible (A * EthDb)) : Exec ETHSender A :=
  _ ← ask (env_db env); on_db f.
Definition no_result (f : EthDb → Fallible EthDb) (db : EthDb) : Fallible (unit * EthDb) :=
  db ← f db; Val (Ok (tt, db)).

(** [BEGIN] and [COMMIT] of a connection that no statement of [f] uses. *)
Definition db_transaction {A} (f : Exec ETHSender A) : Exec ETHSender A :=
  _ ← ask (env_db env);
  a ← f;
  _ ← ask (env_db env);
  mret a.

Definition db_save_new_eth_tx (op_type : OperationType) (op : option Operation) (deadline_block used_gas_price : Z)
    (raw_tx : bytes) : Exec ETHSender InsertedOperationResponse :=
  op_id ← total (match op with
                 | Some op => id ← unwrap "called `Option::unwrap()` on a `None` value" (op_id op); Val (Some id)
                 | None => Val None
                 end);
  db_access (save_new_eth_tx op_type op_id deadline_block used_gas_price raw_tx).

(** ** Transactions *)

Definition get_deadline_block (current_block : Z) : Z := wrap 64 (current_block + expected_wait_time_block options).

Definition ask_gas_price (old_tx_gas_price : option Z) : Exec ETHSender Z :=
  λ self,
    let network_price := env_gas_price env (calls self) in
    zoom gas_adjuster set_gas_adjuster (get_gas_price network_price old_tx_gas_price) (next_call self).

Definition sign_prepared_tx (raw : bytes) (nonce gas_price : Z) : Exec ETHSender SignedCallResult :=
  ask (λ n, env_sign env n raw nonce gas_price).

Definition send_tx (tx : SignedCallResult) : Exec ETHSender unit :=
  _ ← update (λ self, Val (add_sent tx self));
  ask (env_send_tx env).

Definition sign_new_tx (op : ETHOperation) : Exec ETHSender SignedCallResult :=
  sign_prepared_tx (eo_encoded_tx_data op) (eo_nonce op) (eo_last_used_gas_price op).

Definition with_hash (hash : Z) (op : ETHOperation) : ETHOperation :=
  mkETHOperation (eo_id op) (eo_op_type op) (eo_op op) (eo_nonce op) (eo_last_deadline_block op)
    (eo_last_used_gas_price op) (eo_used_tx_hashes op ++ [hash]) (eo_encoded_tx_data op) (eo_confirmed op)
    (eo_final_hash op).

(** [unwrap_or_else(|e| warn!(..))] *)
Definition log_error (m : Exec ETHSender unit) : Exec ETHSender unit := λ self,
  match m self with
  | Val (_, self) => Val (Ok tt, self)
  | Panic msg => Panic msg
  end.

Definition initialize_operation (tx : TxData) : Exec ETHSender unit :=
  current_block ← ask (env_block_number env);
  let deadline_block := get_deadline_block current_block in
  gas_price ← ask_gas_price None;
  r ← db_transaction (
    assigned_data ← db_save_new_eth_tx (td_op_type tx) (td_operation tx) (to_i64 deadline_block) gas_price (td_raw tx);
    let new_op := mkETHOperation (ins_id assigned_data) (td_op_type tx) (td_operation tx) (ins_nonce assigned_data)
                    deadline_block gas_price [] (td_raw tx) false None in
    signed_tx ← sign_new_tx new_op;
    let new_op := with_hash (sc_hash signed_tx) new_op in
    _ ← db_access (no_result (add_hash_entry (eo_id new_op) (sc_hash signed_tx)));
    mret (new_op, signed_tx));
  let '(new_op, signed_tx) := r in
  _ ← update (λ self, Val (set_ongoing (ongoing_ops self ++ [new_op]) self));
  log_error (send_tx signed_tx).

Definition check_transaction_state (mode : TxCheckMode) (op : ETHOperation) (tx_hash current_block : Z) :
    Exec ETHSender TxCheckOutcome :=
  status ← ask (λ n, env_tx_status env n tx_hash);
  match status with
  | Some status =>
      if success status then
        mret (if wait_confirmations options <=? confirmations status then CheckCommitted else CheckPending)
      else
        receipt ← total (unwrap "Receipt should exist for a failed transaction" (receipt status));
        mret (CheckFailed receipt)
  | None =>
      mret (if is_stuck op current_block then CheckStuck
            else match mode with Latest => CheckPending | Old => CheckStuck end)
  end.

(** The loop over the hashes; [None] when all transactions are stuck. *)
Fixpoint check_hashes (op : ETHOperation) (current_block : Z) (hashes : list Z) :
    Exec ETHSender (option OperationCommitment) :=
  match hashes with
  | [] => mret None
  | tx_hash :: rest =>
      let mode := match rest with [] => Latest | _ => Old end in
      outcome ← check_transaction_state mode op tx_hash current_block;
      match outcome with
      | CheckPending => mret (Some OpPending)
      | CheckCommitted => _ ← db_access (no_result (confirm_eth_tx tx_hash)); mret (Some OpCommitted)
      | CheckStuck => check_hashes op current_block rest
      | CheckFailed _ => total (Panic "Cannot operate after unexpected TX failure")
      end
  end.

(** Methods that take the operation by mutable reference run on the pair. *)
Definition on_sender {A} (m : Exec ETHSender A) : Exec (ETHOperation * ETHSender) A :=
  zoom snd (λ s p, (p.1, s)) m.

Definition create_supplement_tx (deadline_block : Z) : Exec (ETHOperation * ETHSender) SignedCallResult :=
  stuck_tx ← gets fst;
  new_gas_price ← on_sender (ask_gas_price (Some (eo_last_used_gas_price stuck_tx)));
  signed_tx ← on_sender (sign_prepared_tx (eo_encoded_tx_data stuck_tx) (eo_nonce stuck_tx) new_gas_price);
  _ ← update (λ '(op, s), Val (mkETHOperation (eo_id op) (eo_op_type op) (eo_op op) (eo_nonce op) deadline_block
                (sc_gas_price signed_tx) (eo_used_tx_hashes op ++ [sc_hash signed_tx]) (eo_encoded_tx_data op)
                (eo_confirmed op) (eo_final_hash op), s));
  mret signed_tx.

Definition perform_commitment_step : Exec (ETHOperation * ETHSender) OperationCommitment :=
  op ← gets fst;
  _ ← total (assert_that (bool_decide (eo_used_tx_hashes op ≠ []))
               "OperationETHState should have at least one transaction");
  current_block ← on_sender (ask (env_block_number env));
  checked ← on_sender (check_hashes op current_block (eo_used_tx_hashes op));
  match checked with
  | Some commitment => mret commitment
  | None =>
      let deadline_block := get_deadline_block current_block in
      new_tx ← create_supplement_tx deadline_block;
      _ ← on_sender (db_transaction (
            _ ← db_access (no_result (update_eth_tx (eo_id op) (to_i64 deadline_block) (sc_gas_price new_tx)));
            db_access (no_result (add_hash_entry (eo_id op) (sc_hash new_tx)))));
      _ ← on_sender (send_tx new_tx);
      mret OpPending
  end.

(** ** The queue *)

Definition operation_to_raw_tx (op : Operation) : outcome bytes :=
  let block := op_block op in
  match op_action op with
  | ACommit =>
      public_data ← get_eth_public_data block;
      let witness_data := get_eth_witness_data block in
      Val (env_encode env (commitBlock (block_number block) (fee_account block) (get_eth_encoded_root block)
                             public_data witness_data.1 witness_data.2))
  | AVerify proof =>
      Val (env_encode env (verifyBlock (block_number block) (pr_proof proof) (get_withdrawals_data block)))
  end.

Definition add_operation_to_queue (op : Operation) (self : ETHSender) : outcome ETHSender :=
  raw_tx ← operation_to_raw_tx op;
  q ← match op_action op with
      | ACommit => Val (add_commit_operation (from_operation Commit op raw_tx) (tx_queue self))
      | AVerify _ =>
          add_verify_operation (block_number (op_block op)) (from_operation Verify op raw_tx) (tx_queue self)
      end;
  Val (set_tx_queue q self).

(** [retrieve_operations] and the loop of [new]. *)
Fixpoint add_operations (ops : list Operation) (self : ETHSender) : outcome ETHSender :=
  match ops with
  | [] => Val self
  | op :: ops =>
      _ ← unwrap "ID must be set" (op_id op);
      self ← add_operation_to_queue op self;
      add_operations ops self
  end.

Definition add_complete_withdrawals_to_queue (self : ETHSender) : ETHSender :=
  let raw_tx := env_encode env (completeWithdrawals MAX_WITHDRAWALS_TO_COMPLETE_IN_A_CALL) in
  set_tx_queue (add_withdraw_operation (from_raw Withdraw_ raw_tx) (tx_queue self)) self.

(** [while let Some(tx) = self.tx_queue.pop_front()]; every round takes one of the free
    slots, also when the transaction is returned. *)
Fixpoint send_loop (fuel : nat) (self : ETHSender) : outcome ETHSender :=
  match fuel with
  | O => Val self
  | S fuel =>
      r ← TxQueue.pop_front (tx_queue self);
      let '(popped, q) := r in
      let self := set_tx_queue q self in
      match popped with
      | None => Val self
      | Some tx =>
          r ← initialize_operation tx self;
          match r with
          | (Ok _, self) => send_loop fuel self
          | (Err _, self) => send_loop fuel (set_tx_queue (TxQueue.return_popped tx (tx_queue self)) self)
          end
      end
  end.

Definition free_slots (q : TxQueue) : nat := Z.to_nat (max_pending_txs q - sent_pending_txs q).

(** One round of the loop over the ongoing operations: the operation if it stays. *)
Definition proceed_ongoing (current_op : ETHOperation) (self : ETHSender) :
    outcome (option ETHOperation * ETHSender) :=
  r ← perform_commitment_step (current_op, self);
  let '(res, (current_op, self)) := r in
  match res with
  | Ok OpCommitted =>
      q ← report_commitment (tx_queue self);
      let self := set_tx_queue q self in
      if is_verify current_op then
        op ← unwrap "Should be verify operation" (eo_op current_op);
        let self := match env_notify env (calls self) with Ok _ => add_notify op self | Err _ => self end in
        Val (None, add_complete_withdrawals_to_queue (next_call self))
      else Val (None, self)
  | _ => Val (Some current_op, self)
  end.

Fixpoint ongoing_loop (ops new_ongoing_ops : list ETHOperation) (self : ETHSender) :
    outcome (list ETHOperation * ETHSender) :=
  match ops with
  | [] => Val (new_ongoing_ops, self)
  | op :: ops =>
      r ← proceed_ongoing op self;
      ongoing_loop ops (new_ongoing_ops ++ option_list r.1) r.2
  end.

Definition proceed_next_operations (self : ETHSender) : outcome ETHSender :=
  self ← send_loop (S (free_slots (tx_queue self))) self;
  r ← ongoing_loop (ongoing_ops self) [] (set_ongoing [] self);
  Val (set_ongoing r.1 r.2).

(** [keep_updated]; an error of the database is only logged. *)
Definition keep_gas_updated (now interval multiplier : Z) (self : ETHSender) : outcome ETHSender :=
  r ← keep_updated now interval multiplier (gas_adjuster self);
  let self := set_gas_adjuster r.2 self in
  match r.1 with
  | None => Val self
  | Some limit =>
      match db_access (no_result (update_gas_price_limit limit)) self with
      | Val (_, self) => Val self
      | Panic msg => Panic msg
      end
  end.

(** One round of [run]: the incoming operations and the clock. *)
Record RoundInput : Type := mkRoundInput {
  ri_operations : list Operation;
  ri_now : Z;
  ri_interval : Z;
  ri_multiplier : Z;
}.

Definition sender_round (input : RoundInput) (self : ETHSender) : outcome ETHSender :=
  self ← add_operations (ri_operations input) self;
  self ← proceed_next_operations self;
  keep_gas_updated (ri_now input) (ri_interval input) (ri_multiplier input) self.

Fixpoint sender_run (inputs : list RoundInput) (self : ETHSender) : outcome ETHSender :=
  match inputs with
  | [] => Val self
  | input :: inputs => self ← sender_round input self; sender_run inputs self
  end.

(** ** Starting *)
Section Start.
  Context (into_op : StoredOperation → Fallible Operation) (u256_from_str : Z → option Z).

Definition expect_ok {A} (msg : string) (m : Fallible A) : outcome A :=
  match m with
  | Val (Ok a) => Val a
  | Val (Err _) => Panic msg
  | Panic msg => Panic msg
  end.

Definition ETHSender_new (db : EthDb) (now : Z) : outcome ETHSender :=
  r ← expect_ok "Can't restore state" (restore_state into_op u256_from_str db);
  let '(ongoing, unprocessed) := r in
  stats ← expect_ok "Failed loading ETH operations stats" (load_stats db);
  let queue := build (with_withdraw_operations_count (st_withdraw_ops stats)
                 (with_verify_operations_count (st_verify_ops stats)
                   (with_commit_operations_count (st_commit_ops stats)
                     (with_sent_pending_txs (Z.of_nat (length ongoing))
                       (TxQueueBuilder_new (max_txs_in_flight options)))))) in
  limit ← expect_ok "Can't load the gas price limit" (load_gas_price_limit db);
  add_operations unprocessed
    (mkSender ongoing db queue (GasAdjuster_new limit now) [] [] 0).
End Start.
End Run.
End EthSender.
