(* ===== verification/ExecLogic.v ===== *)
(** * A program logic for the state monad

    [wp m Q s] says that a run of [m] from [s] that does not panic ends in a result and a
    state that satisfy [Q]; the state is also kept on the error path.  [returns] is the
    same for [outcome].  The rules follow the shape of the programs, so that a proof
    about a method is a walk through its text. *)

From S2P Require Import Prelude.

Definition wp {S A} (m : Exec S A) (Q : result A → S → Prop) (s : S) : Prop :=
  match m s with Val (r, s') => Q r s' | Panic _ => True end.

Definition returns {A} (m : outcome A) (Q : A → Prop) : Prop :=
  match m with Val a => Q a | Panic _ => True end.

Lemma wp_run {S A} (m : Exec S A) Q s r s' : wp m Q s → m s = Val (r, s') → Q r s'.
Proof. unfold wp. intros H E. by rewrite E in H. Qed.
Lemma returns_Val {A} (m : outcome A) Q a : returns m Q → m = Val a → Q a.
Proof. intros H E. by rewrite E in H. Qed.

Lemma wp_mono {S A} (m : Exec S A) (Q Q' : result A → S → Prop) s :
  wp m Q s → (∀ r s', Q r s' → Q' r s') → wp m Q' s.
Proof. unfold wp. destruct (m s) as [[]|]; auto. Qed.
Lemma returns_mono {A} (m : outcome A) (Q Q' : A → Prop) :
  returns m Q → (∀ a, Q a → Q' a) → returns m Q'.
Proof. destruct m; cbn; auto. Qed.

Lemma wp_bind {S A B} (m : Exec S A) (f : A → Exec S B) Q s :
  wp m (λ r s', match r with Ok a => wp (f a) Q s' | Err e => Q (Err e) s' end) s → wp (m ≫= f) Q s.
Proof. unfold wp, mbind, exec_bind. by destruct (m s) as [[[] ?]|]. Qed.
Lemma returns_bind {A B} (m : outcome A) (f : A → outcome B) Q :
  returns m (λ a, returns (f a) Q) → returns (m ≫= f) Q.
Proof. by destruct m. Qed.

(** An invariant is carried through the first part, errors included. *)
Lemma wp_bind_inv {S A B} (I : S → Prop) (R : A → S → Prop) (m : Exec S A) (f : A → Exec S B) Q s :
  wp m (λ r s', match r with Ok a => R a s' | Err _ => I s' end) s →
  (∀ e s', I s' → Q (Err e) s') → (∀ a s', R a s' → wp (f a) Q s') → wp (m ≫= f) Q s.
Proof. intros H HE HR. apply wp_bind. eapply wp_mono; [exact H|]. intros [] s'; auto. Qed.

Lemma wp_ret {S A} (a : A) (Q : result A → S → Prop) s : Q (Ok a) s → wp (mret a) Q s.
Proof. done. Qed.
Lemma wp_update {S} (f : S → outcome S) Q s : returns (f s) (Q (Ok tt)) → wp (update f) Q s.
Proof. unfold wp, update. by destruct (f s). Qed.
Lemma wp_gets {S A} (f : S → A) Q s : Q (Ok (f s)) s → wp (gets f) Q s.
Proof. done. Qed.
Lemma wp_total {S A} (m : outcome A) (Q : result A → S → Prop) s : returns m (λ a, Q (Ok a) s) → wp (total m) Q s.
Proof. unfold wp, total, lift, lift_outcome. by destruct m. Qed.
Lemma wp_zoom {S T A} (get : S → T) (put : T → S → S) (m : Exec T A) Q s :
  wp m (λ r t, Q r (put t s)) (get s) → wp (zoom get put m) Q s.
Proof. unfold wp, zoom. by destruct (m (get s)) as [[]|]. Qed.
Lemma returns_unwrap {A} msg (o : option A) (Q : A → Prop) : (∀ a, o = Some a → Q a) → returns (unwrap msg o) Q.
Proof. destruct o; cbn; auto. Qed.
Lemma returns_assert b msg (Q : unit → Prop) : (b = true → Q tt) → returns (assert_that b msg) Q.
Proof. destruct b; cbn; auto. Qed.

(** One step of the walk. *)
Ltac wp_step :=
  lazymatch goal with
  | |- wp (_ ≫= _) _ _ => apply wp_bind
  | |- wp (mret _) _ _ => apply wp_ret
  | |- wp (update _) _ _ => apply wp_update
  | |- wp (gets _) _ _ => apply wp_gets
  | |- wp (total _) _ _ => apply wp_total
  | |- wp (zoom _ _ _) _ _ => apply wp_zoom
  | |- returns (_ ≫= _) _ => apply returns_bind
  | |- returns (unwrap _ _) _ => apply returns_unwrap; intros ? ?
  | |- returns (assert_that _ _) _ => apply returns_assert; intros ?
  | |- returns (Val _) _ => unfold returns
  | |- returns (Panic _) _ => exact I
  end.
Ltac wp_steps := repeat (wp_step; cbn beta iota).

(** A method called from a function that handles its result. *)
Lemma wp_returns {S A} (m : Exec S A) (Q : result A → S → Prop) s : wp m Q s → returns (m s) (λ p, Q p.1 p.2).
Proof. unfold wp. by destruct (m s) as [[]|]. Qed.
Lemma returns_call {S A B} (m : Exec S A) (Q : result A → S → Prop) (f : result A * S → outcome B) R s :
  wp m Q s → (∀ r s', Q r s' → returns (f (r, s')) R) → returns (m s ≫= f) R.
Proof. unfold wp. destruct (m s) as [[]|]; cbn; auto. Qed.
Lemma returns_then {A B} (m : outcome A) (P : A → Prop) (f : A → outcome B) R :
  returns m P → (∀ a, P a → returns (f a) R) → returns (m ≫= f) R.
Proof. destruct m; cbn; auto. Qed.

(** ** Runs that return

    [runs m s Q]: from [s] the method neither panics nor fails, and its value and final
    state satisfy [Q]. *)
Definition runs {S A} (m : Exec S A) (s : S) (Q : A → S → Prop) : Prop :=
  ∃ a s', m s = Val (Ok a, s') ∧ Q a s'.

Lemma runs_bind {S A B} (m : Exec S A) (f : A → Exec S B) s Q :
  runs m s (λ a s', runs (f a) s' Q) → runs (m ≫= f) s Q.
Proof. intros (a & s' & E & b & s2 & E2 & HQ). exists b, s2. unfold mbind, exec_bind. by rewrite E. Qed.
Lemma runs_ret {S A} (a : A) (s : S) (Q : A → S → Prop) : Q a s → runs (mret a) s Q.
Proof. intros HQ. by exists a, s. Qed.
Lemma runs_gets {S A} (f : S → A) s (Q : A → S → Prop) : Q (f s) s → runs (gets f) s Q.
Proof. intros HQ. by exists (f s), s. Qed.
Lemma runs_total {S A} (m : outcome A) a (s : S) (Q : A → S → Prop) : m = Val a → Q a s → runs (total m) s Q.
Proof. intros -> HQ. by exists a, s. Qed.
Lemma runs_mono {S A} (m : Exec S A) s (Q Q' : A → S → Prop) :
  runs m s Q → (∀ a s', Q a s' → Q' a s') → runs m s Q'.
Proof. intros (a & s' & E & HQ) H. exists a, s'. auto. Qed.
Lemma runs_zoom {S T A} (get : S → T) (put : T → S → S) (m : Exec T A) s Q :
  runs m (get s) (λ a t, Q a (put t s)) → runs (zoom get put m) s Q.
Proof. intros (a & t & E & HQ). exists a, (put t s). unfold zoom. by rewrite E. Qed.
