(* ===== verification/EthSenderProofs.v ===== *)
(** * What the sender of Ethereum transactions records (core/server/src/eth_sender/mod.rs)

    For any behaviour of the Ethereum node, the signer and the database: the rows of
    [eth_operations] get consecutive nonces, a transaction is handed to the node only
    after its hash was stored under the row it was signed for, and a row is confirmed
    only when the node has reported one of its hashes as executed with enough
    confirmations. *)

From S2P Require Import Prelude Bytes Params Externals Primitives Amounts Account Tx Operations Block.
From S2P Require Import EthStorage TxQueue GasAdjuster EthSender ExecLogic.
Open Scope Z_scope.

(** ** Rules for the calls of the environment *)
Section Rules.
  Context `{EX : External} (env : Environment).

Lemma wp_ask {A} (answer : nat → result A) Q s :
  Q (answer (calls s)) (next_call s) → wp (ask answer) Q s.
Proof. done. Qed.

Lemma wp_ask_gas_price old Q s :
  (∀ r g, Q r (set_gas_adjuster g (next_call s))) → wp (ask_gas_price env old) Q s.
Proof.
  intros H. unfold wp, ask_gas_price, zoom. destruct (get_gas_price _ _ _) as [[]|]; [apply H|done].
Qed.

Lemma wp_db_access {A} (f : EthDb → Fallible (A * EthDb)) Q s :
  (∀ e, Q (Err e) (next_call s)) →
  (∀ a db, env_db env (calls s) = Ok tt → f (es_db s) = Val (Ok (a, db)) → Q (Ok a) (set_db db (next_call s))) →
  wp (db_access env f) Q s.
Proof.
  intros HE HO. unfold db_access. apply wp_bind, wp_ask. destruct (env_db env (calls s)) as [[]|e] eqn:Henv; [|apply HE].
  unfold wp, on_db. cbn [es_db next_call]. destruct (f (es_db s)) as [[[a db]|e]|] eqn:E; [by apply HO|apply HE|done].
Qed.

Lemma no_result_Ok f db u db' : no_result f db = Val (Ok (u, db')) → f db = Val (Ok db').
Proof. unfold no_result. destruct (f db) as [[]|]; cbn; naive_solver. Qed.

Lemma wp_db_transaction {A} (f : Exec ETHSender A) Q s :
  (∀ e, Q (Err e) (next_call s)) →
  wp f (λ r s', match r with
                | Ok a => (env_db env (calls s') = Ok tt → Q (Ok a) (next_call s')) ∧ (∀ e, Q (Err e) (next_call s'))
                | Err e => Q (Err e) s'
                end) (next_call s) →
  wp (db_transaction env f) Q s.
Proof.
  intros HE Hf. unfold db_transaction. apply wp_bind, wp_ask. destruct (env_db env (calls s)) as [[]|e]; [|apply HE].
  apply wp_bind. eapply wp_mono; [exact Hf|]. intros [a|e] s' H; [|done]. destruct H as [HO HE'].
  apply wp_bind, wp_ask. destruct (env_db env (calls s')) as [[]|e]; [|apply HE']. by apply wp_ret, HO.
Qed.

Lemma wp_log_error m Q s : wp m (λ _ s', Q (Ok tt) s') s → wp (log_error m) Q s.
Proof. unfold wp, log_error. by destruct (m s) as [[]|]. Qed.

Lemma wp_on_sender {A} (m : Exec ETHSender A) Q op s :
  wp m (λ r s', Q r (op, s')) s → wp (on_sender m) Q (op, s).
Proof. unfold on_sender. intros H. by apply wp_zoom. Qed.

Lemma wp_send_tx tx Q s :
  Q (env_send_tx env (calls s)) (next_call (add_sent tx s)) → wp (send_tx env tx) Q s.
Proof. intros H. exact H. Qed.
End Rules.

(** ** The invariant *)
Section Records.
  Context `{EX : External} (env : Environment) (options : EthSenderOptions).

Definition signed_for (raw : bytes) (nonce : Z) (tx : SignedCallResult) : Prop :=
  ∃ n gas_price, env_sign env n raw nonce gas_price = Ok tx.

Definition has_row (db : EthDb) (op : ETHOperation) : Prop :=
  ∃ e, e ∈ eth_operations db ∧ se_id e = eo_id op ∧ se_nonce e = eo_nonce op ∧ se_raw_tx e = eo_encoded_tx_data op.

Definition hash_of_row (db : EthDb) (e : StorageETHOperation) (hash : Z) : Prop :=
  ∃ h, h ∈ eth_tx_hashes db ∧ th_eth_op_id h = se_id e ∧ th_tx_hash h = hash.

Definition tx_recorded (db : EthDb) (tx : SignedCallResult) : Prop :=
  ∃ e, e ∈ eth_operations db ∧ hash_of_row db e (sc_hash tx) ∧ signed_for (se_raw_tx e) (se_nonce e) tx.

Definition node_confirmed (db : EthDb) (e : StorageETHOperation) : Prop :=
  ∃ hash n status, se_final_hash e = Some hash ∧ hash_of_row db e hash ∧
    env_tx_status env n hash = Ok (Some status) ∧ success status = true ∧
    wait_confirmations options ≤ confirmations status.

(** The tables only grow: rows keep their identity. *)
Record db_le (db db' : EthDb) : Prop := {
  dl_rows e : e ∈ eth_operations db → ∃ e', e' ∈ eth_operations db' ∧ se_id e' = se_id e ∧
    se_nonce e' = se_nonce e ∧ se_raw_tx e' = se_raw_tx e;
  dl_hashes : eth_tx_hashes db ⊆ eth_tx_hashes db';
}.

#[global] Instance db_le_preorder : PreOrder db_le.
Proof.
  split.
  - intros db. split; [|done]. intros e He. by exists e.
  - intros a b c [H1 H2] [H3 H4]. split; [|set_solver]. intros e (e1 & He1 & ? & ? & ?)%H1.
    apply H3 in He1 as (e2 & ? & ? & ? & ?). exists e2. split; [done|]. by repeat split; congruence.
Qed.

Lemma hash_of_row_mono db db' e e' hash :
  db_le db db' → se_id e' = se_id e → hash_of_row db e hash → hash_of_row db' e' hash.
Proof. intros [_ H] He (h & Hh & ? & ?). exists h. split; [by apply H|]. by rewrite He. Qed.

Lemma has_row_mono db db' op : db_le db db' → has_row db op → has_row db' op.
Proof.
  intros [H _] (e & He & ? & ? & ?). apply H in He as (e' & ? & ? & ? & ?). exists e'. split; [done|].
  by repeat split; congruence.
Qed.

Lemma tx_recorded_mono db db' tx : db_le db db' → tx_recorded db tx → tx_recorded db' tx.
Proof.
  intros Hle (e & He & Hh & Hs). destruct (dl_rows _ _ Hle _ He) as (e' & ? & Hid & Hn & Hr).
  exists e'. split; [done|]. split; [by eapply hash_of_row_mono|]. by rewrite Hn, Hr.
Qed.

(** Rows are numbered from [id0], their nonces from [n0]. *)
Context (id0 n0 : Z).

Record rows_ok (db : EthDb) : Prop := {
  ro_row i e : eth_operations db !! i = Some e → se_id e = id0 + Z.of_nat i ∧ se_nonce e = n0 + Z.of_nat i;
  ro_seq : eth_operations_seq db = id0 + Z.of_nat (length (eth_operations db));
  ro_params : ∃ p, eth_parameters db = Some p ∧ ep_nonce p = to_i64 (n0 + Z.of_nat (length (eth_operations db)));
  ro_max : 0 ≤ n0 ∧ n0 + Z.of_nat (length (eth_operations db)) ≤ 2 ^ 63;
  ro_confirmed e : e ∈ eth_operations db → se_confirmed e = true → node_confirmed db e;
}.

Record tables_ok (db : EthDb) (ongoing : list ETHOperation) (sent : list SignedCallResult) : Prop := {
  to_rows : rows_ok db;
  to_ongoing : Forall (has_row db) ongoing;
  to_sent : Forall (tx_recorded db) sent;
}.

Definition sender_ok (s : ETHSender) : Prop := tables_ok (es_db s) (ongoing_ops s) (sent_txs s).

Lemma tables_ok_mono db db' ongoing sent :
  tables_ok db ongoing sent → rows_ok db' → db_le db db' → tables_ok db' ongoing sent.
Proof.
  intros [_ H1 H2] Hr Hle. split; [done|..].
  - eapply Forall_impl; [exact H1|]. intros op. by apply has_row_mono.
  - eapply Forall_impl; [exact H2|]. intros tx. by apply tx_recorded_mono.
Qed.

(** ** The statements of the database *)

Lemma to_i64_small z : 0 ≤ z < 2 ^ 63 → to_i64 z = z.
Proof. intros H. unfold to_i64. rewrite wrap_small by (unfold fits; lia). rewrite (proj2 (Z.ltb_lt _ _)) by lia. done. Qed.

Lemma node_confirmed_mono db db' e e' :
  db_le db db' → se_id e' = se_id e → se_final_hash e' = se_final_hash e →
  node_confirmed db e → node_confirmed db' e'.
Proof.
  intros Hle Hid Hf (hash & n & st & ? & Hh & ?). exists hash, n, st. split; [congruence|].
  split; [by eapply hash_of_row_mono|done].
Qed.

(** [save_new_eth_tx], written out. *)
Lemma save_new_eth_tx_inv op_type op_id deadline gas raw db ins db' :
  save_new_eth_tx op_type op_id deadline gas raw db = Val (Ok (ins, db')) →
  ∃ p p', eth_parameters db = Some p ∧ 0 ≤ ep_nonce p ∧ ins = mkInserted (eth_operations_seq db) (ep_nonce p) ∧
    eth_operations db' = eth_operations db ++ [mkStorageETHOperation (eth_operations_seq db) (ep_nonce p) false raw
      (OperationType_to_string op_type) None deadline gas] ∧
    eth_operations_seq db' = eth_operations_seq db + 1 ∧
    eth_tx_hashes db' = eth_tx_hashes db ∧ eth_tx_hashes_seq db' = eth_tx_hashes_seq db ∧
    eth_ops_binding db' = eth_ops_binding db ++
      option_list ((λ i, mkETHBinding i (eth_operations_seq db)) <$> op_id) ∧
    operations db' = operations db ∧ eth_parameters db' = Some p' ∧
    ep_nonce p' = to_i64 (ep_nonce p + 1) ∧
    ep_commit_ops p' = (if decide (op_type = Commit) then to_i64 (ep_commit_ops p + 1) else ep_commit_ops p) ∧
    ep_verify_ops p' = (if decide (op_type = Verify) then to_i64 (ep_verify_ops p + 1) else ep_verify_ops p) ∧
    ep_withdraw_ops p' = (if decide (op_type = Withdraw_) then to_i64 (ep_withdraw_ops p + 1) else ep_withdraw_ops p).
Proof.
  unfold save_new_eth_tx, get_next_nonce, first_params, report_created_operation.
  destruct (eth_parameters db) as [p|] eqn:Hp; [|done]. cbn.
  unfold u256_from_i64. destruct (Z.leb_spec 0 (ep_nonce p)); [|done]. cbn. intros [= <- <-].
  exists p. destruct op_type, op_id; (eexists; split_and!; try done; cbn; by rewrite ?app_nil_r).
Qed.

(** Rows rewritten in place. *)
Definition keeps_identity (g : StorageETHOperation → StorageETHOperation) : Prop :=
  ∀ e, se_id (g e) = se_id e ∧ se_nonce (g e) = se_nonce e ∧ se_raw_tx (g e) = se_raw_tx e.

Lemma db_le_map g db db' :
  keeps_identity g → eth_operations db' = g <$> eth_operations db → eth_tx_hashes db ⊆ eth_tx_hashes db' → db_le db db'.
Proof.
  intros Hg Hrows Hh. split; [|done]. intros e He. exists (g e). rewrite Hrows. split; [by apply list_elem_of_fmap_2|apply Hg].
Qed.

Lemma rows_ok_map g db db' :
  rows_ok db → keeps_identity g → eth_operations db' = g <$> eth_operations db →
  eth_operations_seq db' = eth_operations_seq db → eth_tx_hashes db ⊆ eth_tx_hashes db' →
  (∃ p p', eth_parameters db = Some p ∧ eth_parameters db' = Some p' ∧ ep_nonce p' = ep_nonce p) →
  (∀ e, e ∈ eth_operations db → se_confirmed (g e) = true → node_confirmed db' (g e)) →
  rows_ok db'.
Proof.
  intros [H1 H2 H3 H4 H5] Hg Hrows Hseq Hh (p & p' & Hp & Hp' & Hpn) Hconf.
  split; rewrite ?Hrows, ?length_fmap; [|congruence| |done|].
  - intros i e (e0 & -> & He)%list_lookup_fmap_Some. destruct (Hg e0) as (-> & -> & _). by apply H1.
  - destruct H3 as (q & Hq & Hn). exists p'. split; [done|]. congruence.
  - intros e (e0 & -> & He)%list_elem_of_fmap. by apply Hconf.
Qed.

Lemma save_new_eth_tx_ok op_type op_id deadline gas raw db ins db' :
  rows_ok db → save_new_eth_tx op_type op_id deadline gas raw db = Val (Ok (ins, db')) →
  rows_ok db' ∧ db_le db db' ∧
  ∃ e, e ∈ eth_operations db' ∧ se_id e = ins_id ins ∧ se_nonce e = ins_nonce ins ∧ se_raw_tx e = raw.
Proof.
  intros [H1 H2 (p & Hp & Hpn) H4 H5] Hsave.
  apply save_new_eth_tx_inv in Hsave as (q & p' & Hq & Hpos & -> & Hrows & Hseq & Hh & _ & _ & _ & Hp' & Hpn' & _).
  rewrite Hp in Hq. injection Hq as <-.
  assert (n0 + Z.of_nat (length (eth_operations db)) < 2 ^ 63) as Hlt.
  { destruct (decide (n0 + Z.of_nat (length (eth_operations db)) = 2 ^ 63)) as [E|]; [|lia].
    rewrite Hpn, E in Hpos. by vm_compute in Hpos. }
  rewrite (to_i64_small (n0 + _)) in Hpn by lia.
  assert (db_le db db') as Hle.
  { split; [|by rewrite Hh]. intros e He. exists e. rewrite Hrows. split; [set_solver|done]. }
  split; [|split; [done|]].
  - split; rewrite ?Hrows, ?length_app; cbn [length].
    + intros i e [Hi|[Hi He]]%lookup_app_Some; [by apply H1|].
      destruct (i - _)%nat eqn:Ei in He; [|done]. injection He as <-. cbn. lia.
    + lia.
    + exists p'. split; [done|]. rewrite Hpn', Hpn. f_equal. lia.
    + lia.
    + intros e [He| ->%list_elem_of_singleton]%elem_of_app Hc; [|done]. eapply node_confirmed_mono; [done..|by apply H5].
  - eexists. rewrite Hrows. split; [apply elem_of_app; right; by apply list_elem_of_singleton|]. done.
Qed.

Lemma add_hash_entry_ok eid hash db db' :
  rows_ok db → add_hash_entry eid hash db = Val (Ok db') →
  rows_ok db' ∧ db_le db db' ∧ (∀ e, se_id e = eid → hash_of_row db' e hash).
Proof.
  intros Hr [= <-]. assert (db_le db (mkEthDb (eth_operations db) (eth_operations_seq db)
             (eth_tx_hashes db ++ [mkETHTxHash (eth_tx_hashes_seq db) eid hash]) (eth_tx_hashes_seq db + 1)
             (eth_ops_binding db) (eth_parameters db) (operations db))) as Hle.
  { split; cbn; [|set_solver]. intros e He. by exists e. }
  split; [|split; [done|]].
  - destruct (ro_params _ Hr) as (p & Hp & _). eapply (rows_ok_map id); [done|by intros e|by rewrite list_fmap_id|done|apply Hle|by exists p, p|].
    intros e He Hc. eapply node_confirmed_mono; [done..|]. by apply (ro_confirmed _ Hr).
  - intros e He. eexists. split; [apply elem_of_app; right; by apply list_elem_of_singleton|]. by split.
Qed.

Lemma update_eth_tx_ok id deadline gas db db' :
  rows_ok db → update_eth_tx id deadline gas db = Val (Ok db') → rows_ok db' ∧ db_le db db'.
Proof.
  intros Hr [= <-]. set (g := λ e, if se_id e =? id then _ else e).
  assert (keeps_identity g) as Hg by (intros e; unfold g; by destruct (_ =? _)).
  assert (db_le db (set_eth_operations (g <$> eth_operations db) db)) as Hle by (by eapply db_le_map).
  split; [|done]. destruct (ro_params _ Hr) as (p & Hp & _).
  eapply rows_ok_map; [done..|by exists p, p|]. intros e He Hc.
  apply (node_confirmed_mono db _ e); [done|apply Hg|by unfold g; destruct (_ =? _)|].
  apply (ro_confirmed _ Hr); [done|]. unfold g in Hc. by destruct (_ =? _).
Qed.

Lemma update_gas_price_limit_ok limit db db' :
  rows_ok db → update_gas_price_limit limit db = Val (Ok db') → rows_ok db' ∧ db_le db db'.
Proof.
  intros Hr. unfold update_gas_price_limit. destruct (_ <? _); [|done]. cbn.
  destruct (ro_params _ Hr) as (p & Hp & _). rewrite Hp. intros [= <-].
  match goal with |- rows_ok ?x ∧ _ => assert (db_le db x) as Hle by (split; [intros e; by exists e|done]) end.
  split; [|done]. eapply (rows_ok_map id); [done|by intros e|by rewrite list_fmap_id|done|done|by exists p; eexists|].
  intros e He Hc. by apply (node_confirmed_mono db _ e), (ro_confirmed _ Hr).
Qed.

Lemma confirm_eth_tx_ok hash n status db db' :
  rows_ok db → env_tx_status env n hash = Ok (Some status) → success status = true →
  wait_confirmations options ≤ confirmations status →
  confirm_eth_tx hash db = Val (Ok db') → rows_ok db' ∧ db_le db db'.
Proof.
  intros Hr Hst Hsucc Hconf. unfold confirm_eth_tx, get_eth_op_id.
  destruct (head (List.filter _ (eth_tx_hashes db))) as [h|] eqn:Hh; [|done]. cbn.
  apply head_Some_elem_of, list_elem_of_In, List.filter_In in Hh as [Hin Heq]. apply list_elem_of_In in Hin. apply Z.eqb_eq in Heq.
  set (g := λ e, if se_id e =? th_eth_op_id h then _ else e).
  destruct (length _ =? 1)%nat; [|done]. cbn. intros Hrun.
  assert (eth_operations db' = g <$> eth_operations db ∧ eth_operations_seq db' = eth_operations_seq db ∧
    eth_tx_hashes db' = eth_tx_hashes db ∧ eth_parameters db' = eth_parameters db) as (E1 & E2 & E3 & E4).
  { destruct (head (List.filter _ (eth_ops_binding db))) as [b|]; [|by injection Hrun as <-].
    destruct (head (List.filter _ (operations db))) as [o|]; [|done]. by injection Hrun as <-. }
  clear Hrun. assert (keeps_identity g) as Hg by (intros e; unfold g; by destruct (_ =? _)).
  assert (db_le db db') as Hle by (eapply db_le_map; [done..|by rewrite E3]).
  split; [|done]. destruct (ro_params _ Hr) as (p & Hp & _).
  eapply rows_ok_map; [done..|by rewrite E3|exists p, p; by rewrite E4|]. intros e He Hc.
  unfold g in *. destruct (Z.eqb_spec (se_id e) (th_eth_op_id h)) as [Hid|].
  - exists hash, n, status. split; [done|]. split; [|done]. exists h. rewrite E3. by split.
  - by apply (node_confirmed_mono db _ e), (ro_confirmed _ Hr).
Qed.

(** ** The methods of the sender *)

(** The rules again, for a state of which only the invariant is known. *)
Lemma wp_ask_ok {A} (answer : nat → result A) Q s :
  sender_ok s → (∀ s', sender_ok s' → es_db s' = es_db s → Q (answer (calls s)) s') → wp (ask answer) Q s.
Proof. intros Hs HQ. apply wp_ask, HQ; done. Qed.

Lemma wp_gas_ok old Q s :
  sender_ok s → (∀ r s', sender_ok s' → es_db s' = es_db s → Q r s') → wp (ask_gas_price env old) Q s.
Proof. intros Hs HQ. apply wp_ask_gas_price. intros r g. apply HQ; done. Qed.

Lemma wp_transaction_ok {A} (f : Exec ETHSender A) Q s :
  sender_ok s →
  (∀ e s', sender_ok s' → es_db s' = es_db s → Q (Err e) s') →
  (∀ s1, sender_ok s1 → es_db s1 = es_db s →
     wp f (λ r s2, match r with
                   | Ok a => sender_ok s2 ∧ ∀ r' s3, r' = Ok a ∨ (∃ e, r' = Err e) → sender_ok s3 → es_db s3 = es_db s2 → Q r' s3
                   | Err e => Q (Err e) s2
                   end) s1) →
  wp (db_transaction env f) Q s.
Proof.
  intros Hs HE Hf. apply wp_db_transaction; [intros e; by apply HE|].
  eapply wp_mono; [by apply (Hf (next_call s))|]. intros [a|e] s2; [|done].
  intros [Hs2 HQ]. split; [intros _|intros e]; (apply HQ; [eauto|done..]).
Qed.

(** An access whose statement keeps the rows. *)
Lemma wp_db_access_ok {A} (f : EthDb → Fallible (A * EthDb)) Q s :
  sender_ok s → (∀ a db', f (es_db s) = Val (Ok (a, db')) → rows_ok db' ∧ db_le (es_db s) db') →
  (∀ e s', sender_ok s' → es_db s' = es_db s → Q (Err e) s') →
  (∀ a s', f (es_db s) = Val (Ok (a, es_db s')) → sender_ok s' → db_le (es_db s) (es_db s') → Q (Ok a) s') →
  wp (db_access env f) Q s.
Proof.
  intros Hs Hf HE HO. apply wp_db_access; [intros e; by apply HE|]. intros a db' _ E. destruct (Hf _ _ E) as [Hr Hle].
  apply HO; [done| |done]. eapply tables_ok_mono; done.
Qed.

Lemma sender_ok_send tx Q s :
  sender_ok s → tx_recorded (es_db s) tx → (∀ r s', sender_ok s' → es_db s' = es_db s → Q r s') →
  wp (send_tx env tx) Q s.
Proof.
  intros [H1 H2 H3] Htx HQ. apply wp_send_tx, HQ; [|done].
  split; cbn; [done..|]. apply Forall_app_2; [done|]. by constructor.
Qed.

Lemma initialize_operation_ok tx s :
  sender_ok s → wp (initialize_operation env options tx) (λ _, sender_ok) s.
Proof.
  intros Hs. unfold initialize_operation. apply wp_bind, wp_ask_ok; [done|]. intros s' Hs' _.
  destruct (env_block_number _ _); [|done]. clear s Hs.
  apply wp_bind, wp_gas_ok; [done|]. intros [gas|] s Hs _; [|done]. clear s' Hs'.
  apply wp_bind, wp_transaction_ok; [done..|]. intros s' Hs' _. clear s Hs. rename s' into s, Hs' into Hs.
  unfold db_save_new_eth_tx. do 2 apply wp_bind. apply wp_total.
  destruct (match td_operation tx with Some _ => _ | None => _ end) as [op_id|]; [|done]. unfold returns.
  apply wp_db_access_ok; [done|intros ? ? E; apply save_new_eth_tx_ok in E; [naive_solver|apply Hs]|done|].
  intros ins s1 E Hs1 _. apply save_new_eth_tx_ok in E as (_ & _ & e & He & Hid & Hn & Hraw); [|apply Hs].
  apply wp_bind. unfold sign_new_tx, sign_prepared_tx. apply wp_ask_ok; [done|]. intros s2 Hs2 Hdb. rewrite <- Hdb in He.
  destruct (env_sign _ _ _ _ _) as [sc|] eqn:Hsign; [|done].
  apply wp_bind, wp_db_access_ok; [done|intros ? ? E; apply no_result_Ok, add_hash_entry_ok in E; [naive_solver|apply Hs2]|done|].
  intros [] s3 E Hs3 Hle. apply wp_ret. split; [done|]. intros r s4 [-> | [? ->]] Hs4 Hdb4; [|done].
  apply no_result_Ok, add_hash_entry_ok in E as (_ & _ & Hh); [|apply Hs2]. rewrite <- Hdb4 in Hh, Hle. cbn [eo_id with_hash] in Hh.
  destruct (dl_rows _ _ Hle _ He) as (e' & He' & Hid' & Hn' & Hraw'). cbn [ins_id ins_nonce eo_encoded_tx_data eo_nonce] in *.
  apply wp_bind, wp_update. unfold returns. apply wp_log_error, sender_ok_send; [| |done].
  - destruct Hs4 as [H1 H2 H3]. split; cbn; [done| |done]. apply Forall_app_2; [done|]. constructor; [|done].
    exists e'. cbn. by repeat split; congruence.
  - exists e'. split; [done|]. split; [apply Hh; congruence|]. eexists _, _. rewrite Hraw', Hn', Hraw, Hn. exact Hsign.
Qed.

(** The committed outcome of a check is the node's report. *)
Lemma wp_check_transaction_state mode op tx_hash current_block Q s :
  (∀ e, Q (Err e) (next_call s)) →
  (∀ o, (o = CheckCommitted → ∃ status, env_tx_status env (calls s) tx_hash = Ok (Some status) ∧
          success status = true ∧ wait_confirmations options ≤ confirmations status) → Q (Ok o) (next_call s)) →
  wp (check_transaction_state env options mode op tx_hash current_block) Q s.
Proof.
  intros HE HO. unfold check_transaction_state. apply wp_bind, wp_ask.
  destruct (env_tx_status _ _ _) as [[status|]|] eqn:E; [| |apply HE].
  - destruct (success status) eqn:Hs.
    + apply wp_ret, HO. destruct (Z.leb_spec (wait_confirmations options) (confirmations status)); [|done]. eauto.
    + apply wp_bind, wp_total. apply returns_unwrap. intros r _. by apply wp_ret, HO.
  - apply wp_ret, HO. by destruct (is_stuck _ _), mode.
Qed.

Definition grows (s0 s : ETHSender) : Prop := sender_ok s ∧ db_le (es_db s0) (es_db s).

Lemma sender_grows_refl s : sender_ok s → grows s s.
Proof. done. Qed.

Lemma check_hashes_ok op current_block hashes s :
  sender_ok s → wp (check_hashes env options op current_block hashes) (λ _, grows s) s.
Proof.
  revert s. induction hashes as [|tx_hash rest IH]; intros s Hs; cbn [check_hashes]; [by apply wp_ret, sender_grows_refl|].
  apply wp_bind, wp_check_transaction_state; [intros e; by apply (sender_grows_refl s)|]. intros o Ho.
  destruct o; [|by apply wp_ret, (sender_grows_refl s)| |done].
  - destruct (Ho eq_refl) as (st & ? & ? & ?). apply wp_bind. apply wp_db_access_ok; [done| | |].
    + intros ? ? E; apply no_result_Ok in E; eapply confirm_eth_tx_ok; [apply Hs|done..].
    + intros e s' Hs' E. split; [done|]. by rewrite E.
    + intros [] s' _ Hs' Hle. by apply wp_ret.
  - by apply (IH (next_call s)).
Qed.

Lemma perform_commitment_step_ok op s :
  sender_ok s → has_row (es_db s) op →
  wp (perform_commitment_step env options)
    (λ _ p, sender_ok p.2 ∧ db_le (es_db s) (es_db p.2) ∧ has_row (es_db p.2) p.1) (op, s).
Proof.
  intros Hs Hrow. set (Q := λ (_ : result OperationCommitment) p, _).
  assert (∀ r s' op', sender_ok s' → db_le (es_db s) (es_db s') → eo_id op' = eo_id op → eo_nonce op' = eo_nonce op →
    eo_encoded_tx_data op' = eo_encoded_tx_data op → Q r (op', s')) as HQ.
  { intros r s' op' Hs' Hle E1 E2 E3. split; [done|]. split; [done|].
    apply (has_row_mono _ _ _ Hle) in Hrow as (e & ? & ? & ? & ?). exists e. cbn. split; [done|]. by repeat split; congruence. }
  unfold perform_commitment_step. apply wp_bind, wp_gets. cbn [fst].
  apply wp_bind, wp_total, returns_assert. intros _.
  apply wp_bind, wp_on_sender, wp_ask_ok; [done|]. intros s0 Hs0 Hdb0.
  destruct (env_block_number _ _) as [current|]; [|apply HQ; by rewrite ?Hdb0].
  apply wp_bind, wp_on_sender. eapply wp_mono; [apply check_hashes_ok; exact Hs0|].
  intros r s1 [Hs1 Hle]. rewrite Hdb0 in Hle. clear s0 Hs0 Hdb0.
  destruct r as [[commitment|]|]; [by apply wp_ret, HQ| |by apply HQ].
  apply wp_bind. unfold create_supplement_tx. apply wp_bind, wp_gets. cbn [fst].
  apply wp_bind, wp_on_sender, wp_gas_ok; [done|]. intros r s2 Hs2 Hdb2. rewrite <- Hdb2 in Hle. clear s1 Hs1 Hdb2.
  destruct r as [gas|]; [|by apply HQ].
  apply wp_bind, wp_on_sender. unfold sign_prepared_tx. apply wp_ask_ok; [done|]. intros s3 Hs3 Hdb3. rewrite <- Hdb3 in Hle.
  destruct (env_sign _ _ _ _ _) as [sc|] eqn:Hsign; [|by apply HQ].
  apply wp_bind, wp_update. unfold returns. apply wp_ret.
  apply wp_bind, wp_on_sender, wp_transaction_ok; [done|intros e s' Hs' Hdb; apply HQ; by rewrite ?Hdb|].
  intros s4 Hs4 Hdb4. rewrite <- Hdb4 in Hle. clear Hdb3 s3 Hs3 Hdb4.
  apply wp_bind, wp_db_access_ok; [done|intros ? ? E; apply no_result_Ok in E; eapply update_eth_tx_ok; [apply Hs4|done]|
    intros e s' Hs' Hdb; apply HQ; by rewrite ?Hdb|].
  intros [] s5 _ Hs5 Hle5. rewrite <- Hle in Hle5. clear s4 Hs4 Hle.
  apply wp_db_access_ok; [done|intros ? ? E; apply no_result_Ok, add_hash_entry_ok in E; [naive_solver|apply Hs5]|
    intros e s' Hs' Hdb; apply HQ; by rewrite ?Hdb|].
  intros [] s6 E Hs6 Hle6. rewrite <- Hle5 in Hle6.
  apply no_result_Ok, add_hash_entry_ok in E as (_ & _ & Hh); [|apply Hs5]. clear s5 Hs5 Hle5.
  split; [done|]. intros r s7 Hr Hs7 Hdb7. rewrite <- Hdb7 in Hle6, Hh. clear s6 Hs6 Hdb7.
  destruct Hr as [-> | [e ->]]; [|by apply HQ]. apply wp_bind, wp_on_sender, sender_ok_send; [done| |].
  - apply (has_row_mono _ _ _ Hle6) in Hrow as (e & He & Hid & Hn & Hraw). exists e. split; [done|]. split; [by apply Hh|].
    eexists _, _. rewrite Hraw, Hn. exact Hsign.
  - intros [] s8 Hs8 Hdb8; [apply wp_ret|]; apply HQ; by rewrite ?Hdb8.
Qed.

Lemma add_operations_ok ops s : sender_ok s → returns (add_operations env ops s) sender_ok.
Proof.
  revert s. induction ops as [|op ops IH]; intros s Hs; [done|]. cbn [add_operations].
  wp_step. wp_step. eapply (returns_then _ sender_ok); [|intros s'; apply IH].
  unfold add_operation_to_queue. wp_step. destruct (operation_to_raw_tx env op); [|done]. cbn [returns].
  wp_step. by destruct (match op_action op with ACommit => _ | AVerify _ => _ end).
Qed.

Lemma send_loop_ok fuel s : sender_ok s → returns (send_loop env options fuel s) sender_ok.
Proof.
  revert s. induction fuel as [|fuel IH]; intros s Hs; [done|]. cbn [send_loop].
  destruct (TxQueue.pop_front (tx_queue s)) as [[[tx|] q]|]; [|done..]. cbn [mbind outcome_bind].
  eapply returns_call; [by apply initialize_operation_ok|]. intros [] s' Hs'; by apply IH.
Qed.

Lemma proceed_ongoing_ok op s :
  sender_ok s → has_row (es_db s) op →
  returns (proceed_ongoing env options op s)
    (λ r, sender_ok r.2 ∧ db_le (es_db s) (es_db r.2) ∧ Forall (has_row (es_db r.2)) (option_list r.1)).
Proof.
  intros Hs Hrow. unfold proceed_ongoing. eapply returns_call; [by apply perform_commitment_step_ok|].
  intros r [op' s'] (Hs' & Hle & Hrow'). cbn in *. destruct r as [[]|e].
  2,3: cbn; split; [done|]; split; [done|by constructor].
  destruct (report_commitment (tx_queue s')); [|done]. cbn [mbind outcome_bind].
  destruct (is_verify op'); [|by split; [|split]]. wp_step. wp_step.
  destruct (env_notify _ _); by split; [|split].
Qed.

Lemma ongoing_loop_ok ops acc s :
  sender_ok s → Forall (has_row (es_db s)) ops → Forall (has_row (es_db s)) acc →
  returns (ongoing_loop env options ops acc s) (λ r, sender_ok r.2 ∧ Forall (has_row (es_db r.2)) r.1).
Proof.
  revert acc s. induction ops as [|op ops IH]; intros acc s Hs Hops Hacc; [done|]. cbn [ongoing_loop].
  apply Forall_cons in Hops as [Hop Hops]. eapply returns_then; [by apply proceed_ongoing_ok|].
  intros [o s'] (Hs' & Hle & Ho). cbn in *. apply IH; [done|..].
  - eapply Forall_impl; [exact Hops|]. intros ?. by apply has_row_mono.
  - apply Forall_app_2; [|done]. eapply Forall_impl; [exact Hacc|]. intros ?. by apply has_row_mono.
Qed.

Lemma proceed_next_operations_ok s : sender_ok s → returns (proceed_next_operations env options s) sender_ok.
Proof.
  intros Hs. unfold proceed_next_operations. eapply returns_then; [by apply send_loop_ok|]. intros s1 [H1 H2 H3].
  eapply returns_then; [by apply ongoing_loop_ok|]. intros [ops s2] [[H4 H5 H6] Hops]. by split.
Qed.

Lemma keep_gas_updated_ok now interval multiplier s :
  sender_ok s → returns (keep_gas_updated env now interval multiplier s) sender_ok.
Proof.
  intros Hs. unfold keep_gas_updated. destruct (keep_updated _ _ _ _) as [[[limit|] g]|]; [|done..]. cbn [mbind outcome_bind fst snd].
  assert (wp (db_access env (no_result (update_gas_price_limit limit))) (λ _, sender_ok) (set_gas_adjuster g s)) as H.
  { apply wp_db_access_ok; [done| |done..]. intros ? ? E. apply no_result_Ok in E. eapply update_gas_price_limit_ok; [apply Hs|done]. }
  unfold wp in H. by destruct (db_access _ _ _) as [[]|].
Qed.

Lemma sender_run_ok inputs s : sender_ok s → returns (sender_run env options inputs s) sender_ok.
Proof.
  revert s. induction inputs as [|input inputs IH]; intros s Hs; [done|]. cbn [sender_run].
  eapply (returns_then _ sender_ok); [|intros s'; apply IH]. unfold sender_round.
  eapply returns_then; [by apply add_operations_ok|]. intros s1 Hs1.
  eapply returns_then; [by apply proceed_next_operations_ok|]. intros s2 Hs2. by apply keep_gas_updated_ok.
Qed.
End Records.

(** C8: The sender's records, whatever the Ethereum node, the signer and the database answer:
    started on tables without Ethereum operations, after any rounds the stored operations
    have consecutive nonces; every transaction that was handed to the node was signed
    with the nonce and the data of a stored operation, under which its hash is stored;
    and an operation is confirmed only with a stored hash of its own that the node has
    reported as executed with enough confirmations. *)
Theorem sender_records `{EX : External} env options inputs s s' p :
  eth_operations (es_db s) = [] → eth_parameters (es_db s) = Some p → 0 ≤ ep_nonce p < 2 ^ 63 →
  ongoing_ops s = [] → sent_txs s = [] → sender_run env options inputs s = Val s' →
  se_nonce <$> eth_operations (es_db s') = seqZ (ep_nonce p) (Z.of_nat (length (eth_operations (es_db s')))) ∧
  Forall (tx_recorded env (es_db s')) (sent_txs s') ∧
  ∀ e, e ∈ eth_operations (es_db s') → se_confirmed e = true → node_confirmed env options (es_db s') e.
Proof.
  intros Hrows Hp Hn Hon Hsent Hrun.
  assert (sender_ok env options (eth_operations_seq (es_db s)) (ep_nonce p) s) as Hs.
  { split; rewrite ?Hon, ?Hsent; [|done..]. split; rewrite ?Hrows; cbn; [done|lia| |lia|by intros e ?%not_elem_of_nil].
    exists p. split; [done|]. rewrite Z.add_0_r, to_i64_small; done. }
  destruct (returns_Val _ _ _ (sender_run_ok _ _ _ _ inputs _ Hs) Hrun) as [[H1 _ _ _ H5] _ Hs'].
  split; [|done]. apply list_eq. intros i. rewrite list_lookup_fmap.
  destruct (eth_operations (es_db s') !! i) as [e|] eqn:E; cbn; symmetry.
  - destruct (H1 _ _ E) as [_ ->]. apply lookup_lt_Some in E. apply lookup_seqZ_lt. lia.
  - apply lookup_ge_None in E. apply lookup_seqZ_ge. lia.
Qed.
