(* ===== verification/SenderSlots.v ===== *)
(** * The slots of the sender's queue (core/server/src/eth_sender/mod.rs, tx_queue/mod.rs)

    A transaction that cannot be initialised is returned to the queue.  The queue gets
    back its element and its counter, but the slot that [pop_front] took stays taken. *)

From S2P Require Import Prelude Bytes Params Externals Primitives Amounts Account Tx Operations Block.
From S2P Require Import EthStorage TxQueue GasAdjuster EthSender ExecLogic.
Open Scope Z_scope.

Section Slots.
  Context `{EX : External}.

(** Every transaction is in the queue of its kind, and the counters are 64-bit. *)
Record queue_typed (q : TxQueue) : Prop := {
  qt_commits : Forall (λ d, td_op_type d = Commit) (CounterQueue.elements (commit_operations q));
  qt_withdraws : Forall (λ d, td_op_type d = Withdraw_) (CounterQueue.elements (withdraw_operations q));
  qt_verifies : map_Forall (λ _ d, td_op_type d = Verify) (SparseQueue.elements (verify_operations q));
  qt_commit_count : fits 64 (CounterQueue.counter (commit_operations q));
  qt_withdraw_count : fits 64 (CounterQueue.counter (withdraw_operations q));
  qt_verify_next : fits 64 (SparseQueue.next_expected_idx (verify_operations q));
}.

Lemma wrap_pred_succ w z : 0 ≤ w → fits w z → wrap w (wrap w (z + 1) - 1) = z.
Proof.
  intros Hw Hz. unfold wrap. rewrite Zminus_mod_idemp_l. replace (z + 1 - 1) with z by lia. by apply Z.mod_small.
Qed.

(** Returning what was popped restores the queues. *)
Lemma return_popped_next q d q' :
  queue_typed q → next_operation q (Some d) q' → TxQueue.return_popped d q' = q.
Proof.
  intros [H1 H2 H3 H4 H5 H6] Hnext. destruct q as [mx sent [ce cc] [vn ve] [we wc]]. cbn in *.
  inversion Hnext as [? ? E|? rest ? E|? rest E|]; subst; cbn in *; unfold TxQueue.return_popped.
  - rewrite (H3 _ _ E). unfold set_verify, SparseQueue.return_popped. cbn. rewrite wrap_pred_succ by done.
    by rewrite insert_delete_id.
  - rewrite E in H2. apply Forall_cons in H2 as [-> _]. unfold set_withdraw, CounterQueue.return_popped. cbn.
    by rewrite wrap_pred_succ, E.
  - rewrite E in H1. apply Forall_cons in H1 as [-> _]. unfold set_commit, CounterQueue.return_popped. cbn.
    by rewrite wrap_pred_succ, E.
Qed.

Lemma return_popped_set_sent d n q : TxQueue.return_popped d (set_sent n q) = set_sent n (TxQueue.return_popped d q).
Proof. unfold TxQueue.return_popped. by destruct (td_op_type d). Qed.

(** A pop that is returned takes a slot. *)
Lemma pop_return_takes_slot q d q1 :
  queue_typed q → 0 ≤ sent_pending_txs q < max_pending_txs q → max_pending_txs q < 2 ^ 64 →
  get_next_operation q = Val (Some d, q1) →
  ∃ q', TxQueue.pop_front q = Val (Some d, q') ∧ TxQueue.return_popped d q' = set_sent (sent_pending_txs q + 1) q.
Proof.
  intros Hq Hs Hm Hget. destruct (get_next_operation_cases q) as (d' & q2 & E & Hnext).
  rewrite Hget in E. injection E as <- <-. unfold TxQueue.pop_front. rewrite (proj2 (Z.leb_gt _ _)) by lia.
  rewrite Hget. cbn. eexists. split; [done|]. rewrite return_popped_set_sent, (return_popped_next q) by done.
  assert (sent_pending_txs q1 = sent_pending_txs q) as -> by (by inversion Hnext).
  rewrite wrap_small by (unfold fits; lia). done.
Qed.

Lemma get_next_set_sent n q d q1 :
  get_next_operation q = Val (d, q1) → get_next_operation (set_sent n q) = Val (d, set_sent n q1).
Proof.
  destruct q as [mx sent [ce cc] [vn ve] [we wc]].
  unfold get_next_operation, SparseQueue.pop_front, CounterQueue.pop_front, SparseQueue.next_id, CounterQueue.get_count. cbn.
  destruct (vn <? _), (SparseQueue.has_next _), (wrap 64 (wc + 1) <? vn), (ve !! vn), we, ce; cbn; intros E; simplify_eq; done.
Qed.

Section Run.
  Context (env : Environment) (options : EthSenderOptions).

(** No slot is left and nothing is waited for. *)
Record blocked (s0 s : ETHSender) : Prop := {
  bl_slots : max_pending_txs (tx_queue s) ≤ sent_pending_txs (tx_queue s);
  bl_ongoing : ongoing_ops s = [];
  bl_sent : sent_txs s = sent_txs s0;
  bl_rows : eth_operations (es_db s) = eth_operations (es_db s0);
}.

Lemma add_operations_blocked ops s0 s : blocked s0 s → returns (add_operations env ops s) (blocked s0).
Proof.
  revert s. induction ops as [|op ops IH]; intros s Hs; [done|]. cbn [add_operations].
  wp_step. wp_step. eapply (returns_then _ (blocked s0)); [|intros s'; apply IH].
  unfold add_operation_to_queue. wp_step. destruct (operation_to_raw_tx env op); [|done]. cbn [returns].
  destruct Hs as [H1 H2 H3 H4]. destruct (op_action op); cbn; [by split|].
  unfold add_verify_operation, SparseQueue.insert. destruct (_ <=? _); cbn; [by split|done].
Qed.

Lemma pop_front_full q : max_pending_txs q ≤ sent_pending_txs q → TxQueue.pop_front q = Val (None, q).
Proof. intros H. unfold TxQueue.pop_front. by rewrite (proj2 (Z.leb_le _ _)). Qed.

Lemma send_loop_full fuel s :
  max_pending_txs (tx_queue s) ≤ sent_pending_txs (tx_queue s) → send_loop env options fuel s = Val s.
Proof. intros H. destruct fuel; [done|]. cbn. rewrite pop_front_full by done. by destruct s. Qed.

Lemma proceed_blocked s0 s : blocked s0 s → returns (proceed_next_operations env options s) (blocked s0).
Proof.
  intros [H1 H2 H3 H4]. unfold proceed_next_operations. rewrite send_loop_full by done. cbn. rewrite H2. cbn. by split.
Qed.

Lemma keep_gas_blocked now interval multiplier s0 s :
  blocked s0 s → returns (keep_gas_updated env now interval multiplier s) (blocked s0).
Proof.
  intros Hs. unfold keep_gas_updated. destruct (keep_updated _ _ _ _) as [[[limit|] g]|]; [| |done].
  2:{ destruct Hs. by split. }
  cbn. unfold db_access, mbind, exec_bind, ask, on_db, no_result, update_gas_price_limit. cbn.
  destruct (env_db env _) as [[]|]; [|destruct Hs; by split]. destruct (limit <? _); [|done]. cbn.
  destruct Hs as [H1 H2 H3 H4]. destruct (eth_parameters (es_db s)); by split.
Qed.

Lemma sender_run_blocked inputs s0 s : blocked s0 s → returns (sender_run env options inputs s) (blocked s0).
Proof.
  revert s. induction inputs as [|input inputs IH]; intros s Hs; [done|]. cbn [sender_run].
  eapply (returns_then _ (blocked s0)); [|intros s'; apply IH]. unfold sender_round.
  eapply returns_then; [by apply add_operations_blocked|]. intros s1 Hs1.
  eapply returns_then; [by apply proceed_blocked|]. intros s2 Hs2. by apply keep_gas_blocked.
Qed.

Lemma send_loop_fail fuel s d q' e s1 :
  TxQueue.pop_front (tx_queue s) = Val (Some d, q') →
  initialize_operation env options d (set_tx_queue q' s) = Val (Err e, s1) →
  send_loop env options (S fuel) s = send_loop env options fuel (set_tx_queue (TxQueue.return_popped d (tx_queue s1)) s1).
Proof. intros H1 H2. cbn [send_loop]. rewrite H1. cbn [mbind outcome_bind]. by rewrite H2. Qed.

(** While the node does not tell its block number, each turn of the loop takes a slot. *)
Lemma send_loop_unreachable k s d q1 :
  queue_typed (tx_queue s) → 0 ≤ sent_pending_txs (tx_queue s) → max_pending_txs (tx_queue s) < 2 ^ 64 →
  sent_pending_txs (tx_queue s) + Z.of_nat k = max_pending_txs (tx_queue s) →
  get_next_operation (tx_queue s) = Val (Some d, q1) →
  (∀ n, (n < k)%nat → ∃ e, env_block_number env (calls s + n) = Err e) →
  ∃ c, send_loop env options (S k) s =
    Val (mkSender (ongoing_ops s) (es_db s) (set_sent (max_pending_txs (tx_queue s)) (tx_queue s)) (gas_adjuster s)
           (op_notify s) (sent_txs s) c).
Proof.
  revert s q1. induction k as [|k IH]; intros s q1 Hq Hs Hm Hk Hget Henv.
  { exists (calls s). rewrite send_loop_full by lia. destruct s as [? ? [? ? ? ? ?] ? ? ? ?]. cbn in *. do 3 f_equal. unfold set_sent. f_equal. lia. }
  destruct (pop_return_takes_slot _ _ _ Hq ltac:(lia) Hm Hget) as (q' & Hpop & Hret).
  destruct (Henv 0%nat ltac:(lia)) as [e He]. rewrite Nat.add_0_r in He.
  assert (initialize_operation env options d (set_tx_queue q' s) = Val (Err e, next_call (set_tx_queue q' s))) as Hinit.
  { unfold initialize_operation. unfold mbind at 1, exec_bind at 1, ask. cbn. by rewrite He. }
  rewrite (send_loop_fail _ _ _ _ _ _ Hpop Hinit). cbn [tx_queue next_call set_tx_queue]. rewrite Hret.
  set (s1 := set_tx_queue _ _).
  destruct (IH s1 (set_sent (sent_pending_txs (tx_queue s) + 1) q1)) as [c Hc]; cbn; try done; try lia.
  - by destruct Hq.
  - by apply get_next_set_sent.
  - intros n Hn. destruct (Henv (S n) ltac:(lia)) as [e' He']. exists e'. rewrite <- He'. f_equal. lia.
  - exists c. exact Hc.
Qed.
End Run.

(** A node that is unreachable for one round blocks the sender for good: when no operation is
    waited for and the node does not answer while the free slots are tried, every slot is
    taken by the transaction that was returned each time.  From then on, in every
    environment and for every input, nothing is stored or sent any more. *)
Theorem unreachable_node_blocks_sender env options s d q1 now interval multiplier inputs s' :
  queue_typed (tx_queue s) → 0 ≤ sent_pending_txs (tx_queue s) ≤ max_pending_txs (tx_queue s) →
  max_pending_txs (tx_queue s) < 2 ^ 64 → ongoing_ops s = [] →
  get_next_operation (tx_queue s) = Val (Some d, q1) →
  (∀ n, (n < free_slots (tx_queue s))%nat → ∃ e, env_block_number env (calls s + n) = Err e) →
  sender_run env options (mkRoundInput [] now interval multiplier :: inputs) s = Val s' →
  max_pending_txs (tx_queue s') ≤ sent_pending_txs (tx_queue s') ∧
  ongoing_ops s' = [] ∧ sent_txs s' = sent_txs s ∧ eth_operations (es_db s') = eth_operations (es_db s).
Proof.
  intros Hq Hs Hm Hon Hget Henv Hrun.
  assert (returns (sender_run env options (mkRoundInput [] now interval multiplier :: inputs) s) (blocked s)) as H.
  { cbn [sender_run]. eapply (returns_then _ (blocked s)); [|intros s1; apply sender_run_blocked].
    unfold sender_round. cbn [ri_operations add_operations mbind outcome_bind].
    eapply (returns_then _ (blocked s)); [|intros s1; apply keep_gas_blocked]. unfold proceed_next_operations.
    destruct (send_loop_unreachable env options (free_slots (tx_queue s)) s d q1) as [c Hc]; try done; [lia|unfold free_slots; lia|].
    rewrite Hc. cbn [mbind outcome_bind ongoing_ops]. rewrite Hon. split; cbn; lia || done. }
  rewrite Hrun in H. destruct H as [H1 H2 H3 H4]. done.
Qed.
End Slots.
