(* ===== verification/Storage.v ===== *)
(** * The state tables of the database (core/storage/src/diff.rs, chain/state, chain/account)

    A table is the list of its rows in the order of insertion, which is also the order
    in which a query without an order returns them; serial columns are counters.  The
    insertion of a row whose primary key exists is an error.  A schema method that
    changes the tables runs in one transaction of its connection: it returns the new
    tables, or an error and the tables stay. *)

From S2P Require Import Prelude Bytes Params Externals Account EthStorage.
Open Scope Z_scope.

(** ** Records *)

Record StorageAccount : Type := mkStorageAccount {
  sa_id : Z;
  sa_last_block : Z;
  sa_nonce : Z;
  sa_address : bytes;
  sa_pubkey_hash : bytes;
}.

Record StorageAccountCreation : Type := mkStorageAccountCreation {
  cr_account_id : Z;
  cr_is_create : bool;
  cr_block_number : Z;
  cr_address : bytes;
  cr_nonce : Z;
  cr_update_order_id : Z;
}.

Record StorageAccountUpdate : Type := mkStorageAccountUpdate {
  su_token_update_id : Z;
  su_account_id : Z;
  su_block_number : Z;
  su_old_nonce : Z;
  su_token_id : Z;
  su_added : bool;
  su_new_nonce : Z;
  su_update_order_id : Z;
}.

Record StorageAccountPubkeyUpdate : Type := mkStorageAccountPubkeyUpdate {
  sp_pubkey_update_id : Z;
  sp_update_order_id : Z;
  sp_account_id : Z;
  sp_block_number : Z;
  sp_old_pubkey_hash : bytes;
  sp_new_pubkey_hash : bytes;
  sp_old_nonce : Z;
  sp_new_nonce : Z;
}.

Record StorageToken : Type := mkStorageToken { st_account_id : Z; st_token_id : Z }.

Record StorageBlock : Type := mkStorageBlock {
  sb_number : Z;
  sb_root_hash : bytes;
  sb_fee_account_id : Z;
  sb_unprocessed_prior_op_before : Z;
  sb_unprocessed_prior_op_after : Z;
  sb_block_size : Z;
}.

Record StateDb : Type := mkStateDb {
  t_accounts : list StorageAccount;
  t_tokens : list StorageToken;
  t_token_updates : list StorageAccountUpdate;
  t_token_updates_seq : Z;
  t_creates : list StorageAccountCreation;
  t_pubkey_updates : list StorageAccountPubkeyUpdate;
  t_pubkey_updates_seq : Z;
  t_blocks : list StorageBlock;
  t_operations : list StoredOperation;
  t_operations_seq : Z;
}.

Definition set_accounts (l : list StorageAccount) (db : StateDb) : StateDb :=
  mkStateDb l (t_tokens db) (t_token_updates db) (t_token_updates_seq db) (t_creates db) (t_pubkey_updates db)
    (t_pubkey_updates_seq db) (t_blocks db) (t_operations db) (t_operations_seq db).
Definition set_token_rows (l : list StorageToken) (db : StateDb) : StateDb :=
  mkStateDb (t_accounts db) l (t_token_updates db) (t_token_updates_seq db) (t_creates db) (t_pubkey_updates db)
    (t_pubkey_updates_seq db) (t_blocks db) (t_operations db) (t_operations_seq db).

(** ** [StorageAccountDiff] (diff.rs) *)

Inductive StorageAccountDiff : Type :=
| DAddToken (upd : StorageAccountUpdate)
| DRemoveToken (upd : StorageAccountUpdate)
| DCreate (upd : StorageAccountCreation)
| DDelete (upd : StorageAccountCreation)
| DChangePubKey (upd : StorageAccountPubkeyUpdate).

Definition diff_from_update (update : StorageAccountUpdate) : StorageAccountDiff :=
  if su_added update then DAddToken update else DRemoveToken update.
Definition diff_from_creation (create : StorageAccountCreation) : StorageAccountDiff :=
  if cr_is_create create then DCreate create else DDelete create.
Definition diff_from_pubkey (update : StorageAccountPubkeyUpdate) : StorageAccountDiff := DChangePubKey update.

(** [Address::from_slice] panics on another length. *)
Definition Address_from_slice (b : bytes) : outcome Address :=
  _ ← assert_that (length b =? 20)%nat "assertion failed: `(left == right)`"; Val b.
Definition expect_pubkey_hash (b : bytes) : outcome PubKeyHash :=
  match PubKeyHash_from_bytes b with
  | Val (Ok h) => Val h
  | Val (Err _) => Panic "PubkeyHash update from db deserialize"
  | Panic msg => Panic msg
  end.

Definition diff_into (self : StorageAccountDiff) : outcome (Z * AccountUpdate) :=
  match self with
  | DAddToken upd => Val (wrap 32 (su_account_id upd),
      AddToken (wrap 32 (su_old_nonce upd)) (wrap 32 (su_new_nonce upd)) (wrap 16 (su_token_id upd)))
  | DRemoveToken upd => Val (wrap 32 (su_account_id upd),
      RemoveToken (wrap 32 (su_old_nonce upd)) (wrap 32 (su_new_nonce upd)) (wrap 16 (su_token_id upd)))
  | DCreate upd => ad ← Address_from_slice (cr_address upd);
      Val (wrap 32 (cr_account_id upd), Create ad (wrap 32 (cr_nonce upd)))
  | DDelete upd => ad ← Address_from_slice (cr_address upd);
      Val (wrap 32 (cr_account_id upd), Delete ad (wrap 32 (cr_nonce upd)))
  | DChangePubKey upd =>
      old_pub_key_hash ← expect_pubkey_hash (sp_old_pubkey_hash upd);
      new_pub_key_hash ← expect_pubkey_hash (sp_new_pubkey_hash upd);
      Val (wrap 32 (sp_account_id upd),
        ChangePubKeyHash old_pub_key_hash new_pub_key_hash (wrap 32 (sp_old_nonce upd)) (wrap 32 (sp_new_nonce upd)))
  end.

Definition update_order_id (self : StorageAccountDiff) : Z :=
  match self with
  | DAddToken u | DRemoveToken u => su_update_order_id u
  | DCreate u | DDelete u => cr_update_order_id u
  | DChangePubKey u => sp_update_order_id u
  end.

Definition diff_block_number (self : StorageAccountDiff) : Z :=
  match self with
  | DAddToken u | DRemoveToken u => su_block_number u
  | DCreate u | DDelete u => cr_block_number u
  | DChangePubKey u => sp_block_number u
  end.

(** [cmp_order] is not [Greater]. *)
Definition cmp_order_le (self other : StorageAccountDiff) : bool :=
  (diff_block_number self <? diff_block_number other) ||
  ((diff_block_number self =? diff_block_number other) && (update_order_id self <=? update_order_id other)).

(** [sort_by], which is stable. *)
Section SortBy.
  Context {A : Type} (le : A → A → bool).

Fixpoint insert_sorted (x : A) (l : list A) : list A :=
  match l with
  | [] => [x]
  | y :: l => if le x y then x :: y :: l else y :: insert_sorted x l
  end.
Definition sort_by (l : list A) : list A := foldr insert_sorted [] l.
End SortBy.

(** [into_iter().map(..).collect()] of conversions that may panic. *)
Fixpoint map_outcome {A B} (f : A → outcome B) (l : list A) : outcome (list B) :=
  match l with
  | [] => Val []
  | x :: l => y ← f x; ys ← map_outcome f l; Val (y :: ys)
  end.

(** [account_diff], of the rows that a filter on the block numbers selects. *)
Definition account_diff (in_range : Z → bool) (db : StateDb) : list StorageAccountDiff :=
  (diff_from_update <$> List.filter (λ u, in_range (su_block_number u)) (t_token_updates db)) ++
  (diff_from_creation <$> List.filter (λ u, in_range (cr_block_number u)) (t_creates db)) ++
  (diff_from_pubkey <$> List.filter (λ u, in_range (sp_block_number u)) (t_pubkey_updates db)).

(** [select(max(..))]. *)
Definition max_of (l : list Z) : option Z :=
  foldr (λ x m, Some (match m with Some y => Z.max x y | None => x end)) None l.

(** Signed 32-bit integers. *)
Definition to_i32 (z : Z) : Z := if wrap 32 z <? 2 ^ 31 then wrap 32 z else wrap 32 z - 2 ^ 32.

Definition last_block_with (action : ActionType) (db : StateDb) : Z :=
  wrap 32 (default 0 (max_of (so_block_number <$>
    List.filter (λ o, bool_decide (so_action_type o = ActionType_to_string action)) (t_operations db)))).
Definition get_last_committed_block (db : StateDb) : Z := last_block_with COMMIT db.
Definition get_last_verified_block (db : StateDb) : Z := last_block_with VERIFY db.

(** [restore_account] *)
Fixpoint add_tokens (id : Z) (stored_tokens : list StorageToken) (account : Account) : outcome Account :=
  match stored_tokens with
  | [] => Val account
  | t :: stored_tokens =>
      _ ← assert_that (st_account_id t =? id) "assertion failed: `(left == right)`";
      add_tokens id stored_tokens (add_token (wrap 16 (st_token_id t)) account)
  end.

Definition restore_account (stored_account : StorageAccount) (stored_tokens : list StorageToken) :
    outcome (Z * Account) :=
  account ← add_tokens (sa_id stored_account) stored_tokens Account_default;
  ad ← Address_from_slice (sa_address stored_account);
  h ← match PubKeyHash_from_bytes (sa_pubkey_hash stored_account) with
      | Val (Ok h) => Val h
      | _ => Panic "db stored pubkey hash deserialize"
      end;
  Val (wrap 32 (sa_id stored_account),
       set_pub_key_hash h (set_address ad (set_nonce (wrap 32 (sa_nonce stored_account)) account))).

Definition tokens_belonging_to (account : StorageAccount) (db : StateDb) : list StorageToken :=
  List.filter (λ t, st_account_id t =? sa_id account) (t_tokens db).

(** ** The state schema (chain/state/mod.rs) *)
Module StateSchema.

(** One round of the loop of [commit_state_update]. *)
Definition commit_update (block_number : Z) (update_order_id : nat) (u : Z * AccountUpdate) (db : StateDb) :
    Fallible StateDb :=
  let '(id, upd) := u in
  let order_id := to_i32 (Z.of_nat update_order_id) in
  let insert_create (row : StorageAccountCreation) :=
    if existsb (λ r, (cr_account_id r =? cr_account_id row) && (cr_block_number r =? cr_block_number row)) (t_creates db)
    then Val (Err "duplicate key")
    else Val (Ok (mkStateDb (t_accounts db) (t_tokens db) (t_token_updates db) (t_token_updates_seq db)
                    (t_creates db ++ [row]) (t_pubkey_updates db) (t_pubkey_updates_seq db) (t_blocks db)
                    (t_operations db) (t_operations_seq db))) in
  let insert_update (added : bool) (old_nonce new_nonce token : Z) :=
    let row := mkStorageAccountUpdate (t_token_updates_seq db) id block_number old_nonce token added new_nonce order_id in
    Val (Ok (mkStateDb (t_accounts db) (t_tokens db) (t_token_updates db ++ [row]) (t_token_updates_seq db + 1)
               (t_creates db) (t_pubkey_updates db) (t_pubkey_updates_seq db) (t_blocks db)
               (t_operations db) (t_operations_seq db))) in
  match upd with
  | Create address nonce => insert_create (mkStorageAccountCreation id true block_number address nonce order_id)
  | Delete address nonce => insert_create (mkStorageAccountCreation id false block_number address nonce order_id)
  | AddToken old_nonce new_nonce token => insert_update true old_nonce new_nonce token
  | RemoveToken old_nonce new_nonce token => insert_update false old_nonce new_nonce token
  | ChangePubKeyHash old_pub_key_hash new_pub_key_hash old_nonce new_nonce =>
      let row := mkStorageAccountPubkeyUpdate (t_pubkey_updates_seq db) order_id id block_number
                   (pkh_data old_pub_key_hash) (pkh_data new_pub_key_hash) old_nonce new_nonce in
      Val (Ok (mkStateDb (t_accounts db) (t_tokens db) (t_token_updates db) (t_token_updates_seq db)
                 (t_creates db) (t_pubkey_updates db ++ [row]) (t_pubkey_updates_seq db + 1) (t_blocks db)
                 (t_operations db) (t_operations_seq db)))
  end.

Fixpoint commit_updates (block_number : Z) (update_order_id : nat) (us : AccountUpdates) (db : StateDb) : Fallible StateDb :=
  match us with
  | [] => Val (Ok db)
  | u :: us =>
      db ← commit_update block_number update_order_id u db;
      commit_updates block_number (S update_order_id) us db
  end.

Definition commit_state_update (block_number : Z) (accounts_updated : AccountUpdates) (db : StateDb) : Fallible StateDb :=
  commit_updates block_number 0 accounts_updated db.

(** [update(accounts::table.filter(id.eq(..))).set(..)] *)
Definition update_account (id last_block nonce : Z) (pubkey_hash : option bytes) (db : StateDb) : StateDb :=
  set_accounts ((λ a, if sa_id a =? id
                      then mkStorageAccount (sa_id a) last_block nonce (sa_address a) (default (sa_pubkey_hash a) pubkey_hash)
                      else a) <$> t_accounts db) db.

(** One round of the loop of [apply_state_update]. *)
Definition apply_diff (acc_update : StorageAccountDiff) (db : StateDb) : Fallible StateDb :=
  match acc_update with
  | DAddToken upd =>
      let row := mkStorageToken (su_account_id upd) (su_token_id upd) in
      if existsb (λ t, (st_account_id t =? su_account_id upd) && (st_token_id t =? su_token_id upd)) (t_tokens db)
      then Val (Err "duplicate key")
      else Val (Ok (update_account (su_account_id upd) (su_block_number upd) (su_new_nonce upd) None
                      (set_token_rows (t_tokens db ++ [row]) db)))
  | DRemoveToken upd =>
      let db := set_token_rows
        (List.filter (λ t, negb ((st_account_id t =? su_account_id upd) && (st_token_id t =? su_token_id upd))) (t_tokens db)) db in
      Val (Ok (update_account (su_account_id upd) (su_block_number upd) (su_new_nonce upd) None db))
  | DCreate upd =>
      if existsb (λ a, sa_id a =? cr_account_id upd) (t_accounts db)
      then Val (Err "duplicate key")
      else Val (Ok (set_accounts (t_accounts db ++ [mkStorageAccount (cr_account_id upd) (cr_block_number upd) (cr_nonce upd)
                                                       (cr_address upd) (pkh_data PubKeyHash_default)]) db))
  | DDelete upd =>
      Val (Ok (set_accounts (List.filter (λ a, negb (sa_id a =? cr_account_id upd)) (t_accounts db)) db))
  | DChangePubKey upd =>
      Val (Ok (update_account (sp_account_id upd) (sp_block_number upd) (sp_new_nonce upd) (Some (sp_new_pubkey_hash upd)) db))
  end.

Fixpoint apply_diffs (ds : list StorageAccountDiff) (db : StateDb) : Fallible StateDb :=
  match ds with
  | [] => Val (Ok db)
  | d :: ds => db ← apply_diff d db; apply_diffs ds db
  end.

Definition apply_state_update (block_number : Z) (db : StateDb) : Fallible StateDb :=
  apply_diffs (sort_by cmp_order_le (account_diff (λ b, b =? block_number) db)) db.

Definition load_verified_state (db : StateDb) : outcome (Z * AccountMap) :=
  let last_block := get_last_verified_block db in
  restored ← map_outcome (λ a, restore_account a (tokens_belonging_to a db)) (t_accounts db);
  Val (last_block, foldl (λ (m : AccountMap) p, <[p.1 := p.2]> m) ∅ restored).

Definition load_state_diff (from_block : Z) (to_block : option Z) (db : StateDb) : outcome (option (Z * AccountUpdates)) :=
  let to_block_resolved := match to_block with
    | Some to_block => to_block
    | None => match max_of (sb_number <$> t_blocks db) with Some n => wrap 32 n | None => 0 end
    end in
  let time_forward := from_block <=? to_block_resolved in
  let start_block := Z.min from_block to_block_resolved in
  let end_block := Z.max from_block to_block_resolved in
  let diff := account_diff (λ b, (start_block <? b) && (b <=? end_block)) db in
  let last_block := wrap 32 (default 0 (max_of (diff_block_number <$> diff))) in
  account_updates ← map_outcome diff_into (sort_by cmp_order_le diff);
  let account_updates := if time_forward then account_updates else reverse_updates account_updates in
  let block_after_updates := if time_forward then last_block else start_block in
  Val (match account_updates with
       | [] => None
       | _ => Some (block_after_updates, account_updates)
       end).

Definition load_committed_state (block : option Z) (db : StateDb) : outcome (Z * AccountMap) :=
  verified ← load_verified_state db;
  let '(verif_block, accounts) := verified in
  diff ← load_state_diff verif_block block db;
  match diff with
  | Some (block, state_diff) => Val (block, apply_updates accounts state_diff)
  | None => Val (verif_block, accounts)
  end.

Definition load_state_diff_for_block (block_number : Z) (db : StateDb) : outcome AccountUpdates :=
  diff ← load_state_diff (wrap 32 (block_number - 1)) (Some block_number) db;
  Val (match diff with Some d => d.2 | None => [] end).
End StateSchema.

(** ** The account schema (chain/account/mod.rs) *)
Module AccountSchema.

Definition get_account_and_last_block (account_id : Z) (db : StateDb) : outcome (Z * option Account) :=
  match head (List.filter (λ a, sa_id a =? account_id) (t_accounts db)) with
  | Some account =>
      restored ← restore_account account (tokens_belonging_to account db);
      Val (sa_last_block account, Some restored.2)
  | None => Val (0, None)
  end.

Definition last_verified_state_for_account (account_id : Z) (db : StateDb) : outcome (option Account) :=
  r ← get_account_and_last_block account_id db; Val r.2.

(** Token updates and creations of the account after its last block. *)
Definition committed_diff (account_id last_block : Z) (db : StateDb) : list StorageAccountDiff :=
  (diff_from_update <$> List.filter (λ u, (su_account_id u =? account_id) && (last_block <? su_block_number u)) (t_token_updates db)) ++
  (diff_from_creation <$> List.filter (λ u, (cr_account_id u =? account_id) && (last_block <? cr_block_number u)) (t_creates db)).

Definition last_committed_state_for_account (account_id : Z) (db : StateDb) : outcome (option Account) :=
  r ← get_account_and_last_block account_id db;
  let '(last_block, account) := r in
  updates ← map_outcome diff_into (sort_by cmp_order_le (committed_diff account_id last_block db));
  Val (foldl Account_apply_update account (snd <$> updates)).

Record StoredAccountState : Type := mkStoredAccountState {
  committed : option (Z * Account);
  verified : option (Z * Account);
}.

(** [order(block_number.desc()).first()]; of rows with one block number, the first. *)
Fixpoint latest_creation (l : list StorageAccountCreation) : option StorageAccountCreation :=
  match l with
  | [] => None
  | c :: l => match latest_creation l with
              | Some c' => Some (if cr_block_number c <? cr_block_number c' then c' else c)
              | None => Some c
              end
  end.

Definition account_state_by_address (address : Address) (db : StateDb) : outcome StoredAccountState :=
  match latest_creation (List.filter (λ c, bool_decide (cr_address c = address) && cr_is_create c) (t_creates db)) with
  | None => Val (mkStoredAccountState None None)
  | Some record =>
      let account_id := wrap 32 (cr_account_id record) in
      committed ← last_committed_state_for_account account_id db;
      verified ← last_verified_state_for_account account_id db;
      Val (mkStoredAccountState (pair account_id <$> committed) (pair account_id <$> verified))
  end.
End AccountSchema.
