(* ===== verification/StorageProofs.v ===== *)
(** * The state tables hold the history of the accounts

    The three tables of updates together hold the list of all account updates; every
    query on a range of blocks reads back a contiguous part of it, and the snapshot
    tables hold the accounts after the updates of the verified blocks. *)

From S2P Require Import Prelude Bytes Params Externals Account EthStorage Storage.
Open Scope Z_scope.

(** ** Sorting *)
Section Sorting.
  Context {A : Type} (le : A → A → bool).

Lemma insert_sorted_perm x l : insert_sorted le x l ≡ₚ x :: l.
Proof. induction l as [|y l IH]; cbn; [done|]. destruct (le x y); [done|]. by rewrite IH, Permutation_swap. Qed.

Lemma sort_by_perm l : sort_by le l ≡ₚ l.
Proof. induction l as [|x l IH]; cbn; [done|]. fold (sort_by le l). by rewrite insert_sorted_perm, IH. Qed.

Context (le_total : ∀ a b, le a b = false → le b a = true)
        (le_trans : ∀ a b c, le a b = true → le b c = true → le a c = true).

Lemma insert_sorted_sorted x l :
  StronglySorted (λ a b, le a b = true) l → StronglySorted (λ a b, le a b = true) (insert_sorted le x l).
Proof.
  induction 1 as [|y l Hl IH Hy]; cbn; [by repeat constructor|]. destruct (le x y) eqn:E.
  - constructor; [by constructor|]. constructor; [done|]. eapply Forall_impl; [exact Hy|]. intros z. by apply le_trans.
  - constructor; [done|]. rewrite insert_sorted_perm. constructor; [by apply le_total|done].
Qed.

Lemma sort_by_sorted l : StronglySorted (λ a b, le a b = true) (sort_by le l).
Proof. induction l as [|x l IH]; cbn; [constructor|]. by apply insert_sorted_sorted. Qed.

(** A strictly increasing list is the only sorted arrangement of its elements. *)
Lemma sort_by_unique l s :
  l ≡ₚ s → StronglySorted (λ a b, le a b = true ∧ le b a = false) s → sort_by le l = s.
Proof.
  intros Hp Hs. apply (StronglySorted_unique_strong (λ a b, le a b = true)).
  - intros x y Hx Hy H1 H2. rewrite sort_by_perm, Hp in Hx.
    clear Hp. induction Hs as [|z s Hs IH Hz]; [by apply not_elem_of_nil in Hx|].
    rewrite Forall_forall in Hz. apply elem_of_cons in Hx as [->|Hx], Hy as [->|Hy]; try done; [| |by apply IH].
    + destruct (Hz _ Hy). congruence.
    + destruct (Hz _ Hx). congruence.
  - apply sort_by_sorted.
  - clear Hp. induction Hs as [|z s Hs IH Hz]; constructor; [done|]. eapply Forall_impl; [exact Hz|]. by intros ? [].
  - by rewrite sort_by_perm.
Qed.
End Sorting.

Lemma cmp_order_total a b : cmp_order_le a b = false → cmp_order_le b a = true.
Proof. unfold cmp_order_le. intros H. apply orb_false_iff in H as [H1%Z.ltb_ge H2%andb_false_iff]. apply orb_true_iff.
  destruct (Z.eqb_spec (diff_block_number a) (diff_block_number b)) as [E|]; [|left; apply Z.ltb_lt; lia].
  right. rewrite E, Z.eqb_refl. destruct H2 as [|H2%Z.leb_gt]; [done|]. cbn. apply Z.leb_le. lia. Qed.

Definition diff_lt (a b : StorageAccountDiff) : Prop :=
  diff_block_number a < diff_block_number b ∨
  diff_block_number a = diff_block_number b ∧ update_order_id a < update_order_id b.

Lemma cmp_order_le_iff a b :
  cmp_order_le a b = true ↔ diff_block_number a < diff_block_number b ∨
    diff_block_number a = diff_block_number b ∧ update_order_id a ≤ update_order_id b.
Proof. unfold cmp_order_le. rewrite orb_true_iff, andb_true_iff, Z.ltb_lt, Z.eqb_eq, Z.leb_le. done. Qed.

Lemma cmp_order_trans a b c : cmp_order_le a b = true → cmp_order_le b c = true → cmp_order_le a c = true.
Proof. rewrite !cmp_order_le_iff. lia. Qed.

Lemma diff_lt_strict a b : diff_lt a b → cmp_order_le a b = true ∧ cmp_order_le b a = false.
Proof.
  intros H. split; [apply cmp_order_le_iff; unfold diff_lt in H; lia|].
  apply not_true_iff_false. rewrite cmp_order_le_iff. unfold diff_lt in H. lia.
Qed.

(** ** The rows of an update *)

Definition diff_row (block order serial : Z) (p : Z * AccountUpdate) : StorageAccountDiff :=
  let '(id, u) := p in
  match u with
  | Create ad n => DCreate (mkStorageAccountCreation id true block ad n order)
  | Delete ad n => DDelete (mkStorageAccountCreation id false block ad n order)
  | AddToken old new t => DAddToken (mkStorageAccountUpdate serial id block old t true new order)
  | RemoveToken old new t => DRemoveToken (mkStorageAccountUpdate serial id block old t false new order)
  | ChangePubKeyHash oh nh old new =>
      DChangePubKey (mkStorageAccountPubkeyUpdate serial order id block (pkh_data oh) (pkh_data nh) old new)
  end.

(** The widths of the Rust types. *)
Definition update_fits (p : Z * AccountUpdate) : Prop :=
  fits 32 p.1 ∧
  match p.2 with
  | Create ad n | Delete ad n => length ad = 20%nat ∧ fits 32 n
  | AddToken old new t | RemoveToken old new t => fits 32 old ∧ fits 32 new ∧ fits 16 t
  | ChangePubKeyHash oh nh old new =>
      length (pkh_data oh) = 20%nat ∧ length (pkh_data nh) = 20%nat ∧ fits 32 old ∧ fits 32 new
  end.

Lemma diff_row_block b k s p : diff_block_number (diff_row b k s p) = b.
Proof. by destruct p as [id []]. Qed.
Lemma diff_row_order b k s p : update_order_id (diff_row b k s p) = k.
Proof. by destruct p as [id []]. Qed.

Lemma Address_from_slice_ok b : length b = 20%nat → Address_from_slice b = Val b.
Proof. intros H. unfold Address_from_slice. by rewrite H. Qed.
Lemma PubKeyHash_from_bytes_ok h : length (pkh_data h) = 20%nat → PubKeyHash_from_bytes (pkh_data h) = Val (Ok h).
Proof. intros H. unfold PubKeyHash_from_bytes, FR_ADDRESS_LEN. rewrite H. by destruct h. Qed.

Lemma diff_into_row b k s p : update_fits p → diff_into (diff_row b k s p) = Val p.
Proof.
  destruct p as [id u]. intros [Hid Hu]. destruct u; cbn in *; destruct_and!; rewrite ?wrap_small by done.
  1,2: by rewrite Address_from_slice_ok.
  1,2: done.
  unfold expect_pubkey_hash. by rewrite !PubKeyHash_from_bytes_ok.
Qed.

(** ** What the tables of updates hold *)

Definition token_rows (d : StorageAccountDiff) : option StorageAccountUpdate :=
  match d with DAddToken u | DRemoveToken u => Some u | _ => None end.
Definition create_rows (d : StorageAccountDiff) : option StorageAccountCreation :=
  match d with DCreate u | DDelete u => Some u | _ => None end.
Definition pubkey_rows (d : StorageAccountDiff) : option StorageAccountPubkeyUpdate :=
  match d with DChangePubKey u => Some u | _ => None end.

(** The update [p] of block [b] and its row. *)
Definition is_row (e : Z * (Z * AccountUpdate)) (d : StorageAccountDiff) : Prop :=
  ∃ k s, d = diff_row e.1 k s e.2 ∧ update_fits e.2.

(** [hist]: all committed updates with their blocks, in order. *)
Record stored (hist : list (Z * (Z * AccountUpdate))) (ds : list StorageAccountDiff) (db : StateDb) : Prop := {
  sr_tokens : t_token_updates db = omap token_rows ds;
  sr_creates : t_creates db = omap create_rows ds;
  sr_pubkeys : t_pubkey_updates db = omap pubkey_rows ds;
  sr_rows : Forall2 is_row hist ds;
  sr_sorted : StronglySorted diff_lt ds;
}.

Definition updates_in (f : Z → bool) (hist : list (Z * (Z * AccountUpdate))) : AccountUpdates :=
  snd <$> List.filter (λ e, f e.1) hist.

Lemma account_diff_perm f hist ds db :
  stored hist ds db → account_diff f db ≡ₚ List.filter (λ d, f (diff_block_number d)) ds.
Proof.
  intros [H1 H2 H3 H4 _]. unfold account_diff. rewrite H1, H2, H3. clear H1 H2 H3.
  induction H4 as [|[b p] d hist ds (k & s & -> & _) _ IH]; [done|]. cbn [List.filter fst snd]. rewrite diff_row_block.
  destruct p as [id u]; destruct u; cbn; destruct (f b); cbn; rewrite <- IH; try done.
  all: solve_Permutation.
Qed.

(** A query on the blocks reads the updates of these blocks in order. *)
Lemma sorted_diff f hist ds db :
  stored hist ds db → sort_by cmp_order_le (account_diff f db) = List.filter (λ d, f (diff_block_number d)) ds.
Proof.
  intros H. apply sort_by_unique; [apply cmp_order_total|apply cmp_order_trans|by eapply account_diff_perm|].
  apply sorted_filter. eapply sorted_impl; [|apply (sr_sorted _ _ _ H)]. intros a b. apply diff_lt_strict.
Qed.

Lemma filter_rows f hist ds :
  Forall2 is_row hist ds →
  Forall2 is_row (List.filter (λ e, f e.1) hist) (List.filter (λ d, f (diff_block_number d)) ds).
Proof.
  induction 1 as [|[b p] d hist ds Hd _ IH]; cbn; [done|]. destruct Hd as (k & s & -> & Hp). cbn. rewrite diff_row_block.
  destruct (f b); [|done]. constructor; [by exists k, s|done].
Qed.

Lemma map_outcome_rows hist ds : Forall2 is_row hist ds → map_outcome diff_into ds = Val (snd <$> hist).
Proof.
  induction 1 as [|[b p] d hist ds (k & s & -> & Hp) _ IH]; [done|]. cbn in *. rewrite diff_into_row by done. cbn. by rewrite IH.
Qed.

Lemma loaded_updates f hist ds db :
  stored hist ds db →
  map_outcome diff_into (sort_by cmp_order_le (account_diff f db)) = Val (updates_in f hist).
Proof.
  intros H. rewrite (sorted_diff _ _ _ _ H). apply map_outcome_rows, filter_rows, H.
Qed.

(** ** Committing *)

Definition creates_id (p : Z * AccountUpdate) : option Z :=
  match p.2 with Create _ _ | Delete _ _ => Some p.1 | _ => None end.

Lemma to_i32_small z : 0 ≤ z < 2 ^ 31 → to_i32 z = z.
Proof. intros H. unfold to_i32. rewrite wrap_small by (unfold fits; lia). rewrite (proj2 (Z.ltb_lt _ _)) by lia. done. Qed.

(** Everything but the tables of updates. *)
Definition same_rest (db db' : StateDb) : Prop :=
  t_accounts db' = t_accounts db ∧ t_tokens db' = t_tokens db ∧ t_blocks db' = t_blocks db ∧
  t_operations db' = t_operations db ∧ t_operations_seq db' = t_operations_seq db.
#[global] Instance same_rest_preorder : PreOrder same_rest.
Proof. split; [done|]. unfold same_rest. intros a b c. intuition congruence. Qed.

Lemma stored_snoc hist ds db b k s p db' :
  stored hist ds db → update_fits p → Forall (λ d, diff_lt d (diff_row b k s p)) ds →
  t_token_updates db' = t_token_updates db ++ option_list (token_rows (diff_row b k s p)) →
  t_creates db' = t_creates db ++ option_list (create_rows (diff_row b k s p)) →
  t_pubkey_updates db' = t_pubkey_updates db ++ option_list (pubkey_rows (diff_row b k s p)) →
  stored (hist ++ [(b, p)]) (ds ++ [diff_row b k s p]) db'.
Proof.
  intros [H1 H2 H3 H4 H5] Hp Hlt E1 E2 E3.
  split; rewrite ?omap_app; cbn; [rewrite E1, H1|rewrite E2, H2|rewrite E3, H3| |by apply sorted_snoc].
  1-3: f_equal; by destruct (diff_row b k s p).
  apply Forall2_app; [done|]. constructor; [by exists k, s|done].
Qed.

Lemma commit_update_stored hist ds db b (k : nat) p :
  stored hist ds db → update_fits p → Z.of_nat k < 2 ^ 31 →
  Forall (λ d, diff_block_number d < b ∨ diff_block_number d = b ∧ update_order_id d < Z.of_nat k) ds →
  (∀ id e, creates_id p = Some id → e ∈ hist → e.1 = b → creates_id e.2 ≠ Some id) →
  ∃ s db', StateSchema.commit_update b k p db = Val (Ok db') ∧ same_rest db db' ∧
    stored (hist ++ [(b, p)]) (ds ++ [diff_row b (Z.of_nat k) s p]) db'.
Proof.
  intros Hs Hp Hk Hlt Hfresh. assert (∀ s, Forall (λ d, diff_lt d (diff_row b (Z.of_nat k) s p)) ds) as Hlt'.
  { intros s. eapply Forall_impl; [exact Hlt|]. intros d. unfold diff_lt. by rewrite diff_row_block, diff_row_order. }
  assert (∀ id, creates_id p = Some id →
    existsb (λ r, (cr_account_id r =? id) && (cr_block_number r =? b)) (t_creates db) = false) as Hex.
  { intros id Hid. apply existsb_false. intros r Hr. rewrite (sr_creates _ _ _ Hs) in Hr.
    apply list_elem_of_omap in Hr as (d & Hd & Er). destruct (Forall2_elem_r _ _ _ _ (sr_rows _ _ _ Hs) Hd) as ([b' [id' u]] & He & k' & s & -> & _).
    apply andb_false_iff. destruct (Z.eqb_spec (cr_account_id r) id) as [E1|]; [|by left].
    destruct (Z.eqb_spec (cr_block_number r) b) as [E2|]; [|by right]. exfalso.
    cbn in Er. destruct u; cbn in Er; simplify_eq; by eapply (Hfresh _ _ Hid He). }
  destruct p as [id u]. destruct u; cbn [StateSchema.commit_update cr_account_id cr_block_number]; rewrite to_i32_small by lia;
    cbn [creates_id snd fst] in Hex; try (rewrite (Hex id) by done).
  1,2: exists 0.
  3,4: exists (t_token_updates_seq db).
  5: exists (t_pubkey_updates_seq db).
  all: eexists; (split; [done|]); (split; [done|]).
  all: apply (stored_snoc _ _ db); [done|done|apply Hlt'|..]; cbn; by rewrite ?app_nil_r.
Qed.

Lemma commit_updates_stored hist us1 us2 ds db b :
  stored (hist ++ (pair b <$> us1)) ds db → Forall (λ e, e.1 < b) hist → Forall update_fits us2 →
  Forall (λ d, diff_block_number d < b ∨ diff_block_number d = b ∧ update_order_id d < Z.of_nat (length us1)) ds →
  NoDup (omap creates_id (us1 ++ us2)) → Z.of_nat (length (us1 ++ us2)) < 2 ^ 31 →
  ∃ ds' db', StateSchema.commit_updates b (length us1) us2 db = Val (Ok db') ∧ same_rest db db' ∧
    stored (hist ++ (pair b <$> us1 ++ us2)) ds' db'.
Proof.
  revert us1 ds db. induction us2 as [|p us2 IH]; intros us1 ds db Hs Hh Hf Hlt Hnd Hlen.
  { exists ds, db. by rewrite app_nil_r. }
  apply Forall_cons in Hf as [Hp Hf]. rewrite length_app in Hlen. cbn [length] in Hlen.
  destruct (commit_update_stored _ _ _ b (length us1) p Hs Hp) as (s & db1 & E1 & R1 & S1); [lia|done| |].
  { intros id [b' q] Hid [He|He]%elem_of_app Eb; cbn in *; [rewrite Forall_forall in Hh; specialize (Hh _ He); cbn in Hh; lia|].
    apply list_elem_of_fmap in He as (q' & [= _ ->] & Hq). intros Hq'. rewrite omap_app in Hnd. cbn in Hnd. rewrite Hid in Hnd.
    apply NoDup_app in Hnd as (_ & Hnd & _). apply (Hnd id); [|set_solver]. apply list_elem_of_omap. by exists q'. }
  replace (us1 ++ p :: us2) with ((us1 ++ [p]) ++ us2) in * by by rewrite <- app_assoc.
  cbn [StateSchema.commit_updates]. rewrite E1. cbn [mbind fallible_bind].
  destruct (IH (us1 ++ [p]) (ds ++ [diff_row b (Z.of_nat (length us1)) s p]) db1) as (ds' & db' & E2 & R2 & S2); [| | | |done| |].
  - rewrite fmap_app, app_assoc. exact S1.
  - done.
  - done.
  - apply Forall_app_2; [eapply Forall_impl; [exact Hlt|]; intros d; rewrite length_app; cbn; lia|].
    constructor; [|done]. rewrite diff_row_block, diff_row_order, length_app. cbn. lia.
  - rewrite !length_app. cbn. lia.
  - replace (S (length us1)) with (length (us1 ++ [p])) by (rewrite length_app; cbn; lia).
    exists ds', db'. split; [done|]. split; [by etrans|done].
Qed.

(** Committing a block appends its updates to the history. *)
Lemma commit_state_update_stored hist ds db b us :
  stored hist ds db → Forall (λ e, e.1 < b) hist → Forall update_fits us →
  NoDup (omap creates_id us) → Z.of_nat (length us) < 2 ^ 31 →
  ∃ ds' db', StateSchema.commit_state_update b us db = Val (Ok db') ∧ same_rest db db' ∧
    stored (hist ++ (pair b <$> us)) ds' db'.
Proof.
  intros Hs Hh Hf Hnd Hlen. apply (commit_updates_stored hist [] us ds); cbn; rewrite ?app_nil_r; try done.
  apply Forall_forall. intros d Hd. destruct (Forall2_elem_r _ _ _ _ (sr_rows _ _ _ Hs) Hd) as (e & He & k & s & -> & _).
  rewrite Forall_forall in Hh. left. rewrite diff_row_block. by apply Hh.
Qed.

(** ** The snapshot *)

Definition row_account (a : StorageAccount) (acc : Account) : Prop :=
  sa_nonce a = nonce acc ∧ sa_address a = address acc ∧ sa_pubkey_hash a = pkh_data (pub_key_hash acc) ∧
  fits 32 (sa_id a) ∧ fits 32 (nonce acc) ∧ length (address acc) = 20%nat ∧ length (pkh_data (pub_key_hash acc)) = 20%nat.

Record represents (db : StateDb) (m : AccountMap) : Prop := {
  rp_ids : NoDup (sa_id <$> t_accounts db);
  rp_row a : a ∈ t_accounts db → ∃ acc, m !! sa_id a = Some acc ∧ row_account a acc;
  rp_all id acc : m !! id = Some acc → ∃ a, a ∈ t_accounts db ∧ sa_id a = id;
  rp_tokens id t : mkStorageToken id t ∈ t_tokens db ↔ ∃ acc, m !! id = Some acc ∧ t ∈ tokens acc;
  rp_width id t : mkStorageToken id t ∈ t_tokens db → fits 16 t;
}.

Lemma add_tokens_ok id l acc :
  Forall (λ t, st_account_id t = id) l →
  add_tokens id l acc = Val (foldl (λ a t, add_token (wrap 16 (st_token_id t)) a) acc l).
Proof.
  revert acc. induction l as [|t l IH]; intros acc H; [done|]. apply Forall_cons in H as [<- H]. cbn.
  rewrite Z.eqb_refl. by apply IH.
Qed.

Lemma add_tokens_fields l acc :
  let acc' := foldl (λ a t, add_token (wrap 16 (st_token_id t)) a) acc l in
  address acc' = address acc ∧ nonce acc' = nonce acc ∧ pub_key_hash acc' = pub_key_hash acc ∧
  ∀ t, t ∈ tokens acc' ↔ t ∈ tokens acc ∨ ∃ r, r ∈ l ∧ t = wrap 16 (st_token_id r).
Proof.
  revert acc. induction l as [|r l IH]; intros acc; cbn; [set_solver|].
  destruct (IH (add_token (wrap 16 (st_token_id r)) acc)) as (-> & -> & -> & Ht). do 3 (split; [done|]).
  intros t. rewrite Ht. cbn. set_solver.
Qed.

Lemma restore_account_ok db m a acc :
  represents db m → a ∈ t_accounts db → m !! sa_id a = Some acc →
  restore_account a (tokens_belonging_to a db) = Val (sa_id a, acc).
Proof.
  intros Hr Ha Hm. destruct (rp_row _ _ Hr _ Ha) as (acc' & Hm' & Hn & Had & Hpk & F1 & F2 & L1 & L2).
  rewrite Hm in Hm'. injection Hm' as <-. unfold restore_account.
  assert (∀ r, r ∈ tokens_belonging_to a db ↔ r ∈ t_tokens db ∧ st_account_id r = sa_id a) as Hbel.
  { intros r. unfold tokens_belonging_to. by rewrite list_elem_of_In, List.filter_In, <- list_elem_of_In, Z.eqb_eq. }
  rewrite add_tokens_ok by (apply Forall_forall; intros r; rewrite Hbel; by intros []).
  set (acc0 := foldl _ _ _). destruct (add_tokens_fields (tokens_belonging_to a db) Account_default) as (_ & _ & _ & Ht).
  fold acc0 in Ht. cbn [mbind outcome_bind]. rewrite Had, Address_from_slice_ok by done. cbn [mbind outcome_bind].
  rewrite Hpk, PubKeyHash_from_bytes_ok by done. cbn [mbind outcome_bind]. rewrite Hn, !wrap_small by done. do 2 f_equal.
  apply Account_ext; cbn; try done. apply set_eq. intros t. rewrite Ht. split.
  - intros [?%elem_of_empty|(r & [Hin Hid]%Hbel & ->)]; [done|]. destruct r as [id t0]. cbn in *. subst id.
    rewrite wrap_small by (by eapply (rp_width _ _ Hr)). apply (rp_tokens _ _ Hr) in Hin as (acc2 & Hm2 & ?). by simplify_eq.
  - intros Hin. right. assert (mkStorageToken (sa_id a) t ∈ t_tokens db) as Hrow by (apply (rp_tokens _ _ Hr); eauto).
    exists (mkStorageToken (sa_id a) t). split; [by apply Hbel|]. cbn. by rewrite wrap_small by (by eapply (rp_width _ _ Hr)).
Qed.

(** Loading the snapshot. *)
Lemma load_verified_represents db m :
  represents db m → StateSchema.load_verified_state db = Val (get_last_verified_block db, m).
Proof.
  intros Hr. unfold StateSchema.load_verified_state.
  assert (map_outcome (λ a, restore_account a (tokens_belonging_to a db)) (t_accounts db) =
    Val ((λ a, (sa_id a, default Account_default (m !! sa_id a))) <$> t_accounts db)) as ->.
  { assert (∀ l, l ⊆ t_accounts db → map_outcome (λ a, restore_account a (tokens_belonging_to a db)) l =
      Val ((λ a, (sa_id a, default Account_default (m !! sa_id a))) <$> l)) as H; [|by apply H].
    induction l as [|a l IH]; intros Hsub; [done|]. cbn. destruct (rp_row _ _ Hr a ltac:(set_solver)) as (acc & Hm & _).
    rewrite (restore_account_ok _ _ a acc Hr ltac:(set_solver) Hm), Hm. cbn. rewrite IH by set_solver. done. }
  cbn. do 2 f_equal. apply map_eq. intros id.
  assert (∀ l (m0 : AccountMap), foldl (λ (m : AccountMap) p, <[p.1 := p.2]> m) m0 ((λ a, (sa_id a, default Account_default (m !! sa_id a))) <$> l) !! id =
    if decide (id ∈ sa_id <$> l) then Some (default Account_default (m !! id)) else m0 !! id) as Hfold.
  { induction l as [|a l IH]; intros m0; cbn; [by rewrite decide_False by set_solver|]. rewrite IH.
    destruct (decide (id ∈ sa_id <$> l)); [by rewrite decide_True by set_solver|].
    destruct (decide (id = sa_id a)) as [->|]; [rewrite decide_True by set_solver; by rewrite lookup_insert_eq|].
    rewrite decide_False by set_solver. by rewrite lookup_insert_ne. }
  rewrite Hfold. case_decide as Hin.
  - apply list_elem_of_fmap in Hin as (a & -> & Ha). destruct (rp_row _ _ Hr _ Ha) as (acc & -> & _). done.
  - rewrite lookup_empty. destruct (m !! id) as [acc|] eqn:E; [|done]. exfalso. apply Hin.
    destruct (rp_all _ _ Hr _ _ E) as (a & Ha & <-). by apply list_elem_of_fmap_2.
Qed.

(** The tables that a snapshot update leaves alone. *)
Definition same_updates (db db' : StateDb) : Prop :=
  t_token_updates db' = t_token_updates db ∧ t_creates db' = t_creates db ∧ t_pubkey_updates db' = t_pubkey_updates db ∧
  t_blocks db' = t_blocks db ∧ t_operations db' = t_operations db ∧ t_operations_seq db' = t_operations_seq db.
#[global] Instance same_updates_preorder : PreOrder same_updates.
Proof. split; [done|]. unfold same_updates. intros a b c. intuition congruence. Qed.

(** Changing the account of a row. *)
Lemma update_account_represents db m id acc acc' b pk rows :
  represents db m → m !! id = Some acc → address acc' = address acc →
  pkh_data (pub_key_hash acc') = default (pkh_data (pub_key_hash acc)) pk →
  fits 32 (nonce acc') → length (pkh_data (pub_key_hash acc')) = 20%nat →
  (∀ t, mkStorageToken id t ∈ rows ↔ t ∈ tokens acc') → (∀ t, mkStorageToken id t ∈ rows → fits 16 t) →
  (∀ i t, i ≠ id → mkStorageToken i t ∈ rows ↔ mkStorageToken i t ∈ t_tokens db) →
  represents (StateSchema.update_account id b (nonce acc') pk (set_token_rows rows db)) (<[id := acc']> m).
Proof.
  intros [H1 H2 H3 H4 H5] Hm Had Hpk Hn Hlen Hrows Hw Hother. unfold StateSchema.update_account. set (g := λ a, _).
  assert (∀ a, sa_id (g a) = sa_id a) as Hg by (intros a; unfold g; by destruct (_ =? _)).
  split; cbn.
  - rewrite <- list_fmap_compose. erewrite list_fmap_ext; [exact H1|]. intros i a _. apply Hg.
  - intros a (a0 & -> & Ha)%list_elem_of_fmap. rewrite Hg. destruct (H2 _ Ha) as (acc0 & Hm0 & R).
    destruct (decide (sa_id a0 = id)) as [E|E].
    + exists acc'. rewrite E, lookup_insert_eq. split; [done|]. rewrite E in Hm0. simplify_eq.
      destruct R as (R1 & R2 & R3 & R4 & R5 & R6 & R7). unfold g. rewrite Z.eqb_refl. unfold row_account. cbn.
      rewrite Had, Hpk, R2. destruct pk; cbn in *; split_and!; congruence || done.
    + exists acc0. rewrite lookup_insert_ne by done. split; [done|]. unfold g. by rewrite (proj2 (Z.eqb_neq _ _)).
  - intros i acc0 [[<- <-]|[Hne Hm0]]%lookup_insert_Some.
    + destruct (H3 _ _ Hm) as (a & Ha & Hid). exists (g a). rewrite Hg. split; [by apply list_elem_of_fmap_2|done].
    + destruct (H3 _ _ Hm0) as (a & Ha & Hid). exists (g a). rewrite Hg. split; [by apply list_elem_of_fmap_2|done].
  - intros i t. destruct (decide (i = id)) as [->|Hne].
    + rewrite Hrows, lookup_insert_eq. split; [eauto|]. intros (? & [= <-] & ?). done.
    + rewrite Hother, lookup_insert_ne by done. apply H4.
  - intros i t. destruct (decide (i = id)) as [->|Hne]; [apply Hw|]. rewrite Hother by done. apply H5.
Qed.

#[local] Arguments apply_update_to_map : simpl never.

Lemma apply_update_Some m id u acc :
  Account_apply_update (m !! id) u = Some acc → apply_update_to_map m (id, u) = <[id := acc]> m.
Proof. intros H. unfold apply_update_to_map. rewrite H. apply insert_delete_eq. Qed.

Lemma token_exists_false db m id t acc :
  represents db m → m !! id = Some acc → t ∉ tokens acc →
  existsb (λ r, (st_account_id r =? id) && (st_token_id r =? t)) (t_tokens db) = false.
Proof.
  intros Hr Hm Ht. apply existsb_false. intros [i x] Hin. cbn. apply andb_false_iff.
  destruct (Z.eqb_spec i id) as [->|]; [|by left]. right. apply Z.eqb_neq. intros ->. apply Ht.
  apply (rp_tokens _ _ Hr) in Hin as (acc' & ? & ?). by simplify_eq.
Qed.

Lemma create_represents db m id b ad n :
  represents db m → m !! id = None → fits 32 id → length ad = 20%nat → fits 32 n →
  represents (set_accounts (t_accounts db ++ [mkStorageAccount id b n ad (pkh_data PubKeyHash_default)]) db)
    (<[id := set_nonce n (set_address ad Account_default)]> m).
Proof.
  intros [H1 H2 H3 H4 H5] Hm Fid F1 F2.
  assert (∀ a, a ∈ t_accounts db → sa_id a ≠ id) as Hne.
  { intros a Ha E. destruct (H2 _ Ha) as (acc & Hacc & _). congruence. }
  split; cbn.
  - rewrite fmap_app. cbn. apply NoDup_app. split; [done|]. split; [|by apply NoDup_singleton].
    intros i Hi ->%list_elem_of_singleton. apply list_elem_of_fmap in Hi as (a & E & Ha). by apply (Hne a).
  - intros a [Ha| ->%list_elem_of_singleton]%elem_of_app.
    + rewrite lookup_insert_ne by (by apply not_eq_sym, Hne). by apply H2.
    + cbn. eexists. rewrite lookup_insert_eq. split; [done|]. by split_and!.
  - intros i acc [[<- <-]|[Hni Hacc]]%lookup_insert_Some.
    + eexists. split; [apply elem_of_app; right; by apply list_elem_of_singleton|]. done.
    + destruct (H3 _ _ Hacc) as (a & Ha & ?). exists a. split; [set_solver|done].
  - intros i t. rewrite H4. destruct (decide (i = id)) as [->|].
    + rewrite Hm, lookup_insert_eq. split; [by intros (? & ? & _)|]. intros (? & [= <-] & Ht). cbn in Ht. set_solver.
    + by rewrite lookup_insert_ne.
  - exact H5.
Qed.

Lemma delete_represents db m id ad n :
  represents db m → m !! id = Some (set_nonce n (set_address ad Account_default)) →
  represents (set_accounts (List.filter (λ a, negb (sa_id a =? id)) (t_accounts db)) db) (delete id m).
Proof.
  intros [H1 H2 H3 H4 H5] Hm.
  assert (∀ a, a ∈ List.filter (λ a, negb (sa_id a =? id)) (t_accounts db) ↔ a ∈ t_accounts db ∧ sa_id a ≠ id) as Hf.
  { intros a. by rewrite !list_elem_of_In, List.filter_In, negb_true_iff, Z.eqb_neq. }
  split; cbn.
  - by apply filter_keys_NoDup.
  - intros a [Ha Hne]%Hf. rewrite lookup_delete_ne by done. by apply H2.
  - intros i acc [Hne Hacc]%lookup_delete_Some. destruct (H3 _ _ Hacc) as (a & Ha & <-). exists a. split; [apply Hf; by split|done].
  - intros i t. rewrite H4. destruct (decide (i = id)) as [->|].
    + rewrite Hm, lookup_delete_eq. split; [|by intros (? & ? & _)]. intros (? & [= <-] & Ht). cbn in Ht. set_solver.
    + by rewrite lookup_delete_ne.
  - exact H5.
Qed.

Lemma apply_diff_represents db m b k s p :
  represents db m → update_fits p → update_valid (m !! p.1) p.2 →
  ∃ db', StateSchema.apply_diff (diff_row b k s p) db = Val (Ok db') ∧ same_updates db db' ∧
    represents db' (apply_update_to_map m p).
Proof.
  intros Hr [Fid Fu] Hv. destruct p as [id u]. cbn in *.
  destruct u as [ad n|ad n|old new t|old new t|oh nh old new]; cbn [diff_row StateSchema.apply_diff]; cbn in Hv.
  - destruct (m !! id) eqn:Hm; [done|]. destruct Fu as [F1 F2]. cbn. rewrite existsb_false.
    2:{ intros a Ha. apply Z.eqb_neq. intros E. destruct (rp_row _ _ Hr _ Ha) as (acc & Hacc & _). congruence. }
    eexists. split; [done|]. split; [done|]. rewrite (apply_update_Some _ _ _ (set_nonce n (set_address ad Account_default)))
      by (by rewrite Hm). by apply create_represents.
  - destruct (m !! id) as [acc|] eqn:Hm; [|done]. subst acc. eexists. split; [done|]. split; [done|].
    assert (apply_update_to_map m (id, Delete ad n) = delete id m) as -> by (unfold apply_update_to_map; by rewrite Hm).
    by eapply delete_represents.
  - destruct (m !! id) as [acc|] eqn:Hm; [|done]. destruct Hv as [_ Ht], Fu as (F1 & F2 & F3). cbn.
    rewrite (token_exists_false _ _ _ _ _ Hr Hm Ht). eexists. split; [done|]. split; [done|].
    destruct (rp_all _ _ Hr _ _ Hm) as (a & Ha & Hid). destruct (rp_row _ _ Hr _ Ha) as (acc1 & Hm0 & R). subst id. rewrite Hm in Hm0. injection Hm0 as <-.
    rewrite (apply_update_Some _ _ _ (set_nonce new (add_token t acc))) by (by rewrite Hm).
    apply (update_account_represents db m (sa_id a) acc (set_nonce new (add_token t acc)) b None); try done; [apply R|..].
    + intros t'. rewrite elem_of_app, (rp_tokens _ _ Hr), list_elem_of_singleton. cbn.
      split; [intros [(? & ? & ?)|[= ->]]; simplify_eq; set_solver|].
      intros [->%elem_of_singleton|?]%elem_of_union; [by right|left; eauto].
    + intros t' [Hin|[= ->]%list_elem_of_singleton]%elem_of_app; [by eapply (rp_width _ _ Hr)|done].
    + intros i t' Hne. rewrite elem_of_app, list_elem_of_singleton. split; [intros [?|[= -> ->]]; done|by left].
  - destruct (m !! id) as [acc|] eqn:Hm; [|done]. destruct Hv as [_ Ht], Fu as (F1 & F2 & F3).
    eexists. split; [done|]. split; [done|]. cbn.
    destruct (rp_all _ _ Hr _ _ Hm) as (a & Ha & Hid). destruct (rp_row _ _ Hr _ Ha) as (acc1 & Hm0 & R). subst id. rewrite Hm in Hm0. injection Hm0 as <-.
    rewrite (apply_update_Some _ _ _ (set_nonce new (remove_token t acc))) by (by rewrite Hm).
    assert (∀ i x, mkStorageToken i x ∈ List.filter (λ r, negb ((st_account_id r =? sa_id a) && (st_token_id r =? t))) (t_tokens db) ↔
      mkStorageToken i x ∈ t_tokens db ∧ ¬ (i = sa_id a ∧ x = t)) as Hf.
    { intros i x. rewrite !list_elem_of_In, List.filter_In, negb_true_iff. cbn. rewrite andb_false_iff, !Z.eqb_neq.
      destruct (decide (i = sa_id a)); tauto. }
    apply (update_account_represents db m (sa_id a) acc (set_nonce new (remove_token t acc)) b None); try done; [apply R|..].
    + intros t'. rewrite Hf, (rp_tokens _ _ Hr). cbn. split.
      * intros [(? & ? & ?) Hn]. simplify_eq. apply elem_of_difference. split; [done|]. intros ->%elem_of_singleton. by apply Hn.
      * intros [? Hn]%elem_of_difference. split; [eauto|]. intros [_ ->]. by apply Hn, elem_of_singleton.
    + intros t' [Hin _]%Hf. by eapply (rp_width _ _ Hr).
    + intros i t' Hne. rewrite Hf. naive_solver.
  - destruct (m !! id) as [acc|] eqn:Hm; [|done]. destruct Fu as (F1 & F2 & F3 & F4).
    eexists. split; [done|]. split; [done|]. cbn.
    rewrite (apply_update_Some _ _ _ (set_nonce new (set_pub_key_hash nh acc))) by (by rewrite Hm).
    assert (db = set_token_rows (t_tokens db) db) as Edb by (by destruct db). rewrite Edb at 1. clear Edb.
    apply (update_account_represents db m id acc (set_nonce new (set_pub_key_hash nh acc)) b (Some (pkh_data nh))); try done.
    + intros t. rewrite (rp_tokens _ _ Hr), Hm. cbn. split; [intros (? & [= <-] & ?); done|eauto].
    + intros t Hin. by eapply (rp_width _ _ Hr).
Qed.

(** ** The state after a block *)

Definition state_at (hist : list (Z * (Z * AccountUpdate))) (b : Z) : AccountMap :=
  apply_updates ∅ (updates_in (λ x, x <=? b) hist).
Definition between (a b : Z) (x : Z) : bool := (a <? x) && (x <=? b).

Lemma is_row_block e d : is_row e d → diff_block_number d = e.1.
Proof. intros (k & s & -> & _). apply diff_row_block. Qed.

Lemma hist_sorted hist ds db : stored hist ds db → StronglySorted (λ e e', e.1 ≤ e'.1) hist.
Proof.
  intros [_ _ _ Hr Hs]. induction Hr as [|e d hist ds Hd Hr IH]; [constructor|].
  apply StronglySorted_inv in Hs as [Hs Hall]. constructor; [by apply IH|]. apply Forall_forall. intros e' He'.
  apply list_elem_of_lookup in He' as [i Hi]. destruct (Forall2_lookup_l _ _ _ _ _ Hr Hi) as (d' & Hd' & Hrow).
  rewrite Forall_forall in Hall. apply list_elem_of_lookup_2, Hall in Hd'. unfold diff_lt in Hd'.
  rewrite (is_row_block _ _ Hd), (is_row_block _ _ Hrow) in Hd'. lia.
Qed.

Lemma updates_split hist a b :
  StronglySorted (λ e e', e.1 ≤ e'.1) hist → a ≤ b →
  updates_in (λ x, x <=? b) hist = updates_in (λ x, x <=? a) hist ++ updates_in (between a b) hist.
Proof.
  intros Hs Hab. induction Hs as [|e hist _ IH Hall]; [done|]. unfold updates_in in *. cbn [List.filter].
  unfold between at 1. destruct (Z.leb_spec e.1 a).
  - rewrite (proj2 (Z.leb_le e.1 b)), (proj2 (Z.ltb_ge _ _)) by lia. cbn. by rewrite IH.
  - rewrite (proj2 (Z.ltb_lt _ _)) by lia. cbn [andb]. rewrite (filter_none (λ e, e.1 <=? a)) in *.
    + destruct (e.1 <=? b); cbn; [f_equal|]; exact IH.
    + intros e' He'. rewrite Forall_forall in Hall. specialize (Hall _ He'). apply Z.leb_gt. lia.
    + intros e' He'. rewrite Forall_forall in Hall. specialize (Hall _ He'). apply Z.leb_gt. lia.
Qed.

Lemma state_at_split hist a b :
  StronglySorted (λ e e', e.1 ≤ e'.1) hist → a ≤ b →
  state_at hist b = apply_updates (state_at hist a) (updates_in (between a b) hist).
Proof. intros Hs Hab. unfold state_at. by rewrite (updates_split _ a b), apply_updates_app. Qed.

Lemma filter_all {A} (f : A → bool) l : (∀ x, x ∈ l → f x = true) → List.filter f l = l.
Proof. induction l as [|x l IH]; intros H; [done|]. cbn. rewrite H by set_solver. rewrite IH by set_solver. done. Qed.

(** Every prefix of a valid history is valid. *)
Lemma valid_prefix hist b c :
  StronglySorted (λ e e', e.1 ≤ e'.1) hist → updates_valid ∅ (snd <$> hist) → b ≤ c →
  updates_valid (state_at hist b) (updates_in (between b c) hist).
Proof.
  intros Hs Hv Hbc. set (top := Z.max c (foldr Z.max 0 (fst <$> hist))).
  assert (snd <$> hist = updates_in (λ x, x <=? top) hist) as E.
  { unfold updates_in. rewrite filter_all; [done|]. intros e He. apply Z.leb_le. unfold top.
    assert (e.1 ≤ foldr Z.max 0 (fst <$> hist)); [|lia]. clear -He. induction hist as [|e' hist IH]; [by apply not_elem_of_nil in He|].
    cbn. apply elem_of_cons in He as [->|He]; [lia|]. specialize (IH He). lia. }
  rewrite E, (updates_split _ c top), (updates_split _ b c) in Hv by (done || lia).
  apply updates_valid_app in Hv as [Hv _]. by apply updates_valid_app in Hv as [_ Hv].
Qed.

(** ** Verifying *)

Lemma apply_diffs_represents hist ds db m :
  Forall2 is_row hist ds → represents db m → updates_valid m (snd <$> hist) →
  ∃ db', StateSchema.apply_diffs ds db = Val (Ok db') ∧ same_updates db db' ∧
    represents db' (apply_updates m (snd <$> hist)).
Proof.
  intros Hr. revert db m. induction Hr as [|[b p] d hist ds (k & s & -> & Hp) _ IH]; intros db m Hm Hv; [by exists db|].
  cbn in *. destruct p as [id u]. destruct Hv as [Hu Hv].
  destruct (apply_diff_represents db m b k s (id, u) Hm Hp Hu) as (db1 & E1 & S1 & R1). rewrite E1.
  destruct (IH db1 _ R1 Hv) as (db2 & E2 & S2 & R2). exists db2. split; [done|]. split; [by etrans|done].
Qed.

Lemma stored_same hist ds db db' : same_updates db db' → stored hist ds db → stored hist ds db'.
Proof. intros (H1 & H2 & H3 & _) [S1 S2 S3 S4 S5]. split; congruence. Qed.

(** Verifying the next block with updates moves the snapshot to it. *)
Lemma apply_state_update_represents hist ds db v b :
  stored hist ds db → updates_valid ∅ (snd <$> hist) → represents db (state_at hist v) → v < b →
  (∀ e, e ∈ hist → e.1 ≤ v ∨ b ≤ e.1) →
  ∃ db', StateSchema.apply_state_update b db = Val (Ok db') ∧ same_updates db db' ∧ stored hist ds db' ∧
    represents db' (state_at hist b).
Proof.
  intros Hs Hv Hr Hvb Hgap. pose proof (hist_sorted _ _ _ Hs) as Hsort.
  unfold StateSchema.apply_state_update. rewrite (sorted_diff _ _ _ _ Hs).
  assert (updates_in (between v b) hist = updates_in (λ x, x =? b) hist) as E.
  { unfold updates_in. f_equal. clear -Hgap Hvb. induction hist as [|e hist IH]; [done|]. cbn.
    assert (between v b e.1 = (e.1 =? b)) as ->.
    { unfold between. destruct (Hgap e) as [H|H]; [set_solver| |]; apply eq_true_iff_eq; rewrite andb_true_iff, Z.ltb_lt, Z.leb_le, Z.eqb_eq; lia. }
    rewrite IH by set_solver. done. }
  rewrite (state_at_split _ v b) by (done || lia). pose proof (valid_prefix hist v b Hsort Hv ltac:(lia)) as Hvp. rewrite E in Hvp |- *.
  destruct (apply_diffs_represents (List.filter (λ e, e.1 =? b) hist) _ db _ (filter_rows (λ x, x =? b) _ _ (sr_rows _ _ _ Hs)) Hr Hvp)
    as (db' & E' & S' & R'). exists db'. split; [done|]. split; [done|]. split; [by eapply stored_same|done].
Qed.

(** ** Loading the state of a block *)

Lemma max_of_perm l l' : l ≡ₚ l' → max_of l = max_of l'.
Proof.
  induction 1 as [|x l l' _ IH|x y l|]; cbn; [done| | |congruence].
  - fold (max_of l) (max_of l'). by rewrite IH.
  - fold (max_of l). destruct (max_of l); f_equal; lia.
Qed.

Lemma max_of_elem l x : max_of l = Some x → x ∈ l.
Proof.
  revert x. induction l as [|y l IH]; intros x; [done|]. cbn. fold (max_of l). destruct (max_of l) as [z|]; intros [= <-]; [|by left].
  destruct (Z.max_spec y z) as [[_ ->]|[_ ->]]; [right; by apply IH|by left].
Qed.

Definition last_update (f : Z → bool) (hist : list (Z * (Z * AccountUpdate))) : option Z :=
  max_of (fst <$> List.filter (λ e, f e.1) hist).

Lemma diff_last_block f hist ds db :
  stored hist ds db → max_of (diff_block_number <$> account_diff f db) = last_update f hist.
Proof.
  intros H. rewrite (max_of_perm _ _ (fmap_Permutation _ _ _ (account_diff_perm f _ _ _ H))). unfold last_update. f_equal.
  induction (filter_rows f _ _ (sr_rows _ _ _ H)) as [|e d l l' Hd _ IH]; cbn; [done|]. by rewrite (is_row_block _ _ Hd), IH.
Qed.

Lemma last_update_None f hist : last_update f hist = None ↔ updates_in f hist = [].
Proof.
  unfold last_update, updates_in. destruct (List.filter (λ e, f e.1) hist) as [|e l]; [done|]. cbn.
  split; [|done]. by destruct (foldr _ _ _).
Qed.

Lemma load_state_diff_spec hist ds db a b :
  stored hist ds db → Forall (λ e, fits 32 e.1) hist →
  StateSchema.load_state_diff a (Some b) db = Val (
    if a <=? b
    then (λ n, (n, updates_in (between a b) hist)) <$> last_update (between a b) hist
    else (λ _, (b, reverse_updates (updates_in (between b a) hist))) <$> last_update (between b a) hist).
Proof.
  intros Hs Hfit. unfold StateSchema.load_state_diff. rewrite (loaded_updates _ _ _ _ Hs), (diff_last_block _ _ _ _ Hs).
  cbn [mbind outcome_bind]. destruct (Z.leb_spec a b) as [Hab|Hab].
  - rewrite Z.min_l, Z.max_r by lia. fold (between a b). change (λ b0, (a <? b0) && (b0 <=? b)) with (between a b).
    destruct (last_update (between a b) hist) as [n|] eqn:E; cbn.
    + assert (fits 32 n) as Hn.
      { apply max_of_elem, list_elem_of_fmap in E as (e & -> & He). apply list_elem_of_In, List.filter_In in He as [He _].
        rewrite Forall_forall in Hfit. by apply Hfit, list_elem_of_In. }
      rewrite wrap_small by done. destruct (updates_in (between a b) hist) eqn:U; [|done].
      apply last_update_None in U. congruence.
    + apply last_update_None in E. by rewrite E.
  - rewrite Z.min_r, Z.max_l by lia. change (λ b0, (b <? b0) && (b0 <=? a)) with (between b a).
    destruct (last_update (between b a) hist) as [n|] eqn:E; cbn.
    + destruct (updates_in (between b a) hist) as [|u us] eqn:U; [apply last_update_None in U; congruence|].
      rewrite reverse_updates_cons. by destruct (reverse_updates us).
    + apply last_update_None in E. by rewrite E.
Qed.

(** [load_committed_state] finds the accounts after any block, before or after the verified one. *)
Lemma load_committed_state_spec hist ds db b :
  let v := get_last_verified_block db in
  stored hist ds db → Forall (λ e, fits 32 e.1) hist → updates_valid ∅ (snd <$> hist) → represents db (state_at hist v) →
  StateSchema.load_committed_state (Some b) db = Val (
    (if v <=? b then default v (last_update (between v b) hist)
     else match last_update (between b v) hist with Some _ => b | None => v end), state_at hist b).
Proof.
  intros v Hs Hfit Hval Hr. pose proof (hist_sorted _ _ _ Hs) as Hsort. unfold StateSchema.load_committed_state.
  rewrite (load_verified_represents _ _ Hr). cbn [mbind outcome_bind]. fold v. rewrite (load_state_diff_spec _ _ _ _ _ Hs Hfit).
  cbn [mbind outcome_bind]. destruct (Z.leb_spec v b) as [Hvb|Hvb].
  - rewrite (state_at_split hist v b) by done. destruct (last_update (between v b) hist) eqn:E; cbn; [done|].
    apply last_update_None in E. by rewrite E.
  - rewrite (state_at_split hist b v) by (done || lia). destruct (last_update (between b v) hist) eqn:E; cbn.
    + rewrite reverse_updates_restore; [done|]. by apply valid_prefix; [..|lia].
    + apply last_update_None in E. by rewrite E.
Qed.

(** ** One account *)

Definition is_key_change (p : Z * AccountUpdate) : bool :=
  match p.2 with ChangePubKeyHash _ _ _ _ => true | _ => false end.

Definition account_updates_after (id last : Z) (hist : list (Z * (Z * AccountUpdate))) : list (Z * (Z * AccountUpdate)) :=
  List.filter (λ e, (e.2.1 =? id) && (last <? e.1)) hist.

(** The rows that [last_committed_state_for_account] selects: those of key changes are missing. *)
Definition selects (id last : Z) (d : StorageAccountDiff) : bool :=
  match d with
  | DAddToken u | DRemoveToken u => (su_account_id u =? id) && (last <? su_block_number u)
  | DCreate u | DDelete u => (cr_account_id u =? id) && (last <? cr_block_number u)
  | DChangePubKey _ => false
  end.

Lemma committed_diff_perm id last hist ds db :
  stored hist ds db → AccountSchema.committed_diff id last db ≡ₚ List.filter (selects id last) ds.
Proof.
  intros [H1 H2 _ H4 _]. unfold AccountSchema.committed_diff. rewrite H1, H2. clear H1 H2.
  induction H4 as [|[b p] d hist ds (k & s & -> & _) _ IH]; [done|].
  destruct p as [i u]; destruct u; cbn; try (destruct ((i =? id) && (last <? b))); cbn; rewrite <- IH; try done.
  all: solve_Permutation.
Qed.

Lemma committed_updates id last hist ds db :
  stored hist ds db →
  map_outcome diff_into (sort_by cmp_order_le (AccountSchema.committed_diff id last db)) =
  Val (List.filter (λ p, negb (is_key_change p)) (snd <$> account_updates_after id last hist)).
Proof.
  intros Hs. assert (sort_by cmp_order_le (AccountSchema.committed_diff id last db) = List.filter (selects id last) ds) as ->.
  { apply sort_by_unique; [apply cmp_order_total|apply cmp_order_trans|by eapply committed_diff_perm|].
    apply sorted_filter. eapply sorted_impl; [|apply (sr_sorted _ _ _ Hs)]. intros a b. apply diff_lt_strict. }
  pose proof (sr_rows _ _ _ Hs) as Hrows. clear Hs.
  induction Hrows as [|[b [i u]] d l l' (k & s & -> & Hp) _ IH]; [done|]. unfold account_updates_after in *. cbn [List.filter fst snd].
  assert (selects id last (diff_row b k s (i, u)) = ((i =? id) && (last <? b)) && negb (is_key_change (i, u))) as ->.
  { destruct u; cbn; by rewrite ?andb_true_r, ?andb_false_r. }
  destruct ((i =? id) && (last <? b)); cbn [andb]; [|exact IH]. cbn [fmap list_fmap List.filter snd].
  destruct (is_key_change (i, u)); cbn [negb]; [exact IH|]. cbn [map_outcome]. rewrite diff_into_row by done. cbn. unfold fmap in IH. by rewrite IH.
Qed.

Lemma get_account_represents db m id :
  represents db m →
  ∃ last, AccountSchema.get_account_and_last_block id db = Val (last, m !! id) ∧
    match m !! id with Some _ => ∃ a, a ∈ t_accounts db ∧ sa_id a = id ∧ last = sa_last_block a | None => last = 0 end.
Proof.
  intros Hr. unfold AccountSchema.get_account_and_last_block. destruct (m !! id) as [acc|] eqn:Hm.
  - destruct (rp_all _ _ Hr _ _ Hm) as (a & Ha & <-). rewrite (filter_key_unique sa_id) by (done || apply Hr). cbn.
    rewrite (restore_account_ok _ _ _ _ Hr Ha Hm). cbn. exists (sa_last_block a). split; [done|]. by exists a.
  - exists 0. rewrite filter_none; [done|]. intros a Ha. apply Z.eqb_neq. intros <-.
    destruct (rp_row _ _ Hr _ Ha) as (acc & ? & _). congruence.
Qed.

(** The committed state of an account as the API reads it: the verified account with the
    later creations, deletions and token changes of this account, in order. The changes of
    its key that are committed and not verified yet are left out, with the nonces they
    set. *)
Theorem last_committed_state_spec hist ds db m id :
  stored hist ds db → represents db m →
  ∃ last, AccountSchema.get_account_and_last_block id db = Val (last, m !! id) ∧
    AccountSchema.last_committed_state_for_account id db =
    Val (Account_apply_updates (m !! id)
           (snd <$> List.filter (λ p, negb (is_key_change p)) (snd <$> account_updates_after id last hist))).
Proof.
  intros Hs Hr. destruct (get_account_represents _ _ id Hr) as (last & E & _). exists last. split; [done|].
  unfold AccountSchema.last_committed_state_for_account. rewrite E. cbn [mbind outcome_bind].
  rewrite (committed_updates _ _ _ _ _ Hs). done.
Qed.
