(* ===== verification/BlockStorage.v ===== *)
(** * Blocks, operations and proofs in the database (core/storage/src/chain/block, chain/operations, prover)

    JSON columns hold values of [serde_json]: the class [Codec] has the conversions that
    the node's types derive, [CodecLaws] says that a value is read back as it was written,
    but for the fields that are not serialised ([#[serde(skip)]]): the fee and the cache of
    the verified signer of transfers and withdrawals, which come back as their defaults.
    [now] is the clock. *)

From S2P Require Import Prelude Bytes Params Externals Primitives Amounts Account Tx Operations Block EthStorage Storage.
Open Scope Z_scope.

(** ** What JSON keeps of a transaction *)
Section Serde.
  Context `{EX : External}.

(** [fee] and [cached_signer] are [#[serde(skip)]]: they are read back as their defaults, a fee of zero
    and an empty cache. *)
Definition Transfer_serde (tx : Transfer) : Transfer :=
  mkTransfer (tr_account_id tx) (tr_from tx) (tr_to tx) (tr_token_id tx) (u128_to_bigdecimal 0) (tr_nonce tx)
    (tr_signature tx) NotCached.
Definition Withdraw_serde (tx : Withdraw) : Withdraw :=
  mkWithdraw (wd_account_id tx) (wd_from tx) (wd_to tx) (wd_token_id tx) (u128_to_bigdecimal 0) (wd_nonce tx)
    (wd_signature tx) NotCached.
Definition serde_tx (tx : FranklinTx) : FranklinTx :=
  match tx with
  | TxTransfer tx => TxTransfer (Transfer_serde tx)
  | TxWithdraw tx => TxWithdraw (Withdraw_serde tx)
  | tx => tx
  end.
Definition serde_op (op : FranklinOp) : FranklinOp :=
  match op with
  | OpTransferToNew op => OpTransferToNew (mkTransferToNewOp (Transfer_serde (ttn_tx op)) (ttn_from op) (ttn_to op))
  | OpTransfer op => OpTransfer (mkTransferOp (Transfer_serde (tro_tx op)) (tro_from op) (tro_to op))
  | OpWithdraw op => OpWithdraw (mkWithdrawOp (Withdraw_serde (wdo_tx op)) (wdo_account_id op))
  | op => op
  end.
End Serde.

Class Codec `{EX : External} : Type := {
  Value : Type;
  tx_to_value : FranklinTx → Value;
  tx_from_value : Value → option FranklinTx;
  op_to_value : FranklinOp → Value;
  op_from_value : Value → option FranklinOp;
  opt_op_to_value : option FranklinOp → Value;
  opt_op_from_value : Value → option (option FranklinOp);
  proof_to_value : EncodedProofPlonk → Value;
  proof_from_value : Value → option EncodedProofPlonk;
}.

Class CodecLaws `{C : Codec} : Prop := {
  tx_json tx : tx_from_value (tx_to_value tx) = Some (serde_tx tx);
  op_json op : op_from_value (op_to_value op) = Some (serde_op op);
  opt_op_json op : opt_op_from_value (opt_op_to_value op) = Some (serde_op <$> op);
  proof_json p : proof_from_value (proof_to_value p) = Some p;
}.

Section BlockStorage.
  Context `{C : Codec}.

(** ** Records *)

Record StoredExecutedTransaction : Type := mkStoredExecutedTransaction {
  xt_id : Z;
  xt_block_number : Z;
  xt_block_index : option Z;
  xt_tx : Value;
  xt_operation : Value;
  xt_tx_hash : bytes;
  xt_from_account : bytes;
  xt_to_account : option bytes;
  xt_success : bool;
  xt_fail_reason : option string;
  xt_primary_account_address : bytes;
  xt_nonce : Z;
  xt_created_at : Z;
}.

Record StoredExecutedPriorityOperation : Type := mkStoredExecutedPriorityOperation {
  xp_id : Z;
  xp_block_number : Z;
  xp_block_index : Z;
  xp_operation : Value;
  xp_from_account : bytes;
  xp_to_account : bytes;
  xp_priority_op_serialid : Z;
  xp_deadline_block : Z;
  xp_eth_hash : bytes;
}.

Record StoredProof : Type := mkStoredProof { pf_block_number : Z; pf_proof : Value }.

Record ChainDb : Type := mkChainDb {
  cd_state : StateDb;
  cd_txs : list StoredExecutedTransaction;
  cd_txs_seq : Z;
  cd_prior : list StoredExecutedPriorityOperation;
  cd_prior_seq : Z;
  cd_proofs : list StoredProof;
}.

Definition set_state (st : StateDb) (db : ChainDb) : ChainDb :=
  mkChainDb st (cd_txs db) (cd_txs_seq db) (cd_prior db) (cd_prior_seq db) (cd_proofs db).

(** ** Conversions (conversion.rs) *)
Section Clock.
  Context (now : Z).

Definition into_executed_tx (self : StoredExecutedTransaction) : outcome ExecutedTx :=
  franklin_tx ← unwrap "Unparsable FranklinTx in db" (tx_from_value (xt_tx self));
  franklin_op ← unwrap "Unparsable FranklinOp in db" (opt_op_from_value (xt_operation self));
  block_index ← match xt_block_index self with
                | Some val => _ ← assert_that (0 <=? val) "Invalid block index"; Val (Some val)
                | None => Val None
                end;
  Val (mkExecutedTx franklin_tx (xt_success self) franklin_op (xt_fail_reason self) block_index now).

Definition into_executed (self : StoredExecutedPriorityOperation) : outcome ExecutedPriorityOp :=
  franklin_op ← unwrap "Unparsable priority op in db" (op_from_value (xp_operation self));
  data ← match try_get_priority_op franklin_op with
         | Ok data => Val data
         | Err _ => Panic "FranklinOp should have priority op"
         end;
  Val (mkExecutedPriorityOp
         (mkPriorityOp (wrap 64 (xp_priority_op_serialid self)) data (wrap 64 (xp_deadline_block self)) (xp_eth_hash self))
         franklin_op (wrap 32 (xp_block_index self))).

Definition prepare_stored_priority_op (id : Z) (exec_prior_op : ExecutedPriorityOp) (block : Z) :
    outcome StoredExecutedPriorityOperation :=
  let operation := op_to_value (epo_op exec_prior_op) in
  accounts ← match epo_op exec_prior_op with
             | OpDeposit deposit => Val (dp_from (dpo_priority_op deposit), dp_to (dpo_priority_op deposit))
             | OpFullExit full_exit =>
                 let eth_address := fe_eth_address (feo_priority_op full_exit) in Val (eth_address, eth_address)
             | _ => Panic "Incorrect type of priority op"
             end;
  let po := epo_priority_op exec_prior_op in
  Val (mkStoredExecutedPriorityOperation id block (to_i32 (epo_block_index exec_prior_op)) operation accounts.1 accounts.2
         (to_i64 (po_serial_id po)) (to_i64 (po_deadline_block po)) (po_eth_hash po)).

(** The addresses are cut out of the JSON text and decoded, which gives the fields back. *)
Definition prepare_stored_tx (id : Z) (exec_tx : ExecutedTx) (block : Z) : StoredExecutedTransaction :=
  let tx := et_tx exec_tx in
  let '(from_account, to_account) := match tx with
    | TxWithdraw tx => (wd_from tx, Some (wd_to tx))
    | TxTransfer tx => (tr_from tx, Some (tr_to tx))
    | TxChangePubKey tx => (cpk_account tx, Some (pkh_data (cpk_new_pk_hash tx)))
    | TxClose tx => (cl_account tx, Some (cl_account tx))
    end in
  mkStoredExecutedTransaction id block (to_i32 <$> et_block_index exec_tx) (tx_to_value tx) (opt_op_to_value (et_op exec_tx))
    (FranklinTx_hash tx) from_account to_account (et_success exec_tx) (et_fail_reason exec_tx)
    (FranklinTx_account tx) (FranklinTx_nonce tx) (et_created_at exec_tx).

(** ** The prover schema's proofs *)

Definition load_proof (block_number : Z) (db : ChainDb) : Fallible EncodedProofPlonk :=
  match head (List.filter (λ p, pf_block_number p =? block_number) (cd_proofs db)) with
  | Some stored => lift_outcome (unwrap "called `Result::unwrap()` on an `Err` value" (proof_from_value (pf_proof stored)))
  | None => Val (Err "NotFound")
  end.

Definition store_proof (block_number : Z) (proof : EncodedProofPlonk) (db : ChainDb) : Fallible ChainDb :=
  if existsb (λ p, pf_block_number p =? block_number) (cd_proofs db) then Val (Err "duplicate key")
  else Val (Ok (mkChainDb (cd_state db) (cd_txs db) (cd_txs_seq db) (cd_prior db) (cd_prior_seq db)
                  (cd_proofs db ++ [mkStoredProof block_number (proof_to_value proof)]))).

(** ** The operations schema *)

Definition get_operation (block_number : Z) (action_type : ActionType) (db : ChainDb) : option StoredOperation :=
  head (List.filter (λ o, (so_block_number o =? block_number) && bool_decide (so_action_type o = ActionType_to_string action_type))
          (t_operations (cd_state db))).

Definition store_operation (block_number : Z) (action_type : string) (db : ChainDb) : StoredOperation * ChainDb :=
  let st := cd_state db in
  let row := mkStoredOperation (t_operations_seq st) block_number action_type false in
  (row, set_state (mkStateDb (t_accounts st) (t_tokens st) (t_token_updates st) (t_token_updates_seq st) (t_creates st)
                     (t_pubkey_updates st) (t_pubkey_updates_seq st) (t_blocks st) (t_operations st ++ [row])
                     (t_operations_seq st + 1)) db).

Definition store_executed_operation (tx : ExecutedTx) (block : Z) (db : ChainDb) : ChainDb :=
  mkChainDb (cd_state db) (cd_txs db ++ [prepare_stored_tx (cd_txs_seq db) tx block]) (cd_txs_seq db + 1)
    (cd_prior db) (cd_prior_seq db) (cd_proofs db).

Definition store_executed_priority_operation (op : ExecutedPriorityOp) (block : Z) (db : ChainDb) : outcome ChainDb :=
  row ← prepare_stored_priority_op (cd_prior_seq db) op block;
  Val (mkChainDb (cd_state db) (cd_txs db) (cd_txs_seq db) (cd_prior db ++ [row]) (cd_prior_seq db + 1) (cd_proofs db)).

Definition get_executed_operation (op_hash : bytes) (db : ChainDb) : option StoredExecutedTransaction :=
  head (List.filter (λ t, bool_decide (xt_tx_hash t = op_hash)) (cd_txs db)).
Definition get_executed_priority_operation (priority_op_id : Z) (db : ChainDb) : option StoredExecutedPriorityOperation :=
  head (List.filter (λ t, xp_priority_op_serialid t =? priority_op_id) (cd_prior db)).

(** ** The block schema *)

Fixpoint save_block_transactions (block_number : Z) (txs : list ExecutedOperations) (db : ChainDb) : outcome ChainDb :=
  match txs with
  | [] => Val db
  | ExTx tx :: txs => save_block_transactions block_number txs (store_executed_operation tx block_number db)
  | ExPriorityOp op :: txs =>
      db ← store_executed_priority_operation op block_number db;
      save_block_transactions block_number txs db
  end.

Definition save_block (block : Block) (db : ChainDb) : Fallible ChainDb :=
  let new_block := mkStorageBlock (block_number block) (fe_to_bytes (new_root_hash block)) (fee_account block)
    (to_i64 (processed_priority_ops block).1) (to_i64 (processed_priority_ops block).2)
    (to_i64 (Z.of_nat (block_chunks_size block))) in
  db ← lift_outcome (save_block_transactions (block_number block) (block_transactions block) db);
  let st := cd_state db in
  if existsb (λ b, sb_number b =? block_number block) (t_blocks st) then Val (Err "duplicate key")
  else Val (Ok (set_state (mkStateDb (t_accounts st) (t_tokens st) (t_token_updates st) (t_token_updates_seq st)
                  (t_creates st) (t_pubkey_updates st) (t_pubkey_updates_seq st) (t_blocks st ++ [new_block])
                  (t_operations st) (t_operations_seq st)) db)).

(** [sort_by_key]: failed transactions are at the end. *)
Definition exec_key (exec_op : ExecutedOperations) : Z :=
  match exec_op with
  | ExTx tx => default (2 ^ 32 - 1) (et_block_index tx)
  | ExPriorityOp op => epo_block_index op
  end.

Definition get_block_executed_ops (block : Z) (db : ChainDb) : outcome (list ExecutedOperations) :=
  executed_ops ← map_outcome into_executed_tx (List.filter (λ t, xt_block_number t =? block) (cd_txs db));
  executed_priority_ops ← map_outcome into_executed (List.filter (λ t, xp_block_number t =? block) (cd_prior db));
  Val (sort_by (λ a b, exec_key a <=? exec_key b) ((ExTx <$> executed_ops) ++ (ExPriorityOp <$> executed_priority_ops))).

(** [fe_from_bytes] *)
Fixpoint read_be (n : nat) (value : bytes) : list Z :=
  match n with
  | O => []
  | S n => from_be_bytes (take 8 value) :: read_be n (drop 8 value)
  end.
Definition fe_from_bytes (value : bytes) : result Fr :=
  if (length value =? 32)%nat
  then match fr_from_repr (reverse (read_be 4 value)) with Some x => Ok x | None => Err "Cannot convert into prime field value" end
  else Err "Incorrect input size".

Definition get_block (block : Z) (db : ChainDb) : outcome (option Block) :=
  match head (List.filter (λ b, sb_number b =? block) (t_blocks (cd_state db))) with
  | None => Val None
  | Some stored_block =>
      block_transactions ← get_block_executed_ops block db;
      new_root_hash ← match fe_from_bytes (sb_root_hash stored_block) with
                      | Ok x => Val x
                      | Err _ => Panic "Unparsable root hash"
                      end;
      Val (Some (Block_new block new_root_hash (wrap 32 (sb_fee_account_id stored_block)) block_transactions
             (wrap 64 (sb_unprocessed_prior_op_before stored_block), wrap 64 (sb_unprocessed_prior_op_after stored_block))
             (Z.to_nat (wrap 64 (sb_block_size stored_block)))))
  end.

Definition get_block_operations (block : Z) (db : ChainDb) : outcome (list FranklinOp) :=
  match get_block_executed_ops block db with
  | Val executed_ops =>
      Val (omap (λ exec_op, match exec_op with ExTx tx => et_op tx | ExPriorityOp op => Some (epo_op op) end) executed_ops)
  | Panic msg => Panic msg
  end.

(** [StoredOperation::into_op] *)
Definition into_op (db : ChainDb) (self : StoredOperation) : Fallible Operation :=
  let block_number := wrap 32 (so_block_number self) in
  action ← (if bool_decide (so_action_type self = ActionType_to_string COMMIT) then Val (Ok ACommit)
            else if bool_decide (so_action_type self = ActionType_to_string VERIFY) then
              proof ← load_proof block_number db; Val (Ok (AVerify proof))
            else Panic "internal error: entered unreachable code: Incorrect action type in db");
  block ← lift_outcome (b ← get_block block_number db; unwrap "Block for action does not exist" b);
  accounts_updated ← lift_outcome (StateSchema.load_state_diff_for_block block_number (cd_state db));
  Val (Ok (mkOperation (Some (so_id self)) action block accounts_updated)).

Definition on_state (f : StateDb → Fallible StateDb) (db : ChainDb) : Fallible ChainDb :=
  st ← f (cd_state db); Val (Ok (set_state st db)).

Definition execute_operation (op : Operation) (db : ChainDb) : Fallible (Operation * ChainDb) :=
  let number := block_number (op_block op) in
  db ← match op_action op with
       | ACommit =>
           db ← on_state (StateSchema.commit_state_update number (op_accounts_updated op)) db;
           save_block (op_block op) db
       | AVerify proof =>
           db ← match load_proof number db with
                | Val (Err e) => if bool_decide (e = "NotFound"%string) then store_proof number proof db else Val (Err e)
                | Val (Ok _) => Val (Ok db)
                | Panic msg => Panic msg
                end;
           on_state (StateSchema.apply_state_update number) db
       end;
  let '(stored, db) := store_operation number (ActionType_to_string (get_type (op_action op))) db in
  op ← into_op db stored;
  Val (Ok (op, db)).

Definition load_commit_op (block_number : Z) (db : ChainDb) : outcome (option Operation) :=
  match get_operation block_number COMMIT db with
  | None => Val None
  | Some stored => match into_op db stored with
                   | Val (Ok op) => Val (Some op)
                   | Val (Err _) => Val None
                   | Panic msg => Panic msg
                   end
  end.

Definition load_committed_block (block_number : Z) (db : ChainDb) : outcome (option Block) :=
  match load_commit_op block_number db with
  | Val op => Val (op_block <$> op)
  | Panic msg => Panic msg
  end.

(** [ORDER BY block_number LIMIT limit], with the presence of a proof. *)
Definition load_commits_after_block (block : Z) (limit : nat) (db : ChainDb) : Fallible (list (Operation * bool)) :=
  let rows := take limit (order_by so_block_number
    (List.filter (λ o, bool_decide (so_action_type o = ActionType_to_string COMMIT) && (block <? so_block_number o))
       (t_operations (cd_state db)))) in
  convert_all (λ o, op ← into_op db o;
    Val (Ok (op, existsb (λ p, pf_block_number p =? so_block_number o) (cd_proofs db)))) rows.
End Clock.
End BlockStorage.
