(* ===== verification/BlockStorageProofs.v ===== *)
(** * Blocks and operations are read back as they were stored

    The round trip of a block through the tables, and the invariant of the database under
    the operations of the committer: every state of the chain can be loaded. *)

From S2P Require Import Prelude Bytes Params Externals Primitives Amounts Account Tx Operations Block EthStorage Storage StorageProofs BlockStorage.
Open Scope Z_scope.

(** ** Stable sorting *)
Section Stable.
  Context {A : Type} (key : A → Z).

Definition key_le (a b : A) : bool := key a <=? key b.

Lemma insert_sorted_stable k x l :
  List.filter (λ y, key y =? k) (insert_sorted key_le x l) = List.filter (λ y, key y =? k) (x :: l).
Proof.
  induction l as [|y l IH]; [done|]. cbn [insert_sorted]. unfold key_le at 1. destruct (Z.leb_spec (key x) (key y)); [done|].
  cbn [List.filter] in *. rewrite IH. destruct (Z.eqb_spec (key x) k), (Z.eqb_spec (key y) k); done || lia.
Qed.

Lemma sort_by_stable k l :
  List.filter (λ y, key y =? k) (sort_by key_le l) = List.filter (λ y, key y =? k) l.
Proof.
  induction l as [|x l IH]; [done|]. unfold sort_by. cbn [foldr]. fold (sort_by key_le l). rewrite insert_sorted_stable. cbn. by rewrite IH.
Qed.

Lemma sorted_by_filters l s :
  StronglySorted (λ a b, key a ≤ key b) l → StronglySorted (λ a b, key a ≤ key b) s →
  (∀ k, List.filter (λ y, key y =? k) l = List.filter (λ y, key y =? k) s) → l = s.
Proof.
  intros Hl. revert s. induction Hl as [|x l Hl IH Hx]; intros s Hs Hf.
  { destruct s as [|y s]; [done|]. specialize (Hf (key y)). cbn in Hf. by rewrite Z.eqb_refl in Hf. }
  assert (∀ k z zs, Forall (λ b, key z ≤ key b) zs → k < key z → List.filter (λ y, key y =? k) (z :: zs) = []) as Hlow.
  { intros k z zs Hz Hk. apply filter_none. intros y [->|Hy]%elem_of_cons; apply Z.eqb_neq; [lia|].
    rewrite Forall_forall in Hz. specialize (Hz _ Hy). lia. }
  destruct s as [|y s]; [specialize (Hf (key x)); cbn in Hf; by rewrite Z.eqb_refl in Hf|].
  apply StronglySorted_inv in Hs as [Hs Hy].
  assert (key x = key y) as E.
  { destruct (Z.lt_trichotomy (key x) (key y)) as [H|[H|H]]; [|done|].
    - specialize (Hf (key x)). rewrite (Hlow _ y) in Hf by done. cbn in Hf. by rewrite Z.eqb_refl in Hf.
    - specialize (Hf (key y)). rewrite (Hlow _ x) in Hf by done. cbn in Hf. by rewrite Z.eqb_refl in Hf. }
  assert (x = y) as ->.
  { specialize (Hf (key x)). cbn in Hf. rewrite <- E, Z.eqb_refl in Hf. by injection Hf. }
  f_equal. apply IH; [done|]. intros k. specialize (Hf k). cbn in Hf. destruct (key y =? k); [by injection Hf|done].
Qed.

(** The sorted arrangement that keeps the order of equal keys. *)
Lemma sort_by_stable_unique l s :
  StronglySorted (λ a b, key a ≤ key b) s →
  (∀ k, List.filter (λ y, key y =? k) l = List.filter (λ y, key y =? k) s) → sort_by key_le l = s.
Proof.
  intros Hs Hf. apply sorted_by_filters; [|done|intros k; by rewrite sort_by_stable].
  eapply sorted_impl; [|apply (sort_by_sorted key_le)].
  - intros a b. apply Z.leb_le.
  - intros a b H%Z.leb_gt. apply Z.leb_le. lia.
  - intros a b c. unfold key_le. rewrite !Z.leb_le. lia.
Qed.
End Stable.

Section Blocks.
  Context `{EX : External} {EXL : ExternalLaws} {C : Codec} {L : CodecLaws}.
  Context (now : Z).

(** An executed operation as it is read back. *)
Definition stored_tx (tx : ExecutedTx) : ExecutedTx :=
  mkExecutedTx (serde_tx (et_tx tx)) (et_success tx) (serde_op <$> et_op tx) (et_fail_reason tx) (et_block_index tx) now.
Definition stored_exec (e : ExecutedOperations) : ExecutedOperations :=
  match e with ExTx tx => ExTx (stored_tx tx) | ExPriorityOp op => ExPriorityOp op end.

(** What the keeper's blocks are: indices below [2^31], priority operations with their data. *)
Definition exec_fits (e : ExecutedOperations) : Prop :=
  match e with
  | ExTx tx => from_option (λ i, 0 ≤ i < 2 ^ 31) True (et_block_index tx)
  | ExPriorityOp op => 0 ≤ epo_block_index op < 2 ^ 31 ∧ fits 64 (po_serial_id (epo_priority_op op)) ∧
      fits 64 (po_deadline_block (epo_priority_op op)) ∧
      try_get_priority_op (epo_op op) = Ok (po_data (epo_priority_op op))
  end.

Definition is_tx (e : ExecutedOperations) : bool := match e with ExTx _ => true | ExPriorityOp _ => false end.
Definition tx_part (e : ExecutedOperations) : option ExecutedTx := match e with ExTx tx => Some tx | _ => None end.
Definition prior_part (e : ExecutedOperations) : option ExecutedPriorityOp := match e with ExPriorityOp op => Some op | _ => None end.

(** Indices increase, transactions without an index come last. *)
Definition exec_order (txs : list ExecutedOperations) : Prop :=
  StronglySorted (λ a b, exec_key a < exec_key b ∨ exec_key a = exec_key b ∧ is_tx a = true ∧ is_tx b = true) txs.

Lemma into_prepared_tx id tx b :
  exec_fits (ExTx tx) → into_executed_tx now (prepare_stored_tx id tx b) = Val (stored_tx tx).
Proof.
  intros Hf. unfold into_executed_tx, prepare_stored_tx.
  destruct tx as [t su o fr i ca]; cbn in *. destruct t; cbn; rewrite tx_json, opt_op_json; cbn.
  all: destruct i as [i|]; cbn in *; [|done].
  all: rewrite to_i32_small by done; rewrite (proj2 (Z.leb_le _ _)) by lia; done.
Qed.

Lemma into_prepared_prior id op b :
  exec_fits (ExPriorityOp op) →
  ∃ row, prepare_stored_priority_op id op b = Val row ∧ xp_block_number row = b ∧ into_executed row = Val op.
Proof.
  intros (Hi & Hs & Hd & Hdata). destruct op as [[sid data db eh] o i]. cbn in *.
  unfold prepare_stored_priority_op, into_executed. destruct o; cbn in Hdata; try done; injection Hdata as <-; cbn.
  all: eexists; (split; [done|]); (split; [done|]); cbn; rewrite op_json; cbn.
  all: rewrite !wrap_to_i64, to_i32_small, !wrap_small by (done || unfold fits; lia); done.
Qed.

(** The rows of a block after those of others. *)
Definition rows_after (db db' : ChainDb) (b : Z) (txs : list ExecutedOperations) : Prop :=
  ∃ rt rp, cd_txs db' = cd_txs db ++ rt ∧ cd_prior db' = cd_prior db ++ rp ∧ cd_state db' = cd_state db ∧ cd_proofs db' = cd_proofs db ∧
    Forall (λ r, xt_block_number r = b) rt ∧ Forall (λ r, xp_block_number r = b) rp ∧
    map_outcome (into_executed_tx now) rt = Val (stored_tx <$> omap tx_part txs) ∧
    map_outcome into_executed rp = Val (omap prior_part txs).

Lemma save_transactions_rows b txs db :
  Forall exec_fits txs → ∃ db', save_block_transactions b txs db = Val db' ∧ rows_after db db' b txs.
Proof.
  intros H. revert db. induction H as [|e txs He _ IH]; intros db.
  { exists db. split; [done|]. exists [], []. by rewrite !app_nil_r. }
  destruct e as [tx|op]; cbn [save_block_transactions].
  - destruct (IH (store_executed_operation tx b db)) as (db' & E & rt & rp & E1 & E2 & E3 & E4 & F1 & F2 & M1 & M2).
    exists db'. split; [done|]. exists (prepare_stored_tx (cd_txs_seq db) tx b :: rt), rp. cbn in E1, E2.
    rewrite <- app_assoc in E1. split_and!; try done.
    + constructor; [|done]. unfold prepare_stored_tx. by destruct (et_tx tx).
    + cbn [map_outcome]. rewrite into_prepared_tx by done. cbn. by rewrite M1.
  - destruct (into_prepared_prior (cd_prior_seq db) op b He) as (row & Er & Eb & Ei).
    unfold store_executed_priority_operation. rewrite Er. cbn [mbind outcome_bind].
    destruct (IH (mkChainDb (cd_state db) (cd_txs db) (cd_txs_seq db) (cd_prior db ++ [row]) (cd_prior_seq db + 1) (cd_proofs db)))
      as (db' & E & rt & rp & E1 & E2 & E3 & E4 & F1 & F2 & M1 & M2).
    exists db'. split; [done|]. exists rt, (row :: rp). cbn in E1, E2. rewrite <- app_assoc in E2. split_and!; try done.
    + by constructor.
    + cbn. rewrite Ei. cbn. by rewrite M2.
Qed.
(** The rows of a block, as they are found among all rows. *)
Definition block_rows (db : ChainDb) (b : Z) (txs : list ExecutedOperations) : Prop :=
  map_outcome (into_executed_tx now) (List.filter (λ t, xt_block_number t =? b) (cd_txs db)) = Val (stored_tx <$> omap tx_part txs) ∧
  map_outcome into_executed (List.filter (λ t, xp_block_number t =? b) (cd_prior db)) = Val (omap prior_part txs).

Lemma exec_key_stored e : exec_key (stored_exec e) = exec_key e.
Proof. by destruct e. Qed.

Lemma parts_filter k txs :
  List.filter (λ y, exec_key y =? k) ((ExTx <$> (stored_tx <$> omap tx_part txs)) ++ (ExPriorityOp <$> omap prior_part txs)) =
  (ExTx <$> (stored_tx <$> omap tx_part (List.filter (λ y, exec_key y =? k) txs))) ++
  (ExPriorityOp <$> omap prior_part (List.filter (λ y, exec_key y =? k) txs)).
Proof.
  rewrite List.filter_app. f_equal; induction txs as [|[tx|op] txs IH]; cbn in *; try done.
  - change (default _ (et_block_index (stored_tx tx))) with (default (2 ^ 32 - 1) (et_block_index tx)).
    cbn. destruct (default (2 ^ 32 - 1) (et_block_index tx) =? k); cbn; by rewrite IH.
  - by destruct (epo_block_index op =? k).
  - by destruct (default _ (et_block_index tx) =? k).
  - destruct (epo_block_index op =? k); cbn; by rewrite IH.
Qed.

Lemma all_tx_parts l :
  Forall (λ e, is_tx e = true) l ∨ (length l ≤ 1)%nat →
  (ExTx <$> (stored_tx <$> omap tx_part l)) ++ (ExPriorityOp <$> omap prior_part l) = stored_exec <$> l.
Proof.
  intros [H|H].
  - induction H as [|[tx|op] l He _ IH]; [done| |done]. cbn in *. by rewrite IH.
  - destruct l as [|[tx|op] [|]]; cbn in *; done || lia.
Qed.

Lemma exec_order_filter k txs :
  exec_order txs → let l := List.filter (λ y, exec_key y =? k) txs in
  Forall (λ e, is_tx e = true) l ∨ (length l ≤ 1)%nat.
Proof.
  intros H l. assert (StronglySorted (λ a b, exec_key a < exec_key b ∨ exec_key a = exec_key b ∧ is_tx a = true ∧ is_tx b = true) l) as Hs
    by (by apply sorted_filter).
  assert (∀ e, e ∈ l → exec_key e = k) as Hk.
  { intros e He. apply list_elem_of_In, List.filter_In in He as [_ He]. by apply Z.eqb_eq. }
  destruct Hs as [|a l' Hs Ha]; [by left|]. destruct l' as [|b l']; [by right; cbn|]. left.
  assert (∀ e, e ∈ b :: l' → is_tx a = true ∧ is_tx e = true) as Hall.
  { intros e He. rewrite Forall_forall in Ha. destruct (Ha _ He) as [Hlt|(_ & ? & ?)]; [|done].
    rewrite (Hk a), (Hk e) in Hlt by set_solver. lia. }
  apply Forall_forall. intros e [->|He]%elem_of_cons; [by apply (Hall b); set_solver|by apply Hall].
Qed.

Lemma executed_ops_back db b txs :
  block_rows db b txs → exec_order txs → get_block_executed_ops now b db = Val (stored_exec <$> txs).
Proof.
  intros [H1 H2] Ho. unfold get_block_executed_ops. rewrite H1. cbn [mbind outcome_bind]. rewrite H2. cbn [mbind outcome_bind].
  f_equal. apply (sort_by_stable_unique exec_key).
  - clear H1 H2. induction Ho as [|e txs _ IH He]; cbn; [constructor|]. constructor; [done|].
    apply Forall_fmap. eapply Forall_impl; [exact He|]. intros e'. cbn. rewrite !exec_key_stored. lia.
  - intros k. rewrite parts_filter, all_tx_parts by (by apply exec_order_filter).
    clear. induction txs as [|e txs IH]; [done|]. cbn. rewrite exec_key_stored. destruct (exec_key e =? k); cbn; by rewrite IH.
Qed.

Lemma read_be_concat limbs :
  Forall (fits 64) limbs → read_be (length limbs) (concat (to_be_bytes 8 <$> limbs)) = limbs.
Proof.
  induction 1 as [|x l Hx _ IH]; [done|]. cbn [length read_be fmap list_fmap concat].
  rewrite take_app_length', drop_app_length' by (by rewrite to_be_bytes_length). rewrite from_to_be_bytes; [by f_equal|].
  unfold fits in Hx. exact Hx.
Qed.

Lemma fe_bytes_roundtrip x : fe_from_bytes (fe_to_bytes x) = Ok x.
Proof.
  destruct (fr_repr_limbs x) as [Hl Hf]. unfold fe_from_bytes, fe_to_bytes, repr_write_be.
  assert (length (concat (to_be_bytes 8 <$> reverse (fr_repr x))) = 32%nat) as ->.
  { by destruct (fr_repr x) as [|a [|b [|c [|d []]]]]. }
  pose proof (read_be_concat (reverse (fr_repr x))) as E. rewrite length_reverse, Hl in E.
  rewrite E by (by apply Forall_reverse). by rewrite reverse_involutive, fr_from_repr_ok.
Qed.

(** A block as it is read back. *)
Definition stored_block (block : Block) : Block :=
  mkBlock (block_number block) (new_root_hash block) (fee_account block) (stored_exec <$> block_transactions block)
    (processed_priority_ops block) (block_chunks_size block).

Definition block_fits (block : Block) : Prop :=
  fits 32 (block_number block) ∧ fits 32 (fee_account block) ∧ fits 64 (processed_priority_ops block).1 ∧
  fits 64 (processed_priority_ops block).2 ∧ fits 64 (Z.of_nat (block_chunks_size block)) ∧
  Forall exec_fits (block_transactions block) ∧ exec_order (block_transactions block).

Definition header_row (block : Block) : StorageBlock :=
  mkStorageBlock (block_number block) (fe_to_bytes (new_root_hash block)) (fee_account block)
    (to_i64 (processed_priority_ops block).1) (to_i64 (processed_priority_ops block).2)
    (to_i64 (Z.of_nat (block_chunks_size block))).

Lemma get_block_back db block :
  block_fits block → NoDup (sb_number <$> t_blocks (cd_state db)) → header_row block ∈ t_blocks (cd_state db) →
  block_rows db (block_number block) (block_transactions block) →
  get_block now (block_number block) db = Val (Some (stored_block block)).
Proof.
  intros (F1 & F2 & F3 & F4 & F5 & F6 & F7) Hnd Hin Hrows. unfold get_block.
  change (block_number block) with (sb_number (header_row block)) at 1.
  rewrite (filter_key_unique sb_number) by done. cbn [head]. rewrite (executed_ops_back _ _ _ Hrows F7). cbn [mbind outcome_bind].
  cbn [sb_root_hash header_row]. rewrite fe_bytes_roundtrip. cbn [mbind outcome_bind sb_fee_account_id sb_unprocessed_prior_op_before
    sb_unprocessed_prior_op_after sb_block_size header_row]. rewrite !wrap_to_i64, !wrap_small by done. rewrite Nat2Z.id.
  unfold stored_block, Block_new. by destruct (processed_priority_ops block).
Qed.
(** ** The database under the operations of the committer *)

(** [hist]: the committed updates; [blocks]: the committed blocks; [c], [v]: the last
    committed and the last verified block. *)
Record chain_ok (hist : list (Z * (Z * AccountUpdate))) (blocks : list Block) (c v : Z) (db : ChainDb) : Prop := {
  ck_stored : ∃ ds, stored hist ds (cd_state db);
  ck_valid : updates_valid ∅ (snd <$> hist);
  ck_snapshot : represents (cd_state db) (state_at hist v);
  ck_verified : max_of (so_block_number <$> List.filter (λ o, bool_decide (so_action_type o = ActionType_to_string VERIFY))
                  (t_operations (cd_state db))) = (if v =? 0 then None else Some v);
  ck_hist : Forall (λ e, 0 ≤ e.1 ≤ c) hist;
  ck_blocks : t_blocks (cd_state db) = header_row <$> blocks;
  ck_numbers : NoDup (block_number <$> blocks);
  ck_rows bl : bl ∈ blocks → block_fits bl ∧ block_number bl ≤ c ∧ block_rows db (block_number bl) (block_transactions bl);
  ck_commits bl : bl ∈ blocks → ∃ o, o ∈ t_operations (cd_state db) ∧ so_block_number o = block_number bl ∧
    so_action_type o = ActionType_to_string COMMIT;
  ck_txs : Forall (λ r, xt_block_number r ≤ c) (cd_txs db);
  ck_prior : Forall (λ r, xp_block_number r ≤ c) (cd_prior db);
  ck_proofs : Forall (λ r, ∃ p, pf_proof r = proof_to_value p) (cd_proofs db);
  ck_bounds : 0 ≤ v ≤ c ∧ c < 2 ^ 32;
}.

Lemma chain_last_verified hist blocks c v db :
  chain_ok hist blocks c v db → get_last_verified_block (cd_state db) = v.
Proof.
  intros H. unfold get_last_verified_block, last_block_with. rewrite (ck_verified _ _ _ _ _ H).
  destruct (ck_bounds _ _ _ _ _ H). destruct (Z.eqb_spec v 0) as [->|]; [done|]. cbn. apply wrap_small. unfold fits. lia.
Qed.

Lemma tagged_updates (b : Z) (us : AccountUpdates) : snd <$> (pair b <$> us) = us.
Proof. induction us as [|u us IH]; cbn; [done|]. by rewrite IH. Qed.

Lemma updates_of_new hist c b us :
  Forall (λ e, 0 ≤ e.1 ≤ c) hist → c < b → updates_in (between (b - 1) b) (hist ++ (pair b <$> us)) = us.
Proof.
  intros Hh Hb. unfold updates_in. rewrite List.filter_app, filter_none, filter_all; cbn.
  - apply tagged_updates.
  - intros e (u & -> & _)%list_elem_of_fmap. unfold between. cbn. apply andb_true_iff. rewrite Z.ltb_lt, Z.leb_le. lia.
  - intros e He. rewrite Forall_forall in Hh. specialize (Hh _ He). unfold between. apply andb_false_iff. left. apply Z.ltb_ge. lia.
Qed.

(** The updates of a block are read back. *)
Lemma load_block_updates hist ds st b :
  stored hist ds st → Forall (λ e, fits 32 e.1) hist → fits 32 b → 0 < b →
  StateSchema.load_state_diff_for_block b st = Val (updates_in (between (b - 1) b) hist).
Proof.
  intros Hs Hf Hb Hpos. unfold StateSchema.load_state_diff_for_block. unfold fits in Hb. rewrite wrap_small by (unfold fits; lia).
  rewrite (load_state_diff_spec _ _ _ _ _ Hs Hf), (proj2 (Z.leb_le _ _)) by lia. cbn [mbind outcome_bind].
  destruct (last_update (between (b - 1) b) hist) eqn:E; cbn; [done|]. apply last_update_None in E. by rewrite E.
Qed.

Lemma block_rows_later db db' b c txs rt rp :
  block_rows db b txs → cd_txs db' = cd_txs db ++ rt → cd_prior db' = cd_prior db ++ rp →
  Forall (λ r, xt_block_number r = c) rt → Forall (λ r, xp_block_number r = c) rp → b ≠ c → block_rows db' b txs.
Proof.
  intros [H1 H2] E1 E2 F1 F2 Hne. rewrite Forall_forall in F1. rewrite Forall_forall in F2. split; [rewrite E1|rewrite E2]; rewrite List.filter_app.
  - rewrite (filter_none _ rt), app_nil_r; [done|]. intros r Hr. apply Z.eqb_neq. rewrite (F1 _ Hr). done.
  - rewrite (filter_none _ rp), app_nil_r; [done|]. intros r Hr. apply Z.eqb_neq. rewrite (F2 _ Hr). done.
Qed.

Lemma block_rows_new db db' b c txs rt rp :
  cd_txs db' = cd_txs db ++ rt → cd_prior db' = cd_prior db ++ rp →
  Forall (λ r, xt_block_number r = b) rt → Forall (λ r, xp_block_number r = b) rp →
  map_outcome (into_executed_tx now) rt = Val (stored_tx <$> omap tx_part txs) →
  map_outcome into_executed rp = Val (omap prior_part txs) →
  Forall (λ r, xt_block_number r ≤ c) (cd_txs db) → Forall (λ r, xp_block_number r ≤ c) (cd_prior db) →
  c < b → block_rows db' b txs.
Proof.
  intros E1 E2 F1 F2 M1 M2 T1 T2 Hb. rewrite Forall_forall in F1. rewrite Forall_forall in F2. rewrite Forall_forall in T1. rewrite Forall_forall in T2.
  split; [rewrite E1|rewrite E2]; rewrite List.filter_app, filter_none, filter_all; cbn; try done.
  - intros r Hr. apply Z.eqb_eq. by apply F1.
  - intros r Hr. apply Z.eqb_neq. specialize (T1 _ Hr). lia.
  - intros r Hr. apply Z.eqb_eq. by apply F2.
  - intros r Hr. apply Z.eqb_neq. specialize (T2 _ Hr). lia.
Qed.

Lemma state_at_later hist c us b v :
  Forall (λ e, 0 ≤ e.1 ≤ c) hist → c < b → v ≤ c → state_at (hist ++ (pair b <$> us)) v = state_at hist v.
Proof.
  intros Hh Hb Hv. unfold state_at, updates_in. rewrite List.filter_app, (filter_none _ (pair b <$> us)), app_nil_r; [done|].
  intros e (u & -> & _)%list_elem_of_fmap. cbn. apply Z.leb_gt. lia.
Qed.

Lemma state_at_all hist c : Forall (λ e, 0 ≤ e.1 ≤ c) hist → state_at hist c = apply_updates ∅ (snd <$> hist).
Proof.
  intros Hh. unfold state_at, updates_in. rewrite filter_all; [done|]. intros e He. rewrite Forall_forall in Hh.
  specialize (Hh _ He). apply Z.leb_le. lia.
Qed.

(** [represents] and [stored] look at some of the tables only. *)
Lemma represents_same db db' m :
  represents db m → t_accounts db' = t_accounts db → t_tokens db' = t_tokens db → represents db' m.
Proof. intros [H1 H2 H3 H4 H5] E1 E2. split; rewrite ?E1, ?E2; done. Qed.
Lemma stored_tables hist ds db db' :
  stored hist ds db → t_token_updates db' = t_token_updates db → t_creates db' = t_creates db →
  t_pubkey_updates db' = t_pubkey_updates db → stored hist ds db'.
Proof. intros [H1 H2 H3 H4 H5] E1 E2 E3. split; congruence || done. Qed.

Lemma max_of_snoc l x : max_of (l ++ [x]) = Some (match max_of l with Some y => Z.max x y | None => x end).
Proof. rewrite (max_of_perm (l ++ [x]) (x :: l)); [done|]. by rewrite Permutation_app_comm. Qed.

Lemma hist_fits hist c : Forall (λ e, 0 ≤ e.1 ≤ c) hist → c < 2 ^ 32 → Forall (λ e : Z * (Z * AccountUpdate), fits 32 e.1) hist.
Proof. intros H Hc. eapply Forall_impl; [exact H|]. unfold fits. intros e He. cbn in He. lia. Qed.

(** Reading an operation back. *)
Lemma into_op_back hist ds blocks c v db id bl t action confirmed :
  chain_ok hist blocks c v db → stored hist ds (cd_state db) → bl ∈ blocks → 0 < block_number bl →
  match t with
  | COMMIT => action = ACommit
  | VERIFY => ∃ p, load_proof (block_number bl) db = Val (Ok p) ∧ action = AVerify p
  end →
  into_op now db (mkStoredOperation id (block_number bl) (ActionType_to_string t) confirmed) =
  Val (Ok (mkOperation (Some id) action (stored_block bl) (updates_in (between (block_number bl - 1) (block_number bl)) hist))).
Proof.
  intros H Hs Hbl Hpos Ht. destruct (ck_rows _ _ _ _ _ H _ Hbl) as (Hfit & Hle & Hrows). pose proof Hfit as [Hn _].
  assert (get_block now (block_number bl) db = Val (Some (stored_block bl))) as Eb.
  { apply get_block_back; try done.
    - rewrite (ck_blocks _ _ _ _ _ H), <- list_fmap_compose. apply (ck_numbers _ _ _ _ _ H).
    - rewrite (ck_blocks _ _ _ _ _ H). by apply list_elem_of_fmap_2. }
  assert (StateSchema.load_state_diff_for_block (block_number bl) (cd_state db) =
    Val (updates_in (between (block_number bl - 1) (block_number bl)) hist)) as Eu.
  { apply (load_block_updates _ _ _ _ Hs); try done. eapply hist_fits; [apply H|apply (ck_bounds _ _ _ _ _ H)]. }
  unfold into_op. cbn [so_block_number so_action_type so_id]. rewrite wrap_small by done. destruct t.
  - subst action. cbn. by rewrite Eb, Eu.
  - destruct Ht as (p & Hp & ->). rewrite bool_decide_false, bool_decide_true, Hp by done. cbn [mbind fallible_bind]. by rewrite Eb, Eu.
Qed.

(** The tables after the commit of a block. *)
Lemma commit_tables hist ds db bl us c :
  let b := block_number bl in
  stored hist ds (cd_state db) → Forall (λ e, 0 ≤ e.1 ≤ c) hist → c < b → Forall exec_fits (block_transactions bl) →
  Forall update_fits us → NoDup (omap creates_id us) → Z.of_nat (length us) < 2 ^ 31 →
  (∀ r, r ∈ t_blocks (cd_state db) → sb_number r ≠ b) →
  ∃ ds' db', (x ← on_state (StateSchema.commit_state_update b us) db; save_block bl x) = Val (Ok db') ∧
    stored (hist ++ (pair b <$> us)) ds' (cd_state db') ∧
    t_accounts (cd_state db') = t_accounts (cd_state db) ∧ t_tokens (cd_state db') = t_tokens (cd_state db) ∧
    t_blocks (cd_state db') = t_blocks (cd_state db) ++ [header_row bl] ∧
    t_operations (cd_state db') = t_operations (cd_state db) ∧ t_operations_seq (cd_state db') = t_operations_seq (cd_state db) ∧
    ∃ rt rp, cd_txs db' = cd_txs db ++ rt ∧ cd_prior db' = cd_prior db ++ rp ∧ cd_proofs db' = cd_proofs db ∧
      Forall (λ r, xt_block_number r = b) rt ∧ Forall (λ r, xp_block_number r = b) rp ∧
      map_outcome (into_executed_tx now) rt = Val (stored_tx <$> omap tx_part (block_transactions bl)) ∧
      map_outcome into_executed rp = Val (omap prior_part (block_transactions bl)).
Proof.
  intros b Hs Hh Hb Ftx Hus Hnd Hlen Hnew.
  destruct (commit_state_update_stored hist ds (cd_state db) b us Hs) as (ds' & st1 & E1 & (R1 & R2 & R3 & R4 & R5) & S1);
    [eapply Forall_impl; [exact Hh|]; cbn; lia|done..|].
  destruct (save_transactions_rows b (block_transactions bl) (set_state st1 db) Ftx) as (db2 & E2 & rt & rp & T1 & T2 & T3 & T4 & F1 & F2 & M1 & M2).
  unfold on_state. rewrite E1. cbn [mbind fallible_bind]. unfold save_block. fold b.
  rewrite E2. cbn [lift_outcome mbind fallible_bind]. rewrite T3. cbn [cd_state set_state]. rewrite R3.
  rewrite existsb_false by (intros r Hr; by apply Z.eqb_neq, Hnew).
  exists ds'. eexists. split; [done|]. cbn. split; [eapply stored_tables; [exact S1|done..]|].
  do 5 (split; [done|]). exists rt, rp. by split_and!.
Qed.

(** Committing the next block: it succeeds and hands back the stored operation. *)
Lemma execute_commit hist blocks c v db op :
  let bl := op_block op in let b := block_number bl in let us := op_accounts_updated op in
  chain_ok hist blocks c v db → op_action op = ACommit → c < b → block_fits bl →
  Forall update_fits us → NoDup (omap creates_id us) → Z.of_nat (length us) < 2 ^ 31 → updates_valid (state_at hist c) us →
  ∃ db', execute_operation now op db =
      Val (Ok (mkOperation (Some (t_operations_seq (cd_state db))) ACommit (stored_block bl) us, db')) ∧
    chain_ok (hist ++ (pair b <$> us)) (blocks ++ [bl]) b v db'.
Proof.
  intros bl b us H Hact Hb Hfit Hus Hnd Hlen Hval. destruct (ck_stored _ _ _ _ _ H) as [ds Hs]. pose proof (ck_hist _ _ _ _ _ H) as Hh.
  destruct (ck_bounds _ _ _ _ _ H) as [Hv Hc]. pose proof Hfit as (Fb & _ & _ & _ & _ & Ftx & _). fold b in Fb.
  destruct (commit_tables hist ds db bl us c Hs Hh Hb Ftx Hus Hnd Hlen) as
    (ds' & db2 & E2 & S2 & R1 & R2 & R3 & R4 & R5 & rt & rp & T1 & T2 & T4 & F1 & F2 & M1 & M2).
  { intros r Hr. rewrite (ck_blocks _ _ _ _ _ H) in Hr. apply list_elem_of_fmap in Hr as (x & -> & Hx).
    cbn. destruct (ck_rows _ _ _ _ _ H _ Hx) as (_ & ? & _). fold b. lia. }
  unfold execute_operation. rewrite Hact. fold bl b us. fold b in E2. rewrite E2. clear E2. cbn [mbind fallible_bind].
  destruct (store_operation b _ db2) as [st db3] eqn:Est. cbn in Est. injection Est as Est Edb.
  assert (chain_ok (hist ++ (pair b <$> us)) (blocks ++ [bl]) b v db3) as H3.
  { rewrite <- Edb. split; cbn [cd_state set_state t_token_updates t_accounts t_tokens t_creates t_pubkey_updates t_blocks t_operations
      cd_txs cd_prior cd_proofs].
    - exists ds'. eapply stored_tables; [exact S2|done..].
    - rewrite fmap_app, tagged_updates. apply updates_valid_app. split; [apply H|]. by rewrite <- (state_at_all hist c).
    - rewrite (state_at_later _ c) by (done || lia). eapply represents_same; [apply (ck_snapshot _ _ _ _ _ H)|done..].
    - rewrite R4, filter_snoc_other by done. apply H.
    - apply Forall_app_2; [eapply Forall_impl; [exact Hh|]; cbn; lia|]. apply Forall_fmap, Forall_true. intros u. cbn. lia.
    - rewrite R3, (ck_blocks _ _ _ _ _ H), fmap_app. done.
    - rewrite fmap_app. apply NoDup_app. split; [apply H|]. split; [|by apply NoDup_singleton].
      intros n (x & -> & Hx)%list_elem_of_fmap Hn%list_elem_of_singleton. destruct (ck_rows _ _ _ _ _ H _ Hx) as (_ & ? & _). fold b in Hn. lia.
    - intros x [Hx| ->%list_elem_of_singleton]%elem_of_app.
      + destruct (ck_rows _ _ _ _ _ H _ Hx) as (? & ? & Hold). split; [done|]. split; [lia|].
        eapply (block_rows_later db); [done|exact T1|exact T2|exact F1|exact F2|lia].
      + split; [done|]. split; [fold b; lia|]. fold b. eapply (block_rows_new db); [exact T1|exact T2|done..|apply H|apply H|done].
    - rewrite R4. intros x [Hx| ->%list_elem_of_singleton]%elem_of_app.
      + destruct (ck_commits _ _ _ _ _ H _ Hx) as (o & ? & ?). exists o. split; [set_solver|done].
      + eexists. split; [apply elem_of_app; right; by apply list_elem_of_singleton|]. by rewrite <- Est.
    - rewrite T1. apply Forall_app_2; [eapply Forall_impl; [apply H|]; cbn; lia|]. eapply Forall_impl; [exact F1|]. cbn. lia.
    - rewrite T2. apply Forall_app_2; [eapply Forall_impl; [apply H|]; cbn; lia|]. eapply Forall_impl; [exact F2|]. cbn. lia.
    - rewrite T4. apply H.
    - unfold fits in Fb. lia. }
  exists db3. split; [|done]. destruct (ck_stored _ _ _ _ _ H3) as [ds3 Hs3].
  unfold b in Est. rewrite <- Est, R5. rewrite (into_op_back _ ds3 _ _ _ _ _ bl COMMIT ACommit _ H3 Hs3); [|set_solver|fold b; lia|done].
  cbn. fold b. by rewrite (updates_of_new _ c).
Qed.
(** The proof of a block: the stored one, or the given one is stored. *)
Lemma find_or_store_proof hist blocks c v db n p :
  chain_ok hist blocks c v db →
  ∃ q db1, match load_proof n db return Fallible ChainDb with
           | Val (Err e) => if bool_decide (e = "NotFound"%string) then store_proof n p db else Val (Err e)
           | Val (Ok _) => Val (Ok db)
           | Panic msg => Panic msg
           end = Val (Ok db1) ∧ load_proof n db1 = Val (Ok q) ∧
    cd_state db1 = cd_state db ∧ cd_txs db1 = cd_txs db ∧ cd_prior db1 = cd_prior db ∧
    Forall (λ r, ∃ p, pf_proof r = proof_to_value p) (cd_proofs db1) ∧
    (∀ q0, load_proof n db = Val (Ok q0) → cd_proofs db1 = cd_proofs db).
Proof.
  intros H. pose proof (ck_proofs _ _ _ _ _ H) as Hp. unfold load_proof at 1.
  destruct (head (List.filter (λ x, pf_block_number x =? n) (cd_proofs db))) as [r|] eqn:E.
  - assert (r ∈ cd_proofs db) as Hr.
    { apply head_Some_elem_of, list_elem_of_In, List.filter_In in E as [E _]. by apply list_elem_of_In. }
    rewrite Forall_forall in Hp. destruct (Hp _ Hr) as [q Hq]. rewrite Hq, proof_json. cbn. exists q, db.
    split; [done|]. split; [unfold load_proof; rewrite E, Hq, proof_json; done|]. split_and!; try done. by rewrite Forall_forall.
  - cbn. unfold store_proof. assert (List.filter (λ x, pf_block_number x =? n) (cd_proofs db) = []) as En by (by destruct (List.filter _ _)).
    rewrite existsb_false.
    2:{ intros r Hr. destruct (pf_block_number r =? n) eqn:Er; [|done]. assert (r ∈ List.filter (λ x, pf_block_number x =? n) (cd_proofs db)) as Hin.
        { apply list_elem_of_In, List.filter_In. split; [by apply list_elem_of_In|done]. }
        rewrite En in Hin. by apply not_elem_of_nil in Hin. }
    exists p. eexists. split; [done|]. cbn. split.
    + unfold load_proof. cbn. rewrite List.filter_app, En. cbn. rewrite Z.eqb_refl. cbn. by rewrite proof_json.
    + split_and!; try done; [apply Forall_app_2; [done|]; constructor; [by exists p|done]|].
      unfold load_proof. by rewrite E.
Qed.

(** Verifying the next block with updates: it succeeds, and the snapshot moves. *)
Lemma execute_verify hist blocks c v db op p bl :
  chain_ok hist blocks c v db → op_action op = AVerify p → bl ∈ blocks → block_number (op_block op) = block_number bl →
  v < block_number bl → (∀ e, e ∈ hist → e.1 ≤ v ∨ block_number bl ≤ e.1) →
  ∃ q db', execute_operation now op db = Val (Ok (mkOperation (Some (t_operations_seq (cd_state db))) (AVerify q) (stored_block bl)
      (updates_in (between (block_number bl - 1) (block_number bl)) hist), db')) ∧
    chain_ok hist blocks c (block_number bl) db' ∧ load_proof (block_number bl) db' = Val (Ok q) ∧
    (∀ q0, load_proof (block_number bl) db = Val (Ok q0) → cd_proofs db' = cd_proofs db).
Proof.
  intros H Hact Hbl En Hv Hgap. destruct (ck_stored _ _ _ _ _ H) as [ds Hs]. destruct (ck_bounds _ _ _ _ _ H) as [Hvc Hc].
  destruct (ck_rows _ _ _ _ _ H _ Hbl) as (Hfit & Hle & Hrows). pose proof Hfit as [Fn _].
  unfold execute_operation. rewrite Hact, En. set (n := block_number bl) in *.
  destruct (find_or_store_proof _ _ _ _ _ n p H) as (q & db1 & E1 & Eq & Est1 & Etx1 & Epr1 & Hp1 & Hkeep). rewrite E1. clear E1. cbn [mbind fallible_bind].
  destruct (apply_state_update_represents hist ds (cd_state db) v n Hs) as (st2 & E2 & (U1 & U2 & U3 & U4 & U5 & U6) & S2 & R2);
    [apply H|apply H|done|done|].
  unfold on_state. rewrite Est1, E2. cbn [mbind fallible_bind].
  destruct (store_operation n _ (set_state st2 db1)) as [st db3] eqn:Est. cbn in Est. injection Est as Est Edb.
  assert (chain_ok hist blocks c n db3) as H3.
  { rewrite <- Edb. split; cbn [cd_state set_state t_token_updates t_accounts t_tokens t_creates t_pubkey_updates t_blocks t_operations
      cd_txs cd_prior cd_proofs]; try apply H.
    - exists ds. by eapply stored_tables.
    - eapply represents_same; [exact R2|done..].
    - rewrite U5, List.filter_app, fmap_app. etrans; [apply (max_of_snoc _ n)|]. rewrite (ck_verified _ _ _ _ _ H), (proj2 (Z.eqb_neq n 0)) by lia.
      destruct (v =? 0); [done|]. f_equal. lia.
    - rewrite U4. apply H.
    - intros x Hx. destruct (ck_rows _ _ _ _ _ H _ Hx) as (? & ? & B1 & B2). split; [done|]. split; [done|].
      split; cbn; [by rewrite Etx1|by rewrite Epr1].
    - rewrite U5. intros x Hx. destruct (ck_commits _ _ _ _ _ H _ Hx) as (o & ? & ?). exists o. split; [set_solver|done].
    - rewrite Etx1. apply H.
    - rewrite Epr1. apply H.
    - done.
    - lia. }
  exists q, db3. split; [|split; [done|rewrite <- Edb; split; [exact Eq|done]]]. destruct (ck_stored _ _ _ _ _ H3) as [ds3 Hs3].
  assert (load_proof n db3 = Val (Ok q)) as Eq3 by (rewrite <- Edb; exact Eq).
  unfold n in Est. rewrite <- Est, U6. rewrite (into_op_back _ ds3 _ _ _ _ _ bl VERIFY (AVerify q) _ H3 Hs3 Hbl); [done|fold n; lia|by exists q].
Qed.

(** The transactions of a block that is not committed. *)
Lemma skip_block hist blocks c v db b txs db' :
  chain_ok hist blocks c v db → c < b → fits 32 b → Forall exec_fits txs → save_block_transactions b txs db = Val db' →
  chain_ok hist blocks b v db'.
Proof.
  intros H Hb Fb Ftx Hrun. destruct (save_transactions_rows b txs db Ftx) as (db2 & E & rt & rp & T1 & T2 & T3 & T4 & F1 & F2 & _).
  rewrite Hrun in E. injection E as <-. destruct (ck_bounds _ _ _ _ _ H) as [Hv Hc].
  split; rewrite ?T3; try apply H.
  - eapply Forall_impl; [apply H|]. cbn. lia.
  - intros x Hx. destruct (ck_rows _ _ _ _ _ H _ Hx) as (? & ? & Hold). split; [done|]. split; [lia|].
    eapply (block_rows_later db); [done|exact T1|exact T2|exact F1|exact F2|lia].
  - rewrite T1. apply Forall_app_2; [eapply Forall_impl; [apply H|]; cbn; lia|]. eapply Forall_impl; [exact F1|]. cbn. lia.
  - rewrite T2. apply Forall_app_2; [eapply Forall_impl; [apply H|]; cbn; lia|]. eapply Forall_impl; [exact F2|]. cbn. lia.
  - rewrite T4. apply H.
  - unfold fits in Fb. lia.
Qed.

(** The genesis: the updates of block 0 are committed and applied to empty tables. *)
Definition empty_db : ChainDb := mkChainDb (mkStateDb [] [] [] 1 [] [] 1 [] [] 1) [] 1 [] 1 [].

Lemma genesis_chain_ok us :
  Forall update_fits us → NoDup (omap creates_id us) → Z.of_nat (length us) < 2 ^ 31 → updates_valid ∅ us →
  ∃ db, (x ← on_state (StateSchema.commit_state_update 0 us) empty_db; on_state (StateSchema.apply_state_update 0) x) = Val (Ok db) ∧
    chain_ok (pair 0 <$> us) [] 0 0 db ∧ cd_proofs db = [] ∧ t_operations (cd_state db) = [].
Proof.
  intros Hf Hnd Hlen Hval.
  destruct (commit_state_update_stored [] [] (cd_state empty_db) 0 us) as (ds & st1 & E1 & (R1 & R2 & R3 & R4 & R5) & S1); [|done..|].
  { by repeat constructor. }
  set (hist := pair 0 <$> us) in *. cbn [app] in S1. assert (snd <$> hist = us) as Eh by apply tagged_updates.
  assert (∀ e, e ∈ hist → e.1 = 0) as H0 by (by intros e (u & -> & _)%list_elem_of_fmap).
  assert (state_at hist (-1) = ∅) as Hempty.
  { unfold state_at, updates_in. rewrite filter_none; [done|]. intros e He. rewrite (H0 _ He). done. }
  destruct (apply_state_update_represents hist ds st1 (-1) 0 S1) as (st2 & E2 & (U1 & U2 & U3 & U4 & U5 & U6) & S2 & Rep).
  - by rewrite Eh.
  - rewrite Hempty. split; rewrite ?R1, ?R2; cbn; [constructor|by intros a ?%not_elem_of_nil|by intros id acc ?%lookup_empty_Some| |
      by intros id t ?%not_elem_of_nil]. intros id t. split; [by intros ?%not_elem_of_nil|by intros (acc & ?%lookup_empty_Some & _)].
  - lia.
  - intros e He. rewrite (H0 _ He). lia.
  - unfold on_state. rewrite E1. cbn [mbind fallible_bind cd_state set_state]. rewrite E2. cbn [mbind fallible_bind].
    eexists. split; [done|]. cbn in R3, R4. split; [|split; [done|cbn; by rewrite U5, R4]]. split; cbn [cd_state set_state cd_txs cd_prior cd_proofs empty_db].
    1: by exists ds. 1: by rewrite Eh. 1: exact Rep. 1: by rewrite U5, R4.
    1: (apply Forall_forall; intros e He; rewrite (H0 _ He); lia). 1: by rewrite U4, R3. 1: constructor.
    1, 2: by intros bl ?%not_elem_of_nil. 1-3: constructor. lia.
Qed.

(** A proof that a prover has sent. *)
Lemma proof_stored hist blocks c v db n p db' :
  chain_ok hist blocks c v db → store_proof n p db = Val (Ok db') → chain_ok hist blocks c v db'.
Proof.
  intros H Hst. unfold store_proof in Hst. destruct (existsb _ _); [done|]. injection Hst as <-.
  split; try apply H. cbn. apply Forall_app_2; [apply H|]. by repeat econstructor.
Qed.

(** The chain that the committer's operations build; [c] is the last block it was given. *)
Inductive stored_chain (db0 : ChainDb) : list (Z * (Z * AccountUpdate)) → list Block → Z → Z → ChainDb → Prop :=
| sc_start hist : chain_ok hist [] 0 0 db0 → stored_chain db0 hist [] 0 0 db0
| sc_commit hist blocks c v db op op' db' :
    stored_chain db0 hist blocks c v db → op_action op = ACommit → c < block_number (op_block op) → block_fits (op_block op) →
    Forall update_fits (op_accounts_updated op) → NoDup (omap creates_id (op_accounts_updated op)) →
    Z.of_nat (length (op_accounts_updated op)) < 2 ^ 31 → updates_valid (state_at hist c) (op_accounts_updated op) →
    execute_operation now op db = Val (Ok (op', db')) →
    stored_chain db0 (hist ++ (pair (block_number (op_block op)) <$> op_accounts_updated op)) (blocks ++ [op_block op])
      (block_number (op_block op)) v db'
| sc_skip hist blocks c v db b txs db' :
    stored_chain db0 hist blocks c v db → c < b → fits 32 b → Forall exec_fits txs →
    save_block_transactions b txs db = Val db' → stored_chain db0 hist blocks b v db'
| sc_verify hist blocks c v db op op' db' p bl :
    stored_chain db0 hist blocks c v db → op_action op = AVerify p → bl ∈ blocks → block_number (op_block op) = block_number bl →
    v < block_number bl → (∀ e, e ∈ hist → e.1 ≤ v ∨ block_number bl ≤ e.1) →
    execute_operation now op db = Val (Ok (op', db')) →
    stored_chain db0 hist blocks c (block_number bl) db'
| sc_proof hist blocks c v db n p db' :
    stored_chain db0 hist blocks c v db → store_proof n p db = Val (Ok db') → stored_chain db0 hist blocks c v db'.

Lemma stored_chain_ok db0 hist blocks c v db : stored_chain db0 hist blocks c v db → chain_ok hist blocks c v db.
Proof.
  induction 1 as [|hist blocks c v db op op' db' _ IH Ha Hb Hf H1 H2 H3 H4 Hrun| |hist blocks c v db op op' db' p bl _ IH Ha Hbl En Hv Hg Hrun|]; [done|..].
  - destruct (execute_commit _ _ _ _ _ op IH Ha Hb Hf H1 H2 H3 H4) as (db2 & E & Hok). rewrite Hrun in E. by simplify_eq.
  - by eapply skip_block.
  - destruct (execute_verify _ _ _ _ _ op p bl IH Ha Hbl En Hv Hg) as (q & db2 & E & Hok & _). rewrite Hrun in E. by simplify_eq.
  - by eapply proof_stored.
Qed.
Lemma chain_last_block db0 hist blocks c v db :
  stored_chain db0 hist blocks c v db →
  let n := default 0 (max_of (sb_number <$> t_blocks (cd_state db))) in 0 ≤ n ≤ c ∧ Forall (λ e, 0 ≤ e.1 ≤ n) hist.
Proof.
  intros H. cbn zeta. rewrite (ck_blocks _ _ _ _ _ (stored_chain_ok _ _ _ _ _ _ H)), <- list_fmap_compose.
  change (sb_number ∘ header_row) with block_number.
  induction H as [hist H|hist blocks c v db op op' db' H IH Ha Hb Hf H1 H2 H3 H4 Hrun| |hist blocks c v db op op' db' p bl _ IH Ha Hbl En Hv Hg Hrun|]; [|..|done|done].
  - split; [done|]. apply H.
  - assert (max_of (block_number <$> blocks ++ [op_block op]) = Some (block_number (op_block op))) as ->.
    { rewrite fmap_app. etrans; [apply (max_of_snoc _ (block_number (op_block op)))|]. f_equal.
      destruct (max_of (block_number <$> blocks)) as [y|]; [|done]. cbn in IH. lia. }
    cbn. split; [lia|]. apply Forall_app_2; [eapply Forall_impl; [apply IH|]; cbn; lia|]. apply Forall_fmap, Forall_true. intros u. cbn. lia.
  - split; [lia|]. apply IHstored_chain.
Qed.

Lemma load_state_of db0 hist blocks c v db b :
  stored_chain db0 hist blocks c v db →
  StateSchema.load_committed_state (Some b) (cd_state db) = Val (
     (if v <=? b then default v (last_update (between v b) hist)
      else match last_update (between b v) hist with Some _ => b | None => v end), state_at hist b).
Proof.
  intros H%stored_chain_ok. pose proof (chain_last_verified _ _ _ _ _ H) as Hv. destruct (ck_stored _ _ _ _ _ H) as [ds Hs].
  rewrite <- Hv. apply (load_committed_state_spec hist ds); [done| |apply H|rewrite Hv; apply H].
  eapply hist_fits; [apply H|apply (ck_bounds _ _ _ _ _ H)].
Qed.

Lemma load_latest db0 hist blocks c v db :
  stored_chain db0 hist blocks c v db →
  ∃ n, StateSchema.load_committed_state None (cd_state db) = Val (n, apply_updates ∅ (snd <$> hist)).
Proof.
  intros Hc. pose proof (stored_chain_ok _ _ _ _ _ _ Hc) as H.
  destruct (chain_last_block _ _ _ _ _ _ Hc) as [Hn Hall]. set (n := default 0 _) in *.
  eexists. etrans; [|rewrite <- (state_at_all hist n Hall); eapply (load_state_of _ _ _ _ _ _ n Hc)].
  unfold StateSchema.load_committed_state, StateSchema.load_state_diff. destruct (ck_bounds _ _ _ _ _ H) as [Hvc Hc32].
  assert (match max_of (sb_number <$> t_blocks (cd_state db)) with Some x => wrap 32 x | None => 0 end = n) as ->; [|done].
  unfold n in Hn |- *. destruct (max_of _); cbn in *; [|done]. apply wrap_small. unfold fits. lia.
Qed.


(** The operations of the committer succeed: committing a later block with valid updates stores it
    and hands back the operation with its id, the block and the updates as they were
    given; verifying the next block with updates hands back the updates of this block. *)
Theorem execute_operation_succeeds db0 hist blocks c v db op :
  stored_chain db0 hist blocks c v db →
  let n := block_number (op_block op) in
  match op_action op with
  | ACommit =>
      c < n → block_fits (op_block op) → Forall update_fits (op_accounts_updated op) →
      NoDup (omap creates_id (op_accounts_updated op)) → Z.of_nat (length (op_accounts_updated op)) < 2 ^ 31 →
      updates_valid (state_at hist c) (op_accounts_updated op) →
      ∃ db', execute_operation now op db = Val (Ok (mkOperation (Some (t_operations_seq (cd_state db))) ACommit
               (stored_block (op_block op)) (op_accounts_updated op), db'))
  | AVerify p =>
      v < n → n ∈ block_number <$> blocks → (∀ e, e ∈ hist → e.1 ≤ v ∨ n ≤ e.1) →
      ∃ op' db', execute_operation now op db = Val (Ok (op', db')) ∧ op_id op' = Some (t_operations_seq (cd_state db)) ∧
        op_accounts_updated op' = updates_in (between (n - 1) n) hist
  end.
Proof.
  intros H%stored_chain_ok n. destruct (op_action op) as [|p] eqn:Ha.
  - intros Hc Hf Hus Hnd Hlen Hval. destruct (execute_commit _ _ _ _ _ op H Ha Hc Hf Hus Hnd Hlen Hval) as (db' & E & _). by exists db'.
  - intros Hv (bl & En & Hbl)%list_elem_of_fmap Hg. rewrite En in Hv, Hg.
    destruct (execute_verify _ _ _ _ _ op p bl H Ha Hbl En Hv Hg) as (q & db' & E & _). eexists _, db'. split; [exact E|]. by rewrite En.
Qed.
End Blocks.
