(* ===== verification/SenderRecovery.v ===== *)
(** * Restarting the sender (core/server/src/eth_sender, core/storage/src/ethereum/mod.rs)

    When the database and the signer do not fail, the tables mirror the sender: the
    unconfirmed rows are the ongoing operations with all their hashes, and the stored
    counters are those of the queue.  So a restarted sender goes on where it stopped. *)

From S2P Require Import Prelude Bytes Params Externals Primitives Amounts Account Tx Operations Block.
From S2P Require Import EthStorage TxQueue GasAdjuster EthSender ExecLogic EthSenderProofs SenderSlots Storage BlockStorage.
Open Scope Z_scope.

(** ** The tables as a mirror of the sender *)
Section Mirror.
  Context `{EX : External} (env : Environment) (options : EthSenderOptions).
  Context (into_op : StoredOperation → Fallible Operation) (id0 n0 t0 : Z).

(** The signer signs; a hash determines the nonce of the signed transaction. *)
Record reliable : Prop := {
  rel_db n : env_db env n = Ok tt;
  rel_sign n raw nonce gas : ∃ tx, env_sign env n raw nonce gas = Ok tx;
  rel_hash n n' raw raw' nonce nonce' gas gas' tx tx' :
    env_sign env n raw nonce gas = Ok tx → env_sign env n' raw' nonce' gas' = Ok tx' →
    sc_hash tx = sc_hash tx' → nonce = nonce';
}.

(** A row of [operations] is read back as the operation with its id, confirmed or not. *)
Definition reads_back : Prop := ∀ so o, into_op so = Val (Ok o) →
  op_id o = Some (so_id so) ∧
  ∀ b, into_op (mkStoredOperation (so_id so) (so_block_number so) (so_action_type so) b) = Val (Ok o).

Definition op_known (db : EthDb) (o : Operation) : Prop := ∃ so, so ∈ operations db ∧ into_op so = Val (Ok o).

Definition bindings_of (db : EthDb) (eid : Z) : list ETHBinding :=
  List.filter (λ b, bd_eth_op_id b =? eid) (eth_ops_binding db).
Definition hash_list (db : EthDb) (eid : Z) : list Z :=
  th_tx_hash <$> List.filter (λ h, th_eth_op_id h =? eid) (eth_tx_hashes db).

Definition row_joined (db : EthDb) (eid : Z) (o : option Operation) : Prop :=
  match o with
  | Some o => ∃ b so, bindings_of db eid = [b] ∧ so ∈ operations db ∧ bd_op_id b = so_id so ∧ into_op so = Val (Ok o)
  | None => bindings_of db eid = []
  end.

Record row_matches (db : EthDb) (e : StorageETHOperation) (op : ETHOperation) : Prop := {
  rm_id : se_id e = eo_id op;
  rm_nonce : se_nonce e = eo_nonce op;
  rm_raw : se_raw_tx e = eo_encoded_tx_data op;
  rm_type : se_op_type e = OperationType_to_string (eo_op_type op);
  rm_deadline : wrap 64 (se_last_deadline_block e) = eo_last_deadline_block op;
  rm_gas : se_last_used_gas_price e = eo_last_used_gas_price op;
  rm_hashes : hash_list db (se_id e) = eo_used_tx_hashes op;
  rm_some_hash : eo_used_tx_hashes op ≠ [];
  rm_open : se_confirmed e = eo_confirmed op ∧ se_final_hash e = eo_final_hash op;
  rm_joined : row_joined db (se_id e) (eo_op op);
}.

Definition unconfirmed (e : StorageETHOperation) : bool := negb (se_confirmed e).

Record mirror (db : EthDb) (ops : list ETHOperation) : Prop := {
  mr_rows : rows_ok env options id0 n0 db;
  mr_open : Forall2 (row_matches db) (List.filter unconfirmed (eth_operations db)) ops;
  mr_hash_ids i h : eth_tx_hashes db !! i = Some h → th_id h = t0 + Z.of_nat i;
  mr_hash_seq : eth_tx_hashes_seq db = t0 + Z.of_nat (length (eth_tx_hashes db));
  mr_hash_signed h : h ∈ eth_tx_hashes db → ∃ e n raw gas tx, e ∈ eth_operations db ∧ se_id e = th_eth_op_id h ∧
    env_sign env n raw (se_nonce e) gas = Ok tx ∧ sc_hash tx = th_tx_hash h;
  mr_bindings b : b ∈ eth_ops_binding db → bd_eth_op_id b < eth_operations_seq db;
  mr_ops : NoDup (so_id <$> operations db);
}.

Lemma rows_NoDup db : rows_ok env options id0 n0 db → NoDup (se_id <$> eth_operations db).
Proof. intros H. apply (indexed_NoDup se_id id0). intros i e He. by apply (ro_row _ _ _ _ _ H). Qed.
Lemma nonces_NoDup db : rows_ok env options id0 n0 db → NoDup (se_nonce <$> eth_operations db).
Proof. intros H. apply (indexed_NoDup se_nonce n0). intros i e He. by apply (ro_row _ _ _ _ _ H). Qed.

Lemma rows_id_lt db e : rows_ok env options id0 n0 db → e ∈ eth_operations db → se_id e < eth_operations_seq db.
Proof.
  intros H (i & Hi)%list_elem_of_lookup. rewrite (ro_seq _ _ _ _ _ H). destruct (ro_row _ _ _ _ _ H _ _ Hi) as [-> _].
  apply lookup_lt_Some in Hi. lia.
Qed.

(** ** Loading *)
Section Load.
  Context (u256_from_str : Z → option Z).

(** The gas price goes through text. *)
Definition reloaded (op op' : ETHOperation) : Prop := ∃ gas,
  u256_from_str (eo_last_used_gas_price op) = Some gas ∧
  op' = mkETHOperation (eo_id op) (eo_op_type op) (eo_op op) (eo_nonce op) (eo_last_deadline_block op) gas
          (eo_used_tx_hashes op) (eo_encoded_tx_data op) (eo_confirmed op) (eo_final_hash op).

Lemma hashes_of_list db ops eid : mirror db ops → hashes_of db eid = hash_list db eid.
Proof.
  intros H. unfold hashes_of, hash_list. rewrite order_by_sorted; [done|]. apply sorted_filter.
  eapply indexed_sorted, (mr_hash_ids _ _ H).
Qed.

Lemma convert_row db ops e op :
  mirror db ops → row_matches db e op → 0 ≤ se_nonce e → is_Some (u256_from_str (eo_last_used_gas_price op)) →
  ∃ o op', joined_operations db e = [o] ∧ reloaded op op' ∧
    convert_unconfirmed into_op u256_from_str db (e, o) = Val (Ok op').
Proof.
  intros Hm [H1 H2 H3 H4 H5 H6 H7 H8 [H9 H9'] H10] Hn [gas Hgas].
  assert (∃ o, joined_operations db e = [o] ∧
    match o with Some so => op ← into_op so; Val (Ok (Some op)) | None => Val (Ok None) end = Val (Ok (eo_op op))) as (o & Ho & Hinto).
  { unfold joined_operations. unfold row_joined, bindings_of in H10. destruct (eo_op op) as [o|].
    - destruct H10 as (b & so & -> & Hso & Hid & Hinto). exists (Some so). cbn.
      rewrite Hid, (filter_key_unique so_id) by (done || apply Hm). split; [done|]. by rewrite Hinto.
    - rewrite H10. by exists None. }
  exists o, (mkETHOperation (eo_id op) (eo_op_type op) (eo_op op) (eo_nonce op) (eo_last_deadline_block op) gas
          (eo_used_tx_hashes op) (eo_encoded_tx_data op) (eo_confirmed op) (eo_final_hash op)).
  split; [done|]. split; [by exists gas|]. unfold convert_unconfirmed.
  rewrite (hashes_of_list _ _ _ Hm), H7, bool_decide_true by done. cbn [assert_that lift_outcome mbind fallible_bind].
  rewrite Hinto. cbn [mbind fallible_bind]. rewrite H4, OperationType_roundtrip, H6, Hgas. cbn.
  unfold u256_from_i64. rewrite (proj2 (Z.leb_le _ _)) by done. cbn. do 2 f_equal. by f_equal.
Qed.

Lemma load_unconfirmed_mirror db ops :
  mirror db ops → (∀ op, op ∈ ops → is_Some (u256_from_str (eo_last_used_gas_price op))) →
  ∃ ops', load_unconfirmed_operations into_op u256_from_str db = Val (Ok ops') ∧ Forall2 reloaded ops ops'.
Proof.
  intros Hm Hgas. unfold load_unconfirmed_operations, unconfirmed_rows. rewrite order_by_sorted.
  2:{ apply sorted_filter, (indexed_sorted _ id0). intros i e He. by apply (ro_row _ _ _ _ _ (mr_rows _ _ Hm)). }
  pose proof (mr_open _ _ Hm) as Hopen.
  assert (Forall (λ e, 0 ≤ se_nonce e) (List.filter unconfirmed (eth_operations db))) as Hn.
  { apply Forall_forall. intros e [He _]%list_elem_of_In%List.filter_In. apply list_elem_of_In, list_elem_of_lookup in He as [i Hi].
    destruct (mr_rows _ _ Hm) as [Hrow _ _ Hmax _]. destruct (Hrow _ _ Hi). lia. }
  fold unconfirmed. revert Hm Hopen Hgas. generalize ops at 1. intros ops0 Hm Hopen Hgas. induction Hopen as [|e op rows ops1 He Hrest IH]; [by exists []|].
  apply Forall_cons in Hn as [Hn Hns]. destruct IH as (ops' & E & Hr); [done|set_solver|].
  destruct (convert_row _ _ _ _ Hm He Hn) as (o & op' & Hj & Hop' & Hc); [apply Hgas; set_solver|].
  exists (op' :: ops'). split; [|by constructor].
  rewrite fmap_cons. change (mjoin (?x :: ?y)) with (x ++ mjoin y). rewrite Hj.
  unfold fmap at 1, list_fmap at 1. cbn [app convert_all]. rewrite Hc. cbn [mbind fallible_bind]. by rewrite E.
Qed.
End Load.

(** ** The statements keep the mirror *)

Definition ops_kept (db db' : EthDb) : Prop := ∀ so o, so ∈ operations db → into_op so = Val (Ok o) →
  ∃ so', so' ∈ operations db' ∧ so_id so' = so_id so ∧ into_op so' = Val (Ok o).

Lemma op_known_kept db db' o : ops_kept db db' → op_known db o → op_known db' o.
Proof. intros H (so & Hso & Hi). destruct (H _ _ Hso Hi) as (so' & ? & _ & ?). by exists so'. Qed.

Lemma row_matches_kept db db' e op :
  row_matches db e op → hash_list db' (se_id e) = hash_list db (se_id e) →
  bindings_of db' (se_id e) = bindings_of db (se_id e) → ops_kept db db' → row_matches db' e op.
Proof.
  intros [H1 H2 H3 H4 H5 H6 H7 H8 H9 H10] Hh Hb Hk. split; try done; [congruence|].
  unfold row_joined in *. destruct (eo_op op) as [o|]; [|congruence].
  destruct H10 as (b & so & Hbs & Hso & Hid & Hi). destruct (Hk _ _ Hso Hi) as (so' & ? & ? & ?).
  exists b, so'. split; [congruence|]. split; [done|]. by split; [congruence|].
Qed.

Lemma elem_of_open (e : StorageETHOperation) l : e ∈ List.filter unconfirmed l ↔ e ∈ l ∧ se_confirmed e = false.
Proof. rewrite !list_elem_of_In, List.filter_In. unfold unconfirmed. by rewrite negb_true_iff. Qed.

Lemma mirror_insert db ops op_type o deadline gas raw ins db1 n tx db2 :
  mirror db ops → reads_back → from_option (op_known db) True o → fits 64 deadline →
  save_new_eth_tx op_type (o ≫= op_id) (to_i64 deadline) gas raw db = Val (Ok (ins, db1)) →
  env_sign env n raw (ins_nonce ins) gas = Ok tx →
  add_hash_entry (ins_id ins) (sc_hash tx) db1 = Val (Ok db2) →
  mirror db2 (ops ++ [mkETHOperation (ins_id ins) op_type o (ins_nonce ins) deadline gas [sc_hash tx] raw false None]).
Proof.
  intros [H1 H2 H3 H4 H5 H6 H7] Hrb Ho Hd Hsave Hsign Hhash.
  destruct (save_new_eth_tx_ok _ _ _ _ _ _ _ _ _ _ _ _ H1 Hsave) as (Hr1 & _).
  destruct (add_hash_entry_ok _ _ _ _ _ _ _ _ Hr1 Hhash) as (Hr2 & _).
  apply save_new_eth_tx_inv in Hsave as (p & p' & Hp & Hpos & -> & Erows & Eseq & Eh & Ehs & Eb & Eo & _).
  injection Hhash as <-. cbn [ins_id ins_nonce] in *.
  assert (∀ e, e ∈ eth_operations db → se_id e ≠ eth_operations_seq db) as Hne.
  { intros e He. pose proof (rows_id_lt _ _ H1 He). lia. }
  split; cbn.
  - done.
  - rewrite Erows, List.filter_app. cbn. apply Forall2_app.
    + eapply Forall2_impl_l; [exact H2|]. intros e op [He _]%elem_of_open Hm. apply Hne in He.
      eapply row_matches_kept; [exact Hm|..]; unfold hash_list, bindings_of, ops_kept; cbn.
      * rewrite Eh, filter_snoc_other; [done|]. cbn. by apply Z.eqb_neq.
      * rewrite Eb. destruct (o ≫= op_id); cbn; [|by rewrite app_nil_r]. apply filter_snoc_other. cbn. by apply Z.eqb_neq.
      * rewrite Eo. intros so o' ? ?. by exists so.
    + constructor; [|done]. split; cbn; try done.
      * rewrite wrap_to_i64. by apply wrap_small.
      * unfold hash_list. cbn. rewrite Eh, List.filter_app, (filter_none _ (eth_tx_hashes db)); cbn.
        -- by rewrite Z.eqb_refl.
        -- intros h Hh. apply Z.eqb_neq. destruct (H5 _ Hh) as (e & _ & _ & _ & _ & He & <- & _). by apply Hne.
      * match goal with |- row_joined ?d _ _ => assert (bindings_of d (eth_operations_seq db) =
          option_list ((λ i, mkETHBinding i (eth_operations_seq db)) <$> (o ≫= op_id))) as Eb' end.
        { unfold bindings_of. cbn [eth_ops_binding]. rewrite Eb, List.filter_app, (filter_none _ (eth_ops_binding db)).
          - destruct (o ≫= op_id); cbn; [by rewrite Z.eqb_refl|done].
          - intros b Hb. apply Z.eqb_neq. specialize (H6 _ Hb). lia. }
        destruct o as [o|]; cbn [row_joined]; rewrite Eb'; [|done].
        destruct Ho as (so & Hso & Hi). destruct (Hrb _ _ Hi) as [Hid _]. cbn. rewrite Hid. cbn.
        eexists _, so. split; [done|]. by rewrite Eo.
  - intros i h. rewrite Eh, Ehs. intros [Hi|[Hi Hh]]%lookup_app_Some; [by apply H3|].
    destruct (i - _)%nat eqn:Ei in Hh; [|done]. injection Hh as <-. cbn. lia.
  - rewrite Ehs, Eh, length_app. cbn. lia.
  - intros h. rewrite Eh, Erows. intros [Hh| ->%list_elem_of_singleton]%elem_of_app.
    + destruct (H5 _ Hh) as (e & n' & raw' & gas' & tx' & He & ?). exists e, n', raw', gas', tx'. split; [set_solver|done].
    + eexists _, n, raw, gas, tx. split; [apply elem_of_app; right; by apply list_elem_of_singleton|]. done.
  - intros b. rewrite Eb, Eseq. intros [Hb|Hb]%elem_of_app; [specialize (H6 _ Hb); lia|].
    destruct (o ≫= op_id); cbn in Hb; [apply list_elem_of_singleton in Hb as ->; cbn; lia|set_solver].
  - by rewrite Eo.
Qed.

Lemma filter_fmap_same (g : StorageETHOperation → StorageETHOperation) l :
  (∀ e, se_confirmed (g e) = se_confirmed e) → List.filter unconfirmed (g <$> l) = g <$> List.filter unconfirmed l.
Proof.
  intros Hg. induction l as [|e l IH]; [done|]. cbn. rewrite IH. unfold unconfirmed. rewrite Hg. by destruct (se_confirmed e).
Qed.

(** The open row of an ongoing operation; the other open rows have other ids. *)
Lemma mirror_row db acc op rest :
  mirror db (acc ++ op :: rest) →
  ∃ l1 e l2, List.filter unconfirmed (eth_operations db) = l1 ++ e :: l2 ∧ row_matches db e op ∧
    Forall2 (row_matches db) l1 acc ∧ Forall2 (row_matches db) l2 rest ∧
    Forall (λ y, se_id y ≠ eo_id op) l1 ∧ Forall (λ y, se_id y ≠ eo_id op) l2 ∧ e ∈ eth_operations db.
Proof.
  intros H. destruct (proj1 (Forall2_app_inv_r _ _ _ _) (mr_open _ _ H)) as (l1 & l2 & Hl1 & Hl2 & E).
  apply Forall2_cons_inv_r in Hl2 as (e & l2' & He & Hl2 & ->). exists l1, e, l2'. split; [done|].
  pose proof (filter_keys_NoDup se_id unconfirmed _ (rows_NoDup _ (mr_rows _ _ H))) as Hnd. rewrite E in Hnd.
  apply split_keys in Hnd. rewrite (rm_id _ _ _ He) in Hnd. split_and!; try done; try apply Hnd.
  assert (e ∈ List.filter unconfirmed (eth_operations db)) as Hin by (rewrite E; set_solver). by apply elem_of_open in Hin as [].
Qed.

Definition supplemented (op : ETHOperation) (deadline : Z) (tx : SignedCallResult) : ETHOperation :=
  mkETHOperation (eo_id op) (eo_op_type op) (eo_op op) (eo_nonce op) deadline (sc_gas_price tx)
    (eo_used_tx_hashes op ++ [sc_hash tx]) (eo_encoded_tx_data op) (eo_confirmed op) (eo_final_hash op).

Lemma mirror_update db acc op rest deadline n raw gas tx db1 db2 :
  mirror db (acc ++ op :: rest) → fits 64 deadline → env_sign env n raw (eo_nonce op) gas = Ok tx →
  update_eth_tx (eo_id op) (to_i64 deadline) (sc_gas_price tx) db = Val (Ok db1) →
  add_hash_entry (eo_id op) (sc_hash tx) db1 = Val (Ok db2) →
  mirror db2 (acc ++ supplemented op deadline tx :: rest).
Proof.
  intros Hm Hd Hsign Hup Hhash. pose proof (mirror_row _ _ _ _ Hm) as (l1 & e & l2 & Hopen & He & Hl1 & Hl2 & Hne1 & Hne2 & Hin).
  destruct Hm as [H1 _ H3 H4 H5 H6 H7].
  destruct (update_eth_tx_ok _ _ _ _ _ _ _ _ _ H1 Hup) as [Hr1 _].
  destruct (add_hash_entry_ok _ _ _ _ _ _ _ _ Hr1 Hhash) as (Hr2 & _).
  injection Hup as <-. injection Hhash as <-. set (g := λ e, if se_id e =? eo_id op then _ else e) in *.
  assert (∀ y, se_id y ≠ eo_id op → g y = y) as Hg by (intros y Hy; unfold g; by rewrite (proj2 (Z.eqb_neq _ _))).
  assert (∀ y, se_id (g y) = se_id y ∧ se_nonce (g y) = se_nonce y) as Hgid by (intros y; unfold g; by destruct (_ =? _)).
  split; cbn; try done.
  - rewrite filter_fmap_same by (intros y; unfold g; by destruct (_ =? _)).
    rewrite Hopen, fmap_app, fmap_cons, (map_unless se_id g (eo_id op) l1 Hg Hne1), (map_unless se_id g (eo_id op) l2 Hg Hne2).
    assert (∀ y o, se_id y ≠ eo_id op → row_matches db y o → row_matches (mkEthDb (g <$> eth_operations db) (eth_operations_seq db)
      (eth_tx_hashes db ++ [mkETHTxHash (eth_tx_hashes_seq db) (eo_id op) (sc_hash tx)]) (eth_tx_hashes_seq db + 1)
      (eth_ops_binding db) (eth_parameters db) (operations db)) y o) as Hother.
    { intros y o Hy Hmy. eapply row_matches_kept; [exact Hmy|..]; [|done|intros so o' ? ?; by exists so].
      unfold hash_list. cbn. rewrite filter_snoc_other; [done|]. cbn. apply Z.eqb_neq. congruence. }
    apply Forall2_app; [|constructor].
    + eapply Forall2_impl_l; [exact Hl1|]. intros y o Hy. rewrite Forall_forall in Hne1. by apply Hother, Hne1.
    + destruct He as [M1 M2 M3 M4 M5 M6 M7 M8 M9 M10].
      unfold g. rewrite M1, Z.eqb_refl. split; cbn; try done.
      * rewrite wrap_to_i64. by apply wrap_small.
      * unfold hash_list. cbn. rewrite List.filter_app, fmap_app. cbn. rewrite Z.eqb_refl, <- M7. unfold hash_list. by rewrite M1.
      * by destruct (eo_used_tx_hashes op).
      * by rewrite <- M1.
    + eapply Forall2_impl_l; [exact Hl2|]. intros y o Hy. rewrite Forall_forall in Hne2. by apply Hother, Hne2.
  - intros i h [Hi|[Hi Hh]]%lookup_app_Some; [by apply H3|].
    destruct (i - _)%nat eqn:Ei in Hh; [|done]. injection Hh as <-. cbn. lia.
  - rewrite length_app. cbn. lia.
  - intros h [Hh| ->%list_elem_of_singleton]%elem_of_app.
    + destruct (H5 _ Hh) as (y & n' & raw' & gas' & tx' & Hy & ? & ? & ?). exists (g y), n', raw', gas', tx'.
      destruct (Hgid y) as [-> ->]. split; [by apply list_elem_of_fmap_2|done].
    + exists (g e), n, raw, gas, tx. destruct (Hgid e) as [-> ->]. rewrite (rm_id _ _ _ He), (rm_nonce _ _ _ He).
      split; [by apply list_elem_of_fmap_2|done].
Qed.

(** By the uniqueness of hashes the first row with a hash of an operation is one of its own. *)
Lemma first_hash_row db acc op rest hash :
  mirror db (acc ++ op :: rest) → reliable → hash ∈ eo_used_tx_hashes op →
  get_eth_op_id hash db = Val (Ok (eo_id op)).
Proof.
  intros Hm Hrel Hhash. pose proof (mirror_row _ _ _ _ Hm) as (l1 & e & l2 & _ & He & _ & _ & _ & _ & Hin).
  assert (∀ h, h ∈ eth_tx_hashes db → th_tx_hash h = hash → th_eth_op_id h = eo_id op) as Huniq.
  { rewrite <- (rm_hashes _ _ _ He) in Hhash. apply list_elem_of_fmap in Hhash as (h0 & -> & Hh0).
    apply list_elem_of_In, List.filter_In in Hh0 as [Hh0 Eid]. apply list_elem_of_In in Hh0. apply Z.eqb_eq in Eid.
    intros h Hh Eh. destruct (mr_hash_signed _ _ Hm _ Hh) as (e1 & n1 & raw1 & gas1 & tx1 & He1 & Hid1 & Hs1 & Ht1).
    destruct (mr_hash_signed _ _ Hm _ Hh0) as (e2 & n2 & raw2 & gas2 & tx2 & He2 & Hid2 & Hs2 & Ht2).
    pose proof (rel_hash Hrel _ _ _ _ _ _ _ _ _ _ Hs1 Hs2 ltac:(congruence)) as Hn.
    pose proof (filter_key_unique se_nonce _ _ (nonces_NoDup _ (mr_rows _ _ Hm)) He1) as F1.
    pose proof (filter_key_unique se_nonce _ _ (nonces_NoDup _ (mr_rows _ _ Hm)) He2) as F2.
    rewrite Hn, F2 in F1. injection F1 as <-. rewrite <- Hid1, Hid2, Eid. exact (rm_id _ _ _ He). }
  unfold get_eth_op_id. destruct (head (List.filter _ _)) as [h|] eqn:E; cbn.
  - apply head_Some_elem_of, list_elem_of_In, List.filter_In in E as [Hh Eh]. apply list_elem_of_In in Hh.
    apply Z.eqb_eq in Eh. by rewrite (Huniq h).
  - exfalso. rewrite <- (rm_hashes _ _ _ He) in Hhash. apply list_elem_of_fmap in Hhash as (h0 & -> & Hh0).
    apply list_elem_of_In, List.filter_In in Hh0 as [Hh0 _].
    assert (h0 ∈ List.filter (λ h, th_tx_hash h =? th_tx_hash h0) (eth_tx_hashes db)) as Hf.
    { apply list_elem_of_In, List.filter_In. split; [done|apply Z.eqb_refl]. }
    destruct (List.filter _ (eth_tx_hashes db)); [by apply not_elem_of_nil in Hf|done].
Qed.

Lemma filter_confirmed (g : StorageETHOperation → StorageETHOperation) k l :
  (∀ y, se_id y ≠ k → g y = y) → (∀ y, se_id y = k → se_confirmed (g y) = true) →
  List.filter unconfirmed (g <$> l) = List.filter (λ y, negb (se_id y =? k)) (List.filter unconfirmed l).
Proof.
  intros H1 H2. induction l as [|y l IH]; [done|]. cbn. rewrite IH. unfold unconfirmed in *.
  destruct (Z.eqb_spec (se_id y) k) as [E|E].
  - rewrite H2 by done. cbn. destruct (se_confirmed y); cbn; [done|]. by rewrite E, Z.eqb_refl.
  - rewrite H1 by done. destruct (se_confirmed y); cbn; [done|]. by rewrite (proj2 (Z.eqb_neq _ _)).
Qed.

(** The flag of the operation in the main table. *)
Lemma confirm_ops_kept db l :
  reads_back → (∃ k, l = (λ o, if so_id o =? k then mkStoredOperation (so_id o) (so_block_number o) (so_action_type o) true else o)
                     <$> operations db) →
  so_id <$> l = so_id <$> operations db ∧ ops_kept db (set_operations l db).
Proof.
  intros Hrb [k ->]. set (f := λ o, _). assert (∀ o, so_id (f o) = so_id o) as Hf by (intros o; unfold f; by destruct (_ =? _)).
  split; [rewrite <- list_fmap_compose; apply list_fmap_ext; intros i x _; apply Hf|]. intros so o Hso Hi. exists (f so).
  split; [by apply list_elem_of_fmap_2|]. split; [done|]. unfold f. destruct (_ =? _); [by apply Hrb|done].
Qed.

Lemma mirror_confirm db acc op rest hash n status :
  mirror db (acc ++ op :: rest) → reliable → reads_back → hash ∈ eo_used_tx_hashes op →
  env_tx_status env n hash = Ok (Some status) → success status = true →
  wait_confirmations options ≤ confirmations status →
  ∃ db', confirm_eth_tx hash db = Val (Ok db') ∧ mirror db' (acc ++ rest) ∧
    eth_parameters db' = eth_parameters db ∧ ops_kept db db'.
Proof.
  intros Hm Hrel Hrb Hhash Hst Hsucc Hconf.
  pose proof (mirror_row _ _ _ _ Hm) as (l1 & e & l2 & Hopen & He & Hl1 & Hl2 & Hne1 & Hne2 & Hin).
  set (g := λ e, if se_id e =? eo_id op
           then mkStorageETHOperation (se_id e) (se_nonce e) true (se_raw_tx e) (se_op_type e) (Some hash)
                  (se_last_deadline_block e) (se_last_used_gas_price e) else e).
  assert (∃ l, confirm_eth_tx hash db = Val (Ok (set_operations l (set_eth_operations (g <$> eth_operations db) db))) ∧
    so_id <$> l = so_id <$> operations db ∧ ops_kept db (set_operations l db)) as (l & Hrun & Hids & Hkept).
  { unfold confirm_eth_tx. rewrite (first_hash_row _ _ _ _ _ Hm Hrel Hhash). cbn.
    rewrite <- (rm_id _ _ _ He), (filter_key_unique se_id) by (done || apply rows_NoDup, Hm). cbn.
    pose proof (rm_joined _ _ _ He) as Hj. unfold row_joined, bindings_of in Hj. unfold g. rewrite <- (rm_id _ _ _ He).
    destruct (eo_op op) as [o|].
    - destruct Hj as (b & so & -> & Hso & Hb & Hi). cbn. rewrite Hb, (filter_key_unique so_id) by (done || apply Hm). cbn.
      eexists. split; [done|]. apply confirm_ops_kept; [done|by eexists].
    - rewrite Hj. cbn. exists (operations db). split; [by destruct db|]. split; [done|]. intros so o ? ?. by exists so. }
  eexists. split; [exact Hrun|]. split; [|split; [done|exact Hkept]].
  destruct (confirm_eth_tx_ok _ _ _ _ _ _ _ _ _ (mr_rows _ _ Hm) Hst Hsucc Hconf Hrun) as [Hr _].
  destruct Hm as [H1 _ H3 H4 H5 H6 H7]. split; cbn; try done.
  - rewrite (filter_confirmed g (eo_id op)), Hopen.
    2:{ intros y Hy. unfold g. by rewrite (proj2 (Z.eqb_neq _ _)). }
    2:{ intros y Hy. unfold g. by rewrite Hy, Z.eqb_refl. }
    rewrite List.filter_app. cbn. rewrite (rm_id _ _ _ He), Z.eqb_refl. cbn. rewrite !filter_unless by done.
    apply Forall2_app; (eapply Forall2_impl; [eassumption|]); intros y o Hy; by eapply row_matches_kept.
  - intros h Hh. destruct (H5 _ Hh) as (y & n' & raw' & gas' & tx' & Hy & ? & ? & ?). exists (g y), n', raw', gas', tx'.
    assert (se_id (g y) = se_id y ∧ se_nonce (g y) = se_nonce y) as [-> ->] by (unfold g; by destruct (_ =? _)).
    split; [by apply list_elem_of_fmap_2|done].
  - by rewrite Hids.
Qed.

(** ** Walking through the methods *)

Definition frame (s s' : ETHSender) : Prop := tx_queue s' = tx_queue s ∧ ongoing_ops s' = ongoing_ops s.
Definition unchanged (s s' : ETHSender) : Prop := es_db s' = es_db s ∧ frame s s'.

#[global] Instance frame_preorder : PreOrder frame.
Proof. split; [done|]. intros a b c [] []. split; congruence. Qed.
#[global] Instance unchanged_preorder : PreOrder unchanged.
Proof. split; [done|]. intros a b c [] []. split; [congruence|by etrans]. Qed.

Ltac chain := first [eassumption | etrans; [eassumption|chain]].

Lemma wp_ask_frame {A} (answer : nat → result A) Q s :
  (∀ s', unchanged s s' → Q (answer (calls s)) s') → wp (ask answer) Q s.
Proof. intros H. by apply wp_ask, H. Qed.

Lemma wp_gas_frame old Q s : (∀ r s', unchanged s s' → Q r s') → wp (ask_gas_price env old) Q s.
Proof. intros H. apply wp_ask_gas_price. intros r g. by apply H. Qed.

Lemma wp_send_frame tx Q s : (∀ r s', unchanged s s' → Q r s') → wp (send_tx env tx) Q s.
Proof. intros H. by apply wp_send_tx, H. Qed.

Context (Hrel : reliable) (Hrb : reads_back).

Lemma wp_db_frame {A} (f : EthDb → Fallible (A * EthDb)) Q s :
  (∀ e s', f (es_db s) = Val (Err e) → unchanged s s' → Q (Err e) s') →
  (∀ a s', f (es_db s) = Val (Ok (a, es_db s')) → frame s s' → Q (Ok a) s') → wp (db_access env f) Q s.
Proof.
  intros HE HO. unfold db_access. apply wp_bind, wp_ask. rewrite (rel_db Hrel). unfold wp, on_db. cbn [es_db next_call].
  destruct (f (es_db s)) as [[[a db]|e]|] eqn:E; [|by apply HE|done]. by apply HO.
Qed.

Lemma wp_transaction_frame {A} (f : Exec ETHSender A) Q s :
  (∀ s1, unchanged s s1 → wp f (λ r s2, ∀ s3, unchanged s2 s3 → Q r s3) s1) → wp (db_transaction env f) Q s.
Proof.
  intros Hf. unfold db_transaction. apply wp_bind, wp_ask. rewrite (rel_db Hrel).
  apply wp_bind. eapply wp_mono; [by apply (Hf (next_call s))|]. intros [a|e] s2 H; [|by apply H].
  apply wp_bind, wp_ask. rewrite (rel_db Hrel). by apply wp_ret, H.
Qed.

Definition bumped (t : OperationType) (p p' : ETHParams) : Prop :=
  ep_commit_ops p' = (if decide (t = Commit) then to_i64 (ep_commit_ops p + 1) else ep_commit_ops p) ∧
  ep_verify_ops p' = (if decide (t = Verify) then to_i64 (ep_verify_ops p + 1) else ep_verify_ops p) ∧
  ep_withdraw_ops p' = (if decide (t = Withdraw_) then to_i64 (ep_withdraw_ops p + 1) else ep_withdraw_ops p).

(** A new operation is started wholly or not at all. *)
Lemma initialize_mirror tx s :
  mirror (es_db s) (ongoing_ops s) → from_option (op_known (es_db s)) True (td_operation tx) →
  wp (initialize_operation env options tx) (λ r s', tx_queue s' = tx_queue s ∧
    match r with
    | Ok _ => mirror (es_db s') (ongoing_ops s') ∧ length (ongoing_ops s') = S (length (ongoing_ops s)) ∧
        operations (es_db s') = operations (es_db s) ∧
        ∃ p p', eth_parameters (es_db s) = Some p ∧ eth_parameters (es_db s') = Some p' ∧ bumped (td_op_type tx) p p'
    | Err _ => es_db s' = es_db s ∧ ongoing_ops s' = ongoing_ops s
    end) s.
Proof.
  intros Hm Hk. set (Q := λ (_ : result unit) _, _ ∧ _).
  assert (∀ e s', unchanged s s' → Q (Err e) s') as HE by (by intros e s' (? & ? & ?)).
  unfold initialize_operation. apply wp_bind, wp_ask_frame. intros s1 H1.
  destruct (env_block_number _ _) as [current|]; [|by apply HE].
  apply wp_bind, wp_gas_frame. intros [gas|] s2 H2; [|apply HE; chain].
  apply wp_bind, wp_transaction_frame. intros s3 H3.
  assert (unchanged s s3) as H03 by chain. clear H1 H2 H3.
  unfold db_save_new_eth_tx. do 2 apply wp_bind. apply wp_total.
  destruct (match td_operation tx with Some _ => _ | None => _ end) as [oid|] eqn:Eoid; [|done]. unfold returns.
  assert (oid = td_operation tx ≫= op_id) as ->.
  { destruct (td_operation tx) as [o|]; [|by injection Eoid]. cbn in Eoid |- *.
    destruct (op_id o); [by injection Eoid|done]. }
  apply wp_db_frame; [intros e s4 _ H4 s5 H5; apply HE; chain|]. intros ins s4 Hsave F4.
  apply wp_bind. unfold sign_new_tx, sign_prepared_tx. apply wp_ask_frame. intros s5 H5. cbn [eo_encoded_tx_data eo_nonce eo_last_used_gas_price].
  destruct (rel_sign Hrel (calls s4) (td_raw tx) (ins_nonce ins) gas) as [sc Hsign]. rewrite Hsign.
  apply wp_bind, wp_db_frame; [by intros e s6 E|]. intros [] s6 Hadd F6. apply no_result_Ok in Hadd.
  apply wp_ret. intros s7 H7. apply wp_bind, wp_update. unfold returns. apply wp_log_error, wp_send_frame. intros _ s8 (E8 & Q8 & O8).
  cbn [es_db tx_queue ongoing_ops set_ongoing] in E8, Q8, O8. cbn [eo_id with_hash] in Hadd.
  destruct H03 as (E3 & Q3 & O3). destruct F4 as (Q4 & O4), H5 as (E5 & Q5 & O5), F6 as (Q6 & O6), H7 as (E7 & Q7 & O7).
  assert (ongoing_ops s7 = ongoing_ops s) as O07 by congruence.
  split; [congruence|]. rewrite E8, O8, O07, E7. rewrite E3 in Hsave. rewrite E5 in Hadd.
  split.
  { eapply (mirror_insert _ _ _ _ (get_deadline_block options current)); [exact Hm|done|done| |exact Hsave|exact Hsign|exact Hadd].
    apply wrap_fits. lia. }
  split; [rewrite length_app; cbn; lia|].
  apply save_new_eth_tx_inv in Hsave as (p & p' & Hp & _ & _ & _ & _ & _ & _ & _ & Eo & Hp' & _ & B).
  injection Hadd as <-. cbn. split; [done|]. exists p, p'. done.
Qed.

(** What a step on an ongoing operation leaves: without the operation if it is committed. *)
Definition stepped (acc rest : list ETHOperation) (s : ETHSender) (r : result OperationCommitment) (op : ETHOperation)
    (s' : ETHSender) : Prop :=
  frame s s' ∧ eth_parameters (es_db s') = eth_parameters (es_db s) ∧ ops_kept (es_db s) (es_db s') ∧
  mirror (es_db s') (acc ++ match r with Ok OpCommitted => rest | _ => op :: rest end).

Lemma unchanged_stepped acc op rest s s' r :
  unchanged s s' → mirror (es_db s) (acc ++ op :: rest) → r ≠ Ok OpCommitted → stepped acc rest s r op s'.
Proof.
  intros [E F] Hm Hr. split; [done|]. rewrite E. split; [done|]. split; [by intros so o ? ?; exists so|].
  by destruct r as [[]|].
Qed.

Lemma check_hashes_mirror acc op rest current_block hashes s :
  mirror (es_db s) (acc ++ op :: rest) → hashes ⊆ eo_used_tx_hashes op →
  wp (check_hashes env options op current_block hashes) (λ r s',
    match r with
    | Ok (Some OpCommitted) => stepped acc rest s (Ok OpCommitted) op s'
    | _ => unchanged s s'
    end) s.
Proof.
  revert s. induction hashes as [|hash hashes IH]; intros s Hm Hsub; cbn [check_hashes]; [done|].
  apply wp_bind, wp_check_transaction_state; [done|]. intros o Ho. destruct o; [|done| |done].
  - destruct (Ho eq_refl) as (st & Hst & Hsucc & Hconf).
    destruct (mirror_confirm _ acc op rest hash _ st Hm Hrel Hrb ltac:(set_solver) Hst Hsucc Hconf) as (db' & Hrun & Hm' & Hp & Hk).
    apply wp_bind, wp_db_frame; cbn [es_db next_call]; unfold no_result; rewrite Hrun; [done|].
    intros [] s' [= E] F. subst db'. apply wp_ret. by split.
  - eapply wp_mono; [apply (IH (next_call s)); [done|set_solver]|]. done.
Qed.

Lemma commitment_step_mirror acc op rest s :
  mirror (es_db s) (acc ++ op :: rest) →
  wp (perform_commitment_step env options) (λ r p, eo_op p.1 = eo_op op ∧ stepped acc rest s r p.1 p.2) (op, s).
Proof.
  intros Hm. set (Q := λ _ _, _ ∧ _).
  assert (∀ r s', unchanged s s' → r ≠ Ok OpCommitted → Q r (op, s')) as HQ by (intros; split; [done|by apply unchanged_stepped]).
  unfold perform_commitment_step. apply wp_bind, wp_gets. cbn [fst].
  apply wp_bind, wp_total, returns_assert. intros _.
  apply wp_bind, wp_on_sender, wp_ask_frame. intros s0 H0.
  destruct (env_block_number _ _) as [current|]; [|by apply HQ].
  apply wp_bind, wp_on_sender. eapply wp_mono; [apply (check_hashes_mirror acc op rest); [by rewrite (proj1 H0)|done]|].
  intros r s1 H1. destruct r as [[[]|]|]; [|apply wp_ret, HQ; [chain|done]| |apply HQ; [chain|done]].
  { apply wp_ret. split; [done|]. destruct H0 as [E0 F0], H1 as (F1 & P1 & K1 & M1). rewrite E0 in P1, K1. split; [by etrans|]. done. }
  apply wp_bind. unfold create_supplement_tx. apply wp_bind, wp_gets. cbn [fst].
  apply wp_bind, wp_on_sender, wp_gas_frame. intros [gas|] s2 H2; [|apply HQ; [chain|done]].
  apply wp_bind, wp_on_sender. unfold sign_prepared_tx. apply wp_ask_frame. intros s3 H3.
  destruct (rel_sign Hrel (calls s2) (eo_encoded_tx_data op) (eo_nonce op) gas) as [sc Hsign]. rewrite Hsign.
  apply wp_bind, wp_update. unfold returns. apply wp_ret. fold (supplemented op (get_deadline_block options current) sc).
  apply wp_bind, wp_on_sender, wp_transaction_frame. intros s4 H4.
  assert (unchanged s s4) as [E4 F4] by chain. clear H0 H1 H2 H3 H4.
  apply wp_bind, wp_db_frame; [by intros e s5 E|]. intros [] s5 Hup F5. apply no_result_Ok in Hup.
  apply wp_db_frame; [by intros e s6 E|]. intros [] s6 Hadd F6. apply no_result_Ok in Hadd. intros s7 [E7 F7].
  rewrite E4 in Hup. assert (∀ r s', unchanged s7 s' → r ≠ Ok OpCommitted → Q r (supplemented op (get_deadline_block options current) sc, s')) as HQ'.
  { intros r s' [E' F'] Hr. split; [done|]. cbn. split; [by do 4 (etrans; [done|])|]. rewrite E', E7.
    assert (eth_parameters (es_db s6) = eth_parameters (es_db s) ∧ operations (es_db s6) = operations (es_db s)) as [-> Eo].
    { injection Hup as Eup. injection Hadd as Eadd. by rewrite <- Eadd, <- Eup. }
    split; [done|]. split.
    - intros so o ? ?. exists so. by rewrite Eo.
    - assert (mirror (es_db s6) (acc ++ supplemented op (get_deadline_block options current) sc :: rest)) as Hm'.
      { eapply mirror_update; [exact Hm|apply wrap_fits; lia|exact Hsign|exact Hup|exact Hadd]. }
      by destruct r as [[]|]. }
  apply wp_bind, wp_on_sender, wp_send_frame. intros [] s8 H8; [apply wp_ret|]; by apply HQ'.
Qed.

(** ** The queue and the counters *)

Definition counts_match (db : EthDb) (q : TxQueue) : Prop := ∃ p, eth_parameters db = Some p ∧
  CounterQueue.counter (commit_operations q) = wrap 64 (ep_commit_ops p) ∧
  SparseQueue.next_expected_idx (verify_operations q) = wrap 64 (ep_verify_ops p + 1) ∧
  CounterQueue.counter (withdraw_operations q) = wrap 64 (ep_withdraw_ops p).

Definition in_queue (q : TxQueue) (d : TxData) : Prop :=
  d ∈ CounterQueue.elements (commit_operations q) ∨ d ∈ CounterQueue.elements (withdraw_operations q) ∨
  ∃ i, SparseQueue.elements (verify_operations q) !! i = Some d.

Record recoverable (ops : list ETHOperation) (s : ETHSender) : Prop := {
  rv_mirror : mirror (es_db s) ops;
  rv_typed : queue_typed (tx_queue s);
  rv_counts : counts_match (es_db s) (tx_queue s);
  rv_known d : in_queue (tx_queue s) d → from_option (op_known (es_db s)) True (td_operation d);
  rv_sent : Z.of_nat (length ops) ≤ sent_pending_txs (tx_queue s) ≤ max_pending_txs (tx_queue s);
  rv_max : max_pending_txs (tx_queue s) < 2 ^ 64;
}.

Lemma wrap_succ z : wrap 64 (wrap 64 z + 1) = wrap 64 (z + 1).
Proof. unfold wrap. by rewrite Zplus_mod_idemp_l. Qed.

(** The queue after the pop of a transaction that was started. *)
Lemma pop_counts db db' q d q1 p p' :
  queue_typed q → counts_match db q → next_operation q (Some d) q1 →
  eth_parameters db = Some p → eth_parameters db' = Some p' → bumped (td_op_type d) p p' →
  queue_typed q1 ∧ counts_match db' q1 ∧ in_queue q d ∧ (∀ d', in_queue q1 d' → in_queue q d').
Proof.
  intros [T1 T2 T3 T4 T5 T6] (p0 & Hp0 & C1 & C2 & C3) Hnext Hp Hp' (B1 & B2 & B3).
  rewrite Hp in Hp0. injection Hp0 as <-.
  assert (∀ z, fits 64 (wrap 64 z)) as Hfit by (intros; apply wrap_fits; lia).
  inversion Hnext as [? ? E|? rest ? E|? rest E|]; subst.
  - pose proof (T3 _ _ E) as Ety. rewrite Ety in *. split; [split; try done; cbn; [|by apply Hfit]|].
    { intros i d' [_ Hd]%lookup_delete_Some. by eapply T3. }
    split; [|split; [right; right; by eexists|]].
    + exists p'. rewrite B1, B2, B3. cbn. split_and!; try done. rewrite C2, wrap_succ, decide_True by done.
      rewrite <- (wrap_succ (to_i64 _)), wrap_to_i64. by rewrite wrap_succ.
    + intros d' [?|[?|[i Hi]]]; [by left|by right; left|]. cbn in Hi. apply lookup_delete_Some in Hi as [_ Hi]. right; right. by eexists.
  - rewrite E in T2. pose proof (proj1 (proj1 (Forall_cons _ _ _) T2)) as Ety. cbn in Ety. rewrite Ety in *.
    split; [split; try done; cbn; [by apply Forall_cons in T2 as []|by apply Hfit]|].
    split; [|split; [right; left; rewrite E; set_solver|]].
    + exists p'. rewrite B1, B2, B3. cbn. split_and!; try done. by rewrite C3, wrap_succ, decide_True, wrap_to_i64.
    + intros d' [?|[?|?]]; [by left| |by right; right]. cbn in *. right; left. rewrite E. set_solver.
  - rewrite E in T1. pose proof (proj1 (proj1 (Forall_cons _ _ _) T1)) as Ety. cbn in Ety. rewrite Ety in *.
    split; [split; try done; cbn; [by apply Forall_cons in T1 as []|by apply Hfit]|].
    split; [|split; [left; rewrite E; set_solver|]].
    + exists p'. rewrite B1, B2, B3. cbn. split_and!; try done. by rewrite C1, wrap_succ, decide_True, wrap_to_i64.
    + intros d' [?|[?|?]]; [|by right; left|by right; right]. cbn in *. left. rewrite E. set_solver.
Qed.

Lemma next_in_queue q d q1 : next_operation q (Some d) q1 → in_queue q d.
Proof.
  inversion 1 as [? ? E|? rest ? E|? rest E|]; subst; [right; right; by eexists|right; left|left]; rewrite E; set_solver.
Qed.

Lemma ops_kept_refl db : ops_kept db db.
Proof. intros so o ? ?. by exists so. Qed.
Lemma ops_kept_trans a b c : ops_kept a b → ops_kept b c → ops_kept a c.
Proof.
  intros H1 H2 so o Hso Hi. destruct (H1 _ _ Hso Hi) as (so1 & Hs1 & E1 & Hi1).
  destruct (H2 _ _ Hs1 Hi1) as (so2 & ? & E2 & ?). exists so2. by rewrite E2, E1.
Qed.
Lemma ops_kept_eq db db' : operations db' = operations db → ops_kept db db'.
Proof. intros E so o ? ?. exists so. by rewrite E. Qed.

Lemma known_kept db db' o :
  ops_kept db db' → from_option (op_known db) True o → from_option (op_known db') True o.
Proof. destruct o; [|done]. apply op_known_kept. Qed.

Definition kept (s s' : ETHSender) : Prop := ops_kept (es_db s) (es_db s').

Lemma send_loop_recoverable fuel s :
  recoverable (ongoing_ops s) s →
  returns (send_loop env options fuel s) (λ s', recoverable (ongoing_ops s') s' ∧ kept s s').
Proof.
  revert s. induction fuel as [|fuel IH]; intros s Hs; [by split; [|apply ops_kept_refl]|]. cbn [send_loop].
  destruct (Z.le_gt_cases (max_pending_txs (tx_queue s)) (sent_pending_txs (tx_queue s))) as [Hfull|Hfree].
  { rewrite pop_front_full by done. cbn. split; [|apply ops_kept_refl]. by destruct Hs. }
  destruct (get_next_operation_cases (tx_queue s)) as (d & q1 & Hget & Hnext).
  unfold TxQueue.pop_front. rewrite (proj2 (Z.leb_gt _ _)) by lia. rewrite Hget. destruct d as [d|].
  2:{ cbn. assert (q1 = tx_queue s) as -> by (by inversion Hnext). split; [by destruct Hs|apply ops_kept_refl]. }
  cbn [mbind outcome_bind fst snd]. destruct Hs as [M T C K L B]. rewrite wrap_small.
  2:{ assert (sent_pending_txs q1 = sent_pending_txs (tx_queue s)) as -> by (by inversion Hnext). unfold fits. lia. }
  eapply returns_call.
  { apply initialize_mirror; [exact M|]. apply K. by eapply next_in_queue. }
  assert (sent_pending_txs q1 = sent_pending_txs (tx_queue s) ∧ max_pending_txs q1 = max_pending_txs (tx_queue s)) as [Es Em]
    by (by inversion Hnext).
  intros [[]|e] s' [Eq H]; cbn [tx_queue ongoing_ops es_db set_tx_queue] in Eq, H.
  - destruct H as (M' & Hlen & Eo & p & p' & Hp & Hp' & Hb).
    destruct (pop_counts _ (es_db s') _ _ _ _ _ T C Hnext Hp Hp' Hb) as (T' & C' & _ & Hin).
    eapply returns_mono; [apply IH|].
    + split; rewrite ?Eq; cbn; try done; [by destruct T'| |rewrite Hlen; lia|lia].
      intros d' Hd'. eapply known_kept; [by apply ops_kept_eq|]. by apply K, Hin.
    + intros s2 [? Hk]. split; [done|]. eapply ops_kept_trans; [by apply ops_kept_eq|exact Hk].
  - destruct H as [Edb Eon]. rewrite Eq, return_popped_set_sent, (return_popped_next (tx_queue s)) by done.
    eapply returns_mono; [apply IH|].
    + cbn. rewrite Eon. split; cbn; rewrite ?Edb; try done; [by destruct T|lia].
    + intros s2 [? Hk]. split; [done|]. unfold kept in *. cbn in Hk. by rewrite Edb in Hk.
Qed.

(** Adding to the queues. *)
Lemma recoverable_queue ops s q :
  recoverable ops s → queue_typed q → counts_match (es_db s) q →
  (∀ d, in_queue q d → in_queue (tx_queue s) d ∨ from_option (op_known (es_db s)) True (td_operation d)) →
  sent_pending_txs q = sent_pending_txs (tx_queue s) → max_pending_txs q = max_pending_txs (tx_queue s) →
  recoverable ops (set_tx_queue q s).
Proof.
  intros [M T C K L B] Tq Cq Kq Es Em. split; cbn; rewrite ?Es, ?Em; try done. intros d [Hd|Hd]%Kq; [by apply K|done].
Qed.

Lemma add_operation_recoverable ops op s :
  recoverable ops s → op_known (es_db s) op →
  returns (add_operation_to_queue env op s) (λ s', recoverable ops s' ∧ es_db s' = es_db s ∧ ongoing_ops s' = ongoing_ops s).
Proof.
  intros Hs Hk. unfold add_operation_to_queue. wp_step. destruct (operation_to_raw_tx env op) as [raw|]; [|done]. cbn [returns].
  destruct (rv_typed _ _ Hs) as [T1 T2 T3 T4 T5 T6]. pose proof (rv_counts _ _ Hs) as (p & Hp & C).
  destruct (op_action op); cbn.
  - split; [|done]. apply recoverable_queue; try done.
    + split; try done. cbn. apply Forall_app_2; [done|by constructor].
    + by exists p.
    + intros d [[Hd|Hd]%elem_of_app|[Hd|Hd]]; [by left; left| |by left; right; left|by left; right; right].
      apply list_elem_of_singleton in Hd as ->. by right.
  - unfold add_verify_operation, SparseQueue.insert. destruct (_ <=? _); [|done]. cbn. split; [|done]. apply recoverable_queue; try done.
    + split; try done. cbn. by apply map_Forall_insert_2.
    + by exists p.
    + intros d [Hd|[Hd|[i Hd]]]; [by left; left|by left; right; left|]. cbn in Hd.
      apply lookup_insert_Some in Hd as [[_ <-]|[_ Hd]]; [by right|left; right; right; by eexists].
Qed.

Lemma add_operations_recoverable ops l s :
  recoverable ops s → Forall (op_known (es_db s)) l →
  returns (add_operations env l s) (λ s', recoverable ops s' ∧ es_db s' = es_db s ∧ ongoing_ops s' = ongoing_ops s).
Proof.
  revert s. induction l as [|op l IH]; intros s Hs Hl; [done|]. cbn [add_operations]. apply Forall_cons in Hl as [Hop Hl].
  wp_step. wp_step. eapply returns_then; [by apply add_operation_recoverable|]. intros s1 (H1 & E1 & O1).
  eapply returns_mono; [apply IH; [done|by rewrite E1]|]. intros s2 (? & ? & ?). split; [done|]. split; congruence.
Qed.

Lemma add_withdrawals_recoverable ops s : recoverable ops s → recoverable ops (add_complete_withdrawals_to_queue env s).
Proof.
  intros Hs. destruct (rv_typed _ _ Hs) as [T1 T2 T3 T4 T5 T6]. apply recoverable_queue; try done.
  - split; try done. cbn. apply Forall_app_2; [done|by constructor].
  - apply Hs.
  - intros d [Hd|[[Hd|Hd]%elem_of_app|Hd]]; [by left; left|by left; right; left| |by left; right; right].
    apply list_elem_of_singleton in Hd as ->. by right.
Qed.

Lemma proceed_recoverable acc op rest s :
  recoverable (acc ++ op :: rest) s →
  returns (proceed_ongoing env options op s)
    (λ r, recoverable (acc ++ option_list r.1 ++ rest) r.2 ∧ kept s r.2 ∧ ongoing_ops r.2 = ongoing_ops s).
Proof.
  intros [M T C K L B]. unfold proceed_ongoing. eapply returns_call; [by apply (commitment_step_mirror acc op rest)|].
  intros r [op' s'] (Eop & [Eq Eo] & Ep & Hk & M'). cbn [fst snd] in *.
  assert (∀ d, in_queue (tx_queue s) d → from_option (op_known (es_db s')) True (td_operation d)) as K'.
  { intros d Hd. eapply known_kept; [done|]. by apply K. }
  assert (counts_match (es_db s') (tx_queue s)) as C' by (destruct C as (p & ? & ?); exists p; by rewrite Ep).
  rewrite length_app in L. cbn [length] in L.
  assert (r ≠ Ok OpCommitted → recoverable (acc ++ op' :: rest) s') as Hpend.
  { intros Hr. split; rewrite ?Eq; try done; [by destruct r as [[]|]|]. rewrite length_app. cbn. done. }
  destruct r as [[]|]; [|by split; [apply Hpend|]|by split; [apply Hpend|]].
  unfold report_commitment. rewrite Eq, (proj2 (Z.ltb_lt _ _)) by lia. cbn [assert_that mbind outcome_bind].
  rewrite wrap_small by (unfold fits; lia).
  assert (recoverable (acc ++ rest) (set_tx_queue (set_sent (sent_pending_txs (tx_queue s) - 1) (tx_queue s)) s')) as Hr.
  { split; cbn; try done; [by destruct T|]. rewrite length_app. lia. }
  destruct (is_verify op'); [|by split]. wp_step. wp_step. unfold returns. cbn [fst snd option_list app].
  split; [|by destruct (env_notify _ _)]. apply add_withdrawals_recoverable. by destruct (env_notify _ _), Hr.
Qed.

Lemma ongoing_loop_recoverable ops acc s :
  recoverable (acc ++ ops) s →
  returns (ongoing_loop env options ops acc s) (λ r, recoverable r.1 r.2 ∧ kept s r.2).
Proof.
  revert acc s. induction ops as [|op ops IH]; intros acc s Hs.
  { rewrite app_nil_r in Hs. split; [done|apply ops_kept_refl]. }
  cbn [ongoing_loop]. eapply returns_then; [by apply proceed_recoverable|]. intros [o s'] (Hs' & Hk & _). cbn [fst snd] in *.
  rewrite app_assoc in Hs'. eapply returns_mono; [by apply IH|]. intros r [? ?]. split; [done|]. by eapply ops_kept_trans.
Qed.

Lemma round_recoverable input s :
  recoverable (ongoing_ops s) s → Forall (op_known (es_db s)) (ri_operations input) →
  returns (sender_round env options input s) (λ s', recoverable (ongoing_ops s') s' ∧ kept s s').
Proof.
  intros Hs Hin. unfold sender_round. eapply returns_then; [by apply add_operations_recoverable|]. intros s1 (H1 & E1 & O1).
  rewrite <- O1 in H1. eapply (returns_then _ (λ s', recoverable (ongoing_ops s') s' ∧ kept s s')).
  - unfold proceed_next_operations. eapply returns_then; [by apply send_loop_recoverable|]. intros s2 [H2 K2].
    eapply returns_then; [apply (ongoing_loop_recoverable _ []); by destruct H2|]. intros [ops s3] [H3 K3]. cbn in *.
    split; [by destruct H3|]. unfold kept in *. rewrite E1 in K2. eapply ops_kept_trans; [exact K2|exact K3].
  - intros s2 [H2 K2]. unfold keep_gas_updated. destruct (keep_updated _ _ _ _) as [[[limit|] g]|]; [| |done].
    2:{ cbn. split; [by destruct H2|done]. }
    cbn [mbind outcome_bind fst snd].
    assert (wp (db_access env (no_result (update_gas_price_limit limit)))
              (λ _ s', recoverable (ongoing_ops s') s' ∧ kept s s') (set_gas_adjuster g s2)) as H.
    { apply wp_db_frame; [intros e s' _ (E & Eq & Eo)|intros [] s' E (Eq & Eo)]; cbn in *.
      - split; [|unfold kept; by rewrite E]. destruct H2. split; rewrite ?E, ?Eq, ?Eo; done.
      - apply no_result_Ok in E. destruct H2 as [M T C K L B]. destruct C as (p & Hp & C).
        pose proof (update_gas_price_limit_ok _ _ _ _ _ _ _ (mr_rows _ _ M) E) as [Hr _].
        unfold update_gas_price_limit in E. destruct (_ <? _); [|done]. cbn in E. rewrite Hp in E. injection E as E.
        split; [|unfold kept; by rewrite <- E]. rewrite Eo. split; rewrite ?Eq; try done.
        + destruct M as [M1 M2 M3 M4 M5 M6 M7]. rewrite <- E in *. split; try done.
          eapply Forall2_impl; [exact M2|]. intros e op Hop. by eapply row_matches_kept; [|..|apply ops_kept_eq].
        + rewrite <- E. by eexists.
        + intros d Hd. rewrite <- E. by apply K. }
    unfold wp in H. by destruct (db_access _ _ _) as [[]|].
Qed.

Lemma run_recoverable inputs s :
  recoverable (ongoing_ops s) s → Forall (λ input, Forall (op_known (es_db s)) (ri_operations input)) inputs →
  returns (sender_run env options inputs s) (λ s', recoverable (ongoing_ops s') s').
Proof.
  revert s. induction inputs as [|input inputs IH]; intros s Hs Hin; [done|]. cbn [sender_run].
  apply Forall_cons in Hin as [H1 H2]. eapply returns_then; [by apply round_recoverable|]. intros s' [Hs' Hk]. apply IH; [done|].
  eapply Forall_impl; [exact H2|]. intros i Hi. eapply Forall_impl; [exact Hi|]. intros o. by apply op_known_kept.
Qed.
End Mirror.

(** ** Restarting *)
Section Restart.
  Context `{EX : External} (env : Environment) (options : EthSenderOptions).
  Context (into_op : StoredOperation → Fallible Operation) (u256_from_str : Z → option Z).

Lemma unprocessed_known db ops :
  load_unprocessed_operations into_op db = Val (Ok ops) → Forall (op_known into_op db) ops.
Proof.
  unfold load_unprocessed_operations. assert (∀ so, so ∈ unprocessed_rows db → so ∈ operations db) as Hsub.
  { intros so Hso. unfold unprocessed_rows in Hso. apply list_elem_of_In, List.filter_In in Hso as [Hso _].
    apply list_elem_of_In, elem_of_order_by, list_elem_of_In, List.filter_In in Hso as [Hso _]. by apply list_elem_of_In. }
  revert ops. induction (unprocessed_rows db) as [|so rows IH]; intros ops; cbn; [by intros [= <-]|].
  destruct (into_op so) as [[o|]|] eqn:Ei; [|done..]. cbn.
  destruct (convert_all _ rows) as [[ops'|]|]; [|done..]. cbn. intros [= <-]. constructor; [|apply IH; set_solver].
  exists so. split; [apply Hsub; set_solver|done].
Qed.

Lemma fresh_recoverable db p now s0 :
  eth_operations db = [] → eth_tx_hashes db = [] → eth_ops_binding db = [] →
  eth_parameters db = Some p → 0 ≤ ep_nonce p < 2 ^ 63 → NoDup (so_id <$> operations db) →
  0 ≤ max_txs_in_flight options < 2 ^ 64 →
  ETHSender_new env options into_op u256_from_str db now = Val s0 →
  recoverable env options into_op (eth_operations_seq db) (ep_nonce p) (eth_tx_hashes_seq db) (ongoing_ops s0) s0 ∧
  es_db s0 = db.
Proof.
  intros Hrows Hhashes Hbind Hp Hn Hids Hmax Hnew. unfold ETHSender_new in Hnew.
  destruct (restore_state into_op u256_from_str db) as [[[ongoing unprocessed]|]|] eqn:Hrest; [|done..].
  unfold restore_state, load_unconfirmed_operations, unconfirmed_rows in Hrest. rewrite Hrows in Hrest. cbn in Hrest.
  destruct (load_unprocessed_operations into_op db) as [[ops|]|] eqn:Hun; [|done..]. injection Hrest as <- <-.
  unfold load_stats, first_params in Hnew. rewrite Hp in Hnew. cbn [expect_ok ok_or mbind fallible_bind outcome_bind] in Hnew.
  destruct (load_gas_price_limit db) as [[limit|]|]; [|done..]. cbn [expect_ok mbind outcome_bind] in Hnew.
  set (s1 := mkSender _ _ _ _ _ _ _) in Hnew.
  assert (recoverable env options into_op (eth_operations_seq db) (ep_nonce p) (eth_tx_hashes_seq db) [] s1) as Hs1.
  { assert (∀ z, fits 64 (wrap 64 z)) as Hfit by (intros; apply wrap_fits; lia).
    split; cbn; try done; try lia.
    - split; rewrite ?Hrows, ?Hhashes, ?Hbind; cbn; try done; [|lia|set_solver|set_solver].
      split; rewrite ?Hrows; cbn; try done; [lia| |lia|set_solver]. exists p. split; [done|]. by rewrite Z.add_0_r, to_i64_small.
    - split; cbn; try done; by apply Hfit.
    - exists p. split_and!; try done. cbn. apply wrap_succ.
    - intros d [Hd|[Hd|[i Hd]]]; [set_solver..|]. cbn in Hd. by rewrite lookup_empty in Hd. }
  pose proof (add_operations_recoverable _ _ _ _ _ _ [] _ s1 Hs1 (unprocessed_known _ _ Hun)) as Hadd.
  apply (returns_Val _ _ _ Hadd) in Hnew as (H1 & H2 & H3). by rewrite H3.
Qed.

(** A row without hashes. *)
Lemma joined_nonempty db e : ∃ o l, joined_operations db e = o :: l.
Proof.
  unfold joined_operations. destruct (List.filter _ (eth_ops_binding db)) as [|b bs]; [by eexists _, _|].
  cbn. destruct (List.filter _ (operations db)); by eexists _, _.
Qed.

Lemma no_hashes_panic db e now :
  eth_operations db = [e] → se_confirmed e = false → eth_tx_hashes db = [] →
  ETHSender_new env options into_op u256_from_str db now = Panic "No hashes stored for the Ethereum operation".
Proof.
  intros He Hc Hh. unfold ETHSender_new, restore_state, load_unconfirmed_operations, unconfirmed_rows. rewrite He. cbn.
  rewrite Hc. cbn. destruct (joined_nonempty db e) as (o & l & ->). cbn. unfold hashes_of. by rewrite Hh.
Qed.

(** The transaction around the first steps of an operation does not hold: the statements run on
    connections of their own.  When the signer fails on the first operation, the row that was
    written for it stays without hashes, and the sender cannot be started any more. *)
Theorem failed_signing_breaks_restart tx s r s' now :
  (∀ n raw nonce gas, ∃ e, env_sign env n raw nonce gas = Err e) →
  eth_operations (es_db s) = [] → eth_tx_hashes (es_db s) = [] →
  initialize_operation env options tx s = Val (r, s') → es_db s' ≠ es_db s →
  (∃ e, r = Err e) ∧
  ETHSender_new env options into_op u256_from_str (es_db s') now = Panic "No hashes stored for the Ethereum operation".
Proof.
  intros Hsign Hrows Hhashes Hrun Hne.
  assert (wp (initialize_operation env options tx) (λ r s', (∃ e, r = Err e) ∧ (es_db s' = es_db s ∨
    ∃ e, eth_operations (es_db s') = [e] ∧ se_confirmed e = false ∧ eth_tx_hashes (es_db s') = [])) s) as H.
  { unfold initialize_operation. apply wp_bind, wp_ask. destruct (env_block_number _ _); [|by split; [eexists|left]].
    apply wp_bind, wp_ask_gas_price. intros [gas|] g; [|by split; [eexists|left]].
    apply wp_bind, wp_db_transaction; [by split; [eexists|left]|].
    unfold db_save_new_eth_tx. do 2 apply wp_bind. apply wp_total.
    destruct (match td_operation tx with Some _ => _ | None => _ end) as [oid|]; [|done]. unfold returns.
    apply wp_db_access; [by split; [eexists|left]|]. intros ins db _ Hsave.
    apply save_new_eth_tx_inv in Hsave as (p & p' & _ & _ & _ & Er & _ & Eh & _). cbn in Er, Eh.
    apply wp_bind. unfold sign_new_tx, sign_prepared_tx. apply wp_ask. edestruct Hsign as [e ->].
    split; [by eexists|]. right. cbn. rewrite Er, Eh, Hrows, Hhashes. by eexists. }
  apply (wp_run _ _ _ _ _ H) in Hrun as [? [?|(e & ? & ? & ?)]]; [done|]. split; [done|]. by eapply no_hashes_panic.
Qed.

(** The tables hold the sender's state. *)
Lemma restart_loads db p now inputs s0 s :
  reliable env → reads_back into_op →
  eth_operations db = [] → eth_tx_hashes db = [] → eth_ops_binding db = [] →
  eth_parameters db = Some p → 0 ≤ ep_nonce p < 2 ^ 63 → NoDup (so_id <$> operations db) →
  0 ≤ max_txs_in_flight options < 2 ^ 64 →
  ETHSender_new env options into_op u256_from_str db now = Val s0 →
  Forall (λ input, Forall (op_known into_op db) (ri_operations input)) inputs →
  sender_run env options inputs s0 = Val s →
  (∀ op, op ∈ ongoing_ops s → is_Some (u256_from_str (eo_last_used_gas_price op))) →
  (∃ ops, load_unconfirmed_operations into_op u256_from_str (es_db s) = Val (Ok ops) ∧
     Forall2 (reloaded u256_from_str) (ongoing_ops s) ops) ∧
  (∃ verify_ops, load_stats (es_db s) = Val (Ok (mkETHStats (CounterQueue.counter (commit_operations (tx_queue s))) verify_ops
                   (CounterQueue.counter (withdraw_operations (tx_queue s))))) ∧
     SparseQueue.next_expected_idx (verify_operations (tx_queue s)) = wrap 64 (verify_ops + 1)) ∧
  Z.of_nat (length (ongoing_ops s)) ≤ sent_pending_txs (tx_queue s) ≤ max_pending_txs (tx_queue s).
Proof.
  intros Hrel Hrb Hrows Hhashes Hbind Hp Hn Hids Hmax Hnew Hin Hrun Hgas.
  destruct (fresh_recoverable _ _ _ _ Hrows Hhashes Hbind Hp Hn Hids Hmax Hnew) as [H0 Hdb]. rewrite <- Hdb in Hin.
  pose proof (run_recoverable _ _ _ _ _ _ Hrel Hrb inputs s0 H0 Hin) as H. rewrite Hrun in H. destruct H as [M _ C _ L _].
  split; [by eapply load_unconfirmed_mirror|]. split; [|done]. destruct C as (q & Hq & C1 & C2 & C3).
  unfold load_stats, first_params. rewrite Hq, C1, C2, C3. cbn. eexists. split; [done|]. by rewrite wrap_succ.
Qed.
End Restart.

(** ** Operations of the block schema *)
Section StoredOperations.
  Context `{C : Codec} (env : Environment) (options : EthSenderOptions) (u256_from_str : Z → option Z).
  Context (created_at : Z) (chain : ChainDb).

(** [StoredOperation::into_op] does not look at the confirmation of the row and keeps its id. *)
Lemma into_op_reads_back : reads_back (into_op created_at chain).
Proof.
  intros so o H. unfold into_op in *. apply fallible_bind_Ok in H as (action & Ha & H). apply fallible_bind_Ok in H as (bl & Hb & H).
  apply fallible_bind_Ok in H as (us & Hu & H). injection H as <-. split; [done|]. intros b. cbn [so_block_number so_action_type so_id].
  rewrite Ha. cbn [mbind fallible_bind]. rewrite Hb. cbn [mbind fallible_bind]. by rewrite Hu.
Qed.

(** C16: Restarting the sender: when the sender was started on tables without Ethereum operations, the database and the
    signer always answer and the hash of a signed transaction determines its nonce, then after any rounds,
    whatever the Ethereum node answers, the tables hold the sender's state but for the gas prices: loading the
    unconfirmed operations yields the ongoing ones in their order, with their ids, nonces, deadlines, data,
    operations and all their hashes, and with the gas price that U256::from_str makes of the stored text (if it
    accepts it); the stored counters are those of the queue, and the ongoing operations are at most the
    transactions that the queue counts as sent. *)
Theorem sender_restart db p now inputs s0 s :
  reliable env →
  eth_operations db = [] → eth_tx_hashes db = [] → eth_ops_binding db = [] →
  eth_parameters db = Some p → 0 ≤ ep_nonce p < 2 ^ 63 → NoDup (so_id <$> operations db) →
  0 ≤ max_txs_in_flight options < 2 ^ 64 →
  ETHSender_new env options (into_op created_at chain) u256_from_str db now = Val s0 →
  Forall (λ input, Forall (op_known (into_op created_at chain) db) (ri_operations input)) inputs →
  sender_run env options inputs s0 = Val s →
  (∀ op, op ∈ ongoing_ops s → is_Some (u256_from_str (eo_last_used_gas_price op))) →
  (∃ ops, load_unconfirmed_operations (into_op created_at chain) u256_from_str (es_db s) = Val (Ok ops) ∧
     Forall2 (reloaded u256_from_str) (ongoing_ops s) ops) ∧
  (∃ verify_ops, load_stats (es_db s) = Val (Ok (mkETHStats (CounterQueue.counter (commit_operations (tx_queue s))) verify_ops
                   (CounterQueue.counter (withdraw_operations (tx_queue s))))) ∧
     SparseQueue.next_expected_idx (verify_operations (tx_queue s)) = wrap 64 (verify_ops + 1)) ∧
  Z.of_nat (length (ongoing_ops s)) ≤ sent_pending_txs (tx_queue s) ≤ max_pending_txs (tx_queue s).
Proof. intros Hrel. by eapply restart_loads, into_op_reads_back. Qed.
End StoredOperations.
