(* ===== verification/Committer.v ===== *)
(** * The committer (core/server/src/committer.rs)

    One task stores the blocks of the state keeper and hands the operations on, the other
    looks for proofs.  The channels are the lists of sent messages; a message that cannot be
    delivered to the notifier or to the mempool is only logged.

    The blocks of the keeper end up in the database with their states, the operations in
    the queue of the sender; proved blocks are verified in order.  A block that the
    committer skips stops the verification of all later ones. *)

From S2P Require Import Prelude Bytes Params Externals Primitives Amounts Account Tx Operations Block.
From S2P Require Import Merkle AccountLeaf PlasmaState PlasmaProofs Ledger StateKeeper StateKeeperProofs DataRestore EthStorage Storage.
From S2P Require Import StorageProofs BlockStorage BlockStorageProofs.
Open Scope Z_scope.

Section Committer.
  Context `{C : Codec} (now : Z).

Record Committer : Type := mkCommitter {
  cm_db : ChainDb;
  cm_tx_for_eth : list Operation;
  cm_op_notify : list Operation;
  cm_mempool : list AccountUpdates;
  cm_last_verified_block : Z;
}.

Definition set_cm_db (db : ChainDb) (self : Committer) : Committer :=
  mkCommitter db (cm_tx_for_eth self) (cm_op_notify self) (cm_mempool self) (cm_last_verified_block self).

Definition expect {A} (msg : string) (m : Fallible A) : outcome A :=
  match m with Val (Ok a) => Val a | Val (Err _) => Panic msg | Panic msg => Panic msg end.

(** One round of [handle_new_commit_task]. *)
Definition handle_new_commit (req : CommitRequest) (self : Committer) : outcome Committer :=
  let block := cr_block req in
  let accounts_updated := cr_accounts_updated req in
  if bool_decide (accounts_updated = []) && (number_of_processed_prior_ops block =? 0) then
    db ← save_block_transactions (block_number block) (block_transactions block) (cm_db self);
    Val (set_cm_db db self)
  else
    let op := mkOperation None ACommit block accounts_updated in
    r ← expect "committer must commit the op into db" (execute_operation now op (cm_db self));
    let '(op, db) := r in
    Val (mkCommitter db (cm_tx_for_eth self ++ [op]) (cm_op_notify self ++ [op])
           (cm_mempool self ++ [op_accounts_updated op]) (cm_last_verified_block self)).

(** The inner loop of [poll_for_new_proofs_task]. *)
Fixpoint poll_for_new_proofs (fuel : nat) (self : Committer) : outcome Committer :=
  match fuel with
  | O => Val self
  | S fuel =>
      let number := wrap 32 (cm_last_verified_block self + 1) in
      match load_proof number (cm_db self) with
      | Panic msg => Panic msg
      | Val (Err _) => Val self
      | Val (Ok proof) =>
          block ← load_committed_block now number (cm_db self);
          block ← unwrap "failed to load block" block;
          r ← expect "committer must commit the op into db"
                (execute_operation now (mkOperation None (AVerify proof) block []) (cm_db self));
          let '(op, db) := r in
          poll_for_new_proofs fuel
            (mkCommitter db (cm_tx_for_eth self ++ [op]) (cm_op_notify self) (cm_mempool self) number)
      end
  end.

(** What happens to the database: blocks from the keeper, proofs from the provers (for
    committed blocks, since these are what a prover is given), and the polls. *)
Inductive CommitterEvent : Type :=
| EvBlock (req : CommitRequest)
| EvProof (block_number : Z) (proof : EncodedProofPlonk)
| EvPoll (fuel : nat).

Definition committer_step (ev : CommitterEvent) (self : Committer) : outcome Committer :=
  match ev with
  | EvBlock req => handle_new_commit req self
  | EvProof n proof =>
      match store_proof n proof (cm_db self) with
      | Val (Ok db) => Val (set_cm_db db self)
      | Val (Err _) => Val self
      | Panic msg => Panic msg
      end
  | EvPoll fuel => poll_for_new_proofs fuel self
  end.

Fixpoint committer_run (evs : list CommitterEvent) (self : Committer) : outcome Committer :=
  match evs with
  | [] => Val self
  | ev :: evs => self ← committer_step ev self; committer_run evs self
  end.
End Committer.

Section CommitterProofs.
  Context `{EX : External} {EXL : ExternalLaws} {C : Codec} {L : CodecLaws}.
  Context (now : Z).

Definition request_fits (req : CommitRequest) : Prop :=
  block_fits (cr_block req) ∧ Forall update_fits (cr_accounts_updated req) ∧
  NoDup (omap creates_id (cr_accounts_updated req)) ∧ Z.of_nat (length (cr_accounts_updated req)) < 2 ^ 31.

(** Blocks without account updates and priority operations are not committed. *)
Definition skipped (req : CommitRequest) : bool :=
  bool_decide (cr_accounts_updated req = []) && (number_of_processed_prior_ops (cr_block req) =? 0).

Definition commit_of (req : CommitRequest) (op : Operation) : Prop :=
  op_action op = ACommit ∧ op_block op = stored_block now (cr_block req) ∧ op_accounts_updated op = cr_accounts_updated req.

Lemma handle_new_commit_ok db0 hist blocks c v self req :
  stored_chain now db0 hist blocks c v (cm_db self) → request_fits req → c < block_number (cr_block req) →
  updates_valid (apply_updates ∅ (snd <$> hist)) (cr_accounts_updated req) →
  ∃ self' hist' blocks' ops, handle_new_commit now req self = Val self' ∧
    stored_chain now db0 hist' blocks' (block_number (cr_block req)) v (cm_db self') ∧
    snd <$> hist' = (snd <$> hist) ++ cr_accounts_updated req ∧
    cm_tx_for_eth self' = cm_tx_for_eth self ++ ops ∧ cm_mempool self' = cm_mempool self ++ (op_accounts_updated <$> ops) ∧
    Forall2 commit_of (List.filter (negb ∘ skipped) [req]) ops.
Proof.
  intros H (Hb & Hu & Hnd & Hlen) Hc Hval. pose proof (stored_chain_ok _ _ _ _ _ _ _ H) as Hok.
  unfold handle_new_commit. fold (skipped req). destruct (skipped req) eqn:Hskip.
  - pose proof Hb as (Fb & _ & _ & _ & _ & Ftx & _).
    destruct (save_transactions_rows now (block_number (cr_block req)) (block_transactions (cr_block req)) (cm_db self) Ftx) as (db' & E & _).
    rewrite E. cbn [mbind outcome_bind]. exists (set_cm_db db' self), hist, blocks, []. split; [done|]. split; [by eapply sc_skip|].
    pose proof Hskip as [Hs _]%andb_prop. apply bool_decide_eq_true in Hs. cbn. unfold compose. rewrite Hs, !app_nil_r, Hskip. by repeat split.
  - set (op := mkOperation None ACommit (cr_block req) (cr_accounts_updated req)).
    assert (updates_valid (state_at hist c) (op_accounts_updated op)) as Hval' by (by rewrite (state_at_all _ _ (ck_hist _ _ _ _ _ _ Hok))).
    destruct (execute_commit now _ _ _ _ _ op Hok eq_refl Hc Hb Hu Hnd Hlen Hval') as (db' & E & _). rewrite E. cbn [expect mbind outcome_bind].
    eexists _, _, _, [_]. split; [done|]. split; [by eapply (sc_commit now db0 hist blocks c v (cm_db self) op)|].
    rewrite fmap_app, tagged_updates. do 3 (split; [done|]). cbn. unfold compose. rewrite Hskip. cbn. by repeat constructor.
Qed.

Lemma committer_run_blocks db0 reqs : ∀ hist blocks c v self m,
  stored_chain now db0 hist blocks c v (cm_db self) → Forall request_fits reqs →
  apply_updates ∅ (snd <$> hist) = m →
  (∀ i req, reqs !! i = Some req → block_number (cr_block req) = c + 1 + Z.of_nat i) →
  updates_valid m (mjoin (cr_accounts_updated <$> reqs)) →
  ∃ self' hist' blocks' ops, committer_run now (EvBlock <$> reqs) self = Val self' ∧
    stored_chain now db0 hist' blocks' (c + Z.of_nat (length reqs)) v (cm_db self') ∧
    snd <$> hist' = (snd <$> hist) ++ mjoin (cr_accounts_updated <$> reqs) ∧
    cm_tx_for_eth self' = cm_tx_for_eth self ++ ops ∧ cm_mempool self' = cm_mempool self ++ (op_accounts_updated <$> ops) ∧
    Forall2 commit_of (List.filter (negb ∘ skipped) reqs) ops.
Proof.
  induction reqs as [|req reqs IH]; intros hist blocks c v self m H Hf Em Hn Hval.
  { exists self, hist, blocks, []. cbn. rewrite Z.add_0_r, !app_nil_r. by repeat split. }
  apply Forall_cons in Hf as [Hr Hf]. cbn in Hval. apply updates_valid_app in Hval as [Hv1 Hv2].
  pose proof (Hn 0%nat req eq_refl) as En.
  destruct (handle_new_commit_ok db0 hist blocks c v self req H Hr) as (s1 & h1 & b1 & o1 & E1 & H1 & Eh1 & Et1 & Em1 & F1); [lia|by rewrite Em|].
  destruct (IH h1 b1 (block_number (cr_block req)) v s1 (apply_updates m (cr_accounts_updated req)))
    as (s2 & h2 & b2 & o2 & E2 & H2 & Eh2 & Et2 & Em2 & F2); [done|done| | |done|].
  - by rewrite Eh1, apply_updates_app, Em.
  - intros i r Hi. rewrite (Hn (S i) r Hi). lia.
  - exists s2, h2, b2, (o1 ++ o2). cbn [fmap list_fmap committer_run committer_step]. rewrite E1. cbn [mbind outcome_bind]. split; [done|].
    split; [by replace (c + Z.of_nat (length (req :: reqs))) with (block_number (cr_block req) + Z.of_nat (length reqs)) by (cbn; lia)|].
    split; [rewrite Eh2, Eh1; cbn; by rewrite app_assoc|]. split; [by rewrite Et2, Et1, app_assoc|].
    split; [by rewrite Em2, Em1, fmap_app, app_assoc|].
    change (req :: reqs) with ([req] ++ reqs). rewrite List.filter_app. by apply Forall2_app.
Qed.

(** Every deposit brings a token that nobody owns at that time. *)
Definition fresh_deposits (m : AccountMap) (ops : list FranklinOp) : Prop :=
  ∀ pre op post us m1, ops = pre ++ op :: post → ledger_run m pre us m1 → deposits_fresh m1 op.

Lemma ledger_run_valid m ops us m' :
  ledger_run m ops us m' → single_owner m → fresh_deposits m ops → Forall (λ op, ¬ is_self_transfer op) ops →
  updates_valid m us ∧ single_owner m'.
Proof.
  induction 1 as [|ops us m1 op us1 m2 Hrun IH Hstep _ _]; intros Hone Hfresh Hself; [done|].
  apply Forall_app in Hself as [Hs1 Hs2]. destruct IH as [Hv Ho]; [done| |done|].
  { intros pre o post us0 m0 -> Hr. apply (Hfresh pre o (post ++ [op]) us0 m0); [|done]. by rewrite <- app_assoc. }
  assert (deposits_fresh m1 op) as Hd by (by apply (Hfresh ops op [] us m1)). split.
  - apply updates_valid_app. split; [done|]. rewrite (ledger_run_replay m ops us m1) by done. by eapply ledger_step_updates_valid.
  - by eapply ledger_step_single_owner.
Qed.

Lemma ledger_run_trans m ops us m1 ops' us' m2 :
  ledger_run m ops us m1 → ledger_run m1 ops' us' m2 → ledger_run m (ops ++ ops') (us ++ us') m2.
Proof.
  intros H. induction 1 as [|ops' us' m2 op us2 m3 _ IH Hstep Ha Ht]; [by rewrite !app_nil_r|].
  rewrite !app_assoc. by eapply run_snoc.
Qed.

Lemma chain_run szs n p m0 cs n' p' m :
  chain szs n p m0 cs n' p' m →
  ledger_run m0 (mjoin ((λ c, block_ops (cr_block c)) <$> cs)) (mjoin (cr_accounts_updated <$> cs)) m.
Proof.
  induction 1 as [|cs n' p' m c m' _ IH Hb]; [constructor|]. rewrite !fmap_app, !join_app. cbn. rewrite !app_nil_r.
  eapply ledger_run_trans; [done|apply Hb].
Qed.

(** C7: The blocks of the keeper reach the database and the sender: when the committer is
    given the blocks of a chain that continues the stored one, whose deposits bring tokens that nobody owns
    and which has no transfers of an account to itself, it stores the blocks with updates or priority
    operations without failing, and passes over the others; the state that a restarted node loads from the database is the one
    that the chain has reached, and exactly the stored blocks
    are handed to the sender, in order, as the database has them (transfers and withdrawals have lost
    their fees and cached signers), each with its updates, which are also what the mempool is told. *)
Theorem committer_stores_keeper_chain db0 hist blocks c v self szs p cs n' p' m :
  stored_chain now db0 hist blocks c v (cm_db self) →
  let m0 := apply_updates ∅ (snd <$> hist) in
  chain szs (c + 1) p m0 cs n' p' m → c + Z.of_nat (length cs) < 2 ^ 32 → Forall request_fits cs →
  single_owner m0 → let ops := mjoin ((λ req, block_ops (cr_block req)) <$> cs) in
  fresh_deposits m0 ops → Forall (λ op, ¬ is_self_transfer op) ops →
  ∃ self' k sent, committer_run now (EvBlock <$> cs) self = Val self' ∧
    StateSchema.load_committed_state None (cd_state (cm_db self')) = Val (k, m) ∧
    Forall2 commit_of (List.filter (negb ∘ skipped) cs) sent ∧
    cm_tx_for_eth self' = cm_tx_for_eth self ++ sent ∧
    cm_mempool self' = cm_mempool self ++ (op_accounts_updated <$> sent).
Proof.
  intros H m0 Hch Hw Hf Hone ops Hfresh Hself. pose proof (chain_run _ _ _ _ _ _ _ _ Hch) as Hrun.
  destruct (ck_bounds _ _ _ _ _ _ (stored_chain_ok _ _ _ _ _ _ _ H)) as [Hc1 Hc2].
  assert (∀ i req, cs !! i = Some req → block_number (cr_block req) = c + 1 + Z.of_nat i) as Hnum.
  { intros i req Hi. pose proof (lookup_lt_Some _ _ _ Hi). destruct (chain_numbers _ _ _ _ _ _ _ _ Hch) as [_ E]; [unfold fits; lia|].
    rewrite (E _ _ Hi). apply wrap_small. unfold fits. lia. }
  destruct (committer_run_blocks db0 cs hist blocks c v self m0 H Hf eq_refl Hnum) as (s & h & b & o & E & Hs & Eh & Et & Em & F);
    [by eapply ledger_run_valid|].
  destruct (load_latest _ _ _ _ _ _ _ Hs) as [k Hk]. exists s, k, o. split; [done|].
  rewrite Hk, Eh, apply_updates_app. fold m0. by rewrite (ledger_run_replay _ _ _ _ Hrun Hself).
Qed.

(** ** Proofs *)

Lemma load_committed_block_back hist blocks c v db bl :
  chain_ok now hist blocks c v db → bl ∈ blocks → 0 < block_number bl →
  load_committed_block now (block_number bl) db = Val (Some (stored_block now bl)).
Proof.
  intros H Hbl Hpos. destruct (ck_commits _ _ _ _ _ _ H _ Hbl) as (o & Ho & En & Et). destruct (ck_stored _ _ _ _ _ _ H) as [ds Hs].
  unfold load_committed_block, load_commit_op, get_operation.
  destruct (head _) as [o'|] eqn:E.
  - apply head_Some_elem_of, list_elem_of_In, List.filter_In in E as [_ E]. apply andb_prop in E as [E1%Z.eqb_eq E2%bool_decide_eq_true].
    destruct o' as [id n ty cf]. cbn [so_block_number so_action_type] in E1, E2. subst n ty.
    by rewrite (into_op_back now hist ds blocks c v db id bl COMMIT ACommit cf H Hs Hbl Hpos eq_refl).
  - exfalso. destruct (List.filter _ _) eqn:Ef; [|done]. eapply not_elem_of_nil. rewrite <- Ef. apply list_elem_of_In, List.filter_In.
    split; [by apply list_elem_of_In|]. by rewrite En, Et, Z.eqb_refl, bool_decide_true.
Qed.

Lemma load_proof_same n db db' : cd_proofs db' = cd_proofs db → load_proof n db' = load_proof n db.
Proof. intros E. unfold load_proof. by rewrite E. Qed.

(** The operation that verifies block [n] with proof [q]. *)
Definition verifies (hist : list (Z * (Z * AccountUpdate))) (blocks : list Block) (n : Z) (q : EncodedProofPlonk) (op : Operation) : Prop :=
  op_action op = AVerify q ∧ (∃ bl, bl ∈ blocks ∧ block_number bl = n ∧ op_block op = stored_block now bl) ∧
  op_accounts_updated op = updates_in (between (n - 1) n) hist.

(** C18: Proved blocks are verified, in order and up to the first block without a proof: if the
    blocks after the last verified one are committed and have their proofs, then a poll
    verifies all of them, hands one operation for each to the sender, with its proof, its block as the
    database has it (transfers and withdrawals without their fees) and its updates, and the verified state in the database is that of the last of
    them. With no proof for the next block nothing happens. *)
Theorem poll_verifies_proved_blocks db0 hist blocks c proofs : ∀ v self fuel e,
  stored_chain now db0 hist blocks c v (cm_db self) → cm_last_verified_block self = v →
  (∀ i q, proofs !! i = Some q → v + 1 + Z.of_nat i ∈ block_number <$> blocks ∧ load_proof (v + 1 + Z.of_nat i) (cm_db self) = Val (Ok q)) →
  let k := Z.of_nat (length proofs) in
  load_proof (wrap 32 (v + k + 1)) (cm_db self) = Val (Err e) → (length proofs < fuel)%nat →
  ∃ self' ops, poll_for_new_proofs now fuel self = Val self' ∧
    cm_tx_for_eth self' = cm_tx_for_eth self ++ ops ∧ length ops = length proofs ∧
    (∀ i q op, proofs !! i = Some q → ops !! i = Some op → verifies hist blocks (v + 1 + Z.of_nat i) q op) ∧
    cm_last_verified_block self' = v + k ∧ stored_chain now db0 hist blocks c (v + k) (cm_db self') ∧
    StateSchema.load_verified_state (cd_state (cm_db self')) = Val (v + k, state_at hist (v + k)).
Proof.
  induction proofs as [|q proofs IH]; intros v self fuel e H Hv Hp k He Hfuel; pose proof (stored_chain_ok _ _ _ _ _ _ _ H) as Hok.
  all: destruct fuel as [|fuel]; [cbn in Hfuel; lia|].
  { exists self, []. cbn in k. subst k. rewrite Z.add_0_r in He. rewrite Z.add_0_r, app_nil_r. cbn [poll_for_new_proofs].
    rewrite Hv, He. split_and!; try done.
    pose proof (chain_last_verified now _ _ _ _ _ Hok) as E. rewrite <- E at 1. apply load_verified_represents, Hok. }
  destruct (Hp 0%nat q eq_refl) as [(bl & En & Hbl)%list_elem_of_fmap Hq]. rewrite Z.add_0_r in En, Hq.
  destruct (ck_bounds _ _ _ _ _ _ Hok) as [Hvc Hc]. destruct (ck_rows _ _ _ _ _ _ Hok _ Hbl) as (_ & Hle & _).
  cbn [poll_for_new_proofs]. rewrite Hv, wrap_small by (unfold fits; lia). rewrite Hq, En.
  rewrite (load_committed_block_back _ _ _ _ _ _ Hok Hbl) by lia. cbn [unwrap mbind outcome_bind].
  set (op0 := mkOperation None (AVerify q) (stored_block now bl) []).
  assert (∀ x, x ∈ hist → x.1 ≤ v ∨ block_number bl ≤ x.1) as Hgap by (intros; lia).
  destruct (execute_verify now _ _ _ _ _ op0 q bl Hok eq_refl Hbl eq_refl ltac:(lia) Hgap) as (q' & db' & E & Hok' & Hq' & Hkeep).
  rewrite E. cbn [expect mbind outcome_bind].
  assert (cd_proofs db' = cd_proofs (cm_db self)) as Ek by (apply (Hkeep q); by rewrite <- En).
  rewrite (load_proof_same _ _ _ Ek), <- En, Hq in Hq'. injection Hq' as <-.
  set (s1 := mkCommitter _ _ _ _ _).
  destruct (IH (block_number bl) s1 fuel e) as (s2 & ops & E2 & Et & El & Hops & Elast & Hst & Hload).
  - eapply (sc_verify now db0 hist blocks c v (cm_db self) op0 _ _ q bl); [done|done|done|done|lia|done|exact E].
  - done.
  - intros i r Hi. destruct (Hp (S i) r Hi) as [Hin Hr]. rewrite <- En. replace (v + 1 + 1 + Z.of_nat i) with (v + 1 + Z.of_nat (S i)) by lia.
    split; [done|]. by rewrite (load_proof_same _ _ _ Ek).
  - rewrite (load_proof_same _ _ _ Ek). rewrite <- He. f_equal. subst k. cbn. f_equal. lia.
  - cbn in Hfuel. lia.
  - subst k. replace (v + Z.of_nat (length (q :: proofs))) with (block_number bl + Z.of_nat (length proofs)) by (cbn; lia).
    eexists s2, (_ :: ops). split; [exact E2|]. split; [rewrite Et; cbn; by rewrite <- app_assoc|]. split; [cbn; by rewrite El|].
    split; [|done]. intros [|i] r op Hi Ho.
    + injection Hi as <-. injection Ho as <-. replace (v + 1 + Z.of_nat 0) with (block_number bl) by lia. split; [done|]. split; [exists bl; split; [done|split; [lia|done]]|]. cbn. repeat f_equal; lia.
    + pose proof (Hops i r op Hi Ho) as Hx. by replace (block_number bl + 1 + Z.of_nat i) with (block_number bl + Z.of_nat (S i)) in Hx by lia.
Qed.

(** ** Order of the verification *)

Lemma save_transactions_proofs b txs : ∀ db db', save_block_transactions b txs db = Val db' → cd_proofs db' = cd_proofs db.
Proof.
  induction txs as [|[tx|op] txs IH]; intros db db' H; cbn [save_block_transactions] in H.
  - by injection H as <-.
  - by rewrite (IH _ _ H).
  - apply outcome_bind_Val in H as (db1 & H1 & H). rewrite (IH _ _ H). unfold store_executed_priority_operation in H1.
    apply outcome_bind_Val in H1 as (row & _ & H1). by injection H1 as <-.
Qed.

(** Executing an operation stores no proof, but that of the operation itself. *)
Lemma execute_operation_proofs op db op' db' :
  execute_operation now op db = Val (Ok (op', db')) →
  match op_action op with ACommit => True | AVerify _ => ∃ q, load_proof (block_number (op_block op)) db = Val (Ok q) end →
  cd_proofs db' = cd_proofs db.
Proof.
  intros H Hact. unfold execute_operation in H. apply fallible_bind_Ok in H as (db1 & H1 & H).
  destruct (store_operation _ _ db1) as [st db2] eqn:Est. cbn in Est. injection Est as _ <-.
  apply fallible_bind_Ok in H as (o & _ & H). injection H as _ <-. cbn [cd_proofs set_state].
  destruct (op_action op) as [|p].
  - apply fallible_bind_Ok in H1 as (db2 & H2 & H1). unfold on_state in H2. apply fallible_bind_Ok in H2 as (st2 & _ & H2). injection H2 as <-.
    unfold save_block in H1. apply fallible_bind_Ok in H1 as (db3 & H3 & H1). destruct (existsb _ _) in H1; [done|]. injection H1 as <-.
    cbn. unfold lift_outcome in H3. destruct (save_block_transactions _ _ _) eqn:E in H3; [|done]. injection H3 as ->.
    by rewrite (save_transactions_proofs _ _ _ _ E).
  - destruct Hact as [q Hq]. rewrite Hq in H1. unfold on_state in H1. apply fallible_bind_Ok in H1 as (db2 & H2 & H1). injection H2 as <-.
    apply fallible_bind_Ok in H1 as (st2 & _ & H1). by injection H1 as <-.
Qed.

Lemma load_committed_block_number n db bl : fits 32 n → load_committed_block now n db = Val (Some bl) → block_number bl = n.
Proof.
  intros Hn. unfold load_committed_block, load_commit_op, get_operation. destruct (head _) as [o|] eqn:E; [|done].
  apply head_Some_elem_of, list_elem_of_In, List.filter_In in E as [_ [E1%Z.eqb_eq _]%andb_prop].
  destruct (into_op _ _ _) as [[op|]|] eqn:Eo; intros H; try done. injection H as <-.
  unfold into_op in Eo. apply fallible_bind_Ok in Eo as (a & _ & Eo). apply fallible_bind_Ok in Eo as (b & Hb & Eo).
  apply fallible_bind_Ok in Eo as (u & _ & Eo). injection Eo as <-. cbn [op_block].
  unfold lift_outcome in Hb. rewrite E1, wrap_small in Hb by done.
  destruct (get_block now n db) as [[b'|]|] eqn:Eb; cbn in Hb; try done. injection Hb as ->.
  unfold get_block in Eb. destruct (head _); [|done]. apply outcome_bind_Val in Eb as (t & _ & Eb).
  apply outcome_bind_Val in Eb as (r & _ & Eb). by injection Eb as <-.
Qed.

Definition no_proof (g : Z) (self : Committer) : Prop :=
  cm_last_verified_block self < g ∧ 0 ≤ cm_last_verified_block self ∧ Forall (λ r, pf_block_number r ≠ g) (cd_proofs (cm_db self)).

Lemma poll_no_proof g fuel : ∀ self self',
  fits 32 g → no_proof g self → poll_for_new_proofs now fuel self = Val self' → no_proof g self'.
Proof.
  induction fuel as [|fuel IH]; intros self self' Hg Hno H; cbn [poll_for_new_proofs] in H; [by injection H as <-|].
  destruct Hno as (Hlt & Hpos & Hno). unfold fits in Hg. rewrite wrap_small in H by (unfold fits; lia).
  set (n := cm_last_verified_block self + 1) in *.
  destruct (load_proof n (cm_db self)) as [[q|e]|msg] eqn:Eq; [|by injection H as <-|done].
  assert (n ≠ g) as Hne.
  { intros ->. unfold load_proof in Eq. rewrite filter_none in Eq; [done|]. intros r Hr. rewrite Forall_forall in Hno. apply Z.eqb_neq. by apply Hno. }
  apply outcome_bind_Val in H as (ob & Hb & H). apply outcome_bind_Val in H as (bl & Hbl & H). destruct ob as [bl'|]; [|done]. injection Hbl as ->.
  apply outcome_bind_Val in H as ([op db] & Hex & H). unfold expect in Hex.
  destruct (execute_operation _ _ _) as [[[op' db']|]|] eqn:Ex in Hex; try done. injection Hex as -> ->.
  apply IH in H; [done|done|]. split; [cbn; lia|]. split; [cbn; lia|]. cbn [cm_db].
  rewrite (execute_operation_proofs _ _ _ _ Ex); [done|]. cbn. exists q.
  by rewrite (load_committed_block_number n _ _ ltac:(unfold fits; lia) Hb).
Qed.

(** C19: Blocks are verified one after the other: as long as the database has no proof for
    block [g], no later block is verified, whatever blocks, proofs and polls there are.
    The committer does not commit a block of failed transactions and so no prover ever
    works on it: the verification stops there. *)
Theorem verification_in_order g evs : ∀ self self',
  fits 32 g → 0 ≤ cm_last_verified_block self < g → Forall (λ r, pf_block_number r ≠ g) (cd_proofs (cm_db self)) →
  Forall (λ ev, match ev with EvProof n _ => n ≠ g | _ => True end) evs →
  committer_run now evs self = Val self' →
  cm_last_verified_block self' < g.
Proof.
  intros self self' Hg Hlt Hno Hevs H. assert (no_proof g self') as Hfin; [|apply Hfin].
  assert (no_proof g self) as Hini by (split; [lia|]; split; [lia|done]). clear Hlt Hno.
  revert self Hini H. induction Hevs as [|ev evs Hev _ IH]; intros self Hini H; cbn [committer_run] in H; [by injection H as <-|].
  apply outcome_bind_Val in H as (s1 & H1 & H). apply (IH s1); [|done]. clear IH H. destruct Hini as (H2 & H3 & H4). destruct ev as [req|n p|fuel]; cbn [committer_step] in H1.
  - unfold handle_new_commit in H1. destruct (_ && _).
    + apply outcome_bind_Val in H1 as (db & Hdb & H1). injection H1 as <-. unfold no_proof. cbn. by rewrite (save_transactions_proofs _ _ _ _ Hdb).
    + apply outcome_bind_Val in H1 as ([op db] & Hex & H1). injection H1 as <-. unfold expect in Hex.
      destruct (execute_operation _ _ _) as [[[op' db']|]|] eqn:Ex in Hex; try done. injection Hex as -> ->.
      unfold no_proof. cbn. by rewrite (execute_operation_proofs _ _ _ _ Ex).
  - unfold store_proof in H1. destruct (existsb _ _); injection H1 as <-; [done|]. split; [done|]. split; [done|].
    cbn. apply Forall_app_2; [done|]. by constructor.
  - by eapply poll_no_proof.
Qed.
End CommitterProofs.
