(* ===== verification/CircuitTree.v ===== *)
(** * The account tree of the circuit
    (core/models/src/circuit/account.rs, core/models/src/circuit/utils.rs)

    The witness generators keep the accounts in a second tree, whose leaves are
    [CircuitAccount]s: field elements and a token tree instead of integers and a
    set.  [mirrors] says that such a tree holds the same state as a map of
    accounts; trees that mirror one map have one root hash.

    The token trees inside the leaves cache hashes as well.  What a cache
    returns is what recomputing gives, so the model does not record the entries
    that hashing a leaf or opening a token leaves in them. *)

From S2P Require Import Prelude Bytes Params Externals Primitives Account Tx Merkle ParallelSmt.
From S2P Require Import ParallelSmtProofs AccountLeaf.
Open Scope Z_scope.

(** ** Bits and field elements *)
Section Utils.
  Context `{EX : External}.

Definition append_be_fixed_width (content : list bool) (x : Fr) (width : nat) : list bool :=
  let token_bits := reverse (bit_iterator (fr_repr x)) in
  let token_bits := vec_resize width false token_bits in
  content ++ reverse token_bits.

(** Double and add; [base] is doubled after the last bit as well. *)
Fixpoint double_and_add (fe base : Fr) (bits : list bool) : Fr :=
  match bits with
  | [] => fe
  | bit :: bits =>
      let fe := if bit then fr_add fe base else fe in
      double_and_add fe (fr_add base base) bits
  end.
Definition le_bit_vector_into_field_element (bits : list bool) : Fr :=
  double_and_add (fr_of_uint 0) (fr_of_uint 1) bits.

(** [for (i, bit) in byte_chunk.enumerate() { if *bit { byte |= 1 << (7 - i) } }] *)
Fixpoint or_bits_be (i byte : Z) (chunk : list bool) : Z :=
  match chunk with
  | [] => byte
  | b :: chunk => or_bits_be (i + 1) (if b then Z.lor byte (Z.shiftl 1 (7 - i)) else byte) chunk
  end.
Definition be_bit_vector_into_bytes (bits : list bool) : bytes := or_bits_be 0 0 <$> chunks 8 bits.

Definition pub_key_hash_fe (pub_key : PublicKey) : Fr :=
  le_bit_vector_into_field_element (pub_key_hash_self pub_key).
End Utils.

(** *** What the conversions compute *)

Lemma le_bits_mod n m z : (n ≤ m)%nat → le_bits n (z mod 2 ^ Z.of_nat m) = le_bits n z.
Proof.
  intros Hnm. apply list_eq. intros i. destruct (decide (i < n)%nat).
  - rewrite !le_bits_testbit by done. f_equal. apply Z.mod_pow2_bits_low. lia.
  - by rewrite !lookup_ge_None_2 by (rewrite le_bits_length; lia).
Qed.

Lemma take_le_bits n m z : (n ≤ m)%nat → take n (le_bits m z) = le_bits n z.
Proof.
  intros Hnm. replace m with (n + (m - n))%nat by lia. rewrite le_bits_split.
  by rewrite take_app_length' by (by rewrite le_bits_length).
Qed.

Lemma be_bits_of_bytes k n : bytes_into_be_bits (to_be_bytes k n) = reverse (le_bits (k * 8) n).
Proof.
  unfold to_be_bytes. revert n. induction k as [|k IH]; intros n; [done|].
  replace (S k * 8)%nat with (8 + k * 8)%nat by lia. cbn [le_bytes]. rewrite le_bits_split, reverse_app, reverse_cons.
  change (Z.of_nat 8) with 8. change (2 ^ 8) with 256.
  unfold bytes_into_be_bits in *. rewrite fmap_app, concat_app, IH. f_equal.
  cbn [fmap list_fmap concat]. rewrite app_nil_r, byte_be_bits_reverse by (apply Z.mod_pos_bound; lia).
  f_equal. by apply (le_bits_mod 8 8).
Qed.

(** The limbs of a number hold its bits. *)
Lemma limbs_bits n : concat (le_bits 64 <$> ((λ i, wrap 64 (n / 2 ^ (64 * i))) <$> [0; 1; 2; 3])) = le_bits 256 n.
Proof.
  cbn [fmap list_fmap concat]. unfold wrap. rewrite !(le_bits_mod 64 64) by done. rewrite app_nil_r.
  change 256%nat with (64 + (64 + (64 + 64)))%nat. rewrite !le_bits_split.
  change (Z.of_nat 64) with 64. rewrite !Z.div_div by (done || lia). rewrite Z.mul_0_r, Z.pow_0_r, Z.div_1_r. done.
Qed.

Section UtilFacts.
  Context `{EX : External} `{EXL : !ExternalLaws}.

Lemma bit_iterator_length limbs : length (bit_iterator limbs) = (length limbs * 64)%nat.
Proof. by rewrite bit_iterator_be, length_reverse, concat_le_bits_length. Qed.

Lemma fr_uint_bits n : fits 253 n → reverse (bit_iterator (fr_repr (fr_of_uint n))) = le_bits 256 n.
Proof. intros Hn. by rewrite bit_iterator_be, reverse_involutive, fr_of_uint_repr, limbs_bits. Qed.

Lemma append_be_length content x w :
  length (append_be_fixed_width content x w) = (length content + w)%nat.
Proof. unfold append_be_fixed_width. by rewrite length_app, length_reverse, vec_resize_length. Qed.

Lemma append_be_uint content n w :
  (w ≤ 256)%nat → fits 253 n →
  append_be_fixed_width content (fr_of_uint n) w = content ++ reverse (le_bits w n).
Proof.
  intros Hw Hn. unfold append_be_fixed_width. rewrite fr_uint_bits by done. do 2 f_equal.
  unfold vec_resize. rewrite le_bits_length, take_le_bits by done.
  replace (w - 256)%nat with 0%nat by lia. apply app_nil_r.
Qed.

(** A field of whole bytes is written as the bytes of the integer. *)
Lemma append_be_bytes content n k :
  (k ≤ 32)%nat → fits 253 n →
  append_be_fixed_width content (fr_of_uint n) (k * 8) = content ++ bytes_into_be_bits (to_be_bytes k n).
Proof. intros Hk Hn. rewrite append_be_uint by (done || lia). by rewrite be_bits_of_bytes. Qed.

Lemma double_and_add_spec bits a i :
  0 ≤ a < 2 ^ Z.of_nat i → (i + length bits ≤ 253)%nat →
  double_and_add (fr_of_uint a) (fr_of_uint (2 ^ Z.of_nat i)) bits =
  fr_of_uint (a + 2 ^ Z.of_nat i * le_bits_val bits).
Proof.
  revert a i. induction bits as [|b bits IH]; intros a i Ha Hi; cbn [double_and_add le_bits_val length] in *.
  { by rewrite Z.mul_0_r, Z.add_0_r. }
  assert (2 ^ Z.of_nat (S i) = 2 * 2 ^ Z.of_nat i) as ES by (rewrite Nat2Z.inj_succ; apply Z.pow_succ_r; lia).
  assert (2 ^ Z.of_nat (S i) ≤ 2 ^ 253) as HS by (apply Z.pow_le_mono_r; lia).
  set (a' := if b then a + 2 ^ Z.of_nat i else a).
  replace (if b then fr_add (fr_of_uint a) (fr_of_uint (2 ^ Z.of_nat i)) else fr_of_uint a) with (fr_of_uint a').
  2: { subst a'. destruct b; [|done]. symmetry. apply fr_add_of_uint; lia. }
  replace (a + 2 ^ Z.of_nat i * (Z.b2z b + 2 * le_bits_val bits))
    with (a' + 2 ^ Z.of_nat (S i) * le_bits_val bits) by (subst a'; rewrite ES; destruct b; simpl Z.b2z; ring).
  destruct bits as [|b' bits].
  { cbn [double_and_add le_bits_val]. by rewrite Z.mul_0_r, Z.add_0_r. }
  assert (2 ^ Z.of_nat (S (S i)) ≤ 2 ^ 253) by (apply Z.pow_le_mono_r; simpl in Hi; lia).
  assert (2 ^ Z.of_nat (S (S i)) = 2 * 2 ^ Z.of_nat (S i)) by (rewrite (Nat2Z.inj_succ (S i)); apply Z.pow_succ_r; lia).
  rewrite fr_add_of_uint by lia. replace (2 ^ Z.of_nat i + 2 ^ Z.of_nat i) with (2 ^ Z.of_nat (S i)) by lia.
  apply IH; [|simpl in *; lia]. subst a'. destruct b; lia.
Qed.

(** Up to [Fr::CAPACITY] bits are read as the integer that they denote. *)
Lemma le_bit_vector_spec bits :
  (length bits ≤ 253)%nat → le_bit_vector_into_field_element bits = fr_of_uint (le_bits_val bits).
Proof.
  intros Hl. unfold le_bit_vector_into_field_element. change (fr_of_uint 1) with (fr_of_uint (2 ^ Z.of_nat 0)).
  rewrite double_and_add_spec by (simpl; lia). f_equal. simpl. lia.
Qed.

Lemma le_bits_val_fits bits w : (length bits ≤ w)%nat → fits (Z.of_nat w) (le_bits_val bits).
Proof.
  intros Hl. pose proof (le_bits_val_bound bits). unfold fits.
  assert (2 ^ Z.of_nat (length bits) ≤ 2 ^ Z.of_nat w) by (apply Z.pow_le_mono_r; lia). lia.
Qed.

Lemma or_bits_be_8 c : length c = 8%nat → or_bits_be 0 0 c = or_bits 0 0 (reverse c).
Proof.
  intros H. do 8 (destruct c as [|? c]; [done|]). destruct c; [|done].
  repeat match goal with b : bool |- _ => destruct b end; done.
Qed.

(** Packing undoes the expansion of bytes into bits. *)
Lemma be_bit_vector_into_bytes_spec l :
  Forall is_byte l → be_bit_vector_into_bytes (bytes_into_be_bits l) = l.
Proof.
  unfold be_bit_vector_into_bytes. induction 1 as [|b l Hb Hl IH]; [done|].
  unfold bytes_into_be_bits in *. rewrite fmap_cons. cbn [concat].
  rewrite chunks_app by (done || lia). rewrite fmap_cons, IH, or_bits_be_8 by done. f_equal.
  rewrite byte_be_bits_reverse, reverse_involutive, or_bits_0 by done. by apply le_bits_le_val.
Qed.
End UtilFacts.

(** ** The tree *)
Section Tree.
  Context `{EX : External}.

#[global] Instance CircuitAccount_get_bits : GetBits CircuitAccount := CircuitAccount_get_bits_le.

(** The value of [CircuitAccount::default()], which does not panic ([default_circuit_account_Val]). *)
Definition default_circuit_account : CircuitAccount :=
  match CircuitAccount_default with
  | Val a => a
  | Panic _ => mkCircuitAccount (mkSMT ∅ 0 0 [] [] ∅) (fr_of_uint 0) (fr_of_uint 0) (fr_of_uint 0)
  end.
#[global] Instance CircuitAccount_default_value : Default CircuitAccount := default_circuit_account.

Definition CircuitAccountTree : Type := ParallelSmt.SparseMerkleTree CircuitAccount Fr.

Lemma default_circuit_account_Val : CircuitAccount_default = Val default_circuit_account.
Proof.
  unfold default_circuit_account. destruct CircuitAccount_default as [a|msg] eqn:E; [done|exfalso].
  revert E. unfold CircuitAccount_default. destruct token_tree_new as (st & -> & _). done.
Qed.

Lemma default_circuit_account_fields :
  smt_ok token_tree_depth (ca_subtree default_circuit_account) ∧
  items (ca_subtree default_circuit_account) = ∅ ∧
  ca_nonce default_circuit_account = fr_of_uint 0 ∧
  ca_pub_key_hash default_circuit_account = fr_of_uint 0 ∧
  ca_address default_circuit_account = fr_of_uint 0.
Proof.
  unfold default_circuit_account, CircuitAccount_default. destruct token_tree_new as (st & -> & Hst & Hi). done.
Qed.

(** ** Circuit accounts and accounts *)

(** Tokens up to the default leaf: the tree cannot tell token 0 from no token. *)
Definition same_tokens (I : gmap Z Token) (T : gset TokenId) : Prop :=
  ∀ k, default default_value (I !! k) = default default_value (token_items T !! k).

Record account_like (ca : CircuitAccount) (a : Account) : Prop := {
  al_subtree : smt_ok token_tree_depth (ca_subtree ca);
  al_tokens : same_tokens (items (ca_subtree ca)) (tokens a);
  al_nonce : ca_nonce ca = fr_of_uint (nonce a);
  al_pub_key_hash : ca_pub_key_hash ca = PubKeyHash_to_fr (pub_key_hash a);
  al_address : ca_address ca = eth_address_to_fr (address a);
}.

Lemma from_be_bytes_zeros n : from_be_bytes (replicate n 0) = 0.
Proof. rewrite <- (app_nil_r (replicate n 0)). by rewrite from_be_bytes_pad. Qed.

Lemma account_like_default : account_like default_circuit_account Account_default.
Proof.
  destruct default_circuit_account_fields as (Hst & Hi & Hn & Hp & Ha).
  split; [done|..].
  - intros k. rewrite Hi, token_items_lookup, lookup_empty. by rewrite decide_False by set_solver.
  - done.
  - by rewrite Hp.
  - by rewrite Ha.
Qed.

(** The bits of the leaf are those of the account. *)
Lemma account_like_bits ca a : account_like ca a → get_bits_le ca = Val (leaf_bits a).
Proof.
  intros [Hst Htok Hn Hp Had]. unfold get_bits_le, CircuitAccount_get_bits, CircuitAccount_get_bits_le, get_state_root.
  destruct (smt_root_hash_spec token_tree_depth (ca_subtree ca) Hst) as (st2 & -> & _); [by eexists|].
  cbn [mbind outcome_bind fst]. rewrite Hn, Hp, Had.
  assert (reference_root (Hash := Fr) token_tree_depth (items (ca_subtree ca)) =
          reference_root token_tree_depth (token_items (tokens a))) as -> by (by apply subtree_hash_items_ext).
  set (bits := (_ ++ _ ++ _) ++ _). assert (length bits = LEAF_DATA_BIT_WIDTH) as Hlen.
  { subst bits. rewrite !length_app, vec_resize_length, !get_bits_le_fixed_length. done. }
  rewrite Hlen, Nat.eqb_refl. cbn [assert_that mbind outcome_bind]. f_equal. subst bits.
  unfold leaf_bits. by rewrite <- !app_assoc.
Qed.

Lemma account_bits_ok a : tokens_ok a → get_bits_le a = Val (leaf_bits a).
Proof.
  intros Hok. destruct (account_bits_spec a) as [[_ ?]|[? _]]; [|done..]. intros t Ht. by apply Hok.
Qed.

(** ** Mirroring *)

(** The leaf that the tree has at an index. *)
Definition leaf_at (t : CircuitAccountTree) (k : Z) : CircuitAccount := default default_value (items t !! k).
Definition account_at (m : AccountMap) (k : Z) : Account := default Account_default (m !! k).

Record mirrors (t : CircuitAccountTree) (m : AccountMap) : Prop := {
  mi_tree : smt_ok account_tree_depth t;
  mi_like k : account_like (leaf_at t k) (account_at m k);
  mi_present k : is_Some (m !! k) → is_Some (items t !! k);
}.

Lemma mirrors_bits t m k v : mirrors t m → items t !! k = Some v → ∃ b, get_bits_le v = Val b.
Proof.
  intros Hm Hk. pose proof (mi_like _ _ Hm k) as Hl. unfold leaf_at in Hl. rewrite Hk in Hl. cbn in Hl.
  eexists. by apply account_like_bits.
Qed.

Lemma subtree_hash_mirror t m h i :
  mirrors t m → (∀ id a, m !! id = Some a → tokens_ok a) →
  subtree_hash (Hash := Fr) account_tree_depth (items t) h i = subtree_hash account_tree_depth m h i.
Proof.
  intros Hm Hok. revert i. induction h as [|h IH]; intros i; cbn [subtree_hash]; [|by rewrite !IH].
  set (k := i - _). unfold item_hash, bits_of. fold (leaf_at t k). rewrite (account_like_bits _ _ (mi_like _ _ Hm k)).
  change (default default_value (m !! k)) with (account_at m k). rewrite account_bits_ok; [done|].
  unfold account_at. destruct (m !! k) as [a|] eqn:E; [by eapply Hok|]. intros u Hu. cbn in Hu. set_solver.
Qed.

(** Trees that mirror one map have its root hash. *)
Lemma mirrors_root t m :
  mirrors t m → (∀ id a, m !! id = Some a → tokens_ok a) →
  reference_root (Hash := Fr) account_tree_depth (items t) = reference_root account_tree_depth m.
Proof. apply subtree_hash_mirror. Qed.
End Tree.
