(* ===== verification/Witness.v ===== *)
(** * Witness data of the circuit
    (core/circuit/src/operation.rs, account.rs, core/circuit/src/witness/mod.rs, utils.rs, noop.rs)

    To prove a block, every chunk of every operation is given to the circuit as
    an [Operation]: the public data of the chunk, the arguments, the data of the
    signature and two branches, each of which is a leaf of the account tree with
    its Merkle path and the Merkle path of a token.  The generators replay the
    operations on the circuit's account tree to obtain the paths.  The methods
    that take the tree run in the state monad over it: hashing fills its cache.

    [commitment_of] is the commitment as the contract computes it, on bytes: a chain
    of SHA-256 hashes over the block number and the fee account, the old root, the new
    root and the public data, of which 253 bits are kept. *)

From S2P Require Import Prelude Bytes Params Externals Primitives Amounts Account Tx Operations Block.
From S2P Require Import Merkle ParallelSmt AccountLeaf PlasmaState BlockStorage BlockStorageProofs CircuitTree.
Open Scope Z_scope.

(** A method that returns a value, changes its object and cannot return [Err]. *)
Definition method {S A} (f : S → outcome (A * S)) : Exec S A := λ s,
  match f s with Val (a, s') => Val (Ok a, s') | Panic msg => Panic msg end.

(** [for _ in 0..n { body }] *)
Fixpoint times {S} (n : nat) (body : Exec S unit) : Exec S unit :=
  match n with
  | O => mret tt
  | S n => _ ← body; times n body
  end.

Section Witness.
  Context `{EX : External}.

(** ** The data of the circuit *)

Record AccountWitness : Type := mkAccountWitness {
  aw_nonce : option Fr;
  aw_pub_key_hash : option Fr;
  aw_address : option Fr;
}.
Definition AccountWitness_from_circuit_account (circuit_account : CircuitAccount) : AccountWitness :=
  mkAccountWitness (Some (ca_nonce circuit_account)) (Some (ca_pub_key_hash circuit_account))
    (Some (ca_address circuit_account)).

Record OperationBranchWitness : Type := mkBranchWitness {
  account_witness : AccountWitness;
  account_path : list (option Fr);
  token_subtree_path : list (option Fr);
}.
Record OperationBranch : Type := mkBranch {
  br_address : option Fr;
  br_witness : OperationBranchWitness;
}.
Record OperationArguments : Type := mkArguments {
  arg_token_id : option Fr;
  arg_fee : option Fr;
  arg_new_pub_key_hash : option Fr;
  arg_eth_address : option Fr;
  arg_pub_nonce : option Fr;
}.
Record SignatureData : Type := mkSignatureData {
  r_packed : list (option bool);
  s_packed : list (option bool);
}.
Definition SignatureData_init_empty : SignatureData :=
  mkSignatureData (replicate 256 (Some false)) (replicate 256 (Some false)).

(** [circuit::operation::Operation] *)
Record CircuitOperation : Type := mkCircuitOperation {
  new_root : option Fr;
  tx_type : option Fr;
  chunk : option Fr;
  pubdata_chunk : option Fr;
  signer_pub_key_packed : list (option bool);
  first_sig_msg : option Fr;
  second_sig_msg : option Fr;
  third_sig_msg : option Fr;
  signature_data : SignatureData;
  op_args : OperationArguments;
  lhs : OperationBranch;
  rhs : OperationBranch;
}.

(** ** Signatures *)

(** The scalar field has 254 bits, so 253 of them hold any message part. *)
Definition Fr_CAPACITY : nat := FR_BIT_WIDTH - 1.

Definition generate_sig_witness (bits : list bool) : outcome (Fr * Fr * Fr) :=
  _ ← assert_that (length bits <? MAX_CIRCUIT_MSG_HASH_BITS)%nat
        "assertion failed: sig_bits_to_hash.len() < franklin_constants::MAX_CIRCUIT_MSG_HASH_BITS";
  let sig_bits_to_hash := vec_resize MAX_CIRCUIT_MSG_HASH_BITS false bits in
  first ← split_at Fr_CAPACITY sig_bits_to_hash;
  second ← split_at Fr_CAPACITY first.2;
  Val (le_bit_vector_into_field_element first.1, le_bit_vector_into_field_element second.1,
       le_bit_vector_into_field_element second.2).

Record SigDataInput : Type := mkSigDataInput {
  sd_first_sig_msg : Fr;
  sd_second_sig_msg : Fr;
  sd_third_sig_msg : Fr;
  sd_signature : SignatureData;
  sd_signer_pub_key_packed : list (option bool);
}.

Definition SigDataInput_new (sig_bytes tx_bytes : bytes) (pub_key : PublicKey) : Fallible SigDataInput :=
  rs ← lift_outcome (split_at 32 sig_bytes);
  let '(r_bytes, s_bytes) := rs in
  let r_bits := Some <$> bytes_into_be_bits r_bytes in
  let s_bits := Some <$> bytes_into_be_bits s_bytes in
  let signature := mkSignatureData r_bits s_bits in
  let sig_bits := bytes_into_be_bits tx_bytes in
  msgs ← lift_outcome (generate_sig_witness sig_bits);
  let '(first, second, third) := msgs in
  signer_packed_key_bytes ← ok_or "failed to prepare signature data" (pk_write pub_key);
  let signer_pub_key_packed := Some <$> bytes_into_be_bits signer_packed_key_bytes in
  Val (Ok (mkSigDataInput first second third signature signer_pub_key_packed)).

(** The four constructors take the signature and the signed bytes of their transaction. *)
Definition SigDataInput_from_signature (signature : TxSignature) (tx_bytes : bytes) : Fallible SigDataInput :=
  sign_packed ← lift_outcome (unwrap "signature serialize" (sig_write (sig_signature signature)));
  SigDataInput_new sign_packed tx_bytes (sig_pub_key signature).
Definition from_close_op (close_op : CloseOp) : Fallible SigDataInput :=
  SigDataInput_from_signature (cl_signature (clo_tx close_op)) (Close_get_bytes (clo_tx close_op)).
Definition from_transfer_op (transfer_op : TransferOp) : Fallible SigDataInput :=
  SigDataInput_from_signature (tr_signature (tro_tx transfer_op)) (Transfer_get_bytes (tro_tx transfer_op)).
Definition from_transfer_to_new_op (transfer_op : TransferToNewOp) : Fallible SigDataInput :=
  SigDataInput_from_signature (tr_signature (ttn_tx transfer_op)) (Transfer_get_bytes (ttn_tx transfer_op)).
Definition from_withdraw_op (withdraw_op : WithdrawOp) : Fallible SigDataInput :=
  SigDataInput_from_signature (wd_signature (wdo_tx withdraw_op)) (Withdraw_get_bytes (wdo_tx withdraw_op)).

(** The signature data of an operation that has no signature. *)
Definition no_signature : SigDataInput :=
  mkSigDataInput (fr_of_uint 0) (fr_of_uint 0) (fr_of_uint 0) SignatureData_init_empty (replicate 256 (Some false)).

(** One entry of the lists of operations: chunk [i] of the public data. *)
Definition chunk_operation (pubdata_chunks : list Fr) (input : SigDataInput) (args : OperationArguments)
    (type root : option Fr) (i : nat) (lhs rhs : OperationBranch) : outcome CircuitOperation :=
  c ← unwrap "index out of bounds" (pubdata_chunks !! i);
  Val (mkCircuitOperation root type (Some (fr_of_uint (Z.of_nat i))) (Some c) (sd_signer_pub_key_packed input)
         (Some (sd_first_sig_msg input)) (Some (sd_second_sig_msg input)) (Some (sd_third_sig_msg input))
         (sd_signature input) args lhs rhs).

Definition pubdata_chunks (pubdata : list bool) : list Fr := le_bit_vector_into_field_element <$> chunks 64 pubdata.

(** ** The account tree *)

Definition root_hash : Exec CircuitAccountTree Fr := method smt_root_hash.

Definition get_audits (account_address token_id : Z) : Exec CircuitAccountTree (list (option Fr) * list (option Fr)) :=
  default_account ← total CircuitAccount_default;
  account_audit ← method (λ tree, smt_merkle_path tree account_address);
  let audit_account := (λ e : Fr * bool, Some e.1) <$> account_audit in
  account ← gets (λ tree, smt_get tree account_address);
  token_audit ← total (smt_merkle_path (ca_subtree (default default_account account)) token_id);
  let audit_token := (λ e : Fr * bool, Some e.1) <$> token_audit.1 in
  mret (audit_account, audit_token).

(** [if let Some(token_id) = ..] of [apply_leaf_operation]. *)
Definition add_token_leaf (token_id_to_add : option Z) (account : CircuitAccount) : outcome CircuitAccount :=
  match token_id_to_add with
  | Some token_id =>
      subtree ← smt_insert (ca_subtree account) token_id (mkToken (fr_of_uint token_id));
      Val (mkCircuitAccount subtree (ca_nonce account) (ca_pub_key_hash account) (ca_address account))
  | None => Val account
  end.
Definition remove_token_leaf (token_id_to_remove : option Z) (account : CircuitAccount) : outcome CircuitAccount :=
  match token_id_to_remove with
  | Some token_id =>
      r ← smt_remove (ca_subtree account) token_id;
      Val (mkCircuitAccount r.2 (ca_nonce account) (ca_pub_key_hash account) (ca_address account))
  | None => Val account
  end.

(** The balances that the source returns as well are the constant zero. *)
Definition apply_leaf_operation (account_address : Z) (token_id_to_add token_id_to_remove : option Z)
    (fa : CircuitAccount → outcome CircuitAccount) : Exec CircuitAccountTree (AccountWitness * AccountWitness) :=
  default_account ← total CircuitAccount_default;
  removed ← method (λ tree, smt_remove tree account_address);
  let account := default default_account removed in
  let account_witness_before := AccountWitness_from_circuit_account account in
  account ← total (add_token_leaf token_id_to_add account);
  account ← total (remove_token_leaf token_id_to_remove account);
  account ← total (fa account);
  let account_witness_after := AccountWitness_from_circuit_account account in
  _ ← update (λ tree, smt_insert tree account_address account);
  mret (account_witness_before, account_witness_after).

Definition apply_fee (validator_address token fee : Z) : Exec CircuitAccountTree (Fr * AccountWitness) :=
  removed ← method (λ tree, smt_remove tree validator_address);
  validator_leaf ← total (unwrap "validator_leaf is empty" removed);
  let validator_account_witness := AccountWitness_from_circuit_account validator_leaf in
  _ ← update (λ tree, smt_insert tree validator_address validator_leaf);
  root_after_fee ← root_hash;
  mret (root_after_fee, validator_account_witness).

Definition noop_args : OperationArguments :=
  mkArguments (Some (fr_of_uint 0)) (Some (fr_of_uint 0)) (Some (fr_of_uint 0)) (Some (fr_of_uint 0)) (Some (fr_of_uint 0)).

Definition noop_operation (acc_id : Z) : Exec CircuitAccountTree CircuitOperation :=
  found ← gets (λ tree, smt_get tree acc_id);
  acc ← total (unwrap "called `Option::unwrap()` on a `None` value" found);
  let account_address_fe := fr_of_uint acc_id in
  let pubdata := replicate 64 false in
  audits ← get_audits acc_id 0;
  let '(audit_account, audit_token) := audits in
  root ← root_hash;
  let branch := mkBranch (Some account_address_fe)
    (mkBranchWitness (AccountWitness_from_circuit_account acc) audit_account audit_token) in
  total (chunk_operation (pubdata_chunks pubdata) no_signature noop_args (Some (fr_of_uint 0)) (Some root) 0 branch branch).

(** ** The commitment to the public data *)

(** [for _ in 0..256 - bits.len() { push(false) }], then the bits of the element. *)
Definition packed_be_bits (x : Fr) : list bool :=
  let bits := bit_iterator (fr_repr x) in replicate (256 - length bits) false ++ bits.

Definition public_data_commitment (pubdata_bits : list bool)
    (initial_root new_root validator_address block_number : option Fr) : outcome Fr :=
  block_number ← unwrap "called `Option::unwrap()` on a `None` value" block_number;
  validator_address ← unwrap "called `Option::unwrap()` on a `None` value" validator_address;
  let public_data_initial_bits := packed_be_bits block_number ++ packed_be_bits validator_address in
  _ ← assert_that (length public_data_initial_bits =? 512)%nat "assertion failed: `(left == right)`";
  let hash_result := sha256 (be_bit_vector_into_bytes public_data_initial_bits) in
  initial_root ← unwrap "called `Option::unwrap()` on a `None` value" initial_root;
  let hash_result := sha256 (hash_result ++ be_bit_vector_into_bytes (packed_be_bits initial_root)) in
  new_root ← unwrap "called `Option::unwrap()` on a `None` value" new_root;
  let hash_result := sha256 (hash_result ++ be_bit_vector_into_bytes (packed_be_bits new_root)) in
  let hash_result := sha256 (hash_result ++ be_bit_vector_into_bytes pubdata_bits) in
  let hash_result := alter (λ b, Z.land b 31) 0%nat hash_result in
  unwrap "called `Result::unwrap()` on an `Err` value" (fr_from_repr (reverse (read_be 4 hash_result))).

(** ** The builder *)

Record WitnessBuilder : Type := mkWitnessBuilder {
  wb_account_tree : CircuitAccountTree;
  wb_fee_account_id : Z;
  wb_block_number : Z;
  wb_initial_root_hash : Fr;
  wb_operations : list CircuitOperation;
  wb_pubdata : list bool;
  wb_root_before_fees : option Fr;
  wb_root_after_fees : option Fr;
  wb_fee_account_balances : option (list (option Fr));
  wb_fee_account_witness : option AccountWitness;
  wb_fee_account_audit_path : option (list (option Fr));
  wb_pubdata_commitment : option Fr;
}.

(** Assignments to fields. *)
Definition wb_set_tree (t : CircuitAccountTree) (b : WitnessBuilder) : WitnessBuilder :=
  mkWitnessBuilder t (wb_fee_account_id b) (wb_block_number b) (wb_initial_root_hash b) (wb_operations b) (wb_pubdata b)
    (wb_root_before_fees b) (wb_root_after_fees b) (wb_fee_account_balances b) (wb_fee_account_witness b)
    (wb_fee_account_audit_path b) (wb_pubdata_commitment b).
Definition wb_extend (ops : list CircuitOperation) (pubdata : list bool) (b : WitnessBuilder) : WitnessBuilder :=
  mkWitnessBuilder (wb_account_tree b) (wb_fee_account_id b) (wb_block_number b) (wb_initial_root_hash b)
    (wb_operations b ++ ops) (wb_pubdata b ++ pubdata) (wb_root_before_fees b) (wb_root_after_fees b)
    (wb_fee_account_balances b) (wb_fee_account_witness b) (wb_fee_account_audit_path b) (wb_pubdata_commitment b).
Definition wb_set_fees (root_before root_after : Fr) (balances : list (option Fr)) (w : AccountWitness)
    (b : WitnessBuilder) : WitnessBuilder :=
  mkWitnessBuilder (wb_account_tree b) (wb_fee_account_id b) (wb_block_number b) (wb_initial_root_hash b)
    (wb_operations b) (wb_pubdata b) (Some root_before) (Some root_after) (Some balances) (Some w)
    (wb_fee_account_audit_path b) (wb_pubdata_commitment b).
Definition wb_set_commitment (path : list (option Fr)) (c : Fr) (b : WitnessBuilder) : WitnessBuilder :=
  mkWitnessBuilder (wb_account_tree b) (wb_fee_account_id b) (wb_block_number b) (wb_initial_root_hash b)
    (wb_operations b) (wb_pubdata b) (wb_root_before_fees b) (wb_root_after_fees b) (wb_fee_account_balances b)
    (wb_fee_account_witness b) (Some path) (Some c).

Definition on_tree {A} (m : Exec CircuitAccountTree A) : Exec WitnessBuilder A := zoom wb_account_tree wb_set_tree m.

Definition WitnessBuilder_new (account_tree : CircuitAccountTree) (fee_account_id block_number : Z) :
    outcome WitnessBuilder :=
  r ← smt_root_hash account_tree;
  let '(initial_root_hash, account_tree) := r in
  Val (mkWitnessBuilder account_tree fee_account_id block_number initial_root_hash [] [] None None None None None None).

Definition add_operation_with_pubdata (ops : list CircuitOperation) (pubdata : list bool) : Exec WitnessBuilder unit :=
  update (λ b, Val (wb_extend ops pubdata b)).

Definition extend_pubdata_with_noops (block_size_chunks : nat) : Exec WitnessBuilder unit :=
  chunks_used ← gets (λ b, length (wb_operations b));
  _ ← total (assert_that (chunks_used <=? block_size_chunks)%nat "failed to get number of noops");
  let chunks_remaining := (block_size_chunks - chunks_used)%nat in
  times chunks_remaining (
    fee_account_id ← gets wb_fee_account_id;
    op ← on_tree (noop_operation fee_account_id);
    update (λ b, Val (wb_extend [op] (replicate 64 false) b))).

(** [for CollectedFee { token, amount } in fees] *)
Fixpoint apply_fees (fee_account_id : Z) (last : Fr * AccountWitness) (fees : list CollectedFee) :
    Exec CircuitAccountTree (Fr * AccountWitness) :=
  match fees with
  | [] => mret last
  | fee :: fees =>
      amount ← total (big_decimal_to_u128 (cf_amount fee));
      last ← apply_fee fee_account_id (cf_token fee) amount;
      apply_fees fee_account_id last fees
  end.

(** The last two assignments overwrite the roots that the first ones stored. *)
Definition collect_fees (fees : list CollectedFee) : Exec WitnessBuilder unit :=
  _ ← on_tree root_hash;
  fee_account_id ← gets wb_fee_account_id;
  first ← on_tree (apply_fee fee_account_id 0 0);
  last ← on_tree (apply_fees fee_account_id first fees);
  root_before_fees ← on_tree root_hash;
  root_after_fees ← on_tree root_hash;
  update (λ b, Val (wb_set_fees root_before_fees root_after_fees [] last.2 b)).

Definition calculate_pubdata_commitment : Exec WitnessBuilder unit :=
  fee_account_id ← gets wb_fee_account_id;
  audits ← on_tree (get_audits fee_account_id 0);
  b ← gets id;
  root_after_fees ← total (unwrap "root after fee should be present at this step" (wb_root_after_fees b));
  commitment ← total (public_data_commitment (wb_pubdata b) (Some (wb_initial_root_hash b)) (Some root_after_fees)
                        (Some (fr_of_uint (wb_fee_account_id b))) (Some (fr_of_uint (wb_block_number b))));
  update (λ b, Val (wb_set_commitment audits.1 commitment b)).
End Witness.

Section Commitment.
  Context `{EX : External} `{EXL : !ExternalLaws}.

Definition commitment_of (pubdata : bytes) (old_root new_root : Fr) (fee_account block_number : Z) : Z :=
  let h := sha256 (to_be_bytes 32 block_number ++ to_be_bytes 32 fee_account) in
  let h := sha256 (h ++ fe_to_bytes old_root) in
  let h := sha256 (h ++ fe_to_bytes new_root) in
  let h := sha256 (h ++ pubdata) in
  from_be_bytes h mod 2 ^ 253.

Lemma be_bits_concat ls : bytes_into_be_bits (concat ls) = concat (bytes_into_be_bits <$> ls).
Proof.
  induction ls as [|l ls IH]; [done|]. rewrite fmap_cons. cbn [concat]. rewrite <- IH.
  unfold bytes_into_be_bits. by rewrite fmap_app, concat_app.
Qed.

Lemma reverse_concat {A} (ls : list (list A)) : reverse (concat ls) = concat (reverse <$> reverse ls).
Proof.
  induction ls as [|l ls IH]; [done|]. cbn [concat]. rewrite reverse_app, IH, reverse_cons, fmap_app, concat_app.
  cbn [fmap list_fmap concat]. by rewrite app_nil_r.
Qed.

Lemma bit_iterator_bytes limbs : bit_iterator limbs = bytes_into_be_bits (concat (to_be_bytes 8 <$> reverse limbs)).
Proof.
  rewrite bit_iterator_be, reverse_concat, be_bits_concat, <- fmap_reverse, <- !list_fmap_compose. f_equal.
  apply list_fmap_ext. intros i x _. unfold compose. by rewrite (be_bits_of_bytes 8).
Qed.

Lemma fe_to_bytes_length x : length (fe_to_bytes x) = 32%nat.
Proof.
  destruct (fr_repr_limbs x) as [Hl _]. unfold fe_to_bytes, repr_write_be.
  by destruct (fr_repr x) as [|a [|b [|c [|d []]]]].
Qed.

Lemma to_be_bytes_app m n z : to_be_bytes (m + n) z = to_be_bytes m (z / 256 ^ Z.of_nat n) ++ to_be_bytes n z.
Proof. unfold to_be_bytes. by rewrite Nat.add_comm, le_bytes_app, reverse_app. Qed.

Lemma fe_to_bytes_bytes x : Forall is_byte (fe_to_bytes x).
Proof.
  unfold fe_to_bytes, repr_write_be. apply Forall_concat, Forall_fmap, Forall_true. intros z. apply to_be_bytes_array.
Qed.

Lemma packed_be_bits_fe x : packed_be_bits x = bytes_into_be_bits (fe_to_bytes x).
Proof.
  unfold packed_be_bits. rewrite bit_iterator_length, (proj1 (fr_repr_limbs x)). cbn [Nat.mul Nat.sub replicate app].
  apply bit_iterator_bytes.
Qed.

Lemma packed_be_bits_uint n : fits 253 n → packed_be_bits (fr_of_uint n) = bytes_into_be_bits (to_be_bytes 32 n).
Proof.
  intros Hn. unfold packed_be_bits. rewrite bit_iterator_length, (proj1 (fr_repr_limbs _)). cbn [Nat.mul Nat.sub replicate app].
  rewrite be_bits_of_bytes. change (32 * 8)%nat with 256%nat. by rewrite <- (fr_uint_bits n Hn), reverse_involutive.
Qed.

(** Limbs of big-endian bytes. *)
Lemma from_to_be_bytes_mod n z : from_be_bytes (to_be_bytes n z) = z mod 256 ^ Z.of_nat n.
Proof.
  unfold from_be_bytes, to_be_bytes. rewrite reverse_involutive. revert z. induction n as [|n IH]; intros z; cbn [le_bytes le_val].
  - by rewrite Z.mod_1_r.
  - rewrite IH, Nat2Z.inj_succ, Z.pow_succ_r by lia. rewrite Z.rem_mul_r by (try apply Z.pow_nonzero; lia). done.
Qed.

Lemma read_be_uint k n :
  read_be k (to_be_bytes (k * 8) n) = reverse ((λ i : nat, wrap 64 (n / 2 ^ (64 * Z.of_nat i))) <$> seq 0 k).
Proof.
  induction k as [|k IH]; [done|]. change (S k * 8)%nat with (8 + k * 8)%nat. rewrite to_be_bytes_app, seq_S, fmap_app, reverse_app.
  cbn [read_be]. rewrite take_app_length', drop_app_length' by (by rewrite to_be_bytes_length). rewrite IH, from_to_be_bytes_mod.
  cbn. f_equal. unfold wrap. do 2 f_equal. change 256 with (2 ^ 8). rewrite <- Z.pow_mul_r by lia. f_equal. lia.
Qed.

Lemma read_be_limbs l : is_array 32 l →
  reverse (read_be 4 l) = (λ i, wrap 64 (from_be_bytes l / 2 ^ (64 * i))) <$> [0; 1; 2; 3].
Proof. intros Hl. rewrite <- (to_from_be_bytes 32 l Hl) at 1. rewrite (read_be_uint 4), reverse_involutive. done. Qed.

Lemma fr_from_uint_repr n :
  fits 253 n → fr_from_repr ((λ i, wrap 64 (n / 2 ^ (64 * i))) <$> [0; 1; 2; 3]) = Some (fr_of_uint n).
Proof. intros Hn. rewrite <- (fr_of_uint_repr n Hn). apply fr_from_repr_ok. Qed.

(** Clearing the three highest bits of the hash. *)
Lemma masked_hash h :
  is_array 32 h → let h' := alter (λ b, Z.land b 31) 0%nat h in
  is_array 32 h' ∧ from_be_bytes h' = from_be_bytes h mod 2 ^ 253.
Proof.
  intros [Hl Hb]. destruct h as [|b h]; [done|]. cbn [alter list_alter]. apply Forall_cons in Hb as [Hb Hh].
  assert (length h = 31%nat) as Hl' by (simpl in Hl; lia). change 31 with (Z.ones 5). rewrite Z.land_ones by lia.
  assert (0 ≤ b mod 2 ^ 5 < 2 ^ 5) as Hm by (by apply Z.mod_pos_bound). split.
  { split; [done|]. constructor; [|done]. unfold is_byte. change (2 ^ 5) with 32 in *. lia. }
  assert (∀ x, from_be_bytes (x :: h) = from_be_bytes h + 2 ^ 248 * x) as E.
  { intros x. unfold from_be_bytes. rewrite reverse_cons, le_val_app, length_reverse, Hl'. cbn [le_val].
    change (256 ^ Z.of_nat 31) with (2 ^ 248). ring. }
  pose proof (from_be_bytes_bound 31 h (conj Hl' Hh)) as Hbound. change (256 ^ Z.of_nat 31) with (2 ^ 248) in Hbound.
  rewrite !E. symmetry. pose proof (Z.div_mod b (2 ^ 5)) as Hd. rewrite (Z.mod_eq b) in Hm |- * by done.
  set (q := b / 2 ^ 5) in *. rewrite <- (Z.mod_small (from_be_bytes h + 2 ^ 248 * (b - 2 ^ 5 * q)) (2 ^ 253)).
  - rewrite <- (Z.mod_add (from_be_bytes h + 2 ^ 248 * (b - 2 ^ 5 * q)) q) by done. f_equal.
    change (2 ^ 253) with (2 ^ 248 * 2 ^ 5). ring.
  - change (2 ^ 253) with (2 ^ 248 * 2 ^ 5). set (B := 2 ^ 248) in *. change (2 ^ 5) with 32 in *. nia.
Qed.

(** The commitment is defined for every block and is the one of the contract. *)
Lemma public_data_commitment_spec pubdata old_root new_root fee_account block_number :
  Forall is_byte pubdata → fits 32 fee_account → fits 32 block_number →
  public_data_commitment (bytes_into_be_bits pubdata) (Some old_root) (Some new_root) (Some (fr_of_uint fee_account))
    (Some (fr_of_uint block_number)) = Val (fr_of_uint (commitment_of pubdata old_root new_root fee_account block_number)).
Proof.
  intros Hp Hf Hn. assert (fits 253 fee_account ∧ fits 253 block_number) as [Hf' Hn'].
  { unfold fits in *. assert (2 ^ 32 < 2 ^ 253) by (by apply Z.pow_lt_mono_r). lia. }
  unfold public_data_commitment. cbn [unwrap mbind outcome_bind]. rewrite !packed_be_bits_uint by done.
  rewrite length_app, !bytes_into_be_bits_length, !to_be_bytes_length. cbn [Nat.mul Nat.add Nat.eqb assert_that mbind outcome_bind].
  rewrite !packed_be_bits_fe. assert (∀ a b, bytes_into_be_bits a ++ bytes_into_be_bits b = bytes_into_be_bits (a ++ b)) as ->.
  { intros. unfold bytes_into_be_bits. by rewrite fmap_app, concat_app. }
  rewrite !be_bit_vector_into_bytes_spec by
    (done || apply fe_to_bytes_bytes || (apply Forall_app_2; apply to_be_bytes_array)).
  set (h := sha256 (_ ++ pubdata)). destruct (masked_hash h (sha256_array _)) as [Ha Hv].
  rewrite read_be_limbs by done. rewrite fr_from_uint_repr; [|rewrite Hv; by apply Z.mod_pos_bound]. by rewrite Hv.
Qed.
End Commitment.
