(* ===== verification/WitnessOps.v ===== *)
(** * The witness generators of the operations
    (core/circuit/src/witness/{deposit, transfer, transfer_to_new, withdraw, close_account,
     change_pubkey_offchain, full_exit}.rs)

    One module per operation, with [apply_tx] (through [apply_data]),
    [get_pubdata], [calculate_operations] and [get_sig_bits] where the source
    has it.  The class [Witness] is the trait; its instances are indexed by the
    type of the operation. *)

From S2P Require Import Prelude Bytes Params Externals Primitives Amounts Account Tx Operations Merkle ParallelSmt.
From S2P Require Import Storage AccountLeaf CircuitTree Witness.
Open Scope Z_scope.

Class WitnessOf `{EX : External} (OperationType : Type) : Type := {
  witness_type : Type;
  CalculateOpsInput : Type;
  apply_tx : OperationType → Exec CircuitAccountTree witness_type;
  get_pubdata : witness_type → outcome (list bool);
  calculate_operations : witness_type → CalculateOpsInput → outcome (list CircuitOperation);
}.

(** ** What the generators share *)
Section Shared.
  Context `{EX : External}.

(** [DepositWitness], [WithdrawWitness], [CloseAccountWitness] and
    [ChangePubkeyOffChainWitness] have these fields. *)
Record LeafWitness : Type := mkLeafWitness {
  lw_before : OperationBranch;
  lw_after : OperationBranch;
  lw_args : OperationArguments;
  lw_before_root : option Fr;
  lw_after_root : option Fr;
  lw_tx_type : option Fr;
}.

(** [TransferWitness] and [TransferToNewWitness] have these fields. *)
Record PairWitness : Type := mkPairWitness {
  from_before : OperationBranch;
  from_intermediate : OperationBranch;
  from_after : OperationBranch;
  to_before : OperationBranch;
  to_intermediate : OperationBranch;
  to_after : OperationBranch;
  pw_args : OperationArguments;
  pw_before_root : option Fr;
  pw_intermediate_root : option Fr;
  pw_after_root : option Fr;
  pw_tx_type : option Fr;
}.

Definition fe (o : option Fr) : outcome Fr := unwrap "called `Option::unwrap()` on a `None` value" o.

(** [append_be_fixed_width(&mut bits, &field.unwrap(), width)] for the fields in order. *)
Fixpoint append_fields (bits : list bool) (fields : list (option Fr * nat)) : outcome (list bool) :=
  match fields with
  | [] => Val bits
  | (x, width) :: fields => x ← fe x; append_fields (append_be_fixed_width bits x width) fields
  end.

Definition check_capacity : Exec CircuitAccountTree unit :=
  capacity ← gets capacity;
  total (assert_that (capacity =? Z.shiftl 1 (Z.of_nat account_tree_depth)) "assertion failed: `(left == right)`").

(** A branch from the audit paths of a leaf. *)
Definition branch (address : Fr) (w : AccountWitness) (audits : list (option Fr) * list (option Fr)) : OperationBranch :=
  mkBranch (Some address) (mkBranchWitness w audits.1 audits.2).

(** [convert_to_float(fee, ..).unwrap()] as a field element. *)
Definition fee_encoded (fee : Z) : outcome Fr :=
  match convert_to_float fee FEE_EXPONENT_BIT_WIDTH FEE_MANTISSA_BIT_WIDTH 10 with
  | Ok fee_bits => Val (le_bit_vector_into_field_element fee_bits)
  | Err _ => Panic "called `Result::unwrap()` on an `Err` value"
  end.

(** [acc.nonce.add_assign(&Fr::from_str("1").unwrap())] *)
Definition add_nonce (acc : CircuitAccount) : CircuitAccount :=
  mkCircuitAccount (ca_subtree acc) (fr_add (ca_nonce acc) (fr_of_uint 1)) (ca_pub_key_hash acc) (ca_address acc).

(** The body of the [apply_data] of the operations on one leaf. *)
Definition apply_leaf_data (account_address token_id : Z) (token_id_to_add token_id_to_remove : option Z)
    (fa : CircuitAccount → outcome CircuitAccount) (args : OperationArguments) (type : Z) :
    Exec CircuitAccountTree LeafWitness :=
  before_root ← root_hash;
  audits_before ← get_audits account_address token_id;
  _ ← check_capacity;
  let account_address_fe := fr_of_uint account_address in
  witnesses ← apply_leaf_operation account_address token_id_to_add token_id_to_remove fa;
  after_root ← root_hash;
  audits_after ← get_audits account_address token_id;
  mret (mkLeafWitness (branch account_address_fe witnesses.1 audits_before)
          (branch account_address_fe witnesses.2 audits_after) args (Some before_root) (Some after_root)
          (Some (fr_of_uint type))).

(** The body of the [apply_data] of the two transfers: the token leaves one leaf and
    enters the other. *)
Definition apply_pair_data (from_account_address to_account_address token_id : Z)
    (fa : CircuitAccount → outcome CircuitAccount) (args : OperationArguments) (type : Z) :
    Exec CircuitAccountTree PairWitness :=
  before_root ← root_hash;
  audits_from_before ← get_audits from_account_address token_id;
  audits_to_before ← get_audits to_account_address token_id;
  _ ← check_capacity;
  let from_fe := fr_of_uint from_account_address in
  let to_fe := fr_of_uint to_account_address in
  from_witnesses ← apply_leaf_operation from_account_address None (Some token_id) (λ acc, Val (add_nonce acc));
  intermediate_root ← root_hash;
  audits_from_intermediate ← get_audits from_account_address token_id;
  audits_to_intermediate ← get_audits to_account_address token_id;
  to_witnesses ← apply_leaf_operation to_account_address (Some token_id) None fa;
  after_root ← root_hash;
  audits_from_after ← get_audits from_account_address token_id;
  audits_to_after ← get_audits to_account_address token_id;
  mret (mkPairWitness
    (branch from_fe from_witnesses.1 audits_from_before)
    (branch from_fe from_witnesses.2 audits_from_intermediate)
    (branch from_fe from_witnesses.2 audits_from_after)
    (branch to_fe to_witnesses.1 audits_to_before)
    (branch to_fe to_witnesses.1 audits_to_intermediate)
    (branch to_fe to_witnesses.2 audits_to_after)
    args (Some before_root) (Some intermediate_root) (Some after_root) (Some (fr_of_uint type))).

(** The operations of a witness on one leaf: the first chunk gets the first pair of
    branches, the [n] others the second. *)
Definition leaf_operations (pubdata : list bool) (input : SigDataInput) (self : LeafWitness) (n : nat)
    (first rest : OperationBranch * OperationBranch) : outcome (list CircuitOperation) :=
  let op i b := chunk_operation (pubdata_chunks pubdata) input (lw_args self) (lw_tx_type self) (lw_after_root self) i b.1 b.2 in
  op0 ← op 0%nat first;
  ops ← map_outcome (λ i, op i rest) (seq 1 n);
  Val (op0 :: ops).
End Shared.

(** ** deposit.rs *)
Module Deposit.
Section Deposit.
  Context `{EX : External}.

Record DepositData : Type := mkDepositData { dd_token_id : Z; dd_account_address : Z; dd_address : Fr }.

Definition apply_data (deposit : DepositData) : Exec CircuitAccountTree LeafWitness :=
  let zero := fr_of_uint 0 in
  apply_leaf_data (dd_account_address deposit) (dd_token_id deposit) (Some (dd_token_id deposit)) None
    (λ acc,
      _ ← assert_that (fr_eqb (ca_address acc) (dd_address deposit) || fr_eqb (ca_address acc) zero)
            "assertion failed: (acc.address == deposit.address) || (acc.address == Fr::zero())";
      Val (mkCircuitAccount (ca_subtree acc) (ca_nonce acc) (ca_pub_key_hash acc) (dd_address deposit)))
    (mkArguments (Some (fr_of_uint (dd_token_id deposit))) (Some zero) (Some zero) (Some (dd_address deposit)) (Some zero)) 1.

Definition apply_tx (deposit : DepositOp) : Exec CircuitAccountTree LeafWitness :=
  apply_data (mkDepositData (dp_token_id (dpo_priority_op deposit)) (dpo_account_id deposit)
    (eth_address_to_fr (dp_to (dpo_priority_op deposit)))).

Definition get_pubdata (self : LeafWitness) : outcome (list bool) :=
  pubdata_bits ← append_fields []
    [(lw_tx_type self, TX_TYPE_BIT_WIDTH); (br_address (lw_before self), ACCOUNT_ID_BIT_WIDTH);
     (arg_token_id (lw_args self), TOKENID_BIT_WIDTH); (arg_eth_address (lw_args self), ETH_ADDRESS_BIT_WIDTH)];
  Val (vec_resize (6 * CHUNK_BIT_WIDTH) false pubdata_bits).

Definition calculate_operations (self : LeafWitness) (_ : unit) : outcome (list CircuitOperation) :=
  pubdata ← get_pubdata self;
  leaf_operations pubdata no_signature self 5 (lw_before self, lw_before self) (lw_after self, lw_after self).

Definition get_sig_bits (self : LeafWitness) : outcome (list bool) :=
  append_fields []
    [(Some (fr_of_uint 1), TX_TYPE_BIT_WIDTH); (arg_new_pub_key_hash (lw_args self), NEW_PUBKEY_HASH_WIDTH);
     (arg_token_id (lw_args self), TOKENID_BIT_WIDTH);
     (aw_nonce (account_witness (br_witness (lw_before self))), NONCE_BIT_WIDTH)].
End Deposit.
End Deposit.

(** ** withdraw.rs *)
Module Withdrawal.
Section Withdrawal.
  Context `{EX : External}.

Record WithdrawData : Type := mkWithdrawData {
  wdd_fee : Z; wdd_token_id : Z; wdd_account_address : Z; wdd_eth_address : Fr }.

Definition apply_data (withdraw : WithdrawData) : Exec CircuitAccountTree LeafWitness :=
  let zero := fr_of_uint 0 in
  fee ← total (fee_encoded (wdd_fee withdraw));
  apply_leaf_data (wdd_account_address withdraw) (wdd_token_id withdraw) None (Some (wdd_token_id withdraw))
    (λ acc, Val (add_nonce acc))
    (mkArguments (Some (fr_of_uint (wdd_token_id withdraw))) (Some fee) (Some zero) (Some (wdd_eth_address withdraw)) (Some zero)) 3.

Definition apply_tx (withdraw : WithdrawOp) : Exec CircuitAccountTree LeafWitness :=
  fee ← total (big_decimal_to_u128 (wd_fee (wdo_tx withdraw)));
  apply_data (mkWithdrawData fee (wd_token_id (wdo_tx withdraw)) (wdo_account_id withdraw)
    (eth_address_to_fr (wd_to (wdo_tx withdraw)))).

Definition get_pubdata (self : LeafWitness) : outcome (list bool) :=
  pubdata_bits ← append_fields []
    [(lw_tx_type self, TX_TYPE_BIT_WIDTH); (br_address (lw_before self), ACCOUNT_ID_BIT_WIDTH);
     (arg_token_id (lw_args self), TOKENID_BIT_WIDTH);
     (arg_fee (lw_args self), FEE_MANTISSA_BIT_WIDTH + FEE_EXPONENT_BIT_WIDTH)%nat;
     (arg_eth_address (lw_args self), ETH_ADDRESS_BIT_WIDTH)];
  Val (vec_resize (6 * CHUNK_BIT_WIDTH) false pubdata_bits).

Definition calculate_operations (self : LeafWitness) (input : SigDataInput) : outcome (list CircuitOperation) :=
  pubdata ← get_pubdata self;
  leaf_operations pubdata input self 5 (lw_before self, lw_before self) (lw_after self, lw_after self).

Definition get_sig_bits (self : LeafWitness) : outcome (list bool) :=
  append_fields []
    [(Some (fr_of_uint 3), TX_TYPE_BIT_WIDTH);
     (aw_pub_key_hash (account_witness (br_witness (lw_before self))), NEW_PUBKEY_HASH_WIDTH);
     (arg_eth_address (lw_args self), ETH_ADDRESS_BIT_WIDTH); (arg_token_id (lw_args self), TOKENID_BIT_WIDTH);
     (arg_fee (lw_args self), FEE_MANTISSA_BIT_WIDTH + FEE_EXPONENT_BIT_WIDTH)%nat;
     (aw_nonce (account_witness (br_witness (lw_before self))), NONCE_BIT_WIDTH)].
End Withdrawal.
End Withdrawal.

(** ** close_account.rs *)
Module CloseAccount.
Section CloseAccount.
  Context `{EX : External}.

Record CloseAccountData : Type := mkCloseAccountData { cad_account_address : Z }.

Definition apply_data (close_account : CloseAccountData) : Exec CircuitAccountTree LeafWitness :=
  let zero := fr_of_uint 0 in
  apply_leaf_data (cad_account_address close_account) 0 None None
    (λ acc, Val (mkCircuitAccount (ca_subtree acc) zero zero (ca_address acc)))
    (mkArguments (Some zero) (Some zero) (Some zero) (Some zero) (Some zero)) 4.

Definition apply_tx (close_account : CloseOp) : Exec CircuitAccountTree LeafWitness :=
  apply_data (mkCloseAccountData (clo_account_id close_account)).

Definition get_pubdata (self : LeafWitness) : outcome (list bool) :=
  pubdata_bits ← append_fields []
    [(lw_tx_type self, TX_TYPE_BIT_WIDTH); (br_address (lw_before self), ACCOUNT_ID_BIT_WIDTH)];
  Val (vec_resize CHUNK_BIT_WIDTH false pubdata_bits).

Definition calculate_operations (self : LeafWitness) (input : SigDataInput) : outcome (list CircuitOperation) :=
  pubdata ← get_pubdata self;
  leaf_operations pubdata input self 0 (lw_before self, lw_before self) (lw_before self, lw_before self).

Definition get_sig_bits (self : LeafWitness) : outcome (list bool) :=
  append_fields []
    [(Some (fr_of_uint 4), TX_TYPE_BIT_WIDTH);
     (aw_pub_key_hash (account_witness (br_witness (lw_before self))), NEW_PUBKEY_HASH_WIDTH);
     (aw_nonce (account_witness (br_witness (lw_before self))), NONCE_BIT_WIDTH)].
End CloseAccount.
End CloseAccount.

(** ** change_pubkey_offchain.rs *)
Module ChangePubkeyOffChain.
Section ChangePubkeyOffChain.
  Context `{EX : External}.

Record ChangePubkeyOffChainData : Type := mkChangePubkeyData {
  cpd_account_id : Z; cpd_address : Fr; cpd_new_pubkey_hash : Fr; cpd_nonce : Fr }.

Definition apply_data (change_pubkey : ChangePubkeyOffChainData) : Exec CircuitAccountTree LeafWitness :=
  let zero := fr_of_uint 0 in
  apply_leaf_data (cpd_account_id change_pubkey) 0 None None
    (λ acc,
      _ ← assert_that (fr_eqb (ca_address acc) (cpd_address change_pubkey)) "change pubkey address tx mismatch";
      Val (add_nonce (mkCircuitAccount (ca_subtree acc) (ca_nonce acc) (cpd_new_pubkey_hash change_pubkey) (ca_address acc))))
    (mkArguments (Some zero) (Some zero) (Some (cpd_new_pubkey_hash change_pubkey)) (Some (cpd_address change_pubkey))
       (Some (cpd_nonce change_pubkey))) 7.

Definition apply_tx (change_pubkey_offchain : ChangePubKeyOp) : Exec CircuitAccountTree LeafWitness :=
  let tx := cpo_tx change_pubkey_offchain in
  apply_data (mkChangePubkeyData (cpo_account_id change_pubkey_offchain) (eth_address_to_fr (cpk_account tx))
    (PubKeyHash_to_fr (cpk_new_pk_hash tx)) (fr_of_uint (cpk_nonce tx))).

Definition get_pubdata (self : LeafWitness) : outcome (list bool) :=
  pubdata_bits ← append_fields []
    [(lw_tx_type self, TX_TYPE_BIT_WIDTH); (br_address (lw_before self), ACCOUNT_ID_BIT_WIDTH);
     (arg_new_pub_key_hash (lw_args self), NEW_PUBKEY_HASH_WIDTH); (arg_eth_address (lw_args self), ETH_ADDRESS_BIT_WIDTH);
     (aw_nonce (account_witness (br_witness (lw_before self))), NONCE_BIT_WIDTH)];
  _ ← assert_that (length pubdata_bits <=? CHANGE_PUBKEY_CHUNKS * CHUNK_BIT_WIDTH)%nat
        "assertion failed: pubdata_bits.len() <= ChangePubKeyOp::CHUNKS * CHUNK_BIT_WIDTH";
  Val (vec_resize (CHANGE_PUBKEY_CHUNKS * CHUNK_BIT_WIDTH) false pubdata_bits).

(** [chunks(64).map(..).enumerate().map(..)] *)
Definition calculate_operations (self : LeafWitness) (_ : unit) : outcome (list CircuitOperation) :=
  pubdata ← get_pubdata self;
  Val (imap (λ chunk_n pubdata_chunk,
         mkCircuitOperation (lw_after_root self) (lw_tx_type self) (Some (fr_of_uint (Z.of_nat chunk_n)))
           (Some pubdata_chunk) (replicate 256 (Some false)) (Some (fr_of_uint 0)) (Some (fr_of_uint 0))
           (Some (fr_of_uint 0)) SignatureData_init_empty (lw_args self) (lw_before self) (lw_after self))
       (pubdata_chunks pubdata)).
End ChangePubkeyOffChain.
End ChangePubkeyOffChain.

(** ** transfer.rs *)
Module TransferWitness.
Section TransferWitness.
  Context `{EX : External}.

Record TransferData : Type := mkTransferData {
  td_fee : Z; td_token_id : Z; td_from_account_address : Z; td_to_account_address : Z }.

Definition apply_data (transfer : TransferData) : Exec CircuitAccountTree PairWitness :=
  let zero := fr_of_uint 0 in
  fee ← total (fee_encoded (td_fee transfer));
  apply_pair_data (td_from_account_address transfer) (td_to_account_address transfer) (td_token_id transfer)
    (λ acc, Val acc)
    (mkArguments (Some (fr_of_uint (td_token_id transfer))) (Some fee) (Some zero) (Some zero) (Some zero)) 5.

Definition apply_tx (transfer : TransferOp) : Exec CircuitAccountTree PairWitness :=
  fee ← total (big_decimal_to_u128 (tr_fee (tro_tx transfer)));
  apply_data (mkTransferData fee (tr_token_id (tro_tx transfer)) (tro_from transfer) (tro_to transfer)).

Definition get_pubdata (self : PairWitness) : outcome (list bool) :=
  pubdata_bits ← append_fields []
    [(pw_tx_type self, TX_TYPE_BIT_WIDTH); (br_address (from_before self), ACCOUNT_ID_BIT_WIDTH);
     (br_address (to_before self), ACCOUNT_ID_BIT_WIDTH); (arg_token_id (pw_args self), TOKENID_BIT_WIDTH);
     (arg_fee (pw_args self), FEE_MANTISSA_BIT_WIDTH + FEE_EXPONENT_BIT_WIDTH)%nat];
  Val (vec_resize (2 * CHUNK_BIT_WIDTH) false pubdata_bits).

Definition calculate_operations (self : PairWitness) (input : SigDataInput) : outcome (list CircuitOperation) :=
  pubdata ← get_pubdata self;
  let op := chunk_operation (pubdata_chunks pubdata) input (pw_args self) (pw_tx_type self) in
  operation_zero ← op (pw_intermediate_root self) 0%nat (from_before self) (to_before self);
  operation_one ← op (pw_after_root self) 1%nat (from_intermediate self) (to_intermediate self);
  Val [operation_zero; operation_one].

Definition get_sig_bits (self : PairWitness) : outcome (list bool) :=
  append_fields []
    [(Some (fr_of_uint 5), TX_TYPE_BIT_WIDTH);
     (aw_pub_key_hash (account_witness (br_witness (from_before self))), NEW_PUBKEY_HASH_WIDTH);
     (aw_pub_key_hash (account_witness (br_witness (to_before self))), NEW_PUBKEY_HASH_WIDTH);
     (arg_token_id (pw_args self), TOKENID_BIT_WIDTH);
     (arg_fee (pw_args self), FEE_MANTISSA_BIT_WIDTH + FEE_EXPONENT_BIT_WIDTH)%nat;
     (aw_nonce (account_witness (br_witness (from_before self))), NONCE_BIT_WIDTH)].
End TransferWitness.
End TransferWitness.

(** ** transfer_to_new.rs *)
Module TransferToNewWitness.
Section TransferToNewWitness.
  Context `{EX : External}.

Record TransferToNewData : Type := mkTransferToNewData {
  tnd_fee : Z; tnd_token_id : Z; tnd_from_account_address : Z; tnd_to_account_address : Z; tnd_new_address : Fr }.

Definition apply_data (transfer_to_new : TransferToNewData) : Exec CircuitAccountTree PairWitness :=
  let zero := fr_of_uint 0 in
  fee ← total (fee_encoded (tnd_fee transfer_to_new));
  apply_pair_data (tnd_from_account_address transfer_to_new) (tnd_to_account_address transfer_to_new)
    (tnd_token_id transfer_to_new)
    (λ acc,
      _ ← assert_that (fr_eqb (ca_address acc) zero) "assertion failed: (acc.address == Fr::zero())";
      Val (mkCircuitAccount (ca_subtree acc) (ca_nonce acc) (ca_pub_key_hash acc) (tnd_new_address transfer_to_new)))
    (mkArguments (Some (fr_of_uint (tnd_token_id transfer_to_new))) (Some fee) (Some zero)
       (Some (tnd_new_address transfer_to_new)) (Some zero)) 2.

(** The fee is parsed without the check that it is an integer. *)
Definition apply_tx (transfer_to_new : TransferToNewOp) : Exec CircuitAccountTree PairWitness :=
  let tx := ttn_tx transfer_to_new in
  fee ← total (unwrap "called `Result::unwrap()` on an `Err` value" (bd_parse_u128 (tr_fee tx)));
  apply_data (mkTransferToNewData fee (tr_token_id tx) (ttn_from transfer_to_new) (ttn_to transfer_to_new)
    (eth_address_to_fr (tr_to tx))).

Definition get_pubdata (self : PairWitness) : outcome (list bool) :=
  pubdata_bits ← append_fields []
    [(pw_tx_type self, TX_TYPE_BIT_WIDTH); (br_address (from_before self), ACCOUNT_ID_BIT_WIDTH);
     (arg_token_id (pw_args self), TOKENID_BIT_WIDTH); (arg_eth_address (pw_args self), ETH_ADDRESS_BIT_WIDTH);
     (br_address (to_before self), ACCOUNT_ID_BIT_WIDTH);
     (arg_fee (pw_args self), FEE_MANTISSA_BIT_WIDTH + FEE_EXPONENT_BIT_WIDTH)%nat];
  Val (vec_resize (5 * CHUNK_BIT_WIDTH) false pubdata_bits).

Definition calculate_operations (self : PairWitness) (input : SigDataInput) : outcome (list CircuitOperation) :=
  pubdata ← get_pubdata self;
  let op := chunk_operation (pubdata_chunks pubdata) input (pw_args self) (pw_tx_type self) in
  operation_zero ← op (pw_intermediate_root self) 0%nat (from_before self) (to_before self);
  operation_one ← op (pw_after_root self) 1%nat (from_intermediate self) (to_intermediate self);
  operation_two ← op (pw_after_root self) 2%nat (from_after self) (to_after self);
  operation_three ← op (pw_after_root self) 3%nat (from_after self) (to_after self);
  operation_four ← op (pw_after_root self) 4%nat (from_after self) (to_after self);
  Val [operation_zero; operation_one; operation_two; operation_three; operation_four].

Definition get_sig_bits (self : PairWitness) : outcome (list bool) :=
  append_fields []
    [(Some (fr_of_uint 5), TX_TYPE_BIT_WIDTH);
     (aw_pub_key_hash (account_witness (br_witness (from_before self))), NEW_PUBKEY_HASH_WIDTH);
     (arg_new_pub_key_hash (pw_args self), NEW_PUBKEY_HASH_WIDTH); (arg_token_id (pw_args self), TOKENID_BIT_WIDTH);
     (arg_fee (pw_args self), FEE_MANTISSA_BIT_WIDTH + FEE_EXPONENT_BIT_WIDTH)%nat;
     (aw_nonce (account_witness (br_witness (from_before self))), NONCE_BIT_WIDTH)].
End TransferToNewWitness.
End TransferToNewWitness.

(** ** full_exit.rs: every method is [unimplemented!()] *)
Module FullExitWitness.
Section FullExitWitness.
  Context `{EX : External}.

Definition apply_tx (_ : FullExitOp * bool) : Exec CircuitAccountTree LeafWitness := total (Panic "not yet implemented").
Definition get_pubdata (_ : LeafWitness) : outcome (list bool) := Panic "not yet implemented".
Definition calculate_operations (_ : LeafWitness) (_ : unit) : outcome (list CircuitOperation) := Panic "not yet implemented".
End FullExitWitness.
End FullExitWitness.

(** ** The instances of the trait *)
Section Instances.
  Context `{EX : External}.

#[global] Instance deposit_witness : WitnessOf DepositOp := {|
  witness_type := LeafWitness; CalculateOpsInput := unit;
  apply_tx := Deposit.apply_tx; get_pubdata := Deposit.get_pubdata; calculate_operations := Deposit.calculate_operations |}.
#[global] Instance withdraw_witness : WitnessOf WithdrawOp := {|
  witness_type := LeafWitness; CalculateOpsInput := SigDataInput;
  apply_tx := Withdrawal.apply_tx; get_pubdata := Withdrawal.get_pubdata;
  calculate_operations := Withdrawal.calculate_operations |}.
#[global] Instance close_witness : WitnessOf CloseOp := {|
  witness_type := LeafWitness; CalculateOpsInput := SigDataInput;
  apply_tx := CloseAccount.apply_tx; get_pubdata := CloseAccount.get_pubdata;
  calculate_operations := CloseAccount.calculate_operations |}.
#[global] Instance change_pubkey_witness : WitnessOf ChangePubKeyOp := {|
  witness_type := LeafWitness; CalculateOpsInput := unit;
  apply_tx := ChangePubkeyOffChain.apply_tx; get_pubdata := ChangePubkeyOffChain.get_pubdata;
  calculate_operations := ChangePubkeyOffChain.calculate_operations |}.
#[global] Instance transfer_witness : WitnessOf TransferOp := {|
  witness_type := PairWitness; CalculateOpsInput := SigDataInput;
  apply_tx := TransferWitness.apply_tx; get_pubdata := TransferWitness.get_pubdata;
  calculate_operations := TransferWitness.calculate_operations |}.
#[global] Instance transfer_to_new_witness : WitnessOf TransferToNewOp := {|
  witness_type := PairWitness; CalculateOpsInput := SigDataInput;
  apply_tx := TransferToNewWitness.apply_tx; get_pubdata := TransferToNewWitness.get_pubdata;
  calculate_operations := TransferToNewWitness.calculate_operations |}.
End Instances.
