(* ===== verification/WitnessProofs.v ===== *)
(** * Correctness of the witness generators

    [branch_of m k t] is the specification of a branch: the data of account [k]
    of the accounts [m], the Merkle path of its leaf and the Merkle path of token
    [t] in its token tree.  [branch_opens] says what a verifier recomputes from a
    branch.  The generators are shown to follow the ledger: run on a tree that
    mirrors [m] they do not panic, leave a tree that mirrors the accounts after
    the operation, and return the branches and roots before and after. *)

From S2P Require Import Prelude Bytes Params Externals Primitives Amounts Account Tx Operations Merkle ParallelSmt.
From S2P Require Import ParallelSmtProofs Storage AccountLeaf PlasmaProofs StateKeeperProofs ExecLogic CircuitTree.
From S2P Require Import Witness WitnessOps.
Open Scope Z_scope.

Lemma runs_method {S A} (f : S → outcome (A * S)) s a s' (Q : A → S → Prop) :
  f s = Val (a, s') → Q a s' → runs (method f) s Q.
Proof. intros E HQ. exists a, s'. unfold method. by rewrite E. Qed.
Lemma runs_update {S} (f : S → outcome S) s s' (Q : unit → S → Prop) : f s = Val s' → Q tt s' → runs (update f) s Q.
Proof. intros E HQ. exists tt, s'. unfold update. by rewrite E. Qed.

(** ** Openings *)
Section Openings.
  Context `{EX : External}.

(** The directions of a Merkle path are the bits of the index. *)
Definition directions (D : nat) (k : Z) : list bool := (λ i : nat, Z.testbit k (Z.of_nat i)) <$> seq 0 D.

(** The leaf of token [t] in the token tree of an account. *)
Definition token_leaf (a : Account) (t : Z) : Token := default default_value (token_items (tokens a) !! t).

(** A branch opens leaf [k], and token [t] of it, against a root. *)
Definition branch_opens (root : Fr) (k t : Z) (token : Token) (b : OperationBranch) : Prop :=
  ∃ n h ad path tpath,
    b = mkBranch (Some (fr_of_uint k))
          (mkBranchWitness (mkAccountWitness (Some n) (Some h) (Some ad)) (Some <$> path) (Some <$> tpath)) ∧
    length path = account_tree_depth ∧ length tpath = token_tree_depth ∧
    let token_root := fold_path 0 (item_hash token) (zip tpath (directions token_tree_depth t)) in
    let state_root := hash_elements [token_root; fr_of_uint 0] in
    let leaf := get_bits_le_fixed (fr_repr n) NONCE_BIT_WIDTH ++ get_bits_le_fixed (fr_repr h) NEW_PUBKEY_HASH_WIDTH
                ++ get_bits_le_fixed (fr_repr ad) ADDRESS_WIDTH
                ++ vec_resize FR_BIT_WIDTH_PADDED false (get_bits_le_fixed (fr_repr state_root) FR_BIT_WIDTH) in
    fold_path 0 (hash_bits leaf) (zip path (directions account_tree_depth k)) = root.

Definition witness_of (a : Account) : AccountWitness :=
  mkAccountWitness (Some (fr_of_uint (nonce a))) (Some (PubKeyHash_to_fr (pub_key_hash a)))
    (Some (eth_address_to_fr (address a))).
Definition audit_path {T} `{GetBits T, Default T} (D : nat) (I : gmap Z T) (k : Z) : list (option Fr) :=
  (λ e, Some e.1) <$> reference_path D I D k.
Definition account_audit (m : AccountMap) (k : Z) : list (option Fr) := audit_path account_tree_depth m k.
Definition token_audit (a : Account) (t : Z) : list (option Fr) := audit_path token_tree_depth (token_items (tokens a)) t.
Definition branch_of (m : AccountMap) (k t : Z) : OperationBranch :=
  mkBranch (Some (fr_of_uint k))
    (mkBranchWitness (witness_of (account_at m k)) (account_audit m k) (token_audit (account_at m k) t)).
Definition ledger_root (m : AccountMap) : Fr := reference_root account_tree_depth m.

Lemma anc_odd D d k : (0 < d ≤ D)%nat → 0 ≤ k → Z.odd (anc D d k) = Z.testbit k (Z.of_nat (D - d)).
Proof.
  intros Hd Hk. unfold anc. rewrite <- Z.bit0_odd, Z.div_pow2_bits by lia. rewrite Z.add_0_l.
  replace (Z.of_nat D - Z.of_nat d) with (Z.of_nat (D - d)) by lia.
  rewrite <- (Z.mod_pow2_bits_low _ (Z.of_nat D)) by lia.
  rewrite Z.add_mod, Z.mod_same, Z.add_0_l, Z.mod_mod by (apply Z.pow_nonzero; lia).
  apply Z.mod_pow2_bits_low. lia.
Qed.

Lemma reference_path_directions {T} `{GetBits T, Default T} D (I : gmap Z T) d k :
  (d ≤ D)%nat → 0 ≤ k →
  (reference_path (Hash := Fr) D I d k).*2 = (λ i : nat, Z.testbit k (Z.of_nat i)) <$> seq (D - d) d.
Proof.
  intros Hd Hk. induction d as [|d IH]; [done|]. cbn [reference_path fmap list_fmap seq snd].
  rewrite anc_odd by lia. f_equal. rewrite IH by lia. by replace (D - d)%nat with (S (D - S d)) by lia.
Qed.

Lemma reference_path_zip {T} `{GetBits T, Default T} D (I : gmap Z T) k :
  0 ≤ k → zip (reference_path (Hash := Fr) D I D k).*1 (directions D k) = reference_path D I D k.
Proof.
  intros Hk. unfold directions. pose proof (reference_path_directions D I D k ltac:(lia) Hk) as E.
  rewrite Nat.sub_diag in E. rewrite <- E. apply zip_fst_snd.
Qed.

Lemma fold_leaf_path {T} `{GetBits T, Default T} D (I : gmap Z T) k :
  leaf_ok D k →
  fold_path (Hash := Fr) 0 (item_hash (default default_value (I !! k))) (reference_path D I D k) = reference_root D I.
Proof.
  intros Hk. rewrite <- (fold_reference_path D I D k) by done. rewrite Nat.sub_diag. cbn [subtree_hash].
  rewrite anc_leaf. by replace (2 ^ Z.of_nat D + k - 2 ^ Z.of_nat D) with k by lia.
Qed.

Lemma account_at_ok m k : leaves_ok m → tokens_ok (account_at m k).
Proof.
  intros Hm. unfold account_at. destruct (m !! k) as [a|] eqn:E; [by eapply Hm|]. intros u Hu. cbn in Hu. set_solver.
Qed.

(** The specified branches are valid openings. *)
Lemma branch_of_opens m k t :
  leaves_ok m → leaf_ok account_tree_depth k → token_ok t →
  branch_opens (ledger_root m) k t (token_leaf (account_at m k) t) (branch_of m k t).
Proof.
  intros Hm Hk Ht. set (a := account_at m k).
  exists (fr_of_uint (nonce a)), (PubKeyHash_to_fr (pub_key_hash a)), (eth_address_to_fr (address a)),
    (reference_path account_tree_depth m account_tree_depth k).*1,
    (reference_path token_tree_depth (token_items (tokens a)) token_tree_depth t).*1.
  split.
  { unfold branch_of, account_audit, token_audit, audit_path, witness_of. fold a. by rewrite <- !list_fmap_compose. }
  rewrite !length_fmap, !reference_path_length. split; [done|]. split; [done|]. cbv zeta.
  rewrite !reference_path_zip by (apply Ht || apply Hk). unfold token_leaf. rewrite fold_leaf_path by done.
  fold (leaf_bits a). unfold ledger_root. rewrite <- (fold_leaf_path account_tree_depth m k Hk).
  change (default default_value (m !! k)) with a. assert (item_hash a = hash_bits (leaf_bits a)) as ->; [|done].
  unfold item_hash, bits_of. by rewrite account_bits_ok by (by apply account_at_ok).
Qed.
End Openings.

(** ** The tree operations *)
Section TreeRuns.
  Context `{EX : External} `{EXL : !ExternalLaws}.
  Implicit Types (m : AccountMap) (t : CircuitAccountTree).

Lemma mirrors_items t t' m : mirrors t m → smt_ok account_tree_depth t' → items t' = items t → mirrors t' m.
Proof. intros [H1 H2 H3] Hok Hi. split; [done|..]; unfold leaf_at in *; by rewrite Hi. Qed.

Lemma mirrors_insert t t' m k ca a :
  mirrors t m → smt_ok account_tree_depth t' → items t' = <[k := ca]> (items t) → account_like ca a →
  mirrors t' (<[k := a]> m).
Proof.
  intros [H1 H2 H3] Hok Hi Hl. split; [done|..].
  - intros j. unfold leaf_at, account_at. rewrite Hi. destruct (decide (j = k)) as [->|].
    + by rewrite !lookup_insert_eq.
    + rewrite !lookup_insert_ne by done. apply H2.
  - intros j Hj. rewrite Hi, lookup_insert_is_Some'. rewrite lookup_insert_is_Some' in Hj. naive_solver.
Qed.

Lemma mirrors_leaf_ok t m k : mirrors t m → is_Some (m !! k) → leaf_ok account_tree_depth k.
Proof. intros Hm Hk. by apply (so_items _ _ (mi_tree _ _ Hm)), (mi_present _ _ Hm). Qed.

Lemma root_hash_runs t m :
  mirrors t m → leaves_ok m →
  runs root_hash t (λ h t', h = ledger_root m ∧ mirrors t' m ∧ items t' = items t).
Proof.
  intros Hm Hok. destruct (smt_root_hash_spec account_tree_depth t (mi_tree _ _ Hm)) as (t' & E & Hok' & Hi & _).
  { intros. by eapply mirrors_bits. }
  eapply runs_method; [exact E|]. split; [by apply mirrors_root|]. split; [by eapply mirrors_items|done].
Qed.

Lemma audit_path_mirror t m k :
  mirrors t m → leaves_ok m → audit_path account_tree_depth (items t) k = account_audit m k.
Proof.
  intros Hm Hok. unfold account_audit, audit_path. generalize account_tree_depth at 2 4 as d. intros d.
  induction d as [|d IH]; [done|]. cbn [reference_path fmap list_fmap fst].
  by rewrite (subtree_hash_mirror t m) by done; f_equal.
Qed.

Lemma audit_path_tokens ca a tok :
  account_like ca a → audit_path token_tree_depth (items (ca_subtree ca)) tok = token_audit a tok.
Proof.
  intros Hl. unfold token_audit, audit_path. generalize token_tree_depth at 2 4 as d. intros d.
  induction d as [|d IH]; [done|]. cbn [reference_path fmap list_fmap fst].
  rewrite (subtree_hash_items_ext _ _ (token_items (tokens a))) by apply Hl. by f_equal.
Qed.

Lemma get_audits_runs t m k tok :
  mirrors t m → leaves_ok m → leaf_ok account_tree_depth k → token_ok tok →
  runs (get_audits k tok) t (λ p t', p = (account_audit m k, token_audit (account_at m k) tok) ∧ mirrors t' m ∧ items t' = items t).
Proof.
  intros Hm Hok Hk Htok. unfold get_audits. apply runs_bind. eapply runs_total; [apply default_circuit_account_Val|].
  destruct (smt_merkle_path_spec account_tree_depth t k (mi_tree _ _ Hm) Hk) as (path & t' & E & _ & _ & -> & Hok' & Hi).
  { intros. by eapply mirrors_bits. }
  apply runs_bind. eapply runs_method; [exact E|]. assert (mirrors t' m) as Hm' by (by eapply mirrors_items).
  apply runs_bind, runs_gets. unfold smt_get.
  change (default default_circuit_account (items t' !! k)) with (leaf_at t' k).
  pose proof (mi_like _ _ Hm' k) as Hl.
  destruct (smt_merkle_path_spec token_tree_depth (ca_subtree (leaf_at t' k)) tok (al_subtree _ _ Hl) Htok)
    as (tpath & st' & E' & _ & _ & -> & _); [by eexists|].
  apply runs_bind. eapply runs_total; [exact E'|]. apply runs_ret. split; [|done]. cbn [fst]. rewrite <- Hi.
  fold (audit_path account_tree_depth (items t') k). fold (audit_path token_tree_depth (items (ca_subtree (leaf_at t' k))) tok).
  by rewrite (audit_path_mirror t' m), (audit_path_tokens _ (account_at m k)).
Qed.

Lemma check_capacity_runs t m (Q : unit → CircuitAccountTree → Prop) : mirrors t m → Q tt t → runs check_capacity t Q.
Proof.
  intros Hm HQ. unfold check_capacity. apply runs_bind, runs_gets. eapply runs_total; [|exact HQ].
  unfold capacity. by rewrite (so_depth _ _ (mi_tree _ _ Hm)), Z.eqb_refl.
Qed.

(** *** Tokens of a leaf *)

Definition opt_add (o : option Z) (a : Account) : Account := match o with Some t => add_token t a | None => a end.
Definition opt_remove (o : option Z) (a : Account) : Account := match o with Some t => remove_token t a | None => a end.
Definition opt_token_ok (o : option Z) : Prop := match o with Some t => token_ok t | None => True end.

Lemma add_token_leaf_like o ca a :
  opt_token_ok o → account_like ca a → ∃ ca', add_token_leaf o ca = Val ca' ∧ account_like ca' (opt_add o a).
Proof.
  intros Ho Hl. destruct o as [tok|]; [|by exists ca]. unfold add_token_leaf. cbn in Ho.
  destruct (smt_insert_ok token_tree_depth (ca_subtree ca) tok (mkToken (fr_of_uint tok)) (al_subtree _ _ Hl) Ho)
    as (st & -> & Hst & Hi). eexists. split; [done|]. split; try apply Hl; [done|].
  cbn [ca_subtree tokens opt_add add_token set_tokens]. intros k. rewrite Hi. pose proof (al_tokens _ _ Hl k) as Hk.
  rewrite token_items_lookup in *. destruct (decide (k = tok)) as [->|].
  - rewrite lookup_insert_eq, decide_True by set_solver. done.
  - rewrite lookup_insert_ne, Hk by done. destruct (decide (k ∈ tokens a)).
    + by rewrite decide_True by set_solver.
    + by rewrite decide_False by set_solver.
Qed.

Lemma remove_token_leaf_like o ca a :
  opt_token_ok o → account_like ca a → ∃ ca', remove_token_leaf o ca = Val ca' ∧ account_like ca' (opt_remove o a).
Proof.
  intros Ho Hl. destruct o as [tok|]; [|by exists ca]. unfold remove_token_leaf. cbn in Ho.
  destruct (smt_remove_ok token_tree_depth (ca_subtree ca) tok (al_subtree _ _ Hl) Ho) as (st & -> & Hst & Hi).
  eexists. split; [done|]. split; try apply Hl; [done|].
  cbn [ca_subtree tokens opt_remove remove_token set_tokens snd]. intros k. rewrite Hi. pose proof (al_tokens _ _ Hl k) as Hk.
  rewrite token_items_lookup in *. destruct (decide (k = tok)) as [->|].
  - rewrite lookup_insert_eq, decide_False by set_solver. done.
  - rewrite lookup_insert_ne, Hk by done. destruct (decide (k ∈ tokens a)).
    + by rewrite decide_True by set_solver.
    + by rewrite decide_False by set_solver.
Qed.

(** The change that [fa] makes, on leaves. *)
Definition leaf_change (fa : CircuitAccount → outcome CircuitAccount) (a a' : Account) : Prop :=
  ∀ ca, account_like ca a → ∃ ca', fa ca = Val ca' ∧ account_like ca' a'.

Lemma witness_of_like ca a : account_like ca a → AccountWitness_from_circuit_account ca = witness_of a.
Proof. intros [_ _ Hn Hp Ha]. unfold AccountWitness_from_circuit_account, witness_of. by rewrite Hn, Hp, Ha. Qed.

Lemma apply_leaf_operation_runs t m k add remove fa a' :
  mirrors t m → leaf_ok account_tree_depth k → opt_token_ok add → opt_token_ok remove →
  leaf_change fa (opt_remove remove (opt_add add (account_at m k))) a' →
  runs (apply_leaf_operation k add remove fa) t
    (λ ws t', ws = (witness_of (account_at m k), witness_of a') ∧ mirrors t' (<[k := a']> m)).
Proof.
  intros Hm Hk Hadd Hrem Hfa. unfold apply_leaf_operation. apply runs_bind. eapply runs_total; [apply default_circuit_account_Val|].
  destruct (smt_remove_ok account_tree_depth t k (mi_tree _ _ Hm) Hk) as (t1 & E1 & Hok1 & Hi1).
  apply runs_bind. eapply runs_method; [exact E1|].
  change (default default_circuit_account (items t !! k)) with (leaf_at t k). pose proof (mi_like _ _ Hm k) as Hl.
  destruct (add_token_leaf_like add _ _ Hadd Hl) as (c1 & E2 & Hl1). apply runs_bind. eapply runs_total; [exact E2|].
  destruct (remove_token_leaf_like remove _ _ Hrem Hl1) as (c2 & E3 & Hl2). apply runs_bind. eapply runs_total; [exact E3|].
  destruct (Hfa c2 Hl2) as (c3 & E4 & Hl3). apply runs_bind. eapply runs_total; [exact E4|].
  destruct (smt_insert_ok account_tree_depth t1 k c3 Hok1 Hk) as (t2 & E5 & Hok2 & Hi2).
  apply runs_bind. eapply runs_update; [exact E5|]. apply runs_ret. split.
  - by rewrite (witness_of_like _ _ Hl), (witness_of_like _ _ Hl3).
  - eapply mirrors_insert; [exact Hm|done| |exact Hl3]. rewrite Hi2, Hi1. apply insert_insert_eq.
Qed.

Lemma apply_fee_runs t m k token fee :
  mirrors t m → leaves_ok m → is_Some (m !! k) →
  runs (apply_fee k token fee) t (λ p t', p = (ledger_root m, witness_of (account_at m k)) ∧ mirrors t' m).
Proof.
  intros Hm Hok Hk. pose proof (mirrors_leaf_ok _ _ _ Hm Hk) as Hleaf. unfold apply_fee.
  destruct (smt_remove_ok account_tree_depth t k (mi_tree _ _ Hm) Hleaf) as (t1 & E1 & Hok1 & Hi1).
  apply runs_bind. eapply runs_method; [exact E1|]. destruct (mi_present _ _ Hm k Hk) as [ca Hca]. rewrite Hca.
  apply runs_bind. eapply runs_total; [done|]. pose proof (mi_like _ _ Hm k) as Hl. unfold leaf_at in Hl. rewrite Hca in Hl. cbn in Hl.
  destruct (smt_insert_ok account_tree_depth t1 k ca Hok1 Hleaf) as (t2 & E2 & Hok2 & Hi2).
  apply runs_bind. eapply runs_update; [exact E2|]. assert (mirrors t2 m) as Hm2.
  { eapply mirrors_items; [exact Hm|done|]. rewrite Hi2, Hi1, insert_insert_eq. by apply insert_id. }
  apply runs_bind. eapply runs_mono; [by apply (root_hash_runs t2 m)|]. intros h t3 (-> & Hm3 & _).
  apply runs_ret. split; [|done]. by rewrite (witness_of_like _ _ Hl).
Qed.
End TreeRuns.
