(* ===== verification/WitnessLedger.v ===== *)
(** * The witnesses of the operations follow the ledger

    For every step of the ledger but the full exit, the generator of the operation
    runs without panic from a tree that mirrors the accounts before the step to a
    tree that mirrors the accounts after it ([witness_follows]).  Its operations
    cut the public data into chunks, and the branch that the circuit selects for a
    chunk opens the root that the chunk before has left ([ops_ok]). *)

From S2P Require Import Prelude Bytes Params Externals Primitives Amounts Account Tx Operations Merkle ParallelSmt.
From S2P Require Import ParallelSmtProofs Storage AccountLeaf PlasmaState PlasmaProofs StateKeeperProofs ExecLogic CircuitTree.
From S2P Require Import Witness WitnessOps WitnessProofs.
Open Scope Z_scope.

(** ** Applying the data of an operation *)
Section Data.
  Context `{EX : External} `{EXL : !ExternalLaws}.
  Implicit Types (m : AccountMap) (t : CircuitAccountTree).

Lemma account_at_insert m k a : account_at (<[k := a]> m) k = a.
Proof. unfold account_at. by rewrite lookup_insert_eq. Qed.
Lemma account_at_insert_ne m k j a : j ≠ k → account_at (<[k := a]> m) j = account_at m j.
Proof. intros. unfold account_at. by rewrite lookup_insert_ne. Qed.

(** The witness of an operation that replaces account [k] by [a']. *)
Definition leaf_witness m k tok a' args ty : LeafWitness :=
  let m' := <[k := a']> m in
  mkLeafWitness (branch_of m k tok) (branch_of m' k tok) args (Some (ledger_root m)) (Some (ledger_root m'))
    (Some (fr_of_uint ty)).

Lemma apply_leaf_data_runs t m k tok add remove fa a' args ty :
  mirrors t m → leaves_ok m → leaf_ok account_tree_depth k → token_ok tok → opt_token_ok add → opt_token_ok remove →
  leaf_change fa (opt_remove remove (opt_add add (account_at m k))) a' → tokens_ok a' →
  runs (apply_leaf_data k tok add remove fa args ty) t
    (λ w t', w = leaf_witness m k tok a' args ty ∧ mirrors t' (<[k := a']> m)).
Proof.
  intros Hm Hok Hk Htok Hadd Hrem Hfa Ha'. assert (leaves_ok (<[k := a']> m)) as Hok' by (by apply leaves_ok_insert).
  unfold apply_leaf_data. apply runs_bind. eapply runs_mono; [by apply root_hash_runs|]. intros h t1 (-> & Hm1 & _).
  apply runs_bind. eapply runs_mono; [by apply (get_audits_runs t1 m)|]. intros p t2 (-> & Hm2 & _).
  apply runs_bind. eapply check_capacity_runs; [exact Hm2|]. apply runs_bind.
  eapply runs_mono; [by apply (apply_leaf_operation_runs t2 m)|]. intros ws t3 [-> Hm3].
  apply runs_bind. eapply runs_mono; [by apply (root_hash_runs t3)|]. intros h t4 (-> & Hm4 & _).
  apply runs_bind. eapply runs_mono; [by apply (get_audits_runs t4)|]. intros p t5 (-> & Hm5 & _).
  apply runs_ret. split; [|done]. unfold leaf_witness, branch, branch_of. cbn [fst snd]. by rewrite account_at_insert.
Qed.

(** The witness of a transfer; [m1] are the accounts after the first half.  For a
    transfer to oneself the first branch of the recipient has the data of [m1]. *)
Definition pair_witness m k j tok a1 a2 args ty : PairWitness :=
  let m1 := <[k := a1]> m in
  let m2 := <[j := a2]> m1 in
  mkPairWitness (branch_of m k tok) (branch_of m1 k tok)
    (mkBranch (Some (fr_of_uint k)) (mkBranchWitness (witness_of a1) (account_audit m2 k) (token_audit (account_at m2 k) tok)))
    (mkBranch (Some (fr_of_uint j))
       (mkBranchWitness (witness_of (account_at m1 j)) (account_audit m j) (token_audit (account_at m j) tok)))
    (branch_of m1 j tok) (branch_of m2 j tok)
    args (Some (ledger_root m)) (Some (ledger_root m1)) (Some (ledger_root m2)) (Some (fr_of_uint ty)).

Lemma apply_pair_data_runs t m k j tok fa a1 a2 args ty :
  mirrors t m → leaves_ok m → leaf_ok account_tree_depth k → leaf_ok account_tree_depth j → token_ok tok →
  leaf_change (λ acc, Val (add_nonce acc)) (remove_token tok (account_at m k)) a1 → tokens_ok a1 →
  leaf_change fa (add_token tok (account_at (<[k := a1]> m) j)) a2 → tokens_ok a2 →
  runs (apply_pair_data k j tok fa args ty) t
    (λ w t', w = pair_witness m k j tok a1 a2 args ty ∧ mirrors t' (<[j := a2]> (<[k := a1]> m))).
Proof.
  intros Hm Hok Hk Hj Htok Hc1 Ha1 Hc2 Ha2.
  assert (leaves_ok (<[k := a1]> m)) as Hok1 by (by apply leaves_ok_insert).
  assert (leaves_ok (<[j := a2]> (<[k := a1]> m))) as Hok2 by (by apply leaves_ok_insert).
  unfold apply_pair_data. apply runs_bind. eapply runs_mono; [by apply root_hash_runs|]. intros h t1 (-> & Hm1 & _).
  apply runs_bind. eapply runs_mono; [by apply (get_audits_runs t1 m)|]. intros p t2 (-> & Hm2 & _).
  apply runs_bind. eapply runs_mono; [by apply (get_audits_runs t2 m)|]. intros p t3 (-> & Hm3 & _).
  apply runs_bind. eapply check_capacity_runs; [exact Hm3|]. apply runs_bind.
  eapply runs_mono; [by apply (apply_leaf_operation_runs t3 m k None (Some tok))|]. intros ws t4 [-> Hm4].
  apply runs_bind. eapply runs_mono; [by apply (root_hash_runs t4)|]. intros h t5 (-> & Hm5 & _).
  apply runs_bind. eapply runs_mono; [by apply (get_audits_runs t5)|]. intros p t6 (-> & Hm6 & _).
  apply runs_bind. eapply runs_mono; [by apply (get_audits_runs t6)|]. intros p t7 (-> & Hm7 & _). apply runs_bind.
  eapply runs_mono; [by apply (apply_leaf_operation_runs t7 (<[k := a1]> m) j (Some tok) None)|]. intros ws t8 [-> Hm8].
  apply runs_bind. eapply runs_mono; [by apply (root_hash_runs t8)|]. intros h t9 (-> & Hm9 & _).
  apply runs_bind. eapply runs_mono; [by apply (get_audits_runs t9)|]. intros p t10 (-> & Hm10 & _).
  apply runs_bind. eapply runs_mono; [by apply (get_audits_runs t10)|]. intros p t11 (-> & Hm11 & _).
  apply runs_ret. split; [|done]. unfold pair_witness, branch, branch_of. cbn [fst snd]. by rewrite !account_at_insert.
Qed.

(** *** The changes of the leaves *)

Lemma add_nonce_change a :
  0 ≤ nonce a → nonce a + 1 < 2 ^ 32 → leaf_change (λ acc, Val (add_nonce acc)) a (increment_nonce a).
Proof.
  intros H0 H1 ca Hl. eexists. split; [done|]. split; try apply Hl. cbn [ca_nonce add_nonce nonce increment_nonce set_nonce].
  rewrite (al_nonce _ _ Hl), fr_add_of_uint by lia. f_equal. unfold wrap. by rewrite Z.mod_small by lia.
Qed.

Lemma set_address_change (P : CircuitAccount → bool) msg a ad :
  (∀ ca, account_like ca a → P ca = true) →
  leaf_change (λ acc, _ ← assert_that (P acc) msg;
                 Val (mkCircuitAccount (ca_subtree acc) (ca_nonce acc) (ca_pub_key_hash acc) (eth_address_to_fr ad)))
    a (set_address ad a).
Proof. intros HP ca Hl. rewrite (HP ca Hl). eexists. split; [done|]. split; apply Hl || done. Qed.

Lemma fr_eqb_refl x : fr_eqb x x = true.
Proof. by apply fr_eqb_eq. Qed.

Lemma leaf_change_comp fa fb a b c :
  leaf_change (λ x, Val (fa x)) a b → leaf_change (λ x, Val (fb x)) b c → leaf_change (λ x, Val (fb (fa x))) a c.
Proof.
  intros H1 H2 ca Hl. destruct (H1 ca Hl) as (ca' & E & Hl'). injection E as <-. by apply H2.
Qed.
End Data.

(** ** The operations of a witness *)
Section Ops.
  Context `{EX : External} `{EXL : !ExternalLaws}.
  Implicit Types (m : AccountMap).

(** The branch that the circuit opens: the first one on a first chunk and on every chunk of a
    deposit, the second one otherwise. *)
Definition selected_branch (op : CircuitOperation) : option OperationBranch :=
  tx_type ← tx_type op;
  chunk_number ← chunk op;
  let cur_side := if fr_eqb tx_type (fr_of_uint 1) then fr_of_uint 0 else chunk_number in
  Some (if fr_eqb (fr_of_uint 0) cur_side then lhs op else rhs op).

(** The branch that the circuit selects opens the given root. *)
Definition selected_opens (root : Fr) (op : CircuitOperation) : Prop :=
  ∃ b k tok token, selected_branch op = Some b ∧ branch_opens root k tok token b.

(** Every operation opens the root that the one before has left. *)
Fixpoint rolls (root : Fr) (ops : list CircuitOperation) (final : Fr) : Prop :=
  match ops with
  | [] => root = final
  | op :: ops => selected_opens root op ∧ ∃ r, new_root op = Some r ∧ rolls r ops final
  end.

(** The chunk of the public data that an operation carries. *)
Definition chunk_value (bits : list bool) (i : nat) : Fr := fr_of_uint (le_bits_val (take 64 (drop (64 * i) bits))).

Record ops_ok (root root' : Fr) (code : Z) (bits : list bool) (ops : list CircuitOperation) : Prop := {
  oo_length : length bits = (64 * length ops)%nat;
  oo_chunk i op : ops !! i = Some op →
    tx_type op = Some (fr_of_uint code) ∧ chunk op = Some (fr_of_uint (Z.of_nat i)) ∧
    pubdata_chunk op = Some (chunk_value bits i);
  oo_rolls : rolls root ops root';
}.

Lemma rolls_app r1 ops1 r2 ops2 r3 : rolls r1 ops1 r2 → rolls r2 ops2 r3 → rolls r1 (ops1 ++ ops2) r3.
Proof.
  revert r1. induction ops1 as [|op ops IH]; intros r1 H1 H2; [by cbn in H1; subst|].
  destruct H1 as (Ho & r & Hr & H1). split; [done|]. exists r. split; [done|]. by apply IH.
Qed.

Lemma rolls_const root ops :
  Forall (λ op, selected_opens root op ∧ new_root op = Some root) ops → rolls root ops root.
Proof. induction 1 as [|op ops [Ho Hr] _ IH]; [done|]. split; [done|]. by exists root. Qed.

Lemma chunks_lookup {A} n k (l : list A) i :
  (0 < n)%nat → length l = (k * n)%nat → (i < k)%nat → chunks n l !! i = Some (take n (drop (n * i) l)).
Proof.
  intros Hn. revert k l. induction i as [|i IH]; intros k l Hl Hi; (destruct k as [|k]; [lia|]);
    rewrite <- (take_drop n l), chunks_app by (try rewrite length_take; lia); cbn [lookup list_lookup].
  - rewrite Nat.mul_0_r, drop_0, take_drop. done.
  - rewrite (IH k) by (try rewrite length_drop; lia). rewrite drop_drop, take_drop.
    by replace (n + n * i)%nat with (n * S i)%nat by lia.
Qed.

Definition chunk_op (bits : list bool) (input : SigDataInput) args (type root : option Fr) (i : nat) l r : CircuitOperation :=
  mkCircuitOperation root type (Some (fr_of_uint (Z.of_nat i))) (Some (chunk_value bits i)) (sd_signer_pub_key_packed input)
    (Some (sd_first_sig_msg input)) (Some (sd_second_sig_msg input)) (Some (sd_third_sig_msg input))
    (sd_signature input) args l r.

Lemma pubdata_chunks_lookup bits n i :
  length bits = (64 * n)%nat → (i < n)%nat → pubdata_chunks bits !! i = Some (chunk_value bits i).
Proof.
  intros Hl Hi. unfold pubdata_chunks. rewrite list_lookup_fmap, (chunks_lookup 64 n) by lia. cbn [fmap option_fmap option_map].
  rewrite le_bit_vector_spec by (rewrite length_take; lia). done.
Qed.

Lemma pubdata_chunks_length bits n : length bits = (64 * n)%nat → length (pubdata_chunks bits) = n.
Proof. intros Hl. unfold pubdata_chunks. rewrite length_fmap. apply chunks_length; lia. Qed.

Lemma chunk_operation_Val bits n input args type root i l r :
  length bits = (64 * n)%nat → (i < n)%nat →
  chunk_operation (pubdata_chunks bits) input args type root i l r = Val (chunk_op bits input args type root i l r).
Proof. intros Hl Hi. unfold chunk_operation. by rewrite (pubdata_chunks_lookup bits n). Qed.

Lemma fr_of_uint_inj a b : fits 253 a → fits 253 b → fr_of_uint a = fr_of_uint b → a = b.
Proof.
  intros Ha Hb E. assert (le_bits 256 a = le_bits 256 b) as El by (rewrite <- !fr_uint_bits by done; by rewrite E).
  apply (f_equal le_bits_val) in El. unfold fits in *. assert (2 ^ 253 < 2 ^ 256) by (apply Z.pow_lt_mono_r; lia).
  rewrite !le_bits_le_val in El by lia. done.
Qed.

Lemma fr_eqb_uint a b : fits 253 a → fits 253 b → fr_eqb (fr_of_uint a) (fr_of_uint b) = (a =? b).
Proof.
  intros Ha Hb. destruct (Z.eqb_spec a b) as [->|Hne]; [by apply fr_eqb_eq|].
  destruct (fr_eqb _ _) eqn:E; [|done]. apply fr_eqb_eq in E. by apply fr_of_uint_inj in E.
Qed.

Lemma select_first bits input args ty root l r :
  selected_branch (chunk_op bits input args (Some ty) root 0 l r) = Some l.
Proof.
  unfold selected_branch. cbn [tx_type chunk_op chunk mbind option_bind].
  destruct (fr_eqb ty (fr_of_uint 1)); by rewrite fr_eqb_refl.
Qed.
Lemma select_rest bits input args ty root i l r :
  fits 253 ty → ty ≠ 1 → (0 < i)%nat → Z.of_nat i < 2 ^ 32 →
  selected_branch (chunk_op bits input args (Some (fr_of_uint ty)) root i l r) = Some r.
Proof.
  intros Hf Hty Hi Hi'. unfold selected_branch. cbn [tx_type chunk_op chunk mbind option_bind].
  assert (fits 253 (Z.of_nat i)). { split; [lia|]. by apply Z.lt_trans with (2 ^ 32). }
  rewrite (fr_eqb_uint ty 1), (proj2 (Z.eqb_neq ty 1)) by done. rewrite fr_eqb_uint by done.
  by rewrite (proj2 (Z.eqb_neq 0 (Z.of_nat i))) by lia.
Qed.

Lemma select_deposit bits input args root i l r :
  selected_branch (chunk_op bits input args (Some (fr_of_uint 1)) root i l r) = Some l.
Proof. unfold selected_branch. cbn [tx_type chunk_op chunk mbind option_bind]. by rewrite !fr_eqb_refl. Qed.

Lemma map_outcome_Val {A B} (f : A → outcome B) (g : A → B) l :
  Forall (λ x, f x = Val (g x)) l → map_outcome f l = Val (g <$> l).
Proof. induction 1 as [|x l Hx _ IH]; [done|]. cbn [map_outcome]. by rewrite Hx, IH. Qed.

(** The list of operations of a witness on one leaf. *)
Lemma leaf_operations_ok m k tok a' args ty bits input n :
  leaves_ok m → tokens_ok a' → leaf_ok account_tree_depth k → token_ok tok → fits 253 ty →
  length bits = (64 * S n)%nat → Z.of_nat n < 2 ^ 31 →
  let w := leaf_witness m k tok a' args ty in
  ∃ ops, leaf_operations bits input w n (lw_before w, lw_before w) (lw_after w, lw_after w) = Val ops ∧
    ops_ok (ledger_root m) (ledger_root (<[k := a']> m)) ty bits ops.
Proof.
  intros Hok Ha' Hk Htok Hty Hl Hn w. assert (leaves_ok (<[k := a']> m)) as Hok' by (by apply leaves_ok_insert).
  set (op := λ i b, chunk_op bits input args (Some (fr_of_uint ty)) (Some (ledger_root (<[k := a']> m))) i b b).
  exists (op 0%nat (lw_before w) :: ((λ i, op i (lw_after w)) <$> seq 1 n)). split.
  { unfold leaf_operations. rewrite (chunk_operation_Val bits (S n)) by lia. cbn [mbind outcome_bind].
    erewrite map_outcome_Val; [done|]. apply Forall_forall. intros i Hi%elem_of_seq.
    by rewrite (chunk_operation_Val bits (S n)) by lia. }
  split.
  - cbn [length]. rewrite length_fmap, length_seq. done.
  - intros [|i] o Hi; [by injection Hi as <-|].
    change (((λ i, op i (lw_after w)) <$> seq 1 n) !! i = Some o) in Hi. rewrite list_lookup_fmap in Hi.
    apply fmap_Some in Hi as (j & [-> Hj]%lookup_seq & ->). done.
  - split.
    { eexists _, _, _, _. split; [apply select_first|]. by apply branch_of_opens. }
    eexists. split; [done|]. apply rolls_const, Forall_fmap, Forall_forall. intros i Hi%elem_of_seq. split; [|done].
    eexists _, _, _, _. split; [|by apply branch_of_opens]. destruct (decide (ty = 1)) as [->|Hne]; [apply select_deposit|].
    apply select_rest; done || lia.
Qed.
End Ops.

(** ** The public data *)
Section Pubdata.
  Context `{EX : External} `{EXL : !ExternalLaws}.

(** The layout of the public data of the witnesses, field by field: [get_pubdata] computes it from the
    witness of the operation ([deposit_pubdata] and its like). *)
Definition deposit_layout (d : Deposit) (id : Z) : bytes :=
  vec_resize (DEPOSIT_CHUNKS * 8) 0
    ([DEPOSIT_OP_CODE] ++ to_be_bytes 3 id ++ to_be_bytes 2 (dp_token_id d) ++ dp_to d).
Definition withdraw_layout (tx : Withdraw) (id : Z) (fee : bytes) : bytes :=
  vec_resize (WITHDRAW_CHUNKS * 8) 0
    ([WITHDRAW_OP_CODE] ++ to_be_bytes 3 id ++ to_be_bytes 2 (wd_token_id tx) ++ fee ++ wd_to tx).
Definition close_layout (id : Z) : bytes := vec_resize (CLOSE_CHUNKS * 8) 0 ([CLOSE_OP_CODE] ++ to_be_bytes 3 id).
Definition change_pubkey_layout (tx : ChangePubKey) (id : Z) : bytes :=
  vec_resize (CHANGE_PUBKEY_CHUNKS * 8) 0
    ([CHANGE_PUBKEY_OP_CODE] ++ to_be_bytes 3 id ++ pkh_data (cpk_new_pk_hash tx) ++ cpk_account tx ++ to_be_bytes 4 (cpk_nonce tx)).
Definition transfer_layout (tx : Transfer) (from to : Z) (fee : bytes) : bytes :=
  vec_resize (TRANSFER_CHUNKS * 8) 0
    ([TRANSFER_OP_CODE] ++ to_be_bytes 3 from ++ to_be_bytes 3 to ++ to_be_bytes 2 (tr_token_id tx) ++ fee).
Definition transfer_to_new_layout (tx : Transfer) (from to : Z) (fee : bytes) : bytes :=
  vec_resize (TRANSFER_TO_NEW_CHUNKS * 8) 0
    ([TRANSFER_TO_NEW_OP_CODE] ++ to_be_bytes 3 from ++ to_be_bytes 2 (tr_token_id tx) ++ tr_to tx ++ to_be_bytes 3 to ++ fee).
Definition pubdata_layout (op : FranklinOp) : outcome bytes :=
  match op with
  | OpNoop => Val []
  | OpDeposit op => Val (deposit_layout (dpo_priority_op op) (dpo_account_id op))
  | OpTransferToNew op =>
      fee ← pack_fee_amount (tr_fee (ttn_tx op)); Val (transfer_to_new_layout (ttn_tx op) (ttn_from op) (ttn_to op) fee)
  | OpWithdraw op => fee ← pack_fee_amount (wd_fee (wdo_tx op)); Val (withdraw_layout (wdo_tx op) (wdo_account_id op) fee)
  | OpClose op => Val (close_layout (clo_account_id op))
  | OpTransfer op => fee ← pack_fee_amount (tr_fee (tro_tx op)); Val (transfer_layout (tro_tx op) (tro_from op) (tro_to op) fee)
  | OpFullExit _ => Panic "not yet implemented"
  | OpChangePubKeyOffchain op => Val (change_pubkey_layout (cpo_tx op) (cpo_account_id op))
  end.

Lemma be_bits_app a b : bytes_into_be_bits (a ++ b) = bytes_into_be_bits a ++ bytes_into_be_bits b.
Proof. unfold bytes_into_be_bits. by rewrite fmap_app, concat_app. Qed.

Lemma be_bits_zeros n : bytes_into_be_bits (replicate n 0) = replicate (8 * n) false.
Proof.
  induction n as [|n IH]; [done|]. replace (8 * S n)%nat with (8 + 8 * n)%nat by lia.
  rewrite replicate_add, <- IH. done.
Qed.

Lemma be_bits_resize n l :
  (length l ≤ n * 8)%nat → bytes_into_be_bits (vec_resize (n * 8) 0 l) = vec_resize (n * 64) false (bytes_into_be_bits l).
Proof.
  intros Hl. rewrite !vec_resize_app by (try rewrite bytes_into_be_bits_length; lia).
  rewrite be_bits_app, be_bits_zeros, bytes_into_be_bits_length. do 2 f_equal. lia.
Qed.

Lemma append_fields_uint k bits n w fs :
  w = (k * 8)%nat → (k ≤ 32)%nat → fits 253 n →
  append_fields bits ((Some (fr_of_uint n), w) :: fs) = append_fields (bits ++ bytes_into_be_bits (to_be_bytes k n)) fs.
Proof. intros -> Hk Hn. cbn [append_fields fe unwrap mbind outcome_bind]. by rewrite append_be_bytes by done. Qed.

Lemma array_fits n l : (n ≤ 31)%nat → is_array n l → fits 253 (from_be_bytes l).
Proof.
  intros Hn Hl. pose proof (from_be_bytes_bound n l Hl). split; [lia|].
  assert (256 ^ Z.of_nat n ≤ 256 ^ 31) by (apply Z.pow_le_mono_r; lia). apply Z.lt_trans with (256 ^ 31); [lia|done].
Qed.

Lemma append_fields_array k bits l w fs :
  w = (k * 8)%nat → (k ≤ 31)%nat → is_array k l →
  append_fields bits ((Some (fr_of_uint (from_be_bytes l)), w) :: fs) = append_fields (bits ++ bytes_into_be_bits l) fs.
Proof.
  intros -> Hk Hl. rewrite (append_fields_uint k) by (done || lia || by eapply array_fits).
  by rewrite (to_from_be_bytes k).
Qed.

(** The fee as the packed bytes and as the field element of the witness. *)
Lemma fee_packed fee :
  fee_packable fee → ∃ n bits data, bd_holds fee n ∧ fee_encoded n = Val (fr_of_uint (le_bits_val bits)) ∧
    length bits = 16%nat ∧ pack_fee_amount fee = Val data ∧ length data = 2%nat ∧ bytes_into_be_bits data = reverse bits.
Proof.
  intros (n & Hn & mm & e & Hmm & He & ->). pose proof (bd_parse_fits _ _ (proj2 Hn)) as Hfit.
  pose proof (convert_to_float_spec _ FEE_EXPONENT_BIT_WIDTH FEE_MANTISSA_BIT_WIDTH Hfit ltac:(unfold FEE_MANTISSA_BIT_WIDTH; lia)) as Hc.
  exists (mm * 10 ^ e). destruct (convert_to_float (mm * 10 ^ e) FEE_EXPONENT_BIT_WIDTH FEE_MANTISSA_BIT_WIDTH 10) as [bits|err] eqn:Ec.
  2: { exfalso. assert (10 ^ e ≤ 10 ^ (2 ^ Z.of_nat FEE_EXPONENT_BIT_WIDTH - 1)) by (apply Z.pow_le_mono_r; lia).
       assert (0 < 10 ^ e) by (apply Z.pow_pos_nonneg; lia). nia. }
  destruct Hc as (_ & e' & Hb & _). assert (length bits = 16%nat) as Hl by (by rewrite Hb, length_app, !le_bits_length).
  exists bits. unfold fee_encoded, pack_fee_amount, pack_as_float, pack_bits_into_bytes_in_order. rewrite Ec.
  eexists. split; [done|]. split; [by rewrite le_bit_vector_spec by lia|]. split; [done|].
  rewrite (big_decimal_to_u128_holds _ _ Hn). cbn [mbind outcome_bind]. rewrite Ec. cbn [mbind outcome_bind].
  rewrite length_reverse, Hl. split; [done|].
  split; [apply (proj2 (pack_in_order_bytes 2 (reverse bits) ltac:(by rewrite length_reverse)))|].
  by apply (unpack_pack_in_order 2); rewrite length_reverse.
Qed.

Lemma append_fields_fee bits fbits w fs :
  w = 16%nat → length fbits = 16%nat →
  append_fields bits ((Some (fr_of_uint (le_bits_val fbits)), w) :: fs) = append_fields (bits ++ reverse fbits) fs.
Proof.
  intros -> Hl. cbn [append_fields fe unwrap mbind outcome_bind].
  rewrite append_be_uint by (lia || apply (le_bits_val_fits fbits 253); lia). by rewrite <- Hl at 1; rewrite le_bits_val_le.
Qed.

(** The addresses of the signed message have their type's length. *)
Definition transfer_sized (tx : Transfer) : Prop := length (tr_from tx) = 20%nat ∧ length (tr_to tx) = 20%nat.

(** The decodable operations whose witness can be built. *)
Definition op_provable (op : FranklinOp) : Prop :=
  FranklinOp_wf op ∧
  match op with
  | OpTransfer op => transfer_sized (tro_tx op)
  | OpTransferToNew op => fee_packable (tr_fee (ttn_tx op)) ∧ transfer_sized (ttn_tx op)
  | OpWithdraw op => length (wd_from (wdo_tx op)) = 20%nat ∧ length (wd_to (wdo_tx op)) = 20%nat
  | OpFullExit _ => False
  | _ => True
  end.

Lemma drop_id_bytes id : drop 1 (to_be_bytes 4 id) = to_be_bytes 3 id.
Proof. apply (drop_to_be_bytes 1 3). Qed.

Lemma fits_mono w w' n : 0 ≤ w ≤ w' → fits w n → fits w' n.
Proof. unfold fits. intros ? [? ?]. split; [done|]. assert (2 ^ w ≤ 2 ^ w') by (apply Z.pow_le_mono_r; lia). lia. Qed.
Lemma fits_24_253 n : fits 24 n → fits 253 n.
Proof. by apply fits_mono. Qed.
Lemma fits_16_253 n : fits 16 n → fits 253 n.
Proof. by apply fits_mono. Qed.
Lemma fits_32_253 n : fits 32 n → fits 253 n.
Proof. by apply fits_mono. Qed.
End Pubdata.

Create HintDb witness.
#[export] Hint Resolve fits_24_253 fits_16_253 fits_32_253 : witness.

(** A walk through the fields of the public data. *)
Ltac field_side := first [done | lia | by eauto with witness].
Ltac append_step :=
  first [ erewrite (append_fields_array 20) by field_side
        | rewrite append_fields_fee by field_side
        | erewrite (append_fields_uint 1) by field_side
        | erewrite (append_fields_uint 2) by field_side
        | erewrite (append_fields_uint 3) by field_side
        | erewrite (append_fields_uint 4) by field_side ].

Section OpPubdata.
  Context `{EX : External} `{EXL : !ExternalLaws}.
  Implicit Types (m : AccountMap).

Lemma deposit_pubdata m k tok a' d args :
  FranklinOp_wf (OpDeposit (mkDepositOp d k)) → dp_token_id d = tok →
  arg_token_id args = Some (fr_of_uint tok) → arg_eth_address args = Some (eth_address_to_fr (dp_to d)) →
  Deposit.get_pubdata (leaf_witness m k tok a' args 1) = Val (bytes_into_be_bits (deposit_layout d k)).
Proof.
  intros (Hk & Ht & Ha) <- E1 E2. unfold Deposit.get_pubdata, leaf_witness, branch_of. cbn [lw_tx_type lw_before lw_args br_address].
  rewrite E1, E2. unfold eth_address_to_fr. repeat append_step. cbn [append_fields mbind outcome_bind].
  unfold deposit_layout. rewrite (be_bits_resize 6), !be_bits_app, <- !app_assoc; [done|].
  rewrite !length_app, !to_be_bytes_length, (is_array_length _ _ Ha); cbn; lia.
Qed.

Lemma withdraw_pubdata m k a' tx fee args data fbits :
  FranklinOp_wf (OpWithdraw (mkWithdrawOp tx k)) → pack_fee_amount (wd_fee tx) = Val data → length data = 2%nat →
  bytes_into_be_bits data = reverse fbits → length fbits = 16%nat → fee = fr_of_uint (le_bits_val fbits) →
  arg_token_id args = Some (fr_of_uint (wd_token_id tx)) → arg_fee args = Some fee →
  arg_eth_address args = Some (eth_address_to_fr (wd_to tx)) →
  ∃ pd, pubdata_layout (OpWithdraw (mkWithdrawOp tx k)) = Val pd ∧ length pd = (WITHDRAW_CHUNKS * 8)%nat ∧
    Withdrawal.get_pubdata (leaf_witness m k (wd_token_id tx) a' args 3) = Val (bytes_into_be_bits pd).
Proof.
  intros (Hk & Ht & Ha & _) Hpack Hlen Hbits Hl -> E1 E2 E3.
  cbn [pubdata_layout wdo_tx wdo_account_id]. rewrite Hpack. cbn [mbind outcome_bind].
  eexists. split; [done|]. split; [apply vec_resize_length|].
  unfold Withdrawal.get_pubdata, leaf_witness, branch_of. cbn [lw_tx_type lw_before lw_args br_address].
  rewrite E1, E2, E3. unfold eth_address_to_fr. repeat append_step. cbn [append_fields mbind outcome_bind].
  unfold withdraw_layout. rewrite (be_bits_resize 6), !be_bits_app, Hbits, <- !app_assoc; [done|].
  rewrite !length_app, !to_be_bytes_length, Hlen, (is_array_length _ _ Ha); cbn; lia.
Qed.

Lemma change_pubkey_pubdata m k a a' tx args :
  FranklinOp_wf (OpChangePubKeyOffchain (mkChangePubKeyOp tx k)) → m !! k = Some a → cpk_nonce tx = nonce a →
  arg_new_pub_key_hash args = Some (PubKeyHash_to_fr (cpk_new_pk_hash tx)) →
  arg_eth_address args = Some (eth_address_to_fr (cpk_account tx)) →
  ChangePubkeyOffChain.get_pubdata (leaf_witness m k 0 a' args 7) =
  Val (bytes_into_be_bits (change_pubkey_layout tx k)).
Proof.
  intros (Hk & Hh & Ha & Hn) Hm En E1 E2.
  unfold ChangePubkeyOffChain.get_pubdata, leaf_witness, branch_of, account_at. rewrite Hm.
  change (default Account_default (Some a)) with a.
  cbn [lw_tx_type lw_before lw_args br_address br_witness account_witness witness_of aw_nonce]. rewrite E1, E2, <- En.
  unfold eth_address_to_fr, PubKeyHash_to_fr. repeat append_step. cbn [append_fields mbind outcome_bind].
  unfold change_pubkey_layout. rewrite (be_bits_resize 6), !be_bits_app, <- !app_assoc.
  - rewrite !length_app, !bytes_into_be_bits_length, !to_be_bytes_length, (is_array_length _ _ Ha), (is_array_length _ _ Hh). done.
  - rewrite !length_app, !to_be_bytes_length, (is_array_length _ _ Ha), (is_array_length _ _ Hh); cbn; lia.
Qed.

Lemma close_pubdata m k a' args :
  fits 24 k → CloseAccount.get_pubdata (leaf_witness m k 0 a' args 4) =
  Val (bytes_into_be_bits (close_layout k)).
Proof.
  intros Hk. unfold CloseAccount.get_pubdata, leaf_witness, branch_of. cbn [lw_tx_type lw_before br_address].
  repeat append_step. cbn [append_fields mbind outcome_bind]. unfold close_layout.
  rewrite (be_bits_resize 1), !be_bits_app; [done|]. rewrite !length_app, !to_be_bytes_length; cbn; lia.
Qed.

Lemma transfer_pubdata m k j a1 a2 tx args data fbits :
  FranklinOp_wf (OpTransfer (mkTransferOp tx k j)) → pack_fee_amount (tr_fee tx) = Val data → length data = 2%nat →
  bytes_into_be_bits data = reverse fbits → length fbits = 16%nat →
  arg_token_id args = Some (fr_of_uint (tr_token_id tx)) → arg_fee args = Some (fr_of_uint (le_bits_val fbits)) →
  ∃ pd, pubdata_layout (OpTransfer (mkTransferOp tx k j)) = Val pd ∧ length pd = (TRANSFER_CHUNKS * 8)%nat ∧
    TransferWitness.get_pubdata (pair_witness m k j (tr_token_id tx) a1 a2 args 5) = Val (bytes_into_be_bits pd).
Proof.
  intros (Hk & Hj & Ht & _) Hpack Hlen Hbits Hl E1 E2.
  cbn [pubdata_layout tro_tx tro_from tro_to]. rewrite Hpack. cbn [mbind outcome_bind].
  eexists. split; [done|]. split; [apply vec_resize_length|].
  unfold TransferWitness.get_pubdata, pair_witness, branch_of. cbn [pw_tx_type from_before to_before pw_args br_address].
  rewrite E1, E2. repeat append_step. cbn [append_fields mbind outcome_bind].
  unfold transfer_layout. rewrite (be_bits_resize 2), !be_bits_app, Hbits, <- !app_assoc; [done|].
  rewrite !length_app, !to_be_bytes_length, Hlen; cbn; lia.
Qed.

Lemma transfer_to_new_pubdata m k j a1 a2 tx args data fbits :
  FranklinOp_wf (OpTransferToNew (mkTransferToNewOp tx k j)) → pack_fee_amount (tr_fee tx) = Val data → length data = 2%nat →
  bytes_into_be_bits data = reverse fbits → length fbits = 16%nat →
  arg_token_id args = Some (fr_of_uint (tr_token_id tx)) → arg_fee args = Some (fr_of_uint (le_bits_val fbits)) →
  arg_eth_address args = Some (eth_address_to_fr (tr_to tx)) →
  ∃ pd, pubdata_layout (OpTransferToNew (mkTransferToNewOp tx k j)) = Val pd ∧ length pd = (TRANSFER_TO_NEW_CHUNKS * 8)%nat ∧
    TransferToNewWitness.get_pubdata (pair_witness m k j (tr_token_id tx) a1 a2 args 2) = Val (bytes_into_be_bits pd).
Proof.
  intros (Hk & Hj & Ht & Ha) Hpack Hlen Hbits Hl E1 E2 E3.
  cbn [pubdata_layout ttn_tx ttn_from ttn_to]. rewrite Hpack. cbn [mbind outcome_bind].
  eexists. split; [done|]. split; [apply vec_resize_length|].
  unfold TransferToNewWitness.get_pubdata, pair_witness, branch_of. cbn [pw_tx_type from_before to_before pw_args br_address].
  rewrite E1, E2, E3. unfold eth_address_to_fr. repeat append_step. cbn [append_fields mbind outcome_bind].
  unfold transfer_to_new_layout. rewrite (be_bits_resize 5), !be_bits_app, Hbits, <- !app_assoc; [done|].
  rewrite !length_app, !to_be_bytes_length, Hlen, (is_array_length _ _ Ha); cbn; lia.
Qed.
End OpPubdata.
