(* ===== verification/WitnessFollows.v ===== *)
(** * The interface of the witness generators

    [FollowsLedger] is what the prover server relies on of the generator of an
    operation; every generator whose operation the ledger executes, except that of
    the full exit, is an instance. *)

From S2P Require Import Prelude Bytes Params Externals Primitives Amounts Account Tx Operations Merkle ParallelSmt.
From S2P Require Import ParallelSmtProofs Storage AccountLeaf PlasmaState PlasmaProofs StateKeeperProofs ExecLogic CircuitTree.
From S2P Require Import Witness WitnessOps WitnessProofs WitnessLedger.
Open Scope Z_scope.

Section Interface.
  Context `{EX : External}.

(** The account ids are an initial segment of the integers. *)
Definition ids_dense (m : AccountMap) : Prop := ∀ id, is_Some (m !! id) ↔ 0 ≤ id < Z.of_nat (size m).

(** The nonces stay below [2^32] for [n] more increments. *)
Definition nonces_below (n : Z) (m : AccountMap) : Prop :=
  ∀ id a, m !! id = Some a → 0 ≤ nonce a ∧ nonce a + n < 2 ^ 32.

(** The accounts that a witness is built from. *)
Record provable_from (n : Z) (m : AccountMap) : Prop := {
  pf_room : 0 ≤ n < 2 ^ 32;
  pf_leaves : leaves_ok m;
  pf_dense : ids_dense m;
  pf_nonces : nonces_below n m;
}.

(** What the generator of an operation produces. *)
Definition witnessed {Op} `{W : !WitnessOf Op} (op : FranklinOp) (code : Z) (m m' : AccountMap) (w : witness_type) : Prop :=
  ∃ data, pubdata_layout op = Val data ∧ length data = (FranklinOp_chunks op * 8)%nat ∧
    get_pubdata w = Val (bytes_into_be_bits data) ∧
    ∀ input, ∃ ops, calculate_operations w input = Val ops ∧
      ops_ok (ledger_root m) (ledger_root m') code (bytes_into_be_bits data) ops.

Class FollowsLedger (Op : Type) `{W : !WitnessOf Op} (inj : Op → FranklinOp) (code : Z) : Prop :=
  follows_ledger t m op us m' :
    mirrors t m → provable_from 1 m → op_provable (inj op) →
    ledger_step m (inj op) us m' → op_addressed m (inj op) → op_token_ok (inj op) →
    runs (apply_tx op) t (λ w t', mirrors t' m' ∧ witnessed (inj op) code m m' w).
End Interface.

Section Instances.
  Context `{EX : External} `{EXL : !ExternalLaws}.
  Implicit Types (m : AccountMap) (t : CircuitAccountTree).

Lemma account_at_Some m k a : m !! k = Some a → account_at m k = a.
Proof. intros E. unfold account_at. by rewrite E. Qed.
Lemma account_at_None m k : m !! k = None → account_at m k = Account_default.
Proof. intros E. unfold account_at. by rewrite E. Qed.

Lemma dense_fresh m : ids_dense m → m !! Z.of_nat (size m) = None.
Proof. intros Hd. apply eq_None_not_Some. intros H%Hd. lia. Qed.

Lemma fresh_leaf_ok id : 0 ≤ id → id < 2 ^ 24 → leaf_ok account_tree_depth id.
Proof. done. Qed.

Lemma be_bits_chunks data n : length data = (n * 8)%nat → length (bytes_into_be_bits data) = (64 * n)%nat.
Proof. intros H. rewrite bytes_into_be_bits_length. lia. Qed.

#[global] Instance deposit_follows : FollowsLedger DepositOp OpDeposit 1.
Proof.
  intros t m [d id] us m' Hm Hp [Hwf _] Hstep Haddr Htok. cbn in Htok.
  assert (∃ a', m' = <[id := a']> m ∧ tokens_ok a' ∧ leaf_ok account_tree_depth id ∧
    leaf_change (λ acc, _ ← assert_that (fr_eqb (ca_address acc) (eth_address_to_fr (dp_to d)) || fr_eqb (ca_address acc) (fr_of_uint 0))
            "assertion failed: (acc.address == deposit.address) || (acc.address == Fr::zero())";
      Val (mkCircuitAccount (ca_subtree acc) (ca_nonce acc) (ca_pub_key_hash acc) (eth_address_to_fr (dp_to d))))
      (add_token (dp_token_id d) (account_at m id)) a') as (a' & -> & Ha' & Hid & Hc).
  { inversion Hstep as [? ? a Ha|? ? Hn| | | | | |]; subst.
    - destruct Haddr as [(a0 & Ha0 & Had)|(-> & _)]; [|by rewrite dense_fresh in Ha by apply Hp].
      assert (a0 = a) as -> by congruence.
      exists (add_token (dp_token_id d) a). split; [done|]. split; [apply tokens_ok_add; [done|by eapply Hp]|].
      split; [by eapply mirrors_leaf_ok|]. rewrite (account_at_Some _ _ _ Ha).
      replace (add_token (dp_token_id d) a) with (set_address (dp_to d) (add_token (dp_token_id d) a)) at 2
        by (rewrite <- Had; by destruct a).
      apply set_address_change. intros ca Hl. rewrite (al_address _ _ Hl). cbn [address add_token set_tokens].
      by rewrite Had, fr_eqb_refl.
    - destruct Haddr as [(a0 & Ha0 & _)|(-> & Hlt & _)]; [congruence|].
      exists (add_token (dp_token_id d) (default_with_address (dp_to d))). split; [done|].
      split; [apply tokens_ok_add; [done|apply tokens_ok_default]|]. split; [apply fresh_leaf_ok; lia|].
      rewrite (account_at_None _ _ Hn). apply (set_address_change _ _ (add_token (dp_token_id d) Account_default)).
      intros ca Hl. rewrite (al_address _ _ Hl). rewrite fr_eqb_refl. apply orb_true_r. }
  eapply runs_mono; [eapply (apply_leaf_data_runs t m id (dp_token_id d) (Some (dp_token_id d)) None); by eauto using pf_leaves|].
  intros w t' [-> Hm']. split; [done|].
  match goal with |- witnessed _ _ _ _ ?w => assert (Deposit.get_pubdata w =
    Val (bytes_into_be_bits (deposit_layout d id))) as Hpd by (by apply deposit_pubdata) end.
  eexists. split; [done|]. split; [apply vec_resize_length|]. split; [exact Hpd|]. intros input.
  cbn [calculate_operations deposit_witness]. unfold Deposit.calculate_operations. rewrite Hpd. cbn [mbind outcome_bind].
  apply leaf_operations_ok; try done; [apply Hp|]. by apply be_bits_chunks, vec_resize_length.
Qed.

(** The account that signs an operation: its nonce is incremented. *)
Lemma signer_change m id a (f : Account → Account) :
  provable_from 1 m → m !! id = Some a → nonce (f a) = nonce a →
  leaf_change (λ acc, Val (add_nonce acc)) (f a) (increment_nonce (f a)).
Proof. intros Hp Ha Hf. destruct (pf_nonces _ _ Hp id a Ha). apply add_nonce_change; rewrite Hf; lia. Qed.

Lemma owned_token_ok m id a tok : provable_from 1 m → m !! id = Some a → tok ∈ tokens a → token_ok tok.
Proof. intros Hp Ha Ht. by eapply (pf_leaves _ _ Hp). Qed.

Lemma removed_tokens_ok m id a tok :
  provable_from 1 m → m !! id = Some a → tokens_ok (increment_nonce (remove_token tok a)).
Proof. intros Hp Ha. apply (tokens_ok_sub a); [cbn; set_solver|by eapply (pf_leaves _ _ Hp)]. Qed.

#[global] Instance withdraw_follows : FollowsLedger WithdrawOp OpWithdraw 3.
Proof.
  intros t m [tx id] us m' Hm Hp [Hwf _] Hstep _ _. inversion Hstep as [| | | | |? ? a Ha En Ht| |]; subst.
  pose proof Hwf as (_ & _ & _ & Hfee). destruct (fee_packed _ Hfee) as (n & fbits & data & Hn & Henc & Hl & Hpack & Hld & Hbits).
  pose proof (owned_token_ok _ _ _ _ Hp Ha Ht) as Htok. assert (leaf_ok account_tree_depth id) as Hid by (by eapply mirrors_leaf_ok).
  cbn [apply_tx withdraw_witness]. unfold Withdrawal.apply_tx, Withdrawal.apply_data.
  cbn [wdo_tx wdo_account_id]. apply runs_bind. eapply runs_total; [by apply big_decimal_to_u128_holds|].
  cbn [Withdrawal.wdd_fee Withdrawal.wdd_token_id Withdrawal.wdd_account_address Withdrawal.wdd_eth_address].
  apply runs_bind. eapply runs_total; [exact Henc|]. eapply runs_mono.
  { apply (apply_leaf_data_runs t m id (wd_token_id tx) None (Some (wd_token_id tx)) _ (increment_nonce (remove_token (wd_token_id tx) a)));
      try done; [apply Hp| |by eapply removed_tokens_ok].
    rewrite (account_at_Some _ _ _ Ha). by apply (signer_change m id a (remove_token (wd_token_id tx))). }
  intros w t' [-> Hm']. split; [done|].
  match goal with |- witnessed _ _ _ _ (leaf_witness _ _ _ ?a' ?args _) =>
    destruct (withdraw_pubdata m id a' tx _ args data fbits Hwf Hpack Hld Hbits Hl eq_refl eq_refl eq_refl eq_refl) as (pd & Epd & Hlen & Hpd) end.
  exists pd. split; [done|]. split; [done|]. split; [exact Hpd|]. intros input.
  cbn [calculate_operations withdraw_witness]. unfold Withdrawal.calculate_operations. rewrite Hpd. cbn [mbind outcome_bind].
  apply leaf_operations_ok; try done; [apply Hp|by eapply removed_tokens_ok|]. by apply be_bits_chunks.
Qed.

Lemma change_pubkey_change m id a h ad :
  provable_from 1 m → m !! id = Some a → address a = ad →
  leaf_change (λ acc, _ ← assert_that (fr_eqb (ca_address acc) (eth_address_to_fr ad)) "change pubkey address tx mismatch";
      Val (add_nonce (mkCircuitAccount (ca_subtree acc) (ca_nonce acc) (PubKeyHash_to_fr h) (ca_address acc))))
    a (increment_nonce (set_pub_key_hash h a)).
Proof.
  intros Hp Ha <- ca Hl. rewrite (al_address _ _ Hl), fr_eqb_refl. cbn [assert_that mbind outcome_bind].
  apply (signer_change m id a (set_pub_key_hash h) Hp Ha eq_refl). by split; try apply Hl.
Qed.

(** The operations of a change of the public key: all carry both branches. *)
Lemma change_pubkey_ops_ok m k a' args bits :
  leaves_ok m → tokens_ok a' → leaf_ok account_tree_depth k → token_ok 0 → length bits = (64 * 6)%nat →
  let w := leaf_witness m k 0 a' args 7 in
  ops_ok (ledger_root m) (ledger_root (<[k := a']> m)) 7 bits
    (imap (λ chunk_n pubdata_chunk,
         mkCircuitOperation (lw_after_root w) (lw_tx_type w) (Some (fr_of_uint (Z.of_nat chunk_n)))
           (Some pubdata_chunk) (replicate 256 (Some false)) (Some (fr_of_uint 0)) (Some (fr_of_uint 0))
           (Some (fr_of_uint 0)) SignatureData_init_empty (lw_args w) (lw_before w) (lw_after w))
       (pubdata_chunks bits)).
Proof.
  intros Hok Ha' Hk H0 Hl w. assert (leaves_ok (<[k := a']> m)) as Hok' by (by apply leaves_ok_insert).
  assert (pubdata_chunks bits = chunk_value bits <$> seq 0 6) as ->.
  { apply list_eq. intros i. destruct (decide (i < 6)%nat).
    - rewrite (pubdata_chunks_lookup bits 6), list_lookup_fmap, lookup_seq_lt by done. done.
    - rewrite !lookup_ge_None_2; [done|rewrite length_fmap, length_seq; lia|].
      rewrite (pubdata_chunks_length bits 6) by done. lia. }
  set (op := λ i, chunk_op bits no_signature args (Some (fr_of_uint 7)) (Some (ledger_root (<[k := a']> m))) i (lw_before w) (lw_after w)).
  change (ops_ok (ledger_root m) (ledger_root (<[k := a']> m)) 7 bits (op <$> seq 0 6)). split; [done|..].
  - intros i o Hi. rewrite list_lookup_fmap in Hi. apply fmap_Some in Hi as (j & [-> Hj]%lookup_seq & ->). done.
  - change (rolls (ledger_root m) (op 0%nat :: (op <$> seq 1 5)) (ledger_root (<[k := a']> m))). split.
    { eexists _, _, _, _. split; [apply select_first|]. by apply branch_of_opens. }
    eexists. split; [done|]. apply rolls_const, Forall_fmap, Forall_forall. intros i Hi%elem_of_seq. split; [|done].
    eexists _, _, _, _. split; [apply select_rest; done || lia|]. by apply branch_of_opens.
Qed.

#[global] Instance change_pubkey_follows : FollowsLedger ChangePubKeyOp OpChangePubKeyOffchain 7.
Proof.
  intros t m [tx id] us m' Hm Hp [Hwf _] Hstep Haddr _. inversion Hstep as [| | | | | |? ? a Ha En|]; subst.
  destruct Haddr as (a0 & Ha0 & Had). assert (a0 = a) as -> by congruence.
  assert (leaf_ok account_tree_depth id) as Hid by (by eapply mirrors_leaf_ok).
  assert (tokens_ok (increment_nonce (set_pub_key_hash (cpk_new_pk_hash tx) a))) as Ha' by (by apply (pf_leaves _ _ Hp id a)).
  assert (token_ok 0) as H0 by (by apply token_ok_range).
  cbn [apply_tx change_pubkey_witness]. unfold ChangePubkeyOffChain.apply_tx, ChangePubkeyOffChain.apply_data. eapply runs_mono.
  { apply (apply_leaf_data_runs t m id 0 None None _ (increment_nonce (set_pub_key_hash (cpk_new_pk_hash tx) a))); try done; [apply Hp|].
    rewrite (account_at_Some _ _ _ Ha). by apply (change_pubkey_change m id). }
  intros w t' [-> Hm']. split; [done|].
  match goal with |- witnessed _ _ _ _ ?w => assert (ChangePubkeyOffChain.get_pubdata w =
    Val (bytes_into_be_bits (change_pubkey_layout tx id))) as Hpd
      by (by apply (change_pubkey_pubdata m id a)) end.
  eexists. split; [done|]. split; [apply vec_resize_length|]. split; [exact Hpd|]. intros input.
  cbn [calculate_operations change_pubkey_witness]. unfold ChangePubkeyOffChain.calculate_operations. rewrite Hpd. cbn [mbind outcome_bind].
  eexists. split; [done|]. apply change_pubkey_ops_ok; try done; [apply Hp|]. by apply be_bits_chunks, vec_resize_length.
Qed.

(** The two operations that move the token, and the [n] that follow. *)
Lemma pair_ops_ok m k j tok a1 a2 args ty bits input n :
  leaves_ok m → tokens_ok a1 → tokens_ok a2 → leaf_ok account_tree_depth k → leaf_ok account_tree_depth j → token_ok tok →
  fits 253 ty → ty ≠ 1 → length bits = (64 * (2 + n))%nat → Z.of_nat n < 2 ^ 31 →
  let w := pair_witness m k j tok a1 a2 args ty in
  ops_ok (ledger_root m) (ledger_root (<[j := a2]> (<[k := a1]> m))) ty bits
    (chunk_op bits input args (pw_tx_type w) (pw_intermediate_root w) 0 (from_before w) (to_before w)
     :: chunk_op bits input args (pw_tx_type w) (pw_after_root w) 1 (from_intermediate w) (to_intermediate w)
     :: ((λ i, chunk_op bits input args (pw_tx_type w) (pw_after_root w) i (from_after w) (to_after w)) <$> seq 2 n)).
Proof.
  intros Hok Ha1 Ha2 Hk Hj Htok Hty Hne Hl Hn w.
  assert (leaves_ok (<[k := a1]> m)) as Hok1 by (by apply leaves_ok_insert).
  assert (leaves_ok (<[j := a2]> (<[k := a1]> m))) as Hok2 by (by apply leaves_ok_insert).
  split.
  - cbn [length]. rewrite length_fmap, length_seq. done.
  - intros [|[|i]] o Hi; [by injection Hi as <-|by injection Hi as <-|].
    change (((λ i, chunk_op bits input args (pw_tx_type w) (pw_after_root w) i (from_after w) (to_after w)) <$> seq 2 n) !! i = Some o) in Hi.
    rewrite list_lookup_fmap in Hi. apply fmap_Some in Hi as (i' & [-> Hi']%lookup_seq & ->). done.
  - split.
    { eexists _, _, _, _. split; [apply select_first|]. by apply branch_of_opens. }
    eexists. split; [done|]. split.
    { eexists _, _, _, _. split; [apply select_rest; done || lia|]. by apply (branch_of_opens (<[k := a1]> m)). }
    eexists. split; [done|]. apply rolls_const, Forall_fmap, Forall_forall. intros i Hi%elem_of_seq. split; [|done].
    eexists _, _, _, _. split; [apply select_rest; done || lia|]. by apply (branch_of_opens (<[j := a2]> (<[k := a1]> m))).
Qed.

#[global] Instance transfer_follows : FollowsLedger TransferOp OpTransfer 5.
Proof.
  intros t m [tx k j] us m' Hm Hp [Hwf _] Hstep _ _.
  assert (∃ a, m !! k = Some a ∧ tr_token_id tx ∈ tokens a ∧ is_Some (m !! j) ∧
    let m1 := <[k := increment_nonce (remove_token (tr_token_id tx) a)]> m in
    m' = <[j := add_token (tr_token_id tx) (account_at m1 j)]> m1) as (a & Ha & Ht & Hj & ->).
  { inversion Hstep as [| | |? ? ? a b Hne Ha Hb En Ht|? ? a Ha En Ht| | |]; subst; exists a; (split; [done|]); (split; [done|]); (split; [done|]).
    - cbn. by rewrite account_at_insert_ne, (account_at_Some _ _ _ Hb) by done.
    - cbn. rewrite account_at_insert, insert_insert_eq. f_equal. destruct a as [h ad T nn].
      unfold increment_nonce, remove_token, add_token, set_nonce, set_tokens. cbn in *. f_equal. by rewrite <- union_difference_L by set_solver. }
  pose proof Hwf as (_ & _ & _ & Hfee). destruct (fee_packed _ Hfee) as (n & fbits & data & Hn & Henc & Hl & Hpack & Hld & Hbits).
  pose proof (owned_token_ok _ _ _ _ Hp Ha Ht) as Htok. assert (leaf_ok account_tree_depth k) as Hk by (by eapply mirrors_leaf_ok).
  assert (leaf_ok account_tree_depth j) as Hjok by (by eapply mirrors_leaf_ok).
  set (a1 := increment_nonce (remove_token (tr_token_id tx) a)). assert (tokens_ok a1) as Ha1 by (by eapply removed_tokens_ok).
  cbv zeta. set (a2 := add_token (tr_token_id tx) (account_at (<[k := a1]> m) j)). assert (tokens_ok a2) as Ha2.
  { apply tokens_ok_add; [done|]. apply account_at_ok, leaves_ok_insert; [done|apply Hp]. }
  cbn [apply_tx transfer_witness]. unfold TransferWitness.apply_tx, TransferWitness.apply_data. cbn [tro_tx tro_from tro_to].
  apply runs_bind. eapply runs_total; [by apply big_decimal_to_u128_holds|].
  cbn [TransferWitness.td_fee TransferWitness.td_token_id TransferWitness.td_from_account_address TransferWitness.td_to_account_address].
  apply runs_bind. eapply runs_total; [exact Henc|]. eapply runs_mono.
  { apply (apply_pair_data_runs t m k j (tr_token_id tx) _ a1 a2); try done; [apply Hp| |by intros ca Hca; exists ca].
    rewrite (account_at_Some _ _ _ Ha). by apply (signer_change m k a (remove_token (tr_token_id tx))). }
  intros w t' [-> Hm']. split; [done|].
  match goal with |- witnessed _ _ _ _ (pair_witness _ _ _ _ _ _ ?args _) =>
    destruct (transfer_pubdata m k j a1 a2 tx args data fbits Hwf Hpack Hld Hbits Hl eq_refl eq_refl) as (pd & Epd & Hlen & Hpd) end.
  exists pd. split; [done|]. split; [done|]. split; [exact Hpd|]. intros input.
  cbn [calculate_operations transfer_witness]. unfold TransferWitness.calculate_operations. rewrite Hpd. cbn [mbind outcome_bind].
  pose proof (be_bits_chunks pd 2 Hlen) as Hlb. rewrite !(chunk_operation_Val _ 2) by (done || lia). cbn [mbind outcome_bind].
  eexists. split; [done|]. by apply (pair_ops_ok m k j (tr_token_id tx) a1 a2 _ 5 _ input 0); [apply Hp|..].
Qed.

#[global] Instance transfer_to_new_follows : FollowsLedger TransferToNewOp OpTransferToNew 2.
Proof.
  intros t m [tx k j] us m' Hm Hp [Hwf [Hfee _]] Hstep Haddr _. cbn in Hfee.
  inversion Hstep as [| |? ? ? a Ha Hj En Ht| | | | |]; subst. destruct Haddr as (_ & Hjs & Hjlt & _).
  destruct (fee_packed _ Hfee) as (n & fbits & data & Hn & Henc & Hl & Hpack & Hld & Hbits).
  pose proof (owned_token_ok _ _ _ _ Hp Ha Ht) as Htok. assert (leaf_ok account_tree_depth k) as Hk by (by eapply mirrors_leaf_ok).
  assert (leaf_ok account_tree_depth j) as Hjok by (apply fresh_leaf_ok; lia). assert (k ≠ j) as Hkj by congruence.
  set (a1 := increment_nonce (remove_token (tr_token_id tx) a)). assert (tokens_ok a1) as Ha1 by (by eapply removed_tokens_ok).
  set (a2 := add_token (tr_token_id tx) (default_with_address (tr_to tx))).
  assert (tokens_ok a2) as Ha2 by (by apply tokens_ok_add, tokens_ok_default).
  cbn [apply_tx transfer_to_new_witness]. unfold TransferToNewWitness.apply_tx, TransferToNewWitness.apply_data. cbn [ttn_tx ttn_from ttn_to].
  apply runs_bind. eapply runs_total; [by rewrite (proj2 Hn)|].
  cbn [TransferToNewWitness.tnd_fee TransferToNewWitness.tnd_token_id TransferToNewWitness.tnd_from_account_address
       TransferToNewWitness.tnd_to_account_address TransferToNewWitness.tnd_new_address].
  apply runs_bind. eapply runs_total; [exact Henc|]. eapply runs_mono.
  { apply (apply_pair_data_runs t m k j (tr_token_id tx) _ a1 a2); try done; [apply Hp|..].
    - rewrite (account_at_Some _ _ _ Ha). by apply (signer_change m k a (remove_token (tr_token_id tx))).
    - rewrite account_at_insert_ne, (account_at_None _ _ Hj) by done.
      apply (set_address_change _ _ (add_token (tr_token_id tx) Account_default)). intros ca Hca.
      rewrite (al_address _ _ Hca). apply fr_eqb_refl. }
  intros w t' [-> Hm']. split; [done|].
  match goal with |- witnessed _ _ _ _ (pair_witness _ _ _ _ _ _ ?args _) =>
    destruct (transfer_to_new_pubdata m k j a1 a2 tx args data fbits Hwf Hpack Hld Hbits Hl eq_refl eq_refl eq_refl) as (pd & Epd & Hlen & Hpd) end.
  exists pd. split; [done|]. split; [done|]. split; [exact Hpd|]. intros input.
  cbn [calculate_operations transfer_to_new_witness]. unfold TransferToNewWitness.calculate_operations. rewrite Hpd. cbn [mbind outcome_bind].
  pose proof (be_bits_chunks pd 5 Hlen) as Hlb. rewrite !(chunk_operation_Val _ 5) by (done || lia). cbn [mbind outcome_bind].
  eexists. split; [done|]. by apply (pair_ops_ok m k j (tr_token_id tx) a1 a2 _ 2 _ input 3); [apply Hp|..].
Qed.

(** ** Steps keep the accounts provable *)

Lemma dense_insert m id a : ids_dense m → id = Z.of_nat (size m) → ids_dense (<[id := a]> m).
Proof.
  intros Hd ->. pose proof (dense_fresh m Hd) as Hn. intros j. rewrite lookup_insert_is_Some', map_size_insert_None, (Hd j) by done. lia.
Qed.
Lemma dense_replace m id a : ids_dense m → is_Some (m !! id) → ids_dense (<[id := a]> m).
Proof.
  intros Hd Hs j. rewrite lookup_insert_is_Some', map_size_insert_Some, (Hd j) by done. pose proof (Hd id). naive_solver.
Qed.

Lemma provable_step n m op us m' :
  provable_from (n + 1) m → 0 ≤ n → op_provable op → ledger_step m op us m' → op_addressed m op → op_token_ok op →
  provable_from n m'.
Proof.
  intros Hp Hn0 Hop Hstep Haddr Htok. pose proof (pf_room _ _ Hp) as Hroom. split; [lia|by eapply leaves_ok_step; [apply Hp|..]|..].
  - pose proof (pf_dense _ _ Hp) as Hd. destruct Hstep; cbn in Haddr; try (by apply dense_replace).
    + destruct Haddr as [(? & ? & ?)|(-> & _)]; [congruence|]. by apply dense_insert.
    + destruct Haddr as (_ & -> & _). apply dense_insert; [by apply dense_replace|]. by rewrite map_size_insert_Some.
    + apply dense_replace; [by apply dense_replace|]. rewrite lookup_insert_ne by done. by eexists.
  - pose proof (pf_nonces _ _ Hp) as Hn.
    assert (∀ id a, m !! id = Some a → 0 ≤ nonce (increment_nonce a) ∧ nonce (increment_nonce a) + n < 2 ^ 32) as Hinc.
    { intros id a Ha. destruct (Hn id a Ha). cbn. unfold wrap. rewrite Z.mod_small by lia. lia. }
    destruct Hstep; intros j acc Hb;
      repeat (apply lookup_insert_Some in Hb as [[<- <-]|[_ Hb]]);
      try (destruct (Hn _ _ Hb); lia);
      try match goal with H : _ !! _ = Some ?a |- _ ∧ nonce _ + _ < _ => first [exact (Hinc _ a H)|destruct (Hn _ a H); cbn; lia] end;
      cbn; lia.
Qed.
End Instances.
