(* ===== verification/ProverPool.v ===== *)
(** * The prover server
    (core/server/src/prover_server.rs, prover_server/pool.rs, core/storage/src/prover,
     core/prover/src/prover_data.rs, client.rs)

    A maintainer thread loads the committed blocks, replays them on its own account
    tree and puts the prover data of each block into a pool; the HTTP handlers
    assign blocks to provers through the table of jobs, hand out the data of the
    pool and store the proofs.  The two share the pool and the database.

    [load_commits_after_block] and [get_block_operations] are those of the block
    schema; errors of the database connection are not modelled.  Times are seconds. *)

From S2P Require Import Prelude Bytes Params Externals Primitives Amounts Account Tx Operations Block EthStorage Storage.
From S2P Require Import AccountLeaf PlasmaState BlockStorage CircuitTree Witness WitnessOps.
Open Scope Z_scope.

Section Pool.
  Context `{C : Codec} (now : Z).

(** ** The prover data *)

Record ProverData : Type := mkProverData {
  pd_public_data_commitment : Fr;
  pd_old_root : Fr;
  pd_new_root : Fr;
  pd_validator_address : Fr;
  pd_validator_balances : list (option Fr);
  pd_validator_audit_path : list (option Fr);
  pd_operations : list CircuitOperation;
  pd_validator_account : AccountWitness;
}.

(** The vectors that the loop over the operations extends. *)
Record Collected : Type := mkCollected {
  co_operations : list CircuitOperation;
  co_pub_data : list bool;
  co_fees : list CollectedFee;
}.

(** An arm of the loop: the witness is applied, its operations and public data are collected. *)
Definition collect {Op} `{W : !WitnessOf Op} (op : Op) (input : Fallible CalculateOpsInput) (fees : list CollectedFee)
    (acc : Collected) : Exec WitnessBuilder Collected :=
  witness ← on_tree (apply_tx op);
  input ← lift input;
  operations ← total (calculate_operations witness input);
  pubdata ← total (get_pubdata witness);
  mret (mkCollected (co_operations acc ++ operations) (co_pub_data acc ++ pubdata) (co_fees acc ++ fees)).

Definition collect_op (op : FranklinOp) (acc : Collected) : Exec WitnessBuilder Collected :=
  match op with
  | OpDeposit deposit => collect deposit (Val (Ok tt)) [] acc
  | OpTransfer transfer => collect transfer (from_transfer_op transfer) [mkCollectedFee 0 (tr_fee (tro_tx transfer))] acc
  | OpTransferToNew transfer_to_new =>
      collect transfer_to_new (from_transfer_to_new_op transfer_to_new) [mkCollectedFee 0 (tr_fee (ttn_tx transfer_to_new))] acc
  | OpWithdraw withdraw => collect withdraw (from_withdraw_op withdraw) [mkCollectedFee 0 (wd_fee (wdo_tx withdraw))] acc
  | OpClose close => collect close (from_close_op close) [] acc
  | OpFullExit _ => total (Panic "not yet implemented")
  | OpChangePubKeyOffchain change_pkhash_op => collect change_pkhash_op (Val (Ok tt)) [] acc
  | OpNoop => mret acc
  end.

Fixpoint collect_ops (ops : list FranklinOp) (acc : Collected) : Exec WitnessBuilder Collected :=
  match ops with
  | [] => mret acc
  | op :: ops => acc ← collect_op op acc; collect_ops ops acc
  end.

(** [build_prover_data] after the builder is created. *)
Definition build_witness (ops : list FranklinOp) (block : Block) : Exec WitnessBuilder ProverData :=
  let block_size := block_chunks_size block in
  acc ← collect_ops ops (mkCollected [] [] []);
  _ ← add_operation_with_pubdata (co_operations acc) (co_pub_data acc);
  _ ← extend_pubdata_with_noops block_size;
  b ← gets id;
  _ ← total (assert_that (length (wb_pubdata b) =? 64 * block_size)%nat "assertion failed: `(left == right)`");
  _ ← total (assert_that (length (wb_operations b) =? block_size)%nat "assertion failed: `(left == right)`");
  _ ← collect_fees (co_fees acc);
  b ← gets id;
  root_after_fees ← total (unwrap "root_after_fees not present" (wb_root_after_fees b));
  _ ← total (assert_that (fr_eqb root_after_fees (new_root_hash block)) "assertion failed: `(left == right)`");
  _ ← calculate_pubdata_commitment;
  b ← gets id;
  commitment ← total (unwrap "called `Option::unwrap()` on a `None` value" (wb_pubdata_commitment b));
  validator_account ← total (unwrap "called `Option::unwrap()` on a `None` value" (wb_fee_account_witness b));
  mret (mkProverData commitment (wb_initial_root_hash b) (new_root_hash block) (fr_of_uint (fee_account block)) [] []
          (wb_operations b) validator_account).

Definition build_prover_data (storage : ChainDb) (commit_operation : Operation) : Exec CircuitAccountTree ProverData := λ account_tree,
  let block := op_block commit_operation in
  match WitnessBuilder_new account_tree (fee_account block) (block_number block) with
  | Panic msg => Panic msg
  | Val witness_accum =>
      match get_block_operations now (block_number block) storage with
      | Panic msg => Panic msg
      | Val ops =>
          match build_witness ops block witness_accum with
          | Val (r, witness_accum) => Val (r, wb_account_tree witness_accum)
          | Panic msg => Panic msg
          end
      end
  end.

(** ** The queue and the pool *)

Record OperationsQueue : Type := mkOperationsQueue {
  oq_operations : list (Operation * bool);
  oq_last_loaded_block : Z;
}.

Definition OperationsQueue_new (last_loaded_block : Z) : OperationsQueue := mkOperationsQueue [] last_loaded_block.

Definition queue_take_next_commits_if_needed (storage : ChainDb) (limit : nat) (self : OperationsQueue) : Fallible OperationsQueue :=
  if (length (oq_operations self) <? limit)%nat then
    ops ← load_commits_after_block now (oq_last_loaded_block self) limit storage;
    let operations := oq_operations self ++ ops in
    Val (Ok (mkOperationsQueue operations
               (match last operations with
                | Some (op, _) => block_number (op_block op)
                | None => oq_last_loaded_block self
                end)))
  else Val (Ok self).

Definition take_next_operation (self : OperationsQueue) : option (Operation * bool) * OperationsQueue :=
  match oq_operations self with
  | [] => (None, self)
  | op :: operations => (Some op, mkOperationsQueue operations (oq_last_loaded_block self))
  end.

Definition next_block_number (self : OperationsQueue) : option Z :=
  match oq_operations self with
  | [] => None
  | (op, _) :: _ => Some (block_number (op_block op))
  end.

Definition is_empty (self : OperationsQueue) : bool := match oq_operations self with [] => true | _ => false end.

Record ProversDataPool : Type := mkProversDataPool {
  dp_limit : nat;
  dp_op_queue : OperationsQueue;
  dp_prepared : gmap Z ProverData;
}.

Definition ProversDataPool_new (last_loaded_block : Z) (limit : nat) : ProversDataPool :=
  mkProversDataPool limit (OperationsQueue_new last_loaded_block) ∅.
Definition pool_get (block : Z) (self : ProversDataPool) : option ProverData := dp_prepared self !! block.
Definition clean_up (block : Z) (self : ProversDataPool) : ProversDataPool :=
  mkProversDataPool (dp_limit self) (dp_op_queue self) (delete block (dp_prepared self)).

(** ** The maintainer *)

(** [mt_data] is the pool that the maintainer shares with the handlers. *)
Record Maintainer : Type := mkMaintainer {
  mt_data : ProversDataPool;
  mt_account_tree : CircuitAccountTree;
  mt_next_block_number : Z;
}.

Definition Maintainer_new (data : ProversDataPool) (account_tree : CircuitAccountTree) (block_number : Z) : Maintainer :=
  mkMaintainer data account_tree (wrap 32 (block_number + 1)).

Definition set_data (d : ProversDataPool) (m : Maintainer) : Maintainer :=
  mkMaintainer d (mt_account_tree m) (mt_next_block_number m).
Definition set_tree (t : CircuitAccountTree) (m : Maintainer) : Maintainer :=
  mkMaintainer (mt_data m) t (mt_next_block_number m).
Definition set_next (n : Z) (m : Maintainer) : Maintainer := mkMaintainer (mt_data m) (mt_account_tree m) n.

Definition maintainer_take_next_commits (storage : ChainDb) : Exec Maintainer unit :=
  pool ← gets mt_data;
  queue ← lift (queue_take_next_commits_if_needed storage (dp_limit pool) (dp_op_queue pool));
  update (λ m, Val (set_data (mkProversDataPool (dp_limit (mt_data m)) queue (dp_prepared (mt_data m))) m)).

(** The loop of [prepare_next] takes one operation from the queue per round. *)
Fixpoint prepare_loop (storage : ChainDb) (fuel : nat) (queue : OperationsQueue) (prepared : gmap Z ProverData) :
    Exec Maintainer (OperationsQueue * gmap Z ProverData) :=
  match fuel with
  | O => mret (queue, prepared)
  | S fuel =>
      if is_empty queue then mret (queue, prepared)
      else
        next ← gets mt_next_block_number;
        _ ← total (assert_that (bool_decide (Some next = next_block_number queue)) "Blocks must be processed in order");
        let '(taken, queue) := take_next_operation queue in
        match taken with
        | Some (op, has_proof) =>
            pd ← zoom mt_account_tree set_tree (build_prover_data storage op);
            let number := block_number (op_block op) in
            let prepared := if has_proof : bool then prepared else <[number := pd]> prepared in
            _ ← update (λ m, Val (set_next (wrap 32 (number + 1)) m));
            prepare_loop storage fuel queue prepared
        | None => prepare_loop storage fuel queue prepared
        end
  end.

(** [extend] lets the new entries win. *)
Definition prepare_next (storage : ChainDb) : Exec Maintainer unit :=
  queue ← gets (λ m, dp_op_queue (mt_data m));
  r ← prepare_loop storage (length (oq_operations queue)) queue ∅;
  let '(queue, prepared) := r in
  update (λ m, let pool := mt_data m in
    Val (set_data (mkProversDataPool (dp_limit pool) queue (prepared ∪ dp_prepared pool)) m)).

(** One round of the loop of [maintain]. *)
Definition maintain_round (storage : ChainDb) (m : Maintainer) : outcome Maintainer :=
  match maintainer_take_next_commits storage m with
  | Panic msg => Panic msg
  | Val (Err _, _) => Panic "couldn't get next commits"
  | Val (Ok _, m) =>
      match prepare_next storage m with
      | Panic msg => Panic msg
      | Val (Err _, _) => Panic "couldn't prepare next commits"
      | Val (Ok _, m) => Val m
      end
  end.

(** ** The jobs of the provers *)

Record ProverRun : Type := mkProverRun {
  run_id : Z;
  run_block_number : Z;
  run_worker : option string;
  run_created_at : Z;
  run_updated_at : Z;
}.
Record ActiveProver : Type := mkActiveProver {
  ap_id : Z;
  ap_worker : string;
  ap_created_at : Z;
  ap_stopped_at : option Z;
  ap_block_size : Z;
}.

(** The tables [prover_runs] and [active_provers] with their sequences. *)
Record ProverTables : Type := mkProverTables {
  t_prover_runs : list ProverRun;
  t_prover_runs_seq : Z;
  t_active_provers : list ActiveProver;
  t_active_provers_seq : Z;
}.

Definition min_of (l : list Z) : option Z :=
  match l with [] => None | x :: l => Some (foldl Z.min x l) end.

(** [(SELECT COALESCE(max(block_number), 0) FROM operations WHERE action_type = 'VERIFY')] *)
Definition last_verified (db : ChainDb) : Z :=
  default 0 (max_of (so_block_number <$> List.filter
    (λ o, bool_decide (so_action_type o = ActionType_to_string VERIFY)) (t_operations (cd_state db)))).

(** The conditions of [unsized_blocks]. *)
Definition awaits_prover (prover_timeout : Z) (db : ChainDb) (jobs : ProverTables) (o : StoredOperation) : bool :=
  bool_decide (so_action_type o = ActionType_to_string COMMIT) && (last_verified db <? so_block_number o)
  && negb (existsb (λ p, pf_block_number p =? so_block_number o) (cd_proofs db))
  && negb (existsb (λ r, (run_block_number r =? so_block_number o) && (now - run_updated_at r <? prover_timeout)) (t_prover_runs jobs)).

(** The transaction of [prover_run_for_next_commit]: the query joined with [blocks]. *)
Definition select_job (prover_timeout : Z) (block_size : nat) (db : ChainDb) (jobs : ProverTables) : option Z :=
  let unsized_blocks := List.filter (awaits_prover prover_timeout db jobs) (t_operations (cd_state db)) in
  let sized o := existsb (λ b, (sb_number b =? so_block_number o) && (sb_block_size b =? Z.of_nat block_size)) (t_blocks (cd_state db)) in
  wrap 32 <$> min_of (so_block_number <$> List.filter sized unsized_blocks).

(** The insertion that follows it, outside of the transaction. *)
Definition insert_run (worker : string) (block_number : Z) (jobs : ProverTables) : ProverRun * ProverTables :=
  let run := mkProverRun (t_prover_runs_seq jobs) block_number (Some worker) now now in
  (run, mkProverTables (t_prover_runs jobs ++ [run]) (t_prover_runs_seq jobs + 1) (t_active_provers jobs) (t_active_provers_seq jobs)).

Definition prover_run_for_next_commit (worker : string) (prover_timeout : Z) (block_size : nat) (db : ChainDb)
    (jobs : ProverTables) : option ProverRun * ProverTables :=
  match select_job prover_timeout block_size db jobs with
  | Some block_number => let '(run, jobs) := insert_run worker block_number jobs in (Some run, jobs)
  | None => (None, jobs)
  end.

Definition record_prover_is_working (job_id : Z) (jobs : ProverTables) : ProverTables :=
  mkProverTables
    ((λ r, if run_id r =? job_id
           then mkProverRun (run_id r) (run_block_number r) (run_worker r) (run_created_at r) now else r) <$> t_prover_runs jobs)
    (t_prover_runs_seq jobs) (t_active_provers jobs) (t_active_provers_seq jobs).

Definition register_prover (worker : string) (block_size : nat) (jobs : ProverTables) : Z * ProverTables :=
  let id := t_active_provers_seq jobs in
  (id, mkProverTables (t_prover_runs jobs) (t_prover_runs_seq jobs)
         (t_active_provers jobs ++ [mkActiveProver id worker now None (Z.of_nat block_size)]) (id + 1)).

Definition prover_by_id (prover_id : Z) (jobs : ProverTables) : result ActiveProver :=
  match head (List.filter (λ p, ap_id p =? prover_id) (t_active_provers jobs)) with
  | Some p => Ok p
  | None => Err "NotFound"
  end.

Definition record_prover_stop (prover_id : Z) (jobs : ProverTables) : ProverTables :=
  mkProverTables (t_prover_runs jobs) (t_prover_runs_seq jobs)
    ((λ p, if ap_id p =? prover_id
           then mkActiveProver (ap_id p) (ap_worker p) (ap_created_at p) (Some now) (ap_block_size p) else p) <$> t_active_provers jobs)
    (t_active_provers_seq jobs).

(** ** The handlers *)

Record AppState : Type := mkAppState {
  as_db : ChainDb;
  as_jobs : ProverTables;
  as_preparing_data_pool : ProversDataPool;
  as_prover_timeout : Z;
}.
Definition set_jobs (jobs : ProverTables) (s : AppState) : AppState :=
  mkAppState (as_db s) jobs (as_preparing_data_pool s) (as_prover_timeout s).

Record ProverReq : Type := mkProverReq { rq_name : string; rq_block_size : nat }.
Record BlockToProveRes : Type := mkBlockToProveRes { res_prover_run_id : Z; res_block : Z }.
Record PublishReq : Type := mkPublishReq { pub_block : Z; pub_proof : EncodedProofPlonk }.

Definition status : result string := Ok "alive"%string.

Definition register (r : ProverReq) : Exec AppState Z := λ data,
  if bool_decide (rq_name r = "")%string then Val (Err "empty name", data)
  else let '(id, jobs) := register_prover (rq_name r) (rq_block_size r) (as_jobs data) in
       Val (Ok id, set_jobs jobs data).

Definition block_to_prove (r : ProverReq) : Exec AppState BlockToProveRes := λ data,
  if bool_decide (rq_name r = "")%string then Val (Err "empty name", data)
  else
    let '(ret, jobs) := prover_run_for_next_commit (rq_name r) (as_prover_timeout data) (rq_block_size r) (as_db data) (as_jobs data) in
    let data := set_jobs jobs data in
    match ret with
    | Some prover_run => Val (Ok (mkBlockToProveRes (run_id prover_run) (run_block_number prover_run)), data)
    | None => Val (Ok (mkBlockToProveRes 0 0), data)
    end.

Definition prover_data (block : Z) : Exec AppState (option ProverData) := gets (λ data, pool_get block (as_preparing_data_pool data)).

Definition working_on (prover_run_id : Z) : Exec AppState unit :=
  update (λ data, Val (set_jobs (record_prover_is_working prover_run_id (as_jobs data)) data)).

Definition publish (r : PublishReq) : Exec AppState unit := λ data,
  match store_proof (pub_block r) (pub_proof r) (as_db data) with
  | Val (Ok db) =>
      Val (Ok tt, mkAppState db (as_jobs data) (clean_up (pub_block r) (as_preparing_data_pool data)) (as_prover_timeout data))
  | Val (Err _) => Val (Err "duplicate key", data)
  | Panic msg => Panic msg
  end.

Definition stopped (prover_id : Z) : Exec AppState unit :=
  update (λ data, Val (set_jobs (record_prover_stop prover_id (as_jobs data)) data)).
End Pool.
