(* ===== verification/BlockWitness.v ===== *)
(** * The witness of a block

    For a block of the state keeper the builder succeeds: the operations are exactly
    as many as the block has chunks, carry the public data of the block, and roll the
    root from the root before the block to the root that the block claims. *)

From S2P Require Import Prelude Bytes Params Externals Primitives Amounts Account Tx Operations Block Merkle ParallelSmt.
From S2P Require Import ParallelSmtProofs EthStorage Storage AccountLeaf PlasmaState PlasmaProofs StateKeeper StateKeeperProofs ExecLogic.
From S2P Require Import BlockStorage CircuitTree Witness WitnessOps WitnessProofs WitnessLedger WitnessFollows ProverPool.
Open Scope Z_scope.

Section Carries.
  Context `{EX : External} `{EXL : !ExternalLaws}.

(** Operation [i] carries chunk [i] of the public data. *)
Record carries (bits : list bool) (ops : list CircuitOperation) : Prop := {
  ca_length : length bits = (64 * length ops)%nat;
  ca_chunk i op : ops !! i = Some op → pubdata_chunk op = Some (chunk_value bits i);
}.

Lemma carries_nil : carries [] [].
Proof. by split. Qed.

Lemma chunk_value_app_l bits bits' n i :
  length bits = (64 * n)%nat → (i < n)%nat → chunk_value (bits ++ bits') i = chunk_value bits i.
Proof.
  intros Hl Hi. unfold chunk_value. rewrite drop_app_le by lia. by rewrite take_app_le by (rewrite length_drop; lia).
Qed.
Lemma chunk_value_app_r bits bits' n i :
  length bits = (64 * n)%nat → chunk_value (bits ++ bits') (n + i) = chunk_value bits' i.
Proof. intros Hl. unfold chunk_value. rewrite drop_app_ge by lia. by replace (64 * (n + i) - length bits)%nat with (64 * i)%nat by lia. Qed.

Lemma carries_app bits ops bits' ops' : carries bits ops → carries bits' ops' → carries (bits ++ bits') (ops ++ ops').
Proof.
  intros [L1 C1] [L2 C2]. split; [rewrite !length_app; lia|]. intros i op [Hi|[Hge Hi]]%lookup_app_Some.
  - rewrite (chunk_value_app_l _ _ (length ops)) by (done || by eapply lookup_lt_Some). by apply C1.
  - replace i with (length ops + (i - length ops))%nat by lia. rewrite chunk_value_app_r by done. by apply C2.
Qed.

Lemma ops_ok_carries root root' code bits ops : ops_ok root root' code bits ops → carries bits ops.
Proof. intros [H1 H2 _]. split; [done|]. intros i op Hi. by apply H2. Qed.

(** The public data of a list of operations, as the witnesses lay them out. *)
Fixpoint circuit_data (ops : list FranklinOp) : outcome bytes :=
  match ops with
  | [] => Val []
  | op :: ops => d ← pubdata_layout op; ds ← circuit_data ops; Val (d ++ ds)
  end.

Lemma circuit_data_snoc ops op d1 d2 :
  circuit_data ops = Val d1 → pubdata_layout op = Val d2 → circuit_data (ops ++ [op]) = Val (d1 ++ d2).
Proof.
  revert d1. induction ops as [|o ops IH]; intros d1 H1 H2; cbn in *.
  - injection H1 as <-. rewrite H2. cbn. by rewrite app_nil_r.
  - destruct (pubdata_layout o) as [d|]; [|done]. cbn in *. destruct (circuit_data ops) as [ds|]; [|done]. cbn in *.
    injection H1 as <-. rewrite (IH ds) by done. cbn. by rewrite app_assoc.
Qed.

(** *** The public data are bytes *)

Lemma vec_resize_bytes n l : Forall is_byte l → Forall is_byte (vec_resize n 0 l).
Proof.
  intros Hl. unfold vec_resize. apply Forall_app_2; [by apply Forall_take|]. apply Forall_replicate. unfold is_byte. lia.
Qed.

Lemma pack_fee_bytes fee data : pack_fee_amount fee = Val data → Forall is_byte data.
Proof.
  unfold pack_fee_amount, pack_as_float, pack_bits_into_bytes_in_order. destruct (big_decimal_to_u128 fee) as [n|]; [|done].
  cbn [mbind outcome_bind]. destruct (convert_to_float _ _ _ _) as [bits|]; [|done]. cbn [mbind outcome_bind].
  destruct (length (reverse bits) `mod` 8 =? 0)%nat eqn:E; [|done]. cbn [assert_that mbind outcome_bind]. intros [= <-].
  apply Nat.eqb_eq, mod_0_mult in E as [k Hk]; [|lia]. by apply (pack_in_order_bytes k).
Qed.

Lemma code_byte c l : 0 ≤ c < 256 → Forall is_byte l → Forall is_byte ([c] ++ l).
Proof. intros Hc Hl. by constructor. Qed.

Lemma circuit_data_bytes op data : op_provable op → pubdata_layout op = Val data → Forall is_byte data.
Proof.
  intros [Hwf Hx] H.
  assert (∀ n z, Forall is_byte (to_be_bytes n z)) as Hb by (intros; apply to_be_bytes_array).
  assert (∀ n z, Forall is_byte (drop 1 (to_be_bytes n z))) as Hd by (intros; apply Forall_drop, to_be_bytes_array).
  destruct op as [|[d id]|[tx k j]|[tx id]|[tx id]|[tx k j]|[e]|[tx id]]; cbn [FranklinOp_wf] in Hwf;
    cbn [pubdata_layout] in H; try done;
    try (apply outcome_bind_Val in H as (fee & Hfee%pack_fee_bytes & H)); injection H as <-; first [by apply Forall_nil_2 | apply vec_resize_bytes]; cbn [app]; destruct_and?;
    repeat first [ assumption | apply Hb | apply Hd | apply Forall_nil_2 | apply Forall_app_2
                 | apply Forall_cons_2; [first [by cbv | by apply Z.mod_pos_bound]|]
                 | match goal with H : is_array _ ?l |- Forall is_byte ?l => apply H end ].
Qed.

(** ** Signatures *)

Lemma generate_sig_witness_ok bits :
  (length bits < MAX_CIRCUIT_MSG_HASH_BITS)%nat → ∃ m, generate_sig_witness bits = Val m.
Proof.
  intros Hl. unfold generate_sig_witness. rewrite (proj2 (Nat.ltb_lt _ _)) by done. cbn [assert_that mbind outcome_bind].
  set (padded := vec_resize _ _ _). assert (length padded = 736%nat) as Hp by apply vec_resize_length.
  unfold split_at. rewrite (decide_True (P := (Fr_CAPACITY ≤ length padded)%nat)) by (rewrite Hp; cbv; lia). cbn [mbind outcome_bind snd].
  rewrite (decide_True (P := (Fr_CAPACITY ≤ length (drop Fr_CAPACITY padded))%nat)) by (rewrite length_drop, Hp; cbv; lia).
  by eexists.
Qed.

Lemma sig_input_ok sig tx_bytes :
  (length tx_bytes < 92)%nat → ∃ input, SigDataInput_from_signature sig tx_bytes = Val (Ok input).
Proof.
  intros Hl. unfold SigDataInput_from_signature, SigDataInput_new.
  destruct (sig_write_array (sig_signature sig)) as (sb & -> & Hs & _). destruct (pk_write_array (sig_pub_key sig)) as (pb & -> & _).
  unfold split_at. cbn [unwrap lift_outcome mbind fallible_bind ok_or]. rewrite decide_True by lia. cbn [lift_outcome mbind fallible_bind].
  destruct (generate_sig_witness_ok (bytes_into_be_bits tx_bytes)) as [[[x y] z] ->].
  { rewrite bytes_into_be_bits_length. unfold MAX_CIRCUIT_MSG_HASH_BITS. lia. }
  by eexists.
Qed.
End Carries.

(** ** Collecting the operations *)
Section Collect.
  Context `{C : Codec} `{EXL : !ExternalLaws}.
  Implicit Types (m : AccountMap) (b : WitnessBuilder).

Record collected_ok m m' (ops : list FranklinOp) (acc : Collected) : Prop := {
  ck_data : ∃ data, circuit_data ops = Val data ∧ Forall is_byte data ∧ co_pub_data acc = bytes_into_be_bits data;
  ck_carries : carries (co_pub_data acc) (co_operations acc);
  ck_rolls : rolls (ledger_root m) (co_operations acc) (ledger_root m');
  ck_length : length (co_operations acc) = sum_chunks ops;
  ck_fees : Forall (λ f, ∃ n, bd_holds (cf_amount f) n) (co_fees acc);
}.

Lemma collect_runs {Op} `{W : !WitnessOf Op} (inj : Op → FranklinOp) code `{F : !FollowsLedger Op inj code}
    (op : Op) (input : Fallible CalculateOpsInput) fees acc b m0 m us m' ops :
  mirrors (wb_account_tree b) m → provable_from 1 m → op_provable (inj op) →
  ledger_step m (inj op) us m' → op_addressed m (inj op) → op_token_ok (inj op) →
  (∃ i, input = Val (Ok i)) → Forall (λ f, ∃ n, bd_holds (cf_amount f) n) fees →
  collected_ok m0 m ops acc →
  runs (collect op input fees acc) b
    (λ acc' b', ∃ t', b' = wb_set_tree t' b ∧ mirrors t' m' ∧ collected_ok m0 m' (ops ++ [inj op]) acc').
Proof.
  intros Hm Hp Hop Hstep Haddr Htok [i ->] Hfees Hacc. unfold collect. apply runs_bind, runs_zoom.
  eapply runs_mono; [by eapply (follows_ledger (wb_account_tree b) m op us m')|]. intros w t' (Hm' & data & Ed & Hlen & Hpd & Hops).
  destruct (Hops i) as (cops & Eops & Hok). apply runs_bind. exists i, (wb_set_tree t' b). split; [reflexivity|].
  apply runs_bind. eapply runs_total; [exact Eops|]. apply runs_bind. eapply runs_total; [exact Hpd|].
  apply runs_ret. exists t'. split; [reflexivity|]. split; [exact Hm'|]. destruct Hacc as [(d0 & E0 & Hb0 & Epd) Hc Hr Hl Hf].
  split; cbn [co_operations co_pub_data co_fees].
  - exists (d0 ++ data). split; [by apply circuit_data_snoc|]. split; [|by rewrite Epd, be_bits_app].
    apply Forall_app_2; [done|]. by eapply circuit_data_bytes.
  - by eapply carries_app, ops_ok_carries.
  - eapply rolls_app; [done|apply Hok].
  - rewrite length_app, Hl. unfold sum_chunks. rewrite fmap_app, sum_list_with_app.
    pose proof (oo_length _ _ _ _ _ Hok) as HL. rewrite bytes_into_be_bits_length, Hlen in HL. cbn. lia.
  - by apply Forall_app_2.
Qed.

Lemma fee_packable_holds fee : fee_packable fee → ∃ n, bd_holds fee n.
Proof. intros (n & Hn & _). by exists n. Qed.

Lemma transfer_input_ok tx : transfer_sized tx → (length (Transfer_get_bytes tx) < 92)%nat.
Proof.
  intros [H1 H2]. unfold Transfer_get_bytes. rewrite !length_app, length_drop, !to_be_bytes_length, H1, H2. cbn. lia.
Qed.

(** One round of the loop follows a step of the ledger. *)
Lemma collect_op_runs op acc b m0 m us m' ops :
  mirrors (wb_account_tree b) m → provable_from 1 m → op_provable op →
  ledger_step m op us m' → op_addressed m op → op_token_ok op → collected_ok m0 m ops acc →
  runs (collect_op op acc) b (λ acc' b', ∃ t', b' = wb_set_tree t' b ∧ mirrors t' m' ∧ collected_ok m0 m' (ops ++ [op]) acc').
Proof.
  intros Hm Hp Hop Hstep Haddr Htok Hacc.
  destruct op as [|op|op|op|op|op|op|op]; cbn [collect_op]; [by inversion Hstep|..|by destruct Hop|].
  - eapply (collect_runs OpDeposit 1 (F := deposit_follows)); try eassumption; [by exists tt|constructor].
  - eapply (collect_runs OpTransferToNew 2 (F := transfer_to_new_follows)); try eassumption; destruct Hop as [Hwf [Hfee Hs]]; [by apply sig_input_ok, transfer_input_ok|].
    constructor; [by apply fee_packable_holds|done].
  - eapply (collect_runs OpWithdraw 3 (F := withdraw_follows)); try eassumption; destruct op as [tx id], Hop as [Hwf [H1 H2]].
    + apply sig_input_ok. cbn in H1, H2. unfold Withdraw_get_bytes. cbn [wdo_tx].
      rewrite !length_app, length_drop, !to_be_bytes_length, H1, H2. cbn. lia.
    + constructor; [by apply fee_packable_holds, Hwf|done].
  - by inversion Hstep.
  - eapply (collect_runs OpTransfer 5 (F := transfer_follows)); try eassumption; destruct op as [tx k j], Hop as [Hwf Hs]; [by apply sig_input_ok, transfer_input_ok|].
    constructor; [by apply fee_packable_holds, Hwf|done].
  - eapply (collect_runs OpChangePubKeyOffchain 7 (F := change_pubkey_follows)); try eassumption; [by exists tt|constructor].
Qed.

Lemma collect_ops_app ops ops' acc b Q :
  runs (collect_ops ops acc) b (λ acc b, runs (collect_ops ops' acc) b Q) → runs (collect_ops (ops ++ ops') acc) b Q.
Proof.
  revert acc b. induction ops as [|op ops IH]; intros acc b (acc' & b' & E & H); cbn [collect_ops app].
  - injection E as <- <-. exact H.
  - cbn [collect_ops] in E. apply exec_bind_Ok in E as (acc1 & b1 & E1 & E2). apply runs_bind. exists acc1, b1. split; [done|].
    apply IH. by exists acc', b'.
Qed.

(** The loop follows a run of the ledger. *)
Lemma collect_ops_runs ops us m m' n b :
  ledger_run m ops us m' → mirrors (wb_account_tree b) m → 0 ≤ n → provable_from (n + Z.of_nat (length ops)) m →
  Forall op_provable ops →
  runs (collect_ops ops (mkCollected [] [] [])) b
    (λ acc b', ∃ t', b' = wb_set_tree t' b ∧ mirrors t' m' ∧ collected_ok m m' ops acc) ∧ provable_from n m'.
Proof.
  intros Hrun Hm. revert n. induction Hrun as [|ops us m1 op us1 m2 Hrun IH Hstep Haddr Htok]; intros n Hn Hp Hops.
  { replace (n + Z.of_nat (length [])) with n in Hp by (cbn; lia). split; [|done]. apply runs_ret. exists (wb_account_tree b).
    split; [by destruct b|]. split; [done|]. split; cbn [co_pub_data co_operations co_fees]; [by exists []|apply carries_nil|done..]. }
  apply Forall_app in Hops as [Hops Hop]. apply Forall_cons in Hop as [Hop _]. rewrite length_app in Hp. cbn [length] in Hp.
  destruct (IH (n + 1)) as [Hr Hp1]; [lia| |done|].
  { by replace (n + 1 + Z.of_nat (length ops)) with (n + Z.of_nat (length ops + 1)) by lia. }
  split; [|by eapply provable_step]. apply collect_ops_app. eapply runs_mono; [exact Hr|]. intros acc b1 (t1 & -> & Hm1 & Hacc).
  cbn [collect_ops]. apply runs_bind. eapply runs_mono; [eapply (collect_op_runs op acc (wb_set_tree t1 b) m m1); try done|].
  { destruct Hp1 as [Hr1 Hl1 Hd1 Hn1]. split; [done..|]. intros id a Ha. destruct (Hn1 id a Ha). lia. }
  intros acc' b' (t' & -> & Hm' & Hacc'). apply runs_ret. by exists t'.
Qed.
End Collect.

(** ** Noops, fees and the prover data *)
Section Build.
  Context `{C : Codec} `{EXL : !ExternalLaws} (now : Z).
  Implicit Types (m : AccountMap) (b : WitnessBuilder) (t : CircuitAccountTree).

Definition noop_op m (k : Z) : CircuitOperation :=
  chunk_op (replicate 64 false) no_signature noop_args (Some (fr_of_uint 0)) (Some (ledger_root m)) 0 (branch_of m k 0) (branch_of m k 0).

Lemma token_0_ok : token_ok 0.
Proof. by apply token_ok_range. Qed.

Lemma noop_operation_runs t m k :
  mirrors t m → leaves_ok m → is_Some (m !! k) →
  runs (noop_operation k) t (λ op t', op = noop_op m k ∧ mirrors t' m).
Proof.
  intros Hm Hok Hk. pose proof (mirrors_leaf_ok _ _ _ Hm Hk) as Hleaf. unfold noop_operation. apply runs_bind, runs_gets.
  destruct (mi_present _ _ Hm k Hk) as [ca Hca]. unfold smt_get. rewrite Hca. apply runs_bind. eapply runs_total; [reflexivity|].
  pose proof (mi_like _ _ Hm k) as Hl. unfold leaf_at in Hl. rewrite Hca in Hl. change (account_like ca (account_at m k)) in Hl.
  apply runs_bind. eapply runs_mono; [apply (get_audits_runs t m k 0 Hm Hok Hleaf token_0_ok)|]. intros p t1 (-> & Hm1 & _).
  apply runs_bind. eapply runs_mono; [by apply (root_hash_runs t1 m)|]. intros h t2 (-> & Hm2 & _).
  eapply runs_total; [apply (chunk_operation_Val (replicate 64 false) 1); [done|lia]|]. split; [|done].
  by rewrite (witness_of_like _ _ Hl).
Qed.

Lemma noop_op_ok m k :
  leaves_ok m → leaf_ok account_tree_depth k →
  selected_opens (ledger_root m) (noop_op m k) ∧ new_root (noop_op m k) = Some (ledger_root m) ∧
  pubdata_chunk (noop_op m k) = Some (chunk_value (replicate 64 false) 0).
Proof.
  intros Hok Hk. split; [|done]. eexists _, _, _, _. split; [apply select_first|]. apply branch_of_opens; [done..|apply token_0_ok].
Qed.

(** What the builder holds after the operations were added. *)
Record extended m m' (data : bytes) (ops : list CircuitOperation) (bits : list bool) : Prop := {
  ex_bits : bits = bytes_into_be_bits data;
  ex_carries : carries bits ops;
  ex_rolls : rolls (ledger_root m) ops (ledger_root m');
}.

Lemma wb_extend_nil b : b = wb_extend [] [] (wb_set_tree (wb_account_tree b) b).
Proof. destruct b as [t f n r ops data x1 x2 x3 x4 x5 x6]. unfold wb_extend, wb_set_tree. simpl. f_equal; by rewrite app_nil_r. Qed.

Lemma wb_extend_extend b t t' ops ops' data data' :
  wb_extend ops' data' (wb_set_tree t' (wb_extend ops data (wb_set_tree t b))) = wb_extend (ops ++ ops') (data ++ data') (wb_set_tree t' b).
Proof. unfold wb_extend, wb_set_tree. simpl. by rewrite <- !app_assoc. Qed.

Lemma noops_run n : ∀ b m m' data,
  mirrors (wb_account_tree b) m' → leaves_ok m' → is_Some (m' !! wb_fee_account_id b) →
  extended m m' data (wb_operations b) (wb_pubdata b) →
  runs (times n (fee_account_id ← gets wb_fee_account_id; op ← on_tree (noop_operation fee_account_id);
                 update (λ b, Val (wb_extend [op] (replicate 64 false) b)))) b
    (λ _ b', ∃ t' ops, b' = wb_extend ops (replicate (64 * n) false) (wb_set_tree t' b) ∧ length ops = n ∧ mirrors t' m' ∧
       extended m m' (data ++ replicate (8 * n) 0) (wb_operations b') (wb_pubdata b')).
Proof.
  induction n as [|n IH]; intros b m m' data Hm Hok Hfee Hex; cbn [times].
  { apply runs_ret. exists (wb_account_tree b), []. split; [exact (wb_extend_nil b)|].
    split; [done|]. split; [done|]. cbn [Nat.mul replicate]. by rewrite app_nil_r. }
  apply runs_bind, runs_bind, runs_gets, runs_bind, runs_zoom. eapply runs_mono; [by apply (noop_operation_runs _ m')|].
  intros op t1 [-> Hm1]. eapply runs_update; [reflexivity|]. set (b1 := wb_extend _ _ _).
  destruct (noop_op_ok m' (wb_fee_account_id b) Hok (mirrors_leaf_ok _ _ _ Hm Hfee)) as (Hs & Hn & Hp). destruct Hex as [E Hc Hr].
  eapply runs_mono; [apply (IH b1 m m' (data ++ replicate 8 0)); [done..|]|].
  { split; cbn [b1 wb_extend wb_set_tree wb_operations wb_pubdata].
    - by rewrite E, be_bits_app, be_bits_zeros.
    - apply carries_app; [done|]. split; [done|]. intros [|i] o Hi; [by injection Hi as <-|done].
    - eapply rolls_app; [done|]. split; [done|]. by exists (ledger_root m'). }
  intros _ b' (t' & ops & -> & Hl & Hm' & Hex'). exists t', (noop_op m' (wb_fee_account_id b) :: ops). split.
  { subst b1. rewrite wb_extend_extend. replace (64 * S n)%nat with (64 + 64 * n)%nat by lia. by rewrite replicate_add. }
  split; [by cbn; rewrite Hl|]. split; [done|]. replace (8 * S n)%nat with (8 + 8 * n)%nat by lia.
  rewrite replicate_add, app_assoc. exact Hex'.
Qed.

Lemma apply_fees_run fees : ∀ t m k last,
  mirrors t m → leaves_ok m → is_Some (m !! k) → Forall (λ f, ∃ n, bd_holds (cf_amount f) n) fees →
  last = (ledger_root m, witness_of (account_at m k)) →
  runs (apply_fees k last fees) t (λ p t', p = (ledger_root m, witness_of (account_at m k)) ∧ mirrors t' m).
Proof.
  induction fees as [|f fees IH]; intros t m k last Hm Hok Hk Hf Hlast; cbn [apply_fees]; [by apply runs_ret|].
  apply Forall_cons in Hf as [[n Hn] Hf]. apply runs_bind. eapply runs_total; [by apply big_decimal_to_u128_holds|].
  apply runs_bind. eapply runs_mono; [by apply (apply_fee_runs t m)|]. intros p t1 [-> Hm1]. by apply IH.
Qed.

Lemma collect_fees_run fees b m :
  mirrors (wb_account_tree b) m → leaves_ok m → is_Some (m !! wb_fee_account_id b) →
  Forall (λ f, ∃ n, bd_holds (cf_amount f) n) fees →
  runs (collect_fees fees) b (λ _ b', ∃ t', mirrors t' m ∧
    b' = wb_set_fees (ledger_root m) (ledger_root m) [] (witness_of (account_at m (wb_fee_account_id b))) (wb_set_tree t' b)).
Proof.
  intros Hm Hok Hk Hf. unfold collect_fees. apply runs_bind, runs_zoom. eapply runs_mono; [by apply root_hash_runs|].
  intros h t1 (-> & Hm1 & _). apply runs_bind, runs_gets. cbn [wb_fee_account_id wb_set_tree].
  apply runs_bind, runs_zoom. eapply runs_mono; [by apply (apply_fee_runs t1 m)|]. intros p t2 [-> Hm2].
  apply runs_bind, runs_zoom. eapply runs_mono; [by apply (apply_fees_run fees t2 m)|]. intros p t3 [-> Hm3].
  apply runs_bind, runs_zoom. eapply runs_mono; [by apply (root_hash_runs t3 m)|]. intros h t4 (-> & Hm4 & _).
  apply runs_bind, runs_zoom. eapply runs_mono; [by apply (root_hash_runs t4 m)|]. intros h t5 (-> & Hm5 & _).
  eapply runs_update; [reflexivity|]. by exists t5.
Qed.

Lemma calculate_pubdata_commitment_run b m old new data :
  mirrors (wb_account_tree b) m → leaves_ok m → is_Some (m !! wb_fee_account_id b) →
  wb_root_after_fees b = Some new → wb_initial_root_hash b = old → wb_pubdata b = bytes_into_be_bits data →
  Forall is_byte data → fits 32 (wb_fee_account_id b) → fits 32 (wb_block_number b) →
  runs calculate_pubdata_commitment b (λ _ b', ∃ t', mirrors t' m ∧
    b' = wb_set_commitment (account_audit m (wb_fee_account_id b))
           (fr_of_uint (commitment_of data old new (wb_fee_account_id b) (wb_block_number b))) (wb_set_tree t' b)).
Proof.
  intros Hm Hok Hk Hnew Hold Hdata Hb Hf Hn. pose proof (mirrors_leaf_ok _ _ _ Hm Hk) as Hleaf.
  unfold calculate_pubdata_commitment. apply runs_bind, runs_gets, runs_bind, runs_zoom.
  eapply runs_mono; [by apply (get_audits_runs _ m _ 0 Hm Hok Hleaf token_0_ok)|]. intros p t' (-> & Hm' & _).
  apply runs_bind, runs_gets. unfold id. apply runs_bind. eapply runs_total.
  { change (wb_root_after_fees (wb_set_tree t' b)) with (wb_root_after_fees b). rewrite Hnew. reflexivity. }
  apply runs_bind. eapply runs_total.
  { change (wb_pubdata (wb_set_tree t' b)) with (wb_pubdata b).
    change (wb_initial_root_hash (wb_set_tree t' b)) with (wb_initial_root_hash b). rewrite Hdata, Hold.
    apply (public_data_commitment_spec data old new (wb_fee_account_id b) (wb_block_number b) Hb Hf Hn). }
  eapply runs_update; [reflexivity|]. by exists t'.
Qed.

(** The public data of a block: that of its operations, filled with noops. *)
Definition padded (size : nat) (data : bytes) : bytes := data ++ replicate (8 * size - length data) 0.

(** What the prover data of a block prove. *)
Record block_witnessed m m' (block : Block) (data : bytes) (pd : ProverData) : Prop := {
  bw_old_root : pd_old_root pd = ledger_root m;
  bw_new_root : pd_new_root pd = ledger_root m';
  bw_length : length (pd_operations pd) = block_chunks_size block;
  bw_carries : carries (bytes_into_be_bits data) (pd_operations pd);
  bw_rolls : rolls (pd_old_root pd) (pd_operations pd) (pd_new_root pd);
  bw_commitment : pd_public_data_commitment pd =
    fr_of_uint (commitment_of data (ledger_root m) (ledger_root m') (fee_account block) (block_number block));
  bw_validator : pd_validator_address pd = fr_of_uint (fee_account block) ∧
    pd_validator_account pd = witness_of (account_at m' (fee_account block));
}.

(** A block that the maintainer can build prover data for. *)
Record block_provable m m' (ops : list FranklinOp) us (block : Block) : Prop := {
  bp_run : ledger_run m ops us m';
  bp_from : provable_from (Z.of_nat (length ops)) m;
  bp_ops : Forall op_provable ops;
  bp_size : (sum_chunks ops ≤ block_chunks_size block)%nat;
  bp_root : new_root_hash block = ledger_root m';
  bp_fee : is_Some (m' !! fee_account block);
  bp_number : fits 32 (block_number block);
}.

Lemma fee_account_fits t m k : mirrors t m → is_Some (m !! k) → fits 32 k.
Proof.
  intros Hm Hk. pose proof (mirrors_leaf_ok _ _ _ Hm Hk) as Hleaf. unfold leaf_ok in Hleaf. unfold fits.
  assert (2 ^ Z.of_nat account_tree_depth ≤ 2 ^ 32) by (by vm_compute). lia.
Qed.

Lemma build_witness_runs t m m' ops us block :
  block_provable m m' ops us block → mirrors t m →
  ∃ data, circuit_data ops = Val data ∧
    runs (build_witness ops block)
      (mkWitnessBuilder t (fee_account block) (block_number block) (ledger_root m) [] [] None None None None None None)
      (λ pd b', mirrors (wb_account_tree b') m' ∧ block_witnessed m m' block (padded (block_chunks_size block) data) pd).
Proof.
  intros [Hrun Hp Hops Hsize Hroot Hfee Hnum] Hm. set (b := mkWitnessBuilder _ _ _ _ _ _ _ _ _ _ _ _).
  destruct (collect_ops_runs ops us m m' 0 b Hrun Hm (Z.le_refl 0) Hp Hops) as [Hcollect Hp'].
  destruct Hcollect as (acc & b1 & E1 & t1 & -> & Hm1 & [(data & Edata & Hbytes & Epd) Hcar Hrolls Hlen Hfees]).
  pose proof (pf_leaves _ _ Hp') as Hok. pose proof (fee_account_fits _ _ _ Hm1 Hfee) as Hfits.
  exists data. split; [done|]. set (size := block_chunks_size block) in *. unfold build_witness. fold size.
  apply runs_bind. exists acc, (wb_set_tree t1 b). split; [exact E1|]. apply runs_bind. eapply runs_update; [reflexivity|].
  set (b2 := wb_extend _ _ _). assert (extended m m' data (wb_operations b2) (wb_pubdata b2)) as Hex by done.
  assert (length data = 8 * length (co_operations acc))%nat as Hdl.
  { pose proof (ca_length _ _ Hcar) as HL. rewrite Epd, bytes_into_be_bits_length in HL. lia. }
  apply runs_bind. unfold extend_pubdata_with_noops. apply runs_bind, runs_gets.
  assert (length (wb_operations b2) = sum_chunks ops) as -> by exact Hlen.
  apply runs_bind. eapply runs_total; [rewrite (proj2 (Nat.leb_le _ _)) by exact Hsize; reflexivity|].
  eapply runs_mono; [by apply (noops_run (size - sum_chunks ops) b2 m m' data)|]. intros _ b3 (t3 & nops & -> & Hnl & Hm3 & Hex3).
  replace (8 * (size - sum_chunks ops))%nat with (8 * size - length data)%nat in Hex3 by lia. fold (padded size data) in Hex3.
  set (b3 := wb_extend nops _ _) in *. apply runs_bind, runs_gets.
  assert (length (wb_operations b3) = size) as Hl3 by (change (length (co_operations acc ++ nops) = size); rewrite length_app; lia).
  assert (length (wb_pubdata b3) = 64 * size)%nat as Hl3' by (by rewrite (ca_length _ _ (ex_carries _ _ _ _ _ Hex3)), Hl3).
  unfold id. rewrite Hl3, Hl3', !Nat.eqb_refl. do 2 (apply runs_bind; eapply runs_total; [reflexivity|]).
  apply runs_bind. eapply runs_mono; [by apply (collect_fees_run (co_fees acc) b3 m')|]. intros _ b4 (t4 & Hm4 & ->).
  set (b4 := wb_set_fees _ _ _ _ _). apply runs_bind, runs_gets. unfold id. apply runs_bind. eapply runs_total; [reflexivity|].
  apply runs_bind. eapply runs_total; [rewrite Hroot, fr_eqb_refl; reflexivity|].
  assert (Forall is_byte (padded size data)) as Hpad.
  { apply Forall_app_2; [done|]. apply Forall_replicate. by split. }
  apply runs_bind. eapply runs_mono.
  { apply (calculate_pubdata_commitment_run b4 m' (ledger_root m) (ledger_root m') (padded size data)); try done. apply Hex3. }
  intros _ b5 (t5 & Hm5 & ->). apply runs_bind, runs_gets. unfold id.
  do 2 (apply runs_bind; eapply runs_total; [reflexivity|]). apply runs_ret. split; [exact Hm5|].
  destruct Hex3 as [Eb Hc3 Hr3]. split; [done|exact Hroot|exact Hl3|by rewrite <- Eb| |done|done].
  rewrite Hroot in *. exact Hr3.
Qed.
End Build.

Section BuildProverData.
  Context `{C : Codec} `{EXL : !ExternalLaws} (now : Z).

(** The maintainer's builder on the stored operations of a block. *)
Lemma build_prover_data_runs t m m' ops us storage op :
  block_provable m m' ops us (op_block op) → mirrors t m →
  get_block_operations now (block_number (op_block op)) storage = Val ops →
  ∃ data, circuit_data ops = Val data ∧
    runs (build_prover_data now storage op) t (λ pd t', mirrors t' m' ∧
      block_witnessed m m' (op_block op) (padded (block_chunks_size (op_block op)) data) pd).
Proof.
  intros Hb Hm Hops. destruct (root_hash_runs t m Hm (pf_leaves _ _ (bp_from _ _ _ _ _ Hb))) as (h & t1 & E & -> & Hm1 & _).
  destruct (build_witness_runs t1 m m' ops us (op_block op) Hb Hm1) as (data & Edata & pd & b' & Erun & Hpd).
  exists data. split; [done|]. exists pd, (wb_account_tree b'). split; [|exact Hpd].
  unfold root_hash, method in E. unfold build_prover_data, WitnessBuilder_new.
  destruct (smt_root_hash t) as [[h t0]|]; [|done]. injection E as -> ->. cbn [mbind outcome_bind]. by rewrite Hops, Erun.
Qed.
End BuildProverData.
