(* ===== verification/ProverPoolProofs.v ===== *)
(** * What the prover server does with the committed blocks

    The maintainer loads the committed blocks in their order and prepares the data of
    each; a block that the committer has skipped, or one with a full exit, stops it.
    A prover is given the least block that has no proof and no live job, but two provers
    that ask at the same time are given the same one. *)

From S2P Require Import Prelude Bytes Params Externals Primitives Amounts Account Tx Operations Block Merkle ParallelSmt.
From S2P Require Import AccountLeaf PlasmaState PlasmaProofs StateKeeper StateKeeperProofs EthStorage ExecLogic SenderRecovery Storage.
From S2P Require Import StorageProofs BlockStorage BlockStorageProofs Committer DataRestore CircuitTree Witness WitnessOps.
From S2P Require Import WitnessProofs WitnessLedger WitnessFollows ProverPool BlockWitness.
Open Scope Z_scope.

(** ** Operations as they are read back *)
Section Serde.
  Context `{EX : External} {EXL : ExternalLaws}.

Lemma serde_step m op us m' : ledger_step m op us m' → ledger_step m (serde_op op) us m'.
Proof.
  intros H. destruct H as [| |tx from to a|tx from to a b|tx from a|tx id a| |] eqn:E; cbn [serde_op]; try exact H.
  - by apply (LTransferToNew m (Transfer_serde tx)).
  - by apply (LTransfer m (Transfer_serde tx)).
  - by apply (LTransferSelf m (Transfer_serde tx)).
  - by apply (LWithdraw m (Withdraw_serde tx)).
Qed.

Lemma serde_run m ops us m' : ledger_run m ops us m' → ledger_run m (serde_op <$> ops) us m'.
Proof.
  induction 1 as [|ops us m1 op us1 m2 _ IH Hstep Ha Ht]; [constructor|]. rewrite fmap_app.
  eapply run_snoc; [done|by apply serde_step|..]; by destruct op as [|[]|[]|[]|[]|[]|[]|[]].
Qed.

Lemma fee_packable_zero : fee_packable (u128_to_bigdecimal 0).
Proof.
  exists 0. split; [apply bd_of_u128_holds; by split|]. exists 0, 0. by repeat split.
Qed.
Lemma serde_provable op : op_provable op → op_provable (serde_op op).
Proof.
  pose proof fee_packable_zero. destruct op as [|[]|[]|[]|[]|[]|[]|[]]; try done; intros [Hwf Hp]; cbn in *; split; cbn; destruct_and?; done.
Qed.
Lemma serde_chunks ops : sum_chunks (serde_op <$> ops) = sum_chunks ops.
Proof. induction ops as [|op ops IH]; [done|]. unfold sum_chunks in *. cbn. rewrite IH. by destruct op. Qed.
End Serde.

(** ** The committed blocks in the database *)
Section StoredBlocks.
  Context `{EX : External} {EXL : ExternalLaws} {C : Codec} {L : CodecLaws}.
  Context (now : Z).

Lemma block_ops_back db bl :
  Forall exec_fits (block_transactions bl) → exec_order (block_transactions bl) →
  block_rows now db (block_number bl) (block_transactions bl) →
  get_block_operations now (block_number bl) db = Val (serde_op <$> block_ops bl).
Proof.
  intros Hf Ho Hrows. unfold get_block_operations. rewrite (executed_ops_back _ _ _ _ Hrows Ho). f_equal.
  unfold block_ops. clear Ho Hrows. induction Hf as [|e l He _ IH]; [done|]. rewrite fmap_cons.
  destruct e as [tx|op]; cbn [stored_exec omap list_omap get_executed_op stored_tx et_op].
  - destruct (et_op tx) as [o|]; cbn [fmap option_fmap option_map]; [|exact IH]. rewrite fmap_cons. f_equal. exact IH.
  - rewrite fmap_cons. f_equal; [|exact IH]. destruct He as (_ & _ & _ & He). by destruct (epo_op op).
Qed.

Definition commit_rows (db : ChainDb) : list StoredOperation :=
  List.filter (λ o, bool_decide (so_action_type o = ActionType_to_string COMMIT)) (t_operations (cd_state db)).

(** Executing an operation appends its row. *)
Lemma execute_operation_row op db op' db' :
  execute_operation now op db = Val (Ok (op', db')) →
  (∀ x, match op_action op with
        | ACommit => (y ← on_state (StateSchema.commit_state_update (block_number (op_block op)) (op_accounts_updated op)) db; save_block (op_block op) y)
        | AVerify proof =>
           y ← match load_proof (block_number (op_block op)) db with
                | Val (Err e) => if bool_decide (e = "NotFound"%string) then store_proof (block_number (op_block op)) proof db else Val (Err e)
                | Val (Ok _) => Val (Ok db)
                | Panic msg => Panic msg
                end;
           on_state (StateSchema.apply_state_update (block_number (op_block op))) y
        end = Val (Ok x) → t_operations (cd_state x) = t_operations (cd_state db)) →
  ∃ o, t_operations (cd_state db') = t_operations (cd_state db) ++ [o] ∧ so_block_number o = block_number (op_block op) ∧
    so_action_type o = ActionType_to_string (get_type (op_action op)).
Proof.
  intros H Hx. unfold execute_operation in H. apply fallible_bind_Ok in H as (db1 & H1 & H).
  apply Hx in H1. destruct (store_operation _ _ db1) as [st db2] eqn:Est. cbn in Est. injection Est as Est Edb.
  apply fallible_bind_Ok in H as (o & _ & H). injection H as _ <-. rewrite <- Edb. cbn. rewrite H1. eexists. by split.
Qed.

(** The rows of the committed blocks are in the order of the blocks. *)
Lemma stored_commits db0 hist blocks c v db :
  stored_chain now db0 hist blocks c v db → t_operations (cd_state db0) = [] →
  so_block_number <$> commit_rows db = block_number <$> blocks ∧
  StronglySorted Z.lt (block_number <$> blocks) ∧ Forall (λ n, 0 < n ≤ c) (block_number <$> blocks).
Proof.
  intros H H0. induction H as [hist H|hist blocks c v db op op' db' H IH Ha Hb Hf H1 H2 H3 H4 Hrun
    |hist blocks c v db b txs db' H IH Hb Fb Ftx Hrun|hist blocks c v db op op' db' p bl H IH Ha Hbl En Hv Hg Hrun
    |hist blocks c v db n p db' H IH Hrun].
  - unfold commit_rows. rewrite H0. by repeat constructor.
  - destruct IH as (E & Hs & Hn). pose proof (stored_chain_ok _ _ _ _ _ _ _ H) as Hok.
    destruct (ck_stored _ _ _ _ _ _ Hok) as [ds Hst]. pose proof (ck_bounds _ _ _ _ _ _ Hok). pose proof Hf as (_ & _ & _ & _ & _ & Ft & _).
    destruct (execute_operation_row _ _ _ _ Hrun) as (o & Eo & Eb & Et).
    { intros x Hx. rewrite Ha in Hx. destruct (commit_tables now hist ds db (op_block op) (op_accounts_updated op) c Hst) as
        (ds' & db2 & E2 & _ & _ & _ & _ & R4 & _); [apply Hok|done..| |].
      - intros r Hr. rewrite (ck_blocks _ _ _ _ _ _ Hok) in Hr. apply list_elem_of_fmap in Hr as (y & -> & Hy).
        cbn. destruct (ck_rows _ _ _ _ _ _ Hok _ Hy) as (_ & ? & _). lia.
      - rewrite E2 in Hx. by injection Hx as <-. }
    split; [|split].
    + unfold commit_rows in *. rewrite Eo, List.filter_app, fmap_app, fmap_app, E. f_equal. rewrite Ha in Et.
      rewrite (filter_all _ [o]); [cbn; by rewrite Eb|]. intros x ->%list_elem_of_singleton. by apply bool_decide_eq_true.
    + rewrite fmap_app. apply sorted_snoc; [done|]. eapply Forall_impl; [exact Hn|]. cbn. lia.
    + rewrite fmap_app. apply Forall_app_2; [eapply Forall_impl; [exact Hn|]; cbn; lia|]. by repeat constructor; lia.
  - destruct IH as (E & Hs & Hn). destruct (save_transactions_rows now b txs db Ftx) as (db2 & E2 & rt & rp & _ & _ & T3 & _).
    rewrite Hrun in E2. injection E2 as <-. unfold commit_rows in *. rewrite T3. split; [done|]. split; [done|].
    eapply Forall_impl; [exact Hn|]. cbn. lia.
  - destruct IH as (E & Hs & Hn). pose proof (stored_chain_ok _ _ _ _ _ _ _ H) as Hok. destruct (ck_stored _ _ _ _ _ _ Hok) as [ds Hst].
    destruct (execute_operation_row _ _ _ _ Hrun) as (o & Eo & Eb & Et).
    { intros x Hx. rewrite Ha in Hx. destruct (find_or_store_proof _ _ _ _ _ _ (block_number (op_block op)) p Hok) as (q & db1 & E1 & _ & Est & _).
      rewrite E1 in Hx. clear E1. rewrite En in Hx. cbn [mbind fallible_bind] in Hx. unfold on_state in Hx. rewrite Est in Hx.
      destruct (apply_state_update_represents hist ds (cd_state db) v (block_number bl) Hst) as (st2 & E2 & (_ & _ & _ & _ & U5 & _) & _);
        [apply Hok|apply Hok|done|done|]. rewrite E2 in Hx. by injection Hx as <-. }
    unfold commit_rows in *. rewrite Eo, List.filter_app. rewrite Ha in Et. rewrite (filter_none _ [o]), app_nil_r; [done|].
    intros x ->%list_elem_of_singleton. rewrite Et. done.
  - destruct IH as (E & Hs & Hn). unfold store_proof in Hrun. destruct (existsb _ _); [done|]. by injection Hrun as <-.
Qed.

(** What the maintainer loads for a committed block. *)
Definition loaded (db : ChainDb) (bl : Block) (p : Operation * bool) : Prop :=
  op_block p.1 = stored_block now bl ∧ p.2 = existsb (λ r, pf_block_number r =? block_number bl) (cd_proofs db).

Definition blocks_after (n : Z) (blocks : list Block) : list Block := List.filter (λ bl, n <? block_number bl) blocks.

Lemma filter_and {A} (f g : A → bool) l : List.filter (λ x, f x && g x) l = List.filter g (List.filter f l).
Proof. induction l as [|x l IH]; [done|]. cbn. destruct (f x); cbn; [|done]. by rewrite IH. Qed.

Lemma Forall2_filter {A B} (P : A → B → Prop) (f : A → bool) (g : B → bool) l k :
  Forall2 P l k → (∀ x y, P x y → f x = g y) → Forall2 P (List.filter f l) (List.filter g k).
Proof.
  intros H Hfg. induction H as [|x y l k Hxy _ IH]; [constructor|]. cbn. rewrite (Hfg _ _ Hxy). destruct (g y); [by constructor|done].
Qed.

Lemma convert_all_Forall2 {A B D} (f : A → Fallible B) (P : D → B → Prop) l (k : list D) :
  Forall2 (λ x d, ∃ y, f x = Val (Ok y) ∧ P d y) l k → ∃ ys, convert_all f l = Val (Ok ys) ∧ Forall2 P k ys.
Proof.
  induction 1 as [|x d l k (y & Ey & Hy) _ (ys & E & Hys)]; [by exists []|]. exists (y :: ys). split; [|by constructor].
  cbn [convert_all]. rewrite Ey. cbn [mbind fallible_bind]. by rewrite E.
Qed.

Lemma commit_row_of db0 hist blocks c v db :
  stored_chain now db0 hist blocks c v db → t_operations (cd_state db0) = [] →
  Forall2 (λ o bl, so_block_number o = block_number bl ∧ so_action_type o = ActionType_to_string COMMIT ∧ bl ∈ blocks) (commit_rows db) blocks.
Proof.
  intros H H0. destruct (stored_commits _ _ _ _ _ _ H H0) as (E & _ & _).
  apply Forall2_same_length_lookup_2; [by rewrite <- (length_fmap so_block_number), E, length_fmap|].
  intros i o bl Ho Hbl. split; [|split; [|by eapply list_elem_of_lookup_2]].
  - assert ((so_block_number <$> commit_rows db) !! i = (block_number <$> blocks) !! i) as Ei by (by rewrite E).
    rewrite !list_lookup_fmap, Ho, Hbl in Ei. by injection Ei.
  - apply list_elem_of_lookup_2, list_elem_of_In, List.filter_In in Ho as [_ Ho]. by apply bool_decide_eq_true in Ho.
Qed.

(** The committed blocks after block [n] are loaded in order, up to the limit. *)
Lemma load_commits_back db0 hist blocks c v db n limit :
  stored_chain now db0 hist blocks c v db → t_operations (cd_state db0) = [] →
  ∃ l, load_commits_after_block now n limit db = Val (Ok l) ∧ Forall2 (loaded db) (take limit (blocks_after n blocks)) l.
Proof.
  intros H H0. pose proof (stored_chain_ok _ _ _ _ _ _ _ H) as Hok. destruct (ck_stored _ _ _ _ _ _ Hok) as [ds Hs].
  destruct (stored_commits _ _ _ _ _ _ H H0) as (E & Hsort & Hpos). pose proof (commit_row_of _ _ _ _ _ _ H H0) as HF.
  unfold load_commits_after_block. rewrite filter_and. change (List.filter _ (t_operations (cd_state db))) with (commit_rows db).
  rewrite order_by_sorted.
  - apply convert_all_Forall2, Forall2_take. eapply Forall2_impl; [eapply Forall2_filter; [exact HF|]|].
    + intros o bl [Eb _]. by rewrite Eb.
    + intros [id num ty cf] bl (Eb & Et & Hbl). cbn [so_block_number so_action_type] in Eb, Et. subst num ty. assert (0 < block_number bl) as Hp.
      { rewrite Forall_forall in Hpos. by apply Hpos, list_elem_of_fmap_2. }
      cbn beta. rewrite (into_op_back now hist ds blocks c v db id bl COMMIT ACommit cf Hok Hs Hbl Hp eq_refl).
      cbn [mbind fallible_bind]. eexists. split; [reflexivity|]. by split.
  - apply sorted_filter. rewrite <- E in Hsort. clear -Hsort. induction (commit_rows db) as [|o l IH]; [constructor|].
    cbn in Hsort. apply StronglySorted_inv in Hsort as [Hl Ho]. constructor; [by apply IH|].
    apply Forall_forall. intros o' Ho'. rewrite Forall_forall in Ho. apply Z.lt_le_incl, Ho. by apply list_elem_of_fmap_2.
Qed.
End StoredBlocks.

(** ** The maintainer *)
Section Maintain.
  Context `{EX : External} {EXL : ExternalLaws} {C : Codec}.
  Context (now : Z) (storage : ChainDb).
  Implicit Types (m : AccountMap) (s : Maintainer).

(** Consecutive blocks from number [n] that take the accounts from [m] through [ms]. *)
Inductive provable_chain : Z → AccountMap → list (Operation * bool) → list AccountMap → Z → Prop :=
| pc_nil n m : provable_chain n m [] [] n
| pc_cons n m op has_proof ops us m1 l ms n' :
    block_number (op_block op) = n → get_block_operations now n storage = Val ops →
    block_provable m m1 ops us (op_block op) → provable_chain (wrap 32 (n + 1)) m1 l ms n' →
    provable_chain n m ((op, has_proof) :: l) (m1 :: ms) n'.

Definition final m (ms : list AccountMap) : AccountMap := default m (last ms).

Lemma final_cons m m1 ms : final m (m1 :: ms) = final m1 ms.
Proof. unfold final. rewrite last_cons. by destruct (last ms). Qed.

Lemma provable_chain_snoc n m l ms n1 op hp ops us m2 :
  provable_chain n m l ms n1 → block_number (op_block op) = n1 → get_block_operations now n1 storage = Val ops →
  block_provable (final m ms) m2 ops us (op_block op) →
  provable_chain n m (l ++ [(op, hp)]) (ms ++ [m2]) (wrap 32 (n1 + 1)).
Proof.
  induction 1 as [|n m op' hp' ops' us' m1 l ms n' E1 E2 E3 _ IH]; intros H1 H2 H3; cbn [app].
  - eapply pc_cons; [done..|constructor].
  - rewrite final_cons in H3. eapply pc_cons; [done..|by apply IH].
Qed.

(** The prover data of a block are those of its stored operations. *)
Definition prepared_for m m' (op : Operation) (pd : ProverData) : Prop :=
  ∃ ops data, get_block_operations now (block_number (op_block op)) storage = Val ops ∧ circuit_data ops = Val data ∧
    block_witnessed m m' (op_block op) (padded (block_chunks_size (op_block op)) data) pd.

Definition numbers (l : list (Operation * bool)) : list Z := (λ p : Operation * bool, block_number (op_block p.1)) <$> l.

Lemma prepare_loop_runs l : ∀ n m ms n' s queue prepared,
  provable_chain n m l ms n' → oq_operations queue = l → mirrors (mt_account_tree s) m → mt_next_block_number s = n →
  runs (prepare_loop now storage (length l) queue prepared) s (λ r s',
    r.1 = mkOperationsQueue [] (oq_last_loaded_block queue) ∧
    mt_data s' = mt_data s ∧ mirrors (mt_account_tree s') (final m ms) ∧ mt_next_block_number s' = n' ∧
    (∀ k, k ∉ numbers (List.filter (negb ∘ snd) l) → r.2 !! k = prepared !! k) ∧
    (NoDup (numbers l) → ∀ i op m1 m2, l !! i = Some (op, false) → (m :: ms) !! i = Some m1 → ms !! i = Some m2 →
     ∃ pd, r.2 !! block_number (op_block op) = Some pd ∧ prepared_for m1 m2 op pd)).
Proof.
  induction l as [|[op hp] l IH]; intros n m ms n' s queue prepared Hch Hq Hm Hn.
  { inversion Hch; subst. destruct queue as [qs lb]. cbn in Hq. subst qs. apply runs_ret. split_and!; try done. }
  inversion Hch as [|? ? ? ? ops us m1 ? ms' ? Hnum Hops Hbp Hrest]; subst.
  destruct queue as [qs lb]. cbn in Hq. subst qs. cbn [length prepare_loop is_empty oq_operations].
  apply runs_bind, runs_gets. apply runs_bind. eapply runs_total.
  { cbn [next_block_number oq_operations]. rewrite bool_decide_true by (by rewrite Hnum). reflexivity. }
  cbn [take_next_operation oq_operations oq_last_loaded_block]. rewrite <- Hnum in Hops.
  destruct (build_prover_data_runs now _ _ _ _ _ storage op Hbp Hm Hops) as (data & Edata & pd & t' & Erun & Hm' & Hpd).
  apply runs_bind, runs_zoom. exists pd, t'. split; [exact Erun|]. apply runs_bind. eapply runs_update; [reflexivity|].
  set (prepared' := if hp then prepared else _). eapply runs_mono.
  { apply (IH (wrap 32 (block_number (op_block op) + 1)) m1 ms' n' _ (mkOperationsQueue l lb) prepared'); try done. by rewrite Hnum. }
  intros [q r] s' (E1 & E3 & E4 & E5 & E6 & E7). cbn [fst snd oq_last_loaded_block] in *. rewrite final_cons. split_and!; try done.
  - intros k Hk. unfold numbers in *. cbn in Hk. unfold compose in Hk. destruct hp; cbn in Hk; [by apply E6|].
    rewrite E6 by set_solver. subst prepared'. apply lookup_insert_ne. set_solver.
  - intros [Hnot Hnd]%NoDup_cons [|i] op' a1 a2 Hi Ha1 Ha2; [|by eapply E7].
    injection Hi as -> ->. injection Ha1 as <-. injection Ha2 as <-. exists pd. split; [|by exists ops, data].
    rewrite E6; [apply lookup_insert_eq|]. contradict Hnot. unfold numbers in *. apply list_elem_of_fmap in Hnot as (p & Ep & Hp).
    apply list_elem_of_fmap. exists p. split; [done|]. apply list_elem_of_In, List.filter_In in Hp as [Hp _]. by apply list_elem_of_In.
Qed.

(** Between two rounds: the queue is empty and block [n] is next. *)
Record maintainer_at (n : Z) m s : Prop := {
  ma_queue : dp_op_queue (mt_data s) = mkOperationsQueue [] (n - 1);
  ma_next : mt_next_block_number s = n;
  ma_tree : mirrors (mt_account_tree s) m;
}.

Lemma take_commits_runs s n m l :
  maintainer_at n m s → (0 < dp_limit (mt_data s))%nat →
  load_commits_after_block now (n - 1) (dp_limit (mt_data s)) storage = Val (Ok l) →
  runs (maintainer_take_next_commits now storage) s (λ _ s', mt_account_tree s' = mt_account_tree s ∧ mt_next_block_number s' = n ∧
    mt_data s' = mkProversDataPool (dp_limit (mt_data s)) (mkOperationsQueue l (default (n - 1) (last (numbers l)))) (dp_prepared (mt_data s))).
Proof.
  intros [Hq Hn _] Hlim Hload. unfold maintainer_take_next_commits. apply runs_bind, runs_gets. apply runs_bind.
  rewrite Hq. unfold queue_take_next_commits_if_needed. cbn [oq_operations oq_last_loaded_block length].
  rewrite (proj2 (Nat.ltb_lt _ _)) by done. rewrite Hload. cbn [mbind fallible_bind app]. eexists _, s. split; [reflexivity|].
  eapply runs_update; [reflexivity|]. split; [done|]. split; [done|]. cbn. do 2 f_equal. unfold numbers. rewrite fmap_last.
  by destruct (last l) as [[op hp]|].
Qed.

(** A round: the loaded blocks are prepared, those of earlier rounds are kept. *)
Lemma maintain_round_runs s n m l ms n' :
  maintainer_at n m s → (0 < dp_limit (mt_data s))%nat →
  load_commits_after_block now (n - 1) (dp_limit (mt_data s)) storage = Val (Ok l) →
  provable_chain n m l ms n' → NoDup (numbers l) → default (n - 1) (last (numbers l)) = n' - 1 →
  ∃ s', maintain_round now storage s = Val s' ∧ maintainer_at n' (final m ms) s' ∧
    (∀ k, k ∉ numbers (List.filter (negb ∘ snd) l) → pool_get k (mt_data s') = pool_get k (mt_data s)) ∧
    ∀ i op m1 m2, l !! i = Some (op, false) → (m :: ms) !! i = Some m1 → ms !! i = Some m2 →
      ∃ pd, pool_get (block_number (op_block op)) (mt_data s') = Some pd ∧ prepared_for m1 m2 op pd.
Proof.
  intros Hs Hlim Hload Hch Hnd Hlast. destruct (take_commits_runs s n m l Hs Hlim Hload) as ([] & s1 & E1 & Ht1 & Hn1 & Hd1).
  rewrite Hlast in Hd1.
  destruct (prepare_loop_runs l n m ms n' s1 (dp_op_queue (mt_data s1)) ∅ Hch) as ([q r] & s2 & E2 & Hq & Hd2 & Hm2 & Hn2 & Hold & Hnew);
    [by rewrite Hd1|rewrite Ht1; apply Hs|done|].
  unfold maintain_round. rewrite E1. unfold prepare_next, mbind, exec_bind, gets, update.
  replace (oq_operations (dp_op_queue (mt_data s1))) with l by (by rewrite Hd1). rewrite E2. cbn [fst snd] in *.
  eexists. split; [reflexivity|]. subst q. split_and!.
  - split; cbn; [by rewrite Hd1|done|done].
  - intros k Hk. unfold pool_get. cbn. rewrite lookup_union, (Hold k Hk), lookup_empty, Hd2, Hd1. cbn. by destruct (dp_prepared _ !! k).
  - intros i op m1 m2 Hi H1 H2. destruct (Hnew Hnd i op m1 m2 Hi H1 H2) as (pd & Hpd & Hp). exists pd. split; [|done].
    unfold pool_get. cbn. by rewrite lookup_union, Hpd, union_Some_l.
Qed.

(** A round that finds a gap panics. *)
Lemma maintain_round_gap s n m p l :
  maintainer_at n m s → (0 < dp_limit (mt_data s))%nat →
  load_commits_after_block now (n - 1) (dp_limit (mt_data s)) storage = Val (Ok (p :: l)) →
  block_number (op_block p.1) ≠ n →
  maintain_round now storage s = Panic "Blocks must be processed in order".
Proof.
  intros Hs Hlim Hload Hne. destruct (take_commits_runs s n m _ Hs Hlim Hload) as ([] & s1 & E1 & Ht1 & Hn1 & Hd1).
  unfold maintain_round. rewrite E1. unfold prepare_next, mbind, exec_bind, gets. rewrite Hd1. cbn [dp_op_queue oq_operations length prepare_loop is_empty].
  unfold mbind at 1, exec_bind at 1. cbn [gets]. destruct p as [op hp]. cbn [next_block_number oq_operations].
  rewrite bool_decide_false by (cbn in Hne; rewrite Hn1; congruence). done.
Qed.
End Maintain.

(** ** The blocks of the keeper *)
Section KeeperBlocks.
  Context `{EX : External} {EXL : ExternalLaws} {C : Codec} {L : CodecLaws}.
  Context (now : Z).
  Implicit Types (m : AccountMap) (s : Maintainer).

Lemma provable_run m ops us m' n :
  ledger_run m ops us m' → 0 ≤ n → provable_from (n + Z.of_nat (length ops)) m → Forall op_provable ops → provable_from n m'.
Proof.
  intros Hrun. revert n. induction Hrun as [|ops us m1 op us1 m2 Hrun IH Hstep Haddr Htok]; intros n Hn Hp Hops.
  { by rewrite Z.add_0_r in Hp. }
  apply Forall_app in Hops as [Hops Hop]. apply Forall_cons in Hop as [Hop _]. rewrite length_app in Hp. cbn [length] in Hp.
  eapply provable_step; [|done..]. apply IH; [lia| |done]. by replace (n + 1 + Z.of_nat (length ops)) with (n + Z.of_nat (length ops + 1)) by lia.
Qed.

Lemma provable_less m n k : provable_from (n + k) m → 0 ≤ n → 0 ≤ k → provable_from k m.
Proof. intros [H1 H2 H3 H4] Hn Hk. split; [lia|done..|]. intros id a Ha. destruct (H4 id a Ha). lia. Qed.

Definition all_ops (cs : list CommitRequest) : list FranklinOp := mjoin ((λ c, block_ops (cr_block c)) <$> cs).

(** What the maintainer needs of a chain of blocks beyond that it is one: nonces and
    accounts that fit the tree, operations that it can prove, and known fee accounts. *)
Record chain_provable m (cs : list CommitRequest) : Prop := {
  cp_from : provable_from (Z.of_nat (length (all_ops cs))) m;
  cp_ops : Forall op_provable (all_ops cs);
  cp_fee : Forall (λ c, is_Some (m !! fee_account (cr_block c))) cs;
}.

Lemma run_keys m ops us m' id : ledger_run m ops us m' → is_Some (m !! id) → is_Some (m' !! id).
Proof. induction 1 as [|ops us m1 op us1 m2 _ IH Hstep _ _]; [done|]. intros H. by apply (ledger_step_grows _ _ _ _ Hstep), IH. Qed.

(** The states of a chain. *)
Definition chain_states szs m (cs : list CommitRequest) (ms : list AccountMap) : Prop :=
  length ms = length cs ∧ ∀ i c m1 m2, cs !! i = Some c → (m :: ms) !! i = Some m1 → ms !! i = Some m2 →
    ∃ n p, block_ok szs n p m1 c m2.

Lemma keeper_block_provable szs n p m c m' N :
  block_ok szs n p m c m' → 0 ≤ N → provable_from (N + Z.of_nat (length (block_ops (cr_block c)))) m →
  Forall op_provable (block_ops (cr_block c)) → is_Some (m !! fee_account (cr_block c)) → block_fits (cr_block c) →
  block_provable m m' (serde_op <$> block_ops (cr_block c)) (cr_accounts_updated c) (stored_block now (cr_block c)) ∧ provable_from N m'.
Proof.
  intros Hb HN Hp Hops Hfee Hfit. split; [|by eapply provable_run; [apply Hb|..]]. split.
  - apply serde_run, Hb.
  - rewrite length_fmap. eapply provable_less; [exact Hp|done|lia].
  - apply Forall_fmap. eapply Forall_impl; [exact Hops|]. intros op. apply serde_provable.
  - rewrite serde_chunks. apply Hb.
  - apply (bo_root _ _ _ _ _ _ Hb).
  - eapply run_keys; [apply Hb|done].
  - apply Hfit.
Qed.

Lemma last_length_lookup {A} (l : list A) (x : A) i y : (x :: l) !! i = Some y → length l = i → default x (last l) = y.
Proof.
  revert x i. induction l as [|z l IH]; intros x i H <-; [by injection H|]. rewrite last_cons. cbn [length] in H.
  specialize (IH z _ H eq_refl). destruct (last l); cbn in *; done.
Qed.

(** The blocks of the keeper, as they are stored, can be proved one after the other. *)
Lemma chain_loaded db szs n p m cs n' p' m' :
  chain szs n p m cs n' p' m' →
  Forall (λ c, block_fits (cr_block c) ∧ block_rows now db (block_number (cr_block c)) (block_transactions (cr_block c))) cs →
  ∀ l N, Forall2 (loaded now db) (cr_block <$> cs) l → 0 ≤ N →
    provable_from (N + Z.of_nat (length (all_ops cs))) m → Forall op_provable (all_ops cs) →
    Forall (λ c, is_Some (m !! fee_account (cr_block c))) cs →
  ∃ ms, provable_chain now db n m l ms n' ∧ chain_states szs m cs ms ∧ final m ms = m' ∧ provable_from N m'.
Proof.
  induction 1 as [|cs n' p' m1 c m2 Hch IH Hb]; intros Hfit l N Hl HN Hp Hops Hfee.
  { inversion Hl; subst. exists []. split; [constructor|]. split; [by split|]. by rewrite Z.add_0_r in Hp. }
  rewrite fmap_app in Hl. apply Forall2_app_inv_l in Hl as (l1 & l2 & Hl1 & Hl2 & ->).
  inversion Hl2 as [|? [op hp] ? ? [Eb _] Hnil]; subst. inversion Hnil; subst. cbn [fst] in Eb.
  apply Forall_app in Hfit as [Hf1 Hf2]. apply Forall_cons in Hf2 as [[Hfc Hrows] _].
  assert (all_ops (cs ++ [c]) = all_ops cs ++ block_ops (cr_block c)) as Eall.
  { unfold all_ops. rewrite fmap_app, join_app. cbn. by rewrite app_nil_r. }
  rewrite Eall in Hp, Hops. rewrite length_app in Hp. apply Forall_app in Hops as [Ho1 Ho2]. apply Forall_app in Hfee as [He1 He2].
  apply Forall_cons in He2 as [Hec _].
  destruct (IH Hf1 l1 (N + Z.of_nat (length (block_ops (cr_block c)))) Hl1) as (ms & Hpc & [Hlen Hst] & Hfin & Hp1); [lia| |done..|].
  { by replace (N + Z.of_nat (length (block_ops (cr_block c))) + Z.of_nat (length (all_ops cs)))
      with (N + Z.of_nat (length (all_ops cs) + length (block_ops (cr_block c)))) by lia. }
  assert (is_Some (m1 !! fee_account (cr_block c))) as Hec1 by (by eapply run_keys; [apply (chain_run _ _ _ _ _ _ _ _ Hch)|]).
  destruct (keeper_block_provable _ _ _ _ _ _ N Hb HN Hp1 Ho2 Hec1 Hfc) as [Hbp Hp2].
  pose proof Hfc as (_ & _ & _ & _ & _ & Hex & Hord).
  exists (ms ++ [m2]). split_and!.
  - assert (block_number (cr_block c) = n') as En by apply Hb.
    eapply provable_chain_snoc; [exact Hpc|by rewrite Eb| |rewrite Hfin, Eb; exact Hbp]. rewrite <- En. by apply block_ops_back.
  - split; [rewrite !length_app; cbn; lia|]. intros i c' a1 a2 Hi Ha1 Ha2. apply lookup_app_Some in Hi as [Hi|[Hge Hi]].
    + pose proof (lookup_lt_Some _ _ _ Hi). change (m :: (ms ++ [m2])) with ((m :: ms) ++ [m2]) in Ha1.
      rewrite lookup_app_l in Ha1 by (cbn; lia). rewrite lookup_app_l in Ha2 by lia. by eapply Hst.
    + destruct (i - length cs)%nat as [|j] eqn:Ei; [|done]. injection Hi as <-. assert (i = length ms) as -> by lia.
      rewrite list_lookup_middle in Ha2 by done. injection Ha2 as <-. exists n', p'. change (m :: (ms ++ [m2])) with ((m :: ms) ++ [m2]) in Ha1.
      rewrite lookup_app_l in Ha1 by (cbn; lia). assert (a1 = m1) as -> by (rewrite <- Hfin; symmetry; by eapply last_length_lookup). done.
  - unfold final. by rewrite last_snoc.
  - done.
Qed.

Definition has_proof (db : ChainDb) (n : Z) : bool := existsb (λ r, pf_block_number r =? n) (cd_proofs db).

Lemma numbers_loaded db bls l : Forall2 (loaded now db) bls l → numbers l = block_number <$> bls.
Proof. induction 1 as [|bl [op hp] bls l [E _] _ IH]; [done|]. unfold numbers in *. cbn in *. by rewrite E, IH. Qed.

Lemma last_number szs n p m cs n' p' m' :
  chain szs n p m cs n' p' m' → 0 < n → n + Z.of_nat (length cs) < 2 ^ 32 →
  default (n - 1) (last (block_number <$> (cr_block <$> cs))) = n' - 1 ∧ NoDup (block_number <$> (cr_block <$> cs)).
Proof.
  intros Hch Hn Hlt. destruct (chain_numbers _ _ _ _ _ _ _ _ Hch) as [En' Enum]; [unfold fits; lia|].
  assert (∀ i c, cs !! i = Some c → block_number (cr_block c) = n + Z.of_nat i) as Enum'.
  { intros i c Hi. rewrite (Enum i c Hi). pose proof (lookup_lt_Some _ _ _ Hi). apply wrap_small. unfold fits. lia. }
  rewrite wrap_small in En' by (unfold fits; lia). split.
  - destruct cs as [|c cs] using rev_ind; [cbn in *; lia|]. rewrite !fmap_app. cbn [fmap list_fmap]. rewrite last_snoc. cbn [default].
    rewrite (Enum' (length cs) c) by (by apply list_lookup_middle). rewrite En', length_app. cbn. lia.
  - rewrite <- list_fmap_compose. apply (indexed_NoDup _ n). intros i c Hi. by apply Enum'.
Qed.

(** C9: The prover server keeps up with the committer: when the next blocks in the database
    are consecutive blocks of the keeper with operations that can be proved, one round of the
    maintainer loads them (up to its limit), replays them on its own tree and ends at
    the state of the last of them, ready for the next round.  For every block without a proof
    the pool then holds prover data that roll the root hash from the state before the
    block to the state after it, one operation for each chunk of the block, that carry the
    public data of its operations as the database has them (with fees of zero) filled up with
    noops, and whose commitment is the one that the contract computes from them; the data of
    other blocks are left as they were. *)
Theorem maintainer_prepares_blocks db0 hist blocks c v db szs n p m cs n' p' m' s :
  stored_chain now db0 hist blocks c v db → t_operations (cd_state db0) = [] →
  maintainer_at n m s → (0 < dp_limit (mt_data s))%nat →
  take (dp_limit (mt_data s)) (blocks_after (n - 1) blocks) = cr_block <$> cs →
  chain szs n p m cs n' p' m' → 0 < n → n + Z.of_nat (length cs) < 2 ^ 32 → chain_provable m cs →
  ∃ s' ms, maintain_round now db s = Val s' ∧ maintainer_at n' m' s' ∧ chain_states szs m cs ms ∧
    (∀ k, k ∉ block_number <$> (cr_block <$> cs) → pool_get k (mt_data s') = pool_get k (mt_data s)) ∧
    ∀ i req m1 m2, cs !! i = Some req → (m :: ms) !! i = Some m1 → ms !! i = Some m2 →
      let bl := cr_block req in
      if has_proof db (block_number bl) then pool_get (block_number bl) (mt_data s') = pool_get (block_number bl) (mt_data s)
      else ∃ pd data, pool_get (block_number bl) (mt_data s') = Some pd ∧ circuit_data (serde_op <$> block_ops bl) = Val data ∧
        block_witnessed m1 m2 bl (padded (block_chunks_size bl) data) pd.
Proof.
  intros H H0 Hs Hlim Htake Hch Hn Hlt [Hcp Hops Hfee]. pose proof (stored_chain_ok _ _ _ _ _ _ _ H) as Hok.
  destruct (load_commits_back now _ _ _ _ _ _ (n - 1) (dp_limit (mt_data s)) H H0) as (l & Eload & Hl). rewrite Htake in Hl.
  assert (Forall (λ c, block_fits (cr_block c) ∧ block_rows now db (block_number (cr_block c)) (block_transactions (cr_block c))) cs) as Hrows.
  { apply Forall_forall. intros req Hreq. assert (cr_block req ∈ blocks) as Hin.
    { assert (cr_block req ∈ cr_block <$> cs) as Hin by (by apply list_elem_of_fmap_2). rewrite <- Htake in Hin.
      apply elem_of_take in Hin as (j & Hj & _). apply list_elem_of_lookup_2, list_elem_of_In, List.filter_In in Hj as [Hj _]. by apply list_elem_of_In. }
    destruct (ck_rows _ _ _ _ _ _ Hok _ Hin) as (? & _ & ?). done. }
  destruct (chain_loaded db szs n p m cs n' p' m' Hch Hrows l 0 Hl (Z.le_refl 0) Hcp Hops Hfee) as (ms & Hpc & Hst & Hfin & _).
  destruct (last_number _ _ _ _ _ _ _ _ Hch Hn Hlt) as [Hlast Hnd]. rewrite <- (numbers_loaded db _ l Hl) in Hlast, Hnd.
  destruct (maintain_round_runs now db s n m l ms n' Hs Hlim Eload Hpc Hnd Hlast) as (s' & E & Hs' & Hold & Hnew).
  exists s', ms. rewrite Hfin in Hs'. split; [done|]. split; [done|]. split; [done|].
  assert (∀ k, k ∈ numbers (List.filter (negb ∘ snd) l) → ∃ op, (op, false) ∈ l ∧ k = block_number (op_block op)) as Hsub.
  { intros k ([op hp] & -> & Hp)%list_elem_of_fmap. apply list_elem_of_In, List.filter_In in Hp as [Hp%list_elem_of_In Hf]. exists op.
    by destruct hp. }
  split.
  - intros k Hk. apply Hold. intros (op & Hop & ->)%Hsub. apply Hk. rewrite <- (numbers_loaded db _ l Hl). apply list_elem_of_fmap. by exists (op, false).
  - intros i req m1 m2 Hi H1 H2 bl. destruct (Forall2_lookup_l _ _ _ i bl Hl) as ([op hp] & Hli & Eb & Ehp).
    { by rewrite list_lookup_fmap, Hi. }
    cbn [fst snd] in Eb, Ehp. fold (has_proof db (block_number bl)) in Ehp. rewrite <- Ehp. destruct hp.
    + apply Hold. intros (op' & (j & Hj)%list_elem_of_lookup & Ek)%Hsub.
      assert (i = j) as <-; [|congruence]. apply (NoDup_lookup (numbers l) i j (block_number bl) Hnd); unfold numbers.
      * by rewrite list_lookup_fmap, Hli; cbn; rewrite Eb.
      * by rewrite list_lookup_fmap, Hj, Ek.
    + destruct (Hnew i op m1 m2 Hli H1 H2) as (pd & Hpd & ops & data & Eops & Edata & Hw). rewrite Eb in *.
      exists pd, data. split; [exact Hpd|]. split; [|destruct Hw as [? ? ? ? ? ? ?]; by split].
      rewrite Forall_forall in Hrows. destruct (Hrows req) as [(_ & _ & _ & _ & _ & He & Ho) Hr]; [by eapply list_elem_of_lookup_2|].
      cbn in Eops. rewrite (block_ops_back now db bl He Ho Hr) in Eops. by injection Eops as <-.
Qed.

(** A block that the committer does not commit stops the prover server: if the next
    committed block after block [n - 1] is not block [n], the maintainer's round panics. *)
Theorem skipped_block_stops_provers db0 hist blocks c v db n m s bl bls :
  stored_chain now db0 hist blocks c v db → t_operations (cd_state db0) = [] →
  maintainer_at n m s → (0 < dp_limit (mt_data s))%nat →
  blocks_after (n - 1) blocks = bl :: bls → block_number bl ≠ n →
  maintain_round now db s = Panic "Blocks must be processed in order".
Proof.
  intros H H0 Hs Hlim Hb Hne. destruct (load_commits_back now _ _ _ _ _ _ (n - 1) (dp_limit (mt_data s)) H H0) as (l & Eload & Hl).
  rewrite Hb in Hl. destruct (dp_limit (mt_data s)) as [|k] eqn:Ek; [lia|]. cbn [take] in Hl.
  inversion Hl as [|? q ? ? [Eq _] _]; subst. rewrite <- Ek in Eload. eapply (maintain_round_gap now db); [exact Hs|lia|exact Eload|].
  by rewrite Eq.
Qed.
End KeeperBlocks.

(** ** What the circuit publishes and what the contract is sent *)
Section PublicData.
  Context `{EX : External} {EXL : ExternalLaws}.

(** The five bytes of a recipient and a token read the same in both orders iff they are all equal. *)
Lemma swapped_bytes to tok :
  fits 24 to → fits 16 tok →
  to_be_bytes 3 to ++ to_be_bytes 2 tok = to_be_bytes 2 tok ++ to_be_bytes 3 to ↔ ∃ x, to = x * 65793 ∧ tok = x * 257.
Proof.
  unfold fits. change (2 ^ 24) with 16777216. change (2 ^ 16) with 65536. intros Hto Htok.
  cbn. unfold reverse. cbn. split.
  - intros [= E1 E2 E3 E4 E5]. exists (to mod 256). Z.to_euclidean_division_equations. lia.
  - intros (x & -> & ->). assert (0 ≤ x < 256) as Hx by lia.
    assert (x * 65793 / 256 = x * 257) as -> by (Z.to_euclidean_division_equations; lia).
    assert (x * 257 / 256 = x) as -> by (Z.to_euclidean_division_equations; lia).
    assert ((x * 257) `mod` 256 = x) as -> by (Z.to_euclidean_division_equations; lia).
    assert ((x * 65793) `mod` 256 = x) as -> by (Z.to_euclidean_division_equations; lia).
    by rewrite (Z.mod_small x 256) by lia.
Qed.

Definition same_public_data (op : FranklinOp) : Prop :=
  match op with
  | OpTransfer op => ∃ x, tro_to op = x * 65793 ∧ tr_token_id (tro_tx op) = x * 257
  | OpTransferToNew op => pack_fee_amount (tr_fee (ttn_tx op)) = Val [0; 0]
  | _ => True
  end.

Lemma app_cancel {A} (a b c : list A) : a ++ b = a ++ c ↔ b = c.
Proof. split; [by apply app_inv_head|by intros ->]. Qed.

Lemma vec_resize_same {A} n (x : A) l : length l = n → vec_resize n x l = l.
Proof. intros <-. unfold vec_resize. rewrite firstn_all, Nat.sub_diag. apply app_nil_r. Qed.

Lemma vec_resize_eq {A} n (x : A) l1 l2 :
  length l1 = length l2 → (length l1 ≤ n)%nat → vec_resize n x l1 = vec_resize n x l2 ↔ l1 = l2.
Proof.
  intros E Hn. unfold vec_resize. rewrite !take_ge by lia. rewrite E. split; [by apply app_inv_tail|by intros ->].
Qed.

Lemma transfer_data_agrees tx from to :
  op_provable (OpTransfer (mkTransferOp tx from to)) →
  pubdata_layout (OpTransfer (mkTransferOp tx from to)) = public_data (OpTransfer (mkTransferOp tx from to)) ↔
  ∃ x, to = x * 65793 ∧ tr_token_id tx = x * 257.
Proof.
  intros [(Hfrom & Hto & Htok & Hfee) _]. destruct (fee_packed _ Hfee) as (n & fbits & data & _ & _ & _ & Hpack & Hld & _).
  cbn [pubdata_layout public_data]. unfold TransferOp_get_public_data, transfer_layout. cbn [tro_tx tro_from tro_to]. rewrite Hpack. cbn [mbind outcome_bind].
  rewrite !drop_id_bytes, <- (swapped_bytes to (tr_token_id tx)) by done.
  split.
  - intros E%(f_equal (λ o, match o with Val d => d | Panic _ => [] end)). cbn beta iota in E.
    apply vec_resize_eq in E; [|rewrite !length_app, !to_be_bytes_length, Hld; cbn; lia|rewrite !length_app, !to_be_bytes_length, Hld; cbn; lia].
    rewrite !app_cancel in E. rewrite !app_assoc in E. by apply app_inv_tail in E.
  - intros E. do 4 f_equal. rewrite (app_assoc (to_be_bytes 3 to)), (app_assoc (to_be_bytes 2 _)). by rewrite E.
Qed.

Lemma transfer_to_new_data_agrees tx from to :
  op_provable (OpTransferToNew (mkTransferToNewOp tx from to)) →
  pubdata_layout (OpTransferToNew (mkTransferToNewOp tx from to)) = public_data (OpTransferToNew (mkTransferToNewOp tx from to)) ↔
  pack_fee_amount (tr_fee tx) = Val [0; 0].
Proof.
  intros [(Hfrom & Hto & Htok & Had & _) [Hfee _]]. cbn in Hfee.
  destruct (fee_packed _ Hfee) as (n & fbits & data & _ & _ & _ & Hpack & Hld & _).
  cbn [pubdata_layout public_data]. unfold TransferToNewOp_get_public_data, transfer_to_new_layout. cbn [ttn_tx ttn_from ttn_to]. rewrite Hpack. cbn [mbind outcome_bind].
  rewrite !drop_id_bytes. set (pre := [TRANSFER_TO_NEW_OP_CODE] ++ to_be_bytes 3 from ++ to_be_bytes 2 (tr_token_id tx) ++ tr_to tx ++ to_be_bytes 3 to).
  assert (length pre = 29%nat) as Hpre by (subst pre; rewrite !length_app, !to_be_bytes_length, Had; done).
  replace ([TRANSFER_TO_NEW_OP_CODE] ++ to_be_bytes 3 from ++ to_be_bytes 2 (tr_token_id tx) ++ tr_to tx ++ to_be_bytes 3 to ++ data)
    with (pre ++ data) by (subst pre; by rewrite <- !app_assoc).
  assert (vec_resize (TRANSFER_TO_NEW_CHUNKS * 8) 0 pre = vec_resize (TRANSFER_TO_NEW_CHUNKS * 8) 0 (pre ++ [0; 0])) as ->.
  { unfold vec_resize. rewrite !take_ge by (rewrite ?length_app, Hpre; cbn; lia). rewrite length_app, Hpre, <- app_assoc. done. }
  split.
  - intros E%(f_equal (λ o, match o with Val d => d | Panic _ => [] end)). cbn beta iota in E.
    apply vec_resize_eq in E; [|rewrite !length_app, Hld; done|rewrite length_app, Hpre, Hld; cbn; lia]. apply app_inv_head in E. by rewrite E.
  - intros [= ->]. done.
Qed.

Lemma layout_agrees op :
  op_provable op → op ≠ OpNoop → pubdata_layout op = public_data op ↔ same_public_data op.
Proof.
  intros Hop Hne. destruct op as [|op|[tx from to]|op|op|[tx from to]|op|op]; cbn [same_public_data]; [done|..|by destruct Hop|].
  - split; [done|]. intros _. cbn [pubdata_layout public_data]. unfold DepositOp_get_public_data, deposit_layout. by rewrite drop_id_bytes.
  - by apply transfer_to_new_data_agrees.
  - split; [done|]. intros _. cbn [pubdata_layout public_data]. unfold WithdrawOp_get_public_data, withdraw_layout. by rewrite drop_id_bytes.
  - split; [done|]. intros _. cbn [pubdata_layout public_data]. unfold CloseOp_get_public_data, close_layout. by rewrite drop_id_bytes.
  - by apply transfer_data_agrees.
  - split; [done|]. intros _. cbn [pubdata_layout public_data]. unfold ChangePubKeyOp_get_public_data, change_pubkey_layout. by rewrite drop_id_bytes.
Qed.

Lemma be_bits_inj l l' : Forall is_byte l → Forall is_byte l' → bytes_into_be_bits l = bytes_into_be_bits l' → l = l'.
Proof. intros Hl Hl' E. by rewrite <- (be_bit_vector_into_bytes_spec l), E, be_bit_vector_into_bytes_spec. Qed.

Lemma public_data_bytes op : op_provable op → ∃ pd, public_data op = Val pd ∧ Forall is_byte pd.
Proof.
  intros [Hwf Hx].
  assert (∀ n z, Forall is_byte (to_be_bytes n z)) as Hb by (intros; apply to_be_bytes_array).
  assert (∀ fee, fee_packable fee → ∃ data, pack_fee_amount fee = Val data ∧ Forall is_byte data) as Hfee.
  { intros fee (n & bits & data & _ & _ & _ & H & _)%fee_packed. exists data. split; [done|]. by eapply pack_fee_bytes. }
  destruct op as [|[d id]|[tx k j]|[tx id]|[tx id]|[tx k j]|[e]|[tx id]]; [..|by destruct Hx|];
    cbn [FranklinOp_wf] in Hwf; destruct_and?; cbn [public_data];
    unfold WithdrawOp_get_public_data, TransferOp_get_public_data; cbn [wdo_tx tro_tx wdo_account_id tro_from tro_to];
    repeat match goal with H : fee_packable _ |- _ => destruct (Hfee _ H) as (fee & -> & ?); clear H; cbn [mbind outcome_bind] end;
    (eexists; split; [reflexivity|]); apply vec_resize_bytes; cbn [app]; rewrite ?drop_id_bytes;
    repeat first [ assumption | apply Hb | apply Forall_nil_2 | apply Forall_app_2
                 | apply Forall_cons_2; [first [by cbv | by apply Z.mod_pos_bound]|] | apply Forall_drop
                 | match goal with H : is_array _ ?l |- Forall is_byte ?l => apply H end ].
Qed.
End PublicData.

Section Published.
  Context `{C : Codec} {EXL : ExternalLaws}.

(** C25: The public data that the prover server collects for an operation, from the witness of the operation on its
    tree, are those that the operator sends to the contract for deposits, withdrawals and key changes.  For a transfer they
    differ, unless all bytes of the recipient and of the token are equal: the circuit has the recipient
    first.  For a transfer to a new account they differ unless the packed fee is zero: the circuit publishes the
    fee as well. *)
Theorem collected_data_agrees op m us m' b :
  mirrors (wb_account_tree b) m → provable_from 1 m → op_provable op →
  ledger_step m op us m' → op_addressed m op → op_token_ok op →
  ∃ acc b' pd, collect_op op (mkCollected [] [] []) b = Val (Ok acc, b') ∧ public_data op = Val pd ∧
    (co_pub_data acc = bytes_into_be_bits pd ↔ same_public_data op).
Proof.
  intros Hm Hp Hop Hstep Haddr Htok. assert (op ≠ OpNoop) as Hne by (intros ->; inversion Hstep).
  destruct (collect_op_runs op (mkCollected [] [] []) b m m us m' [] Hm Hp Hop Hstep Haddr Htok) as (acc & b' & E & t' & _ & _ & [(data & Ed & Hb & Epd) _ _ _ _]).
  { split; cbn [co_pub_data co_operations co_fees]; [by exists []|apply carries_nil|done..]. }
  destruct (public_data_bytes op Hop) as (pd & Hpd & Hpb). exists acc, b', pd. split; [exact E|]. split; [exact Hpd|].
  cbn [app circuit_data] in Ed. apply outcome_bind_Val in Ed as (d & Ed & [= <-]). rewrite app_nil_r in *.
  rewrite Epd, <- (layout_agrees op Hop Hne), Ed, Hpd. split; [intros ->%be_bits_inj; done|by intros [= ->]].
Qed.
End Published.


(** ** Full exits *)
Section FullExit.
  Context `{C : Codec}.

Lemma collect_ops_full_exit ops e : ∀ acc b acc' b', OpFullExit e ∈ ops → collect_ops ops acc b ≠ Val (Ok acc', b').
Proof.
  induction ops as [|op ops IH]; intros acc b acc' b' Hin H; [by apply not_elem_of_nil in Hin|]. cbn [collect_ops] in H.
  apply exec_bind_Ok in H as (acc1 & b1 & H1 & H2). apply elem_of_cons in Hin as [<-|Hin]; [done|]. by eapply IH.
Qed.

(** A block with a full exit is never proved: whatever the state, the maintainer does not get prover
    data for it. *)
Theorem full_exit_not_proved now storage op t ops e pd t' :
  get_block_operations now (block_number (op_block op)) storage = Val ops → OpFullExit e ∈ ops →
  build_prover_data now storage op t ≠ Val (Ok pd, t').
Proof.
  intros Hops Hin H. unfold build_prover_data in H. destruct (WitnessBuilder_new _ _ _) as [b|]; [|done]. rewrite Hops in H.
  destruct (build_witness ops (op_block op) b) as [[r b']|] eqn:E; [|done]. injection H as -> _. unfold build_witness in E.
  apply exec_bind_Ok in E as (acc & b1 & E & _). by eapply collect_ops_full_exit.
Qed.
End FullExit.
