(* ===== verification/ProverJobs.v ===== *)
(** * The assignment of blocks to provers

    A request for a block runs the locked query first and inserts the job after it.
    Requests that follow each other are given different blocks; requests whose two
    halves interleave are not ([job_step]). *)

From S2P Require Import Prelude Bytes Params Externals Primitives Amounts Account Tx Operations Block EthStorage Storage.
From S2P Require Import BlockStorage BlockStorageProofs Witness WitnessOps ProverPool.
Open Scope Z_scope.

Section Jobs.
  Context `{C : Codec} {L : CodecLaws}.
  Implicit Types (db : ChainDb) (jobs : ProverTables).

Definition live (now timeout : Z) (r : ProverRun) : Prop := now - run_updated_at r < timeout.

(** The blocks that a prover of the given block size may work on. *)
Record unassigned (now timeout : Z) (size : nat) db jobs (n : Z) : Prop := {
  ua_committed : ∃ o, o ∈ t_operations (cd_state db) ∧ so_block_number o = n ∧ so_action_type o = ActionType_to_string COMMIT;
  ua_unverified : last_verified db < n;
  ua_unproved : Forall (λ p, pf_block_number p ≠ n) (cd_proofs db);
  ua_free : Forall (λ r, run_block_number r = n → ¬ live now timeout r) (t_prover_runs jobs);
  ua_size : ∃ b, b ∈ t_blocks (cd_state db) ∧ sb_number b = n ∧ sb_block_size b = Z.of_nat size;
}.

Lemma existsb_spec {A} (f : A → bool) l : existsb f l = true ↔ ∃ x, x ∈ l ∧ f x = true.
Proof. rewrite List.existsb_exists. by setoid_rewrite list_elem_of_In. Qed.

Lemma negb_existsb {A} (f : A → bool) (P : A → Prop) l :
  (∀ x, f x = true ↔ ¬ P x) → (∀ x, P x ∨ ¬ P x) → negb (existsb f l) = true ↔ Forall P l.
Proof.
  intros Hf HP. rewrite negb_true_iff, <- not_true_iff_false, existsb_spec, Forall_forall. split.
  - intros H x Hx. destruct (HP x) as [|Hn]; [done|]. exfalso. apply H. exists x. by rewrite Hf.
  - intros H (x & Hx & E%Hf). by apply E, H.
Qed.

Lemma awaits_prover_spec now timeout db jobs o :
  awaits_prover now timeout db jobs o = true ↔
  so_action_type o = ActionType_to_string COMMIT ∧ last_verified db < so_block_number o ∧
  Forall (λ p, pf_block_number p ≠ so_block_number o) (cd_proofs db) ∧
  Forall (λ r, run_block_number r = so_block_number o → ¬ live now timeout r) (t_prover_runs jobs).
Proof.
  unfold awaits_prover. rewrite !andb_true_iff, bool_decide_eq_true, Z.ltb_lt.
  rewrite (negb_existsb _ (λ p, pf_block_number p ≠ so_block_number o)), (negb_existsb _ (λ r, run_block_number r = so_block_number o → ¬ live now timeout r)).
  - tauto.
  - intros r. rewrite andb_true_iff, Z.eqb_eq, Z.ltb_lt. unfold live. destruct (decide (run_block_number r = so_block_number o)); lia || tauto.
  - intros r. unfold live. lia.
  - intros p. rewrite Z.eqb_eq. lia.
  - intros p. lia.
Qed.

Lemma foldl_min l x : foldl Z.min x l ≤ x ∧ Forall (λ y, foldl Z.min x l ≤ y) l ∧ (foldl Z.min x l = x ∨ foldl Z.min x l ∈ l).
Proof.
  revert x. induction l as [|y l IH]; intros x; cbn; [by repeat split; [lia|constructor|left]|].
  destruct (IH (Z.min x y)) as (H1 & H2 & H3). split; [lia|]. split; [constructor; [lia|done]|].
  destruct H3 as [->|H3]; [|right; set_solver]. destruct (Z.min_spec x y) as [[_ ->]|[_ ->]]; [by left|right; set_solver].
Qed.

Lemma min_of_spec l : match min_of l with Some n => n ∈ l ∧ Forall (λ y, n ≤ y) l | None => l = [] end.
Proof.
  destruct l as [|x l]; [done|]. cbn. destruct (foldl_min l x) as (H1 & H2 & H3). split; [|by constructor].
  destruct H3 as [->|H3]; set_solver.
Qed.

(** The query finds the least unassigned block. *)
Lemma select_job_spec now timeout size db jobs :
  Forall (λ o, fits 32 (so_block_number o)) (t_operations (cd_state db)) →
  match select_job now timeout size db jobs with
  | Some n => unassigned now timeout size db jobs n ∧ ∀ k, unassigned now timeout size db jobs k → n ≤ k
  | None => ∀ k, ¬ unassigned now timeout size db jobs k
  end.
Proof.
  intros Hfit. unfold select_job. set (rows := so_block_number <$> _).
  assert (∀ k, k ∈ rows ↔ unassigned now timeout size db jobs k) as Hrows.
  { intros k. unfold rows. rewrite list_elem_of_fmap. setoid_rewrite list_elem_of_In. setoid_rewrite List.filter_In. setoid_rewrite List.filter_In.
    setoid_rewrite awaits_prover_spec. setoid_rewrite existsb_spec. setoid_rewrite <- list_elem_of_In. split.
    - intros (o & -> & (Ho & Ha & Hv & Hp & Hr) & b & Hb & [H1%Z.eqb_eq H2%Z.eqb_eq]%andb_prop). split; try done; [by exists o|by exists b].
    - intros [(o & Ho & <- & Ha) Hv Hp Hr (b & Hb & Eb & Es)]. exists o. split; [done|]. split; [done|]. exists b. split; [done|].
      by rewrite Eb, Es, !Z.eqb_refl. }
  pose proof (min_of_spec rows) as Hmin. destruct (min_of rows) as [n|]; cbn.
  - destruct Hmin as [Hin Hall]. assert (fits 32 n) as Hn.
    { unfold rows in Hin. apply list_elem_of_fmap in Hin as (o & -> & Ho). apply list_elem_of_In, List.filter_In in Ho as [Ho _].
      apply List.filter_In in Ho as [Ho%list_elem_of_In _]. rewrite Forall_forall in Hfit. by apply Hfit. }
    rewrite wrap_small by done. split; [by apply Hrows|]. intros k Hk%Hrows. rewrite Forall_forall in Hall. by apply Hall.
  - intros k Hk%Hrows. rewrite Hmin in Hk. by apply not_elem_of_nil in Hk.
Qed.

(** C20: One request at a time: a prover that asks for work is given the least block that is committed,
    not verified, without a proof, of its size, and without a live job; the answer names a new job of
    that prover for that block, and as long as the job is live the block is free for no later request.  If there is no
    such block, the answer is block 0 and nothing changes. A prover without a name is refused.  The request is
    one step here; two requests that interleave between the query and the insertion can get the same block
    ([concurrent_provers_share_a_block]). *)
Theorem block_to_prove_correct now r data :
  Forall (λ o, fits 32 (so_block_number o)) (t_operations (cd_state (as_db data))) →
  let free := unassigned now (as_prover_timeout data) (rq_block_size r) (as_db data) (as_jobs data) in
  if decide (rq_name r = ""%string) then block_to_prove now r data = Val (Err "empty name", data)
  else
    (block_to_prove now r data = Val (Ok (mkBlockToProveRes 0 0), data) ∧ ∀ k, ¬ free k) ∨
    ∃ n jobs', let id := t_prover_runs_seq (as_jobs data) in
      block_to_prove now r data = Val (Ok (mkBlockToProveRes id n), set_jobs jobs' data) ∧
      free n ∧ (∀ k, free k → n ≤ k) ∧
      t_prover_runs jobs' = t_prover_runs (as_jobs data) ++ [mkProverRun id n (Some (rq_name r)) now now] ∧
      t_prover_runs_seq jobs' = id + 1 ∧ t_active_provers jobs' = t_active_provers (as_jobs data) ∧
      ∀ now' size', now' < now + as_prover_timeout data → ¬ unassigned now' (as_prover_timeout data) size' (as_db data) jobs' n.
Proof.
  intros Hfit free. unfold block_to_prove. destruct (decide _) as [E|E]; [by rewrite bool_decide_true|]. rewrite bool_decide_false by done.
  unfold prover_run_for_next_commit. pose proof (select_job_spec now (as_prover_timeout data) (rq_block_size r) (as_db data) (as_jobs data) Hfit) as Hs.
  destruct (select_job _ _ _ _ _) as [n|].
  - right. destruct Hs as [Hn Hleast]. exists n. eexists. cbn [insert_run run_id run_block_number]. split; [reflexivity|]. split_and!; try done.
    intros now' size' Hlt [_ _ _ Hfree _]. cbn in Hfree. apply Forall_app in Hfree as [_ Hfree]. apply Forall_cons in Hfree as [Hfree _].
    apply (Hfree eq_refl). unfold live. cbn. lia.
  - left. split; [|done]. by destruct data as [db [] pool t].
Qed.

(** ** Publishing a proof *)

(** A proof is accepted once: the first proof of a block is stored and read back, the prepared
    data of the block are dropped and the block is not given to a prover again;
    a second proof of it is refused and changes nothing. *)
Theorem publish_correct r data :
  let n := pub_block r in
  if existsb (λ p, pf_block_number p =? n) (cd_proofs (as_db data)) then publish r data = Val (Err "duplicate key", data)
  else ∃ data', publish r data = Val (Ok tt, data') ∧ load_proof n (as_db data') = Val (Ok (pub_proof r)) ∧
    pool_get n (as_preparing_data_pool data') = None ∧
    (∀ k, k ≠ n → pool_get k (as_preparing_data_pool data') = pool_get k (as_preparing_data_pool data) ∧
                  load_proof k (as_db data') = load_proof k (as_db data)) ∧
    as_jobs data' = as_jobs data ∧ cd_state (as_db data') = cd_state (as_db data) ∧
    ∀ now timeout size jobs, ¬ unassigned now timeout size (as_db data') jobs n.
Proof.
  intros n. unfold publish, store_proof. fold n. destruct (existsb _ _) eqn:E; [done|]. eexists. split; [reflexivity|]. cbn [as_db as_preparing_data_pool as_jobs].
  split_and!; try done.
  - unfold load_proof. cbn [cd_proofs]. rewrite List.filter_app, filter_none; cbn.
    + rewrite Z.eqb_refl. cbn. by rewrite proof_json.
    + intros p Hp. destruct (pf_block_number p =? n) eqn:Ep; [|done]. assert (existsb (λ p, pf_block_number p =? n) (cd_proofs (as_db data)) = true) as E'.
      { apply existsb_spec. by exists p. } by rewrite E in E'.
  - unfold pool_get, clean_up. cbn. apply lookup_delete_eq.
  - intros k Hk. split; [unfold pool_get, clean_up; cbn; by apply lookup_delete_ne|]. unfold load_proof. cbn [cd_proofs].
    rewrite filter_snoc_other; [done|]. cbn. by apply Z.eqb_neq.
  - intros now timeout size jobs [_ _ Hp _ _]. cbn in Hp. apply Forall_app in Hp as [_ Hp]. apply Forall_cons in Hp as [Hp _]. by apply Hp.
Qed.

(** ** Requests that interleave *)

Inductive phase : Type :=
| Waiting
| Selected (block : option Z)
| Answered (run : option ProverRun).

Record Request : Type := mkRequest { req_worker : string; req_phase : phase }.

(** A step of one of the requests, at a time and with a block size: the locked query, or the insertion. *)
Inductive job_step (now timeout : Z) (size : nat) db : ProverTables * list Request → ProverTables * list Request → Prop :=
| step_select jobs rs i w :
    rs !! i = Some (mkRequest w Waiting) →
    job_step now timeout size db (jobs, rs) (jobs, <[i := mkRequest w (Selected (select_job now timeout size db jobs))]> rs)
| step_insert jobs rs i w n run jobs' :
    rs !! i = Some (mkRequest w (Selected (Some n))) → insert_run now w n jobs = (run, jobs') →
    job_step now timeout size db (jobs, rs) (jobs', <[i := mkRequest w (Answered (Some run))]> rs)
| step_none jobs rs i w :
    rs !! i = Some (mkRequest w (Selected None)) →
    job_step now timeout size db (jobs, rs) (jobs, <[i := mkRequest w (Answered None)]> rs).

(** Without interleaving the steps of a request are [prover_run_for_next_commit]. *)
Lemma job_steps_serial now timeout size db jobs rs i w :
  rs !! i = Some (mkRequest w Waiting) →
  let '(run, jobs') := prover_run_for_next_commit now w timeout size db jobs in
  rtc (job_step now timeout size db) (jobs, rs) (jobs', <[i := mkRequest w (Answered run)]> rs).
Proof.
  intros Hi. pose proof (lookup_lt_Some _ _ _ Hi) as Hlt. pose proof (step_select now timeout size db jobs rs i w Hi) as Hsel. revert Hsel.
  unfold prover_run_for_next_commit. destruct (select_job now timeout size db jobs) as [n|]; intros Hsel.
  - destruct (insert_run now w n jobs) as [run jobs'] eqn:E. eapply rtc_l; [exact Hsel|]. apply rtc_once.
    rewrite <- (list_insert_insert_eq rs i (mkRequest w (Answered (Some run))) (mkRequest w (Selected (Some n)))). eapply step_insert; [by apply list_lookup_insert_eq|exact E].
  - eapply rtc_l; [exact Hsel|]. apply rtc_once.
    rewrite <- (list_insert_insert_eq rs i (mkRequest w (Answered None)) (mkRequest w (Selected None))). eapply step_none. by apply list_lookup_insert_eq.
Qed.

(** The lock does not keep two provers from the same block: whenever a block is free, two
    requests of its size that run their queries before either of them has inserted its job are both given
    it, as two different live jobs. *)
Theorem concurrent_provers_share_a_block now timeout size db jobs w1 w2 n :
  Forall (λ o, fits 32 (so_block_number o)) (t_operations (cd_state db)) → 0 < timeout →
  unassigned now timeout size db jobs n →
  ∃ jobs' run1 run2,
    rtc (job_step now timeout size db) (jobs, [mkRequest w1 Waiting; mkRequest w2 Waiting])
      (jobs', [mkRequest w1 (Answered (Some run1)); mkRequest w2 (Answered (Some run2))]) ∧
    run_block_number run1 = run_block_number run2 ∧ run_id run1 ≠ run_id run2 ∧
    run1 ∈ t_prover_runs jobs' ∧ run2 ∈ t_prover_runs jobs' ∧ live now timeout run1 ∧ live now timeout run2.
Proof.
  intros Hfit Ht Hn. pose proof (select_job_spec now timeout size db jobs Hfit) as Hs.
  destruct (select_job now timeout size db jobs) as [b|] eqn:Eb; [|by destruct (Hs n)]. clear Hs.
  destruct (insert_run now w1 b jobs) as [run1 jobs1] eqn:E1. destruct (insert_run now w2 b jobs1) as [run2 jobs2] eqn:E2.
  exists jobs2, run1, run2. split.
  - eapply rtc_l; [by apply (step_select _ _ _ _ _ _ 0)|]. rewrite Eb. eapply rtc_l; [by apply (step_select _ _ _ _ _ _ 1)|]. rewrite Eb.
    eapply rtc_l; [by eapply (step_insert _ _ _ _ _ _ 0)|]. apply rtc_once.
    exact (step_insert now timeout size db jobs1 [mkRequest w1 (Answered (Some run1)); mkRequest w2 (Selected (Some b))] 1 w2 b run2 jobs2 eq_refl E2).
  - unfold insert_run in E1, E2. injection E1 as <- <-. injection E2 as <- <-. cbn. split_and!; [done|lia|set_solver|set_solver|..]; unfold live; cbn; lia.
Qed.
End Jobs.
