(* ===== verification/Observer.v ===== *)
(** * Observer mode (core/server/src/observer_mode.rs)

    Until a server becomes the leader it follows the database: it keeps the parameters
    from which the state keeper will start, at the last committed block, and the account
    tree from which the prover server will start, at the last verified block.
    The database is an argument of the methods. *)

From S2P Require Import Prelude Bytes Params Externals Primitives Amounts Account Tx Operations Block Merkle ParallelSmt.
From S2P Require Import ParallelSmtProofs AccountLeaf PlasmaState PlasmaProofs StateKeeper StateKeeperProofs EthStorage ExecLogic Storage.
From S2P Require Import StorageProofs BlockStorage BlockStorageProofs Committer DataRestore CircuitTree Witness WitnessOps WitnessProofs.
From S2P Require Import WitnessLedger WitnessFollows ProverPool BlockWitness ProverPoolProofs.
Open Scope Z_scope.

Section Observer.
  Context `{C : Codec} {Tree : Type} `{ST : !SparseTree Tree Account Fr} (now : Z).

Record ObservedState : Type := mkObservedState {
  state_keeper_init : PlasmaStateInitParams Tree;
  circuit_acc_tree : CircuitAccountTree;
  circuit_tree_block : BlockNumber;
}.

Definition set_keeper_init (ip : PlasmaStateInitParams Tree) (s : ObservedState) : ObservedState :=
  mkObservedState ip (circuit_acc_tree s) (circuit_tree_block s).
Definition set_circuit_tree (t : CircuitAccountTree) (s : ObservedState) : ObservedState :=
  mkObservedState (state_keeper_init s) t (circuit_tree_block s).
Definition set_tree_block (n : Z) (s : ObservedState) : ObservedState :=
  mkObservedState (state_keeper_init s) (circuit_acc_tree s) n.

Definition ObservedState_new : outcome ObservedState :=
  state_keeper_init ← InitParams_new;
  circuit_acc_tree ← smt_new account_tree_depth;
  Val (mkObservedState state_keeper_init circuit_acc_tree 0).

(** [for (account_id, account) in accounts]: the map is iterated in the order of [map_to_list]. *)
Fixpoint insert_circuit_accounts (accounts : list (Z * Account)) (tree : CircuitAccountTree) : outcome CircuitAccountTree :=
  match accounts with
  | [] => Val tree
  | (account_id, account) :: accounts =>
      circuit_account ← CircuitAccount_from account;
      tree ← smt_insert tree account_id circuit_account;
      insert_circuit_accounts accounts tree
  end.

Definition init_circuit_tree (storage : ChainDb) : Exec ObservedState unit :=
  loaded ← total (StateSchema.load_verified_state (cd_state storage));
  let '(block_number, accounts) := loaded in
  _ ← zoom circuit_acc_tree set_circuit_tree (update (insert_circuit_accounts (map_to_list accounts)));
  update (λ s, Val (set_tree_block block_number s)).

(** [get_operation(block_number, COMMIT)] and [into_op], as [unprocessed_priority_op_id] uses them. *)
Definition committed_op_block (block_number : Z) (storage : ChainDb) : Fallible (option Block) :=
  match get_operation block_number COMMIT storage with
  | Some storage_op => op ← into_op now storage storage_op; Val (Ok (Some (op_block op)))
  | None => Val (Ok None)
  end.
Definition committed_ops_at (block_number : Z) (storage : ChainDb) : outcome (BlockNumber → result (option Block)) :=
  match committed_op_block block_number storage with
  | Val r => Val (λ _, r)
  | Panic msg => Panic msg
  end.

Definition observer_init (storage : ChainDb) : Exec ObservedState unit :=
  _ ← init_circuit_tree storage;
  committed_state ← total (StateSchema.load_committed_state None (cd_state storage));
  committed_ops ← total (committed_ops_at committed_state.1 storage);
  zoom state_keeper_init set_keeper_init (load_from_db (Ok committed_state) committed_ops).

(** The match of [apply]. *)
Definition apply_op (op : FranklinOp) : Exec CircuitAccountTree unit :=
  match op with
  | OpDeposit deposit => _ ← apply_tx deposit; mret tt
  | OpTransfer transfer => _ ← apply_tx transfer; mret tt
  | OpTransferToNew transfer_to_new => _ ← apply_tx transfer_to_new; mret tt
  | OpWithdraw withdraw => _ ← apply_tx withdraw; mret tt
  | OpClose close => _ ← apply_tx close; mret tt
  | OpFullExit _ => total (Panic "not yet implemented")
  | OpChangePubKeyOffchain change_pkhash_op => _ ← apply_tx change_pkhash_op; mret tt
  | OpNoop => mret tt
  end.
Fixpoint observer_apply (ops : list FranklinOp) : Exec CircuitAccountTree unit :=
  match ops with
  | [] => mret tt
  | op :: ops => _ ← apply_op op; observer_apply ops
  end.

(** [for bn in circuit_tree_block..block_number], [n] rounds from [bn]. *)
Fixpoint apply_blocks (storage : ChainDb) (bn : Z) (n : nat) : Exec CircuitAccountTree unit :=
  match n with
  | O => mret tt
  | S n =>
      ops ← total (get_block_operations now (wrap 32 (bn + 1)) storage);
      _ ← observer_apply ops;
      apply_blocks storage (bn + 1) n
  end.

Definition update_circuit_account_tree (storage : ChainDb) : Exec ObservedState unit :=
  let block_number := get_last_verified_block (cd_state storage) in
  from ← gets circuit_tree_block;
  _ ← zoom circuit_acc_tree set_circuit_tree (apply_blocks storage from (Z.to_nat (block_number - from)));
  update (λ s, Val (set_tree_block block_number s)).

Definition observer_update (storage : ChainDb) : Exec ObservedState unit :=
  _ ← update_circuit_account_tree storage;
  last ← gets (λ s, last_block_number (state_keeper_init s));
  state_diff ← total (StateSchema.load_state_diff last None (cd_state storage));
  committed_ops ← total match state_diff with
                        | Some (block_number, _) => committed_ops_at block_number storage
                        | None => Val (λ _, Ok None)
                        end;
  zoom state_keeper_init set_keeper_init (load_state_diff (Ok state_diff) committed_ops).
End Observer.
Arguments ObservedState {EX} Tree.

(** ** Correctness *)
Section Proofs.
  Context `{EX : External} {EXL : ExternalLaws} {C : Codec} {L : CodecLaws} {Tree : Type} `{ST : !SparseTree Tree Account Fr}.
  Context `{SL : !SparseTreeLaws Tree Account Fr} (now : Z).
  Implicit Types (m : AccountMap) (t : CircuitAccountTree) (s : ObservedState Tree).

(** *** The tree of the verified state *)

Lemma CircuitAccount_from_like a : tokens_ok a → ∃ ca, CircuitAccount_from a = Val ca ∧ account_like ca a.
Proof.
  intros Hok. unfold CircuitAccount_from. rewrite default_circuit_account_Val. cbn [mbind outcome_bind].
  destruct default_circuit_account_fields as (Hst & Hi & _).
  destruct (insert_tokens_spec _ (get_tokens a) Hst) as [[_ (st & -> & Hst' & Hi')]|[Hno _]].
  { apply Forall_forall. intros u Hu%get_tokens_elem. by apply token_ok_range, Hok. }
  - cbn [mbind outcome_bind]. eexists. split; [done|]. split; [done| |done..]. intros k. cbn [ca_subtree].
    rewrite Hi', Hi, foldl_insert_lookup, token_items_lookup, lookup_empty. f_equal.
    pose proof (get_tokens_elem a k). repeat case_decide; naive_solver.
  - exfalso. apply Hno, Forall_forall. intros u Hu%get_tokens_elem. by apply Hok.
Qed.

Lemma empty_mirrors : ∃ t, smt_new account_tree_depth = Val t ∧ mirrors t ∅.
Proof.
  destruct (smt_new_ok (T := CircuitAccount) (Hash := Fr) account_tree_depth) as (t & E & Hok & Hi); [cbv; lia| |].
  { eexists. apply account_like_bits, account_like_default. }
  exists t. split; [done|]. split; [done|..].
  - intros k. unfold leaf_at, account_at. rewrite Hi, !lookup_empty. apply account_like_default.
  - intros k [? H]. by rewrite lookup_empty in H.
Qed.

(** The accounts of a consistent state, as a map that can be loaded. *)
Lemma state_map_ok (s : PlasmaState Tree) : state_ok s → Z.of_nat (size (accounts s)) ≤ 2 ^ 24 → account_map_ok (accounts s).
Proof.
  intros [_ H2 H3] Hsize. split; [exact H3|]. split; [exact Hsize|]. intros id id' a a' Ha Ha' Had.
  assert (account_id_by_address s !! address a = Some id) as E1 by (apply H2; by exists a).
  assert (account_id_by_address s !! address a = Some id') as E2 by (apply H2; by exists a'). congruence.
Qed.

Lemma ObservedState_new_Val : ∃ s0, ObservedState_new (Tree := Tree) = Val s0.
Proof.
  unfold ObservedState_new, InitParams_new. destruct (tree_new_ok (Tree := Tree) account_tree_depth) as (t & -> & _); [cbv; lia| |].
  { eexists. apply account_bits_ok, (tokens_ok_default (replicate 20 0)). }
  cbn [mbind outcome_bind]. destruct empty_mirrors as (t' & -> & _). by eexists.
Qed.

Lemma insert_circuit_accounts_ok l : ∀ t m,
  mirrors t m → Forall (λ p, leaf_ok account_tree_depth p.1 ∧ tokens_ok p.2) l →
  ∃ t', insert_circuit_accounts l t = Val t' ∧ mirrors t' (foldl (λ (m : AccountMap) p, <[p.1 := p.2]> m) m l).
Proof.
  induction l as [|[id a] l IH]; intros t m Hm Hl; [by exists t|]. apply Forall_cons in Hl as [[Hid Ha] Hl].
  cbn [insert_circuit_accounts foldl]. destruct (CircuitAccount_from_like a Ha) as (ca & -> & Hca). cbn [mbind outcome_bind].
  destruct (smt_insert_ok account_tree_depth t id ca (mi_tree _ _ Hm) Hid) as (t1 & -> & Hok & Hi). cbn [mbind outcome_bind].
  apply IH; [|done]. by eapply mirrors_insert.
Qed.

Lemma foldl_insert_map (l : list (Z * Account)) m : NoDup l.*1 → foldl (λ (m : AccountMap) p, <[p.1 := p.2]> m) m l = list_to_map l ∪ m.
Proof.
  revert m. induction l as [|[id a] l IH]; intros m Hnd; cbn [foldl list_to_map foldr]; [by rewrite map_empty_union|].
  rewrite fmap_cons in Hnd. apply NoDup_cons in Hnd as [Hnin Hnd]. rewrite IH by done. cbn [fst snd].
  rewrite <- insert_union_r; [by rewrite insert_union_l|]. by apply not_elem_of_list_to_map_1.
Qed.

Definition tree_fits m : Prop := leaves_ok m ∧ ∀ id, is_Some (m !! id) → leaf_ok account_tree_depth id.

Lemma init_tree_ok m t : mirrors t ∅ → tree_fits m → ∃ t', insert_circuit_accounts (map_to_list m) t = Val t' ∧ mirrors t' m.
Proof.
  intros Ht [Hok Hid]. destruct (insert_circuit_accounts_ok (map_to_list m) t ∅ Ht) as (t' & E & Hm).
  - apply Forall_forall. intros [id a] Hin%elem_of_map_to_list. split; [apply Hid; by eexists|by eapply Hok].
  - exists t'. split; [done|]. rewrite foldl_insert_map, list_to_map_to_list, map_union_empty in Hm by apply NoDup_fst_map_to_list. done.
Qed.

(** *** The parameters of the keeper *)

Lemma init_params_accounts l : ∀ (ip : PlasmaStateInitParams Tree) b (s' : PlasmaState Tree),
  insert_accounts l (mkPlasmaState (ip_tree ip) (acc_id_by_addr ip) b) = Val s' →
  ∃ ip', InitParams_insert_accounts l ip = Val ip' ∧ ip_tree ip' = token_tree s' ∧ acc_id_by_addr ip' = account_id_by_address s'.
Proof.
  induction l as [|[id a] l IH]; intros ip b s' H; cbn [insert_accounts InitParams_insert_accounts] in *; [injection H as <-; by exists ip|].
  apply outcome_bind_Val in H as (s1 & H1 & H). unfold insert_account in H1. apply outcome_bind_Val in H1 as (t & H1 & E).
  injection E as <-. cbn [token_tree account_id_by_address ps_block_number] in *. unfold InitParams_insert_account. rewrite H1. cbn [mbind outcome_bind].
  by eapply (IH (mkInitParams t _ _ _)).
Qed.

Lemma load_from_db_ok (ip : PlasmaStateInitParams Tree) n m ops op_id :
  InitParams_new = Val ip → account_map_ok m → unprocessed_priority_op_id ops n = Ok op_id →
  ∃ ip', load_from_db (Ok (n, m)) ops ip = Val (Ok tt, ip') ∧ index_ok (ip_state ip') ∧ ip_accounts ip' = m ∧
    last_block_number ip' = n ∧ ip_unprocessed_priority_op ip' = op_id.
Proof.
  intros Hnew Hm Hop. destruct (from_acc_map_ok (Tree := Tree) m 0) as (s & Hs & [Hok Hidx _] & Hacc & _); [|done|].
  { eexists. apply account_bits_ok, (tokens_ok_default (replicate 20 0)). }
  unfold from_acc_map, PlasmaState_empty in Hs. unfold InitParams_new in Hnew.
  destruct (tree_new account_tree_depth) as [t|]; [|done]. cbn [mbind outcome_bind] in *. injection Hnew as <-. cbn [token_tree account_id_by_address] in Hs.
  destruct (init_params_accounts (map_to_list m) (mkInitParams t ∅ 0 0) 0 s Hs) as (ip' & E & Et & Ea).
  unfold load_from_db, lift, update, mbind, exec_bind. cbn beta iota zeta.
  rewrite E, Hop. eexists. split; [reflexivity|].
  unfold index_ok, ip_accounts, ip_state, accounts, PlasmaState_new. cbn. rewrite Et, Ea. done.
Qed.

Lemma committed_op_Val db0 hist blocks c v db n :
  stored_chain now db0 hist blocks c v db → t_operations (cd_state db0) = [] → ∃ r, committed_op_block now n db = Val (Ok r).
Proof.
  intros H H0. pose proof (stored_chain_ok _ _ _ _ _ _ _ H) as Hok. destruct (ck_stored _ _ _ _ _ _ Hok) as [ds Hs].
  unfold committed_op_block, get_operation. destruct (head _) as [[id b ty cf]|] eqn:E; [|by eexists].
  apply head_Some_elem_of, list_elem_of_In, List.filter_In in E as [Hin [_ E]%andb_prop]. cbn [so_action_type] in E. apply bool_decide_eq_true in E.
  assert (mkStoredOperation id b ty cf ∈ commit_rows db) as Hrow.
  { apply list_elem_of_In, List.filter_In. split; [done|]. by apply bool_decide_eq_true. }
  destruct (stored_commits now _ _ _ _ _ _ H H0) as (_ & _ & Hpos). apply list_elem_of_lookup in Hrow as (i & Hi).
  destruct (Forall2_lookup_l _ _ _ _ _ (commit_row_of now _ _ _ _ _ _ H H0) Hi) as (bl & _ & Eb & Et & Hbl). cbn in Eb. subst b ty.
  assert (0 < block_number bl) as Hp by (rewrite Forall_forall in Hpos; by apply Hpos, list_elem_of_fmap_2).
  change "COMMIT"%string with (ActionType_to_string COMMIT).
  rewrite (into_op_back now hist ds blocks c v db id bl COMMIT ACommit cf Hok Hs Hbl Hp eq_refl). by eexists.
Qed.

(** C21: A server that becomes the leader starts where the database is: from empty parameters,
    the initialisation loads the last committed accounts, with an exact index of addresses, for the
    keeper, and builds the account tree of the last verified block for the prover
    server, whose maintainer then waits for the block after it. *)
Theorem observer_init_correct db0 hist blocks c v db s0 :
  stored_chain now db0 hist blocks c v db → t_operations (cd_state db0) = [] →
  account_map_ok (apply_updates ∅ (snd <$> hist)) → tree_fits (state_at hist v) → v + 1 < 2 ^ 32 → ObservedState_new = Val s0 →
  ∃ s n op_id, observer_init now db s0 = Val (Ok tt, s) ∧
    StateSchema.load_committed_state None (cd_state db) = Val (n, apply_updates ∅ (snd <$> hist)) ∧
    index_ok (ip_state (state_keeper_init s)) ∧ ip_accounts (state_keeper_init s) = apply_updates ∅ (snd <$> hist) ∧
    last_block_number (state_keeper_init s) = n ∧ ip_unprocessed_priority_op (state_keeper_init s) = op_id ∧
    circuit_tree_block s = v ∧ mirrors (circuit_acc_tree s) (state_at hist v) ∧
    maintainer_at (v + 1) (state_at hist v) (Maintainer_new (ProversDataPool_new (circuit_tree_block s) 10) (circuit_acc_tree s) (circuit_tree_block s)).
Proof.
  intros H H0 Hmap Hfits Hv32 Hnew. pose proof (stored_chain_ok _ _ _ _ _ _ _ H) as Hok. pose proof (chain_last_verified now _ _ _ _ _ Hok) as Hv.
  unfold ObservedState_new in Hnew. apply outcome_bind_Val in Hnew as (ip & Hip & Hnew). apply outcome_bind_Val in Hnew as (t0 & Ht0 & Hnew). injection Hnew as <-.
  destruct empty_mirrors as (t & Et & Hm0). rewrite Ht0 in Et. injection Et as <-.
  destruct (init_tree_ok (state_at hist v) t0 Hm0 Hfits) as (t1 & E1 & Hm1).
  destruct (load_latest now _ _ _ _ _ _ H) as [n Hn]. destruct (committed_op_Val _ _ _ _ _ _ n H H0) as [r Er].
  assert (∃ op_id, unprocessed_priority_op_id (λ _, Ok r) n = Ok op_id) as [op_id Hop].
  { unfold unprocessed_priority_op_id. destruct r; by eexists. }
  destruct (load_from_db_ok ip n (apply_updates ∅ (snd <$> hist)) (λ _, Ok r) op_id Hip Hmap Hop) as (ip' & E & Hidx & Hacc & Hlast & Hid).
  exists (mkObservedState ip' t1 v), n, op_id. split.
  - unfold observer_init, init_circuit_tree, zoom, update, gets, total, lift, lift_outcome, mbind, exec_bind.
    rewrite (load_verified_represents _ _ (ck_snapshot _ _ _ _ _ _ Hok)), Hv. cbn [circuit_acc_tree set_circuit_tree set_tree_block state_keeper_init circuit_tree_block].
    rewrite E1. cbn [fst]. rewrite Hn. unfold committed_ops_at. cbn [fst]. rewrite Er. cbn [state_keeper_init set_circuit_tree set_tree_block]. rewrite E. done.
  - do 7 (split; [done|]). destruct (ck_bounds _ _ _ _ _ _ Hok). split; cbn; [f_equal; lia|apply wrap_small; unfold fits; lia|done].
Qed.

(** *** Following the verified blocks *)

Lemma apply_op_runs {Op} `{W : !WitnessOf Op} (inj : Op → FranklinOp) code `{F : !FollowsLedger Op inj code} (op : Op) t m us m' :
  mirrors t m → provable_from 1 m → op_provable (inj op) → ledger_step m (inj op) us m' → op_addressed m (inj op) → op_token_ok (inj op) →
  runs (_ ← apply_tx op; mret tt) t (λ _ t', mirrors t' m').
Proof.
  intros Hm Hp Hop Hstep Haddr Htok. apply runs_bind. eapply runs_mono; [by eapply (follows_ledger t m op us m')|].
  intros w t' [Hm' _]. by apply runs_ret.
Qed.

Lemma apply_op_follows op t m us m' :
  mirrors t m → provable_from 1 m → op_provable op → ledger_step m op us m' → op_addressed m op → op_token_ok op →
  runs (apply_op op) t (λ _ t', mirrors t' m').
Proof.
  intros Hm Hp Hop Hstep Haddr Htok.
  destruct op as [|op|op|op|op|op|op|op]; cbn [apply_op]; [by inversion Hstep|..|by destruct Hop|].
  - by eapply (apply_op_runs OpDeposit 1 (F := deposit_follows)).
  - by eapply (apply_op_runs OpTransferToNew 2 (F := transfer_to_new_follows)).
  - by eapply (apply_op_runs OpWithdraw 3 (F := withdraw_follows)).
  - by inversion Hstep.
  - by eapply (apply_op_runs OpTransfer 5 (F := transfer_follows)).
  - by eapply (apply_op_runs OpChangePubKeyOffchain 7 (F := change_pubkey_follows)).
Qed.

Lemma observer_apply_app ops ops' t Q :
  runs (observer_apply ops) t (λ _ t, runs (observer_apply ops') t Q) → runs (observer_apply (ops ++ ops')) t Q.
Proof.
  revert t. induction ops as [|op ops IH]; intros t (u & t' & E & H); cbn [observer_apply app].
  - injection E as <- <-. exact H.
  - cbn [observer_apply] in E. apply exec_bind_Ok in E as (u1 & t1 & E1 & E2). apply runs_bind. exists u1, t1. split; [done|].
    apply IH. by exists u, t'.
Qed.

Lemma observer_apply_runs ops us m m' n t :
  ledger_run m ops us m' → mirrors t m → 0 ≤ n → provable_from (n + Z.of_nat (length ops)) m → Forall op_provable ops →
  runs (observer_apply ops) t (λ _ t', mirrors t' m').
Proof.
  intros Hrun Hm. revert n. induction Hrun as [|ops us m1 op us1 m2 Hrun IH Hstep Haddr Htok]; intros n Hn Hp Hops; [by apply runs_ret|].
  apply Forall_app in Hops as [Hops Hop]. apply Forall_cons in Hop as [Hop _]. rewrite length_app in Hp. cbn [length] in Hp.
  assert (provable_from (n + 1 + Z.of_nat (length ops)) m) as Hp1
    by (by replace (n + 1 + Z.of_nat (length ops)) with (n + Z.of_nat (length ops + 1)) by lia).
  apply observer_apply_app. eapply runs_mono; [apply (IH (n + 1)); [lia|done|done]|]. intros [] t1 Hm1.
  cbn [observer_apply]. apply runs_bind. eapply runs_mono; [eapply (apply_op_follows op t1 m1); try done|].
  { apply (provable_less m1 n 1); [|lia|lia]. eapply provable_run; [exact Hrun|lia|exact Hp1|done]. }
  intros [] t' Hm'. by apply runs_ret.
Qed.

(** The loop over the blocks follows a chain, from its first block on. *)
Lemma apply_blocks_app storage bn k n t Q :
  runs (apply_blocks now storage bn k) t (λ _ t, runs (apply_blocks now storage (bn + Z.of_nat k) n) t Q) → runs (apply_blocks now storage bn (k + n)) t Q.
Proof.
  revert bn t. induction k as [|k IH]; intros bn t (u & t' & E & H); cbn [apply_blocks Nat.add].
  - injection E as <- <-. by rewrite Z.add_0_r in H.
  - cbn [apply_blocks] in E. apply exec_bind_Ok in E as (ops & t0 & E0 & E). apply exec_bind_Ok in E as (u1 & t1 & E1 & E2).
    apply runs_bind. exists ops, t0. split; [done|]. apply runs_bind. exists u1, t1. split; [done|]. apply IH. exists u, t'. split; [done|].
    by replace (bn + 1 + Z.of_nat k) with (bn + Z.of_nat (S k)) by lia.
Qed.

Lemma apply_blocks_runs db szs b p m cs n' p' m' :
  chain szs (b + 1) p m cs n' p' m' → 0 ≤ b → b + Z.of_nat (length cs) + 1 < 2 ^ 32 →
  Forall (λ c, block_fits (cr_block c) ∧ block_rows now db (block_number (cr_block c)) (block_transactions (cr_block c))) cs →
  ∀ t N, mirrors t m → 0 ≤ N → provable_from (N + Z.of_nat (length (all_ops cs))) m → Forall op_provable (all_ops cs) →
  runs (apply_blocks now db b (length cs)) t (λ _ t', mirrors t' m').
Proof.
  intros Hch Hb. induction Hch as [|cs n' p' m1 c m2 Hch IH Hbl]; intros Hlt Hrows t N Hm HN Hp Hops; [by apply runs_ret|].
  destruct (chain_numbers _ _ _ _ _ _ _ _ Hch) as [En _]; [unfold fits; lia|].
  rewrite length_app in Hlt. cbn [length] in Hlt. apply Forall_app in Hrows as [Hr1 Hr2]. apply Forall_cons in Hr2 as [[Hfit Hrow] _].
  assert (all_ops (cs ++ [c]) = all_ops cs ++ block_ops (cr_block c)) as Eall.
  { unfold all_ops. rewrite fmap_app, join_app. cbn. by rewrite app_nil_r. }
  rewrite Eall in Hp, Hops. rewrite length_app in Hp. apply Forall_app in Hops as [Ho1 Ho2].
  set (N1 := N + Z.of_nat (length (block_ops (cr_block c)))).
  assert (provable_from (N1 + Z.of_nat (length (all_ops cs))) m) as Hp1
    by (unfold N1; by replace (N + Z.of_nat (length (block_ops (cr_block c))) + Z.of_nat (length (all_ops cs)))
      with (N + Z.of_nat (length (all_ops cs) + length (block_ops (cr_block c)))) by lia).
  assert (provable_from N1 m1) as Hp2 by (eapply provable_run; [apply (chain_run _ _ _ _ _ _ _ _ Hch)|lia|exact Hp1|exact Ho1]).
  rewrite length_app. apply apply_blocks_app. eapply runs_mono; [apply (IH ltac:(lia) Hr1 t N1 Hm); [lia|exact Hp1|exact Ho1]|].
  intros [] t1 Hm1. cbn [length apply_blocks]. pose proof Hfit as (_ & _ & _ & _ & _ & Hex & Hord).
  assert (wrap 32 (b + Z.of_nat (length cs) + 1) = block_number (cr_block c)) as ->.
  { rewrite (bo_number _ _ _ _ _ _ Hbl), En. f_equal. lia. }
  apply runs_bind. eapply runs_total; [by apply block_ops_back|]. apply runs_bind.
  eapply runs_mono; [eapply (observer_apply_runs _ _ m1 m2 N); [apply serde_run, Hbl|exact Hm1|lia|by rewrite length_fmap|]|].
  { apply Forall_fmap. eapply Forall_impl; [exact Ho2|]. intros op. apply serde_provable. }
  intros [] t' Hm'. by apply runs_ret.
Qed.

(** An observer follows the verified blocks: its tree is at the state of an earlier block and the
    blocks from there to the last verified one are blocks of the keeper with operations that can
    be replayed; then an update of the tree succeeds and leaves it at the state of the last verified block. *)
Theorem observer_follows_verified db0 hist blocks c v db szs b p m cs n' p' m' s :
  stored_chain now db0 hist blocks c v db →
  mirrors (circuit_acc_tree s) m → circuit_tree_block s = b → 0 ≤ b → v + 1 < 2 ^ 32 →
  chain szs (b + 1) p m cs n' p' m' → v = b + Z.of_nat (length cs) → Forall (λ req, cr_block req ∈ blocks) cs →
  provable_from (Z.of_nat (length (all_ops cs))) m → Forall op_provable (all_ops cs) →
  ∃ s', update_circuit_account_tree now db s = Val (Ok tt, s') ∧ mirrors (circuit_acc_tree s') m' ∧ circuit_tree_block s' = v ∧
    state_keeper_init s' = state_keeper_init s.
Proof.
  intros H Hm Hb Hb0 Hv32 Hch Hv Hin Hp Hops. pose proof (stored_chain_ok _ _ _ _ _ _ _ H) as Hok.
  pose proof (chain_last_verified now _ _ _ _ _ Hok) as Hlast.
  assert (Forall (λ c, block_fits (cr_block c) ∧ block_rows now db (block_number (cr_block c)) (block_transactions (cr_block c))) cs) as Hrows.
  { eapply Forall_impl; [exact Hin|]. intros req Hreq. cbn in Hreq. by destruct (ck_rows _ _ _ _ _ _ Hok _ Hreq) as (? & _ & ?). }
  destruct (apply_blocks_runs db szs b p m cs n' p' m' Hch Hb0 ltac:(lia) Hrows (circuit_acc_tree s) 0 Hm (Z.le_refl 0) Hp Hops) as ([] & t' & E & Hm').
  unfold update_circuit_account_tree, zoom, gets, update, mbind, exec_bind. rewrite Hlast, Hb.
  replace (Z.to_nat (v - b)) with (length cs) by lia. rewrite E. eexists. split; [reflexivity|]. done.
Qed.
End Proofs.
