(* ===== verification/RestoreStorage.v ===== *)
(** * The restore driver and its tables
    (core/data_restore/src/data_restore_driver.rs, storage_interactor.rs,
     core/storage/src/data_restore/mod.rs, records.rs)

    The driver stores what it has done after each step, so that it can be stopped and
    continued: the events, then the decoded operations, then the blocks, each in one
    transaction of the database.  Its steps run on the driver of [DataRestore] without the
    lists of what was saved, over the tables of [BlockStorage] and its own.  [now] is the
    clock when rows are read. *)

From S2P Require Import Prelude Bytes Params Externals Primitives Amounts Account Tx Decimal Operations Block.
From S2P Require Import Merkle AccountLeaf PlasmaState PlasmaProofs Ledger StateKeeper StateKeeperProofs TreeState EventsState DataRestore.
From S2P Require Import EthStorage Storage StorageProofs BlockStorage BlockStorageProofs Committer.
Open Scope Z_scope.

(** ** Records *)

Record StoredBlockEvent : Type := mkStoredBlockEvent {
  sv_id : Z;
  sv_block_type : string;
  sv_transaction_hash : bytes;
  sv_block_num : Z;
}.

Inductive StorageUpdateState : Type := SuNone | SuEvents | SuOperations.

Section RestoreStorage.
  Context `{C : Codec} {Tree : Type} `{ST : !SparseTree Tree Account Fr}.
  Context (now : Z) (utc_now : nat → Z).
  Context (transaction : Z → result bytes) (decode : bytes → option (list EthToken)).

Record StoredFranklinOp : Type := mkStoredFranklinOp {
  sf_id : Z;
  sf_block_num : Z;
  sf_operation : Value;
  sf_fee_account : Z;
}.

(** The tables of the driver and those of the node. *)
Record RestoreDb : Type := mkRestoreDb {
  rd_chain : ChainDb;
  rd_events_state : list StoredBlockEvent;
  rd_events_seq : Z;
  rd_rollup_ops : list StoredFranklinOp;
  rd_rollup_ops_seq : Z;
  rd_last_watched_eth_block : list bytes;
  rd_storage_state_update : list string;
  rd_eth_parameters : option ETHParams;
}.

Definition set_rd_chain (c : ChainDb) (db : RestoreDb) : RestoreDb :=
  mkRestoreDb c (rd_events_state db) (rd_events_seq db) (rd_rollup_ops db) (rd_rollup_ops_seq db)
    (rd_last_watched_eth_block db) (rd_storage_state_update db) (rd_eth_parameters db).

(** ** The schema *)

Definition update_storage_state (state : string) (db : RestoreDb) : RestoreDb :=
  mkRestoreDb (rd_chain db) (rd_events_state db) (rd_events_seq db) (rd_rollup_ops db) (rd_rollup_ops_seq db)
    (rd_last_watched_eth_block db) [state] (rd_eth_parameters db).

Definition update_last_watched_block_number (number : bytes) (db : RestoreDb) : RestoreDb :=
  mkRestoreDb (rd_chain db) (rd_events_state db) (rd_events_seq db) (rd_rollup_ops db) (rd_rollup_ops_seq db)
    [number] (rd_storage_state_update db) (rd_eth_parameters db).

(** The ids of the new rows. *)
Definition numbered {A B} (f : Z → A → B) (seq : Z) (l : list A) : list B :=
  imap (λ i x, f (seq + Z.of_nat i) x) l.

Definition update_block_events (events : list (string * bytes * Z)) (db : RestoreDb) : RestoreDb :=
  mkRestoreDb (rd_chain db) (numbered (λ id e, mkStoredBlockEvent id e.1.1 e.1.2 e.2) (rd_events_seq db) events)
    (rd_events_seq db + Z.of_nat (length events)) (rd_rollup_ops db) (rd_rollup_ops_seq db)
    (rd_last_watched_eth_block db) (rd_storage_state_update db) (rd_eth_parameters db).

Definition schema_save_events_state (block_events : list (string * bytes * Z)) (last_watched_eth_number : bytes)
    (db : RestoreDb) : RestoreDb :=
  update_storage_state "Events" (update_last_watched_block_number last_watched_eth_number (update_block_events block_events db)).

Definition prepare_stored_op (franklin_op : FranklinOp) (block fee_account : Z) (id : Z) : StoredFranklinOp :=
  mkStoredFranklinOp id block (op_to_value franklin_op) fee_account.

Definition schema_save_rollup_ops (ops : list (Z * FranklinOp * Z)) (db : RestoreDb) : RestoreDb :=
  update_storage_state "Operations"
    (mkRestoreDb (rd_chain db) (rd_events_state db) (rd_events_seq db)
       (numbered (λ id op, prepare_stored_op op.1.2 op.1.1 op.2 id) (rd_rollup_ops_seq db) ops)
       (rd_rollup_ops_seq db + Z.of_nat (length ops)) (rd_last_watched_eth_block db) (rd_storage_state_update db)
       (rd_eth_parameters db)).

Definition into_franklin_op (self : StoredFranklinOp) : outcome FranklinOp :=
  unwrap "Unparsable FranklinOp in db" (op_from_value (sf_operation self)).

(** [group_by]: runs of equal keys. *)
Fixpoint group_by_block (l : list StoredFranklinOp) : list (list StoredFranklinOp) :=
  match l with
  | [] => []
  | op :: l =>
      match group_by_block l with
      | (op' :: g) :: gs => if sf_block_num op =? sf_block_num op' then (op :: op' :: g) :: gs else [op] :: (op' :: g) :: gs
      | gs => [op] :: gs
      end
  end.

(** [block_num] and [fee_account] are those of the last operation of the group. *)
Definition group_block (group : list StoredFranklinOp) : outcome RollupOpsBlock :=
  ops ← map_outcome into_franklin_op group;
  Val (mkRollupOpsBlock (wrap 32 (from_option sf_block_num 0 (last group))) ops
         (wrap 32 (from_option sf_fee_account 0 (last group)))).

Definition load_rollup_ops_blocks (db : RestoreDb) : outcome (list RollupOpsBlock) :=
  map_outcome group_block (group_by_block (order_by sf_id (rd_rollup_ops db))).

Definition load_events (block_type : string) (db : RestoreDb) : list StoredBlockEvent :=
  order_by sv_block_num (List.filter (λ e, bool_decide (sv_block_type e = block_type)) (rd_events_state db)).

Definition initialize_eth_stats (last_committed_block last_verified_block : Z) (db : RestoreDb) : RestoreDb :=
  mkRestoreDb (rd_chain db) (rd_events_state db) (rd_events_seq db) (rd_rollup_ops db) (rd_rollup_ops_seq db)
    (rd_last_watched_eth_block db) (rd_storage_state_update db)
    ((λ p, mkETHParams (ep_nonce p) (ep_gas_price_limit p) last_committed_block last_verified_block last_verified_block)
     <$> rd_eth_parameters db).

Definition confirm_operations (ids : list Z) (db : ChainDb) : ChainDb :=
  let st := cd_state db in
  set_state (mkStateDb (t_accounts st) (t_tokens st) (t_token_updates st) (t_token_updates_seq st) (t_creates st)
    (t_pubkey_updates st) (t_pubkey_updates_seq st) (t_blocks st)
    ((λ o, if bool_decide (so_id o ∈ ids) then mkStoredOperation (so_id o) (so_block_number o) (so_action_type o) true else o)
     <$> t_operations st) (t_operations_seq st)) db.

Definition save_block_operations (commit_op verify_op : Operation) (db : RestoreDb) : Fallible RestoreDb :=
  c ← execute_operation now commit_op (rd_chain db);
  v ← execute_operation now verify_op c.2;
  commit_id ← lift_outcome (unwrap "called `Option::unwrap()` on a `None` value" (op_id c.1));
  verify_id ← lift_outcome (unwrap "called `Option::unwrap()` on a `None` value" (op_id v.1));
  Val (Ok (update_storage_state "None" (set_rd_chain (confirm_operations [commit_id; verify_id] v.2) db))).

Definition schema_save_block_transactions (block : Block) (db : RestoreDb) : outcome RestoreDb :=
  chain ← save_block_transactions (block_number block) (block_transactions block) (rd_chain db);
  Val (update_storage_state "None" (set_rd_chain chain db)).

Definition save_genesis_state (genesis_acc_update : AccountUpdate) (db : RestoreDb) : Fallible RestoreDb :=
  chain ← on_state (StateSchema.commit_state_update 0 [(0, genesis_acc_update)]) (rd_chain db);
  chain ← on_state (StateSchema.apply_state_update 0) chain;
  Val (Ok (set_rd_chain chain db)).

(** ** storage_interactor.rs *)

Definition save_genesis_tree_state (genesis_acc_update : AccountUpdate) (db : RestoreDb) : outcome RestoreDb :=
  s ← StateSchema.load_committed_state None (cd_state (rd_chain db));
  _ ← assert_that ((s.1 =? 0) && bool_decide (s.2 = ∅)) "db should be empty";
  expect "Cant update genesis state" (save_genesis_state genesis_acc_update db).

(** [EncodedProofPlonk::default()] *)
Definition EncodedProofPlonk_default : EncodedProofPlonk := mkProof (replicate 1 0) (replicate 33 0).

Definition storage_update_tree_state (block : Block) (accounts_updated : AccountUpdates) (db : RestoreDb) : outcome RestoreDb :=
  if bool_decide (accounts_updated = []) && (number_of_processed_prior_ops block =? 0) then schema_save_block_transactions block db
  else
    expect "Cant execute verify operation"
      (save_block_operations (mkOperation None ACommit block accounts_updated)
         (mkOperation None (AVerify EncodedProofPlonk_default) block []) db).

Definition block_event_into_stored_block_event (event : BlockEvent) : string * bytes * Z :=
  (match be_block_type event with Committed => "Committed"%string | Verified => "Verified"%string end,
   to_be_bytes 32 (be_transaction_hash event), be_block_num event).

Definition save_events_state (block_events : list BlockEvent) (last_watched_eth_block_number : Z) (db : RestoreDb) : RestoreDb :=
  schema_save_events_state (block_event_into_stored_block_event <$> block_events) (decimal last_watched_eth_block_number) db.

Definition save_rollup_ops (blocks : list RollupOpsBlock) (db : RestoreDb) : RestoreDb :=
  schema_save_rollup_ops
    (mjoin ((λ block, (λ op, (rob_block_num block, op, rob_fee_account block)) <$> rob_ops block) <$> blocks)) db.

Definition get_ops_blocks_from_storage (db : RestoreDb) : outcome (list RollupOpsBlock) := load_rollup_ops_blocks db.

Definition get_storage_state (db : RestoreDb) : outcome StorageUpdateState :=
  state ← unwrap "Cant load storage state" (head (rd_storage_state_update db));
  if bool_decide (state = "Events"%string) then Val SuEvents
  else if bool_decide (state = "Operations"%string) then Val SuOperations
  else if bool_decide (state = "None"%string) then Val SuNone
  else Panic "Unknown storage state".

Definition get_last_watched_block_number_from_storage (db : RestoreDb) : outcome Z :=
  number ← unwrap "Cant load last watched block number" (head (rd_last_watched_eth_block db));
  unwrap "Cant make u256 block_number in get_last_watched_block_number_from_storage" (parse_uint 64 number).

Definition stored_block_event_into_block_event (block : StoredBlockEvent) : outcome BlockEvent :=
  _ ← assert_that ((0 <=? sv_block_num block) && (sv_block_num block <? 2 ^ 32)) "Wrong block number - cant convert into u32";
  _ ← assert_that (length (sv_transaction_hash block) =? 32)%nat "assertion failed: `(left == right)`";
  block_type ← (if bool_decide (sv_block_type block = "Committed"%string) then Val Committed
                else if bool_decide (sv_block_type block = "Verified"%string) then Val Verified
                else Panic "Wrong block type");
  Val (mkBlockEvent (sv_block_num block) (from_be_bytes (sv_transaction_hash block)) block_type).

Definition get_block_events_state_from_storage (db : RestoreDb) : outcome EventsState :=
  last_watched_eth_block_number ← get_last_watched_block_number_from_storage db;
  committed_events ← map_outcome stored_block_event_into_block_event (load_events "Committed" db);
  verified_events ← map_outcome stored_block_event_into_block_event (load_events "Verified" db);
  Val (mkEventsState committed_events verified_events last_watched_eth_block_number).

Definition get_tree_state (db : RestoreDb) : outcome (Z * AccountMap * Z * Z) :=
  s ← StateSchema.load_verified_state (cd_state (rd_chain db));
  b ← get_block now s.1 (rd_chain db);
  block ← unwrap "There are no last block in storage - restart driver" b;
  Val (s.1, s.2, (processed_priority_ops block).2, fee_account block).

Definition update_eth_stats (db : RestoreDb) : RestoreDb :=
  let st := cd_state (rd_chain db) in
  initialize_eth_stats (get_last_committed_block st) (get_last_verified_block st) db.

(** ** The driver *)

Record RestoreDriver : Type := mkRestoreDriver {
  rv_db : RestoreDb;
  rv_events_state : EventsState;
  rv_tree_state : TreeState Tree;
  rv_available_block_chunk_sizes : list nat;
}.

Definition set_rv_db (db : RestoreDb) (self : RestoreDriver) : RestoreDriver :=
  mkRestoreDriver db (rv_events_state self) (rv_tree_state self) (rv_available_block_chunk_sizes self).

Definition driver_set_genesis_state (decode_init : bytes → option (list EthToken)) (genesis_input : bytes)
    (genesis_eth_block_number : Z) (self : RestoreDriver) : outcome RestoreDriver :=
  let events := mkEventsState (committed_events (rv_events_state self)) (verified_events (rv_events_state self))
                  genesis_eth_block_number in
  let db := save_events_state [] genesis_eth_block_number (rv_db self) in
  genesis_account ← expect "Cant get genesis account address" (get_genesis_account decode_init genesis_input);
  let account_update := Create (address genesis_account) (nonce genesis_account) in
  tree_state ← TreeState_load 0 {[0 := genesis_account]} 0 0 (rv_available_block_chunk_sizes self);
  db ← save_genesis_tree_state account_update db;
  Val (mkRestoreDriver db events tree_state (rv_available_block_chunk_sizes self)).

(** The block number and the logs are the answers of the Ethereum node. *)
Section Updates.
  Context (block_verified_topic block_comitted_topic reverted_topic : Z).

Definition driver_update_events_state (block_number : result Z) (logs : Z → Z → result (list BlockLog))
    (eth_blocks_step end_eth_blocks_offset : Z) (self : RestoreDriver) : outcome (bool * RestoreDriver) :=
  match update_events_state block_verified_topic block_comitted_topic reverted_topic block_number logs
          eth_blocks_step end_eth_blocks_offset (rv_events_state self) with
  | Val (Ok (block_events, last_watched_eth_block_number), events) =>
      let db := save_events_state block_events last_watched_eth_block_number (rv_db self) in
      Val (negb (bool_decide (block_events = [])),
           mkRestoreDriver db events (rv_tree_state self) (rv_available_block_chunk_sizes self))
  | Val (Err _, _) => Panic "Updating events state: cant update events state"
  | Panic msg => Panic msg
  end.

(** The second loop of [update_tree_state]. *)
Fixpoint save_blocks (blocks : list (Block * AccountUpdates)) (db : RestoreDb) : outcome RestoreDb :=
  match blocks with
  | [] => Val db
  | (block, updates) :: blocks => db ← storage_update_tree_state block updates db; save_blocks blocks db
  end.

Definition driver_update_tree_state (new_ops_blocks : list RollupOpsBlock) (self : RestoreDriver) : outcome RestoreDriver :=
  r ← restore_blocks utc_now new_ops_blocks (rv_tree_state self);
  db ← save_blocks r.1 (rv_db self);
  Val (mkRestoreDriver db (rv_events_state self) r.2 (rv_available_block_chunk_sizes self)).

Definition new_operation_blocks (self : RestoreDriver) : outcome (list RollupOpsBlock) :=
  events ← get_only_verified_committed_events (rv_events_state self);
  ops_blocks_of_events transaction decode events.

Definition driver_update_operations_state (self : RestoreDriver) : outcome (list RollupOpsBlock * RestoreDriver) :=
  new_blocks ← new_operation_blocks self;
  Val (new_blocks, set_rv_db (save_rollup_ops new_blocks (rv_db self)) self).

(** One round of the loop of [run_state_update]. *)
Definition state_update_round (block_number : result Z) (logs : Z → Z → result (list BlockLog))
    (eth_blocks_step end_eth_blocks_offset : Z) (self : RestoreDriver) : outcome RestoreDriver :=
  r ← driver_update_events_state block_number logs eth_blocks_step end_eth_blocks_offset self;
  let '(new_events, self) := r in
  if new_events : bool then
    r ← driver_update_operations_state self;
    let '(new_ops_blocks, self) := r in
    match new_ops_blocks with
    | [] => Val self
    | _ => self ← driver_update_tree_state new_ops_blocks self; Val (set_rv_db (update_eth_stats (rv_db self)) self)
    end
  else Val self.
End Updates.

Definition load_state_from_storage (self : RestoreDriver) : outcome RestoreDriver :=
  let db := rv_db self in
  state ← get_storage_state db;
  events_state ← get_block_events_state_from_storage db;
  t ← get_tree_state db;
  let '(current_block, accounts, unprocessed_prior_ops, fee_acc_id) := t in
  tree_state ← TreeState_load current_block accounts unprocessed_prior_ops fee_acc_id (rv_available_block_chunk_sizes self);
  let self := mkRestoreDriver db events_state tree_state (rv_available_block_chunk_sizes self) in
  match state with
  | SuEvents =>
      r ← driver_update_operations_state self;
      driver_update_tree_state r.1 r.2
  | SuOperations =>
      new_ops_blocks ← get_ops_blocks_from_storage db;
      driver_update_tree_state new_ops_blocks self
  | SuNone => Val self
  end.
End RestoreStorage.
