(* ===== verification/RestoreStorageProofs.v ===== *)
(** * The restore driver can be continued

    What the driver has stored after each step of a round is enough to finish the round:
    the events and the blocks are read back as they were, the decoded operations without
    their fees, which change nothing of the state. *)

From S2P Require Import Prelude Bytes Params Externals Primitives Amounts Account Tx Decimal Operations Block.
From S2P Require Import Merkle AccountLeaf PlasmaState PlasmaProofs Ledger StateKeeper StateKeeperProofs TreeState EventsState DataRestore.
From S2P Require Import EthStorage Storage StorageProofs BlockStorage BlockStorageProofs Committer ProverPoolProofs Observer RestoreStorage.
Open Scope Z_scope.

(** ** Numbered rows *)
Section Numbered.
  Context {A B : Type}.
  Implicit Types (f : Z → A → B) (l : list A).

Lemma numbered_cons f seq x l : numbered f seq (x :: l) = f seq x :: numbered f (seq + 1) l.
Proof.
  unfold numbered. cbn [imap]. f_equal; [f_equal; lia|]. apply imap_ext. intros i y _. unfold compose. f_equal. lia.
Qed.

Lemma numbered_app f seq l l' :
  numbered f seq (l ++ l') = numbered f seq l ++ numbered f (seq + Z.of_nat (length l)) l'.
Proof.
  unfold numbered. rewrite imap_app. f_equal. apply imap_ext. intros i y _. unfold compose. f_equal. lia.
Qed.

Lemma Forall_numbered f seq l (P : B → Prop) : (∀ id x, x ∈ l → P (f id x)) → Forall P (numbered f seq l).
Proof.
  revert seq. induction l as [|x l IH]; intros seq H; [constructor|]. rewrite numbered_cons.
  constructor; [apply H; left|]. apply IH. intros. apply H. by right.
Qed.

(** Rows are sorted by what is sorted in the data. *)
Lemma numbered_sorted f seq l (R : B → B → Prop) :
  StronglySorted (λ x y, ∀ i j, i < j → R (f i x) (f j y)) l → StronglySorted R (numbered f seq l).
Proof.
  intros H. revert seq. induction H as [|x l _ IH Hx]; intros seq; [constructor|]. rewrite numbered_cons. constructor; [done|].
  clear IH. revert seq. rewrite Forall_forall in Hx.
  assert (∀ seq k, seq < k → (∀ y, y ∈ l → ∀ i j, i < j → R (f i x) (f j y)) → Forall (R (f seq x)) (numbered f k l)) as H.
  { induction l as [|y l IHl]; intros seq k Hk Hl; [constructor|]. rewrite numbered_cons. constructor; [apply Hl; [left|done]|].
    apply IHl; [..|lia|]; set_solver. }
  intros seq. apply H; [lia|exact Hx].
Qed.

Lemma map_outcome_numbered {D} (g : B → outcome D) f (h : A → D) seq l :
  (∀ id x, x ∈ l → g (f id x) = Val (h x)) → map_outcome g (numbered f seq l) = Val (h <$> l).
Proof.
  revert seq. induction l as [|x l IH]; intros seq H; [done|]. rewrite numbered_cons. cbn [map_outcome].
  rewrite (H _ x) by left. cbn [mbind outcome_bind]. rewrite IH; [done|]. intros. apply H. by right.
Qed.
End Numbered.

Section Stored.
  Context `{EX : External} {EXL : ExternalLaws} {C : Codec} {L : CodecLaws}.

(** ** Events *)

#[export] Instance EventType_eq_dec : EqDecision EventType.
Proof. solve_decision. Defined.

Definition event_fits (ty : EventType) (e : BlockEvent) : Prop :=
  be_block_type e = ty ∧ fits 32 (be_block_num e) ∧ fits 256 (be_transaction_hash e).

Definition type_text (ty : EventType) : string := match ty with Committed => "Committed" | Verified => "Verified" end.

Definition event_row (id : Z) (e : string * bytes * Z) : StoredBlockEvent := mkStoredBlockEvent id e.1.1 e.1.2 e.2.

Lemma event_back ty id e :
  event_fits ty e → stored_block_event_into_block_event (event_row id (block_event_into_stored_block_event e)) = Val e.
Proof.
  intros (Ht & [Hn1 Hn2] & Hh). unfold stored_block_event_into_block_event, block_event_into_stored_block_event, event_row.
  cbn [sv_block_num sv_transaction_hash sv_block_type fst snd].
  rewrite (proj2 (Z.leb_le _ _) Hn1), (proj2 (Z.ltb_lt _ _) Hn2), to_be_bytes_length, from_to_be_bytes by exact Hh.
  destruct e as [n h t]. cbn [be_block_type be_block_num be_transaction_hash] in *. by destruct t.
Qed.

Lemma load_events_rows ty ty' seq l :
  Forall (event_fits ty) l →
  List.filter (λ e, bool_decide (sv_block_type e = type_text ty')) (numbered event_row seq (block_event_into_stored_block_event <$> l)) =
  if bool_decide (ty = ty') then numbered event_row seq (block_event_into_stored_block_event <$> l) else [].
Proof.
  intros H. assert (Forall (λ e, sv_block_type e = type_text ty) (numbered event_row seq (block_event_into_stored_block_event <$> l))) as Hr.
  { apply Forall_numbered. intros id x (e & -> & He)%list_elem_of_fmap. rewrite Forall_forall in H. destruct (H _ He) as (Ht & _).
    unfold block_event_into_stored_block_event. cbn. by rewrite Ht. }
  rewrite Forall_forall in Hr. case_bool_decide as E.
  - apply filter_all. intros x Hx. apply bool_decide_eq_true. by rewrite (Hr x Hx), E.
  - apply filter_none. intros x Hx. apply bool_decide_eq_false. rewrite (Hr x Hx). by destruct ty, ty'.
Qed.

(** A state of the events that can be stored. *)
Record events_fit (es : EventsState) : Prop := {
  ef_committed : Forall (event_fits Committed) (committed_events es);
  ef_verified : Forall (event_fits Verified) (verified_events es);
  ef_committed_sorted : StronglySorted (λ a b, be_block_num a ≤ be_block_num b) (committed_events es);
  ef_verified_sorted : StronglySorted (λ a b, be_block_num a ≤ be_block_num b) (verified_events es);
  ef_watched : fits 64 (last_watched_eth_block_number es);
}.

Lemma events_of_type ty seq l :
  Forall (event_fits ty) l → StronglySorted (λ a b, be_block_num a ≤ be_block_num b) l →
  map_outcome stored_block_event_into_block_event
    (order_by sv_block_num (numbered event_row seq (block_event_into_stored_block_event <$> l))) = Val l.
Proof.
  intros Hf Hs. rewrite order_by_sorted.
  - rewrite <- (list_fmap_id l) at 2. revert seq. induction l as [|e l IH]; intros seq; [done|]. cbn [fmap list_fmap].
    rewrite numbered_cons. cbn [map_outcome]. apply Forall_cons in Hf as [He Hf]. apply StronglySorted_inv in Hs as [Hs _].
    rewrite (event_back ty) by done. cbn [mbind outcome_bind]. by rewrite IH.
  - apply numbered_sorted. induction Hs as [|e l Hs IH He]; [constructor|]. apply Forall_cons in Hf as [_ Hf].
    cbn [fmap list_fmap]. constructor; [by apply IH|]. apply Forall_fmap. eapply Forall_impl; [exact He|]. cbn. by intros.
Qed.

Lemma events_read_back es db :
  events_fit es →
  get_block_events_state_from_storage
    (save_events_state (committed_events es ++ verified_events es) (last_watched_eth_block_number es) db) = Val es.
Proof.
  intros [H1 H2 H3 H4 H5]. unfold get_block_events_state_from_storage, get_last_watched_block_number_from_storage,
    load_events, save_events_state, schema_save_events_state.
  cbn [rd_last_watched_eth_block update_storage_state update_last_watched_block_number update_block_events rd_events_state head unwrap mbind outcome_bind].
  rewrite parse_decimal by done. cbn [unwrap mbind outcome_bind]. fold event_row.
  change (λ id e, mkStoredBlockEvent id e.1.1 e.1.2 e.2) with event_row.
  change "Committed"%string with (type_text Committed). change "Verified"%string with (type_text Verified).
  rewrite fmap_app, numbered_app, !List.filter_app.
  rewrite (load_events_rows Committed Committed), (load_events_rows Verified Committed), (load_events_rows Committed Verified),
    (load_events_rows Verified Verified) by done.
  rewrite (bool_decide_true (Committed = Committed)), (bool_decide_true (Verified = Verified)) by done.
  rewrite (bool_decide_false (Committed = Verified)), (bool_decide_false (Verified = Committed)) by done.
  cbn [app]. rewrite app_nil_r.
  rewrite (events_of_type Committed _ (committed_events es)), (events_of_type Verified _ (verified_events es)) by done. by destruct es.
Qed.

(** ** Operations *)

(** A block that can be stored, and what is read back of it: its operations without their fees. *)
Definition ops_block_fits (b : RollupOpsBlock) : Prop :=
  fits 32 (rob_block_num b) ∧ fits 32 (rob_fee_account b) ∧ rob_ops b ≠ [].
Definition serde_block (b : RollupOpsBlock) : RollupOpsBlock :=
  mkRollupOpsBlock (rob_block_num b) (serde_op <$> rob_ops b) (rob_fee_account b).

Definition op_row (id : Z) (op : Z * FranklinOp * Z) : StoredFranklinOp := prepare_stored_op op.1.2 op.1.1 op.2 id.

Definition block_entries (b : RollupOpsBlock) : list (Z * FranklinOp * Z) :=
  (λ op, (rob_block_num b, op, rob_fee_account b)) <$> rob_ops b.

Lemma group_by_block_head x l : ∃ g gs, group_by_block (x :: l) = (x :: g) :: gs.
Proof.
  cbn [group_by_block]. destruct (group_by_block l) as [|[|y g] gs]; [by eexists _, _..|].
  destruct (sf_block_num x =? sf_block_num y); by eexists _, _.
Qed.

Lemma group_run n l rest :
  l ≠ [] → Forall (λ x, sf_block_num x = n) l → match rest with [] => True | x :: _ => sf_block_num x ≠ n end →
  group_by_block (l ++ rest) = l :: group_by_block rest.
Proof.
  intros Hne Hl Hr. induction Hl as [|x l Hx Hl IH]; [done|]. cbn [app group_by_block]. destruct l as [|y l].
  - cbn [app]. destruct rest as [|z rest]; [done|]. destruct (group_by_block_head z rest) as (g & gs & ->).
    destruct (Z.eqb_spec (sf_block_num x) (sf_block_num z)); [congruence|done].
  - rewrite IH by done. apply Forall_cons in Hl as [Hy _]. by rewrite Hx, Hy, Z.eqb_refl.
Qed.

Lemma map_outcome_ops seq b :
  map_outcome into_franklin_op (numbered op_row seq (block_entries b)) = Val (serde_op <$> rob_ops b).
Proof.
  unfold block_entries. revert seq. induction (rob_ops b) as [|op ops IH]; intros seq; [done|].
  cbn [fmap list_fmap]. rewrite numbered_cons. cbn [map_outcome].
  assert (into_franklin_op (op_row seq (rob_block_num b, op, rob_fee_account b)) = Val (serde_op op)) as ->
    by (unfold into_franklin_op; cbn; by rewrite op_json).
  cbn [mbind outcome_bind]. by rewrite IH.
Qed.

Lemma group_block_back seq b : ops_block_fits b → group_block (numbered op_row seq (block_entries b)) = Val (serde_block b).
Proof.
  intros (Hn & Hf & Hne). unfold group_block. rewrite map_outcome_ops. cbn [mbind outcome_bind].
  assert (∃ id op, last (numbered op_row seq (block_entries b)) = Some (op_row id (rob_block_num b, op, rob_fee_account b))) as (id & op & ->).
  { unfold block_entries. destruct (rob_ops b) as [|op ops _] using rev_ind; [done|]. rewrite fmap_app, numbered_app, last_app.
    cbn [fmap list_fmap]. rewrite numbered_cons. cbn. by eexists _, _. }
  cbn. by rewrite !wrap_small by done.
Qed.

Lemma block_entries_cons b : rob_ops b ≠ [] → ∃ op l, block_entries b = (rob_block_num b, op, rob_fee_account b) :: l.
Proof. unfold block_entries. destruct (rob_ops b) as [|op ops]; [done|]. intros _. by eexists _, _. Qed.

Lemma ops_blocks_rows seq blocks :
  Forall ops_block_fits blocks → NoDup (rob_block_num <$> blocks) →
  map_outcome group_block (group_by_block (numbered op_row seq (mjoin (block_entries <$> blocks)))) = Val (serde_block <$> blocks).
Proof.
  intros H. revert seq. induction H as [|b blocks Hb Hbs IH]; intros seq; [done|]. cbn [fmap list_fmap mjoin list_join].
  intros [Hnin Hnd]%NoDup_cons. rewrite numbered_app.
  rewrite (group_run (rob_block_num b)).
  - cbn [map_outcome]. rewrite group_block_back by done. cbn [mbind outcome_bind]. by rewrite IH.
  - destruct Hb as (_ & _ & Hne). destruct (block_entries_cons b Hne) as (op & l & ->). by rewrite numbered_cons.
  - apply Forall_numbered. by intros id x (op & -> & _)%list_elem_of_fmap.
  - destruct blocks as [|b' blocks]; [done|]. cbn [fmap list_fmap mjoin list_join]. apply Forall_cons in Hbs as [(_ & _ & Hne) _].
    destruct (block_entries_cons b' Hne) as (op & l & ->). cbn [app]. rewrite numbered_cons. cbn [sf_block_num op_row prepare_stored_op fst].
    intros E. apply Hnin. cbn. rewrite E. left.
Qed.

Lemma ops_read_back blocks db :
  Forall ops_block_fits blocks → NoDup (rob_block_num <$> blocks) →
  get_ops_blocks_from_storage (save_rollup_ops blocks db) = Val (serde_block <$> blocks).
Proof.
  intros Hb Hnd. unfold get_ops_blocks_from_storage, load_rollup_ops_blocks, save_rollup_ops, schema_save_rollup_ops.
  cbn [rd_rollup_ops update_storage_state]. change (λ id op, prepare_stored_op op.1.2 op.1.1 op.2 id) with op_row.
  change (λ block, (λ op, (rob_block_num block, op, rob_fee_account block)) <$> rob_ops block) with block_entries.
  rewrite order_by_sorted; [by apply ops_blocks_rows|]. apply numbered_sorted.
  induction (mjoin (block_entries <$> blocks)) as [|x l IH]; constructor; [done|]. apply Forall_forall. intros y _ i j Hij. cbn. lia.
Qed.

(** ** Blocks *)

Context (now : Z).

(** Confirmed operations are the same operations. *)
Lemma confirm_chain_ok hist blocks c v db ids :
  chain_ok now hist blocks c v db → chain_ok now hist blocks c v (confirm_operations ids db).
Proof.
  intros H. destruct (ck_stored _ _ _ _ _ _ H) as [ds Hs]. set (f := λ o, if bool_decide (so_id o ∈ ids) then
    mkStoredOperation (so_id o) (so_block_number o) (so_action_type o) true else o).
  assert (∀ o, so_block_number (f o) = so_block_number o ∧ so_action_type (f o) = so_action_type o) as Hf
    by (intros o; unfold f; by destruct (bool_decide _)).
  split; try apply H.
  - exists ds. eapply stored_tables; [exact Hs|done..].
  - eapply represents_same; [apply H|done..].
  - rewrite <- (ck_verified _ _ _ _ _ _ H). f_equal. cbn. fold f.
    induction (t_operations (cd_state db)) as [|o l IH]; [done|]. cbn. destruct (Hf o) as [E1 E2]. rewrite E2.
    destruct (bool_decide _); cbn; by rewrite ?E1, IH.
  - intros bl Hbl. destruct (ck_commits _ _ _ _ _ _ H bl Hbl) as (o & Ho & E1 & E2). exists (f o). destruct (Hf o) as [E3 E4].
    split; [|by rewrite E3, E4]. cbn. fold f. by apply list_elem_of_fmap_2.
Qed.
End Stored.

(** ** The transactions of a restored block *)
Section Restored.
  Context `{EX : External} {Tree : Type} `{ST : !SparseTree Tree Account Fr}.
  Context (utc_now : nat → Z).

(** The [k]-th operation of a restored block. *)
Definition restored_exec (k : Z) (e : ExecutedOperations) : Prop :=
  match e with
  | ExTx tx => et_block_index tx = Some k
  | ExPriorityOp op => epo_block_index op = k ∧ po_serial_id (epo_priority_op op) = 0 ∧ po_deadline_block (epo_priority_op op) = 0 ∧
      try_get_priority_op (epo_op op) = Ok (po_data (epo_priority_op op))
  end.

Definition appends (acc acc' : BlockAcc) : Prop :=
  ∃ e, ba_ops acc' = ba_ops acc ++ [e] ∧ restored_exec (ba_current_op_block_index acc) e ∧
    ba_current_op_block_index acc' = wrap 32 (ba_current_op_block_index acc + 1).

Lemma execute_priority_op_data p (s s' : PlasmaState Tree) r :
  execute_priority_op p s = Val (Ok r, s') → try_get_priority_op (os_executed_op r) = Ok p.
Proof.
  destruct p as [d|e]; cbn [execute_priority_op]; unfold apply_deposit, apply_full_exit; intros H; run_inv H; done.
Qed.

Lemma update_from_tx_appends tx r acc (ts ts' : TreeState Tree) acc' :
  update_from_tx utc_now tx r acc ts = Val (Ok acc', ts') → appends acc acc'.
Proof. unfold update_from_tx. intros [= <- <-]. by eexists. Qed.

Lemma restore_priority_appends p acc (ts ts' : TreeState Tree) acc' :
  (TreeState.on_state (infallible (execute_priority_op p)) ≫= λ r, update_from_priority_operation p r acc) ts = Val (Ok acc', ts') →
  appends acc acc'.
Proof.
  intros H. apply exec_bind_Ok in H as (r & s & H1 & H2). unfold update_from_priority_operation in H2. injection H2 as <- _.
  eexists. split; [done|]. split; [|done]. unfold restored_exec. cbn. split_and!; try done.
  unfold TreeState.on_state, zoom, infallible in H1. destruct (execute_priority_op p (ts_state ts)) as [[[r'|e] s']|] eqn:E; try done.
  injection H1 as -> _. by eapply execute_priority_op_data.
Qed.

Lemma restore_operation_appends op acc (ts ts' : TreeState Tree) acc' :
  restore_operation utc_now op acc ts = Val (Ok acc', ts') → acc' = acc ∨ appends acc acc'.
Proof.
  destruct op; cbn [restore_operation]; intros H; try (right; by eapply restore_priority_appends); [by left; injection H|right..].
  all: repeat (apply exec_bind_Ok in H as (? & ? & _ & H)); by eapply update_from_tx_appends.
Qed.

(** The operations are numbered in order. *)
Definition acc_indexed (acc : BlockAcc) : Prop :=
  ba_current_op_block_index acc = Z.of_nat (length (ba_ops acc)) ∧
  ∀ i e, ba_ops acc !! i = Some e → restored_exec (Z.of_nat i) e.

Lemma restore_operations_indexed ops : ∀ acc (ts ts' : TreeState Tree) acc',
  restore_operations utc_now ops acc ts = Val (Ok acc', ts') → acc_indexed acc →
  Z.of_nat (length (ba_ops acc) + length ops) < 2 ^ 32 →
  acc_indexed acc' ∧ (length (ba_ops acc') ≤ length (ba_ops acc) + length ops)%nat.
Proof.
  induction ops as [|op ops IH]; intros acc ts ts' acc' H Hi Hlen; cbn [restore_operations length] in *.
  { injection H as <- _. split; [done|lia]. }
  apply exec_bind_Ok in H as (acc1 & ts1 & H1 & H). destruct (restore_operation_appends _ _ _ _ _ H1) as [->|(e & E & He & Ec)].
  { destruct (IH _ _ _ _ H Hi) as [? ?]; [lia|]. split; [done|lia]. }
  destruct Hi as [Hc Hi]. assert (length (ba_ops acc1) = S (length (ba_ops acc))) as El by (rewrite E, length_app; cbn; lia).
  destruct (IH _ _ _ _ H) as [? ?]; [|lia|split; [done|lia]]. split.
  - rewrite Ec, Hc, wrap_small by (unfold fits; lia). lia.
  - intros i x Hx. rewrite E in Hx. apply lookup_app_Some in Hx as [Hx|[Hle Hx]]; [by apply Hi|].
    apply list_lookup_singleton_Some in Hx as [Hz <-]. replace i with (length (ba_ops acc)) by lia. by rewrite <- Hc.
Qed.

Lemma restored_exec_key k e : restored_exec k e → exec_key e = k.
Proof. destruct e as [tx|op]; cbn; [by intros ->|by intros [-> _]]. Qed.

Lemma indexed_order k l :
  (∀ i e, l !! i = Some e → restored_exec (k + Z.of_nat i) e) → exec_order l.
Proof.
  revert k. induction l as [|e l IH]; intros k H; constructor.
  - apply (IH (k + 1)). intros i x Hx. replace (k + 1 + Z.of_nat i) with (k + Z.of_nat (S i)) by lia. by apply H.
  - apply Forall_lookup. intros i x Hx. left. pose proof (H 0%nat e eq_refl) as H0. specialize (H (S i) x Hx).
    rewrite (restored_exec_key _ _ H0), (restored_exec_key _ _ H). lia.
Qed.

Lemma indexed_fits l :
  (∀ i e, l !! i = Some e → restored_exec (Z.of_nat i) e) → Z.of_nat (length l) ≤ 2 ^ 31 → Forall exec_fits l.
Proof.
  intros H Hlen. apply Forall_lookup. intros i e He. pose proof (lookup_lt_Some _ _ _ He). specialize (H i e He).
  destruct e as [tx|op]; cbn in *; [rewrite H; cbn; lia|]. destruct H as (-> & -> & -> & E). split_and!; [lia|lia|by split..|done].
Qed.

(** What the database needs of the transactions of a restored block. *)
Lemma restored_block_fits b (ts ts' : TreeState Tree) r :
  update_tree_states_from_ops_block utc_now b ts = Val (Ok r, ts') → Z.of_nat (length (rob_ops b)) ≤ 2 ^ 31 →
  Forall exec_fits (block_transactions r.1) ∧ exec_order (block_transactions r.1).
Proof.
  intros H Hlen. unfold update_tree_states_from_ops_block in H.
  apply exec_bind_Ok in H as (p & s1 & H1 & H). unfold gets in H1. injection H1 as _ <-.
  apply exec_bind_Ok in H as (acc & s2 & Hops & H).
  destruct (restore_operations_indexed _ _ _ _ _ Hops) as [[_ Hi] Hl]; [by split|cbn; lia|]. cbn in Hl.
  do 6 (apply exec_bind_Ok in H as (? & ? & ? & H)). apply exec_bind_Ok in H as (blk & ? & Hblk & H).
  apply exec_bind_Ok in H as (? & ? & ? & H). unfold mret, exec_ret in H. injection H as <- _. cbn [fst].
  apply total_Val in Hblk as (blk' & Hblk & ? & _). unfold new_from_availabe_block_sizes in Hblk.
  apply outcome_bind_Val in Hblk as (size & _ & Hblk). simplify_eq. cbn [block_transactions].
  split; [apply indexed_fits; [done|lia]|]. by apply (indexed_order 0).
Qed.
End Restored.

(** ** Storing the blocks *)
Section Saved.
  Context `{EX : External} {EXL : ExternalLaws} {C : Codec} {L : CodecLaws} (now : Z).

(** The database after block [b]: [v] is the last block that was stored with its header, [m] and [p] are the accounts and
    the priority counter. *)
Definition chain_at (b v p : Z) (m : AccountMap) (db : ChainDb) : Prop :=
  ∃ hist blocks, chain_ok now hist blocks b v db ∧ Forall (λ e, e.1 ≤ v) hist ∧ state_at hist v = m ∧
    (0 < v → ∃ bl, bl ∈ blocks ∧ block_number bl = v ∧ (processed_priority_ops bl).2 = p ∧ is_Some (m !! fee_account bl)).

(** Only the chain and the step change. *)
Definition events_kept (db db' : RestoreDb) : Prop :=
  rd_events_state db' = rd_events_state db ∧ rd_last_watched_eth_block db' = rd_last_watched_eth_block db.

Lemma events_kept_load db db' :
  events_kept db db' → get_block_events_state_from_storage db' = get_block_events_state_from_storage db.
Proof.
  intros [E1 E2]. unfold get_block_events_state_from_storage, get_last_watched_block_number_from_storage, load_events. by rewrite E1, E2.
Qed.

Lemma restored_fits sg req r :
  request_fits req → same_block sg (cr_block req) r → Forall exec_fits (block_transactions r) → exec_order (block_transactions r) → block_fits r.
Proof. intros ((F1 & F2 & F3 & F4 & F5 & _) & _) (E1 & _ & E3 & E4 & E5 & _) ??. unfold block_fits. by rewrite E1, E3, E4, E5. Qed.

Lemma skipped_priority sizes n p m req m' :
  block_ok sizes n p m req m' → fits 64 p → number_of_processed_prior_ops (cr_block req) = 0 → (processed_priority_ops (cr_block req)).2 = p.
Proof.
  intros Hb Hp. unfold number_of_processed_prior_ops. rewrite (bo_priority _ _ _ _ _ _ Hb). cbn [fst snd].
  set (q := wrap 64 (p + _)). assert (fits 64 q) as Hq by (apply wrap_fits; lia). clearbody q. intros H. unfold wrap, fits in *.
  apply Z.mod_divide in H as [k Hk]; [|done]. change (2 ^ 64) with 18446744073709551616 in *. lia.
Qed.

Lemma save_block_ok sg sizes n v p m req m' r db :
  block_ok sizes n p m req m' → same_block sg (cr_block req) r.1 → r.2 = cr_accounts_updated req →
  chain_at (n - 1) v p m (rd_chain db) → 0 < n → request_fits req → fits 64 p →
  Forall exec_fits (block_transactions r.1) → exec_order (block_transactions r.1) →
  updates_valid m (cr_accounts_updated req) → apply_updates m (cr_accounts_updated req) = m' →
  is_Some (m' !! fee_account (cr_block req)) →
  ∃ db' v', storage_update_tree_state now r.1 r.2 db = Val db' ∧ chain_at n v' (processed_priority_ops (cr_block req)).2 m' (rd_chain db') ∧
    v ≤ v' ∧ events_kept db db' ∧ rd_storage_state_update db' = ["None"%string].
Proof.
  intros Hb Hsame Hr (hist & blocks & Hok & Hle & Hm & Hlast) Hn Hfits Hp Hexec Horder Hval Hm' Hfee.
  pose proof (restored_fits _ _ _ Hfits Hsame Hexec Horder) as Hbf. pose proof Hsame as (En & _ & Ef & Ep & _).
  rewrite (bo_number _ _ _ _ _ _ Hb) in En. pose proof Hbf as (Fn & _). rewrite En in Fn.
  destruct Hfits as (_ & Hu & Hnd & Hlen). destruct (ck_bounds _ _ _ _ _ _ Hok) as [Hv _].
  unfold storage_update_tree_state. rewrite Hr.
  assert (number_of_processed_prior_ops r.1 = number_of_processed_prior_ops (cr_block req)) as -> by (unfold number_of_processed_prior_ops; by rewrite Ep).
  destruct (bool_decide (cr_accounts_updated req = []) && _) eqn:Hskip.
  - apply andb_prop in Hskip as [Hus%bool_decide_eq_true Hnum%Z.eqb_eq]. unfold schema_save_block_transactions. rewrite En.
    destruct (save_transactions_rows now n (block_transactions r.1) (rd_chain db) Hexec) as (chain & E & _). rewrite E. cbn [mbind outcome_bind].
    eexists _, v. split; [done|]. rewrite Hus in Hm'. cbn in Hm'. subst m'. rewrite (skipped_priority _ _ _ _ _ _ Hb Hp Hnum).
    split; [|by repeat split]. exists hist, blocks. split; [|done]. cbn. eapply (skip_block now _ _ (n - 1)); [done|lia|done|done|exact E].
  - set (cop := mkOperation None ACommit r.1 _). set (vop := mkOperation None (AVerify _) r.1 []).
    assert (∀ b, v ≤ b → state_at hist b = m) as Hst.
    { assert (∀ b, v ≤ b → state_at hist b = apply_updates ∅ (snd <$> hist)) as Hall; [|intros b Hvb; rewrite <- Hm; by rewrite !Hall].
      intros b Hvb. apply state_at_all. pose proof (ck_hist _ _ _ _ _ _ Hok) as Hh. rewrite Forall_forall in Hh, Hle |- *.
      intros e He. specialize (Hh e He). specialize (Hle e He). cbn in *. lia. }
    destruct (execute_commit now hist blocks (n - 1) v (rd_chain db) cop Hok eq_refl) as (db1 & E1 & Hok1); cbn [op_block op_accounts_updated cop];
      rewrite ?En; try done; [lia|by rewrite Hst by lia|].
    destruct (execute_verify now _ _ _ _ db1 vop EncodedProofPlonk_default r.1 Hok1 eq_refl) as (q & db2 & E2 & Hok2 & _).
    { cbn. set_solver. } { done. } { rewrite En. lia. }
    { rewrite En. intros e [He|(u & -> & _)%list_elem_of_fmap]%elem_of_app; [left|right; cbn; lia]. rewrite Forall_forall in Hle. by apply Hle. }
    unfold save_block_operations. fold cop vop. rewrite E1. cbn [mbind fallible_bind fst snd]. rewrite E2. cbn [fst snd op_id unwrap lift_outcome expect].
    eexists _, n. split; [done|]. split; [|split; [lia|by repeat split]]. exists (hist ++ (pair n <$> cr_accounts_updated req)), (blocks ++ [r.1]).
    cbn [op_block op_accounts_updated cop] in Hok2. rewrite En in Hok2.
    split; [by apply confirm_chain_ok|]. split; [|split].
    + apply Forall_app. split; [eapply Forall_impl; [exact Hle|]; cbn; lia|]. apply Forall_fmap, Forall_forall. cbn. lia.
    + rewrite (state_at_all _ n (ck_hist _ _ _ _ _ _ Hok2)), fmap_app, apply_updates_app, tagged_updates.
      rewrite <- Hm', <- (Hst (n - 1)) by lia. by rewrite (state_at_all _ _ (ck_hist _ _ _ _ _ _ Hok)).
    + intros _. exists r.1. rewrite En, Ep, Ef. split; [set_solver|done].
Qed.
End Saved.

(** ** The driver *)
Section Resume.
  Context `{EX : External} {EXL : ExternalLaws} {C : Codec} {L : CodecLaws} {Tree : Type} `{ST : !SparseTree Tree Account Fr}.
  Context `{SL : !SparseTreeLaws Tree Account Fr} (now : Z) (utc_now : nat → Z).
  Context (transaction : Z → result bytes) (decode : bytes → option (list EthToken)).
  Implicit Types (d : RestoreDriver (Tree := Tree)) (m : AccountMap).

Lemma restore_blocks_fit l : ∀ (ts : TreeState Tree) rs ts',
  restore_blocks utc_now l ts = Val (rs, ts') → Forall (λ b, Z.of_nat (length (rob_ops b)) ≤ 2 ^ 31) l →
  Forall (λ r : Block * AccountUpdates, Forall exec_fits (block_transactions r.1) ∧ exec_order (block_transactions r.1)) rs.
Proof.
  induction l as [|b l IH]; intros ts rs ts' H Hl; cbn [restore_blocks] in H; [by injection H as <- _|].
  apply Forall_cons in Hl as [Hb Hl]. destruct (update_tree_states_from_ops_block utc_now b ts) as [[[r|e] ts1]|] eqn:E; [|done..].
  apply outcome_bind_Val in H as ([rs1 ts2] & H1 & H). injection H as <- _. constructor; [by eapply restored_block_fits|by eapply IH].
Qed.

Lemma save_blocks_app l l' db : save_blocks now (l ++ l') db = (db ← save_blocks now l db; save_blocks now l' db).
Proof.
  revert db. induction l as [|[b us] l IH]; intros db; [done|]. cbn [app save_blocks].
  destruct (storage_update_tree_state now b us db); cbn [mbind outcome_bind]; [apply IH|done].
Qed.

Lemma events_kept_trans db1 db2 db3 : events_kept db1 db2 → events_kept db2 db3 → events_kept db1 db3.
Proof. intros [E1 E2] [E3 E4]. split; congruence. Qed.

(** Blocks that the keeper may send, and that can be stored. *)
Record storable m (cs : list CommitRequest) : Prop := {
  sb_fits : Forall request_fits cs;
  sb_valid : updates_valid m (mjoin (cr_accounts_updated <$> cs));
  sb_self : Forall (λ op, ¬ is_self_transfer op) (mjoin ((λ c, block_ops (cr_block c)) <$> cs));
  sb_fee : Forall (λ c, is_Some (m !! fee_account (cr_block c))) cs;
  sb_sizes : Forall (λ c, (0 < block_chunks_size (cr_block c))%nat ∧ Z.of_nat (block_chunks_size (cr_block c)) ≤ 2 ^ 31) cs;
}.

Lemma storable_app m cs cs' : storable m (cs ++ cs') → storable m cs.
Proof.
  intros [H1 H2 H3 H4 H5]. rewrite !fmap_app, !join_app in *. apply updates_valid_app in H2 as [H2 _].
  apply Forall_app in H1 as [H1 _], H3 as [H3 _], H4 as [H4 _], H5 as [H5 _]. done.
Qed.

Lemma save_chain_ok sg sizes n p m cs n' p' m' rs v db :
  chain sizes n p m cs n' p' m' → storable m cs → leaves_ok m → fits 64 p → 0 < n → n + Z.of_nat (length cs) < 2 ^ 32 →
  Forall2 (λ c r, same_block sg (cr_block c) r.1 ∧ r.2 = cr_accounts_updated c) cs rs →
  Forall (λ r : Block * AccountUpdates, Forall exec_fits (block_transactions r.1) ∧ exec_order (block_transactions r.1)) rs →
  chain_at now (n - 1) v p m (rd_chain db) →
  ∃ db' v', save_blocks now rs db = Val db' ∧ chain_at now (n - 1 + Z.of_nat (length cs)) v' p' m' (rd_chain db') ∧ v ≤ v' ∧
    events_kept db db' ∧ (rd_storage_state_update db' = ["None"%string] ∨ cs = [] ∧ db' = db).
Proof.
  intros Hch. revert rs. induction Hch as [|cs n' p' m' c m'' Hch IH Hb]; intros rs Hst Hl Hp Hn Hlen Hrs Hfit Hat.
  { apply Forall2_nil_inv_l in Hrs as ->. exists db, v. cbn. rewrite Z.add_0_r. do 2 (split; [done|]). split; [lia|]. split; [by split|by right]. }
  apply Forall2_app_inv_l in Hrs as (rs1 & rs2 & Hrs1 & Hrs2 & ->).
  apply Forall2_cons_inv_l in Hrs2 as (r & rs3 & [Hsame Hus] & Hrs3 & ->). apply Forall2_nil_inv_l in Hrs3 as ->.
  apply Forall_app in Hfit as [Hfit1 [[Hf1 Hf2] _]%Forall_cons]. rewrite length_app in *. cbn [length] in *.
  destruct (IH rs1 (storable_app _ _ _ Hst) Hl Hp Hn ltac:(lia) Hrs1 Hfit1 Hat) as (db1 & v1 & E1 & Hat1 & Hv1 & Hk1 & _).
  destruct Hst as [H1 H2 H3 H4 _]. rewrite fmap_app, join_app in H2. rewrite fmap_app, join_app in H3.
  cbn [fmap list_fmap mjoin list_join] in H2, H3. rewrite app_nil_r in H2. rewrite app_nil_r in H3.
  apply updates_valid_app in H2 as [_ H2]. apply Forall_app in H3 as [H3 H3']. apply Forall_app in H1 as [_ [H1 _]%Forall_cons].
  apply Forall_app in H4 as [_ [H4 _]%Forall_cons].
  rewrite (ledger_run_replay _ _ _ _ (chain_run _ _ _ _ _ _ _ _ Hch) H3) in H2.
  destruct (chain_keys _ _ _ _ _ _ _ _ Hch Hl Hp) as (_ & Hp1 & Hkeys).
  destruct (chain_numbers _ _ _ _ _ _ _ _ Hch) as [En _]; [unfold fits; lia|]. rewrite wrap_small in En by (unfold fits; lia). subst n'.
  replace (n - 1 + Z.of_nat (length cs)) with (n + Z.of_nat (length cs) - 1) in Hat1 by lia.
  destruct (save_block_ok now sg sizes (n + Z.of_nat (length cs)) v1 p' m' c m'' r db1) as (db2 & v2 & E2 & Hat2 & Hv2 & Hk2 & Hs2); try done; [lia|..].
  - by eapply ledger_run_replay; [apply Hb|].
  - eapply ledger_run_keys; [apply Hb|]. by apply Hkeys.
  - exists db2, v2. rewrite save_blocks_app, E1. cbn [mbind outcome_bind save_blocks]. destruct r as [b us]. cbn [fst snd] in *. rewrite E2.
    split; [done|]. replace (n - 1 + Z.of_nat (length cs + 1)) with (n + Z.of_nat (length cs)) by lia.
    split; [done|]. split; [lia|]. split; [by eapply events_kept_trans|by left].
Qed.

(** ** The decoded blocks *)

Lemma ops_length_chunks ops : (length ops ≤ sum_chunks ops)%nat.
Proof.
  induction ops as [|op ops IH]; [done|]. rewrite sum_chunks_cons. pose proof (op_chunks_pos op). cbn [length]. lia.
Qed.

Definition decoded (sg : TxSignature) (c : CommitRequest) : RollupOpsBlock := decoded_block sg (block_number (cr_block c)) (cr_block c).

Lemma decoded_length sizes n p m c m' sg :
  block_ok sizes n p m c m' → (length (rob_ops (decoded sg c)) ≤ block_chunks_size (cr_block c))%nat.
Proof.
  intros Hb. pose proof (bo_fits _ _ _ _ _ _ Hb). unfold chunks_used in *. pose proof (ops_length_chunks (block_ops (cr_block c))).
  cbn. unfold chunks_used. rewrite length_app, length_fmap, length_replicate. lia.
Qed.

Lemma decoded_nonempty sg c : (0 < block_chunks_size (cr_block c))%nat → rob_ops (decoded sg c) ≠ [].
Proof.
  intros Hs. cbn. destruct (block_ops (cr_block c)) as [|op ops] eqn:E; [|done]. cbn. unfold chunks_used. rewrite E. cbn.
  destruct (block_chunks_size (cr_block c)); [lia|done].
Qed.

Lemma chain_blocks sizes n p m cs n' p' m' :
  chain sizes n p m cs n' p' m' → Forall (λ c, ∃ n p m m', block_ok sizes n p m c m') cs.
Proof. induction 1 as [|cs n' p' m' c m'' _ IH Hb]; [done|]. apply Forall_app_2; [done|]. constructor; [by eexists _, _, _, _|done]. Qed.

Lemma decoded_fits sg sizes n p m cs n' p' m' :
  chain sizes n p m cs n' p' m' → storable m cs → Forall ops_block_fits (decoded sg <$> cs).
Proof.
  intros Hch [H1 _ _ _ H5]. pose proof (chain_blocks _ _ _ _ _ _ _ _ Hch) as Hb. apply Forall_fmap, Forall_forall. intros c Hc.
  rewrite Forall_forall in H1, H5, Hb. destruct (H1 c Hc) as ((F1 & F2 & _) & _). destruct (H5 c Hc) as [Hs _].
  split; [exact F1|]. split; [exact F2|]. by apply decoded_nonempty.
Qed.

Lemma decoded_lengths sg sizes n p m cs n' p' m' :
  chain sizes n p m cs n' p' m' → storable m cs → Forall (λ b, Z.of_nat (length (rob_ops b)) ≤ 2 ^ 31) (decoded sg <$> cs).
Proof.
  intros Hch Hst. apply Forall_fmap, Forall_forall. intros c Hc. pose proof (chain_blocks _ _ _ _ _ _ _ _ Hch) as Hb.
  pose proof (sb_sizes _ _ Hst) as Hs. rewrite Forall_forall in Hb, Hs. destruct (Hb c Hc) as (?&?&?&?&Hbc). destruct (Hs c Hc).
  pose proof (decoded_length _ _ _ _ _ _ sg Hbc). cbn in *. lia.
Qed.

Lemma decoded_numbers sg sizes n p m cs n' p' m' :
  chain sizes n p m cs n' p' m' → 0 < n → n + Z.of_nat (length cs) < 2 ^ 32 → NoDup (rob_block_num <$> (decoded sg <$> cs)).
Proof.
  intros Hch Hn Hlen. destruct (chain_numbers _ _ _ _ _ _ _ _ Hch) as [_ Hnum]; [unfold fits; lia|].
  rewrite <- list_fmap_compose. apply NoDup_alt. intros i j x Hi Hj. rewrite list_lookup_fmap in Hi, Hj.
  destruct (cs !! i) as [c|] eqn:Ei; [|done]. destruct (cs !! j) as [c'|] eqn:Ej; [|done]. cbn in Hi, Hj.
  pose proof (lookup_lt_Some _ _ _ Ei). pose proof (lookup_lt_Some _ _ _ Ej).
  rewrite (Hnum _ _ Ei), wrap_small in Hi by (unfold fits; lia). rewrite (Hnum _ _ Ej), wrap_small in Hj by (unfold fits; lia).
  simplify_eq. lia.
Qed.

(** ** The blocks without their fees *)

(** The block that the database would return. *)
Definition stored_request (c : CommitRequest) : CommitRequest := mkCommitRequest (stored_block now (cr_block c)) (cr_accounts_updated c).

Lemma stored_block_ops bl : Forall exec_fits (block_transactions bl) → block_ops (stored_block now bl) = serde_op <$> block_ops bl.
Proof.
  unfold block_ops. cbn [stored_block block_transactions]. induction 1 as [|e l He _ IH]; [done|]. rewrite fmap_cons.
  destruct e as [tx|op]; cbn [stored_exec omap list_omap get_executed_op stored_tx et_op].
  - destruct (et_op tx) as [o|]; cbn [fmap option_fmap option_map]; [|exact IH]. rewrite fmap_cons. f_equal. exact IH.
  - rewrite fmap_cons. f_equal; [|exact IH]. destruct He as (_ & _ & _ & He). by destruct (epo_op op).
Qed.

Lemma forget_serde sg op : forget sg (serde_op op) = serde_op (forget sg op).
Proof.
  assert (published_fee (u128_to_bigdecimal 0) = u128_to_bigdecimal 0) as E
    by (unfold published_fee, u128_to_bigdecimal; by rewrite bd_parse_of_u128 by (by split)).
  destruct op as [|[]|[]|[]|[]|[]|[]|[]]; cbn; by rewrite ?E.
Qed.

Lemma stored_exec_fits l : Forall exec_fits l → Forall exec_fits (stored_exec now <$> l).
Proof. intros H. apply Forall_fmap. eapply Forall_impl; [exact H|]. by intros []. Qed.

Lemma stored_exec_order l : exec_order l → exec_order (stored_exec now <$> l).
Proof.
  induction 1 as [|e l _ IH He]; constructor; [exact IH|]. apply Forall_fmap. eapply Forall_impl; [exact He|].
  intros x. cbn. rewrite !exec_key_stored. by destruct e, x.
Qed.

Lemma stored_request_fits c : request_fits c → request_fits (stored_request c).
Proof.
  intros ((F1 & F2 & F3 & F4 & F5 & F6 & F7) & H). split; [|exact H]. split_and!; try done; cbn; [by apply stored_exec_fits|by apply stored_exec_order].
Qed.

Lemma decoded_stored sg c : request_fits c → decoded sg (stored_request c) = serde_block (decoded sg c).
Proof.
  intros ((_ & _ & _ & _ & _ & F6 & _) & _). unfold decoded, decoded_block, serde_block, chunks_used.
  cbn [stored_request cr_block rob_ops rob_block_num rob_fee_account].
  rewrite (stored_block_ops _ F6), serde_chunks, fmap_app, fmap_replicate, <- !list_fmap_compose.
  f_equal. f_equal. apply list_fmap_ext. intros i op _. apply forget_serde.
Qed.

Lemma serde_priority ops : count_priority (serde_op <$> ops) = count_priority ops.
Proof.
  unfold count_priority. f_equal. induction ops as [|op ops IH]; [done|]. rewrite fmap_cons. cbn [List.filter].
  replace (is_priority_op (serde_op op)) with (is_priority_op op) by (by destruct op). destruct (is_priority_op op); cbn [length]; by rewrite IH.
Qed.

Lemma stored_block_ok sizes n p m c m' : request_fits c → block_ok sizes n p m c m' → block_ok sizes n p m (stored_request c) m'.
Proof.
  intros ((_ & _ & _ & _ & _ & F6 & _) & _) [B1 B2 B3 B4 B5 B6 B7]. unfold smallest_block_size, chunks_used in *.
  split; unfold smallest_block_size, chunks_used; cbn [stored_request cr_block cr_accounts_updated]; rewrite ?(stored_block_ops _ F6), ?serde_chunks; try done.
  - by apply serde_run.
  - cbn [stored_block processed_priority_ops]. by rewrite serde_priority.
  - intros i e He Hop. cbn in He. rewrite list_lookup_fmap in He. destruct (block_transactions (cr_block c) !! i) as [e'|] eqn:Ei; [|done].
    cbn in He. injection He as <-. specialize (B7 i e' Ei). clear - B7 Hop.
    destruct e' as [tx|op]; [|by apply B7]. apply B7. cbn in Hop |- *. by destruct (et_op tx), Hop.
Qed.

Lemma stored_requests_chain sizes n p m cs n' p' m' :
  Forall request_fits cs → chain sizes n p m cs n' p' m' → chain sizes n p m (stored_request <$> cs) n' p' m'.
Proof.
  intros Hf H. induction H as [|cs n' p' m' c m'' _ IH Hb]; [constructor|]. apply Forall_app in Hf as [Hf [Hc _]%Forall_cons].
  rewrite fmap_app. exact (chain_seal _ _ _ _ _ _ _ m' (stored_request c) m'' (IH Hf) (stored_block_ok _ _ _ _ _ _ Hc Hb)).
Qed.

Lemma stored_storable m cs : storable m cs → storable m (stored_request <$> cs).
Proof.
  intros [H1 H2 H3 H4 H5]. split.
  - apply Forall_fmap. eapply Forall_impl; [exact H1|]. apply stored_request_fits.
  - by rewrite <- list_fmap_compose.
  - clear H2 H4 H5. induction H1 as [|c cs ((_ & _ & _ & _ & _ & F6 & _) & _) _ IH]; [done|]. cbn [fmap list_fmap mjoin list_join] in H3 |- *.
    cbn [stored_request cr_block]. apply Forall_app in H3 as [H3 H3']. apply Forall_app. split; [|by apply IH]. rewrite (stored_block_ops _ F6).
    apply Forall_fmap. eapply Forall_impl; [exact H3|]. by intros [|[]|[]|[]|[]|[]|[]|[]].
  - by apply Forall_fmap.
  - by apply Forall_fmap.
Qed.

(** ** The steps *)

Lemma update_tree_ok sg sizes n p m cs n' p' m' v d :
  chain sizes n p m cs n' p' m' → storable m cs → leaves_ok m → fits 64 p → 0 < n → n + Z.of_nat (length cs) < 2 ^ 32 →
  mirrors (rv_tree_state d) sizes p m → chain_at now (n - 1) v p m (rd_chain (rv_db d)) →
  ∃ d' v', driver_update_tree_state now utc_now (decoded sg <$> cs) d = Val d' ∧ mirrors (rv_tree_state d') sizes p' m' ∧
    chain_at now (n - 1 + Z.of_nat (length cs)) v' p' m' (rd_chain (rv_db d')) ∧ v ≤ v' ∧ rv_events_state d' = rv_events_state d ∧
    events_kept (rv_db d) (rv_db d') ∧ rv_available_block_chunk_sizes d' = rv_available_block_chunk_sizes d ∧
    (rd_storage_state_update (rv_db d') = ["None"%string] ∨ cs = [] ∧ rv_db d' = rv_db d).
Proof.
  intros Hch Hst Hl Hp Hn Hlen Hm Hat.
  destruct (restore_chain_ok utc_now sg _ _ _ _ _ _ _ _ _ Hch Hl Hp (sb_fee _ _ Hst) Hm) as (rs & ts' & Hrun & Hrs & Hm').
  pose proof (restore_blocks_fit _ _ _ _ Hrun (decoded_lengths sg _ _ _ _ _ _ _ _ Hch Hst)) as Hfit.
  destruct (save_chain_ok sg sizes n p m cs n' p' m' rs v (rv_db d)) as (db' & v' & E & Hat' & Hv & Hk & Hs); try done.
  unfold driver_update_tree_state. change (decoded sg <$> cs) with ((λ c, decoded_block sg (block_number (cr_block c)) (cr_block c)) <$> cs).
  rewrite Hrun. cbn [mbind outcome_bind fst snd]. rewrite E. cbn [mbind outcome_bind]. by eexists _, v'.
Qed.

Lemma load_tree_ok sizes b v p m ts db :
  mirrors ts sizes p m → chain_at now b v p m (rd_chain db) → 0 < v →
  ∃ fee ts', get_tree_state now db = Val (v, m, p, fee) ∧ TreeState_load v m p fee sizes = Val ts' ∧ mirrors (Tree := Tree) ts' sizes p m.
Proof.
  intros (Hs & Hm & _) (hist & blocks & Hok & _ & Hst & Hlast) Hv. destruct (Hlast Hv) as (bl & Hbl & En & Ep & [fa Hfa]).
  destruct (ck_rows _ _ _ _ _ _ Hok _ Hbl) as (Hbf & _ & Hrows).
  assert (account_map_ok m) as Hmap.
  { rewrite <- Hm. apply state_map_ok; [done|by apply sk_capacity]. }
  destruct (from_acc_map_correct (Tree := Tree) m v Hmap) as (s & Es & Hs' & Hacc & _).
  exists (fee_account bl), (mkTreeState s p (address fa) sizes 0). split; [|split].
  - unfold get_tree_state. rewrite (load_verified_represents _ _ (ck_snapshot _ _ _ _ _ _ Hok)), (chain_last_verified now _ _ _ _ _ Hok), Hst.
    cbn [mbind outcome_bind fst snd]. rewrite <- En at 1. rewrite (get_block_back now); [| done | | | done].
    + cbn. by rewrite Ep.
    + rewrite (ck_blocks _ _ _ _ _ _ Hok), <- list_fmap_compose. apply (ck_numbers _ _ _ _ _ _ Hok).
    + rewrite (ck_blocks _ _ _ _ _ _ Hok). by apply list_elem_of_fmap_2.
  - unfold TreeState_load. rewrite Es. cbn [mbind outcome_bind]. rewrite get_account_lookup, Hacc, Hfa. done.
  - done.
Qed.

(** ** The events of a round *)

(** The events of the blocks numbered from [S b] on. *)
Definition typed_events (ty : EventType) (b : nat) (hashes : list Z) : list BlockEvent :=
  imap (λ i h, mkBlockEvent (Z.of_nat (S (b + i))) h ty) hashes.

Lemma typed_events_cons ty b h hs : typed_events ty b (h :: hs) = mkBlockEvent (Z.of_nat (S b)) h ty :: typed_events ty (S b) hs.
Proof.
  unfold typed_events. cbn [imap]. f_equal; [do 2 f_equal; lia|]. apply imap_ext. intros i x _. unfold compose. f_equal. lia.
Qed.

Lemma commit_events_typed b hs : commit_events b hs = typed_events Committed b hs.
Proof. revert b. induction hs as [|h hs IH]; intros b; [done|]. cbn [commit_events]. by rewrite typed_events_cons, IH. Qed.

Lemma typed_events_fit ty b hs :
  Forall (fits 256) hs → Z.of_nat (b + length hs) < 2 ^ 32 →
  Forall (event_fits ty) (typed_events ty b hs) ∧ StronglySorted (λ x y, be_block_num x ≤ be_block_num y) (typed_events ty b hs) ∧
  Forall (λ x, Z.of_nat b < be_block_num x) (typed_events ty b hs).
Proof.
  intros H. revert b. induction H as [|h hs Hh _ IH]; intros b Hb; [by repeat constructor|]. cbn [length] in Hb. rewrite typed_events_cons.
  destruct (IH (S b) ltac:(lia)) as (H1 & H2 & H3). split_and!; constructor; try done.
  - split; [done|]. split; [unfold fits; cbn; lia|done].
  - eapply Forall_impl; [exact H3|]. cbn. lia.
  - cbn. lia.
  - eapply Forall_impl; [exact H3|]. cbn. lia.
Qed.

Section Logs.
  Context (vt ct rt : Z) (Htopics : vt ≠ ct ∧ vt ≠ rt ∧ ct ≠ rt).

Definition logs_fit (logs : list BlockLog) : Prop := Forall (λ l, ∀ h, bl_transaction_hash l = Some h → fits 256 h) logs.

(** The verified events are those of the blocks that were verified since block [b]. *)
Lemma process_logs_verified b c logs c' es es' hs :
  contract_steps vt ct rt c logs c' → (b + length hs = ct_verified c)%nat → contract_ok c → logs_fit logs → Forall (fits 256) hs →
  verified_events es = typed_events Verified b hs → process_logs vt ct rt logs es = Val es' →
  ∃ hs', verified_events es' = typed_events Verified b hs' ∧ (b + length hs' = ct_verified c')%nat ∧ Forall (fits 256) hs'.
Proof.
  destruct Htopics as (Hvc & Hvr & Hcr).
  intros Hsteps. revert es hs. induction Hsteps as [c|c log c1 logs c2 Hstep _ IH]; intros es hs Hb Hok Hlogs Hhs Hv Hrun.
  { injection Hrun as <-. by exists hs. }
  apply Forall_cons in Hlogs as [Hlog Hlogs]. cbn [process_logs] in Hrun. apply outcome_bind_Val in Hrun as (es1 & H1 & Hrun).
  assert (events_match_step : ∃ hs1, verified_events es1 = typed_events Verified b hs1 ∧ (b + length hs1 = ct_verified c1)%nat ∧ Forall (fits 256) hs1 ∧ contract_ok c1).
  { destruct Hok as [Hok1 Hok2]. destruct Hstep as [c h Hfit|c h Hlt|c h n Hn]; unfold process_log, index_topic in H1;
      cbn [bl_topics bl_transaction_hash lookup list_lookup unwrap mbind outcome_bind length Nat.leb Nat.eqb assert_that] in H1.
    - destruct (Z.eqb_spec ct rt); [done|]. cbn [mbind outcome_bind] in H1. rewrite as_u32_nat in H1 by lia. cbn [mbind outcome_bind] in H1.
      destruct (Z.eqb_spec ct vt); [congruence|]. rewrite Z.eqb_refl in H1. injection H1 as <-. exists hs. unfold contract_ok. cbn.
      rewrite length_app. cbn. split_and!; [done|done|done|lia|lia].
    - destruct (Z.eqb_spec vt rt); [done|]. cbn [mbind outcome_bind] in H1. rewrite as_u32_nat in H1 by lia. cbn [mbind outcome_bind] in H1.
      rewrite Z.eqb_refl in H1. injection H1 as <-. exists (hs ++ [h]). unfold contract_ok. cbn. rewrite Hv. split_and!; [|rewrite length_app; cbn; lia| |lia|lia].
      + unfold typed_events. rewrite imap_app. cbn. do 3 f_equal. lia.
      + apply Forall_app. split; [done|]. constructor; [by apply Hlog|done].
    - rewrite Z.eqb_refl in H1. cbn [mbind outcome_bind] in H1. rewrite as_u32_nat in H1 by lia. cbn [mbind outcome_bind] in H1.
      rewrite as_u32_nat in H1 by lia. cbn [mbind outcome_bind] in H1.
      destruct (Z.eqb_spec rt vt); [congruence|]. destruct (Z.eqb_spec rt ct); [congruence|]. injection H1 as <-. exists hs. unfold contract_ok. cbn.
      rewrite length_take. split_and!; [done|done|done|lia|lia]. }
  destruct events_match_step as (hs1 & Hv1 & Hb1 & Hf1 & Hok1). by apply (IH es1 hs1).
Qed.

(** ** Rounds and restarts *)

(** The driver after the verified blocks of the contract. *)
Definition driver_at sizes (c : Contract) p m d : Prop :=
  ∃ b v, events_match b c (rv_events_state d) ∧ mirrors (rv_tree_state d) sizes p m ∧
    chain_at now (Z.of_nat (ct_verified c)) v p m (rd_chain (rv_db d)) ∧ rv_available_block_chunk_sizes d = sizes.

(** The database holds a block that the driver can start from. *)
Definition has_block (db : RestoreDb) : Prop := 0 < get_last_verified_block (cd_state (rd_chain db)).

Lemma chain_at_block b v p m db : chain_at now b v p m (rd_chain db) → has_block db ↔ 0 < v.
Proof. intros (hist & blocks & Hok & _). unfold has_block. by rewrite (chain_last_verified now _ _ _ _ _ Hok). Qed.

(** The contract verified the blocks of the keeper, and the node returns its logs. *)
Record verified_in (c c' : Contract) (es : EventsState) (sizes : list nat) p m (cs : list CommitRequest) p' m' (last_block : Z)
    (logs : Z → Z → result (list BlockLog)) (step offset : Z) : Prop := {
  vi_logs : ∃ range block_logs, next_range last_block (last_watched_eth_block_number es) step offset = Some range ∧
    fits 64 range.2 ∧ logs range.1 range.2 = Ok block_logs ∧ contract_steps vt ct rt c block_logs c' ∧ logs_fit block_logs;
  vi_hashes : Forall (fits 256) (ct_commits c');
  vi_bound : Z.of_nat (ct_verified c') < 2 ^ 32 - 1;
  vi_chain : ∃ n', chain sizes (Z.of_nat (S (ct_verified c))) p m cs n' p' m';
  vi_some : cs ≠ [];
  vi_committed : Forall2 (committed_by transaction decode)
    (take (ct_verified c' - ct_verified c) (drop (ct_verified c) (ct_commits c'))) (cr_block <$> cs);
  vi_publishable : Forall publishable (cr_block <$> cs);
  vi_storable : storable m cs;
  vi_leaves : leaves_ok m;
  vi_priority : fits 64 p;
}.

Lemma load_state_ok sizes b v p m ts d0 es st :
  rv_available_block_chunk_sizes d0 = sizes → get_storage_state (rv_db d0) = Val st →
  get_block_events_state_from_storage (rv_db d0) = Val es →
  mirrors ts sizes p m → chain_at now b v p m (rd_chain (rv_db d0)) → 0 < v →
  ∃ ts', mirrors ts' sizes p m ∧ load_state_from_storage now utc_now transaction decode d0 =
    let self := mkRestoreDriver (rv_db d0) es ts' sizes in
    match st with
    | SuEvents => r ← driver_update_operations_state transaction decode self; driver_update_tree_state now utc_now r.1 r.2
    | SuOperations => ops ← get_ops_blocks_from_storage (rv_db d0); driver_update_tree_state now utc_now ops self
    | SuNone => Val self
    end.
Proof.
  intros Hsz Hst Hes Hm Hat Hv. destruct (load_tree_ok sizes b v p m ts _ Hm Hat Hv) as (fee & ts' & E1 & E2 & Hm').
  exists ts'. split; [done|]. unfold load_state_from_storage. rewrite Hst, Hes, E1. cbn [mbind outcome_bind]. by rewrite Hsz, E2.
Qed.

Lemma chain_prefix sizes n p m cs1 cs2 : ∀ n' p' m',
  chain sizes n p m (cs1 ++ cs2) n' p' m' → ∃ n1 p1 m1, chain sizes n p m cs1 n1 p1 m1.
Proof.
  induction cs2 as [|c cs2 IH] using rev_ind; intros n' p' m' H; [rewrite app_nil_r in H; by eexists _, _, _|].
  rewrite app_assoc in H. inversion H as [E|cs ? ? ? c' ? H' _ E]; [by destruct (app_cons_not_nil _ _ _ E)|].
  apply app_inj_tail in E as [-> _]. by eapply IH.
Qed.

Lemma chain_mirrors sizes n p m cs n' p' m' (ts : TreeState Tree) :
  chain sizes n p m cs n' p' m' → leaves_ok m → fits 64 p → Forall (λ c, is_Some (m !! fee_account (cr_block c))) cs →
  mirrors ts sizes p m → ∃ ts' : TreeState Tree, mirrors ts' sizes p' m'.
Proof.
  intros Hch Hl Hp Hfee Hm. destruct TxSignature_default_Val as [sg _].
  destruct (restore_chain_ok utc_now sg _ _ _ _ _ _ _ _ _ Hch Hl Hp Hfee Hm) as (rs & ts' & _ & _ & Hm'). by exists ts'.
Qed.

(** What the round [c] to [c'] leaves to do once its events [es1] are known. *)
Section Round.
  Context (sizes : list nat) (c c' : Contract) (p : Z) (m : AccountMap) (cs : list CommitRequest) (n' p' : Z) (m' : AccountMap).
  Context (sg : TxSignature) (es1 : EventsState) (Hsg : TxSignature_default = Val sg) (Hev1 : events_match (ct_verified c) c' es1).
  Context (Hch : chain sizes (Z.of_nat (S (ct_verified c))) p m cs n' p' m') (Hlen : (ct_verified c + length cs = ct_verified c')%nat).
  Context (Hbound : Z.of_nat (ct_verified c') < 2 ^ 32 - 1) (Hne : cs ≠ []) (Hst : storable m cs) (Hl : leaves_ok m) (Hp : fits 64 p).
  Context (Hcom : Forall2 (committed_by transaction decode)
    (take (ct_verified c' - ct_verified c) (drop (ct_verified c) (ct_commits c'))) (cr_block <$> cs)).
  Context (Hpub : Forall publishable (cr_block <$> cs)).

Lemma round_operations d :
  rv_events_state d = es1 →
  driver_update_operations_state transaction decode d = Val (decoded sg <$> cs, set_rv_db (save_rollup_ops (decoded sg <$> cs) (rv_db d)) d).
Proof.
  intros Hd. unfold driver_update_operations_state, new_operation_blocks.
  rewrite Hd, (verified_committed_events_ok vt ct rt Htopics _ _ _ Hev1). cbn [mbind outcome_bind].
  by rewrite (ops_blocks_of_events_ok transaction decode sg _ _ _ Hsg Hpub Hcom), (decoded_blocks_imap sg _ _ _ _ _ _ _ _ Hch ltac:(lia)).
Qed.

Lemma round_operations_stored db :
  get_ops_blocks_from_storage (save_rollup_ops (decoded sg <$> cs) db) = Val (decoded sg <$> (stored_request <$> cs)).
Proof.
  rewrite ops_read_back; [|by eapply decoded_fits|eapply decoded_numbers; [exact Hch|lia..]]. f_equal.
  rewrite <- !list_fmap_compose. apply list_fmap_ext. intros i req Hi. symmetry. apply decoded_stored.
  eapply Forall_lookup_1; [apply Hst|exact Hi].
Qed.

(** The blocks of the round, as they were decoded or as they are read back. *)
Lemma round_blocks cs1 v d :
  cs1 = cs ∨ cs1 = stored_request <$> cs →
  mirrors (rv_tree_state d) sizes p m → chain_at now (Z.of_nat (ct_verified c)) v p m (rd_chain (rv_db d)) → rv_events_state d = es1 →
  rv_available_block_chunk_sizes d = sizes →
  ∃ r, driver_update_tree_state now utc_now (decoded sg <$> cs1) d = Val r ∧ driver_at sizes c' p' m' r ∧ rv_events_state r = es1 ∧
    events_kept (rv_db d) (rv_db r) ∧ rd_storage_state_update (rv_db r) = ["None"%string].
Proof.
  intros Hcs Hm Hat He Hs.
  assert (chain sizes (Z.of_nat (S (ct_verified c))) p m cs1 n' p' m' ∧ storable m cs1 ∧ length cs1 = length cs) as (Hch1 & Hst1 & Hl1).
  { destruct Hcs as [->| ->]; [done|]. split_and!; [apply stored_requests_chain; [apply Hst|done]|by apply stored_storable|apply length_fmap]. }
  set (n := Z.of_nat (S (ct_verified c))) in *.
  destruct (update_tree_ok sg sizes n p m cs1 n' p' m' v d Hch1 Hst1 Hl Hp ltac:(lia) ltac:(lia) Hm)
    as (r & v' & E & Hmr & Hatr & _ & Her & Hkr & Hsr & Hn); [by replace (n - 1) with (Z.of_nat (ct_verified c)) by lia|].
  exists r. split; [done|]. replace (n - 1 + Z.of_nat (length cs1)) with (Z.of_nat (ct_verified c')) in Hatr by lia.
  split; [|split; [congruence|split; [done|destruct Hn as [|[-> _]]; [done|by destruct cs]]]].
  exists (ct_verified c), v'. by rewrite Her, He, Hsr.
Qed.

(** A driver that starts with the events, or with the operations, finishes the round. *)
Lemma resume_round v ts d0 :
  rv_available_block_chunk_sizes d0 = sizes →
  get_storage_state (rv_db d0) = Val SuEvents ∨
    get_storage_state (rv_db d0) = Val SuOperations ∧ get_ops_blocks_from_storage (rv_db d0) = Val (decoded sg <$> (stored_request <$> cs)) →
  get_block_events_state_from_storage (rv_db d0) = Val es1 →
  mirrors ts sizes p m → chain_at now (Z.of_nat (ct_verified c)) v p m (rd_chain (rv_db d0)) → has_block (rv_db d0) →
  ∃ r, load_state_from_storage now utc_now transaction decode d0 = Val r ∧ driver_at sizes c' p' m' r ∧ rv_events_state r = es1.
Proof.
  intros Hsz Hstate Hread Hm Hat Hb. apply (chain_at_block _ _ _ _ _ Hat) in Hb.
  destruct Hstate as [Hstate|[Hstate Hops]];
    destruct (load_state_ok sizes _ v p m ts d0 es1 _ Hsz Hstate Hread Hm Hat Hb) as (ts' & Hts & ->); cbn zeta.
  - rewrite (round_operations (mkRestoreDriver (rv_db d0) es1 ts' sizes) eq_refl). cbn [mbind outcome_bind fst snd rv_db].
    destruct (round_blocks cs v (set_rv_db (save_rollup_ops (decoded sg <$> cs) (rv_db d0)) (mkRestoreDriver (rv_db d0) es1 ts' sizes)))
      as (r & E & Hr & He & _); [by left|done..|]. by exists r.
  - rewrite Hops. cbn [mbind outcome_bind].
    destruct (round_blocks (stored_request <$> cs) v (mkRestoreDriver (rv_db d0) es1 ts' sizes)) as (r & E & Hr & He & _); [by right|done..|]. by exists r.
Qed.

(** A driver that is stopped between the blocks of a round loses the others: the first
    block that is stored marks the round as complete, so that the restarted driver has
    the accounts after the blocks that were stored, but goes on with the events after
    the round. *)
Theorem crash_between_blocks_loses_blocks v d cs1 cs2 :
  cs = cs1 ++ cs2 → cs1 ≠ [] →
  mirrors (rv_tree_state d) sizes p m → chain_at now (Z.of_nat (ct_verified c)) v p m (rd_chain (rv_db d)) →
  get_block_events_state_from_storage (rv_db d) = Val es1 →
  ∃ rs ts db n1 p1 m1, restore_blocks utc_now (decoded sg <$> cs) (rv_tree_state d) = Val (rs, ts) ∧
    save_blocks now (take (length cs1) rs) (rv_db d) = Val db ∧ chain sizes (Z.of_nat (S (ct_verified c))) p m cs1 n1 p1 m1 ∧
    ∀ d0, rv_db d0 = db → has_block db → rv_available_block_chunk_sizes d0 = sizes →
      ∃ r es, load_state_from_storage now utc_now transaction decode d0 = Val r ∧ mirrors (rv_tree_state r) sizes p1 m1 ∧
        remove_verified_events (rv_events_state r) = Val es ∧ events_match (ct_verified c') c' es.
Proof.
  intros Ecs Hne1 Hm Hat Hread.
  destruct (restore_chain_ok utc_now sg _ _ _ _ _ _ _ _ _ Hch Hl Hp (sb_fee _ _ Hst) Hm) as (rs & ts & Hrun & Hrs & _).
  pose proof (restore_blocks_fit _ _ _ _ Hrun (decoded_lengths sg _ _ _ _ _ _ _ _ Hch Hst)) as Hfit.
  rewrite Ecs in Hrs. apply Forall2_app_inv_l in Hrs as (rs1 & rs2 & Hrs1 & _ & Ers).
  assert (∃ n1 p1 m1, chain sizes (Z.of_nat (S (ct_verified c))) p m cs1 n1 p1 m1) as (n1 & p1 & m1 & Hch1)
    by (eapply chain_prefix; by rewrite <- Ecs).
  assert (storable m cs1) as Hst1 by (eapply storable_app; by rewrite <- Ecs).
  assert (length cs = length cs1 + length cs2)%nat as El by (by rewrite Ecs, length_app).
  destruct (save_chain_ok sg sizes _ p m cs1 n1 p1 m1 rs1 v (rv_db d) Hch1 Hst1 Hl Hp ltac:(lia) ltac:(lia) Hrs1)
    as (db & v1 & E & Hat1 & _ & Hk & Hs).
  { rewrite Ers in Hfit. by apply Forall_app in Hfit as [? _]. }
  { by replace (Z.of_nat (S (ct_verified c)) - 1) with (Z.of_nat (ct_verified c)) by lia. }
  destruct Hs as [Hs|[? _]]; [|done].
  assert (take (length cs1) rs = rs1) as Etake by (rewrite Ers, (Forall2_length _ _ _ Hrs1); apply take_app_length).
  exists rs, ts, db, n1, p1, m1. rewrite Etake. do 3 (split; [done|]). intros d0 Ed Hb Hsz.
  rewrite <- Ed in Hs, Hat1, Hb. apply (chain_at_block _ _ _ _ _ Hat1) in Hb.
  destruct (chain_mirrors _ _ _ _ _ _ _ _ (rv_tree_state d) Hch1 Hl Hp (sb_fee _ _ Hst1) Hm) as [ts1 Hm1].
  assert (get_storage_state (rv_db d0) = Val SuNone) as Est by (unfold get_storage_state; by rewrite Hs).
  assert (get_block_events_state_from_storage (rv_db d0) = Val es1) as Eg by (rewrite <- Hread; apply events_kept_load; by rewrite Ed).
  destruct (load_state_ok sizes _ v1 p1 m1 ts1 d0 es1 SuNone Hsz Est Eg Hm1 Hat1 Hb) as (ts' & Hts & ->).
  destruct (remove_verified_events_ok vt ct rt Htopics _ _ _ Hev1) as (es & Er & He & _). by eexists _, es.
Qed.
End Round.

(** A driver that is up to date starts where it was. *)
Lemma resume_done sizes c p m d d0 :
  driver_at sizes c p m d → rd_chain (rv_db d0) = rd_chain (rv_db d) → rd_storage_state_update (rv_db d0) = ["None"%string] →
  get_block_events_state_from_storage (rv_db d0) = Val (rv_events_state d) → rv_available_block_chunk_sizes d0 = sizes → has_block (rv_db d0) →
  ∃ r, load_state_from_storage now utc_now transaction decode d0 = Val r ∧ driver_at sizes c p m r ∧ rv_events_state r = rv_events_state d.
Proof.
  intros (b & v & Hev & Hm & Hat & _) Ec Es Eg Hsz Hb. rewrite <- Ec in Hat. apply (chain_at_block _ _ _ _ _ Hat) in Hb.
  assert (get_storage_state (rv_db d0) = Val SuNone) as Est by (unfold get_storage_state; by rewrite Es).
  destruct (load_state_ok sizes _ v p m (rv_tree_state d) d0 _ _ Hsz Est Eg Hm Hat Hb) as (ts & Hts & ->).
  eexists. split; [done|]. split; [|done]. by exists b, v.
Qed.

(** The events that a round has read can be stored. *)
Lemma round_events_fit c c' bl es0 es1 :
  contract_steps vt ct rt c bl c' → contract_ok c → logs_fit bl → Forall (fits 256) (ct_commits c') → verified_events es0 = [] →
  process_logs vt ct rt bl es0 = Val es1 → events_match (ct_verified c) c' es1 → fits 64 (last_watched_eth_block_number es1) → events_fit es1.
Proof.
  intros Hsteps Hok Hlf Hh Hv0 Hproc (Hle & [Hc1 Hc2] & Hcom1 & Hver1) Hw.
  destruct (process_logs_verified (ct_verified c) c bl c' es0 es1 [] Hsteps) as (hs & Hver & Hhs & Hhf); [cbn; lia|done|done|done|done|done|].
  destruct (typed_events_fit Verified (ct_verified c) hs Hhf ltac:(lia)) as (V1 & V2 & _).
  destruct (typed_events_fit Committed (ct_verified c) (drop (ct_verified c) (ct_commits c'))) as (C1 & C2 & _);
    [by apply Forall_drop|rewrite length_drop; lia|].
  split; rewrite ?Hver, ?Hcom1, ?commit_events_typed; done.
Qed.

(** C17: A round in which the contract has verified new blocks (with publishable and storable operations)
    reaches the state after its verified blocks, and so does a
    driver that is stopped after the events, after the operations, after the blocks or
    at the end, and started again on the database it has left, if that has a stored block; the operations it
    reads back have lost their fees, which the state does not depend on. *)
Theorem restart_resumes sizes c c' p m cs p' m' last_block logs step offset d :
  driver_at sizes c p m d → verified_in c c' (rv_events_state d) sizes p m cs p' m' last_block logs step offset →
  ∃ d1 ops d2 d3 d',
    driver_update_events_state vt ct rt (Ok last_block) logs step offset d = Val (true, d1) ∧
    driver_update_operations_state transaction decode d1 = Val (ops, d2) ∧
    driver_update_tree_state now utc_now ops d2 = Val d3 ∧
    state_update_round now utc_now transaction decode vt ct rt (Ok last_block) logs step offset d = Val d' ∧
    driver_at sizes c' p' m' d' ∧
    ∀ d0, rv_db d0 ∈ [rv_db d1; rv_db d2; rv_db d3; rv_db d'] → has_block (rv_db d0) → rv_available_block_chunk_sizes d0 = sizes →
      ∃ r, load_state_from_storage now utc_now transaction decode d0 = Val r ∧ driver_at sizes c' p' m' r ∧
        rv_events_state r = rv_events_state d'.
Proof.
  intros (b & v & Hev & Hm & Hat & Hsz) [(range & bl & Hrange & Hr64 & Hlogs & Hsteps & Hlf) Hh Hbound (n' & Hch) Hne Hcom Hpub Hst Hl Hp].
  destruct TxSignature_default_Val as [sg Hsg].
  destruct (update_events_state_run vt ct rt Htopics b c c' (rv_events_state d) last_block logs bl step offset range Hev Hsteps Hrange Hlogs)
    as (es0 & es1 & Hv0 & Hproc & Hrun & Hw & Hev1).
  pose proof Hev1 as (Hle & [Hc1 Hc2] & _ & Hver1). pose proof Hev as (_ & Hcok & _ & _).
  assert (ct_verified c + length cs = ct_verified c')%nat as Hlen.
  { apply Forall2_length in Hcom. rewrite length_fmap, length_take, length_drop in Hcom. lia. }
  assert (events_fit es1) as Hfit by (eapply round_events_fit; [exact Hsteps|..]; try done; by rewrite Hw).
  assert (length cs ≠ 0%nat) as Hn0 by (by destruct cs).
  assert (verified_events es1 ≠ []) as Hv1 by (intros E; rewrite E in Hver1; cbn in Hver1; lia).
  set (evs := match bl with [] => [] | _ => _ end) in Hrun.
  assert (evs = committed_events es1 ++ verified_events es1 ∧ evs ≠ []) as [Eevs Hevs].
  { subst evs. destruct bl; [inversion Hsteps; subst; lia|]. split; [done|]. by intros [_ E]%app_nil. }
  set (d1 := mkRestoreDriver (save_events_state evs range.2 (rv_db d)) es1 (rv_tree_state d) (rv_available_block_chunk_sizes d)).
  assert (driver_update_events_state vt ct rt (Ok last_block) logs step offset d = Val (true, d1)) as E1
    by (unfold driver_update_events_state; by rewrite Hrun, bool_decide_false).
  assert (get_block_events_state_from_storage (rv_db d1) = Val es1) as Hread
    by (cbn [d1 rv_db]; rewrite Eevs, <- Hw; by apply events_read_back).
  pose proof (round_operations sizes c c' p m cs n' p' m' sg es1 Hsg Hev1 Hch Hlen Hbound Hcom Hpub d1 eq_refl) as E2. set (d2 := set_rv_db _ d1) in E2.
  destruct (round_blocks sizes c c' p m cs n' p' m' sg es1 Hev1 Hch Hlen Hbound Hne Hst Hl Hp Hcom Hpub cs v d2) as (d3 & E3 & Hat3 & He3 & Hk3 & Hn3); [by left|done..|].
  exists d1, (decoded sg <$> cs), d2, d3, (set_rv_db (update_eth_stats (rv_db d3)) d3). split; [exact E1|]. split; [exact E2|]. split; [exact E3|]. split; [|split].
  - unfold state_update_round. rewrite E1. cbn [mbind outcome_bind]. rewrite E2. cbn [mbind outcome_bind].
    destruct (decoded sg <$> cs) eqn:E; [by destruct cs|]. by rewrite E3.
  - exact Hat3.
  - cbn [set_rv_db rv_events_state rv_db]. rewrite He3.
    intros d0 [E|[E|H3]%elem_of_cons]%elem_of_cons Hb Hsz0.
    + eapply (resume_round sizes c c'); try done; [left|..]; by rewrite E.
    + eapply (resume_round sizes c c'); try done; [right|..]; rewrite E; try done.
      split; [done|]. by eapply round_operations_stored.
    + assert (get_block_events_state_from_storage (rv_db d3) = Val es1) as Hread3 by (by rewrite (events_kept_load _ _ Hk3)).
      rewrite <- He3 in Hread3 |- *. apply (resume_done sizes c' p' m' d3); try done;
        apply elem_of_cons in H3 as [->|[->|[]%elem_of_nil]%elem_of_cons]; done.
Qed.
(** ** A round without logs *)

(** A driver without events has nothing to do. *)
Lemma load_without_events sizes b v p m ts d0 w :
  rv_available_block_chunk_sizes d0 = sizes → get_storage_state (rv_db d0) = Val SuEvents →
  get_block_events_state_from_storage (rv_db d0) = Val (mkEventsState [] [] w) →
  mirrors ts sizes p m → chain_at now b v p m (rd_chain (rv_db d0)) → has_block (rv_db d0) →
  ∃ r, load_state_from_storage now utc_now transaction decode d0 = Val r ∧ rv_events_state r = mkEventsState [] [] w ∧
    mirrors (rv_tree_state r) sizes p m.
Proof.
  intros Hsz Est Eg Hm Hat Hb. apply (chain_at_block _ _ _ _ _ Hat) in Hb.
  destruct (load_state_ok sizes b v p m ts d0 _ SuEvents Hsz Est Eg Hm Hat Hb) as (ts' & Hts & ->).
  by eexists.
Qed.

(** The verification of a block whose commit is not known stops the driver. *)
Lemma unknown_verified_panics n h w last_block logs step offset range r :
  rv_events_state r = mkEventsState [] [] w → next_range last_block w step offset = Some range →
  logs range.1 range.2 = Ok [mkBlockLog [vt; n] (Some h)] → fits 32 n →
  ∃ msg, state_update_round now utc_now transaction decode vt ct rt (Ok last_block) logs step offset r = Panic msg.
Proof.
  destruct Htopics as (Hvc & Hvr & Hcr). intros He Hrange Hlogs Hn. destruct range as [from to].
  unfold state_update_round, driver_update_events_state, update_events_state, update, lift, gets, total, mbind, exec_bind.
  rewrite He. assert (remove_verified_events (mkEventsState [] [] w) = Val (mkEventsState [] [] w)) as -> by reflexivity.
  unfold get_new_events_and_last_watched_block. cbn [last_watched_eth_block_number]. rewrite Hrange. cbn [fst snd] in Hlogs. rewrite Hlogs. cbn. unfold process_log, index_topic. cbn.
  destruct (Z.eqb_spec vt rt); [done|]. cbn. unfold as_u32. rewrite bool_decide_true by done. cbn. rewrite Z.eqb_refl. cbn. by eexists.
Qed.

(** A round without new logs deletes the stored events of the blocks that are not yet
    verified: a driver that is started again does not know them, and stops when the
    next of them is verified. *)
Theorem quiet_round_forgets_events sizes c p m d last_block logs step offset range :
  driver_at sizes c p m d → (ct_verified c < length (ct_commits c))%nat →
  next_range last_block (last_watched_eth_block_number (rv_events_state d)) step offset = Some range → fits 64 range.2 →
  logs range.1 range.2 = Ok [] →
  ∃ d1, state_update_round now utc_now transaction decode vt ct rt (Ok last_block) logs step offset d = Val d1 ∧
    committed_events (rv_events_state d1) ≠ [] ∧
    ∀ d0, rv_db d0 = rv_db d1 → has_block (rv_db d0) → rv_available_block_chunk_sizes d0 = sizes →
      ∃ r, load_state_from_storage now utc_now transaction decode d0 = Val r ∧ rv_events_state r = mkEventsState [] [] range.2 ∧
        ∀ h last' logs' step' offset' range', next_range last' range.2 step' offset' = Some range' →
          logs' range'.1 range'.2 = Ok [mkBlockLog [vt; Z.of_nat (S (ct_verified c))] (Some h)] →
          ∃ msg, state_update_round now utc_now transaction decode vt ct rt (Ok last') logs' step' offset' r = Panic msg.
Proof.
  intros (b & v & Hev & Hm & Hat & Hsz) Hlt Hrange Hr64 Hlogs.
  destruct (update_events_state_run vt ct rt Htopics b c c (rv_events_state d) last_block logs [] step offset range Hev (steps_nil _ _ _ c) Hrange Hlogs)
    as (es0 & es1 & _ & _ & Hrun & Hw & (_ & [Hc1 Hc2] & Hcom1 & _)).
  set (d1 := mkRestoreDriver (save_events_state [] range.2 (rv_db d)) es1 (rv_tree_state d) (rv_available_block_chunk_sizes d)).
  exists d1. split; [unfold state_update_round, driver_update_events_state; by rewrite Hrun|]. split.
  { cbn [d1 rv_events_state]. rewrite Hcom1. destruct (drop _ _) eqn:E; [|done]. apply (f_equal length) in E. rewrite length_drop in E. cbn in E. lia. }
  intros d0 E Hb Hsz0.
  assert (get_block_events_state_from_storage (rv_db d0) = Val (mkEventsState [] [] range.2)) as Eg
    by (rewrite E; apply (events_read_back (mkEventsState [] [] range.2)); split; [constructor..|done]).
  destruct (load_without_events sizes (Z.of_nat (ct_verified c)) v p m (rv_tree_state d) d0 range.2) as (r & Er & He & _);
    try done; [by rewrite E|by rewrite E|].
  exists r. split; [done|]. split; [done|]. intros h last' logs' step' offset' range' Hrange' Hlogs'.
  eapply unknown_verified_panics; [exact He|exact Hrange'|exact Hlogs'|unfold fits; lia].
Qed.
End Logs.
End Resume.
