(* ===== verification/ApiCaches.v ===== *)
(** * What the API servers read
    (core/server/src/utils/shared_lru_cache.rs, core/storage/src/chain/operations_ext,
    core/models/src/node/tx.rs, core/server/src/api_server/rpc_server.rs)

    The texts of transaction hashes, the receipts of transactions, the records that the
    servers answer with, and the least-recently-used caches in front of the database.
    The caches and the decoder of hexadecimal digits are crates: the classes [LruCaches]
    and [HexDecoder], with the laws that the servers rely on and concrete instances. *)

From S2P Require Import Prelude Bytes Params Externals Primitives Amounts Account Tx Decimal Operations Block EthStorage Storage.
From S2P Require Import BlockStorage Witness WitnessOps ProverPool.
Open Scope Z_scope.

(** ** Crates *)

(** [lru_cache::LruCache]; [get_mut] marks the entry as used. *)
Class LruCaches : Type := {
  Lru : Type → Type → Type;
  lru_new {K V} : nat → Lru K V;
  lru_get_mut {K V} `{EqDecision K} : K → Lru K V → option V * Lru K V;
  lru_insert {K V} `{EqDecision K} : K → V → Lru K V → Lru K V;
}.
Definition lru_lookup `{LruCaches} {K V} `{EqDecision K} (k : K) (c : Lru K V) : option V := (lru_get_mut k c).1.

(** A cache forgets entries but makes none up. *)
Class LruLaws `{LruCaches} : Prop := {
  lru_new_empty K V `{EqDecision K} n k : lru_lookup k (lru_new n : Lru K V) = None;
  lru_get_keeps K V `{EqDecision K} k k' (c : Lru K V) : lru_lookup k' (lru_get_mut k c).2 = lru_lookup k' c;
  lru_insert_only K V `{EqDecision K} k v k' w (c : Lru K V) :
    lru_lookup k' (lru_insert k v c) = Some w → (k' = k ∧ w = v) ∨ (k' ≠ k ∧ lru_lookup k' c = Some w);
}.

(** [hex::decode], and the digits that [hex::encode] writes. *)
Class HexDecoder `{EX : External} : Type := { hex_decode : bytes → option bytes }.
Class HexLaws `{HD : HexDecoder} : Prop := {
  hex_decode_encode l : Forall is_byte l → hex_decode (hex_encode l) = Some l;
  hex_encode_digits l : Forall is_byte l → Forall (λ c, is_digit c = true ∨ 97 ≤ c ≤ 102) (hex_encode l);
}.

(** ** Hashes of transactions *)
Section TxHash.
  Context `{HD : HexDecoder}.

Definition TxHash_to_string (data : bytes) : bytes := str "sync-tx:" ++ hex_encode data.

Definition TxHash_from_str (s : bytes) : result bytes :=
  if bool_decide (take 8 s = str "sync-tx:") then
    match hex_decode (drop 8 s) with
    | None => Err "FromHexError"
    | Some data => if (length data =? 32)%nat then Ok data else Err "Size mismatch"
    end
  else Err "TxHash should start with sync-tx:".

(** A hash is read back from its text, and the text has no slash. *)
Lemma TxHash_roundtrip {HL : HexLaws} h : is_array 32 h → TxHash_from_str (TxHash_to_string h) = Ok h.
Proof.
  intros [Hl Hb]. unfold TxHash_from_str, TxHash_to_string. rewrite bool_decide_true by done.
  change (drop 8 (str "sync-tx:" ++ hex_encode h)) with (hex_encode h). rewrite hex_decode_encode by done.
  by rewrite (proj2 (Nat.eqb_eq _ _) Hl).
Qed.
Lemma hex_no_slash {HL : HexLaws} l : Forall is_byte l → 47 ∉ hex_encode l.
Proof.
  intros Hl Hin. pose proof (hex_encode_digits l Hl) as H. rewrite Forall_forall in H. apply H in Hin. by destruct Hin as [Hin|]; [|lia].
Qed.
Lemma TxHash_no_slash {HL : HexLaws} h : Forall is_byte h → 47 ∉ TxHash_to_string h.
Proof.
  intros Hh. unfold TxHash_to_string. rewrite elem_of_app. intros [Hin|Hin]; [|by apply hex_no_slash in Hin].
  revert Hin. cbn. rewrite !elem_of_cons, elem_of_nil. intuition done.
Qed.
End TxHash.

(** ** The records of the answers *)
Section Answers.
  Context `{C : Codec}.

Record BlockInfo : Type := mkBlockInfo { bi_block_number : Z; bi_committed : bool; bi_verified : bool }.
Record TransactionInfoResp : Type := mkTxInfo {
  ti_executed : bool;
  ti_success : option bool;
  ti_fail_reason : option string;
  ti_block : option BlockInfo;
}.
Record ETHOpInfoResp : Type := mkOpInfo { oi_executed : bool; oi_block : option BlockInfo }.
Record ResponseAccountState : Type := mkAccountState {
  ra_tokens : gset TokenId;
  ra_nonce : Nonce;
  ra_pub_key_hash : PubKeyHash;
}.
Definition try_to_restore (account : Account) : result ResponseAccountState :=
  Ok (mkAccountState (list_to_set (get_tokens account)) (nonce account) (pub_key_hash account)).
Definition ResponseAccountState_default : ResponseAccountState := mkAccountState ∅ 0 PubKeyHash_default.

(** ** Receipts (operations_ext) *)

Record TxReceiptResponse : Type := mkReceipt {
  rc_tx_hash : bytes;
  rc_block_number : Z;
  rc_success : bool;
  rc_verified : bool;
  rc_fail_reason : option string;
  rc_prover_run : option ProverRun;
}.

(** The first operation of a block, with the action of the given name. *)
Definition first_operation (block : Z) (action : ActionType) (db : ChainDb) : option StoredOperation :=
  head (List.filter (λ o, (so_block_number o =? block) && bool_decide (so_action_type o = ActionType_to_string action))
          (t_operations (cd_state db))).

Definition tx_receipt (hash : bytes) (db : ChainDb) (jobs : ProverTables) : option TxReceiptResponse :=
  match get_executed_operation hash db with
  | Some tx =>
      match first_operation (xt_block_number tx) COMMIT db with
      | None => None
      | Some _ =>
          let verified := match first_operation (xt_block_number tx) VERIFY db with Some v => so_confirmed v | None => false end in
          let prover_run := head (List.filter (λ r, run_block_number r =? xt_block_number tx) (t_prover_runs jobs)) in
          Some (mkReceipt (hex_encode hash) (xt_block_number tx) (xt_success tx) verified (xt_fail_reason tx) prover_run)
      end
  | None => None
  end.
End Answers.

(** ** Reading through a cache *)
Section Cached.
  Context `{LC : LruCaches} {K V : Type} `{EqDecision K}.

(** The entry of the cache, or else what is fetched, which is cached when [keep] says so. *)
Definition through_cache (k : K) (fetch : Fallible (option V)) (keep : V → bool) : Exec (Lru K V) (option V) := λ c,
  match lru_get_mut k c with
  | (Some v, c) => Val (Ok (Some v), c)
  | (None, c) =>
      match fetch with
      | Val (Ok (Some v)) => Val (Ok (Some v), if keep v then lru_insert k v c else c)
      | Val (Ok None) => Val (Ok None, c)
      | Val (Err e) => Val (Err e, c)
      | Panic msg => Panic msg
      end
  end.

(** Every entry of the cache is right for its key. *)
Definition cache_valid (P : K → V → Prop) (c : Lru K V) : Prop := ∀ k v, lru_lookup k c = Some v → P k v.

Lemma cache_valid_new {LL : LruLaws} P n : cache_valid P (lru_new n).
Proof. intros k v. by rewrite lru_new_empty. Qed.
Lemma cache_valid_impl (P Q : K → V → Prop) c : (∀ k v, P k v → Q k v) → cache_valid P c → cache_valid Q c.
Proof. intros H Hc k v Hv. by apply H, Hc. Qed.

Lemma through_cache_spec {LL : LruLaws} P k fetch keep c :
  cache_valid P c → (∀ v, fetch = Val (Ok (Some v)) → keep v = true → P k v) →
  match through_cache k fetch keep c with
  | Val (r, c') => cache_valid P c' ∧ (fetch = Val r ∨ ∃ v, r = Ok (Some v) ∧ P k v)
  | Panic msg => fetch = Panic msg
  end.
Proof.
  intros Hc Hf. unfold through_cache. pose proof (Hc k) as Hk. pose proof (λ k', lru_get_keeps K V k k' c) as Hg.
  assert (cache_valid P (lru_get_mut k c).2) as Hc' by (intros k' v; rewrite Hg; apply Hc).
  unfold lru_lookup in Hk. destruct (lru_get_mut k c) as [[v|] c'].
  { split; [done|]. right. exists v. split; [done|]. by apply Hk. }
  destruct fetch as [[[v|]|e]|msg]; try (split; [done|by left]); [|done]. split; [|by left].
  destruct (keep v) eqn:Hv; [|done]. intros k' w Hw. apply lru_insert_only in Hw as [[-> ->]|[_ Hw]]; [by apply Hf|by apply Hc'].
Qed.
End Cached.
