(* ===== verification/RpcServer.v ===== *)
(** * The queries of the JSON-RPC server
    (core/server/src/api_server/rpc_server.rs, core/storage/src/colexi,
     [find_block_by_height_or_hash] of core/storage/src/chain/block/mod.rs)

    Accounts with their ongoing deposits, transactions, priority operations and the
    history of a token.  The server answers from the database, through its caches, from
    the state keeper and from the Ethereum watcher.  The times at which the database has
    inserted its rows, and the text of a date (chrono), are functions. *)

From S2P Require Import Prelude Bytes Params Externals Primitives Amounts Account Tx Decimal Operations Block EthStorage Storage.
From S2P Require Import BlockStorage Merkle AccountLeaf PlasmaState StateKeeper EthWatch Witness WitnessOps ProverPool ApiCaches.
Open Scope Z_scope.

(** [LEFT JOIN]: an unmatched row of the left table is kept. *)
Definition left_join {A B} (on : A → B → bool) (l : list A) (r : list B) : list (A * option B) :=
  concat ((λ a, match List.filter (on a) r with [] => [(a, None)] | bs => (λ b, (a, Some b)) <$> bs end) <$> l).

(** [parse::<i64>()] *)
Definition parse_i64 (l : bytes) : option Z :=
  match l with
  | c :: (_ :: _) as l' =>
      if c =? 45 then n ← parse_digits 64 0 (drop 1 l'); if n <=? 2 ^ 63 then Some (- n) else None
      else parse_uint 63 l
  | _ => parse_uint 63 l
  end.

Section Rpc.
  Context `{C : Codec} `{HD : !HexDecoder} `{LC : LruCaches} {Tree : Type} `{ST : !SparseTree Tree Account Fr}.
  (** When the rows of [operations] and of [executed_priority_operations] were inserted. *)
  Context (operation_time priority_op_time : Z → Z) (first_row : ∀ A, list A → option A) (format_date : Z → string).

(** ** Blocks (block/mod.rs) *)

Record BlockDetails : Type := mkBlockDetails {
  bd_block_number : Z;
  bd_new_state_root : bytes;
  bd_block_size : Z;
  bd_commit_tx_hash : option bytes;
  bd_verify_tx_hash : option bytes;
  bd_committed_at : Z;
  bd_verified_at : option Z;
}.

Definition try_parse_hex (query : bytes) : option bytes :=
  if bool_decide (take 2 query = str "0x") then Some (drop 2 query)
  else if bool_decide (take 8 query = str "sync-bl:") then Some (drop 8 query)
  else if (length query =? 64)%nat && bool_decide (is_Some (hex_decode query)) then Some query
  else None.

(** A row of [eth_ops]: an operation and the hash of a transaction that was sent for it. *)
Definition eth_ops (db : ChainDb) (eth : EthDb) : list (StoredOperation * option bytes) :=
  concat ((λ p : StoredOperation * option ETHBinding,
      match p.2 with
      | None => [(p.1, None)]
      | Some b =>
          (λ q : ETHBinding * option ETHTxHash, (p.1, to_be_bytes 32 ∘ th_tx_hash <$> q.2)) <$>
            left_join (λ b h, th_eth_op_id h =? bd_eth_op_id b) [b] (eth_tx_hashes eth)
      end) <$> left_join (λ o b, bd_op_id b =? so_id o) (t_operations (cd_state db)) (eth_ops_binding eth)).

Definition is_action (action : ActionType) (n : Z) (r : StoredOperation * option bytes) : bool :=
  (so_block_number r.1 =? n) && bool_decide (so_action_type r.1 = ActionType_to_string action).

(** The joins of the query, before the condition. *)
Definition block_rows (db : ChainDb) (eth : EthDb) : list BlockDetails :=
  concat ((λ b : StorageBlock,
      let n := sb_number b in
      let rows := eth_ops db eth in
      (λ p : (StoredOperation * option bytes) * option (StoredOperation * option bytes),
         mkBlockDetails n (sb_root_hash b) (sb_block_size b) p.1.2 (p.2 ≫= snd) (operation_time (so_id p.1.1))
           ((λ v, operation_time (so_id v.1)) <$> p.2)) <$>
        left_join (λ _ v, is_action VERIFY n v) (List.filter (is_action COMMIT n) rows) rows) <$> t_blocks (cd_state db)).

(** A hash that is not hexadecimal makes the query fail. *)
Definition find_block_by_height_or_hash (query : bytes) (db : ChainDb) (eth : EthDb) : option BlockDetails :=
  let select (condition : BlockDetails → bool) :=
    head (order_by (λ r, - bd_block_number r) (List.filter condition (block_rows db eth))) in
  let block_lookup (r : BlockDetails) : bool :=
    match parse_i64 query with Some n => bd_block_number r =? n | None => false end in
  match try_parse_hex query with
  | Some hex_query =>
      hash ← hex_decode hex_query;
      select (λ r, bool_decide (bd_commit_tx_hash r = Some hash) || bool_decide (bd_verify_tx_hash r = Some hash)
                   || bool_decide (bd_new_state_root r = hash) || block_lookup r)
  | None => if bool_decide (is_Some (parse_i64 query)) then select block_lookup else None
  end.

(** ** Tokens (colexi/mod.rs) *)

Record TransferOperation : Type := mkTransferOperation {
  tf_block_number : Z;
  tf_from : option bytes;
  tf_to : bytes;
  tf_tx_hash : bytes;
  tf_proof_block_number : option Z;
  tf_created_at : Z;
}.

(** The JSON text of an address. *)
Definition address_text (a : Address) : bytes := str "0x" ++ hex_encode a.

(** The fields [tokenId], [from] and [to] of a transaction's JSON value. *)
Definition tx_fields (tx : Value) : option (Z * bytes * bytes) :=
  match tx_from_value tx with
  | Some (TxTransfer tx) => Some (tr_token_id tx, address_text (tr_from tx), address_text (tr_to tx))
  | Some (TxWithdraw tx) => Some (wd_token_id tx, address_text (wd_from tx), address_text (wd_to tx))
  | _ => None
  end.

Definition with_proofs {A} (block : A → Z) (l : list A) (db : ChainDb) : list (A * option StoredProof) :=
  left_join (λ a p, pf_block_number p =? block a) l (cd_proofs db).

Definition get_transfer_history (token_id : Z) (db : ChainDb) : list TransferOperation :=
  omap (λ p : StoredExecutedTransaction * option StoredProof,
      '(token, from, to) ← tx_fields (xt_tx p.1);
      if (token =? token_id) && xt_success p.1 then
        Some (mkTransferOperation (xt_block_number p.1) (Some from) to (xt_tx_hash p.1) (pf_block_number <$> p.2) (xt_created_at p.1))
      else None)
    (order_by (λ p, xt_id p.1) (with_proofs xt_block_number (cd_txs db) db)).

(** The hash is read as the bytes of its hexadecimal text. *)
Definition deposit_of_row (token_id : Z) (p : StoredExecutedPriorityOperation * option StoredProof) : option TransferOperation :=
  match op_from_value (xp_operation p.1) with
  | Some (OpDeposit op) =>
      if dp_token_id (dpo_priority_op op) =? token_id then
        Some (mkTransferOperation (xp_block_number p.1) None (address_text (dp_to (dpo_priority_op op)))
                (hex_encode (xp_eth_hash p.1)) (pf_block_number <$> p.2) (priority_op_time (xp_id p.1)))
      else None
  | _ => None
  end.

(** The query has no [ORDER BY]: of several rows, the database chooses the one that is returned first. *)
Definition get_initial_deposit (token_id : Z) (db : ChainDb) : option TransferOperation :=
  first_row _ (omap (deposit_of_row token_id) (with_proofs xp_block_number (cd_prior db) db)).

(** One of the rows of the token; a token whose account has no row gives no address, which is not a valid row. *)
Definition get_current_owner (token_id : Z) (db : ChainDb) : result (option bytes) :=
  match first_row _ (left_join (λ t a, sa_id a =? st_account_id t)
                (List.filter (λ t, st_token_id t =? token_id) (t_tokens (cd_state db))) (t_accounts (cd_state db))) with
  | None => Ok None
  | Some (_, Some a) => Ok (Some (sa_address a))
  | Some (_, None) => Err "UnexpectedNullError"
  end.

(** ** The records of the answers *)

Record DepositingToken : Type := mkDepositingToken { dt_token_id : Z; dt_expected_accept_block : Z }.
Record DepositingAccountTokens : Type := mkDepositingAccountTokens { da_tokens : list DepositingToken }.
Record OngoingDeposit : Type := mkOngoingDeposit {
  od_received_on_block : Z;
  od_token_id : Z;
  od_eth_tx_hash : bytes;
}.
Record OngoingDepositsResp : Type := mkOngoingDepositsResp {
  or_address : Address;
  or_deposits : list OngoingDeposit;
  or_confirmations_for_eth_event : Z;
  or_estimated_deposits_approval_block : option Z;
}.
Record AccountInfoResp : Type := mkAccountInfoResp {
  ai_address : Address;
  ai_id : option Z;
  ai_depositing : DepositingAccountTokens;
  ai_committed : ResponseAccountState;
  ai_verified : ResponseAccountState;
}.
Record TransferHistory : Type := mkTransferHistory {
  hi_from : option bytes;
  hi_to : bytes;
  hi_verified : bool;
  hi_block_number : Z;
  hi_date : string;
  hi_tx_hash : bytes;
}.
Record TokenInfoResp : Type := mkTokenInfoResp { tk_history : list TransferHistory; tk_owner : option bytes }.

Definition from_pending_ops (pending_ops : OngoingDepositsResp) : result DepositingAccountTokens :=
  Ok (mkDepositingAccountTokens ((λ op,
    let expected_accept_block := wrap 64 (od_received_on_block op + or_confirmations_for_eth_event pending_ops) in
    mkDepositingToken (od_token_id op) (if 0 <? expected_accept_block then expected_accept_block else 0))
    <$> or_deposits pending_ops)).

Definition OngoingDeposit_new (received_on_block : Z) (priority_op : PriorityOp) : outcome OngoingDeposit :=
  token_id ← match po_data priority_op with
             | PDeposit deposit => Val (dp_token_id deposit)
             | _ => Panic "Incorrect input for OngoingDeposit"
             end;
  Val (mkOngoingDeposit received_on_block token_id (hex_encode (po_eth_hash priority_op))).

(** ** The server *)

Record RpcApp : Type := mkRpcApp {
  rpc_executed_priority_operations : Lru Z StoredExecutedPriorityOperation;
  rpc_blocks_info : Lru Z BlockDetails;
  rpc_transaction_receipts : Lru bytes TxReceiptResponse;
  confirmations_for_eth_event : Z;
}.
Definition RpcApp_new (api_requests_caches_size : nat) (confirmations_for_eth_event : Z) : RpcApp :=
  mkRpcApp (lru_new api_requests_caches_size) (lru_new api_requests_caches_size) (lru_new api_requests_caches_size)
    confirmations_for_eth_event.

Definition set_rpc_operations c (s : RpcApp) : RpcApp :=
  mkRpcApp c (rpc_blocks_info s) (rpc_transaction_receipts s) (confirmations_for_eth_event s).
Definition set_rpc_blocks c (s : RpcApp) : RpcApp :=
  mkRpcApp (rpc_executed_priority_operations s) c (rpc_transaction_receipts s) (confirmations_for_eth_event s).
Definition set_rpc_receipts c (s : RpcApp) : RpcApp :=
  mkRpcApp (rpc_executed_priority_operations s) (rpc_blocks_info s) c (confirmations_for_eth_event s).

(** The database when it is reached: blocks and accounts, prover jobs, Ethereum transactions. *)
Definition RpcStorage : Type := ChainDb * ProverTables * EthDb.
Definition rpc_access_storage (w : option RpcStorage) : Fallible RpcStorage := ok_or "Internal error" w.

Definition touches (address : Address) (p : Z * PriorityOp) : bool :=
  match po_data p.2 with
  | PDeposit deposit => bool_decide (dp_from deposit = address) || bool_decide (dp_to deposit = address)
  | _ => false
  end.

(** The watcher answers with its unconfirmed queue. *)
Definition get_ongoing_deposits_impl (watch : EthWatch) (address : Address) : Exec RpcApp OngoingDepositsResp :=
  confirmations ← gets confirmations_for_eth_event;
  let ongoing_ops := List.filter (touches address) (unconfirmed_queue (eth_state watch)) in
  let max_block_number := foldl (λ (m : Z) (p : Z * PriorityOp), if m <? p.1 then p.1 else m) 0 ongoing_ops in
  deposits ← total (map_outcome (λ p : Z * PriorityOp, OngoingDeposit_new p.1 p.2) ongoing_ops);
  mret (mkOngoingDepositsResp address deposits confirmations
          (match deposits with [] => None | _ => Some (wrap 64 (max_block_number + confirmations)) end)).

Definition rpc_get_executed_priority_operation (w : option RpcStorage) (serial_id : Z) :
    Exec RpcApp (option StoredExecutedPriorityOperation) :=
  zoom rpc_executed_priority_operations set_rpc_operations
    (through_cache serial_id
       (storage ← rpc_access_storage w; Val (Ok (get_executed_priority_operation serial_id storage.1.1))) (λ _, true)).

Definition rpc_get_block_info (w : option RpcStorage) (block_number : Z) : Exec RpcApp (option BlockDetails) :=
  zoom rpc_blocks_info set_rpc_blocks
    (through_cache block_number
       (storage ← rpc_access_storage w; Val (Ok (find_block_by_height_or_hash (decimal block_number) storage.1.1 storage.2)))
       (λ block, bool_decide (is_Some (bd_verified_at block)))).

Definition rpc_get_tx_receipt (w : option RpcStorage) (tx_hash : bytes) : Exec RpcApp (option TxReceiptResponse) :=
  zoom rpc_transaction_receipts set_rpc_receipts
    (through_cache tx_hash (storage ← rpc_access_storage w; Val (Ok (tx_receipt tx_hash storage.1.1 storage.1.2))) rc_verified).

Definition restore_or_default (account : option (Z * Account)) : result ResponseAccountState :=
  match account with Some (_, account) => try_to_restore account | None => Ok ResponseAccountState_default end.

Definition account_info (w : option RpcStorage) (keeper : PlasmaStateKeeper Tree) (watch : EthWatch) (address : Address) :
    Exec RpcApp AccountInfoResp :=
  storage ← lift (rpc_access_storage w);
  account ← total (AccountSchema.account_state_by_address address (cd_state storage.1.1));
  committed_account_state ← match keeper_account address keeper with Val a => mret a | Panic _ => raise "Internal error" end;
  committed ← lift (Val (restore_or_default committed_account_state));
  verified ← lift (Val (restore_or_default (AccountSchema.verified account)));
  depositing_ops ← get_ongoing_deposits_impl watch address;
  depositing ← lift (Val (from_pending_ops depositing_ops));
  mret (mkAccountInfoResp address (fst <$> committed_account_state) depositing committed verified).

Definition ethop_info (w : option RpcStorage) (serial_id : Z) : Exec RpcApp ETHOpInfoResp :=
  executed_op ← rpc_get_executed_priority_operation w serial_id;
  match executed_op with
  | Some executed_op =>
      block ← rpc_get_block_info w (xp_block_number executed_op);
      mret (mkOpInfo true (Some (mkBlockInfo (xp_block_number executed_op) true
              (match block with Some b => bool_decide (is_Some (bd_verified_at b)) | None => false end))))
  | None => mret (mkOpInfo false None)
  end.

Definition get_confirmations_for_eth_op_amount : Exec RpcApp Z := gets confirmations_for_eth_event.

Definition tx_info (w : option RpcStorage) (tx_hash : bytes) : Exec RpcApp TransactionInfoResp :=
  stored_receipt ← rpc_get_tx_receipt w tx_hash;
  mret (match stored_receipt with
        | Some stored_receipt =>
            mkTxInfo true (Some (rc_success stored_receipt)) (rc_fail_reason stored_receipt)
              (Some (mkBlockInfo (rc_block_number stored_receipt) true (rc_verified stored_receipt)))
        | None => mkTxInfo false None None None
        end).

Definition transfer_history (transfer : TransferOperation) : TransferHistory :=
  mkTransferHistory (tf_from transfer) (tf_to transfer) (bool_decide (is_Some (tf_proof_block_number transfer)))
    (tf_block_number transfer) (format_date (tf_created_at transfer)) (str "0x" ++ hex_encode (tf_tx_hash transfer)).

Definition token_info (w : option RpcStorage) (token_id : Z) : Fallible TokenInfoResp :=
  storage ← rpc_access_storage w;
  let db := storage.1.1 in
  let full_history := match get_initial_deposit token_id db with Some tr => [tr] | None => [] end in
  let history := get_transfer_history token_id db in
  owner ← match get_current_owner token_id db with Ok owner => mret owner | Err _ => Val (Err "Internal error") end;
  mret (mkTokenInfoResp (transfer_history <$> full_history ++ history) ((λ a, str "0x" ++ hex_encode a) <$> owner)).
End Rpc.
