(* ===== verification/EventNotify.v ===== *)
(** * The notifier of events (core/server/src/api_server/event_notify.rs)

    Clients subscribe to a transaction, a priority operation or an account, for the
    commitment or the verification of a block.  What has happened already is answered
    at once; otherwise the listener is kept until the executed operations arrive from the
    state keeper or the blocks from the committer and the sender.  Notifications are the
    list of what was sent to which client.  The database and the state keeper answer each
    request through a [World]. *)

From S2P Require Import Prelude Bytes Params Externals Primitives Amounts Account Tx Decimal Operations Block EthStorage Storage.
From S2P Require Import BlockStorage Witness WitnessOps ProverPool StateKeeper ApiCaches.
Open Scope Z_scope.

#[global] Instance ActionType_countable : Countable ActionType.
Proof.
  refine (inj_countable' (λ a, match a with COMMIT => true | VERIFY => false end) (λ b, if b : bool then COMMIT else VERIFY) _).
  by intros [].
Defined.

Definition MAX_LISTENERS_PER_ENTITY : nat := 2048.
Definition TX_SUB_PREFIX : bytes := str "txsub".
Definition ETHOP_SUB_PREFIX : bytes := str "eosub".
Definition ACCOUNT_SUB_PREFIX : bytes := str "acsub".

(** [jsonrpc_pubsub::SubscriptionId] *)
Inductive SubscriptionId : Type :=
| SubNumber (n : Z)
| SubString (s : bytes).
#[global] Instance SubscriptionId_eq_dec : EqDecision SubscriptionId.
Proof. solve_decision. Defined.

(** [jsonrpc_pubsub::typed::Subscriber]: assigning an id fails when the client is gone. *)
Record Subscriber : Type := mkSubscriber { sb_client : Z; sb_connected : bool }.

(** The id and the sink, which is the client's. *)
Record SubscriptionSender : Type := mkSender { ss_id : SubscriptionId; ss_client : Z }.

Section Notifier.
  Context `{C : Codec} `{HD : !HexDecoder} `{LC : LruCaches}.

Inductive EventSubscribeRequest : Type :=
| SubTransaction (hash : bytes) (action : ActionType) (subscriber : Subscriber)
| SubPriorityOp (serial_id : Z) (action : ActionType) (subscriber : Subscriber)
| SubAccount (address : Address) (action : ActionType) (subscriber : Subscriber).

Inductive EventNotifierRequest : Type :=
| Sub (event_sub : EventSubscribeRequest)
| Unsub (sub_id : SubscriptionId).

Inductive Message : Type :=
| MTx (r : TransactionInfoResp)
| MOp (r : ETHOpInfoResp)
| MAccount (r : ResponseAccountState).

Record OperationNotifier : Type := mkNotifier {
  cache_of_executed_priority_operations : Lru Z StoredExecutedPriorityOperation;
  cache_of_transaction_receipts : Lru bytes TxReceiptResponse;
  cache_of_blocks_info : Lru Z BlockInfo;
  tx_subs : gmap (bytes * ActionType) (list SubscriptionSender);
  prior_op_subs : gmap (Z * ActionType) (list SubscriptionSender);
  account_subs : gmap (Z * ActionType) (list SubscriptionSender);
  sent : list (Z * Message);
}.

Definition OperationNotifier_new (api_requests_caches_size : nat) : OperationNotifier :=
  mkNotifier (lru_new api_requests_caches_size) (lru_new api_requests_caches_size) (lru_new api_requests_caches_size) ∅ ∅ ∅ [].

(** The database, unless it cannot be reached, the answer of the state keeper to
    [GetExecutedInPendingBlock], the next random number
    and the clock. *)
Record World : Type := mkWorld {
  w_storage : option (ChainDb * ProverTables);
  w_pending : ExecutedOpId → option (BlockNumber * bool);
  w_random : Z;
  w_now : Z;
}.

Definition set_prior_cache c (s : OperationNotifier) : OperationNotifier :=
  mkNotifier c (cache_of_transaction_receipts s) (cache_of_blocks_info s) (tx_subs s) (prior_op_subs s) (account_subs s) (sent s).
Definition set_receipt_cache c (s : OperationNotifier) : OperationNotifier :=
  mkNotifier (cache_of_executed_priority_operations s) c (cache_of_blocks_info s) (tx_subs s) (prior_op_subs s) (account_subs s) (sent s).
Definition set_block_cache c (s : OperationNotifier) : OperationNotifier :=
  mkNotifier (cache_of_executed_priority_operations s) (cache_of_transaction_receipts s) c (tx_subs s) (prior_op_subs s) (account_subs s) (sent s).
Definition set_tx_subs l (s : OperationNotifier) : OperationNotifier :=
  mkNotifier (cache_of_executed_priority_operations s) (cache_of_transaction_receipts s) (cache_of_blocks_info s) l (prior_op_subs s) (account_subs s) (sent s).
Definition set_prior_op_subs l (s : OperationNotifier) : OperationNotifier :=
  mkNotifier (cache_of_executed_priority_operations s) (cache_of_transaction_receipts s) (cache_of_blocks_info s) (tx_subs s) l (account_subs s) (sent s).
Definition set_account_subs l (s : OperationNotifier) : OperationNotifier :=
  mkNotifier (cache_of_executed_priority_operations s) (cache_of_transaction_receipts s) (cache_of_blocks_info s) (tx_subs s) (prior_op_subs s) l (sent s).

Definition send_once (sink : Z) (val : Message) : Exec OperationNotifier unit := λ s,
  Val (Ok tt, mkNotifier (cache_of_executed_priority_operations s) (cache_of_transaction_receipts s) (cache_of_blocks_info s)
                (tx_subs s) (prior_op_subs s) (account_subs s) (sent s ++ [(sink, val)])).

Definition assign_id (sub : Subscriber) : Exec OperationNotifier Z :=
  if sb_connected sub then mret (sb_client sub) else raise "SubIdAssign".

Definition access_storage (w : World) : Fallible (ChainDb * ProverTables) := ok_or "storage" (w_storage w).

(** ** Listeners *)
Section Listeners.
  Context {K : Type} `{Countable K} (get : OperationNotifier → gmap K (list SubscriptionSender))
    (put : gmap K (list SubscriptionSender) → OperationNotifier → OperationNotifier).

Definition take_subs (key : K) : Exec OperationNotifier (option (list SubscriptionSender)) := λ s,
  Val (Ok (get s !! key), put (delete key (get s)) s).
Definition insert_subs (key : K) (subs : list SubscriptionSender) : Exec OperationNotifier unit := λ s,
  Val (Ok tt, put (<[key := subs]> (get s)) s).

(** The listeners are taken out of the map before the id is assigned. *)
Definition add_listener (key : K) (sub_id : SubscriptionId) (sub : Subscriber) (first : option Message) :
    Exec OperationNotifier unit :=
  subs ← take_subs key;
  let subs := default [] subs in
  subs ← (if (length subs <? MAX_LISTENERS_PER_ENTITY)%nat then
            sink ← assign_id sub;
            _ ← match first with Some val => send_once sink val | None => mret tt end;
            mret (subs ++ [mkSender sub_id sink])
          else mret subs);
  insert_subs key subs.

(** [retain], and the entry goes when it is empty. *)
Definition remove_listener (key : K) (sub_id : SubscriptionId) : Exec OperationNotifier unit :=
  subs ← take_subs key;
  match subs with
  | None => mret tt
  | Some subs =>
      let subs := List.filter (λ sub, negb (bool_decide (ss_id sub = sub_id))) subs in
      match subs with [] => mret tt | _ => insert_subs key subs end
  end.

Fixpoint send_all (subs : list SubscriptionSender) (val : Message) : Exec OperationNotifier unit :=
  match subs with
  | [] => mret tt
  | sub :: subs => _ ← send_once (ss_client sub) val; send_all subs val
  end.

(** The listeners of the key are removed and notified. *)
Definition notify_listeners (key : K) (val : Message) : Exec OperationNotifier unit :=
  subs ← take_subs key;
  match subs with None => mret tt | Some subs => send_all subs val end.
End Listeners.

(** ** Unsubscribing *)

(** The bytes of a text as a string. *)
Definition text (s : bytes) : string := String.string_of_list_ascii (Ascii.ascii_of_N ∘ Z.to_N <$> s).

(** [format!("{}/{}/{}/{}", prefix, unique_id, action, random)] *)
Definition subscription_text (prefix unique_id : bytes) (action : ActionType) (random : Z) : bytes :=
  prefix ++ [47] ++ unique_id ++ [47] ++ str (ActionType_to_string action) ++ [47] ++ decimal random.

Definition handle_unsub (sub_id : SubscriptionId) : Exec OperationNotifier unit :=
  match sub_id with
  | SubNumber _ => raise "SubsriptionId should be String"
  | SubString str_sub_id =>
      match split_on 47 str_sub_id with
      | sub_type :: sub_unique_id :: sub_action :: _ =>
          match ActionType_from_str (text sub_action) with
          | Err _ => raise "Incorrect id"
          | Ok sub_action =>
              if bool_decide (sub_type = ETHOP_SUB_PREFIX) then
                match parse_uint 64 sub_unique_id with
                | None => raise "ParseIntError"
                | Some serial_id => remove_listener prior_op_subs set_prior_op_subs (serial_id, sub_action) sub_id
                end
              else if bool_decide (sub_type = TX_SUB_PREFIX) then
                match TxHash_from_str sub_unique_id with
                | Err e => raise e
                | Ok hash => remove_listener tx_subs set_tx_subs (hash, sub_action) sub_id
                end
              else if bool_decide (sub_type = ACCOUNT_SUB_PREFIX) then
                match parse_uint 32 sub_unique_id with
                | None => raise "ParseIntError"
                | Some account_id => remove_listener account_subs set_account_subs (account_id, sub_action) sub_id
                end
              else raise "Incorrect id"
          end
      | _ => raise "Incorrect id"
      end
  end.

(** ** Reading what has happened *)

Definition get_executed_priority_operation_cached (w : World) (serial_id : Z) :
    Exec OperationNotifier (option StoredExecutedPriorityOperation) :=
  zoom cache_of_executed_priority_operations set_prior_cache
    (through_cache serial_id
       (storage ← access_storage w; Val (Ok (get_executed_priority_operation serial_id storage.1))) (λ _, true)).

(** The information about a stored block; a block that is not stored is an error. *)
Definition block_info (now block_number : Z) (db : ChainDb) : Fallible BlockInfo :=
  block_with_op ← lift_outcome (get_block now block_number db);
  match block_with_op with
  | Some block_with_op =>
      let verified := match get_operation block_number VERIFY db with
                      | Some block_verify => so_confirmed block_verify
                      | None => false
                      end in
      Val (Ok (mkBlockInfo (Block.block_number block_with_op) true verified))
  | None => Val (Err "Transaction is executed but block is not committed. (bug)")
  end.

(** Unverified blocks are not cached. *)
Definition get_block_info (w : World) (block_number : Z) : Exec OperationNotifier BlockInfo :=
  r ← zoom cache_of_blocks_info set_block_cache
        (through_cache block_number
           (storage ← access_storage w; info ← block_info (w_now w) block_number storage.1; Val (Ok (Some info))) bi_verified);
  match r with Some info => mret info | None => raise "unreachable" end.

Definition get_tx_receipt (w : World) (hash : bytes) : Exec OperationNotifier (option TxReceiptResponse) :=
  zoom cache_of_transaction_receipts set_receipt_cache
    (through_cache hash (storage ← access_storage w; Val (Ok (tx_receipt hash storage.1 storage.2))) rc_verified).

(** ** Subscribing *)

Definition op_info (block : BlockInfo) : Message := MOp (mkOpInfo true (Some block)).

Definition handle_priority_op_sub (w : World) (serial_id : Z) (action : ActionType) (sub : Subscriber) :
    Exec OperationNotifier unit :=
  let sub_id := SubString (subscription_text ETHOP_SUB_PREFIX (decimal serial_id) action (w_random w)) in
  let pending := match action with COMMIT => w_pending w (IdPriorityOp serial_id) | VERIFY => None end in
  match pending with
  | Some (block_number, _) =>
      sink ← assign_id sub;
      send_once sink (op_info (mkBlockInfo block_number true false))
  | None =>
      executed_op ← get_executed_priority_operation_cached w (wrap 32 serial_id);
      match executed_op with
      | Some executed_op =>
          block_info ← get_block_info w (wrap 32 (xp_block_number executed_op));
          if bool_decide (action = COMMIT) || bi_verified block_info then
            sink ← assign_id sub; send_once sink (op_info block_info)
          else add_listener prior_op_subs set_prior_op_subs (serial_id, action) sub_id sub None
      | None => add_listener prior_op_subs set_prior_op_subs (serial_id, action) sub_id sub None
      end
  end.

Definition handle_transaction_sub (w : World) (hash : bytes) (action : ActionType) (sub : Subscriber) :
    Exec OperationNotifier unit :=
  let id := SubString (subscription_text TX_SUB_PREFIX (TxHash_to_string hash) action (w_random w)) in
  let pending := match action with COMMIT => w_pending w (IdTransaction hash) | VERIFY => None end in
  match pending with
  | Some (block_number, success) =>
      sink ← assign_id sub;
      send_once sink (MTx (mkTxInfo true (Some success) None (Some (mkBlockInfo block_number true false))))
  | None =>
      receipt ← get_tx_receipt w hash;
      match receipt with
      | Some receipt =>
          let tx_info_resp := mkTxInfo true (Some (rc_success receipt)) (rc_fail_reason receipt)
            (Some (mkBlockInfo (rc_block_number receipt) (rc_success receipt) (rc_verified receipt))) in
          if bool_decide (action = COMMIT) || rc_verified receipt then
            sink ← assign_id sub; send_once sink (MTx tx_info_resp)
          else add_listener tx_subs set_tx_subs (hash, action) id sub None
      | None => add_listener tx_subs set_tx_subs (hash, action) id sub None
      end
  end.

Definition restore_message (account : option (Z * Account)) : result Message :=
  match account with
  | Some (_, account) => match try_to_restore account with Ok r => Ok (MAccount r) | Err e => Err e end
  | None => Ok (MAccount ResponseAccountState_default)
  end.

Definition handle_account_update_sub (w : World) (address : Address) (action : ActionType) (sub : Subscriber) :
    Exec OperationNotifier unit :=
  storage ← lift (access_storage w);
  account_state ← total (AccountSchema.account_state_by_address address (cd_state storage.1));
  match AccountSchema.committed account_state with
  | None => raise "AccountId is unkwown"
  | Some (account_id, _) =>
      let sub_id := SubString (subscription_text ACCOUNT_SUB_PREFIX (hex_encode address) action (w_random w)) in
      let account := match action with COMMIT => AccountSchema.committed account_state | VERIFY => AccountSchema.verified account_state end in
      match restore_message account with
      | Err e => raise e
      | Ok account_state => add_listener account_subs set_account_subs (account_id, action) sub_id sub (Some account_state)
      end
  end.

Definition handle_notify_req (w : World) (new_sub : EventNotifierRequest) : Exec OperationNotifier unit :=
  match new_sub with
  | Sub (SubTransaction hash action subscriber) => handle_transaction_sub w hash action subscriber
  | Sub (SubPriorityOp serial_id action subscriber) => handle_priority_op_sub w serial_id action subscriber
  | Sub (SubAccount address action subscriber) => handle_account_update_sub w address action subscriber
  | Unsub sub_id => handle_unsub sub_id
  end.

(** ** Executed operations and blocks *)

Definition executed_info (block_number : Z) (action : ActionType) : BlockInfo :=
  mkBlockInfo block_number true (bool_decide (action = VERIFY)).

Definition notify_executed (action : ActionType) (block_number : Z) (op : ExecutedOperations) : Exec OperationNotifier unit :=
  match op with
  | ExTx tx =>
      notify_listeners tx_subs set_tx_subs (FranklinTx_hash (et_tx tx), action)
        (MTx (mkTxInfo true (Some (et_success tx)) (et_fail_reason tx) (Some (executed_info block_number action))))
  | ExPriorityOp prior_op =>
      notify_listeners prior_op_subs set_prior_op_subs (po_serial_id (epo_priority_op prior_op), action)
        (op_info (executed_info block_number action))
  end.

Fixpoint handle_executed_operations (ops : list ExecutedOperations) (action : ActionType) (block_number : Z) :
    Exec OperationNotifier unit :=
  match ops with
  | [] => mret tt
  | op :: ops => _ ← notify_executed action block_number op; handle_executed_operations ops action block_number
  end.

Definition handle_new_executed_batch (exec_batch : ExecutedOpsNotify) : Exec OperationNotifier unit :=
  handle_executed_operations (eon_operations exec_batch) COMMIT (eon_block_number exec_batch).

(** One account of the loop; an account that cannot be read is skipped. *)
Definition notify_account (db : StateDb) (action : ActionType) (id : Z) : Exec OperationNotifier unit :=
  subs ← take_subs account_subs set_account_subs (id, action);
  match subs with
  | None => mret tt
  | Some subs =>
      stored_account ← total (match action with
                              | COMMIT => AccountSchema.last_committed_state_for_account id db
                              | VERIFY => AccountSchema.last_verified_state_for_account id db
                              end);
      match stored_account with
      | Some account => match try_to_restore account with Ok result => send_all subs (MAccount result) | Err _ => mret tt end
      | None => mret tt
      end
  end.

Fixpoint notify_accounts (db : StateDb) (action : ActionType) (ids : list Z) : Exec OperationNotifier unit :=
  match ids with
  | [] => mret tt
  | id :: ids => _ ← notify_account db action id; notify_accounts db action ids
  end.

Definition handle_new_block (w : World) (op : Operation) : Exec OperationNotifier unit :=
  storage ← lift (access_storage w);
  let action := get_type (op_action op) in
  _ ← handle_executed_operations (block_transactions (op_block op)) action (block_number (op_block op));
  notify_accounts (cd_state storage.1) action (op_accounts_updated op).*1.

(** One round of the loop; an error is logged and the state that the handler left is kept. *)
Inductive NotifierEvent : Type :=
| NewBlock (op : Operation)
| NewExecBatch (batch : ExecutedOpsNotify)
| NewSub (request : EventNotifierRequest).

Definition notifier_round (w : World) (event : NotifierEvent) (s : OperationNotifier) : outcome OperationNotifier :=
  r ← match event with
      | NewBlock op => handle_new_block w op
      | NewExecBatch batch => handle_new_executed_batch batch
      | NewSub request => handle_notify_req w request
      end s;
  Val r.2.

Fixpoint notifier_run (events : list (World * NotifierEvent)) (s : OperationNotifier) : outcome OperationNotifier :=
  match events with
  | [] => Val s
  | (w, event) :: events => s ← notifier_round w event s; notifier_run events s
  end.
End Notifier.
