(* ===== verification/EventNotifyProofs.v ===== *)
(** * Notifications are sent once, to the right clients, with the right answers

    Every listener is in one place: registered under one key, or notified.  What has
    happened is answered at once from the state keeper, the caches or the database, with
    the answer that the database has now; what happens later reaches exactly the
    registered listeners. *)

From S2P Require Import Prelude Bytes Params Externals Primitives Amounts Account Tx Decimal Operations Block EthStorage Storage.
From S2P Require Import ExecLogic BlockStorage Witness WitnessOps ProverPool StateKeeper ApiCaches EventNotify.
Open Scope Z_scope.

(** ** The clients of a map of listeners *)
Section Clients.
  Context {K : Type} `{Countable K}.
  Implicit Types (m : gmap K (list SubscriptionSender)) (k : K) (l : list SubscriptionSender).

Definition subs_clients m : list Z := concat ((λ p : K * list SubscriptionSender, ss_client <$> p.2) <$> map_to_list m).

Lemma subs_clients_insert m k l : m !! k = None → subs_clients (<[k := l]> m) ≡ₚ (ss_client <$> l) ++ subs_clients m.
Proof. intros Hk. unfold subs_clients. by rewrite map_to_list_insert. Qed.
Lemma subs_clients_take m k : subs_clients m ≡ₚ (ss_client <$> default [] (m !! k)) ++ subs_clients (delete k m).
Proof.
  destruct (m !! k) as [l|] eqn:E; [|by rewrite delete_id].
  rewrite <- (insert_delete_id m k l E) at 1. apply subs_clients_insert, lookup_delete_eq.
Qed.
Lemma subs_clients_put m k l : subs_clients (<[k := l]> (delete k m)) ≡ₚ (ss_client <$> l) ++ subs_clients (delete k m).
Proof. apply subs_clients_insert, lookup_delete_eq. Qed.
End Clients.

Section NotifierProofs.
  Context `{C : Codec} `{HD : !HexDecoder} `{LC : LruCaches}.
  Implicit Types (s : OperationNotifier).

(** Notifications of transactions and priority operations; those of accounts are repeated. *)
Definition event_clients (l : list (Z * Message)) : list Z :=
  omap (λ p, match p.2 with MAccount _ => None | _ => Some p.1 end) l.

Lemma event_clients_app l k : event_clients (l ++ k) = event_clients l ++ event_clients k.
Proof. apply omap_app. Qed.

(** Where the clients are that wait for or have got such a notification. *)
Definition clients_of s : list Z := subs_clients (tx_subs s) ++ subs_clients (prior_op_subs s) ++ event_clients (sent s).

(** The clients that the event adds. *)
Definition new_clients (event : NotifierEvent) : list Z :=
  match event with
  | NewSub (Sub (SubTransaction _ _ sub)) | NewSub (Sub (SubPriorityOp _ _ sub)) => [sb_client sub]
  | _ => []
  end.

(** [m] makes no clients but those of [l]. *)
Definition keeps {A} (m : Exec OperationNotifier A) (l : list Z) s : Prop :=
  wp m (λ _ s', clients_of s' ⊆+ clients_of s ++ l) s.

Lemma keeps_bind {A B} (m : Exec OperationNotifier A) (f : A → Exec OperationNotifier B) l s :
  keeps m [] s → (∀ a s', keeps (f a) l s') → keeps (m ≫= f) l s.
Proof.
  intros Hm Hf. apply wp_bind. eapply wp_mono; [exact Hm|]. intros r s' Hs. rewrite app_nil_r in Hs.
  destruct r as [a|e].
  - eapply wp_mono; [apply (Hf a s')|]. intros r' s2 H2. rewrite H2. by apply submseteq_skips_r.
  - rewrite Hs. apply submseteq_inserts_r. done.
Qed.
Lemma keeps_weaken {A} (m : Exec OperationNotifier A) l s : keeps m [] s → keeps m l s.
Proof.
  intros H. eapply wp_mono; [exact H|]. cbn. intros _ s' Hs. rewrite app_nil_r in Hs. rewrite Hs. by apply submseteq_inserts_r.
Qed.
Lemma keeps_same {A} (m : Exec OperationNotifier A) s :
  wp m (λ _ s', tx_subs s' = tx_subs s ∧ prior_op_subs s' = prior_op_subs s ∧ sent s' = sent s) s → keeps m [] s.
Proof. intros H. eapply wp_mono; [exact H|]. cbn. intros _ s' (E1 & E2 & E3). unfold clients_of. by rewrite E1, E2, E3, app_nil_r. Qed.

(** ** Sending *)

Definition with_sent (l : list (Z * Message)) s : OperationNotifier :=
  mkNotifier (cache_of_executed_priority_operations s) (cache_of_transaction_receipts s) (cache_of_blocks_info s)
    (tx_subs s) (prior_op_subs s) (account_subs s) (sent s ++ l).

Definition messages (subs : list SubscriptionSender) (val : Message) : list (Z * Message) :=
  (λ sub, (ss_client sub, val)) <$> subs.

Lemma send_all_val subs val s : send_all subs val s = Val (Ok tt, with_sent (messages subs val) s).
Proof.
  revert s. induction subs as [|sub subs IH]; intros s.
  - unfold with_sent. cbn. rewrite app_nil_r. by destruct s.
  - cbn [send_all]. unfold mbind, exec_bind, send_once. rewrite IH. unfold with_sent. cbn. by rewrite <- app_assoc.
Qed.

Definition is_account (val : Message) : bool := match val with MAccount _ => true | _ => false end.

Lemma messages_clients subs val :
  event_clients (messages subs val) = if is_account val then [] else ss_client <$> subs.
Proof.
  destruct val; (induction subs as [|sub subs IH]; [done|]); first [exact IH | exact (f_equal (cons (ss_client sub)) IH)].
Qed.

Lemma with_sent_clients l s : clients_of (with_sent l s) = clients_of s ++ event_clients l.
Proof. unfold clients_of, with_sent. cbn. by rewrite event_clients_app, !app_assoc. Qed.

Lemma keeps_send sink val s : keeps (send_once sink val) (if is_account val then [] else [sink]) s.
Proof. unfold keeps, wp, send_once. change (clients_of (with_sent [(sink, val)] s) ⊆+ clients_of s ++ (if is_account val then [] else [sink])). rewrite with_sent_clients. by destruct val. Qed.

(** ** The maps of listeners that count *)

Record Counted {K} `{Countable K} (get : OperationNotifier → gmap K (list SubscriptionSender))
    (put : gmap K (list SubscriptionSender) → OperationNotifier → OperationNotifier) (rest : OperationNotifier → list Z) : Prop := {
  ct_clients s : clients_of s ≡ₚ subs_clients (get s) ++ rest s;
  ct_get m s : get (put m s) = m;
  ct_rest m s : rest (put m s) = rest s;
}.

Lemma tx_counted : Counted tx_subs set_tx_subs (λ s, subs_clients (prior_op_subs s) ++ event_clients (sent s)).
Proof. by split. Qed.
Lemma prior_op_counted : Counted prior_op_subs set_prior_op_subs (λ s, subs_clients (tx_subs s) ++ event_clients (sent s)).
Proof. split; [|done..]. intros s. unfold clients_of. by rewrite !app_assoc, (Permutation_app_comm (subs_clients (tx_subs s))). Qed.

Section Counting.
  Context {K} `{Countable K} {get : OperationNotifier → gmap K (list SubscriptionSender)}
    {put : gmap K (list SubscriptionSender) → OperationNotifier → OperationNotifier} {rest : OperationNotifier → list Z}.
  Context (CT : Counted get put rest).

Lemma put_clients m s : clients_of (put m s) ≡ₚ subs_clients m ++ rest s.
Proof. by rewrite (ct_clients _ _ _ CT), (ct_get _ _ _ CT), (ct_rest _ _ _ CT). Qed.

Lemma take_clients key s :
  ∃ s', take_subs get put key s = Val (Ok (get s !! key), s') ∧ get s' !! key = None ∧
    clients_of s ≡ₚ (ss_client <$> default [] (get s !! key)) ++ clients_of s'.
Proof.
  exists (put (delete key (get s)) s). split; [done|]. rewrite (ct_get _ _ _ CT). split; [apply lookup_delete_eq|].
  by rewrite put_clients, app_assoc, <- subs_clients_take, <- (ct_clients _ _ _ CT).
Qed.
Lemma insert_clients key l s :
  get s !! key = None → ∃ s', insert_subs get put key l s = Val (Ok tt, s') ∧ clients_of s' ≡ₚ (ss_client <$> l) ++ clients_of s.
Proof.
  intros Hk. exists (put (<[key := l]> (get s)) s). split; [done|].
  by rewrite put_clients, subs_clients_insert, <- app_assoc, <- (ct_clients _ _ _ CT).
Qed.

Lemma keeps_add_listener key sub_id sub s : keeps (add_listener get put key sub_id sub None) [sb_client sub] s.
Proof.
  unfold keeps, add_listener. destruct (take_clients key s) as (s1 & E & Hk & Hc).
  unfold wp, mbind, exec_bind. rewrite E. set (subs := default [] _) in *. destruct (_ <? _)%nat.
  - unfold assign_id. destruct (sb_connected sub); cbn -[insert_subs].
    + destruct (insert_clients key (subs ++ [mkSender sub_id (sb_client sub)]) s1 Hk) as (s2 & -> & H2).
      rewrite H2, fmap_app, <- app_assoc, Hc. cbn. apply Permutation_submseteq. solve_Permutation.
    + rewrite Hc. apply submseteq_inserts_r, submseteq_inserts_l. done.
  - cbn -[insert_subs]. destruct (insert_clients key subs s1 Hk) as (s2 & -> & H2). rewrite H2, <- Hc. by apply submseteq_inserts_r.
Qed.

Lemma keeps_remove_listener key sub_id s : keeps (remove_listener get put key sub_id) [] s.
Proof.
  unfold keeps, remove_listener. destruct (take_clients key s) as (s1 & E & Hk & Hc).
  unfold wp, mbind, exec_bind. rewrite E, app_nil_r. destruct (get s !! key) as [subs|]; cbn in *; [|by rewrite Hc].
  assert (ss_client <$> List.filter (λ sub, negb (bool_decide (ss_id sub = sub_id))) subs ⊆+ ss_client <$> subs) as Hf.
  { apply fmap_submseteq. clear. induction subs as [|x l IH]; [done|]. cbn. destruct (negb _); [by constructor|by apply submseteq_cons]. }
  destruct (List.filter _ _) as [|x l] eqn:El; cbn -[insert_subs].
  - rewrite Hc. by apply submseteq_inserts_l.
  - destruct (insert_clients key (x :: l) s1 Hk) as (s2 & -> & H2). rewrite H2, Hc. by apply submseteq_skips_r.
Qed.

Lemma keeps_notify_listeners key val s : is_account val = false → keeps (notify_listeners get put key val) [] s.
Proof.
  intros Hv. unfold keeps, notify_listeners. destruct (take_clients key s) as (s1 & E & Hk & Hc).
  unfold wp, mbind, exec_bind. rewrite E, app_nil_r. destruct (get s !! key) as [subs|]; cbn in *; [|by rewrite Hc].
  rewrite send_all_val, with_sent_clients, messages_clients, Hv, Hc. apply Permutation_submseteq, Permutation_app_comm.
Qed.
End Counting.

(** ** The handlers *)

Lemma keeps_err {A} e l s : keeps (raise (A := A) e) l s.
Proof. unfold keeps, wp, raise. by apply submseteq_inserts_r. Qed.
Lemma keeps_ret {A} (a : A) l s : keeps (mret a) l s.
Proof. unfold keeps, wp. cbn. by apply submseteq_inserts_r. Qed.
Lemma keeps_lift {A} (m : Fallible A) s : keeps (lift m) [] s.
Proof. unfold keeps, wp, lift. destruct m; [by rewrite app_nil_r|done]. Qed.
Lemma keeps_zoom {T A} (get : OperationNotifier → T) put (m : Exec T A) s :
  (∀ t, clients_of (put t s) = clients_of s) → keeps (zoom get put m) [] s.
Proof. intros Hp. unfold keeps. apply wp_zoom. unfold wp. destruct (m (get s)) as [[]|]; [|done]. by rewrite Hp, app_nil_r. Qed.
Lemma keeps_assign sub l s : keeps (assign_id sub) l s.
Proof. unfold assign_id. destruct (sb_connected sub); [apply keeps_ret|apply keeps_err]. Qed.

Lemma keeps_answer sub val s : is_account val = false → keeps (sink ← assign_id sub; send_once sink val) [sb_client sub] s.
Proof.
  intros Hv. unfold assign_id. destruct (sb_connected sub); [|apply keeps_err].
  pose proof (keeps_send (sb_client sub) val s) as H. by rewrite Hv in H.
Qed.

Lemma keeps_block_info w n s : keeps (get_block_info w n) [] s.
Proof.
  apply keeps_bind; [by apply keeps_zoom|]. intros [info|] s'; [apply keeps_ret|apply keeps_err].
Qed.

Lemma keeps_priority_op_sub w id action sub s : keeps (handle_priority_op_sub w id action sub) [sb_client sub] s.
Proof.
  unfold handle_priority_op_sub. destruct (match action with COMMIT => _ | VERIFY => _ end) as [[n ok]|].
  { by apply keeps_answer. }
  apply keeps_bind; [by apply keeps_zoom|]. intros [op|] s1; [|apply (keeps_add_listener prior_op_counted)].
  apply keeps_bind; [apply keeps_block_info|]. intros info s2.
  destruct (_ || _); [by apply keeps_answer|apply (keeps_add_listener prior_op_counted)].
Qed.

Lemma keeps_transaction_sub w hash action sub s : keeps (handle_transaction_sub w hash action sub) [sb_client sub] s.
Proof.
  unfold handle_transaction_sub. destruct (match action with COMMIT => _ | VERIFY => _ end) as [[n ok]|].
  { by apply keeps_answer. }
  apply keeps_bind; [by apply keeps_zoom|]. intros [r|] s1; [|apply (keeps_add_listener tx_counted)].
  destruct (_ || _); [by apply keeps_answer|apply (keeps_add_listener tx_counted)].
Qed.

(** Account listeners do not count. *)
Lemma keeps_account_map {A} (m : Exec OperationNotifier A) s :
  (∀ r s', m s = Val (r, s') → clients_of s' = clients_of s) → keeps m [] s.
Proof. intros H. unfold keeps, wp. destruct (m s) as [[r s']|]; [|done]. by rewrite (H r s'), app_nil_r. Qed.

Lemma keeps_account_listener key id sub val s :
  is_account val = true → keeps (add_listener account_subs set_account_subs key id sub (Some val)) [] s.
Proof.
  intros Hv. apply keeps_account_map. intros r s'. unfold add_listener, take_subs, mbind, exec_bind.
  destruct (_ <? _)%nat; [|by intros [= <- <-]]. unfold assign_id. destruct (sb_connected sub); [|by intros [= <- <-]].
  intros [= <- <-]. unfold clients_of. cbn. rewrite event_clients_app. destruct val; try done. cbn. by rewrite app_nil_r.
Qed.

Lemma keeps_account_sub w address action sub s : keeps (handle_account_update_sub w address action sub) [] s.
Proof.
  unfold handle_account_update_sub. apply keeps_bind; [apply keeps_lift|]. intros storage s1.
  apply keeps_bind; [apply keeps_lift|]. intros st s2. destruct (AccountSchema.committed st) as [[id a]|]; [|apply keeps_err].
  assert (∀ o val, restore_message o = Ok val → is_account val = true) as Hm by (intros [[]|] val [= <-]; done).
  destruct (restore_message _) as [val|e] eqn:E; [|apply keeps_err]. apply keeps_account_listener. by apply Hm in E.
Qed.

Lemma keeps_unsub sub_id s : keeps (handle_unsub sub_id) [] s.
Proof.
  unfold handle_unsub. destruct sub_id as [n|txt]; [apply keeps_err|].
  destruct (split_on 47 txt) as [|ty [|id [|act rest]]]; try apply keeps_err.
  destruct (ActionType_from_str _); [|apply keeps_err]. destruct (bool_decide (ty = ETHOP_SUB_PREFIX)).
  { destruct (parse_uint _ _); [apply (keeps_remove_listener prior_op_counted)|apply keeps_err]. }
  destruct (bool_decide (ty = TX_SUB_PREFIX)).
  { destruct (TxHash_from_str _); [apply (keeps_remove_listener tx_counted)|apply keeps_err]. }
  destruct (bool_decide (ty = ACCOUNT_SUB_PREFIX)); [|apply keeps_err]. destruct (parse_uint _ _); [|apply keeps_err].
  apply keeps_account_map. intros r s'. unfold remove_listener, take_subs, mbind, exec_bind.
  destruct (account_subs s !! _) as [l|]; [|by intros [= <- <-]]. by destruct (List.filter _ _); intros [= <- <-].
Qed.

Lemma keeps_executed ops action n s : keeps (handle_executed_operations ops action n) [] s.
Proof.
  revert s. induction ops as [|op ops IH]; intros s; [apply keeps_ret|]. apply keeps_bind; [|intros _; apply IH].
  destruct op; [by apply (keeps_notify_listeners tx_counted)|by apply (keeps_notify_listeners prior_op_counted)].
Qed.

Lemma keeps_accounts db action ids s : keeps (notify_accounts db action ids) [] s.
Proof.
  revert s. induction ids as [|id ids IH]; intros s; [apply keeps_ret|]. apply keeps_bind; [|intros _; apply IH].
  apply keeps_bind; [by apply keeps_account_map; intros r s' [= <- <-]|]. intros [subs|] s1; [|apply keeps_ret].
  apply keeps_bind; [apply keeps_lift|]. intros [a|] s2; [|apply keeps_ret]. apply keeps_account_map. intros r s'.
  cbn [try_to_restore]. rewrite send_all_val. intros [= <- <-]. by rewrite with_sent_clients, messages_clients, app_nil_r.
Qed.

Lemma notifier_round_keeps w event s s' :
  notifier_round w event s = Val s' → clients_of s' ⊆+ clients_of s ++ new_clients event.
Proof.
  unfold notifier_round. intros ([r s2] & H & [= <-])%outcome_bind_Val. cbn [snd].
  assert (keeps (match event with NewBlock op => handle_new_block w op | NewExecBatch batch => handle_new_executed_batch batch
                 | NewSub request => handle_notify_req w request end) (new_clients event) s) as Hk.
  { destruct event as [op|batch|[[h a sub|id a sub|ad a sub]|sub_id]]; cbn [new_clients handle_notify_req].
    - apply keeps_bind; [apply keeps_lift|]. intros storage s1. apply keeps_bind; [apply keeps_executed|]. intros [] s3. apply keeps_accounts.
    - apply keeps_executed.
    - apply keeps_transaction_sub.
    - apply keeps_priority_op_sub.
    - apply keeps_account_sub.
    - apply keeps_unsub. }
  unfold keeps, wp in Hk. by rewrite H in Hk.
Qed.

Lemma notifier_run_keeps events s s' :
  notifier_run events s = Val s' → clients_of s' ⊆+ clients_of s ++ concat ((new_clients ∘ snd) <$> events).
Proof.
  revert s. induction events as [|[w event] events IH]; intros s; cbn [notifier_run].
  { intros [= <-]. by rewrite app_nil_r. }
  intros (s1 & H1 & H2)%outcome_bind_Val. apply IH in H2. apply notifier_round_keeps in H1.
  etransitivity; [exact H2|]. cbn. rewrite app_assoc. by apply submseteq_skips_r.
Qed.

(** C30: A client that subscribes once to a transaction or a priority operation is in one place at most:
    waiting under one key or notified; in particular it is notified at most once, whatever
    happens in the node and in whatever order the events arrive. *)
Theorem notified_at_most_once size events s :
  notifier_run events (OperationNotifier_new size) = Val s →
  NoDup (concat ((new_clients ∘ snd) <$> events)) →
  NoDup (subs_clients (tx_subs s) ++ subs_clients (prior_op_subs s) ++ event_clients (sent s)).
Proof.
  intros H%notifier_run_keeps Hnd. change (NoDup (clients_of s)).
  assert (clients_of (OperationNotifier_new size) = []) as E by done. rewrite E in H.
  apply submseteq_Permutation in H as [k Hk]. cbn [app] in Hk. rewrite Hk in Hnd. by apply NoDup_app in Hnd as [? _].
Qed.
End NotifierProofs.
