(* ===== verification/EventNotifyAnswers.v ===== *)
(** * The answers of the notifier

    The database only grows: executed operations and blocks stay, confirmations are not
    taken back ([db_extends], which the operations of the committer satisfy).  Therefore
    what the caches hold stays right, and a subscription is answered as if there were no
    caches. *)

From S2P Require Import Prelude Bytes Params Externals Primitives Amounts Account Tx Decimal Operations Block EthStorage Storage.
From S2P Require Import ExecLogic BlockStorage Witness WitnessOps ProverPool StateKeeper ApiCaches EventNotify EventNotifyProofs.
Open Scope Z_scope.

Section Growth.
  Context `{C : Codec}.
  Implicit Types (db : ChainDb).

(** A stored operation may be confirmed later. *)
Definition operation_le (o o' : StoredOperation) : Prop :=
  so_block_number o' = so_block_number o ∧ so_action_type o' = so_action_type o ∧
  (so_confirmed o = true → so_confirmed o' = true).

Record db_extends db db' : Prop := {
  ext_prior : ∃ l, cd_prior db' = cd_prior db ++ l;
  ext_txs : ∃ l, cd_txs db' = cd_txs db ++ l;
  ext_operations : ∃ l k, t_operations (cd_state db') = l ++ k ∧ Forall2 operation_le (t_operations (cd_state db)) l;
  ext_rows : ∃ l, t_blocks (cd_state db') = t_blocks (cd_state db) ++ l;
  ext_blocks now n b : get_block now n db = Val (Some b) → get_block now n db' = Val (Some b);
}.

Lemma operation_le_refl o : operation_le o o.
Proof. done. Qed.
Lemma operations_le_refl l : Forall2 operation_le l l.
Proof. induction l as [|o l IH]; constructor; [apply operation_le_refl|done]. Qed.
Lemma operations_le_trans l1 l2 l3 : Forall2 operation_le l1 l2 → Forall2 operation_le l2 l3 → Forall2 operation_le l1 l3.
Proof.
  intros H. revert l3. induction H as [|x y l1 l2 (E1 & E2 & E3) _ IH]; intros l3; inversion 1 as [|? z ? l (E1' & E2' & E3')]; subst; constructor.
  - split_and!; [congruence|congruence|auto].
  - by apply IH.
Qed.

Lemma db_extends_refl db : db_extends db db.
Proof.
  split; [by exists []; rewrite app_nil_r..| |by exists []; rewrite app_nil_r|done].
  exists (t_operations (cd_state db)), []. rewrite app_nil_r. split; [done|apply operations_le_refl].
Qed.

Lemma db_extends_trans db1 db2 db3 : db_extends db1 db2 → db_extends db2 db3 → db_extends db1 db3.
Proof.
  intros [[p1 P1] [t1 T1] (l1 & k1 & O1 & F1) [r1 R1] B1] [[p2 P2] [t2 T2] (l2 & k2 & O2 & F2) [r2 R2] B2]. split.
  - exists (p1 ++ p2). by rewrite P2, P1, <- app_assoc.
  - exists (t1 ++ t2). by rewrite T2, T1, <- app_assoc.
  - rewrite O1 in F2. apply Forall2_app_inv_l in F2 as (l & k & Fl & Fk & ->). exists l, (k ++ k2).
    split; [by rewrite O2, <- app_assoc|]. by eapply operations_le_trans.
  - exists (r1 ++ r2). by rewrite R2, R1, <- app_assoc.
  - intros now n b H. by apply B2, B1.
Qed.

(** Growing rows keep the first match. *)
Lemma first_app {A} (f : A → bool) l k x : head (List.filter f l) = Some x → head (List.filter f (l ++ k)) = Some x.
Proof. rewrite List.filter_app. by destruct (List.filter f l). Qed.

Lemma first_operation_grows (f : StoredOperation → bool) l l' k o :
  (∀ o o', operation_le o o' → f o = f o') → Forall2 operation_le l l' → head (List.filter f l) = Some o →
  ∃ o', head (List.filter f (l' ++ k)) = Some o' ∧ operation_le o o'.
Proof.
  intros Hf. induction 1 as [|x y l l' Hxy _ IH]; [done|]. cbn. rewrite <- (Hf x y Hxy).
  destruct (f x); cbn; [intros [= ->]; by exists y|done].
Qed.

(** The operations of the committer extend the database: a block is stored once, and no
    operation is added to a stored block. *)
Lemma save_block_transactions_rows n txs db db' :
  save_block_transactions n txs db = Val db' →
  cd_state db' = cd_state db ∧
  (∃ l, cd_prior db' = cd_prior db ++ l ∧ Forall (λ r, xp_block_number r = n) l) ∧
  (∃ l, cd_txs db' = cd_txs db ++ l ∧ Forall (λ r, xt_block_number r = n) l).
Proof.
  revert db. induction txs as [|[tx|op] txs IH]; intros db; cbn [save_block_transactions].
  - intros [= <-]. split; [done|]. split; exists []; by rewrite app_nil_r.
  - intros (E & (lp & Ep & Fp) & (lt & Et & Ft))%IH. split; [done|]. split; [by exists lp|].
    exists (prepare_stored_tx (cd_txs_seq db) tx n :: lt). rewrite Et. cbn. rewrite <- app_assoc. split; [done|].
    constructor; [|done]. unfold prepare_stored_tx. by destruct (et_tx tx).
  - intros (db1 & H1 & (E & (lp & Ep & Fp) & (lt & Et & Ft))%IH)%outcome_bind_Val.
    unfold store_executed_priority_operation in H1. apply outcome_bind_Val in H1 as (row & Hrow & [= <-]). cbn in *.
    split; [done|]. split; [|by exists lt]. exists (row :: lp). rewrite Ep, <- app_assoc. split; [done|]. constructor; [|done].
    unfold prepare_stored_priority_op in Hrow. by apply outcome_bind_Val in Hrow as (acc & _ & [= <-]).
Qed.

(** Reading a block depends on its own rows only. *)
Lemma get_block_same now n db db' :
  List.filter (λ b, sb_number b =? n) (t_blocks (cd_state db')) = List.filter (λ b, sb_number b =? n) (t_blocks (cd_state db)) →
  List.filter (λ t, xt_block_number t =? n) (cd_txs db') = List.filter (λ t, xt_block_number t =? n) (cd_txs db) →
  List.filter (λ t, xp_block_number t =? n) (cd_prior db') = List.filter (λ t, xp_block_number t =? n) (cd_prior db) →
  get_block now n db' = get_block now n db.
Proof. intros E1 E2 E3. unfold get_block, get_block_executed_ops. by rewrite E1, E2, E3. Qed.

Lemma filter_app_none {A} (f : A → bool) l k : Forall (λ x, f x = false) k → List.filter f (l ++ k) = List.filter f l.
Proof. intros H. rewrite List.filter_app, (filter_none f k), app_nil_r; [done|]. intros x Hx. by rewrite Forall_forall in H; apply H. Qed.

Lemma save_block_extends block db db' : save_block block db = Val (Ok db') → db_extends db db' ∧ t_operations (cd_state db') = t_operations (cd_state db).
Proof.
  unfold save_block. intros (db1 & H1 & H2)%fallible_bind_Ok.
  destruct (save_block_transactions _ _ _) as [db1'|] eqn:E; [|done]. injection H1 as ->.
  apply save_block_transactions_rows in E as (Es & (lp & Ep & Fp) & (lt & Et & Ft)).
  destruct (existsb _ _) eqn:Ex; [done|]. injection H2 as <-. rewrite Es in *.
  split; [|done]. split; cbn; [by exists lp|by exists lt| |by eexists|].
  - exists (t_operations (cd_state db)), []. rewrite app_nil_r. split; [done|apply operations_le_refl].
  - intros now n b Hb. rewrite <- Hb. unfold get_block in Hb.
    destruct (head (List.filter (λ b, sb_number b =? n) (t_blocks (cd_state db)))) as [row|] eqn:Hrow; [|done].
    assert (n ≠ block_number block) as Hn.
    { intros ->. rewrite <- not_true_iff_false in Ex. apply Ex, List.existsb_exists. exists row.
      apply (List.filter_In (λ b, sb_number b =? block_number block)).
      destruct (List.filter _ _) as [|r l]; [done|]. injection Hrow as ->. by left. }
    apply get_block_same; cbn.
    + apply filter_app_none. constructor; [|done]. cbn. lia.
    + rewrite Et. apply filter_app_none. eapply Forall_impl; [exact Ft|]. cbn. intros; lia.
    + rewrite Ep. apply filter_app_none. eapply Forall_impl; [exact Fp|]. cbn. intros; lia.
Qed.

(** The updates of the state leave the blocks and the operations alone. *)
Definition same_chain (st st' : StateDb) : Prop := t_blocks st' = t_blocks st ∧ t_operations st' = t_operations st.

Lemma commit_state_update_chain n us st st' : StateSchema.commit_state_update n us st = Val (Ok st') → same_chain st st'.
Proof.
  unfold StateSchema.commit_state_update. generalize 0%nat. revert st. induction us as [|[id u] us IH]; intros st i; cbn.
  { by intros [= <-]. }
  intros (st1 & H1 & [E1 E2]%IH)%fallible_bind_Ok. unfold same_chain. rewrite E1, E2.
  destruct u; cbn in H1; try (by injection H1 as <-); destruct (existsb _ _); try done; by injection H1 as <-.
Qed.
Lemma apply_state_update_chain n st st' : StateSchema.apply_state_update n st = Val (Ok st') → same_chain st st'.
Proof.
  unfold StateSchema.apply_state_update. generalize (sort_by cmp_order_le (account_diff (λ b, b =? n) st)). intros ds. revert st.
  induction ds as [|d ds IH]; intros st; cbn. { by intros [= <-]. }
  intros (st1 & H1 & [E1 E2]%IH)%fallible_bind_Ok. unfold same_chain. rewrite E1, E2.
  destruct d; cbn in H1; try (by injection H1 as <-); destruct (existsb _ _); try done; by injection H1 as <-.
Qed.

Lemma set_state_extends st db : same_chain (cd_state db) st → db_extends db (set_state st db).
Proof.
  intros [E1 E2]. split; cbn; [by exists []; rewrite app_nil_r..| |by exists []; rewrite app_nil_r|].
  - exists (t_operations (cd_state db)), []. rewrite app_nil_r. split; [done|apply operations_le_refl].
  - intros now n b <-. apply get_block_same; cbn; by rewrite ?E1.
Qed.
Lemma store_proof_extends n proof db db' : store_proof n proof db = Val (Ok db') → db_extends db db'.
Proof.
  unfold store_proof. destruct (existsb _ _); [done|]. intros [= <-]. split; cbn; [by exists []; rewrite app_nil_r..| |by exists []; rewrite app_nil_r|done].
  exists (t_operations (cd_state db)), []. rewrite app_nil_r. split; [done|apply operations_le_refl].
Qed.

Lemma store_operation_extends n action db row db' : store_operation n action db = (row, db') → db_extends db db'.
Proof.
  intros [= _ <-]. split; cbn; [by exists []; rewrite app_nil_r..| |by exists []; rewrite app_nil_r|done].
  eexists (t_operations (cd_state db)), _. split; [done|apply operations_le_refl].
Qed.

(** What the committer does to the database extends it. *)
Lemma execute_operation_extends now op db op' db' :
  execute_operation now op db = Val (Ok (op', db')) → db_extends db db'.
Proof.
  unfold execute_operation. intros (db1 & H1 & H2)%fallible_bind_Ok.
  destruct (store_operation _ _ db1) as [row db2] eqn:E. apply fallible_bind_Ok in H2 as (op1 & _ & [= _ <-]).
  eapply db_extends_trans; [|by eapply store_operation_extends]. destruct (op_action op) as [|proof].
  - apply fallible_bind_Ok in H1 as (db3 & H3 & H1). apply save_block_extends in H1 as [H1 _].
    eapply db_extends_trans; [|exact H1]. unfold on_state in H3. apply fallible_bind_Ok in H3 as (st & H3 & [= <-]).
    apply set_state_extends. by eapply commit_state_update_chain.
  - apply fallible_bind_Ok in H1 as (db3 & H3 & H1). unfold on_state in H1. apply fallible_bind_Ok in H1 as (st & H1 & [= <-]).
    eapply db_extends_trans; [|apply set_state_extends; by eapply apply_state_update_chain].
    destruct (load_proof _ _) as [[p|e]|]; [by injection H3 as <-; apply db_extends_refl| |done].
    destruct (bool_decide _); [by eapply store_proof_extends|done].
Qed.
End Growth.

(** ** The caches *)
Section Answers.
  Context `{C : Codec} `{HD : !HexDecoder} `{LC : LruCaches} {LL : LruLaws}.
  Implicit Types (s : OperationNotifier) (db : ChainDb).

Definition receipt_info (r : TxReceiptResponse) : TransactionInfoResp :=
  mkTxInfo true (Some (rc_success r)) (rc_fail_reason r) (Some (mkBlockInfo (rc_block_number r) (rc_success r) (rc_verified r))).

Definition prior_right db (id : Z) (row : StoredExecutedPriorityOperation) : Prop :=
  get_executed_priority_operation id db = Some row.
Definition receipt_right db (hash : bytes) (r : TxReceiptResponse) : Prop :=
  rc_verified r = true ∧ ∀ jobs, ∃ r', tx_receipt hash db jobs = Some r' ∧ receipt_info r' = receipt_info r.
Definition block_right db (n : Z) (b : BlockInfo) : Prop :=
  bi_verified b = true ∧ ∃ now, block_info now n db = Val (Ok b).

(** Everything in the caches is what the database says. *)
Record caches_right db s : Prop := {
  cr_prior : cache_valid (prior_right db) (cache_of_executed_priority_operations s);
  cr_receipts : cache_valid (receipt_right db) (cache_of_transaction_receipts s);
  cr_blocks : cache_valid (block_right db) (cache_of_blocks_info s);
}.

Lemma first_operation_extends db db' n action o :
  db_extends db db' → first_operation n action db = Some o →
  ∃ o', first_operation n action db' = Some o' ∧ (so_confirmed o = true → so_confirmed o' = true).
Proof.
  intros [_ _ (l & k & E & Hl) _ _] Ho. unfold first_operation in *. rewrite E.
  destruct (first_operation_grows (λ o, (so_block_number o =? n) && bool_decide (so_action_type o = ActionType_to_string action))
    (t_operations (cd_state db)) l k o) as (o' & Ho' & _ & _ & Hc); [by intros x y (-> & -> & _)|done|done|]. by exists o'.
Qed.

Lemma prior_right_extends db db' id row : db_extends db db' → prior_right db id row → prior_right db' id row.
Proof.
  intros Hext. destruct (ext_prior _ _ Hext) as [l E]. unfold prior_right, get_executed_priority_operation. rewrite E. apply first_app.
Qed.

(** A receipt of a verified transaction does not change any more. *)
Lemma receipt_right_extends db db' hash r : db_extends db db' → receipt_right db hash r → receipt_right db' hash r.
Proof.
  intros Hext [Hv Hr]. split; [done|]. intros jobs. destruct (Hr jobs) as (r' & H & E).
  unfold tx_receipt, get_executed_operation in *. destruct (ext_txs _ _ Hext) as [l ->].
  destruct (head (List.filter _ (cd_txs db))) as [tx|] eqn:Etx; [|done]. rewrite (first_app _ _ l _ Etx).
  destruct (first_operation (xt_block_number tx) COMMIT db) as [o|] eqn:Ec; [|done]. injection H as <-.
  destruct (first_operation_extends _ _ _ _ _ Hext Ec) as (o' & -> & _). eexists. split; [done|]. rewrite <- E.
  assert (match first_operation (xt_block_number tx) VERIFY db with Some v => so_confirmed v | None => false end = true) as Hver.
  { apply (f_equal (λ i, bi_verified <$> ti_block i)) in E. cbn in E. rewrite Hv in E. by injection E. }
  destruct (first_operation (xt_block_number tx) VERIFY db) as [v|] eqn:Ev; [|done].
  destruct (first_operation_extends _ _ _ _ _ Hext Ev) as (v' & -> & Hc). unfold receipt_info. cbn. by rewrite Hver, Hc.
Qed.

Lemma block_right_extends db db' n b : db_extends db db' → block_right db n b → block_right db' n b.
Proof.
  intros Hext [Hv [now Hb]]. split; [done|]. exists now. unfold block_info in *. apply fallible_bind_Ok in Hb as (bl & Hbl & Hb).
  destruct (get_block now n db) as [[bl'|]|] eqn:E; cbn in Hbl; simplify_eq. rewrite (ext_blocks _ _ Hext _ _ _ E). cbn.
  change (get_operation n VERIFY) with (first_operation n VERIFY). change (get_operation n VERIFY) with (first_operation n VERIFY) in Hv.
  destruct (first_operation n VERIFY db) as [v|] eqn:Ev; cbn in Hv; [|done].
  destruct (first_operation_extends _ _ _ _ _ Hext Ev) as (v' & -> & Hc). cbn. by rewrite Hv, Hc.
Qed.

Lemma caches_right_extends db db' s : db_extends db db' → caches_right db s → caches_right db' s.
Proof.
  intros Hext [H1 H2 H3].
  split; (eapply cache_valid_impl; [|done]); intros k v; [by apply prior_right_extends|by apply receipt_right_extends|by apply block_right_extends].
Qed.

Lemma caches_right_new db size : caches_right db (OperationNotifier_new size).
Proof. split; apply cache_valid_new. Qed.

(** ** Reading *)

(** The listeners and what was sent are untouched. *)
Definition same_listeners s s' : Prop :=
  tx_subs s' = tx_subs s ∧ prior_op_subs s' = prior_op_subs s ∧ account_subs s' = account_subs s ∧ sent s' = sent s.

Lemma tx_receipt_info hash db jobs jobs' :
  receipt_info <$> tx_receipt hash db jobs = receipt_info <$> tx_receipt hash db jobs'.
Proof. unfold tx_receipt. destruct (get_executed_operation hash db); [|done]. by destruct (first_operation _ COMMIT db). Qed.

Definition is_verified_block (n : Z) db : bool :=
  match get_operation n VERIFY db with Some o => so_confirmed o | None => false end.

Lemma block_info_value now n db b : block_info now n db = Val (Ok b) → b = mkBlockInfo n true (is_verified_block n db).
Proof.
  unfold block_info. intros (bl & Hbl & H)%fallible_bind_Ok.
  destruct (get_block now n db) as [[bl'|]|] eqn:E; cbn in Hbl; injection Hbl as <- || done; [|done].
  cbn in H. injection H as <-. unfold get_block in E. destruct (head _); [|done].
  apply outcome_bind_Val in E as (txs & _ & E). apply outcome_bind_Val in E as (root & _ & [= <-]). done.
Qed.

(** A read through a cache gives what the database says. *)
Lemma cached_prior db id c :
  cache_valid (prior_right db) c →
  ∃ c', through_cache id (Val (Ok (get_executed_priority_operation id db))) (λ _, true) c =
    Val (Ok (get_executed_priority_operation id db), c') ∧ cache_valid (prior_right db) c'.
Proof.
  intros H. pose proof (through_cache_spec _ id (Val (Ok (get_executed_priority_operation id db))) (λ _, true) _ H
    ltac:(intros v Hv _; by injection Hv)) as Hc.
  destruct (through_cache _ _ _ _) as [[r c']|]; [|done]. destruct Hc as [Hc Hr]. exists c'. split; [|done]. do 2 f_equal.
  destruct Hr as [Hr|(v & -> & Hv)]; [by injection Hr|by unfold prior_right in Hv; rewrite Hv].
Qed.
Lemma cached_receipt db jobs hash c :
  cache_valid (receipt_right db) c →
  ∃ o c', through_cache hash (Val (Ok (tx_receipt hash db jobs))) rc_verified c = Val (Ok o, c') ∧
    receipt_info <$> o = receipt_info <$> tx_receipt hash db jobs ∧ cache_valid (receipt_right db) c'.
Proof.
  intros H. set (fetch := Val (Ok (tx_receipt hash db jobs))).
  assert (∀ v, fetch = Val (Ok (Some v)) → rc_verified v = true → receipt_right db hash v) as Hkeep.
  { intros v Hv Hver. injection Hv as Hv. split; [done|]. intros jobs'.
    pose proof (tx_receipt_info hash db jobs' jobs) as E. rewrite Hv in E. cbn in E.
    destruct (tx_receipt hash db jobs') as [r'|]; cbn in E; [|done]. exists r'. split; [done|]. by apply (inj Some). }
  pose proof (through_cache_spec _ hash fetch rc_verified _ H Hkeep) as Hc.
  destruct (through_cache _ _ _ _) as [[r c']|]; [|done]. destruct Hc as [Hc [Hr|(v & -> & Hv & Hj)]].
  - injection Hr as <-. by exists (tx_receipt hash db jobs), c'.
  - exists (Some v), c'. split; [done|]. destruct (Hj jobs) as (r' & -> & E). cbn. by rewrite E.
Qed.

Lemma prior_read w db jobs id s :
  w_storage w = Some (db, jobs) → caches_right db s →
  ∃ s', get_executed_priority_operation_cached w id s = Val (Ok (get_executed_priority_operation id db), s') ∧
    caches_right db s' ∧ same_listeners s s'.
Proof.
  intros Hw [H1 H2 H3]. unfold get_executed_priority_operation_cached, access_storage, zoom. rewrite Hw.
  cbn [ok_or mbind fallible_bind fst]. destruct (cached_prior db id _ H1) as (c & -> & Hc).
  exists (set_prior_cache c s). by split_and!.
Qed.

Lemma receipt_read w db jobs hash s :
  w_storage w = Some (db, jobs) → caches_right db s →
  ∃ o s', get_tx_receipt w hash s = Val (Ok o, s') ∧ receipt_info <$> o = receipt_info <$> tx_receipt hash db jobs ∧
    caches_right db s' ∧ same_listeners s s'.
Proof.
  intros Hw [H1 H2 H3]. unfold get_tx_receipt, access_storage, zoom. rewrite Hw. cbn [ok_or mbind fallible_bind fst snd].
  destruct (cached_receipt db jobs hash _ H2) as (o & c & -> & E & Hc). exists o, (set_receipt_cache c s). by split_and!.
Qed.

Lemma block_read w db jobs n b s :
  w_storage w = Some (db, jobs) → caches_right db s → block_info (w_now w) n db = Val (Ok b) →
  ∃ s', get_block_info w n s = Val (Ok b, s') ∧ caches_right db s' ∧ same_listeners s s'.
Proof.
  intros Hw [H1 H2 H3] Hb. unfold get_block_info, access_storage, zoom, mbind, exec_bind. rewrite Hw. cbn [ok_or].
  set (fetch := fallible_bind _ _ _ _). assert (fetch = Val (Ok (Some b))) as Ef by (unfold fetch; cbn; by rewrite Hb).
  pose proof (through_cache_spec _ n fetch bi_verified _ H3 ltac:(intros v Hv Hver; rewrite Ef in Hv; injection Hv as <-; by split; [|exists (w_now w)])) as Hc.
  destruct (through_cache _ _ _ _) as [[r c]|]; [|by rewrite Ef in Hc]. destruct Hc as [Hc Hr].
  exists (set_block_cache c s). assert (r = Ok (Some b)) as ->; [|by split].
  destruct Hr as [Hr|(v & -> & Hv & now & Hn)]; [by rewrite Ef in Hr; injection Hr|].
  apply block_info_value in Hb as ->. by apply block_info_value in Hn as ->.
Qed.
(** ** The caches stay right *)

Definition ok_caches {A} db (m : Exec OperationNotifier A) : Prop :=
  ∀ s, caches_right db s → wp m (λ _ s', caches_right db s') s.

Lemma ok_bind {A B} db (m : Exec OperationNotifier A) (f : A → Exec OperationNotifier B) :
  ok_caches db m → (∀ a, ok_caches db (f a)) → ok_caches db (m ≫= f).
Proof. intros Hm Hf s Hs. apply wp_bind. eapply wp_mono; [by apply Hm|]. intros [a|e] s' Hs'; [by apply Hf|done]. Qed.

(** A step that does not touch the caches. *)
Lemma ok_outside {A} db (m : Exec OperationNotifier A) :
  (∀ s r s', m s = Val (r, s') →
    cache_of_executed_priority_operations s' = cache_of_executed_priority_operations s ∧
    cache_of_transaction_receipts s' = cache_of_transaction_receipts s ∧
    cache_of_blocks_info s' = cache_of_blocks_info s) → ok_caches db m.
Proof.
  intros H s [H1 H2 H3]. unfold wp. destruct (m s) as [[r s']|] eqn:E; [|done]. destruct (H _ _ _ E) as (E1 & E2 & E3).
  split; by rewrite ?E1, ?E2, ?E3.
Qed.
Lemma ok_ret {A} db (a : A) : ok_caches db (mret a).
Proof. by apply ok_outside; intros s r s' [= <- <-]. Qed.
Lemma ok_raise {A} db e : ok_caches db (raise (A := A) e).
Proof. by apply ok_outside; intros s r s' [= <- <-]. Qed.
Lemma ok_lift {A} db (m : Fallible A) : ok_caches db (lift m).
Proof. apply ok_outside. intros s r s'. unfold lift. destruct m; [|done]. by intros [= <- <-]. Qed.
Lemma ok_send db sink val : ok_caches db (send_once sink val).
Proof. by apply ok_outside; intros s r s' [= <- <-]. Qed.
Lemma ok_assign db sub : ok_caches db (assign_id sub).
Proof. unfold assign_id. destruct (sb_connected sub); [apply ok_ret|apply ok_raise]. Qed.

Lemma ok_prior db w id :
  (∀ db' jobs, w_storage w = Some (db', jobs) → db' = db) → ok_caches db (get_executed_priority_operation_cached w id).
Proof.
  intros Hw s Hs. destruct (w_storage w) as [[db' jobs]|] eqn:E.
  - rewrite (Hw _ _ eq_refl) in E. destruct (prior_read w db jobs id s E Hs) as (s' & H & Hs' & _). unfold wp. by rewrite H.
  - destruct Hs as [H1 H2 H3]. unfold get_executed_priority_operation_cached, access_storage. rewrite E. apply wp_zoom. unfold wp.
    set (fetch := _ ≫= _). pose proof (through_cache_spec _ id fetch (λ _, true) _ H1 ltac:(done)) as Hc.
    destruct (through_cache _ _ _ _) as [[r c]|]; [|done]. by split; [destruct Hc|..].
Qed.
Lemma ok_receipt db w hash :
  (∀ db' jobs, w_storage w = Some (db', jobs) → db' = db) → ok_caches db (get_tx_receipt w hash).
Proof.
  intros Hw s Hs. destruct (w_storage w) as [[db' jobs]|] eqn:E.
  - rewrite (Hw _ _ eq_refl) in E. destruct (receipt_read w db jobs hash s E Hs) as (o & s' & H & _ & Hs' & _). unfold wp. by rewrite H.
  - destruct Hs as [H1 H2 H3]. unfold get_tx_receipt, access_storage. rewrite E. apply wp_zoom. unfold wp.
    set (fetch := _ ≫= _). pose proof (through_cache_spec _ hash fetch rc_verified _ H2 ltac:(done)) as Hc.
    destruct (through_cache _ _ _ _) as [[r c]|]; [|done]. by split; [|destruct Hc|].
Qed.
Lemma ok_block db w n :
  (∀ db' jobs, w_storage w = Some (db', jobs) → db' = db) → ok_caches db (get_block_info w n).
Proof.
  intros Hw. apply ok_bind; [|intros [b|]; [apply ok_ret|apply ok_raise]].
  intros s [H1 H2 H3]. apply wp_zoom. unfold wp. set (fetch := _ ≫= _).
  assert (∀ b, fetch = Val (Ok (Some b)) → bi_verified b = true → block_right db n b) as Hf.
  { intros b Hb Hv. split; [done|]. exists (w_now w). apply fallible_bind_Ok in Hb as ([db' jobs] & E & Hb).
    unfold access_storage, ok_or in E. destruct (w_storage w) as [[db1 j1]|] eqn:Ew; [|done]. injection E as -> ->.
    rewrite (Hw _ _ eq_refl) in Hb. by apply fallible_bind_Ok in Hb as (b' & Hb & [= ->]). }
  pose proof (through_cache_spec _ n fetch bi_verified _ H3 Hf) as Hc.
  destruct (through_cache _ _ _ _) as [[r c]|]; [|done]. by split; [| |destruct Hc].
Qed.

Lemma ok_listener {K} `{Countable K} db (get : OperationNotifier → gmap K (list SubscriptionSender)) put key id sub first :
  (∀ m s, cache_of_executed_priority_operations (put m s) = cache_of_executed_priority_operations s ∧
          cache_of_transaction_receipts (put m s) = cache_of_transaction_receipts s ∧
          cache_of_blocks_info (put m s) = cache_of_blocks_info s) →
  ok_caches db (add_listener get put key id sub first) ∧ ok_caches db (remove_listener get put key id) ∧
  (∀ val, ok_caches db (notify_listeners get put key val)).
Proof.
  intros Hput.
  assert (ok_caches db (take_subs get put key)) as Ht by (apply ok_outside; intros s r s' [= <- <-]; apply Hput).
  assert (∀ l, ok_caches db (insert_subs get put key l)) as Hi by (intros l; apply ok_outside; intros s r s' [= <- <-]; apply Hput).
  assert (∀ l val, ok_caches db (send_all l val)) as Hs.
  { intros l val. apply ok_outside. intros s r s'. rewrite send_all_val. by intros [= <- <-]. }
  split; [|split].
  - apply ok_bind; [done|]. intros o. apply ok_bind; [|done]. destruct (_ <? _)%nat; [|apply ok_ret].
    apply ok_bind; [apply ok_assign|]. intros sink. apply ok_bind; [destruct first; [apply ok_send|apply ok_ret]|]. intros _. apply ok_ret.
  - apply ok_bind; [done|]. intros [l|]; [|apply ok_ret]. destruct (List.filter _ _); [apply ok_ret|apply Hi].
  - intros val. apply ok_bind; [done|]. intros [l|]; [apply Hs|apply ok_ret].
Qed.

Lemma ok_tx_subs db key id sub first :
  ok_caches db (add_listener tx_subs set_tx_subs key id sub first) ∧ ok_caches db (remove_listener tx_subs set_tx_subs key id) ∧
  (∀ val, ok_caches db (notify_listeners tx_subs set_tx_subs key val)).
Proof. by apply ok_listener. Qed.
Lemma ok_prior_subs db key id sub first :
  ok_caches db (add_listener prior_op_subs set_prior_op_subs key id sub first) ∧
  ok_caches db (remove_listener prior_op_subs set_prior_op_subs key id) ∧
  (∀ val, ok_caches db (notify_listeners prior_op_subs set_prior_op_subs key val)).
Proof. by apply ok_listener. Qed.
Lemma ok_account_subs db key id sub first :
  ok_caches db (add_listener account_subs set_account_subs key id sub first) ∧
  ok_caches db (remove_listener account_subs set_account_subs key id).
Proof. split; by apply ok_listener. Qed.

Lemma ok_unsub db sub_id : ok_caches db (handle_unsub sub_id).
Proof.
  unfold handle_unsub. destruct sub_id as [n|txt]; [apply ok_raise|]. set (sub := mkSubscriber 0 true).
  destruct (split_on 47 txt) as [|ty [|id [|act rest]]]; try apply ok_raise.
  destruct (ActionType_from_str _); [|apply ok_raise]. repeat case_bool_decide; [..|apply ok_raise].
  - destruct (parse_uint _ _); [eapply (ok_prior_subs db _ _ sub None)|apply ok_raise].
  - destruct (TxHash_from_str _); [eapply (ok_tx_subs db _ _ sub None)|apply ok_raise].
  - destruct (parse_uint _ _); [eapply (ok_account_subs db _ _ sub None)|apply ok_raise].
Qed.

Lemma ok_executed db ops action n : ok_caches db (handle_executed_operations ops action n).
Proof.
  set (sub := mkSubscriber 0 true). induction ops as [|op ops IH]; [apply ok_ret|]. apply ok_bind; [|done].
  destruct op; [eapply (ok_tx_subs db _ (SubNumber 0) sub None)|eapply (ok_prior_subs db _ (SubNumber 0) sub None)].
Qed.

Lemma ok_accounts db st action ids : ok_caches db (notify_accounts st action ids).
Proof.
  induction ids as [|id ids IH]; [apply ok_ret|]. apply ok_bind; [|done].
  apply ok_bind; [by apply ok_outside; intros s r s' [= <- <-]|]. intros [l|]; [|apply ok_ret].
  apply ok_bind; [apply ok_lift|]. intros [a|]; [|apply ok_ret]. apply ok_outside. intros s r s'. cbn [try_to_restore].
  rewrite send_all_val. by intros [= <- <-].
Qed.

Lemma ok_round db w event s s' :
  (∀ db' jobs, w_storage w = Some (db', jobs) → db' = db) → caches_right db s → notifier_round w event s = Val s' →
  caches_right db s'.
Proof.
  intros Hw Hs. unfold notifier_round. intros ([r s2] & H & [= <-])%outcome_bind_Val. cbn [snd].
  assert (ok_caches db (match event with NewBlock op => handle_new_block w op | NewExecBatch batch => handle_new_executed_batch batch
                        | NewSub request => handle_notify_req w request end)) as Hk.
  { destruct event as [op|batch|[[h a sub|id a sub|ad a sub]|sub_id]]; cbn [handle_notify_req].
    - apply ok_bind; [apply ok_lift|]. intros st. apply ok_bind; [apply ok_executed|]. intros _. apply ok_accounts.
    - apply ok_executed.
    - unfold handle_transaction_sub. destruct (match a with COMMIT => _ | VERIFY => _ end) as [[n ok]|].
      { apply ok_bind; [apply ok_assign|intros; apply ok_send]. }
      apply ok_bind; [by apply ok_receipt|]. intros [r'|]; [|apply ok_tx_subs].
      destruct (_ || _); [|apply ok_tx_subs]. apply ok_bind; [apply ok_assign|intros; apply ok_send].
    - unfold handle_priority_op_sub. destruct (match a with COMMIT => _ | VERIFY => _ end) as [[n ok]|].
      { apply ok_bind; [apply ok_assign|intros; apply ok_send]. }
      apply ok_bind; [by apply ok_prior|]. intros [row|]; [|apply ok_prior_subs].
      apply ok_bind; [by apply ok_block|]. intros b. destruct (_ || _); [|apply ok_prior_subs].
      apply ok_bind; [apply ok_assign|intros; apply ok_send].
    - unfold handle_account_update_sub. apply ok_bind; [apply ok_lift|]. intros st. apply ok_bind; [apply ok_lift|]. intros acc.
      destruct (AccountSchema.committed acc) as [[id x]|]; [|apply ok_raise].
      destruct (restore_message _); [apply ok_account_subs|apply ok_raise].
    - apply ok_unsub. }
  apply Hk in Hs. unfold wp in Hs. by rewrite H in Hs.
Qed.

(** The database that the rounds see grows from [db] to [db']. *)
Fixpoint grows db (events : list (World * NotifierEvent)) db' : Prop :=
  match events with
  | [] => db_extends db db'
  | (w, _) :: events =>
      match w_storage w with
      | Some (db1, _) => db_extends db db1 ∧ grows db1 events db'
      | None => grows db events db'
      end
  end.

Lemma run_caches db events db' s s' :
  grows db events db' → caches_right db s → notifier_run events s = Val s' → caches_right db' s'.
Proof.
  revert db s. induction events as [|[w event] events IH]; intros db s Hg Hs; cbn [notifier_run].
  { intros [= <-]. by eapply caches_right_extends. }
  intros (s1 & H1 & H2)%outcome_bind_Val. cbn in Hg. destruct (w_storage w) as [[db1 jobs]|] eqn:E.
  - destruct Hg as [Hext Hg]. eapply IH; [exact Hg| |exact H2]. eapply ok_round; [|by eapply caches_right_extends|exact H1].
    intros db2 j2 E2. rewrite E in E2. by injection E2.
  - eapply IH; [exact Hg| |exact H2]. eapply ok_round; [|exact Hs|exact H1]. intros db2 j2 E2. by rewrite E in E2.
Qed.

(** ** Subscriptions *)

(** What the node knows about a transaction and a priority operation, without caches. *)
Definition tx_answer (w : World) db (jobs : ProverTables) (hash : bytes) (action : ActionType) : option TransactionInfoResp :=
  match (match action with COMMIT => w_pending w (IdTransaction hash) | VERIFY => None end) with
  | Some (n, success) => Some (mkTxInfo true (Some success) None (Some (mkBlockInfo n true false)))
  | None =>
      match tx_receipt hash db jobs with
      | Some r => if bool_decide (action = COMMIT) || rc_verified r then Some (receipt_info r) else None
      | None => None
      end
  end.
Definition op_answer (w : World) db (serial_id : Z) (action : ActionType) : option ETHOpInfoResp :=
  match (match action with COMMIT => w_pending w (IdPriorityOp serial_id) | VERIFY => None end) with
  | Some (n, _) => Some (mkOpInfo true (Some (mkBlockInfo n true false)))
  | None =>
      match get_executed_priority_operation (wrap 32 serial_id) db with
      | Some row =>
          let n := wrap 32 (xp_block_number row) in
          if bool_decide (action = COMMIT) || is_verified_block n db
          then Some (mkOpInfo true (Some (mkBlockInfo n true (is_verified_block n db)))) else None
      | None => None
      end
  end.

(** What a subscription does with the client, given the answer that the node knows.  A known answer is
    sent at once.  Otherwise the client becomes the last listener of its key; when the key has as many
    listeners as are allowed it is dropped without an answer.  A client that is gone before its
    id is assigned is an error, and one that was to wait takes the other listeners of its key with it: they
    were taken out of the map and are not put back. *)
Definition subscribed {K} `{Countable K} (get : OperationNotifier → gmap K (list SubscriptionSender)) (key : K)
    (sub : Subscriber) (answer : option Message) s (r : result unit) s' : Prop :=
  let listeners := default [] (get s !! key) in
  match answer with
  | Some val =>
      get s' = get s ∧
      if sb_connected sub then r = Ok tt ∧ sent s' = sent s ++ [(sb_client sub, val)]
      else r = Err "SubIdAssign" ∧ sent s' = sent s
  | None =>
      sent s' = sent s ∧
      if (length listeners <? MAX_LISTENERS_PER_ENTITY)%nat then
        if sb_connected sub then r = Ok tt ∧ ∃ id, get s' = <[key := listeners ++ [mkSender id (sb_client sub)]]> (get s)
        else r = Err "SubIdAssign" ∧ get s' = delete key (get s)
      else r = Ok tt ∧ get s' = <[key := listeners]> (get s)
  end.

Lemma add_listener_val {K} `{Countable K} (get : OperationNotifier → gmap K (list SubscriptionSender)) put key id sub s :
  (∀ m s, get (put m s) = m) → (∀ m s, sent (put m s) = sent s) →
  ∃ r s', add_listener get put key id sub None s = Val (r, s') ∧ subscribed get key sub None s r s'.
Proof.
  intros Hget Hsent. unfold subscribed, add_listener, take_subs, insert_subs, assign_id, mbind, exec_bind.
  destruct (_ <? _)%nat; [destruct (sb_connected sub)|]; (eexists _, _; split; [reflexivity|]); rewrite ?Hsent, ?Hget;
    (split; [done|]; split; [done|]); [exists id; apply insert_delete_eq|done|apply insert_delete_eq].
Qed.

Lemma answer_now {K} `{Countable K} (get : OperationNotifier → gmap K (list SubscriptionSender)) key sub val s :
  (∀ l, get (with_sent l s) = get s) →
  ∃ r s', (sink ← assign_id sub; send_once sink val) s = Val (r, s') ∧ subscribed get key sub (Some val) s r s'.
Proof.
  intros Hg. unfold assign_id, subscribed. destruct (sb_connected sub); [|by eexists _, s].
  exists (Ok tt), (with_sent [(sb_client sub, val)] s). split; [done|]. by split.
Qed.

(** Only the listeners and what was sent matter. *)
Lemma subscribed_from {K} `{Countable K} (get : OperationNotifier → gmap K (list SubscriptionSender)) key sub answer s s1 r s' :
  get s1 = get s → sent s1 = sent s → subscribed get key sub answer s1 r s' → subscribed get key sub answer s r s'.
Proof. intros Hg Hs. unfold subscribed. by rewrite Hg, Hs. Qed.

Lemma transaction_sub_spec db jobs w s sub hash action :
  caches_right db s → w_storage w = Some (db, jobs) →
  ∃ r s', handle_transaction_sub w hash action sub s = Val (r, s') ∧
    subscribed tx_subs (hash, action) sub (MTx <$> tx_answer w db jobs hash action) s r s'.
Proof.
  intros Hs Hw. unfold handle_transaction_sub, tx_answer.
  destruct (match action with COMMIT => w_pending w (IdTransaction hash) | VERIFY => None end) as [[n ok]|]; [by apply answer_now|].
  destruct (receipt_read w db jobs hash s Hw Hs) as (o & s1 & E & Hinfo & _ & (E1 & _ & _ & E2)).
  unfold mbind at 1, exec_bind at 1. rewrite E.
  assert (∀ id, ∃ r s', add_listener tx_subs set_tx_subs (hash, action) id sub None s1 = Val (r, s') ∧
    subscribed tx_subs (hash, action) sub None s r s') as Hadd.
  { intros id. destruct (add_listener_val tx_subs set_tx_subs (hash, action) id sub s1) as (r & s' & H1 & H2); [done..|].
    exists r, s'. split; [done|]. by eapply subscribed_from. }
  assert (∀ m, ∃ r s', (sink ← assign_id sub; send_once sink (MTx m)) s1 = Val (r, s') ∧
    subscribed tx_subs (hash, action) sub (Some (MTx m)) s r s') as Hans.
  { intros m. destruct (answer_now tx_subs (hash, action) sub (MTx m) s1) as (r & s' & H1 & H2); [done..|].
    exists r, s'. split; [done|]. by eapply subscribed_from. }
  destruct o as [r|], (tx_receipt hash db jobs) as [r'|]; cbn in Hinfo; try done; [].
  apply (inj Some) in Hinfo. assert (rc_verified r = rc_verified r') as Hv by (by injection Hinfo).
  change (mkTxInfo true _ _ _) with (receipt_info r). rewrite Hinfo, Hv. by destruct (_ || _).
Qed.

Lemma priority_op_sub_spec db jobs w s sub id action :
  caches_right db s → w_storage w = Some (db, jobs) →
  (∀ row, get_executed_priority_operation (wrap 32 id) db = Some row →
    ∃ b, block_info (w_now w) (wrap 32 (xp_block_number row)) db = Val (Ok b)) →
  ∃ r s', handle_priority_op_sub w id action sub s = Val (r, s') ∧
    subscribed prior_op_subs (id, action) sub (MOp <$> op_answer w db id action) s r s'.
Proof.
  intros Hs Hw Hread. unfold handle_priority_op_sub, op_answer.
  destruct (match action with COMMIT => w_pending w (IdPriorityOp id) | VERIFY => None end) as [[n ok]|]; [by apply answer_now|].
  destruct (prior_read w db jobs (wrap 32 id) s Hw Hs) as (s1 & E & Hs1 & (_ & E1 & _ & E2)).
  unfold mbind at 1, exec_bind at 1. rewrite E.
  assert (∀ s2 sid, same_listeners s1 s2 → ∃ r s', add_listener prior_op_subs set_prior_op_subs (id, action) sid sub None s2 = Val (r, s') ∧
    subscribed prior_op_subs (id, action) sub None s r s') as Hadd.
  { intros s2 sid (_ & E3 & _ & E4).
    destruct (add_listener_val prior_op_subs set_prior_op_subs (id, action) sid sub s2) as (r & s' & H1 & H2); [done..|].
    exists r, s'. split; [done|]. eapply subscribed_from; [| |exact H2]; congruence. }
  destruct (get_executed_priority_operation (wrap 32 id) db) as [row|]; [|by apply Hadd].
  destruct (Hread row eq_refl) as [b Hb]. destruct (block_read w db jobs _ b s1 Hw Hs1 Hb) as (s2 & Eb & _ & Hl2).
  unfold mbind at 1, exec_bind at 1. rewrite Eb. apply block_info_value in Hb as ->. cbn [bi_verified].
  destruct (_ || _); [|by apply Hadd].
  destruct (answer_now prior_op_subs (id, action) sub (op_info (mkBlockInfo (wrap 32 (xp_block_number row)) true
    (is_verified_block (wrap 32 (xp_block_number row)) db))) s2) as (r & s' & H1 & H2); [done..|].
  exists r, s'. split; [done|]. destruct Hl2 as (_ & E3 & _ & E4). eapply subscribed_from; [| |exact H2]; congruence.
Qed.

(** C31: Whatever events the notifier has handled on a database that only grew: when the database is reachable, a
    connected client that subscribes is answered at once with what the state keeper or the database says now about
    the transaction or the priority operation, as if nothing were cached; when they do not know of it, it becomes the last
    listener of its key, unless the key already has 2048 listeners, in which case it is dropped without a message.  A
    client that is gone before its id is assigned gives an error, and if it was to wait, all listeners of its key
    are lost.  For a priority operation the block that executed it has to be readable. *)
Theorem subscription_answered size events db0 db jobs w s sub :
  notifier_run events (OperationNotifier_new size) = Val s → grows db0 events db →
  w_storage w = Some (db, jobs) →
  (∀ hash action,
    ∃ r s', handle_transaction_sub w hash action sub s = Val (r, s') ∧
      subscribed tx_subs (hash, action) sub (MTx <$> tx_answer w db jobs hash action) s r s') ∧
  (∀ id action,
    (∀ row, get_executed_priority_operation (wrap 32 id) db = Some row →
      ∃ b, block_info (w_now w) (wrap 32 (xp_block_number row)) db = Val (Ok b)) →
    ∃ r s', handle_priority_op_sub w id action sub s = Val (r, s') ∧
      subscribed prior_op_subs (id, action) sub (MOp <$> op_answer w db id action) s r s').
Proof.
  intros Hrun Hg Hw. assert (caches_right db s) as Hs by (eapply run_caches; [exact Hg|apply caches_right_new|exact Hrun]).
  split; [intros; by apply transaction_sub_spec|intros; by eapply priority_op_sub_spec].
Qed.
End Answers.
