(* ===== verification/EventNotifyEvents.v ===== *)
(** * What reaches the listeners, and unsubscribing

    The executed operations of a batch or a block reach exactly the listeners that are
    registered under them, once, and unregister them.  The identifier of a subscription
    names the listener: unsubscribing with it removes this listener and no other one,
    except that the listeners of accounts cannot be removed. *)

From S2P Require Import Prelude Bytes Params Externals Primitives Amounts Account Tx Decimal Operations Block EthStorage Storage.
From S2P Require Import ExecLogic BlockStorage Witness WitnessOps ProverPool StateKeeper ApiCaches EventNotify EventNotifyProofs.
Open Scope Z_scope.

Section Events.
  Context `{C : Codec} `{HD : !HexDecoder} `{LC : LruCaches}.
  Implicit Types (s : OperationNotifier).

(** ** Executed operations *)

Definition op_key (op : ExecutedOperations) : bytes + Z :=
  match op with ExTx tx => inl (FranklinTx_hash (et_tx tx)) | ExPriorityOp op => inr (po_serial_id (epo_priority_op op)) end.

Definition listeners (action : ActionType) s (key : bytes + Z) : list SubscriptionSender :=
  default [] (match key with inl hash => tx_subs s !! (hash, action) | inr id => prior_op_subs s !! (id, action) end).

Definition executed_message (action : ActionType) (n : Z) (op : ExecutedOperations) : Message :=
  match op with
  | ExTx tx => MTx (mkTxInfo true (Some (et_success tx)) (et_fail_reason tx) (Some (executed_info n action)))
  | ExPriorityOp _ => op_info (executed_info n action)
  end.

(** The listeners of an operation get its message; of operations with one key, the first counts. *)
Fixpoint notices (action : ActionType) (n : Z) s (seen : list (bytes + Z)) (ops : list ExecutedOperations) : list (Z * Message) :=
  match ops with
  | [] => []
  | op :: ops =>
      (if decide (op_key op ∈ seen) then [] else messages (listeners action s (op_key op)) (executed_message action n op))
      ++ notices action n s (op_key op :: seen) ops
  end.

(** The listeners under the keys are gone. *)
Record unregistered (action : ActionType) (keys : list (bytes + Z)) s s' : Prop := {
  un_tx h a : tx_subs s' !! (h, a) = if decide (a = action ∧ inl h ∈ keys) then None else tx_subs s !! (h, a);
  un_prior id a : prior_op_subs s' !! (id, a) = if decide (a = action ∧ inr id ∈ keys) then None else prior_op_subs s !! (id, a);
  un_account : account_subs s' = account_subs s;
}.

Lemma notify_listeners_val {K} `{Countable K} (get : OperationNotifier → gmap K (list SubscriptionSender)) put key val s :
  notify_listeners get put key val s =
  Val (Ok tt, with_sent (messages (default [] (get s !! key)) val) (put (delete key (get s)) s)).
Proof.
  unfold notify_listeners, take_subs, mbind, exec_bind. destruct (get s !! key) as [l|]; [by rewrite send_all_val|].
  cbn. unfold with_sent. cbn. rewrite app_nil_r. by destruct (put _ s).
Qed.

Lemma notify_executed_val action n op s :
  ∃ s', notify_executed action n op s = Val (Ok tt, s') ∧
    sent s' = sent s ++ messages (listeners action s (op_key op)) (executed_message action n op) ∧
    unregistered action [op_key op] s s'.
Proof.
  destruct op as [tx|op]; unfold notify_executed; rewrite notify_listeners_val; eexists; (split; [done|]; split; [done|]).
  - split; cbn; [intros h a|intros id a|done].
    + case_decide as Hd; [destruct Hd as [-> Hk%list_elem_of_singleton]; injection Hk as Hk; rewrite Hk; apply lookup_delete_eq|].
      apply lookup_delete_ne. intros Hk. injection Hk as <- <-. apply Hd. split; [done|left].
    + case_decide as Hd; [by destruct Hd as [_ [=]%list_elem_of_singleton]|done].
  - split; cbn; [intros h a|intros id a|done].
    + case_decide as Hd; [by destruct Hd as [_ [=]%list_elem_of_singleton]|done].
    + case_decide as Hd; [destruct Hd as [-> Hk%list_elem_of_singleton]; injection Hk as Hk; rewrite Hk; apply lookup_delete_eq|].
      apply lookup_delete_ne. intros Hk. injection Hk as <- <-. apply Hd. split; [done|left].
Qed.

Lemma unregistered_trans action k1 k2 s1 s2 s3 :
  unregistered action k1 s1 s2 → unregistered action k2 s2 s3 → unregistered action (k1 ++ k2) s1 s3.
Proof.
  intros [T1 P1 A1] [T2 P2 A2]. split; [intros h a; rewrite T2, T1|intros h a; rewrite P2, P1|congruence];
    repeat case_decide; try done; set_solver.
Qed.

Lemma unregistered_listeners action keys s s' key :
  unregistered action keys s s' → listeners action s' key = if decide (key ∈ keys) then [] else listeners action s key.
Proof.
  intros [HT HP _]. unfold listeners. destruct key as [h|id]; rewrite ?HT, ?HP; repeat case_decide; naive_solver.
Qed.

Lemma executed_spec action n ops seen s0 s :
  unregistered action seen s0 s →
  ∃ s', handle_executed_operations ops action n s = Val (Ok tt, s') ∧
    sent s' = sent s ++ notices action n s0 seen ops ∧ unregistered action (seen ++ (op_key <$> ops)) s0 s'.
Proof.
  revert seen s. induction ops as [|op ops IH]; intros seen s Hs.
  { exists s. split; [done|]. cbn. by rewrite !app_nil_r. }
  cbn [handle_executed_operations notices fmap list_fmap]. destruct (notify_executed_val action n op s) as (s1 & E & Hsent & Hun).
  destruct (IH (op_key op :: seen) s1) as (s' & E' & Hsent' & Hun').
  { pose proof (unregistered_trans _ _ _ _ _ _ Hs Hun) as [T P A]. split; [intros h a; rewrite T|intros h a; rewrite P|done];
      repeat case_decide; try done; set_solver. }
  exists s'. unfold mbind, exec_bind. rewrite E. split; [done|]. split.
  - rewrite Hsent', Hsent, (unregistered_listeners _ _ _ _ _ Hs). case_decide; [by rewrite app_nil_r|by rewrite <- app_assoc].
  - destruct Hun' as [T P A]. split; [intros h a; rewrite T|intros h a; rewrite P|done]; repeat case_decide; try done; set_solver.
Qed.

(** The executed operations of a batch or a block are announced to exactly the clients that listen to them,
    each with the outcome and the block of its operation, and these listeners are
    unregistered; all others stay. *)
Theorem executed_operations_notified ops action n s :
  ∃ s', handle_executed_operations ops action n s = Val (Ok tt, s') ∧
    sent s' = sent s ++ notices action n s [] ops ∧ unregistered action (op_key <$> ops) s s'.
Proof.
  apply (executed_spec action n ops [] s s). split; [..|done]; intros k a; case_decide as Hd; try done; by destruct Hd as [_ ?%not_elem_of_nil].
Qed.

(** ** Unsubscribing *)

(** The map without the listener. *)
Definition drop_listener {K} `{Countable K} (key : K) (id : SubscriptionId) (m : gmap K (list SubscriptionSender)) :
    gmap K (list SubscriptionSender) :=
  match m !! key with
  | None => m
  | Some subs =>
      match List.filter (λ sub, negb (bool_decide (ss_id sub = id))) subs with
      | [] => delete key m
      | subs => <[key := subs]> m
      end
  end.

Lemma remove_listener_val {K} `{Countable K} (get : OperationNotifier → gmap K (list SubscriptionSender)) put key id s :
  (∀ m s, get (put m s) = m) → (∀ m m' s, put m (put m' s) = put m s) → (∀ s, put (get s) s = s) →
  remove_listener get put key id s = Val (Ok tt, put (drop_listener key id (get s)) s).
Proof.
  intros Hget Hput Hid. unfold remove_listener, take_subs, insert_subs, drop_listener, mbind, exec_bind.
  destruct (get s !! key) as [l|] eqn:E; [|by rewrite delete_id].
  destruct (List.filter _ l) as [|x l']; [done|]. by rewrite Hget, Hput, insert_delete_eq.
Qed.

Lemma action_text action : ActionType_from_str (text (str (ActionType_to_string action))) = Ok action.
Proof. by destruct action. Qed.
Lemma action_no_slash action : 47 ∉ str (ActionType_to_string action).
Proof. destruct action; cbn; rewrite !elem_of_cons, elem_of_nil; intuition done. Qed.

Lemma split_subscription prefix unique_id action random :
  47 ∉ prefix → 47 ∉ unique_id → 0 ≤ random →
  split_on 47 (subscription_text prefix unique_id action random) =
  [prefix; unique_id; str (ActionType_to_string action); decimal random].
Proof.
  intros Hp Hu Hr. unfold subscription_text. cbn [app]. rewrite !split_on_app by (done || apply action_no_slash).
  rewrite split_on_last; [done|]. by apply decimal_not_in.
Qed.

Lemma parse_digits_all w acc l n : parse_digits w acc l = Some n → Forall (λ c, is_digit c = true) l.
Proof.
  revert acc. induction l as [|c l IH]; intros acc; cbn [parse_digits]; [constructor|].
  destruct (is_digit c) eqn:E; [|done]. cbn. destruct (_ <? _); [|done]. intros H%IH. by constructor.
Qed.

(** The identifier that a client was given unregisters its listener of a transaction or a priority
    operation, and nothing else; but the identifier of an account listener holds the address where its number
    is expected, so that unsubscribing fails whenever the address has a digit above nine, and
    nothing changes. *)
Theorem unsubscribe_correct {HL : HexLaws} s action random :
  0 ≤ random →
  (∀ hash, is_array 32 hash →
    let id := SubString (subscription_text TX_SUB_PREFIX (TxHash_to_string hash) action random) in
    handle_unsub id s = Val (Ok tt, set_tx_subs (drop_listener (hash, action) id (tx_subs s)) s)) ∧
  (∀ serial_id, fits 64 serial_id →
    let id := SubString (subscription_text ETHOP_SUB_PREFIX (decimal serial_id) action random) in
    handle_unsub id s = Val (Ok tt, set_prior_op_subs (drop_listener (serial_id, action) id (prior_op_subs s)) s)) ∧
  (∀ address, is_array 20 address → Exists (λ c, 97 ≤ c) (hex_encode address) →
    let id := SubString (subscription_text ACCOUNT_SUB_PREFIX (hex_encode address) action random) in
    handle_unsub id s = Val (Err "ParseIntError", s)).
Proof.
  intros Hr. assert (47 ∉ TX_SUB_PREFIX ∧ 47 ∉ ETHOP_SUB_PREFIX ∧ 47 ∉ ACCOUNT_SUB_PREFIX) as (Ht & He & Ha).
  { unfold TX_SUB_PREFIX, ETHOP_SUB_PREFIX, ACCOUNT_SUB_PREFIX. cbn. rewrite !elem_of_cons, elem_of_nil. intuition done. }
  split; [|split].
  - intros hash Hh id. unfold id, handle_unsub. rewrite split_subscription by first [done | apply TxHash_no_slash; apply Hh].
    rewrite action_text. rewrite bool_decide_false by done. rewrite bool_decide_true by done. rewrite TxHash_roundtrip by done.
    apply remove_listener_val; [done..|by intros []].
  - intros serial_id Hs id. unfold id, handle_unsub. rewrite split_subscription by first [done | apply decimal_not_in; [apply Hs|done]].
    rewrite action_text. rewrite bool_decide_true by done. rewrite parse_decimal by done.
    apply remove_listener_val; [done..|by intros []].
  - intros address Had Hx id. unfold id, handle_unsub. rewrite split_subscription by first [done | apply hex_no_slash; apply Had].
    rewrite action_text. rewrite !bool_decide_false by done. rewrite bool_decide_true by done.
    destruct (parse_uint 32 (hex_encode address)) as [n|] eqn:E; [exfalso|done].
    assert (Forall (λ c, is_digit c = true ∨ c = 43) (hex_encode address)) as Hd.
    { unfold parse_uint in E. destruct (hex_encode address) as [|c l]; [done|]. destruct (Z.eqb_spec c 43) as [->|Hc].
      - destruct l; [done|]. apply parse_digits_all in E. constructor; [by right|]. eapply Forall_impl; [exact E|]. by left.
      - apply parse_digits_all in E. eapply Forall_impl; [exact E|]. by left. }
    apply Exists_exists in Hx as (c & Hc & Hge). rewrite Forall_forall in Hd. destruct (Hd c Hc) as [Hdc|Hdc]; [|lia].
    unfold is_digit in Hdc. lia.
Qed.
End Events.
