(* ===== verification/RpcAnswers.v ===== *)
(** * The answers of the JSON-RPC server

    The deposits that an account waits for are those that the watcher has not accepted
    yet, with the Ethereum block at which it accepts them; transactions and priority
    operations are answered as if nothing were cached. *)

From stdpp Require Import pretty.
From S2P Require Import Prelude Bytes Params Externals Primitives Amounts Account Tx Decimal Operations Block EthStorage Storage.
From S2P Require Import ExecLogic BlockStorage Merkle AccountLeaf PlasmaState StateKeeper EthWatch Witness WitnessOps ProverPool.
From S2P Require Import ApiCaches RpcServer EventNotify EventNotifyProofs EventNotifyAnswers.
Open Scope Z_scope.

(** ** Ongoing deposits *)
Section Deposits.
  Context `{C : Codec} `{HD : !HexDecoder} `{LC : LruCaches}.
  Context (decode : bytes → option PriorityEvent) (history : list (Z * PriorityOp * EthLog)) (c : Z).
  Context (Hhist : history_ok decode history) (Hc : 0 ≤ c).

(** What the watcher knows to be unconfirmed at height [h]. *)
Definition unconfirmed_at (h : Z) : list (Z * PriorityOp * EthLog) :=
  List.filter (in_range (saturating_sub h c) h) history.

Lemma update_unconfirmed_value h node w :
  honest history h node → number_of_confirmations_for_event w = c →
  update_unconfirmed_queue decode node h w = Val (set_unconfirmed (fst <$> unconfirmed_at h) w).
Proof.
  intros (_ & _ & Hl) Hconf. unfold update_unconfirmed_queue, get_priority_op_events_with_blocks. rewrite Hl, Hconf.
  cbn [mbind fallible_bind default]. unfold logs_in. rewrite Z.min_id, (collect_blocks_history _ _ Hhist); [done|].
  intros x Hx%elem_of_filter_range. tauto.
Qed.

(** A watcher that was started at height [h0]. *)
Definition watching (h0 : Z) (w : EthWatch) : Prop :=
  number_of_confirmations_for_event w = c ∧ h0 ≤ last_ethereum_block w < 2 ^ 63 ∧
  accepted history (accepted_blocks c h0 (last_ethereum_block w)) w ∧
  (h0 < last_ethereum_block w → unconfirmed_queue (eth_state w) = fst <$> unconfirmed_at (last_ethereum_block w)).

Lemma poll_watching h0 h node w :
  0 ≤ h0 → honest history h node → watching h0 w →
  ∃ w', poll_eth_node decode node w = Val w' ∧ last_ethereum_block w' = Z.max (last_ethereum_block w) h ∧ watching h0 w'.
Proof.
  intros H0 Hn (Hconf & Hlast & Hacc & Hun). pose proof Hn as (Hb & Hfit & _). unfold fits in Hfit.
  destruct (poll_ok decode history c Hhist Hc h0 h node w Hn ltac:(lia) ltac:(lia) Hconf Hacc) as (w' & E & El & Ec & Ha).
  exists w'. split; [done|]. split; [done|]. split; [done|]. split; [lia|]. split; [done|].
  intros Hlt. revert E El Ec Hlt. unfold poll_eth_node. rewrite Hb. destruct (Z.ltb_spec (last_ethereum_block w) h) as [Hl|Hl].
  - unfold process_new_blocks, gets, mbind, exec_bind. cbn [id]. rewrite Hconf, (get_events_honest decode history Hhist h) by done.
    cbn [lift]. unfold update at 1, update at 1.
    rewrite (update_unconfirmed_value h) by done. intros [= <-] _ _ _. done.
  - intros [= <-] _ _. done.
Qed.

Lemma polls_watching h0 hs nodes w :
  0 ≤ h0 → Forall2 (honest history) hs nodes → watching h0 w →
  ∃ w', watch_polls decode nodes w = Val w' ∧ last_ethereum_block w' = foldl Z.max (last_ethereum_block w) hs ∧ watching h0 w'.
Proof.
  intros H0 Hn. revert w. induction Hn as [|h node hs nodes Hnode _ IH]; intros w Hw; [by exists w|].
  cbn [watch_polls foldl]. destruct (poll_watching h0 h node w H0 Hnode Hw) as (w1 & -> & Hl1 & Hw1). cbn [mbind outcome_bind].
  destruct (IH w1 Hw1) as (w2 & -> & Hl2 & Hw2). exists w2. split; [done|]. split; [by rewrite Hl2, Hl1|done].
Qed.

Lemma start_watching h0 node :
  honest history h0 node → ∃ w, watch_start decode node (EthWatch_new c) = Val w ∧ last_ethereum_block w = h0 ∧ watching h0 w.
Proof.
  intros Hn. pose proof Hn as (_ & Hfit & _). unfold fits in Hfit.
  destruct (watch_start_ok decode history c Hhist Hc h0 node (EthWatch_new c)) as (w & E & El & Ec & Ha); [done..|].
  exists w. split; [done|]. split; [done|]. split; [done|]. rewrite El. split; [lia|]. split; [done|lia].
Qed.

(** An accepted operation is one whose block has enough confirmations. *)
Lemma accepted_iff h0 h w b op l :
  watching h0 w → (b, op, l) ∈ history → 0 < b → saturating_sub h c ≤ b → h0 < h → h ≤ last_ethereum_block w →
  priority_queue (eth_state w) !! po_serial_id op = Some op ↔ b + c ≤ last_ethereum_block w.
Proof.
  intros (_ & _ & Hacc & _) Hin Hb Hlo Hh Hlast. unfold accepted in Hacc. rewrite Hacc.
  unfold accepted_blocks, saturating_sub, PRIORITY_EXPIRATION in *. split.
  - intros (_ & b' & l' & Hin' & H). destruct Hhist as [_ Huniq].
    injection (Huniq _ _ Hin Hin' eq_refl) as -> ->. lia.
  - intros H. split; [done|]. exists b, l. split; [done|]. lia.
Qed.

(** The greatest block. *)
Lemma max_block_spec (l : list (Z * PriorityOp)) m :
  let e := foldl (λ (m : Z) (p : Z * PriorityOp), if m <? p.1 then p.1 else m) m l in
  (∀ p, p ∈ l → p.1 ≤ e) ∧ m ≤ e ∧ (e = m ∨ ∃ p, p ∈ l ∧ p.1 = e).
Proof.
  revert m. induction l as [|p l IH]; intros m; cbn; [by split_and!; [intros p ?%not_elem_of_nil|lia|left]|].
  destruct (IH (if m <? p.1 then p.1 else m)) as (H1 & H2 & H3). cbn in *.
  destruct (Z.ltb_spec m p.1); (split_and!; [intros q [->|Hq]%elem_of_cons; [lia|by apply H1]|lia|]).
  - destruct H3 as [H3|(q & Hq & E)]; [right; exists p; split; [left|by rewrite H3]|right; exists q; split; [by right|done]].
  - destruct H3 as [H3|(q & Hq & E)]; [by left|right; exists q; split; [by right|done]].
Qed.

(** The deposits of the address. *)
Definition deposits_of (address : Address) (l : list (Z * PriorityOp)) : list (Z * PriorityOp) := List.filter (touches address) l.

Definition deposit_token (op : PriorityOp) : Z := match po_data op with PDeposit d => dp_token_id d | _ => 0 end.
Definition ongoing_deposit (p : Z * PriorityOp) : OngoingDeposit :=
  mkOngoingDeposit p.1 (deposit_token p.2) (hex_encode (po_eth_hash p.2)).

Lemma deposits_of_fst address (l : list (Z * PriorityOp * EthLog)) :
  deposits_of address (fst <$> l) = fst <$> List.filter (λ x, touches address x.1) l.
Proof. unfold deposits_of. induction l as [|x l IH]; [done|]. cbn. destruct (touches address x.1); cbn; by rewrite IH. Qed.
Lemma foldl_max_ge (l : list Z) m : m ≤ foldl Z.max m l.
Proof. revert m. induction l as [|x l IH]; intros m; cbn; [lia|]. specialize (IH (Z.max m x)). lia. Qed.

Lemma deposits_converted address l :
  map_outcome (λ p : Z * PriorityOp, OngoingDeposit_new p.1 p.2) (deposits_of address l) = Val (ongoing_deposit <$> deposits_of address l).
Proof.
  unfold deposits_of. induction l as [|[b op] l IH]; [done|]. cbn. destruct (touches address (b, op)) eqn:E; [|done].
  cbn. unfold OngoingDeposit_new, touches, ongoing_deposit, deposit_token in *. cbn in *.
  destruct (po_data op); [|done]. cbn. unfold deposit_token, touches in IH. by rewrite IH.
Qed.

Lemma ongoing_deposits_value w address app :
  ∃ resp, get_ongoing_deposits_impl w address app = Val (Ok resp, app) ∧
    or_confirmations_for_eth_event resp = confirmations_for_eth_event app ∧
    or_deposits resp = ongoing_deposit <$> deposits_of address (unconfirmed_queue (eth_state w)) ∧
    or_estimated_deposits_approval_block resp =
      match deposits_of address (unconfirmed_queue (eth_state w)) with
      | [] => None
      | l => Some (wrap 64 (foldl (λ (m : Z) (p : Z * PriorityOp), if m <? p.1 then p.1 else m) 0 l + confirmations_for_eth_event app))
      end.
Proof.
  unfold get_ongoing_deposits_impl, gets, mbind, exec_bind, total, lift.
  pose proof (deposits_converted address (unconfirmed_queue (eth_state w))) as E. unfold deposits_of in E. rewrite E.
  cbn. eexists. split; [done|]. cbn. split; [done|]. split; [done|]. unfold deposits_of. by destruct (List.filter _ _).
Qed.
End Deposits.

(** C29: When the watcher, with [c] confirmations and honest answers of the node, has polled at least once
    and has seen the Ethereum block [h], an account is shown exactly its deposits in the blocks [h - c] to [h], in
    order.  These are one block more than those that lack confirmations: a deposit in block [h - c] is
    shown although it is already accepted.  Each shown deposit is in the priority queue exactly when the watcher has
    seen the block that was shown for it (its own block plus [c]), now or after further polls, and the
    estimate is reached exactly when all of them are in the queue. *)
Theorem deposits_shown_until_accepted `{C : Codec} `{HD : !HexDecoder} `{LC : LruCaches} decode history c h0 hs hs' node nodes nodes'
    (app : RpcApp) address :
  history_ok decode history → Forall (λ x : Z * PriorityOp * EthLog, 0 < x.1.1) history → 0 ≤ c < 2 ^ 63 →
  honest history h0 node → Forall2 (honest history) hs nodes → Forall2 (honest history) hs' nodes' →
  h0 < foldl Z.max h0 hs → confirmations_for_eth_event app = c →
  let h := foldl Z.max h0 hs in
  let h' := foldl Z.max h hs' in
  let shown := List.filter (λ x : Z * PriorityOp * EthLog, touches address x.1) (unconfirmed_at history c h) in
  ∃ w0 w w' resp, watch_start decode node (EthWatch_new c) = Val w0 ∧ watch_polls decode nodes w0 = Val w ∧
    watch_polls decode nodes' w = Val w' ∧ last_ethereum_block w' = h' ∧
    get_ongoing_deposits_impl w address app = Val (Ok resp, app) ∧
    from_pending_ops resp = Ok (mkDepositingAccountTokens ((λ x, mkDepositingToken (deposit_token x.1.2) (x.1.1 + c)) <$> shown)) ∧
    (∀ b op l, (b, op, l) ∈ shown →
      priority_queue (eth_state w') !! po_serial_id op = Some op ↔ b + c ≤ h') ∧
    (∀ e, or_estimated_deposits_approval_block resp = Some e →
      e ≤ h' ↔ ∀ b op l, (b, op, l) ∈ shown → priority_queue (eth_state w') !! po_serial_id op = Some op).
Proof.
  intros Hhist Hpos [Hc Hc'] Hnode Hnodes Hnodes' Hh Happ h h' shown. rewrite Forall_forall in Hpos.
  destruct (start_watching decode history c Hhist Hc h0 node Hnode) as (w0 & E0 & El0 & Hw0).
  pose proof Hnode as (_ & H0 & _). unfold fits in H0.
  destruct (polls_watching decode history c Hhist Hc h0 hs nodes w0 ltac:(lia) Hnodes Hw0) as (w & E & El & Hw).
  destruct (polls_watching decode history c Hhist Hc h0 hs' nodes' w ltac:(lia) Hnodes' Hw) as (w' & E' & El' & Hw').
  rewrite El0 in El. fold h in El. rewrite El in El'. fold h' in El'.
  assert (h ≤ h') as Hhh by apply foldl_max_ge.
  assert (unconfirmed_queue (eth_state w) = fst <$> unconfirmed_at history c h) as Hun.
  { destruct Hw as (_ & _ & _ & Hun). rewrite <- El. apply Hun. by rewrite El. }
  assert (h < 2 ^ 63) as Hbound by (destruct Hw as (_ & [_ ?] & _); congruence).
  assert (deposits_of address (unconfirmed_queue (eth_state w)) = fst <$> shown) as Hdep.
  { rewrite Hun. apply deposits_of_fst. }
  assert (∀ x, x ∈ shown → x ∈ history ∧ 0 < x.1.1 ∧ saturating_sub h c ≤ x.1.1 ≤ h) as Hshown.
  { intros x Hx. unfold shown in Hx. rewrite list_elem_of_In, List.filter_In, <- list_elem_of_In in Hx. destruct Hx as [Hx _].
    apply elem_of_filter_range in Hx as [Hx ?]. split; [done|]. split; [by apply Hpos|done]. }
  assert (∀ b op l, (b, op, l) ∈ shown → priority_queue (eth_state w') !! po_serial_id op = Some op ↔ b + c ≤ h') as Hacc.
  { intros b op l Hx%Hshown. destruct Hx as (Hin & Hb & Hlo & _). cbn in *. rewrite <- El'.
    eapply (accepted_iff decode history c Hhist Hc h0 h); [done..|lia]. }
  destruct (ongoing_deposits_value w address app) as (resp & Er & Econf & Edep & Eest).
  exists w0, w, w', resp. split_and!; [done..| | |].
  - unfold from_pending_ops. rewrite Econf, Edep, Happ, Hdep. do 2 f_equal. rewrite <- !list_fmap_compose.
    apply list_fmap_ext. intros i x Hx%list_elem_of_lookup_2%Hshown. cbn. unfold ongoing_deposit. cbn.
    rewrite wrap_small by (unfold fits; lia). f_equal. destruct (Z.ltb_spec 0 (x.1.1 + c)); lia.
  - intros b op l Hx. by eapply Hacc.
  - intros e He. rewrite Eest, Hdep, Happ in He.
    pose proof (max_block_spec (fst <$> shown) 0) as (Hmax & _ & Hatt). cbn in Hmax, Hatt.
    destruct (fst <$> shown) as [|p ps] eqn:Es; [done|]. apply (inj Some) in He.
    set (m := foldl _ 0 (p :: ps)) in *.
    assert (∃ x, x ∈ shown ∧ x.1.1 = m) as (x & Hx & Hxm).
    { destruct Hatt as [Hm|(q & Hq & Hm)].
      - specialize (Hmax p ltac:(left)). assert (p ∈ fst <$> shown) as Hp by (rewrite Es; left).
        apply list_elem_of_fmap in Hp as (x & -> & Hx). destruct (Hshown x Hx) as (_ & ? & _). lia.
      - rewrite <- Es in Hq. apply list_elem_of_fmap in Hq as (x & -> & Hx). by exists x. }
    destruct (Hshown x Hx) as (_ & Hx0 & _ & Hxh). rewrite wrap_small in He by (unfold fits; lia). subst e. split.
    + intros Hle b op l Hin. eapply Hacc; [exact Hin|]. specialize (Hmax (b, op)). cbn in Hmax. enough (b ≤ m) by lia. apply Hmax.
      rewrite <- Es. apply list_elem_of_fmap. by exists (b, op, l).
    + intros Hall. destruct x as [[b op] l]. change (b = m) in Hxm.
      assert (b + c ≤ h') by (eapply Hacc; [exact Hx|]; by eapply Hall). lia.
Qed.

(** ** Blocks *)
Section Blocks.
  Context `{EX : External} {C : Codec} `{HD : !HexDecoder} `{LC : LruCaches}.
  Context (operation_time : Z → Z).
  Implicit Types (db : ChainDb).

Lemma left_join_elem {A B} (on : A → B → bool) l r a o :
  (a, o) ∈ left_join on l r ↔
  a ∈ l ∧ match o with Some b => b ∈ r ∧ on a b = true | None => List.filter (on a) r = [] end.
Proof.
  unfold left_join. rewrite list_elem_of_In, in_concat. split.
  - intros (x & Hx & Hin). rewrite <- list_elem_of_In, list_elem_of_fmap in Hx. destruct Hx as (a' & -> & Ha').
    destruct (List.filter (on a') r) as [|b bs] eqn:E.
    + destruct Hin as [[= <- <-]|[]]. done.
    + rewrite <- list_elem_of_In, list_elem_of_fmap in Hin. destruct Hin as (b' & [= -> ->] & Hb'). split; [done|].
      rewrite <- E, list_elem_of_In, List.filter_In, <- list_elem_of_In in Hb'. done.
  - intros [Ha Ho].
    exists (match List.filter (on a) r with [] => [(a, None)] | bs => (λ b, (a, Some b)) <$> bs end). split.
    { rewrite <- list_elem_of_In, list_elem_of_fmap. by exists a. }
    destruct o as [b|]; [|rewrite Ho; by left]. destruct Ho as [Hb Hon].
    assert (b ∈ List.filter (on a) r) as Hin by (by rewrite list_elem_of_In, List.filter_In, <- list_elem_of_In).
    destruct (List.filter (on a) r); [by apply not_elem_of_nil in Hin|].
    rewrite <- list_elem_of_In, list_elem_of_fmap. by exists b.
Qed.
Lemma left_join_keeps {A B} (on : A → B → bool) l r a : a ∈ l → ∃ o, (a, o) ∈ left_join on l r.
Proof.
  intros Ha. setoid_rewrite left_join_elem. destruct (List.filter (on a) r) as [|b bs] eqn:E; [by exists None|].
  exists (Some b). split; [done|]. rewrite list_elem_of_In, <- List.filter_In, E. by left.
Qed.

(** The joins keep the operations. *)
Lemma eth_ops_operations db eth o : o ∈ t_operations (cd_state db) ↔ ∃ h, (o, h) ∈ eth_ops db eth.
Proof.
  unfold eth_ops. setoid_rewrite list_elem_of_In. setoid_rewrite in_concat. setoid_rewrite <- list_elem_of_In.
  setoid_rewrite list_elem_of_fmap. split.
  - intros Ho. destruct (left_join_keeps (λ o b, bd_op_id b =? so_id o) _ (eth_ops_binding eth) o Ho) as [[b|] Hb].
    + destruct (left_join_keeps (λ b h, th_eth_op_id h =? bd_eth_op_id b) [b] (eth_tx_hashes eth) b ltac:(left)) as [h Hh].
      eexists _, _. split; [by exists (o, Some b)|]. cbn. rewrite list_elem_of_fmap. by exists (b, h).
    + eexists _, _. split; [by exists (o, None)|]. left.
  - intros (h & x & ([o' b] & -> & Hb) & Hin). apply left_join_elem in Hb as [Ho' _]. cbn in Hin.
    destruct b as [b|]; [|by apply list_elem_of_singleton in Hin as [= -> _]].
    apply list_elem_of_fmap in Hin as (q & [= -> _] & _). done.
Qed.

Definition has_operation (action : ActionType) (n : Z) db : bool :=
  existsb (λ o, (so_block_number o =? n) && bool_decide (so_action_type o = ActionType_to_string action)) (t_operations (cd_state db)).
Definition has_block (n : Z) db : bool := existsb (λ b, sb_number b =? n) (t_blocks (cd_state db)).

Lemma eth_ops_action db eth action n :
  has_operation action n db = true ↔ ∃ v, v ∈ eth_ops db eth ∧ is_action action n v = true.
Proof.
  unfold has_operation. rewrite List.existsb_exists. setoid_rewrite <- list_elem_of_In. split.
  - intros (o & [h Ho]%(eth_ops_operations db eth) & E). by exists (o, h).
  - intros ([o h] & Ho & E). exists o. split; [|done]. apply (eth_ops_operations db eth). by exists h.
Qed.

(** A stored block has a row when its commitment is stored, and a time of verification when its
    verification is. *)
Lemma block_rows_spec db eth r :
  r ∈ block_rows operation_time db eth →
  has_block (bd_block_number r) db = true ∧ has_operation COMMIT (bd_block_number r) db = true ∧
  bool_decide (is_Some (bd_verified_at r)) = has_operation VERIFY (bd_block_number r) db.
Proof.
  unfold block_rows. rewrite list_elem_of_In, in_concat. setoid_rewrite <- list_elem_of_In. intros (x & Hx & Hr).
  apply list_elem_of_fmap in Hx as (b & -> & Hb). apply list_elem_of_fmap in Hr as ([v o] & -> & Hv). cbn.
  apply left_join_elem in Hv as [Hv Ho]. rewrite list_elem_of_In, List.filter_In, <- list_elem_of_In in Hv. destruct Hv as [Hv Hc].
  split; [unfold has_block; rewrite List.existsb_exists; exists b; rewrite <- list_elem_of_In; split; [done|lia]|].
  split; [apply (eth_ops_action db eth); by exists v|]. destruct o as [w|]; cbn.
  - transitivity true; [done|]. symmetry. apply (eth_ops_action db eth). by exists w.
  - transitivity false; [done|]. symmetry. apply not_true_iff_false. rewrite (eth_ops_action db eth).
    intros (w & Hw & Hver). assert (w ∈ []) as Hn; [|by apply not_elem_of_nil in Hn].
    rewrite <- Ho, list_elem_of_In, List.filter_In, <- list_elem_of_In. done.
Qed.
Lemma block_rows_exist db eth n :
  has_block n db = true → has_operation COMMIT n db = true → ∃ r, r ∈ block_rows operation_time db eth ∧ bd_block_number r = n.
Proof.
  unfold has_block. rewrite List.existsb_exists. intros (b & Hb & Hn) (v & Hv & Hc)%(eth_ops_action db eth).
  assert (sb_number b = n) as Hn' by lia. subst n.
  destruct (left_join_keeps (λ _ v, is_action VERIFY (sb_number b) v) (List.filter (is_action COMMIT (sb_number b)) (eth_ops db eth))
    (eth_ops db eth) v) as [o Ho].
  { by rewrite list_elem_of_In, List.filter_In, <- list_elem_of_In. }
  eexists. split; [|shelve]. unfold block_rows. rewrite list_elem_of_In, in_concat. setoid_rewrite <- list_elem_of_In.
  eexists. split; [apply list_elem_of_fmap; exists b; split; [done|by rewrite list_elem_of_In]|].
  apply list_elem_of_fmap. exists (v, o). split; [done|exact Ho].
  Unshelve. done.
Qed.
End Blocks.

Section Finding.
  Context `{EX : External} {C : Codec} `{HD : !HexDecoder} `{LC : LruCaches}.
  Context (operation_time : Z → Z).
  Implicit Types (db : ChainDb).

Lemma decimal_no_hash n : fits 63 n → try_parse_hex (decimal n) = None.
Proof.
  intros [Hn Hlt]. unfold try_parse_hex.
  assert (∀ k p c, c ∈ p → is_digit c = false → bool_decide (take k (decimal n) = p) = false) as Hp.
  { intros k p c Hc Hd. apply bool_decide_eq_false. intros E. rewrite <- E in Hc.
    apply elem_of_take in Hc as (i & Hc & _). apply list_elem_of_lookup_2 in Hc. by eapply decimal_not_in. }
  rewrite (Hp _ _ 120) by first [done | by left | by right; left]. rewrite (Hp _ _ 115) by first [done | by left | by right; left].
  pose proof (decimal_length 19 n) as Hl. destruct (Nat.eqb_spec (length (decimal n)) 64) as [E|]; [|done]. cbn in Hl. lia.
Qed.
Lemma decimal_parsed n : fits 63 n → parse_i64 (decimal n) = Some n.
Proof.
  intros Hn. pose proof (decimal_digits n (proj1 Hn)) as (Hd & _ & Hne). unfold parse_i64.
  destruct (decimal n) as [|c [|c' l]] eqn:E; [done|by rewrite <- E; apply parse_decimal|].
  apply Forall_cons in Hd as [Hc _]. destruct (Z.eqb_spec c 45) as [->|]; [done|]. rewrite <- E. by apply parse_decimal.
Qed.

(** A block is found by its number exactly when it is stored and committed. *)
Lemma find_block_by_number n db eth :
  fits 63 n →
  match find_block_by_height_or_hash operation_time (decimal n) db eth with
  | Some r => bd_block_number r = n ∧ has_block n db = true ∧ has_operation COMMIT n db = true ∧
              bool_decide (is_Some (bd_verified_at r)) = has_operation VERIFY n db
  | None => has_block n db && has_operation COMMIT n db = false
  end.
Proof.
  intros Hn. unfold find_block_by_height_or_hash. rewrite decimal_no_hash, decimal_parsed by done. cbn [bool_decide].
  rewrite bool_decide_true by done. set (l := List.filter _ _). pose proof (head_order_by (λ r, - bd_block_number r) l) as H.
  destruct (head _) as [r|].
  - unfold l in H. rewrite list_elem_of_In, List.filter_In, <- list_elem_of_In in H. destruct H as [Hr E].
    apply block_rows_spec in Hr. assert (bd_block_number r = n) as <- by lia. tauto.
  - apply not_true_iff_false. rewrite andb_true_iff. intros [Hb Hco].
    destruct (block_rows_exist operation_time db eth n Hb Hco) as (r & Hr & E).
    assert (r ∈ l) as Hin; [|rewrite H in Hin; by apply not_elem_of_nil in Hin].
    unfold l. rewrite list_elem_of_In, List.filter_In, <- list_elem_of_In. split; [done|lia].
Qed.
End Finding.

(** ** Queries through the caches *)
Section Queries.
  Context `{EX : External} {C : Codec} `{HD : !HexDecoder} `{LC : LruCaches} {LL : LruLaws}.
  Context (operation_time : Z → Z).
  Implicit Types (db : ChainDb) (app : RpcApp).

(** Stored, committed, and its verification is stored, confirmed or not. *)
Definition proved_block (n : Z) db : bool := has_block n db && has_operation COMMIT n db && has_operation VERIFY n db.

Lemma existsb_app_true {A} (f : A → bool) l k : existsb f l = true → existsb f (l ++ k) = true.
Proof. intros H. by rewrite List.existsb_app, H. Qed.

Lemma has_operation_grows action n db db' : db_extends db db' → has_operation action n db = true → has_operation action n db' = true.
Proof.
  intros [_ _ (l & k & E & Hl) _ _] H. unfold has_operation in *. rewrite E. apply existsb_app_true.
  rewrite List.existsb_exists in *. destruct H as (o & Ho & Hn). rewrite <- list_elem_of_In in Ho.
  apply list_elem_of_lookup in Ho as (i & Ho). destruct (Forall2_lookup_l _ _ _ _ _ Hl Ho) as (o' & Ho' & E1 & E2 & _).
  exists o'. rewrite <- list_elem_of_In, E1, E2. split; [by eapply list_elem_of_lookup_2|done].
Qed.
Lemma proved_block_grows n db db' : db_extends db db' → proved_block n db = true → proved_block n db' = true.
Proof.
  intros Hext. unfold proved_block. rewrite !andb_true_iff. intros [[Hb Hc] Hv].
  split; [split|]; [|by eapply has_operation_grows..]. destruct (ext_rows _ _ Hext) as [l E]. unfold has_block in *.
  rewrite E. by apply existsb_app_true.
Qed.

(** A cached block has been proved. *)
Definition details_right db (n : Z) (d : BlockDetails) : Prop :=
  is_Some (bd_verified_at d) ∧ proved_block n db = true.

Record rpc_caches_right db app : Prop := {
  rr_prior : cache_valid (prior_right db) (rpc_executed_priority_operations app);
  rr_receipts : cache_valid (receipt_right db) (rpc_transaction_receipts app);
  rr_blocks : cache_valid (λ n d, fits 63 n → details_right db n d) (rpc_blocks_info app);
}.
Lemma rpc_caches_extend db db' app : db_extends db db' → rpc_caches_right db app → rpc_caches_right db' app.
Proof.
  intros Hext [H1 H2 H3]. split; (eapply cache_valid_impl; [|done]); intros k v; [by apply prior_right_extends|by apply receipt_right_extends|].
  intros H Hk. destruct (H Hk) as [Hv Hp]. split; [done|]. by eapply proved_block_grows.
Qed.

(** What the database says about a transaction and a priority operation. *)
Definition tx_info_of db (jobs : ProverTables) (hash : bytes) : TransactionInfoResp :=
  match tx_receipt hash db jobs with
  | Some r => mkTxInfo true (Some (rc_success r)) (rc_fail_reason r) (Some (mkBlockInfo (rc_block_number r) true (rc_verified r)))
  | None => mkTxInfo false None None None
  end.
Definition ethop_info_of db (serial_id : Z) : ETHOpInfoResp :=
  match get_executed_priority_operation serial_id db with
  | Some row => mkOpInfo true (Some (mkBlockInfo (xp_block_number row) true (proved_block (xp_block_number row) db)))
  | None => mkOpInfo false None
  end.

Lemma tx_info_value db jobs eth hash app :
  rpc_caches_right db app →
  ∃ app', tx_info (Some (db, jobs, eth)) hash app = Val (Ok (tx_info_of db jobs hash), app') ∧ rpc_caches_right db app'.
Proof.
  intros [H1 H2 H3]. unfold tx_info, rpc_get_tx_receipt, rpc_access_storage, zoom, mbind, exec_bind.
  cbn [ok_or mbind fallible_bind fst snd]. destruct (cached_receipt db jobs hash _ H2) as (o & c & E & Ho & Hc).
  unfold mbind, fallible_bind in E |- *. rewrite E. exists (set_rpc_receipts c app). split; [|by split]. do 3 f_equal. unfold tx_info_of.
  destruct o as [r|], (tx_receipt hash db jobs) as [r'|]; try done. cbn in Ho. apply (inj Some) in Ho.
  unfold receipt_info in Ho. by injection Ho as -> -> -> _ ->.
Qed.

Lemma block_details_read db jobs eth n app :
  fits 63 n → rpc_caches_right db app →
  ∃ o app', rpc_get_block_info operation_time (Some (db, jobs, eth)) n app = Val (Ok o, app') ∧ rpc_caches_right db app' ∧
    match o with Some b => bool_decide (is_Some (bd_verified_at b)) | None => false end = proved_block n db.
Proof.
  intros Hn [H1 H2 H3]. unfold rpc_get_block_info, rpc_access_storage, zoom. cbn [ok_or mbind fallible_bind fst snd].
  pose proof (find_block_by_number operation_time n db eth Hn) as Hfind.
  set (found := find_block_by_height_or_hash operation_time (decimal n) db eth) in *.
  assert (match found with Some b => bool_decide (is_Some (bd_verified_at b)) | None => false end = proved_block n db) as Hp.
  { unfold proved_block. destruct found as [r|]; [|by rewrite Hfind]. by destruct Hfind as (_ & -> & -> & ->). }
  pose proof (through_cache_spec _ n (Val (Ok found)) (λ block, bool_decide (is_Some (bd_verified_at block))) _ H3) as Hc.
  specialize (Hc ltac:(intros v [= Hv] Hver _; rewrite Hv in Hp; split; [by apply bool_decide_eq_true in Hver|by rewrite <- Hp])).
  destruct (through_cache _ _ _ _) as [[r c]|]; [|done]. destruct Hc as [Hc [[= <-]|(v & -> & Hv)]].
  - exists found, (set_rpc_blocks c app). by split_and!.
  - exists (Some v), (set_rpc_blocks c app). destruct (Hv Hn) as [Hs ->]. split_and!; [done|by split|]. by rewrite bool_decide_true.
Qed.

Lemma ethop_info_value db jobs eth serial_id app :
  rpc_caches_right db app → Forall (λ row, fits 63 (xp_block_number row)) (cd_prior db) →
  ∃ app', ethop_info operation_time (Some (db, jobs, eth)) serial_id app = Val (Ok (ethop_info_of db serial_id), app') ∧
    rpc_caches_right db app'.
Proof.
  intros Hr Hrows. pose proof Hr as [H1 H2 H3]. unfold ethop_info, rpc_get_executed_priority_operation, rpc_access_storage, zoom.
  unfold mbind at 1, exec_bind at 1. cbn [ok_or mbind fallible_bind fst snd].
  destruct (cached_prior db serial_id _ H1) as (c & E & Hc). unfold mbind, fallible_bind in E |- *. rewrite E. unfold ethop_info_of.
  assert (rpc_caches_right db (set_rpc_operations c app)) as Hr' by by split.
  destruct (get_executed_priority_operation serial_id db) as [row|] eqn:Hrow; [|by eexists].
  assert (fits 63 (xp_block_number row)) as Hn.
  { rewrite Forall_forall in Hrows. apply Hrows. unfold get_executed_priority_operation in Hrow.
    destruct (List.filter _ _) as [|x l] eqn:El; [done|]. injection Hrow as ->.
    assert (row ∈ row :: l) as Hin by left. rewrite <- El, list_elem_of_In, List.filter_In, <- list_elem_of_In in Hin. tauto. }
  destruct (block_details_read db jobs eth _ _ Hn Hr') as (o & app' & Eb & Hr2 & Hp).
  unfold exec_bind. rewrite Eb. rewrite Hp. by exists app'.
Qed.
(** Without the database only cached entries are answered. *)
Lemma cached_only {K V} `{EqDecision K} (P : K → V → Prop) k keep (c : Lru K V) e :
  cache_valid P c → match through_cache k (Val (Err e)) keep c with Val (_, c') => cache_valid P c' | Panic _ => False end.
Proof.
  intros H. pose proof (through_cache_spec P k (Val (Err e)) keep c H ltac:(done)) as Hc.
  by destruct (through_cache _ _ _ _) as [[r c']|]; [destruct Hc|].
Qed.
Lemma offline_tx db hash app : rpc_caches_right db app → wp (tx_info None hash) (λ _ app', rpc_caches_right db app') app.
Proof.
  intros [H1 H2 H3]. apply wp_bind, wp_zoom. unfold wp, rpc_access_storage. cbn [ok_or mbind fallible_bind].
  pose proof (cached_only _ hash rc_verified _ "Internal error" H2) as Hc.
  destruct (through_cache _ _ _ _) as [[[] c]|]; [..|done]; by split.
Qed.
Lemma offline_op db id app : rpc_caches_right db app → wp (ethop_info operation_time None id) (λ _ app', rpc_caches_right db app') app.
Proof.
  intros [H1 H2 H3]. apply wp_bind, wp_zoom. unfold wp at 1, rpc_access_storage. cbn [ok_or mbind fallible_bind].
  pose proof (cached_only _ id (λ _, true) _ "Internal error" H1) as Hc.
  destruct (through_cache _ _ _ _) as [[[[row|]|] c]|]; [|by split..|done].
  apply wp_bind, wp_zoom. unfold wp at 1, rpc_access_storage. cbn [ok_or mbind fallible_bind rpc_blocks_info set_rpc_operations].
  pose proof (cached_only _ (xp_block_number row) (λ block, bool_decide (is_Some (bd_verified_at block))) _ "Internal error" H3) as Hc'.
  destruct (through_cache _ _ _ _) as [[[] c']|]; [..|done]; by split.
Qed.

(** The server after some requests, while the database has grown to [db]. *)
Definition block_numbers_ok db : Prop := Forall (λ row, fits 63 (xp_block_number row)) (cd_prior db).
Inductive served : ChainDb → RpcApp → Prop :=
| served_new db size confirmations : served db (RpcApp_new size confirmations)
| served_growth db db' app : served db app → db_extends db db' → served db' app
| served_tx db jobs eth hash app r app' :
    served db app → tx_info (Some (db, jobs, eth)) hash app = Val (r, app') → served db app'
| served_op db jobs eth id app r app' :
    served db app → block_numbers_ok db → ethop_info operation_time (Some (db, jobs, eth)) id app = Val (r, app') → served db app'
| served_offline_tx db hash app r app' : served db app → tx_info None hash app = Val (r, app') → served db app'
| served_offline_op db id app r app' : served db app → ethop_info operation_time None id app = Val (r, app') → served db app'.

Lemma served_right db app : served db app → rpc_caches_right db app.
Proof.
  induction 1 as [db size conf|db db' app _ IH Hext|db jobs eth hash app r app' _ IH E|db jobs eth id app r app' _ IH Hn E
                 |db hash app r app' _ IH E|db id app r app' _ IH E].
  - split; apply cache_valid_new.
  - by eapply rpc_caches_extend.
  - destruct (tx_info_value db jobs eth hash app IH) as (app2 & E2 & H). rewrite E2 in E. by injection E as <- <-.
  - destruct (ethop_info_value db jobs eth id app IH Hn) as (app2 & E2 & H). rewrite E2 in E. by injection E as <- <-.
  - apply (offline_tx db hash) in IH. unfold wp in IH. by rewrite E in IH.
  - apply (offline_op db id) in IH. unfold wp in IH. by rewrite E in IH.
Qed.

(** C32: Whatever requests were served before, also without the database, a transaction and a priority operation
    are answered with what the database says now. A transaction counts as verified when
    the verification of its block is confirmed on Ethereum, a priority operation as soon
    as it is stored. *)
Theorem queries_answered db jobs eth app :
  served db app → block_numbers_ok db →
  (∀ hash, ∃ app', tx_info (Some (db, jobs, eth)) hash app = Val (Ok (tx_info_of db jobs hash), app')) ∧
  (∀ id, ∃ app', ethop_info operation_time (Some (db, jobs, eth)) id app = Val (Ok (ethop_info_of db id), app')).
Proof.
  intros H%served_right Hn. split; intros k.
  - destruct (tx_info_value db jobs eth k app H) as (app' & E & _). by exists app'.
  - destruct (ethop_info_value db jobs eth k app H Hn) as (app' & E & _). by exists app'.
Qed.
End Queries.
