(* ===== verification/TokenHistory.v ===== *)
(** * The history of a token

    [token_info] joins the executed operations with the proofs.  For every database that
    blocks and proofs have been stored in, the history is what the blocks say.  The query
    for the deposit does not order its rows: [first_row] is the database's choice. *)

From S2P Require Import Prelude Bytes Params Externals Primitives Amounts Account Tx Decimal Operations Block EthStorage Storage.
From S2P Require Import ExecLogic BlockStorage Merkle AccountLeaf PlasmaState StateKeeper EthWatch Witness WitnessOps ProverPool.
From S2P Require Import ApiCaches RpcServer.
Open Scope Z_scope.

Lemma omap_ext {A B} (f g : A → option B) (l : list A) : (∀ x, x ∈ l → f x = g x) → omap f l = omap g l.
Proof.
  induction l as [|x l IH]; intros H; [done|]. cbn. rewrite (H x) by left.
  assert (omap f l = omap g l) as E by (apply IH; intros y Hy; apply H; by right). destruct (g x); [f_equal|]; exact E.
Qed.

(** A join with at most one matching row. *)
Lemma left_join_unique {A B} (on : A → B → bool) l r :
  (∀ a, (length (List.filter (on a) r) ≤ 1)%nat) → left_join on l r = (λ a, (a, head (List.filter (on a) r))) <$> l.
Proof.
  intros H. induction l as [|a l IH]; [done|].
  assert (left_join on (a :: l) r = left_join on [a] r ++ left_join on l r) as -> by (unfold left_join; cbn; by rewrite app_nil_r).
  rewrite IH. specialize (H a). unfold left_join. cbn. destruct (List.filter (on a) r) as [|b [|]]; cbn in *; [done..|lia].
Qed.

Section History.
  Context `{EX : External} {C : Codec} `{HD : !HexDecoder} {CL : CodecLaws}.
  Context (priority_op_time : Z → Z) (first_row : ∀ A, list A → option A) (format_date : Z → string).
  Implicit Types (db : ChainDb) (blocks : list (Z * list ExecutedOperations)) (proved : list Z).

(** Blocks and proofs are stored, in any order; the state changes in between. *)
Inductive stored : list (Z * list ExecutedOperations) → list Z → ChainDb → Prop :=
| stored_empty st a b : stored [] [] (mkChainDb st [] a [] b [])
| stored_block blocks proved db n txs db' :
    stored blocks proved db → save_block_transactions n txs db = Val db' → stored (blocks ++ [(n, txs)]) proved db'
| stored_proof blocks proved db n proof db' :
    stored blocks proved db → store_proof n proof db = Val (Ok db') → stored blocks (proved ++ [n]) db'
| stored_state blocks proved db st : stored blocks proved db → stored blocks proved (set_state st db).

(** The entry of an executed operation: a successful transfer or withdrawal of the token. *)
Definition token_transfer (token_id n : Z) (proved : bool) (op : ExecutedOperations) : option TransferHistory :=
  match op with
  | ExTx tx =>
      if et_success tx then
        let entry from to := mkTransferHistory (Some (address_text from)) (address_text to) proved n
          (format_date (et_created_at tx)) (str "0x" ++ hex_encode (FranklinTx_hash (et_tx tx))) in
        match et_tx tx with
        | TxTransfer t => if tr_token_id t =? token_id then Some (entry (tr_from t) (tr_to t)) else None
        | TxWithdraw t => if wd_token_id t =? token_id then Some (entry (wd_from t) (wd_to t)) else None
        | _ => None
        end
      else None
  | ExPriorityOp _ => None
  end.
Definition history_of (token_id : Z) blocks proved : list TransferHistory :=
  concat ((λ b : Z * list ExecutedOperations, omap (token_transfer token_id b.1 (bool_decide (b.1 ∈ proved))) b.2) <$> blocks).

(** A deposit of the token, with its block. *)
Definition token_deposit (token_id n : Z) (op : ExecutedOperations) : option (Z * PriorityOp * Address) :=
  match op with
  | ExPriorityOp op =>
      match epo_op op with
      | OpDeposit d => if dp_token_id (dpo_priority_op d) =? token_id then Some (n, epo_priority_op op, dp_to (dpo_priority_op d)) else None
      | _ => None
      end
  | ExTx _ => None
  end.
Definition token_deposits (token_id : Z) blocks : list (Z * PriorityOp * Address) :=
  concat ((λ b : Z * list ExecutedOperations, omap (token_deposit token_id b.1) b.2) <$> blocks).

(** The entries of the rows. *)
Definition row_transfer (token_id : Z) (is_proved : Z → bool) (row : StoredExecutedTransaction) : option TransferHistory :=
  '(token, from, to) ← tx_fields (xt_tx row);
  if (token =? token_id) && xt_success row then
    Some (mkTransferHistory (Some from) to (is_proved (xt_block_number row)) (xt_block_number row)
            (format_date (xt_created_at row)) (str "0x" ++ hex_encode (xt_tx_hash row)))
  else None.
Definition row_deposit (token_id : Z) (row : StoredExecutedPriorityOperation) : option (Z * bytes * bytes) :=
  match op_from_value (xp_operation row) with
  | Some (OpDeposit op) =>
      if dp_token_id (dpo_priority_op op) =? token_id
      then Some (xp_block_number row, xp_eth_hash row, address_text (dp_to (dpo_priority_op op))) else None
  | _ => None
  end.
Definition deposit_row (d : Z * PriorityOp * Address) : Z * bytes * bytes := (d.1.1, po_eth_hash d.1.2, address_text d.2).

Lemma stored_tx_transfer token_id is_proved id tx n :
  row_transfer token_id is_proved (prepare_stored_tx id tx n) = token_transfer token_id n (is_proved n) (ExTx tx).
Proof.
  unfold row_transfer, prepare_stored_tx, token_transfer. destruct (et_tx tx) as [t|t|t|t] eqn:E; cbn;
    unfold tx_fields; rewrite tx_json; cbn; try (by destruct (et_success tx)).
  - destruct (tr_token_id t =? token_id), (et_success tx); done.
  - destruct (wd_token_id t =? token_id), (et_success tx); done.
Qed.
Lemma stored_op_deposit token_id id op n row :
  prepare_stored_priority_op id op n = Val row →
  row_deposit token_id row = deposit_row <$> token_deposit token_id n (ExPriorityOp op).
Proof.
  unfold prepare_stored_priority_op. intros (acc & _ & [= <-])%outcome_bind_Val. unfold row_deposit, token_deposit. cbn.
  rewrite op_json. destruct (epo_op op); try done. cbn. by destruct (_ =? _).
Qed.

(** What the rows say. *)
Record rows_say blocks proved db : Prop := {
  rs_sorted : StronglySorted (λ a b, xt_id a ≤ xt_id b) (cd_txs db);
  rs_fresh : Forall (λ r, xt_id r < cd_txs_seq db) (cd_txs db);
  rs_txs token_id is_proved : omap (row_transfer token_id is_proved) (cd_txs db) =
    concat ((λ b : Z * list ExecutedOperations, omap (token_transfer token_id b.1 (is_proved b.1)) b.2) <$> blocks);
  rs_prior token_id : omap (row_deposit token_id) (cd_prior db) = deposit_row <$> token_deposits token_id blocks;
  rs_proofs : pf_block_number <$> cd_proofs db = proved;
  rs_unique : NoDup proved;
}.

Lemma concat_snoc_nil {A} (l : list (list A)) : concat (l ++ [[]]) = concat l.
Proof. rewrite concat_app. cbn. apply app_nil_r. Qed.

(** One operation more in the last block. *)
Lemma rows_say_op blocks proved db n txs op txs' :
  rows_say (blocks ++ [(n, txs)]) proved db →
  (match op with
   | ExTx tx => Val (store_executed_operation tx n db)
   | ExPriorityOp op => store_executed_priority_operation op n db
   end) = Val txs' → rows_say (blocks ++ [(n, txs ++ [op])]) proved txs'.
Proof.
  intros [Hs Hf Ht Hp Hpf Hu] E.
  assert (∀ {A} (f : Z → ExecutedOperations → option A), concat ((λ b : Z * list ExecutedOperations, omap (f b.1) b.2) <$> blocks ++ [(n, txs ++ [op])]) =
    concat ((λ b : Z * list ExecutedOperations, omap (f b.1) b.2) <$> blocks ++ [(n, txs)]) ++ option_list (f n op)) as Hsplit.
  { intros A f. rewrite !fmap_app, !concat_app. cbn. rewrite omap_app, !app_nil_r, <- app_assoc. cbn. by destruct (f n op). }
  destruct op as [tx|op].
  - injection E as <-. split; cbn; [..|done|done].
    + apply sorted_snoc; [done|]. eapply Forall_impl; [exact Hf|]. cbn. intros r Hr. unfold prepare_stored_tx. destruct (et_tx tx); cbn; lia.
    + apply Forall_app. split; [eapply Forall_impl; [exact Hf|]; cbn; lia|]. constructor; [|done]. unfold prepare_stored_tx. destruct (et_tx tx); cbn; lia.
    + intros token_id is_proved. etransitivity; [|symmetry; exact (Hsplit _ (λ n, token_transfer token_id n (is_proved n)))].
      rewrite omap_app, Ht. f_equal.
      cbn [omap list_omap]. rewrite stored_tx_transfer. by destruct (token_transfer _ _ _ _).
    + intros token_id. unfold token_deposits. rewrite (Hsplit _ (token_deposit token_id)). cbn. rewrite app_nil_r. apply Hp.
  - unfold store_executed_priority_operation in E. apply outcome_bind_Val in E as (row & Erow & [= <-]). split; cbn; [done|done|..|done|done].
    + intros token_id is_proved. etransitivity; [|symmetry; exact (Hsplit _ (λ n, token_transfer token_id n (is_proved n)))].
      cbn. rewrite app_nil_r. apply Ht.
    + intros token_id. unfold token_deposits. rewrite (Hsplit _ (token_deposit token_id)), omap_app, fmap_app, Hp. f_equal.
      cbn [omap list_omap]. rewrite (stored_op_deposit token_id _ _ _ _ Erow). by destruct (token_deposit _ _ _).
Qed.
Lemma rows_say_txs blocks proved db n txs done_ db' :
  rows_say (blocks ++ [(n, done_)]) proved db → save_block_transactions n txs db = Val db' →
  rows_say (blocks ++ [(n, done_ ++ txs)]) proved db'.
Proof.
  revert db done_. induction txs as [|op txs IH]; intros db done_ H; cbn [save_block_transactions].
  { intros [= <-]. by rewrite app_nil_r. }
  replace (done_ ++ op :: txs) with ((done_ ++ [op]) ++ txs) by (by rewrite <- app_assoc).
  destruct op as [tx|op].
  - apply IH. by eapply rows_say_op.
  - intros (db1 & E & Hdb)%outcome_bind_Val. eapply IH; [|exact Hdb]. by eapply rows_say_op.
Qed.

Lemma stored_rows blocks proved db : stored blocks proved db → rows_say blocks proved db.
Proof.
  induction 1 as [st a b|blocks proved db n txs db' _ IH E|blocks proved db n proof db' _ IH E|blocks proved db st _ IH].
  - split; cbn; try done; constructor.
  - apply (rows_say_txs blocks proved db n txs []); [|done]. destruct IH. split; try done.
    + intros token_id is_proved. rewrite fmap_app. cbn. by rewrite concat_snoc_nil.
    + intros token_id. unfold token_deposits. rewrite fmap_app. cbn. by rewrite concat_snoc_nil.
  - destruct IH as [Hs Hf Ht Hp Hpf Hu]. unfold store_proof in E. destruct (existsb _ _) eqn:Ex; [done|]. injection E as <-.
    split; cbn; try done; [by rewrite fmap_app, Hpf|]. apply NoDup_app. split; [done|]. split; [|apply NoDup_singleton].
    intros x Hx ->%list_elem_of_singleton. rewrite <- not_true_iff_false in Ex. apply Ex, List.existsb_exists.
    rewrite <- Hpf in Hx. apply list_elem_of_fmap in Hx as (p & -> & Hp'). exists p. rewrite <- list_elem_of_In. split; [done|lia].
  - by destruct IH.
Qed.

(** ** The joins *)

Lemma proofs_unique db (n : Z) : NoDup (pf_block_number <$> cd_proofs db) → (length (List.filter (λ p, (pf_block_number p =? n)%Z) (cd_proofs db)) ≤ 1)%nat.
Proof.
  generalize (cd_proofs db). intros l. induction l as [|p l IH]; cbn; [lia|]. intros [Hp Hl]%NoDup_cons.
  destruct (Z.eqb_spec (pf_block_number p) n) as [<-|]; [|by apply IH]. rewrite filter_none; [done|].
  intros q Hq. apply Z.eqb_neq. intros E. apply Hp, list_elem_of_fmap. by exists q.
Qed.
Definition block_proved db (n : Z) : bool := existsb (λ p, pf_block_number p =? n) (cd_proofs db).
Lemma block_proved_head db n :
  bool_decide (is_Some (pf_block_number <$> head (List.filter (λ p, pf_block_number p =? n) (cd_proofs db)))) = block_proved db n.
Proof.
  unfold block_proved. induction (cd_proofs db) as [|p l IH]; [done|]. cbn. by destruct (_ =? _).
Qed.
Lemma proved_elem blocks proved db n : rows_say blocks proved db → block_proved db n = bool_decide (n ∈ proved).
Proof.
  intros [_ _ _ _ <- _]. unfold block_proved. apply eq_true_iff_eq. rewrite List.existsb_exists, bool_decide_eq_true, list_elem_of_fmap.
  setoid_rewrite <- list_elem_of_In. split; intros (p & H1 & H2); exists p; (split; [lia|done] || (split; [done|lia])).
Qed.

Lemma sorted_fmap {A B} (R : A → A → Prop) (R' : B → B → Prop) (f : A → B) l :
  (∀ x y, R x y → R' (f x) (f y)) → StronglySorted R l → StronglySorted R' (f <$> l).
Proof.
  intros HR. induction 1 as [|x l _ IH Hx]; cbn; [constructor|]. constructor; [done|]. apply Forall_fmap.
  eapply Forall_impl; [exact Hx|]. intros y. apply HR.
Qed.

Lemma omap_fmap_compose {A B D} (f : A → B) (g : B → option D) (l : list A) : omap g (f <$> l) = omap (g ∘ f) l.
Proof. induction l as [|x l IH]; [done|]. cbn. unfold compose at 1. destruct (g (f x)); [f_equal|]; exact IH. Qed.
Lemma fmap_omap_compose {A B D} (f : A → option B) (g : B → D) (l : list A) : g <$> omap f l = omap (λ x, g <$> f x) l.
Proof. induction l as [|x l IH]; [done|]. cbn. destruct (f x); cbn; [f_equal|]; exact IH. Qed.

Lemma history_rows blocks proved db token_id :
  rows_say blocks proved db → transfer_history format_date <$> get_transfer_history token_id db = history_of token_id blocks proved.
Proof.
  intros H. pose proof H as [Hs Hf Ht Hp Hpf Hu]. unfold get_transfer_history, with_proofs.
  rewrite left_join_unique by (intros a; apply proofs_unique; by rewrite Hpf).
  rewrite order_by_sorted by (eapply sorted_fmap; [|exact Hs]; done).
  rewrite fmap_omap_compose, omap_fmap_compose. unfold history_of.
  transitivity (omap (row_transfer token_id (block_proved db)) (cd_txs db)).
  - apply omap_ext. intros row _. unfold compose, row_transfer. cbn. destruct (tx_fields (xt_tx row)) as [[[token from] to]|]; [|done]. cbn.
    destruct ((token =? token_id) && xt_success row); [|done]. cbn. unfold transfer_history. cbn. by rewrite block_proved_head.
  - rewrite Ht. f_equal. apply list_fmap_ext. intros i b _. by rewrite (proved_elem _ _ _ _ H).
Qed.

(** A query without [ORDER BY] returns one of its rows, if there are any. *)
Definition returns_a_row : Prop := ∀ A (l : list A), match first_row A l with Some x => x ∈ l | None => l = [] end.

Definition deposit_entry proved (d : Z * PriorityOp * Address) (tr : TransferOperation) : Prop :=
  ∃ time, transfer_history format_date tr =
    mkTransferHistory None (address_text d.2) (bool_decide (d.1.1 ∈ proved)) d.1.1 (format_date time)
      (str "0x" ++ hex_encode (hex_encode (po_eth_hash d.1.2))).

Lemma deposit_rows blocks proved db token_id :
  rows_say blocks proved db →
  Forall2 (deposit_entry proved) (token_deposits token_id blocks)
    (omap (deposit_of_row priority_op_time token_id) (with_proofs xp_block_number (cd_prior db) db)).
Proof.
  intros H. pose proof H as [Hs Hf Ht Hp Hpf Hu]. unfold with_proofs.
  rewrite left_join_unique by (intros a; apply proofs_unique; by rewrite Hpf). rewrite omap_fmap_compose.
  specialize (Hp token_id). revert Hp. generalize (token_deposits token_id blocks). induction (cd_prior db) as [|row l IH]; intros ds.
  { destruct ds; [constructor|done]. }
  cbn [omap list_omap]. unfold row_deposit at 1, compose at 1, deposit_of_row at 1. cbn [fst snd].
  destruct (op_from_value (xp_operation row)) as [[]|]; try exact (IH ds). destruct (_ =? token_id); [|exact (IH ds)].
  destruct ds as [|d ds]; [done|]. intros [= E1 E2 E3 E]. constructor; [|by apply IH].
  exists (priority_op_time (xp_id row)). unfold transfer_history. cbn [tf_from tf_to tf_proof_block_number tf_block_number tf_created_at tf_tx_hash].
  unfold address_text. by rewrite block_proved_head, E1, E2, E3, (proved_elem _ _ _ _ H).
Qed.

Lemma initial_deposit_rows blocks proved db token_id :
  returns_a_row → rows_say blocks proved db →
  match get_initial_deposit priority_op_time first_row token_id db with
  | None => token_deposits token_id blocks = []
  | Some tr => ∃ d, d ∈ token_deposits token_id blocks ∧ deposit_entry proved d tr
  end.
Proof.
  intros Hrow H. pose proof (deposit_rows _ _ _ token_id H) as Hd. unfold get_initial_deposit.
  specialize (Hrow _ (omap (deposit_of_row priority_op_time token_id) (with_proofs xp_block_number (cd_prior db) db))).
  destruct (first_row _ _) as [tr|].
  - apply list_elem_of_lookup in Hrow as (i & Hi). destruct (Forall2_lookup_r _ _ _ _ _ Hd Hi) as (d & Hdi & He).
    exists d. split; [by eapply list_elem_of_lookup_2|done].
  - rewrite Hrow in Hd. by apply Forall2_nil_inv_r in Hd.
Qed.

(** C33: The history of a token is one of its deposits, if it has any (the query does not say which), and then, in the
    order of the blocks, exactly its successful transfers and withdrawals, each marked as verified when a proof of
    its block is stored. The hash of the deposit is encoded twice. *)
Theorem token_history_correct blocks proved db jobs eth token_id info :
  returns_a_row → stored blocks proved db →
  token_info priority_op_time first_row format_date (Some (db, jobs, eth)) token_id = Val (Ok info) →
  match token_deposits token_id blocks with
  | [] => tk_history info = history_of token_id blocks proved
  | ds => ∃ n op to time, (n, op, to) ∈ ds ∧ tk_history info =
      mkTransferHistory None (address_text to) (bool_decide (n ∈ proved)) n (format_date time)
        (str "0x" ++ hex_encode (hex_encode (po_eth_hash op))) :: history_of token_id blocks proved
  end.
Proof.
  intros Hrow H%stored_rows Hinfo. unfold token_info, rpc_access_storage in Hinfo. cbn [ok_or mbind fallible_bind fst] in Hinfo.
  destruct (get_current_owner first_row token_id db) as [o|e]; [|done]. injection Hinfo as <-. cbn [tk_history].
  rewrite fmap_app, (history_rows _ _ _ _ H). pose proof (initial_deposit_rows _ _ _ token_id Hrow H) as Hd.
  destruct (get_initial_deposit _ _ _ _) as [tr|]; [|by rewrite Hd].
  destruct Hd as ([[n op] to] & Hin & time & Hd). destruct (token_deposits token_id blocks) as [|d ds]; [by apply elem_of_nil in Hin|].
  exists n, op, to, time. split; [done|]. cbn. by rewrite Hd.
Qed.
End History.
