(* ===== verification/Gadgets.v ===== *)
(** * Constraint systems and the gadgets of franklin_crypto

    A circuit is synthesized with the values of an assignment: a number is its field
    element, a [Boolean] its bit.  The state of [Synth] is whether every constraint
    that was added so far is satisfied by the values, [Err] is a [SynthesisError] and
    a failed assertion is a panic.

    The gadgets that the repository takes from [franklin_crypto::circuit] are the
    fields of the class [Gadgets].  [GadgetLaws] states what the circuit relies on:
    [evals m a b] says that [m] gives the value [a], and that the constraints it adds
    are satisfied if and only if [b]; [Mono m] that [m] never repairs a violation. *)

From S2P Require Import Prelude Bytes Params Externals Primitives AccountLeaf CircuitTree.
Open Scope Z_scope.

(** ** Synthesis *)

Definition Synth (A : Type) : Type := Exec bool A.

(** [cs.enforce] with the values of both sides. *)
Definition enforce (b : bool) : Synth unit := λ s, Val (Ok tt, s && b).

(** [Option::grab] and [Option::get] of [franklin_crypto::circuit::Assignment] *)
Definition grab {A} (o : option A) : result A :=
  match o with Some a => Ok a | None => Err "AssignmentMissing" end.

(** [AllocatedNum::alloc] and [AllocatedBit::alloc] return the error of the closure.  The value is the one
    that the prover assigns to the variable: an input of the circuit, a value that is an argument of the model because no
    constraint fixes it ([ChunkAdvice] of [Circuit]), or a computed value that the constraint after it enforces. *)
Definition alloc {A} (value : result A) : Synth A := λ s, Val (value, s).

Definition assert_synth (b : bool) (msg : string) : Synth unit := total (assert_that b msg).

(** [for x in l { body }] that collects the values of the body. *)
Fixpoint synth_map {A B} (f : A → Synth B) (l : list A) : Synth (list B) :=
  match l with
  | [] => mret []
  | a :: l => b ← f a; bs ← synth_map f l; mret (b :: bs)
  end.

(** [for x in l { acc = body(acc, x) }] *)
Fixpoint synth_fold {A B} (f : B → A → Synth B) (acc : B) (l : list A) : Synth B :=
  match l with
  | [] => mret acc
  | a :: l => acc ← f acc a; synth_fold f acc l
  end.

Definition evals {A} (m : Synth A) (a : A) (b : bool) : Prop := ∀ s, m s = Val (Ok a, s && b).

Class Mono {A} (m : Synth A) : Prop :=
  mono : ∀ s a, m s = Val (Ok a, true) → s = true.

(** ** The gadgets *)

Class Gadgets `{EX : External} : Type := {
  (** num.rs, expression.rs: [Expression]s are used by their values as well *)
  num_equals : Fr → Fr → Synth bool;
  num_select : Fr → Fr → bool → Synth Fr;
  num_select_ifeq : Fr → Fr → Fr → Fr → Synth Fr;
  num_reverse : Fr → Fr → bool → Synth (Fr * Fr);
  into_bits_le : Fr → Synth (list bool);
  into_bits_le_fixed : Fr → nat → Synth (list bool);
  limit_number_of_bits : Fr → nat → Synth unit;
  add_bool_with_coeff : Fr → bool → Fr → Fr;
  inputize : Fr → Synth unit;
  (** boolean.rs *)
  boolean_and : bool → bool → Synth bool;
  boolean_enforce_equal : bool → bool → Synth unit;
  le_bits_into_le_bytes : list bool → list bool;
  (** rescue.rs, sha256.rs, pedersen_hash.rs, multipack.rs, float_point.rs *)
  rescue_hash_gadget : list Fr → Synth (list Fr);
  pack_into_witness : list bool → Synth (list Fr);
  sha256_gadget : list bool → Synth (list bool);
  parse_with_exponent_le : list bool → nat → nat → Z → Synth Fr;
  RescueSponge : Type;
  sponge_new : RescueSponge;
  sponge_specialize : RescueSponge → Z → Synth RescueSponge;
  sponge_absorb : RescueSponge → list Fr → Synth RescueSponge;
  sponge_squeeze : RescueSponge → Synth (Fr * RescueSponge);
  (** polynomial_lookup.rs, interpolation.rs *)
  generate_powers : Fr → nat → Synth (list Fr);
  do_the_lookup : list Fr → list Fr → Synth Fr;
  interpolate : list (Fr * Fr) → option (list Fr);
  (** ecc.rs over the embedded curve; [Fs] is its scalar field *)
  Fs_NUM_BITS : nat;
  Fs_CAPACITY : nat;
  EdwardsPoint : Type;
  point_x : EdwardsPoint → Fr;
  point_y : EdwardsPoint → Fr;
  spending_key_generator : EdwardsPoint;
  on_curve : EdwardsPoint → bool;
  (** [EdwardsPoint::witness]: the coordinates are assigned by the prover and must satisfy the equation of the curve *)
  point_witness : EdwardsPoint → Synth EdwardsPoint;
  recover_from_y_unchecked : bool → Fr → Synth (EdwardsPoint * bool);
  point_mul : EdwardsPoint → list bool → Synth EdwardsPoint;
  point_add : EdwardsPoint → EdwardsPoint → Synth EdwardsPoint;
  point_double : EdwardsPoint → Synth EdwardsPoint;
  pedersen_hash : list bool → Synth EdwardsPoint;
}.

Definition Fr_NUM_BITS : nat := FR_BIT_WIDTH.

(** The number that an element represents. *)
Definition fr_val `{EX : External} (x : Fr) : Z := le_bits_val (get_bits_le_fixed (fr_repr x) 256).

Class GadgetLaws `{G : Gadgets} : Prop := {
  (** [Fr::NUM_BITS] *)
  fr_num_bits x : fr_val x < 2 ^ Z.of_nat Fr_NUM_BITS;
  num_equals_evals x y : evals (num_equals x y) (fr_eqb x y) true;
  num_select_evals x y c : evals (num_select x y c) (if c then x else y) true;
  num_select_ifeq_evals a b x y : evals (num_select_ifeq a b x y) (if fr_eqb a b then x else y) true;
  num_reverse_evals x y c : evals (num_reverse x y c) (if c then (y, x) else (x, y)) true;
  into_bits_le_evals x : evals (into_bits_le x) (get_bits_le_fixed (fr_repr x) Fr_NUM_BITS) true;
  into_bits_le_fixed_evals x n : (n < Fr_NUM_BITS)%nat →
    evals (into_bits_le_fixed x n) (get_bits_le_fixed (fr_repr x) n) (fr_val x <? 2 ^ Z.of_nat n);
  limit_number_of_bits_evals x n : (n < Fr_NUM_BITS)%nat →
    evals (limit_number_of_bits x n) tt (fr_val x <? 2 ^ Z.of_nat n);
  add_bool_with_coeff_val x b c : add_bool_with_coeff x b c = if b then fr_add x c else x;
  inputize_evals x : evals (inputize x) tt true;
  boolean_and_evals a b : evals (boolean_and a b) (a && b) true;
  boolean_enforce_equal_evals a b : evals (boolean_enforce_equal a b) tt (Bool.eqb a b);
  rescue_hash_evals l : evals (rescue_hash_gadget l) [rescue_hash l] true;
  pack_into_witness_evals bits : evals (pack_into_witness bits) (multipacking bits) true;
  sha256_evals l : Forall is_byte l → evals (sha256_gadget (bytes_into_be_bits l)) (bytes_into_be_bits (sha256 l)) true;
  parse_with_exponent_evals bits e m base : length bits = (e + m)%nat → 1 ≤ base →
    ∃ v, 0 ≤ v ≤ (2 ^ Z.of_nat m - 1) * base ^ (2 ^ Z.of_nat e - 1) ∧
      evals (parse_with_exponent_le bits e m base) (fr_of_uint v) true;
  (** the polynomial through some points has their values *)
  interpolate_lookup (points : list (Z * Z)) :
    NoDup points.*1 → Forall (λ p, fits 8 p.1 ∧ fits 8 p.2) points →
    ∃ coeffs, interpolate ((λ p, (fr_of_uint p.1, fr_of_uint p.2)) <$> points) = Some coeffs ∧
      length coeffs = length points ∧
      ∀ x y, (x, y) ∈ points →
        evals (powers ← generate_powers (fr_of_uint x) (length points); do_the_lookup coeffs powers) (fr_of_uint y) true;
  generate_powers_mono x n :: Mono (generate_powers x n);
  do_the_lookup_mono c p :: Mono (do_the_lookup c p);
  into_bits_le_fixed_mono x n :: Mono (into_bits_le_fixed x n);
  sha256_mono l :: Mono (sha256_gadget l);
  parse_with_exponent_mono l e m b :: Mono (parse_with_exponent_le l e m b);
  sponge_specialize_mono sp n :: Mono (sponge_specialize sp n);
  sponge_absorb_mono sp l :: Mono (sponge_absorb sp l);
  sponge_squeeze_mono sp :: Mono (sponge_squeeze sp);
  point_witness_evals p : evals (point_witness p) p (on_curve p);
  recover_from_y_mono x y :: Mono (recover_from_y_unchecked x y);
  point_mul_mono p l :: Mono (point_mul p l);
  point_add_mono p q :: Mono (point_add p q);
  point_double_mono p :: Mono (point_double p);
  pedersen_hash_mono l :: Mono (pedersen_hash l);
}.
