(* ===== verification/Element.v ===== *)
(** * Elements of the circuit and allocated data
    (core/circuit/src/utils.rs, element.rs, account.rs, allocated_structures.rs)

    A [CircuitElement] is a number with its decomposition into bits; the allocated
    structures are the fields of an operation of the witness as elements. *)

From S2P Require Import Prelude Bytes Params Externals Primitives AccountLeaf CircuitTree Witness Gadgets.
Open Scope Z_scope.

(** ** utils.rs *)

Definition reverse_bytes {A} (bits : list A) : list A := concat (reverse (chunks 8 bits)).

Section Element.
  Context `{EX : External} `{G : !Gadgets}.

Definition multi_and (x : list bool) : Synth bool :=
  synth_fold (λ result bool_x, boolean_and result bool_x) true x.

Definition allocate_sum (a b : Fr) : Synth Fr :=
  sum ← alloc (Ok (fr_add a b));
  _ ← enforce (fr_eqb (fr_add a b) sum);
  mret sum.

(** [for bit in bits { data.add_bool_with_coeff(bit, coeff); coeff.double() }] *)
Fixpoint pack_lc (data_from_lc coeff : Fr) (bits : list bool) : Fr :=
  match bits with
  | [] => data_from_lc
  | bit :: bits => pack_lc (add_bool_with_coeff data_from_lc bit coeff) (fr_add coeff coeff) bits
  end.
Definition pack_bits_to_element (bits : list bool) : Synth Fr :=
  let data_from_lc := pack_lc (fr_of_uint 0) (fr_of_uint 1) bits in
  data_packed ← alloc (Ok data_from_lc);
  _ ← enforce (fr_eqb data_packed data_from_lc);
  mret data_packed.

Definition count_number_of_ones (a : list bool) : Synth Fr :=
  let counter := foldl (λ counter bit, add_bool_with_coeff counter bit (fr_of_uint 1)) (fr_of_uint 0) a in
  result ← alloc (Ok counter);
  _ ← enforce (fr_eqb result counter);
  mret result.

Definition allocate_numbers_vec (audit_path : list (option Fr)) : Synth (list Fr) :=
  synth_map (λ e, alloc (grab e)) audit_path.

Definition allocate_bits_vector (bits : list (option bool)) : Synth (list bool) :=
  synth_map (λ e, alloc (grab e)) bits.

Definition append_packed_public_key (content x_bits y_bits : list bool) : outcome (list bool) :=
  _ ← assert_that (FR_BIT_WIDTH - 1 =? length y_bits)%nat "assertion failed: `(left == right)`";
  _ ← assert_that (1 =? length x_bits)%nat "assertion failed: `(left == right)`";
  Val (content ++ y_bits ++ x_bits).

(** ** element.rs *)

Record CircuitElement : Type := mkElement {
  ce_number : Fr;
  ce_bits_le : list bool;
  ce_length : nat;
}.
Definition get_number (self : CircuitElement) : Fr := ce_number self.
Definition ce_get_bits_le (self : CircuitElement) : list bool := ce_bits_le self.
Definition get_bits_be (self : CircuitElement) : list bool := reverse (ce_bits_le self).

Definition unsafe_empty_of_some_length (zero_num : Fr) (length : nat) : CircuitElement :=
  mkElement zero_num (replicate length false) length.

Definition into_padded_le_bits (self : CircuitElement) (to_length : nat) : outcome (list bool) :=
  let bits := ce_bits_le self in
  _ ← assert_that (length bits <=? to_length)%nat "assertion failed: to_length >= bits.len()";
  Val (vec_resize to_length false bits).

Definition into_padded_be_bits (self : CircuitElement) (to_length : nat) : outcome (list bool) :=
  let bits := ce_bits_le self in
  _ ← assert_that (length bits <=? to_length)%nat "assertion failed: to_length >= bits.len()";
  Val (reverse (vec_resize to_length false bits)).

Definition ce_pad (self : CircuitElement) (n : nat) : outcome CircuitElement :=
  _ ← assert_that (ce_length self <=? n)%nat "assertion failed: self.length <= n";
  _ ← assert_that (n <=? Fr_NUM_BITS)%nat "assertion failed: n <= E::Fr::NUM_BITS as usize";
  Val (mkElement (ce_number self) (vec_resize n false (ce_get_bits_le self)) n).

Definition from_number_with_known_length (number : Fr) (max_length : nat) : Synth CircuitElement :=
  _ ← assert_synth (max_length <=? Fr_NUM_BITS)%nat "assertion failed: max_length <= E::Fr::NUM_BITS as usize";
  bits ← into_bits_le_fixed number max_length;
  mret (mkElement number bits max_length).

Definition from_number (number : Fr) : Synth CircuitElement :=
  bits ← into_bits_le number;
  _ ← assert_synth (length bits =? Fr_NUM_BITS)%nat "assertion failed: `(left == right)`";
  mret (mkElement number bits (length bits)).

Definition from_fe_with_known_length (field_element : result Fr) (max_length : nat) : Synth CircuitElement :=
  _ ← assert_synth (max_length <=? Fr_NUM_BITS)%nat "assertion failed: max_length <= E::Fr::NUM_BITS as usize";
  number ← alloc field_element;
  from_number_with_known_length number max_length.

Definition from_fe (field_element : result Fr) : Synth CircuitElement :=
  number ← alloc field_element;
  from_number number.

Definition from_witness_be_bits (witness_bits : list (option bool)) : Synth CircuitElement :=
  _ ← assert_synth (length witness_bits <=? Fr_NUM_BITS)%nat "assertion failed: witness_bits.len() <= E::Fr::NUM_BITS as usize";
  allocated_bits ← allocate_bits_vector witness_bits;
  let allocated_bits := reverse allocated_bits in
  number ← pack_bits_to_element allocated_bits;
  mret (mkElement number allocated_bits (length allocated_bits)).

Definition from_expression_padded (expr : Fr) : Synth CircuitElement :=
  bits ← into_bits_le expr;
  let bits := vec_resize Fr_NUM_BITS false bits in
  number ← pack_bits_to_element bits;
  mret (mkElement number bits Fr_NUM_BITS).

(** The length is that of the field, however many bits are given. *)
Definition from_le_bits (bits : list bool) : Synth CircuitElement :=
  _ ← assert_synth (length bits <=? Fr_NUM_BITS)%nat "assertion failed: bits.len() <= E::Fr::NUM_BITS as usize";
  number ← pack_bits_to_element bits;
  mret (mkElement number bits Fr_NUM_BITS).

Definition enforce_length (self : CircuitElement) : Synth unit :=
  number_repacked ← pack_bits_to_element (ce_bits_le self);
  enforce (fr_eqb (ce_number self) number_repacked).

Definition select_if_eq (a b : Fr) (x y : CircuitElement) : Synth CircuitElement :=
  _ ← assert_synth (ce_length x <=? Fr_NUM_BITS)%nat "assertion failed: x.length <= E::Fr::NUM_BITS as usize";
  _ ← assert_synth (ce_length x =? ce_length y)%nat "assertion failed: `(left == right)`";
  selected_number ← num_select_ifeq a b (get_number x) (get_number y);
  from_number_with_known_length selected_number (ce_length x).

Definition conditionally_select (x y : CircuitElement) (condition : bool) : Synth CircuitElement :=
  _ ← assert_synth (ce_length x <=? Fr_NUM_BITS)%nat "assertion failed: x.length <= E::Fr::NUM_BITS as usize";
  _ ← assert_synth (ce_length x =? ce_length y)%nat "assertion failed: `(left == right)`";
  selected_number ← num_select (get_number x) (get_number y) condition;
  from_number_with_known_length selected_number (ce_length x).

Definition conditionally_select_with_number_strict (x : Fr) (y : CircuitElement) (condition : bool) : Synth CircuitElement :=
  selected_number ← num_select x (get_number y) condition;
  from_number_with_known_length selected_number (ce_length y).

Definition ce_equals (x y : CircuitElement) : Synth bool := num_equals (get_number x) (get_number y).

Record CircuitPubkey : Type := mkCircuitPubkey {
  cp_x : CircuitElement;
  cp_y : CircuitElement;
  cp_hash : CircuitElement;
}.

(** [assert_eq!(sponge_output.len(), 1); sponge_output.pop().expect(..)] *)
Definition single_output (sponge_output : list Fr) : Synth Fr :=
  _ ← assert_synth (length sponge_output =? 1)%nat "assertion failed: `(left == right)`";
  total (unwrap "must get a single element" (last sponge_output)).

Definition CircuitPubkey_from_xy (x y : Fr) : Synth CircuitPubkey :=
  x_ce ← from_number x;
  y_ce ← from_number y;
  sponge_output ← rescue_hash_gadget [x; y];
  hash ← single_output sponge_output;
  hash_bits ← into_bits_le hash;
  element ← from_le_bits (take NEW_PUBKEY_HASH_WIDTH hash_bits);
  mret (mkCircuitPubkey x_ce y_ce element).

Definition CircuitPubkey_from_xy_fe (x y : result Fr) : Synth CircuitPubkey :=
  x_num ← alloc x;
  y_num ← alloc y;
  CircuitPubkey_from_xy x_num y_num.

Definition get_external_packing (self : CircuitPubkey) : outcome (list bool) :=
  x0 ← unwrap "index out of bounds" (ce_get_bits_le (cp_x self) !! 0%nat);
  let y_be := get_bits_be (cp_y self) in
  _ ← assert_that (1 <=? length y_be)%nat "range start index 1 out of range";
  Val (reverse_bytes (x0 :: drop 1 y_be)).

Definition CircuitPubkey_conditionally_select (a b : CircuitPubkey) (condition : bool) : Synth CircuitPubkey :=
  selected_x ← conditionally_select (cp_x a) (cp_x b) condition;
  selected_y ← conditionally_select (cp_y a) (cp_y b) condition;
  selected_hash ← conditionally_select (cp_hash a) (cp_hash b) condition;
  mret (mkCircuitPubkey selected_x selected_y selected_hash).

(** Both comparisons read the first coordinates. *)
Definition CircuitPubkey_equals (a b : CircuitPubkey) : Synth bool :=
  is_equal_x ← num_equals (get_number (cp_x a)) (get_number (cp_x b));
  is_equal_y ← num_equals (get_number (cp_x a)) (get_number (cp_x b));
  boolean_and is_equal_x is_equal_y.

(** ** account.rs *)

Record AccountContent : Type := mkAccountContent {
  ac_nonce : CircuitElement;
  ac_pub_key_hash : CircuitElement;
  ac_address : CircuitElement;
}.
Definition AccountContent_from_witness (witness : AccountWitness) : Synth AccountContent :=
  nonce ← from_fe_with_known_length (grab (aw_nonce witness)) NONCE_BIT_WIDTH;
  pub_key_hash ← from_fe_with_known_length (grab (aw_pub_key_hash witness)) NEW_PUBKEY_HASH_WIDTH;
  address ← from_fe_with_known_length (grab (aw_address witness)) ETH_ADDRESS_BIT_WIDTH;
  mret (mkAccountContent nonce pub_key_hash address).

(** ** allocated_structures.rs *)

Record AllocatedOperationBranch : Type := mkAllocatedBranch {
  ab_account : AccountContent;
  ab_account_audit_path : list Fr;
  ab_account_id : CircuitElement;
  ab_token_audit_path : list Fr;
}.
Definition AllocatedOperationBranch_from_witness (operation_branch : OperationBranch) : Synth AllocatedOperationBranch :=
  account_address ← from_fe_with_known_length (grab (br_address operation_branch)) account_tree_depth;
  account_address ← total (ce_pad account_address ACCOUNT_ID_BIT_WIDTH);
  account_audit_path ← allocate_numbers_vec (account_path (br_witness operation_branch));
  _ ← assert_synth (length account_audit_path =? account_tree_depth)%nat "assertion failed: `(left == right)`";
  account ← AccountContent_from_witness (account_witness (br_witness operation_branch));
  token_audit_path ← allocate_numbers_vec (token_subtree_path (br_witness operation_branch));
  _ ← assert_synth (length token_audit_path =? token_tree_depth)%nat "assertion failed: `(left == right)`";
  mret (mkAllocatedBranch account account_audit_path account_address token_audit_path).

Record AllocatedChunkData : Type := mkChunkData {
  is_chunk_last : bool;
  is_chunk_first : bool;
  chunk_number : Fr;
  cd_tx_type : CircuitElement;
}.

Record AllocatedOperationData : Type := mkOperationData {
  od_fee_packed : CircuitElement;
  od_fee : CircuitElement;
  od_first_sig_msg : CircuitElement;
  od_second_sig_msg : CircuitElement;
  od_third_sig_msg : CircuitElement;
  od_new_pubkey_hash : CircuitElement;
  od_eth_address : CircuitElement;
  od_pub_nonce : CircuitElement;
  od_token_id : CircuitElement;
}.

Definition empty_from_zero (zero_element : Fr) : AllocatedOperationData :=
  let eth_address := unsafe_empty_of_some_length zero_element ETH_ADDRESS_BIT_WIDTH in
  let fee_packed := unsafe_empty_of_some_length zero_element (FEE_EXPONENT_BIT_WIDTH + FEE_MANTISSA_BIT_WIDTH) in
  let fee := unsafe_empty_of_some_length zero_element BALANCE_BIT_WIDTH in
  let first_sig_msg := unsafe_empty_of_some_length zero_element Fr_CAPACITY in
  let second_sig_msg := unsafe_empty_of_some_length zero_element Fr_CAPACITY in
  let third_sig_msg := unsafe_empty_of_some_length zero_element (MAX_CIRCUIT_MSG_HASH_BITS - 2 * Fr_CAPACITY) in
  let new_pubkey_hash := unsafe_empty_of_some_length zero_element NEW_PUBKEY_HASH_WIDTH in
  let pub_nonce := unsafe_empty_of_some_length zero_element NONCE_BIT_WIDTH in
  let token_id := unsafe_empty_of_some_length zero_element TOKENID_BIT_WIDTH in
  mkOperationData fee_packed fee first_sig_msg second_sig_msg third_sig_msg new_pubkey_hash eth_address pub_nonce token_id.

Definition AllocatedOperationData_from_witness (op : CircuitOperation) : Synth AllocatedOperationData :=
  eth_address ← from_fe_with_known_length (grab (arg_eth_address (op_args op))) ETH_ADDRESS_BIT_WIDTH;
  fee_packed ← from_fe_with_known_length (grab (arg_fee (op_args op))) (FEE_EXPONENT_BIT_WIDTH + FEE_MANTISSA_BIT_WIDTH);
  fee_parsed ← parse_with_exponent_le (ce_get_bits_le fee_packed) FEE_EXPONENT_BIT_WIDTH FEE_MANTISSA_BIT_WIDTH 10;
  fee ← from_number_with_known_length fee_parsed BALANCE_BIT_WIDTH;
  first_sig_msg ← from_fe_with_known_length (grab (first_sig_msg op)) Fr_CAPACITY;
  second_sig_msg ← from_fe_with_known_length (grab (second_sig_msg op)) Fr_CAPACITY;
  third_sig_msg ← from_fe_with_known_length (grab (third_sig_msg op)) (MAX_CIRCUIT_MSG_HASH_BITS - 2 * Fr_CAPACITY);
  new_pubkey_hash ← from_fe_with_known_length (grab (arg_new_pub_key_hash (op_args op))) NEW_PUBKEY_HASH_WIDTH;
  pub_nonce ← from_fe_with_known_length (grab (arg_pub_nonce (op_args op))) NONCE_BIT_WIDTH;
  token_id ← from_fe_with_known_length (grab (arg_token_id (op_args op))) TOKENID_BIT_WIDTH;
  mret (mkOperationData fee_packed fee first_sig_msg second_sig_msg third_sig_msg new_pubkey_hash eth_address pub_nonce token_id).
End Element.
