(* ===== verification/CircuitSignature.v ===== *)
(** * The signature gadgets (core/circuit/src/signature.rs)

    The public key and the point [R] of a signature are recovered from packed bits;
    whether that was possible is a bit of the result and no constraint.  The
    signature is a Schnorr signature on the Rescue hash of the serialized
    transaction. *)

From S2P Require Import Prelude Bytes Params Externals Primitives Operations AccountLeaf CircuitTree Witness Gadgets Element.
Open Scope Z_scope.

Definition MAX_SIGN_MESSAGE_BIT_WIDTH : nat := 256.

(** [bits.resize(FR_BIT_WIDTH_PADDED, Boolean::constant(false))] *)
Definition padded_to_256 (bits : list bool) : list bool := vec_resize FR_BIT_WIDTH_PADDED false bits.

Section Signature.
  Context `{EX : External} `{G : !Gadgets}.

(** [franklin_crypto::circuit::baby_eddsa::EddsaSignature] *)
Record EddsaSignature : Type := mkEddsaSignature {
  eddsa_r : EdwardsPoint;
  eddsa_s : Fr;
  eddsa_pk : EdwardsPoint;
}.

Record AllocatedSignatureData : Type := mkAllocatedSignature {
  asd_eddsa : EddsaSignature;
  is_verified : bool;
  sig_r_y_bits : list bool;
  sig_r_x_bit : bool;
  sig_s_bits : list bool;
}.
Definition get_packed_r (self : AllocatedSignatureData) : list bool :=
  reverse_bytes (sig_r_x_bit self :: sig_r_y_bits self).

Record AllocatedSignerPubkey : Type := mkSignerPubkey {
  sk_pubkey : CircuitPubkey;
  sk_point : EdwardsPoint;
  is_correctly_unpacked : bool;
  sk_r_y_bits : list bool;
  sk_r_x_bit : bool;
}.

Definition unpack_point_if_possible (packed_key : list (option bool)) : Synth AllocatedSignerPubkey :=
  _ ← assert_synth (length packed_key =? FR_BIT_WIDTH_PADDED)%nat "assertion failed: `(left == right)`";
  let packed_key_bits_correct_order := reverse_bytes packed_key in
  bit ← total (unwrap "index out of bounds" (packed_key_bits_correct_order !! 0%nat));
  r_x_bit ← alloc (grab bit);
  let witness_length := length packed_key in
  let start_of_y := (witness_length - Fr_NUM_BITS)%nat in
  y_bits ← total (slice packed_key_bits_correct_order start_of_y (length packed_key_bits_correct_order));
  r_y ← from_witness_be_bits y_bits;
  recovered ← recover_from_y_unchecked r_x_bit (get_number r_y);
  let '(r_recovered, is_r_correct) := recovered in
  pubkey ← CircuitPubkey_from_xy (point_x r_recovered) (point_y r_recovered);
  mret (mkSignerPubkey pubkey r_recovered is_r_correct (get_bits_be r_y) r_x_bit).

Definition is_not_small_order (point : EdwardsPoint) : Synth bool :=
  tmp ← point_double point;
  tmp ← point_double tmp;
  tmp ← point_double tmp;
  is_zero ← num_equals (point_x tmp) (fr_of_uint 0);
  mret (negb is_zero).

Definition verify_schnorr_relationship (signature : EddsaSignature) (fs_challenge : list bool) (generator : EdwardsPoint)
    (max_message_len : nat) : Synth bool :=
  _ ← assert_synth (length fs_challenge <=? max_message_len * 8)%nat
        "assertion failed: fs_challenge.len() <= max_message_len * 8";
  scalar_bits ← into_bits_le_fixed (eddsa_s signature) Fs_NUM_BITS;
  sb ← point_mul generator scalar_bits;
  r_is_not_small_order ← is_not_small_order (eddsa_r signature);
  pk_mul_hash ← point_mul (eddsa_pk signature) fs_challenge;
  rhs ← point_add pk_mul_hash (eddsa_r signature);
  is_x_correct ← num_equals (point_x rhs) (point_x sb);
  is_y_correct ← num_equals (point_y rhs) (point_y sb);
  multi_and [r_is_not_small_order; is_x_correct; is_y_correct].

(** The message padded to 256 bits. *)
Definition padded_message (sig_data_bits : list bool) : Synth (list bool) :=
  _ ← assert_synth (length sig_data_bits <=? MAX_SIGN_MESSAGE_BIT_WIDTH)%nat "Signature message len is too big";
  mret (vec_resize MAX_SIGN_MESSAGE_BIT_WIDTH false sig_data_bits).

(** The first coordinates of the key and of [R] and the message, padded to 768 bits. *)
Definition challenge_input (sig_data_bits : list bool) (signature : EddsaSignature) : Synth (list bool) :=
  sig_data_bits ← padded_message sig_data_bits;
  let sig_data_bits := le_bits_into_le_bytes sig_data_bits in
  pk_x_serialized ← into_bits_le_fixed (point_x (eddsa_pk signature)) FR_BIT_WIDTH;
  r_x_serialized ← into_bits_le_fixed (point_x (eddsa_r signature)) FR_BIT_WIDTH;
  let hash_input :=
    le_bits_into_le_bytes (padded_to_256 pk_x_serialized) ++ le_bits_into_le_bytes (padded_to_256 r_x_serialized)
    ++ sig_data_bits in
  mret (vec_resize 768 false hash_input).

Definition is_rescue_signature_verified (sig_data_bits : list bool) (signature : EddsaSignature) (generator : EdwardsPoint) :
    Synth bool :=
  hash_input ← challenge_input sig_data_bits signature;
  hash_input ← pack_into_witness hash_input;
  _ ← assert_synth (length hash_input =? 4)%nat "multipacking of FS hash is expected to have length 4";
  sponge ← sponge_specialize sponge_new (Z.of_nat (length hash_input));
  sponge ← sponge_absorb sponge hash_input;
  squeezed ← sponge_squeeze sponge;
  let '(s0, sponge) := squeezed in
  squeezed ← sponge_squeeze sponge;
  let '(s1, sponge) := squeezed in
  s0_bits ← into_bits_le s0;
  s1_bits ← into_bits_le s1;
  let take_bits := Nat.div Fs_CAPACITY 2 in
  s0_low ← total (slice s0_bits 0 take_bits);
  s1_low ← total (slice s1_bits 0 take_bits);
  let bits := s0_low ++ s1_low in
  _ ← assert_synth (length bits =? Fs_CAPACITY)%nat "assertion failed: bits.len() == E::Fs::CAPACITY as usize";
  verify_schnorr_relationship signature bits generator 32.

Definition is_sha256_signature_verified (sig_data_bits : list bool) (signature : EddsaSignature) (generator : EdwardsPoint) :
    Synth bool :=
  hash_input ← challenge_input sig_data_bits signature;
  h_bits ← sha256_gadget hash_input;
  verify_schnorr_relationship signature (le_bits_into_le_bytes h_bits) generator 32.

Definition is_pedersen_signature_verified (sig_data_bits : list bool) (signature : EddsaSignature) (generator : EdwardsPoint) :
    Synth bool :=
  sig_data_bits ← padded_message sig_data_bits;
  pk_x_serialized ← into_bits_le (point_x (eddsa_pk signature));
  r_x_serialized ← into_bits_le (point_x (eddsa_r signature));
  let first_round_bits := padded_to_256 pk_x_serialized ++ padded_to_256 r_x_serialized in
  first_round_hash ← pedersen_hash first_round_bits;
  first_round_hash_bits ← into_bits_le (point_x first_round_hash);
  let second_round_bits := padded_to_256 first_round_hash_bits ++ sig_data_bits in
  second_round_hash ← pedersen_hash second_round_bits;
  h_bits ← into_bits_le (point_x second_round_hash);
  verify_schnorr_relationship signature h_bits generator 32.

Definition verify_circuit_signature (op_data : AllocatedOperationData) (signer_key : AllocatedSignerPubkey)
    (signature_data : SignatureData) (generator : EdwardsPoint) : Synth AllocatedSignatureData :=
  let signature_data_r_packed := reverse_bytes (r_packed signature_data) in
  let signature_data_s := reverse_bytes (s_packed signature_data) in
  _ ← assert_synth (length (r_packed signature_data) =? FR_BIT_WIDTH_PADDED)%nat "assertion failed: `(left == right)`";
  let witness_length := length signature_data_r_packed in
  bit ← total (unwrap "index out of bounds" (signature_data_r_packed !! 0%nat));
  r_x_bit ← alloc (grab bit);
  let start_of_y := (witness_length - Fr_NUM_BITS)%nat in
  y_bits ← total (slice signature_data_r_packed start_of_y witness_length);
  r_y ← from_witness_be_bits y_bits;
  _ ← assert_synth (length (s_packed signature_data) =? FR_BIT_WIDTH_PADDED)%nat "assertion failed: `(left == right)`";
  let witness_length := length signature_data_s in
  let start_of_s := (witness_length - Fr_NUM_BITS)%nat in
  s_bits ← total (slice signature_data_s start_of_s witness_length);
  signature_s ← from_witness_be_bits s_bits;
  recovered ← recover_from_y_unchecked r_x_bit (get_number r_y);
  let '(r_recovered, is_sig_r_correct) := recovered in
  let signature := mkEddsaSignature r_recovered (get_number signature_s) (sk_point signer_key) in
  let serialized_tx_bits :=
    ce_get_bits_le (od_first_sig_msg op_data) ++ ce_get_bits_le (od_second_sig_msg op_data)
    ++ ce_get_bits_le (od_third_sig_msg op_data) in
  _ ← assert_synth (length serialized_tx_bits =? MAX_CIRCUIT_MSG_HASH_BITS)%nat "assertion failed: `(left == right)`";
  input ← pack_into_witness serialized_tx_bits;
  sponge_output ← rescue_hash_gadget input;
  sig_msg ← single_output sponge_output;
  sig_msg_bits ← into_bits_le sig_msg;
  let sig_msg_bits := vec_resize 256 false sig_msg_bits in
  is_sig_verified ← is_rescue_signature_verified sig_msg_bits signature generator;
  is_signature_correctly_verified ← multi_and [is_sig_verified; is_sig_r_correct; is_correctly_unpacked signer_key];
  sig_r_y_bits ← total (into_padded_be_bits r_y (FR_BIT_WIDTH_PADDED - 1));
  sig_s_bits ← total (into_padded_be_bits signature_s FR_BIT_WIDTH_PADDED);
  mret (mkAllocatedSignature signature is_signature_correctly_verified sig_r_y_bits r_x_bit sig_s_bits).

Definition verify_signature_message_construction (serialized_tx_bits : list bool) (op_data : AllocatedOperationData) :
    Synth bool :=
  _ ← assert_synth (length serialized_tx_bits <? MAX_CIRCUIT_MSG_HASH_BITS)%nat
        "assertion failed: serialized_tx_bits.len() < franklin_constants::MAX_CIRCUIT_MSG_HASH_BITS";
  let serialized_tx_bits := vec_resize MAX_CIRCUIT_MSG_HASH_BITS false serialized_tx_bits in
  first ← total (split_at Fr_CAPACITY serialized_tx_bits);
  second ← total (split_at Fr_CAPACITY first.2);
  first_sig_part ← pack_bits_to_element first.1;
  second_sig_part ← pack_bits_to_element second.1;
  third_sig_part ← pack_bits_to_element second.2;
  is_first_sig_part_correct ← num_equals first_sig_part (get_number (od_first_sig_msg op_data));
  is_second_sig_part_correct ← num_equals second_sig_part (get_number (od_second_sig_msg op_data));
  is_third_sig_part_correct ← num_equals third_sig_part (get_number (od_third_sig_msg op_data));
  multi_and [is_first_sig_part_correct; is_second_sig_part_correct; is_third_sig_part_correct].
End Signature.
