(* ===== verification/Circuit.v ===== *)
(** * The circuit (core/circuit/src/circuit.rs)

    [synthesize] walks over the chunks of the operations of a block.  Every chunk
    opens one account: the root of the account tree that follows from its data and
    the Merkle paths must be the current root, the operation changes the data and the
    root is computed again.  The methods that take [&mut cur] and [&mut prev] return
    the new values.  Fees are not collected: the vector of fees stays at zero.

    Some variables are allocated with a value that no constraint enforces, so that a
    prover is free to assign another one: they are the fields of [ChunkAdvice], an
    argument of the circuit, and [prover_advice] has the values of the code's closures. *)

From S2P Require Import Prelude Bytes Params Externals Primitives Account Tx Operations Merkle AccountLeaf CircuitTree Witness.
From S2P Require Import Gadgets Element CircuitSignature.
Open Scope Z_scope.

Section Circuit.
  Context `{EX : External} `{G : !Gadgets}.

Definition DIFFERENT_TRANSACTIONS_TYPE_NUMBER : nat := 8.

Record FranklinCircuit : Type := mkFranklinCircuit {
  fc_old_root : option Fr;
  fc_block_number : option Fr;
  fc_validator_address : option Fr;
  fc_pub_data_commitment : option Fr;
  fc_operations : list CircuitOperation;
  fc_validator_balances : list (option Fr);
  fc_validator_audit_path : list (option Fr);
  fc_validator_account : AccountWitness;
}.

(** The free variables of a chunk. *)
Record ChunkAdvice : Type := mkChunkAdvice {
  adv_generator : EdwardsPoint; (* the generator of the signatures *)
  adv_tx_code : Fr; (* [tx_code] in [transfer_to_new] *)
  adv_start : Z → Fr; (* the first [result] of [select_pubdata_chunk], in the operation with the given code *)
  adv_data : CircuitOperation → CircuitOperation; (* the values of the first of the two copies of the operation's data *)
}.
(** What the closures of the code assign. *)
Definition prover_advice : ChunkAdvice :=
  mkChunkAdvice spending_key_generator (fr_of_uint TRANSFER_OP_CODE) (λ _, fr_of_uint 0) (λ op, op).

(** ** Functions *)

Definition multi_or (x : list bool) : Synth bool :=
  synth_fold (λ result bool_x, r ← boolean_and (negb result) (negb bool_x); mret (negb r)) false x.

Definition no_nonce_overflow (nonce : Fr) : Synth bool :=
  at_max ← num_equals nonce (fr_of_uint (2 ^ 32 - 1));
  mret (negb at_max).

Definition generate_maxchunk_polynomial : outcome (list Fr) :=
  let get_xy (op_type : Z) (op_chunks : nat) := (fr_of_uint op_type, fr_of_uint (Z.of_nat (op_chunks - 1))) in
  let points := [
    get_xy NOOP_OP_CODE NOOP_CHUNKS; get_xy CLOSE_OP_CODE CLOSE_CHUNKS; get_xy TRANSFER_OP_CODE TRANSFER_CHUNKS;
    get_xy DEPOSIT_OP_CODE DEPOSIT_CHUNKS; get_xy WITHDRAW_OP_CODE WITHDRAW_CHUNKS;
    get_xy TRANSFER_TO_NEW_OP_CODE TRANSFER_TO_NEW_CHUNKS; get_xy FULL_EXIT_OP_CODE FULL_EXIT_CHUNKS;
    get_xy CHANGE_PUBKEY_OP_CODE CHANGE_PUBKEY_CHUNKS] in
  interpolation ← unwrap "must interpolate" (interpolate points);
  _ ← assert_that (length interpolation =? DIFFERENT_TRANSACTIONS_TYPE_NUMBER)%nat "assertion failed: `(left == right)`";
  Val interpolation.

Definition select_pubdata_chunk (start : Fr) (pubdata_bits : list bool) (chunk_number : Fr) (total_chunks : nat) : Synth Fr :=
  _ ← assert_synth (length pubdata_bits =? total_chunks * CHUNK_BIT_WIDTH)%nat "assertion failed: `(left == right)`";
  result ← alloc (Ok start);
  synth_fold (λ result i,
    pub_chunk_bits ← total (slice pubdata_bits (i * CHUNK_BIT_WIDTH) ((i + 1) * CHUNK_BIT_WIDTH));
    current_chunk ← pack_bits_to_element pub_chunk_bits;
    num_select_ifeq (fr_of_uint (Z.of_nat i)) chunk_number current_chunk result) result (seq 0 total_chunks).

Definition select_vec_ifeq (a b : Fr) (x y : list Fr) : Synth (list Fr) :=
  _ ← assert_synth (length x =? length y)%nat "assertion failed: `(left == right)`";
  synth_map (λ p, num_select_ifeq a b p.1 p.2) (zip x y).

Definition hash_single (input : list Fr) : Synth Fr :=
  sponge_output ← rescue_hash_gadget input;
  single_output sponge_output.

Definition allocate_merkle_root (leaf_bits index : list bool) (audit_path : list Fr) : Synth Fr :=
  _ ← assert_synth (length audit_path <=? length index)%nat "assertion failed: index.len() >= audit_path.len()";
  index ← total (slice index 0 (length audit_path));
  leaf_packed ← pack_into_witness leaf_bits;
  cur_hash ← hash_single leaf_packed;
  synth_fold (λ cur_hash p,
    let '(direction_bit, path_element) := p in
    xlr ← num_reverse cur_hash path_element direction_bit;
    hash_single [xlr.1; xlr.2]) cur_hash (zip index audit_path).

Definition calc_account_state_tree_root (balance_root : CircuitElement) : Synth CircuitElement :=
  let state_tree_root_input := get_number balance_root in
  let empty_root_padding := fr_of_uint 0 in
  state_tree_root ← hash_single [state_tree_root_input; empty_root_padding];
  from_number state_tree_root.

(** The bits of the account without its state root. *)
Definition account_content_bits (account : AccountContent) : list bool :=
  ce_get_bits_le (ac_nonce account) ++ ce_get_bits_le (ac_pub_key_hash account) ++ ce_get_bits_le (ac_address account).

(** The leaf of the token tree that is hashed is the token itself. *)
Definition allocate_account_leaf_bits (branch : AllocatedOperationBranch) (token_id : CircuitElement) :
    Synth (list bool * bool * CircuitElement) :=
  let token_data := ce_get_bits_le token_id in
  token_root ← allocate_merkle_root token_data (ce_get_bits_le token_id) (ab_token_audit_path branch);
  let account_data := account_content_bits (ab_account branch) in
  account_data_packed ← pack_bits_to_element account_data;
  is_account_empty ← num_equals account_data_packed (fr_of_uint 0);
  token_subtree_root ← from_number token_root;
  state_tree_root ← calc_account_state_tree_root token_subtree_root;
  state_tree_bits ← total (into_padded_le_bits state_tree_root FR_BIT_WIDTH_PADDED);
  mret (account_data ++ state_tree_bits, is_account_empty, token_subtree_root).

Definition check_account_data (cur : AllocatedOperationBranch) (token_id : CircuitElement) :
    Synth (Fr * bool * CircuitElement) :=
  leaf ← allocate_account_leaf_bits cur token_id;
  let '(cur_account_leaf_bits, is_account_empty, subtree_root) := leaf in
  root ← allocate_merkle_root cur_account_leaf_bits (ce_get_bits_le (ab_account_id cur)) (ab_account_audit_path cur);
  mret (root, is_account_empty, subtree_root).

(** One level of the tree, [hash_vec.chunks(2)]. *)
Fixpoint hash_levels (depth : nat) (hash_vec : list Fr) : Synth (list Fr) :=
  match depth with
  | O => mret hash_vec
  | S depth => new_hashes ← synth_map hash_single (chunks 2 hash_vec); hash_levels depth new_hashes
  end.

Definition calculate_root_from_full_representation_fees (fees : list Fr) : Synth Fr :=
  fee_hashes ← synth_map (λ fee, _ ← limit_number_of_bits fee BALANCE_BIT_WIDTH; hash_single [fee]) fees;
  hash_vec ← hash_levels token_tree_depth fee_hashes;
  _ ← assert_synth (length hash_vec =? 1)%nat "assertion failed: `(left == right)`";
  total (unwrap "index out of bounds" (hash_vec !! 0%nat)).

(** ** Chunks *)

Definition verify_correct_chunking (op : CircuitOperation) (next_chunk_number : Fr) : Synth (Fr * AllocatedChunkData) :=
  tx_type ← from_fe_with_known_length (grab (tx_type op)) TX_TYPE_BIT_WIDTH;
  max_chunks_powers ← generate_powers (get_number tx_type) DIFFERENT_TRANSACTIONS_TYPE_NUMBER;
  max_chunks_last_coeffs ← total generate_maxchunk_polynomial;
  max_chunk ← do_the_lookup max_chunks_last_coeffs max_chunks_powers;
  operation_chunk_number ← alloc (grab (chunk op));
  _ ← enforce (fr_eqb operation_chunk_number next_chunk_number);
  is_chunk_last ← num_equals operation_chunk_number max_chunk;
  is_chunk_first ← num_equals operation_chunk_number (fr_of_uint 0);
  let subseq_chunk := fr_add operation_chunk_number (fr_of_uint 1) in
  next_chunk_number ← num_select (fr_of_uint 0) subseq_chunk is_chunk_last;
  mret (next_chunk_number, mkChunkData is_chunk_last is_chunk_first operation_chunk_number tx_type).

Definition select_branch (first second : AllocatedOperationBranch) (chunk_data : AllocatedChunkData) :
    Synth AllocatedOperationBranch :=
  let deposit_tx_type := fr_of_uint 1 in
  let left_side := fr_of_uint 0 in
  cur_side ← num_select_ifeq (get_number (cd_tx_type chunk_data)) deposit_tx_type left_side (chunk_number chunk_data);
  is_left ← num_equals left_side cur_side;
  nonce ← conditionally_select (ac_nonce (ab_account first)) (ac_nonce (ab_account second)) is_left;
  pub_key_hash ← conditionally_select (ac_pub_key_hash (ab_account first)) (ac_pub_key_hash (ab_account second)) is_left;
  address ← conditionally_select (ac_address (ab_account first)) (ac_address (ab_account second)) is_left;
  account_audit_path ← select_vec_ifeq left_side cur_side (ab_account_audit_path first) (ab_account_audit_path second);
  account_id ← conditionally_select (ab_account_id first) (ab_account_id second) is_left;
  token_audit_path ← select_vec_ifeq left_side cur_side (ab_token_audit_path first) (ab_token_audit_path second);
  mret (mkAllocatedBranch (mkAccountContent nonce pub_key_hash address) account_audit_path account_id token_audit_path).

(** ** Operations *)

(** Assignments to the account of the current branch. *)
Definition set_nonce (cur : AllocatedOperationBranch) (nonce : CircuitElement) : AllocatedOperationBranch :=
  mkAllocatedBranch (mkAccountContent nonce (ac_pub_key_hash (ab_account cur)) (ac_address (ab_account cur)))
    (ab_account_audit_path cur) (ab_account_id cur) (ab_token_audit_path cur).
Definition set_pub_key_hash (cur : AllocatedOperationBranch) (pub_key_hash : CircuitElement) : AllocatedOperationBranch :=
  mkAllocatedBranch (mkAccountContent (ac_nonce (ab_account cur)) pub_key_hash (ac_address (ab_account cur)))
    (ab_account_audit_path cur) (ab_account_id cur) (ab_token_audit_path cur).
Definition set_address (cur : AllocatedOperationBranch) (address : CircuitElement) : AllocatedOperationBranch :=
  mkAllocatedBranch (mkAccountContent (ac_nonce (ab_account cur)) (ac_pub_key_hash (ab_account cur)) address)
    (ab_account_audit_path cur) (ab_account_id cur) (ab_token_audit_path cur).

Definition pubdata_of (bits : list bool) (chunks : nat) : list bool := vec_resize (chunks * CHUNK_BIT_WIDTH) false bits.

Definition withdraw (adv : ChunkAdvice) (cur : AllocatedOperationBranch) (chunk_data : AllocatedChunkData) (op_data : AllocatedOperationData)
    (signer_key : AllocatedSignerPubkey) (ext_pubdata_chunk : Fr) (is_sig_verified : bool) :
    Synth (bool * AllocatedOperationBranch) :=
  let pubdata_bits := pubdata_of (
    get_bits_be (cd_tx_type chunk_data) ++ get_bits_be (ab_account_id cur) ++ get_bits_be (od_token_id op_data)
    ++ get_bits_be (od_fee_packed op_data) ++ get_bits_be (od_eth_address op_data)) WITHDRAW_CHUNKS in
  let serialized_tx_bits :=
    get_bits_be (cd_tx_type chunk_data) ++ get_bits_be (ab_account_id cur) ++ get_bits_be (ac_address (ab_account cur))
    ++ get_bits_be (od_eth_address op_data) ++ get_bits_be (od_token_id op_data) ++ get_bits_be (od_fee_packed op_data)
    ++ get_bits_be (ac_nonce (ab_account cur)) in
  _ ← assert_synth (length serialized_tx_bits =? SIGNED_WITHDRAW_BIT_WIDTH)%nat "assertion failed: `(left == right)`";
  pubdata_chunk ← select_pubdata_chunk (adv_start adv WITHDRAW_OP_CODE) pubdata_bits (chunk_number chunk_data) WITHDRAW_CHUNKS;
  is_first_chunk ← num_equals (chunk_number chunk_data) (fr_of_uint 0);
  is_pubdata_chunk_correct ← num_equals pubdata_chunk ext_pubdata_chunk;
  is_withdraw ← num_equals (get_number (cd_tx_type chunk_data)) (fr_of_uint WITHDRAW_OP_CODE);
  is_serialized_tx_correct ← verify_signature_message_construction serialized_tx_bits op_data;
  is_signed_correctly ← multi_and [is_serialized_tx_correct; is_sig_verified];
  is_sig_correct ← multi_or [is_signed_correctly; negb is_first_chunk];
  is_signer_valid ← ce_equals (cp_hash (sk_pubkey signer_key)) (ac_pub_key_hash (ab_account cur));
  is_base_valid ← multi_and [is_pubdata_chunk_correct; is_withdraw; is_sig_correct; is_signer_valid];
  no_overflow ← no_nonce_overflow (get_number (ac_nonce (ab_account cur)));
  lhs_valid ← multi_and [is_first_chunk; is_base_valid; no_overflow];
  is_ohs_valid ← multi_and [is_base_valid; negb is_first_chunk];
  tx_valid ← multi_or [lhs_valid; is_ohs_valid];
  let updated_nonce := fr_add (get_number (ac_nonce (ab_account cur))) (fr_of_uint 1) in
  nonce ← conditionally_select_with_number_strict updated_nonce (ac_nonce (ab_account cur)) lhs_valid;
  mret (tx_valid, set_nonce cur nonce).

(** The body is commented out; [execute_op] does not call the method. *)
Definition full_exit (cur : AllocatedOperationBranch) (chunk_data : AllocatedChunkData) (op_data : AllocatedOperationData)
    (ext_pubdata_chunk : Fr) : Synth (bool * AllocatedOperationBranch) :=
  total (Panic "not implemented").

Definition deposit (adv : ChunkAdvice) (cur : AllocatedOperationBranch) (chunk_data : AllocatedChunkData) (is_account_empty : bool)
    (op_data : AllocatedOperationData) (ext_pubdata_chunk : Fr) : Synth (bool * AllocatedOperationBranch) :=
  let pubdata_bits := pubdata_of (
    get_bits_be (cd_tx_type chunk_data) ++ get_bits_be (ab_account_id cur) ++ get_bits_be (od_token_id op_data)
    ++ get_bits_be (od_eth_address op_data)) DEPOSIT_CHUNKS in
  is_first_chunk ← num_equals (chunk_number chunk_data) (fr_of_uint 0);
  pubdata_chunk ← select_pubdata_chunk (adv_start adv DEPOSIT_OP_CODE) pubdata_bits (chunk_number chunk_data) DEPOSIT_CHUNKS;
  is_pubdata_chunk_correct ← num_equals pubdata_chunk ext_pubdata_chunk;
  is_deposit ← num_equals (get_number (cd_tx_type chunk_data)) (fr_of_uint DEPOSIT_OP_CODE);
  is_pub_equal_to_previous ← ce_equals (od_eth_address op_data) (ac_address (ab_account cur));
  is_pubkey_incorrect ← boolean_and (negb is_pub_equal_to_previous) (negb is_account_empty);
  let is_pubkey_correct := negb is_pubkey_incorrect in
  tx_valid ← multi_and [is_pubdata_chunk_correct; is_deposit; is_pubkey_correct];
  is_valid_first ← boolean_and tx_valid is_first_chunk;
  address ← conditionally_select (od_eth_address op_data) (ac_address (ab_account cur)) is_valid_first;
  mret (tx_valid, set_address cur address).

Definition change_pubkey_offchain (adv : ChunkAdvice) (cur : AllocatedOperationBranch) (chunk_data : AllocatedChunkData)
    (op_data : AllocatedOperationData) (ext_pubdata_chunk : Fr) : Synth (bool * AllocatedOperationBranch) :=
  let pubdata_bits := pubdata_of (
    get_bits_be (cd_tx_type chunk_data) ++ get_bits_be (ab_account_id cur) ++ get_bits_be (od_new_pubkey_hash op_data)
    ++ get_bits_be (od_eth_address op_data) ++ get_bits_be (od_pub_nonce op_data)) CHANGE_PUBKEY_CHUNKS in
  is_first_chunk ← num_equals (chunk_number chunk_data) (fr_of_uint 0);
  pubdata_chunk ← select_pubdata_chunk (adv_start adv CHANGE_PUBKEY_OP_CODE) pubdata_bits (chunk_number chunk_data) CHANGE_PUBKEY_CHUNKS;
  is_pubdata_chunk_correct ← num_equals pubdata_chunk ext_pubdata_chunk;
  is_change_pubkey_offchain ← num_equals (get_number (cd_tx_type chunk_data)) (fr_of_uint CHANGE_PUBKEY_OP_CODE);
  is_address_correct ← ce_equals (od_eth_address op_data) (ac_address (ab_account cur));
  tx_valid ← multi_and [is_pubdata_chunk_correct; is_change_pubkey_offchain; is_address_correct];
  is_pub_nonce_valid ← ce_equals (ac_nonce (ab_account cur)) (od_pub_nonce op_data);
  no_overflow ← no_nonce_overflow (get_number (ac_nonce (ab_account cur)));
  is_valid_first ← multi_and [tx_valid; is_first_chunk; is_pub_nonce_valid; no_overflow];
  pub_key_hash ← conditionally_select (od_new_pubkey_hash op_data) (ac_pub_key_hash (ab_account cur)) is_valid_first;
  let cur := set_pub_key_hash cur pub_key_hash in
  let updated_nonce := fr_add (get_number (ac_nonce (ab_account cur))) (fr_of_uint 1) in
  nonce ← conditionally_select_with_number_strict updated_nonce (ac_nonce (ab_account cur)) is_valid_first;
  mret (tx_valid, set_nonce cur nonce).

Definition noop (adv : ChunkAdvice) (chunk_data : AllocatedChunkData) (ext_pubdata_chunk : Fr) : Synth bool :=
  let pubdata_bits := pubdata_of [] 1 in
  pubdata_chunk ← select_pubdata_chunk (adv_start adv NOOP_OP_CODE) pubdata_bits (chunk_number chunk_data) 1;
  is_pubdata_chunk_correct ← num_equals pubdata_chunk ext_pubdata_chunk;
  is_noop ← num_equals (get_number (cd_tx_type chunk_data)) (fr_of_uint 0);
  multi_and [is_pubdata_chunk_correct; is_noop].

Definition transfer_to_new (adv : ChunkAdvice) (cur lhs rhs : AllocatedOperationBranch) (chunk_data : AllocatedChunkData)
    (is_account_empty : bool) (op_data : AllocatedOperationData) (signer_key : AllocatedSignerPubkey)
    (ext_pubdata_chunk : Fr) (is_sig_verified : bool) : Synth (bool * AllocatedOperationBranch) :=
  let pubdata_bits := pubdata_of (
    get_bits_be (cd_tx_type chunk_data) ++ get_bits_be (ab_account_id lhs) ++ get_bits_be (od_token_id op_data)
    ++ get_bits_be (od_eth_address op_data) ++ get_bits_be (ab_account_id rhs) ++ get_bits_be (od_fee_packed op_data))
    TRANSFER_TO_NEW_CHUNKS in
  tx_code ← from_fe_with_known_length (Ok (adv_tx_code adv)) 8;
  let serialized_tx_bits :=
    get_bits_be tx_code ++ get_bits_be (ab_account_id lhs) ++ get_bits_be (ac_address (ab_account lhs))
    ++ get_bits_be (od_eth_address op_data) ++ get_bits_be (od_token_id op_data) ++ get_bits_be (od_fee_packed op_data)
    ++ get_bits_be (ac_nonce (ab_account cur)) in
  _ ← assert_synth (length serialized_tx_bits =? SIGNED_TRANSFER_BIT_WIDTH)%nat "assertion failed: `(left == right)`";
  pubdata_chunk ← select_pubdata_chunk (adv_start adv TRANSFER_TO_NEW_OP_CODE) pubdata_bits (chunk_number chunk_data) TRANSFER_TO_NEW_CHUNKS;
  is_pubdata_chunk_correct ← num_equals pubdata_chunk ext_pubdata_chunk;
  is_transfer ← num_equals (get_number (cd_tx_type chunk_data)) (fr_of_uint TRANSFER_TO_NEW_OP_CODE);
  is_first_chunk ← num_equals (chunk_number chunk_data) (fr_of_uint 0);
  no_overflow ← no_nonce_overflow (get_number (ac_nonce (ab_account cur)));
  is_serialized_tx_correct ← verify_signature_message_construction serialized_tx_bits op_data;
  is_signed_correctly ← multi_and [is_serialized_tx_correct; is_sig_verified];
  is_sig_correct ← multi_or [is_signed_correctly; negb is_first_chunk];
  is_signer_valid ← ce_equals (cp_hash (sk_pubkey signer_key)) (ac_pub_key_hash (ab_account lhs));
  lhs_valid ← multi_and [is_pubdata_chunk_correct; is_transfer; is_first_chunk; no_overflow; is_sig_correct; is_signer_valid];
  let updated_nonce := fr_add (get_number (ac_nonce (ab_account cur))) (fr_of_uint 1) in
  nonce ← conditionally_select_with_number_strict updated_nonce (ac_nonce (ab_account cur)) lhs_valid;
  let cur := set_nonce cur nonce in
  is_second_chunk ← num_equals (chunk_number chunk_data) (fr_of_uint 1);
  rhs_valid ← multi_and [is_pubdata_chunk_correct; is_second_chunk; is_transfer; is_account_empty];
  address ← conditionally_select (od_eth_address op_data) (ac_address (ab_account cur)) rhs_valid;
  let cur := set_address cur address in
  is_ohs_valid ← multi_and [is_pubdata_chunk_correct; negb is_first_chunk; negb is_second_chunk; is_transfer];
  is_op_valid ← multi_or [is_ohs_valid; lhs_valid; rhs_valid];
  mret (is_op_valid, cur).

Definition transfer (adv : ChunkAdvice) (cur lhs rhs : AllocatedOperationBranch) (chunk_data : AllocatedChunkData)
    (is_account_empty : bool) (op_data : AllocatedOperationData) (signer_key : AllocatedSignerPubkey)
    (ext_pubdata_chunk : Fr) (is_sig_verified : bool) : Synth (bool * AllocatedOperationBranch) :=
  let pubdata_bits := pubdata_of (
    get_bits_be (cd_tx_type chunk_data) ++ get_bits_be (ab_account_id lhs) ++ get_bits_be (ab_account_id rhs)
    ++ get_bits_be (od_token_id op_data) ++ get_bits_be (od_fee_packed op_data)) TRANSFER_CHUNKS in
  let serialized_tx_bits :=
    get_bits_be (cd_tx_type chunk_data) ++ get_bits_be (ab_account_id lhs) ++ get_bits_be (ac_address (ab_account lhs))
    ++ get_bits_be (ac_address (ab_account rhs)) ++ get_bits_be (od_token_id op_data) ++ get_bits_be (od_fee_packed op_data)
    ++ get_bits_be (ac_nonce (ab_account cur)) in
  _ ← assert_synth (length serialized_tx_bits =? SIGNED_TRANSFER_BIT_WIDTH)%nat "assertion failed: `(left == right)`";
  pubdata_chunk ← select_pubdata_chunk (adv_start adv TRANSFER_OP_CODE) pubdata_bits (chunk_number chunk_data) TRANSFER_CHUNKS;
  is_pubdata_chunk_correct ← num_equals pubdata_chunk ext_pubdata_chunk;
  is_transfer ← num_equals (get_number (cd_tx_type chunk_data)) (fr_of_uint TRANSFER_OP_CODE);
  is_first_chunk ← num_equals (chunk_number chunk_data) (fr_of_uint 0);
  no_overflow ← no_nonce_overflow (get_number (ac_nonce (ab_account cur)));
  is_serialized_tx_correct ← verify_signature_message_construction serialized_tx_bits op_data;
  is_signer_valid ← ce_equals (cp_hash (sk_pubkey signer_key)) (ac_pub_key_hash (ab_account lhs));
  lhs_valid ← multi_and [is_pubdata_chunk_correct; is_transfer; is_first_chunk; is_sig_verified; no_overflow;
                         is_serialized_tx_correct; is_signer_valid];
  let updated_nonce := fr_add (get_number (ac_nonce (ab_account cur))) (fr_of_uint 1) in
  nonce ← conditionally_select_with_number_strict updated_nonce (ac_nonce (ab_account cur)) lhs_valid;
  let cur := set_nonce cur nonce in
  is_chunk_second ← num_equals (chunk_number chunk_data) (fr_of_uint 1);
  is_rhs_valid ← multi_and [is_transfer; is_chunk_second; negb is_account_empty; is_pubdata_chunk_correct];
  neither ← boolean_and (negb lhs_valid) (negb is_rhs_valid);
  mret (negb neither, cur).

(** The arguments must be those of the previous chunk, unless the chunk is the first one. *)
Definition ensure_op_data (op_data prev : AllocatedOperationData) (is_chunk_first : bool) : Synth unit :=
  fee_packed_equal ← ce_equals (od_fee_packed op_data) (od_fee_packed prev);
  eth_address_equal ← ce_equals (od_eth_address op_data) (od_eth_address prev);
  new_pubkey_hash_equal ← ce_equals (od_new_pubkey_hash op_data) (od_new_pubkey_hash prev);
  token_id_equal ← ce_equals (od_token_id op_data) (od_token_id prev);
  is_op_data_equal_to_previous ← multi_and [fee_packed_equal; eth_address_equal; new_pubkey_hash_equal; token_id_equal];
  is_op_data_correct ← multi_or [is_op_data_equal_to_previous; is_chunk_first];
  boolean_enforce_equal is_op_data_correct true.

(** Returns the current branch and the data that the next chunk compares with. *)
Definition execute_op (adv : ChunkAdvice) (cur lhs rhs : AllocatedOperationBranch) (op : CircuitOperation) (chunk_data : AllocatedChunkData)
    (is_account_empty : bool) (ext_pubdata_chunk : Fr) (prev : AllocatedOperationData) :
    Synth (AllocatedOperationBranch * AllocatedOperationData) :=
  generator ← point_witness (adv_generator adv);
  op_data ← AllocatedOperationData_from_witness op;
  _ ← ensure_op_data op_data prev (is_chunk_first chunk_data);
  signer_key ← unpack_point_if_possible (signer_pub_key_packed op);
  signature_data ← verify_circuit_signature op_data signer_key (signature_data op) generator;
  let verified := is_verified signature_data in
  r ← deposit adv cur chunk_data is_account_empty op_data ext_pubdata_chunk;
  let '(deposit_flag, cur) := r in
  r ← transfer adv cur lhs rhs chunk_data is_account_empty op_data signer_key ext_pubdata_chunk verified;
  let '(transfer_flag, cur) := r in
  r ← transfer_to_new adv cur lhs rhs chunk_data is_account_empty op_data signer_key ext_pubdata_chunk verified;
  let '(transfer_to_new_flag, cur) := r in
  r ← withdraw adv cur chunk_data op_data signer_key ext_pubdata_chunk verified;
  let '(withdraw_flag, cur) := r in
  r ← change_pubkey_offchain adv cur chunk_data op_data ext_pubdata_chunk;
  let '(change_pubkey_flag, cur) := r in
  noop_flag ← noop adv chunk_data ext_pubdata_chunk;
  op_valid ← multi_or [deposit_flag; transfer_flag; transfer_to_new_flag; withdraw_flag; change_pubkey_flag; noop_flag];
  _ ← boolean_enforce_equal op_valid true;
  mret (cur, op_data).

(** ** The circuit *)

(** What the loop over the chunks carries. *)
Record ChunkState : Type := mkChunkState {
  cs_rolling_root : Fr;
  cs_next_chunk_number : Fr;
  cs_chunk_data : AllocatedChunkData;
  cs_pub_data_bits : list bool;
  cs_prev : AllocatedOperationData;
}.

Definition process_chunk (adv : ChunkAdvice) (st : ChunkState) (operation : CircuitOperation) : Synth ChunkState :=
  chunking ← verify_correct_chunking operation (cs_next_chunk_number st);
  let '(next_chunk, chunk_data) := chunking in
  operation_pub_data_chunk ← from_fe_with_known_length (grab (pubdata_chunk operation)) CHUNK_BIT_WIDTH;
  let block_pub_data_bits := cs_pub_data_bits st ++ ce_get_bits_le operation_pub_data_chunk in
  lhs ← AllocatedOperationBranch_from_witness (lhs operation);
  rhs ← AllocatedOperationBranch_from_witness (rhs operation);
  current_branch ← select_branch lhs rhs chunk_data;
  op_data ← AllocatedOperationData_from_witness (adv_data adv operation);
  checked ← check_account_data current_branch (od_token_id op_data);
  let '(state_root, is_account_empty, _) := checked in
  _ ← enforce (fr_eqb state_root (cs_rolling_root st));
  executed ← execute_op adv current_branch lhs rhs operation chunk_data is_account_empty
               (get_number operation_pub_data_chunk) (cs_prev st);
  let '(current_branch, prev) := executed in
  checked ← check_account_data current_branch (od_token_id op_data);
  let '(new_state_root, _, _) := checked in
  mret (mkChunkState new_state_root next_chunk chunk_data block_pub_data_bits prev).

(** The root of the tree with the account of the operator and the given tokens. *)
Definition operator_root (validator_account : AccountContent) (validator_balances : list Fr)
    (validator_address_bits : list bool) (validator_audit_path : list Fr) : Synth Fr :=
  operator_balance_root ← calculate_root_from_full_representation_fees validator_balances;
  balance_root ← from_number operator_balance_root;
  operator_state_root ← calc_account_state_tree_root balance_root;
  state_bits ← total (into_padded_le_bits operator_state_root FR_BIT_WIDTH_PADDED);
  let operator_account_data := account_content_bits validator_account ++ state_bits in
  allocate_merkle_root operator_account_data validator_address_bits validator_audit_path.

(** [for i in 0..fees_len { validator_balances[i] = allocate_sum(validator_balances[i], fees[i]) }] *)
Fixpoint apply_fees_to_operator (fees : list Fr) (validator_balances : list Fr) : Synth (list Fr) :=
  match fees, validator_balances with
  | [], balances => mret balances
  | _ :: _, [] => total (Panic "index out of bounds")
  | fee :: fees, balance :: balances =>
      sum ← allocate_sum balance fee;
      rest ← apply_fees_to_operator fees balances;
      mret (sum :: rest)
  end.

(** The chain of hashes over the public data. *)
Definition public_data_hash (block_number validator_address old_root final_root : CircuitElement)
    (block_pub_data_bits : list bool) : Synth Fr :=
  block_number_bits ← total (into_padded_be_bits block_number 256);
  validator_bits ← total (into_padded_be_bits validator_address 256);
  let initial_hash_data := block_number_bits ++ validator_bits in
  _ ← assert_synth (length initial_hash_data =? 512)%nat "assertion failed: `(left == right)`";
  hash_block ← sha256_gadget initial_hash_data;
  old_root_bits ← total (into_padded_be_bits old_root 256);
  hash_block ← sha256_gadget (hash_block ++ old_root_bits);
  final_root_bits ← total (into_padded_be_bits final_root 256);
  hash_block ← sha256_gadget (hash_block ++ final_root_bits);
  hash_block ← sha256_gadget (hash_block ++ block_pub_data_bits);
  pack_bits_to_element (take Fr_CAPACITY (reverse hash_block)).

(** [advice i] are the free variables of the [i]-th chunk. *)
Definition synthesize (advice : nat → ChunkAdvice) (self : FranklinCircuit) : Synth unit :=
  zero ← alloc (Ok (fr_of_uint 0));
  _ ← enforce (fr_eqb zero (fr_of_uint 0));
  let zero_circuit_element := unsafe_empty_of_some_length zero 256 in
  let prev := empty_from_zero zero in
  public_data_commitment ← alloc (grab (fc_pub_data_commitment self));
  _ ← inputize public_data_commitment;
  validator_address_padded ← from_fe_with_known_length (grab (fc_validator_address self)) ACCOUNT_ID_BIT_WIDTH;
  let validator_address_bits := ce_get_bits_le validator_address_padded in
  _ ← assert_synth (length validator_address_bits =? ACCOUNT_ID_BIT_WIDTH)%nat "assertion failed: `(left == right)`";
  validator_balances ← allocate_numbers_vec (fc_validator_balances self);
  validator_audit_path ← allocate_numbers_vec (fc_validator_audit_path self);
  validator_account ← AccountContent_from_witness (fc_validator_account self);
  rolling_root ← alloc (grab (fc_old_root self));
  old_root ← from_number rolling_root;
  let fees := replicate (Z.to_nat total_tokens) (get_number zero_circuit_element) in
  let no_chunk := mkChunkData false false (get_number zero_circuit_element) zero_circuit_element in
  st ← synth_fold (λ st p, process_chunk (advice p.1) st p.2) (mkChunkState rolling_root zero no_chunk [] prev)
         (imap pair (fc_operations self));
  _ ← enforce (is_chunk_last (cs_chunk_data st));
  root_from_operator ← operator_root validator_account validator_balances validator_address_bits validator_audit_path;
  _ ← enforce (fr_eqb root_from_operator (cs_rolling_root st));
  validator_balances ← apply_fees_to_operator fees validator_balances;
  root_from_operator_after_fees ←
    operator_root validator_account validator_balances validator_address_bits validator_audit_path;
  final_root ← from_number root_from_operator_after_fees;
  block_number ← from_fe_with_known_length (grab (fc_block_number self)) BLOCK_NUMBER_BIT_WIDTH;
  final_hash ← public_data_hash block_number validator_address_padded old_root final_root (cs_pub_data_bits st);
  enforce (fr_eqb public_data_commitment final_hash).
End Circuit.
