(* ===== verification/SynthLogic.v ===== *)
(** * Reasoning about synthesis

    [evals m a b] evaluates a gadget exactly; [accepts m Q] says that a synthesis that
    keeps every constraint satisfied gives a value with [Q].  The latter composes
    because no gadget repairs a violation ([Mono]).  The gadgets of element.rs and
    utils.rs are evaluated on elements [elem n x], numbers with their [n] lowest bits. *)

From S2P Require Import Prelude Bytes Params Externals Primitives Account Tx Operations Merkle AccountLeaf.
From S2P Require Import CircuitTree Witness WitnessOps WitnessProofs WitnessLedger Gadgets Element CircuitSignature Circuit.
Open Scope Z_scope.

Definition accepts {A} (m : Synth A) (Q : A → Prop) : Prop := ∀ a, m true = Val (Ok a, true) → Q a.

(** ** Rules *)

Lemma evals_ret {A} (a : A) : evals (mret a) a true.
Proof. intros s. by rewrite andb_true_r. Qed.
Lemma evals_alloc {A} (a : A) : evals (alloc (Ok a)) a true.
Proof. intros s. by rewrite andb_true_r. Qed.
Lemma evals_enforce b : evals (enforce b) tt b.
Proof. done. Qed.
Lemma evals_assert b msg : b = true → evals (assert_synth b msg) tt true.
Proof. intros -> s. by rewrite andb_true_r. Qed.
Lemma evals_total {A} (m : outcome A) a : m = Val a → evals (total m) a true.
Proof. intros -> s. by rewrite andb_true_r. Qed.
Lemma evals_bind {A B} (m : Synth A) (f : A → Synth B) a b c d :
  evals m a b → evals (f a) c d → evals (m ≫= f) c (b && d).
Proof. intros H1 H2 s. unfold mbind, exec_bind. by rewrite H1, H2, andb_assoc. Qed.
(** A gadget whose constraints always hold. *)
Lemma evals_seq {A B} (m : Synth A) (f : A → Synth B) a c d :
  evals m a true → evals (f a) c d → evals (m ≫= f) c d.
Proof. intros H1 H2. by apply (evals_bind m f a true c d). Qed.
Lemma evals_eq {A} (m : Synth A) a b a' b' : evals m a b → a = a' → b = b' → evals m a' b'.
Proof. by intros H -> ->. Qed.
Lemma evals_then {A B} (m : Synth A) (f : A → Synth B) a b c :
  evals m a b → evals (f a) c true → evals (m ≫= f) c b.
Proof. intros H1 H2. eapply evals_eq; [by eapply (evals_bind m f)|done|apply andb_true_r]. Qed.

Lemma evals_accepts {A} (m : Synth A) a b (Q : A → Prop) : evals m a b → (b = true → Q a) → accepts m Q.
Proof. intros H HQ x E. rewrite H in E. injection E as <- E. by apply HQ. Qed.
Lemma accepts_evals {A} (m : Synth A) a b : evals m a b → accepts m (λ x, x = a ∧ b = true).
Proof. intros H. by apply (evals_accepts m a b). Qed.

Lemma accepts_mono {A} (m : Synth A) (P Q : A → Prop) : accepts m P → (∀ a, P a → Q a) → accepts m Q.
Proof. intros H HPQ a E. auto. Qed.
Lemma accepts_ret {A} (a : A) (Q : A → Prop) : Q a → accepts (mret a) Q.
Proof. intros HQ x [= <-]. done. Qed.
Lemma accepts_self {A} (m : Synth A) : accepts m (λ a, m true = Val (Ok a, true)).
Proof. by intros a. Qed.

(** ** Gadgets never repair a violation *)

#[export] Instance ret_mono {A} (a : A) : Mono (mret a).
Proof. intros s x [= _ ->]. done. Qed.
#[export] Instance alloc_mono {A} (r : result A) : Mono (alloc r).
Proof. intros s x [= _ ->]. done. Qed.
#[export] Instance enforce_mono b : Mono (enforce b).
Proof. intros s x [= _ H]. by apply andb_true_iff in H as [-> _]. Qed.
#[export] Instance total_mono {A} (m : outcome A) : Mono (total m).
Proof. intros s x. unfold total, lift, lift_outcome. destruct m; [|done]. by intros [= _ ->]. Qed.
#[export] Instance assert_mono b msg : Mono (assert_synth b msg).
Proof. unfold assert_synth. apply _. Qed.
#[export] Instance bind_mono {A B} (m : Synth A) (f : A → Synth B) : Mono m → (∀ a, Mono (f a)) → Mono (m ≫= f).
Proof.
  intros Hm Hf s b E. unfold mbind, exec_bind in E. destruct (m s) as [[[a|e] s']|] eqn:Em; try done.
  apply Hf in E as ->. by apply Hm in Em.
Qed.
Lemma evals_Mono {A} (m : Synth A) a b : evals m a b → Mono m.
Proof. intros H s x E. rewrite H in E. injection E as _ E. by apply andb_true_iff in E as [-> _]. Qed.

#[export] Instance synth_map_mono {A B} (f : A → Synth B) l : (∀ a, Mono (f a)) → Mono (synth_map f l).
Proof. intros Hf. induction l; cbn [synth_map]; apply _. Qed.
#[export] Instance synth_fold_mono {A B} (f : B → A → Synth B) acc l : (∀ b a, Mono (f b a)) → Mono (synth_fold f acc l).
Proof. intros Hf. revert acc. induction l; intros acc; cbn [synth_fold]; apply _. Qed.

Lemma accepts_bind {A B} (m : Synth A) (f : A → Synth B) (P : A → Prop) (Q : B → Prop) :
  (∀ a, Mono (f a)) → accepts m P → (∀ a, P a → accepts (f a) Q) → accepts (m ≫= f) Q.
Proof.
  intros Hf Hm HQ b E. unfold mbind, exec_bind in E. destruct (m true) as [[[a|e] s']|] eqn:Em; try done.
  assert (s' = true) as -> by (by eapply Hf). by eapply HQ; [apply Hm|].
Qed.
Lemma accepts_step {A B} (m : Synth A) (f : A → Synth B) a b (Q : B → Prop) :
  evals m a b → (∀ a, Mono (f a)) → (b = true → accepts (f a) Q) → accepts (m ≫= f) Q.
Proof. intros Hm Hf HQ. eapply accepts_bind; [done|by apply accepts_evals|]. intros x [-> Hb]. by apply HQ. Qed.

Lemma accepts_assert b msg : accepts (assert_synth b msg) (λ _, b = true).
Proof. intros []. by destruct b. Qed.
Lemma accepts_total {A} (m : outcome A) : accepts (total m) (λ a, m = Val a).
Proof. intros a. unfold total, lift, lift_outcome. destruct m as [x|]; [|done]. by intros [= ->]. Qed.
Lemma accepts_grab {A} (o : option A) (Q : A → Prop) : (∀ a, o = Some a → Q a) → accepts (alloc (grab o)) Q.
Proof. intros HQ a. destruct o as [x|]; [|done]. intros [= ->]. by apply HQ. Qed.
Lemma accepts_map {A B} (f : A → Synth B) (R : A → B → Prop) l :
  (∀ a, Mono (f a)) → (∀ a, accepts (f a) (R a)) → accepts (synth_map f l) (Forall2 R l).
Proof.
  intros Hm Hf. induction l as [|a l IH]; cbn [synth_map]; [by apply accepts_ret|].
  eapply accepts_bind; [apply _|apply Hf|]. intros b Hb. eapply accepts_bind; [apply _|apply IH|].
  intros bs Hbs. apply accepts_ret. by constructor.
Qed.

Lemma evals_fold {A B} (f : B → A → Synth B) (g : B → A → B) acc l :
  (∀ b a, a ∈ l → evals (f b a) (g b a) true) → evals (synth_fold f acc l) (foldl g acc l) true.
Proof.
  revert acc. induction l as [|a l IH]; intros acc H; cbn [synth_fold foldl]; [apply evals_ret|].
  eapply evals_seq; [apply H; by left|]. apply IH. intros. apply H. by right.
Qed.
Lemma evals_map {A B} (f : A → Synth B) (g : A → B) l :
  (∀ a, a ∈ l → evals (f a) (g a) true) → evals (synth_map f l) (g <$> l) true.
Proof.
  induction l as [|a l IH]; intros H; cbn [synth_map]; [apply evals_ret|]. eapply evals_seq; [apply H; by left|].
  eapply evals_seq; [apply IH; intros; apply H; by right|]. apply evals_ret.
Qed.

(** ** Numbers *)
Section Numbers.
  Context `{EX : External} `{EXL : !ExternalLaws}.

Definition bits_n (n : nat) (x : Fr) : list bool := get_bits_le_fixed (fr_repr x) n.
Definition small (n : nat) (x : Fr) : bool := fr_val x <? 2 ^ Z.of_nat n.

Lemma bits_n_length n x : length (bits_n n x) = n.
Proof. apply get_bits_le_fixed_length. Qed.

Lemma fr_val_range x : 0 ≤ fr_val x < 2 ^ 256.
Proof.
  unfold fr_val. pose proof (le_bits_val_bound (get_bits_le_fixed (fr_repr x) 256)) as H.
  by rewrite get_bits_le_fixed_length in H.
Qed.

Lemma fr_bits_256 x : get_bits_le_fixed (fr_repr x) 256 = concat (le_bits 64 <$> fr_repr x).
Proof.
  rewrite get_bits_le_fixed_spec, (proj1 (fr_repr_limbs x)). cbn [Nat.mul Nat.add Nat.sub replicate]. rewrite app_nil_r.
  apply take_ge. by rewrite concat_le_bits_length, (proj1 (fr_repr_limbs x)).
Qed.

(** The bits are those of the number. *)
Lemma bits_n_val n x : (n ≤ 256)%nat → bits_n n x = le_bits n (fr_val x).
Proof.
  intros Hn. unfold bits_n, fr_val. rewrite fr_bits_256, get_bits_le_fixed_spec, (proj1 (fr_repr_limbs x)).
  replace (n - 4 * 64)%nat with 0%nat by lia. cbn [replicate]. rewrite app_nil_r.
  set (l := concat _). assert (length l = 256%nat) as Hl.
  { subst l. by rewrite concat_le_bits_length, (proj1 (fr_repr_limbs x)). }
  rewrite <- (le_bits_val_le l) at 1. rewrite Hl. by apply take_le_bits.
Qed.

Lemma fr_val_uint n : fits 253 n → fr_val (fr_of_uint n) = n.
Proof.
  intros Hn. unfold fr_val. rewrite fr_bits_256. pose proof (fr_uint_bits n Hn) as E.
  rewrite bit_iterator_be, reverse_involutive in E. rewrite E. apply le_bits_le_val.
  unfold fits in Hn. change (Z.of_nat 256) with 256. lia.
Qed.

Lemma concat_le_bits_inj l l' :
  length l = length l' → Forall (fits 64) l → Forall (fits 64) l' →
  concat (le_bits 64 <$> l) = concat (le_bits 64 <$> l') → l = l'.
Proof.
  intros Hl Hf. revert l' Hl. induction Hf as [|x l Hx Hf IH]; intros [|y l'] Hl Hf' E; try done.
  rewrite !fmap_cons in E. cbn [concat] in E. apply app_inj_1 in E as [E1 E2]; [|by rewrite !le_bits_length].
  apply Forall_cons in Hf' as [Hy Hf']. f_equal; [|by apply IH; [injection Hl|..]].
  rewrite <- (le_bits_le_val 64 x), <- (le_bits_le_val 64 y) by done. by rewrite E1.
Qed.

Lemma fr_val_inj x y : fr_val x = fr_val y → x = y.
Proof.
  intros E. assert (get_bits_le_fixed (fr_repr x) 256 = get_bits_le_fixed (fr_repr y) 256) as Eb.
  { fold (bits_n 256 x) (bits_n 256 y). by rewrite !bits_n_val, E. }
  rewrite !fr_bits_256 in Eb. destruct (fr_repr_limbs x) as [Hl Hf], (fr_repr_limbs y) as [Hl' Hf'].
  apply concat_le_bits_inj in Eb; [|by rewrite Hl, Hl'|done..].
  apply (inj Some). by rewrite <- !fr_from_repr_ok, Eb.
Qed.

(** An element below the capacity of the field is the one of its number. *)
Lemma fr_of_val x : fr_val x < 2 ^ 253 → x = fr_of_uint (fr_val x).
Proof. intros H. apply fr_val_inj. rewrite fr_val_uint; [done|]. pose proof (fr_val_range x). split; [lia|done]. Qed.

Lemma small_val n x : small n x = true → 0 ≤ fr_val x < 2 ^ Z.of_nat n.
Proof. intros H. apply Z.ltb_lt in H. pose proof (fr_val_range x). lia. Qed.

Lemma small_of n x : (n ≤ 253)%nat → small n x = true → x = fr_of_uint (fr_val x).
Proof.
  intros Hn H. apply small_val in H. apply fr_of_val.
  assert (2 ^ Z.of_nat n ≤ 2 ^ 253) by (apply Z.pow_le_mono_r; lia). lia.
Qed.

Lemma small_uint n v : (n ≤ 253)%nat → 0 ≤ v < 2 ^ Z.of_nat n → small n (fr_of_uint v) = true.
Proof.
  intros Hn Hv. assert (2 ^ Z.of_nat n ≤ 2 ^ 253) by (apply Z.pow_le_mono_r; lia).
  unfold small. rewrite fr_val_uint by (unfold fits; lia). lia.
Qed.

Lemma bits_n_uint n v : (n ≤ 256)%nat → fits 253 v → bits_n n (fr_of_uint v) = le_bits n v.
Proof. intros Hn Hv. by rewrite bits_n_val, fr_val_uint. Qed.

Lemma fr_add_0_r x : fr_val x < 2 ^ 253 → fr_add x (fr_of_uint 0) = x.
Proof.
  intros H. pose proof (fr_val_range x). rewrite (fr_of_val x H), fr_add_of_uint by lia. by rewrite Z.add_0_r.
Qed.
End Numbers.

(** ** Elements *)
Section Elements.
  Context `{EX : External} `{EXL : !ExternalLaws} `{G : !Gadgets} `{GL : !GadgetLaws}.

Definition elem (n : nat) (x : Fr) : CircuitElement := mkElement x (bits_n n x) n.

Lemma pack_lc_spec data coeff bits : pack_lc data coeff bits = double_and_add data coeff bits.
Proof.
  revert data coeff. induction bits as [|b bits IH]; intros data coeff; [done|]. cbn [pack_lc double_and_add].
  by rewrite add_bool_with_coeff_val, IH.
Qed.
Lemma pack_bits_evals bits : evals (pack_bits_to_element bits) (le_bit_vector_into_field_element bits) true.
Proof.
  unfold pack_bits_to_element. rewrite pack_lc_spec. eapply evals_seq; [apply evals_alloc|].
  eapply evals_then; [|apply evals_ret]. eapply evals_eq; [apply evals_enforce|done|apply fr_eqb_refl].
Qed.
Lemma allocate_sum_evals a b : evals (allocate_sum a b) (fr_add a b) true.
Proof.
  unfold allocate_sum. eapply evals_seq; [apply evals_alloc|]. eapply evals_then; [|apply evals_ret].
  eapply evals_eq; [apply evals_enforce|done|apply fr_eqb_refl].
Qed.

Lemma known_length_evals x n : (n < Fr_NUM_BITS)%nat → evals (from_number_with_known_length x n) (elem n x) (small n x).
Proof.
  intros Hn. unfold from_number_with_known_length. eapply evals_seq; [apply evals_assert, Nat.leb_le; lia|].
  eapply evals_then; [by apply into_bits_le_fixed_evals|]. apply evals_ret.
Qed.
Lemma from_number_evals x : evals (from_number x) (elem Fr_NUM_BITS x) true.
Proof.
  unfold from_number. eapply evals_seq; [apply into_bits_le_evals|]. rewrite get_bits_le_fixed_length.
  eapply evals_seq; [by apply evals_assert|]. apply evals_ret.
Qed.
Lemma from_fe_evals x n : (n < Fr_NUM_BITS)%nat → evals (from_fe_with_known_length (Ok x) n) (elem n x) (small n x).
Proof.
  intros Hn. unfold from_fe_with_known_length. eapply evals_seq; [apply evals_assert, Nat.leb_le; lia|].
  eapply evals_seq; [apply evals_alloc|]. by apply known_length_evals.
Qed.
Lemma from_fe_accepts o n : (n < Fr_NUM_BITS)%nat →
  accepts (from_fe_with_known_length (grab o) n) (λ e, ∃ x, o = Some x ∧ e = elem n x ∧ small n x = true).
Proof.
  intros Hn. destruct o as [x|]; [|intros e; unfold from_fe_with_known_length, mbind, exec_bind; by destruct (_ <=? _)%nat].
  eapply evals_accepts; [by apply from_fe_evals|]. eauto.
Qed.

#[export] Instance pack_bits_mono bits : Mono (pack_bits_to_element bits).
Proof. eapply evals_Mono, pack_bits_evals. Qed.
#[export] Instance num_equals_mono x y : Mono (num_equals x y).
Proof. eapply evals_Mono, num_equals_evals. Qed.
#[export] Instance num_select_mono x y c : Mono (num_select x y c).
Proof. eapply evals_Mono, num_select_evals. Qed.
#[export] Instance num_select_ifeq_mono a b x y : Mono (num_select_ifeq a b x y).
Proof. eapply evals_Mono, num_select_ifeq_evals. Qed.
#[export] Instance num_reverse_mono x y c : Mono (num_reverse x y c).
Proof. eapply evals_Mono, num_reverse_evals. Qed.
#[export] Instance into_bits_le_mono x : Mono (into_bits_le x).
Proof. eapply evals_Mono, into_bits_le_evals. Qed.
#[export] Instance boolean_and_mono a b : Mono (boolean_and a b).
Proof. eapply evals_Mono, boolean_and_evals. Qed.
#[export] Instance boolean_enforce_equal_mono a b : Mono (boolean_enforce_equal a b).
Proof. eapply evals_Mono, boolean_enforce_equal_evals. Qed.
#[export] Instance rescue_hash_mono l : Mono (rescue_hash_gadget l).
Proof. eapply evals_Mono, rescue_hash_evals. Qed.
#[export] Instance pack_into_witness_mono l : Mono (pack_into_witness l).
Proof. eapply evals_Mono, pack_into_witness_evals. Qed.
#[export] Instance point_witness_mono p : Mono (point_witness p).
Proof. eapply evals_Mono, point_witness_evals. Qed.
#[export] Instance inputize_mono x : Mono (inputize x).
Proof. eapply evals_Mono, inputize_evals. Qed.
#[export] Instance from_number_mono x : Mono (from_number x).
Proof. unfold from_number. apply _. Qed.
#[export] Instance known_length_mono x n : Mono (from_number_with_known_length x n).
Proof. unfold from_number_with_known_length. apply _. Qed.
#[export] Instance from_fe_mono r n : Mono (from_fe_with_known_length r n).
Proof. unfold from_fe_with_known_length. apply _. Qed.
#[export] Instance conditionally_select_mono x y c : Mono (conditionally_select x y c).
Proof. unfold conditionally_select. apply _. Qed.
#[export] Instance select_strict_mono x y c : Mono (conditionally_select_with_number_strict x y c).
Proof. unfold conditionally_select_with_number_strict. apply _. Qed.
#[export] Instance ce_equals_mono x y : Mono (ce_equals x y).
Proof. unfold ce_equals. apply _. Qed.

Lemma select_evals n x y c : (n < Fr_NUM_BITS)%nat →
  evals (conditionally_select (elem n x) (elem n y) c) (elem n (if c then x else y)) (small n (if c then x else y)).
Proof.
  intros Hn. unfold conditionally_select. cbn [elem ce_length get_number ce_number].
  eapply evals_seq; [apply evals_assert, Nat.leb_le; lia|]. eapply evals_seq; [apply evals_assert, Nat.eqb_refl|].
  eapply evals_seq; [apply num_select_evals|]. by apply known_length_evals.
Qed.
Lemma select_strict_evals n x y c : (n < Fr_NUM_BITS)%nat →
  evals (conditionally_select_with_number_strict x (elem n y) c) (elem n (if c then x else y)) (small n (if c then x else y)).
Proof.
  intros Hn. unfold conditionally_select_with_number_strict. eapply evals_seq; [apply num_select_evals|].
  by apply known_length_evals.
Qed.
Lemma ce_equals_evals n m x y : evals (ce_equals (elem n x) (elem m y)) (fr_eqb x y) true.
Proof. apply num_equals_evals. Qed.

Lemma multi_and_evals l : evals (multi_and l) (forallb id l) true.
Proof.
  unfold multi_and. eapply evals_eq; [apply (evals_fold _ andb); intros; apply boolean_and_evals| |done].
  assert (∀ acc, foldl andb acc l = acc && forallb id l) as H; [|apply H].
  induction l as [|b l IH]; intros acc; cbn [foldl forallb]; [by rewrite andb_true_r|]. by rewrite IH, andb_assoc.
Qed.
Lemma multi_or_evals l : evals (multi_or l) (existsb id l) true.
Proof.
  unfold multi_or. eapply evals_eq.
  - apply (evals_fold _ orb). intros b a _. eapply evals_seq; [apply boolean_and_evals|].
    eapply evals_eq; [apply evals_ret| |done]. by rewrite <- negb_orb, negb_involutive.
  - assert (∀ acc, foldl orb acc l = acc || existsb id l) as H; [|apply H].
    induction l as [|b l IH]; intros acc; cbn [foldl existsb]; [by rewrite orb_false_r|]. by rewrite IH, orb_assoc.
  - done.
Qed.
#[export] Instance multi_and_mono l : Mono (multi_and l).
Proof. eapply evals_Mono, multi_and_evals. Qed.
#[export] Instance multi_or_mono l : Mono (multi_or l).
Proof. eapply evals_Mono, multi_or_evals. Qed.

Lemma no_nonce_overflow_evals x : evals (no_nonce_overflow x) (negb (fr_eqb x (fr_of_uint (2 ^ 32 - 1)))) true.
Proof. unfold no_nonce_overflow. eapply evals_seq; [apply num_equals_evals|]. apply evals_ret. Qed.
#[export] Instance no_nonce_overflow_mono x : Mono (no_nonce_overflow x).
Proof. eapply evals_Mono, no_nonce_overflow_evals. Qed.

(** ** Hashes and Merkle paths *)

Lemma hash_single_evals l : evals (hash_single l) (rescue_hash l) true.
Proof.
  unfold hash_single, single_output. eapply evals_seq; [apply rescue_hash_evals|].
  eapply evals_seq; [by apply evals_assert|]. by apply evals_total.
Qed.
#[export] Instance hash_single_mono l : Mono (hash_single l).
Proof. eapply evals_Mono, hash_single_evals. Qed.

Definition path_step (cur_hash : Fr) (p : bool * Fr) : Fr :=
  if p.1 then rescue_hash [p.2; cur_hash] else rescue_hash [cur_hash; p.2].
Definition path_root (leaf_bits index : list bool) (audit_path : list Fr) : Fr :=
  foldl path_step (hash_bits leaf_bits) (zip (take (length audit_path) index) audit_path).

Lemma allocate_merkle_root_evals leaf_bits index path :
  (length path ≤ length index)%nat →
  evals (allocate_merkle_root leaf_bits index path) (path_root leaf_bits index path) true.
Proof.
  intros Hl. unfold allocate_merkle_root. eapply evals_seq; [by apply evals_assert, Nat.leb_le|].
  eapply evals_seq; [apply evals_total; unfold slice; rewrite decide_True by lia; done|].
  rewrite Nat.sub_0_r, drop_0. eapply evals_seq; [apply pack_into_witness_evals|].
  eapply evals_seq; [apply hash_single_evals|]. unfold path_root. apply evals_fold. intros h [d e] _.
  eapply evals_seq; [apply num_reverse_evals|]. eapply evals_eq; [apply hash_single_evals|by destruct d|done].
Qed.

Definition state_root_of (token_root : Fr) : Fr := rescue_hash [token_root; fr_of_uint 0].
Lemma calc_state_root_evals n x : evals (calc_account_state_tree_root (elem n x)) (elem Fr_NUM_BITS (state_root_of x)) true.
Proof. unfold calc_account_state_tree_root. eapply evals_seq; [apply hash_single_evals|]. apply from_number_evals. Qed.

(** ** Messages and public data *)

(** The message parts of an operation are those of the given bits. *)
Definition message_parts (bits : list bool) : Fr * Fr * Fr :=
  let bits := vec_resize MAX_CIRCUIT_MSG_HASH_BITS false bits in
  (le_bit_vector_into_field_element (take Fr_CAPACITY bits),
   le_bit_vector_into_field_element (take Fr_CAPACITY (drop Fr_CAPACITY bits)),
   le_bit_vector_into_field_element (drop Fr_CAPACITY (drop Fr_CAPACITY bits))).
Definition message_matches (bits : list bool) (od : AllocatedOperationData) : bool :=
  let '(first, second, third) := message_parts bits in
  fr_eqb first (get_number (od_first_sig_msg od)) && (fr_eqb second (get_number (od_second_sig_msg od))
  && (fr_eqb third (get_number (od_third_sig_msg od)))).

Lemma message_construction_evals bits od :
  (length bits < MAX_CIRCUIT_MSG_HASH_BITS)%nat →
  evals (verify_signature_message_construction bits od) (message_matches bits od) true.
Proof.
  intros Hl. unfold verify_signature_message_construction. eapply evals_seq; [by apply evals_assert, Nat.ltb_lt|].
  cbv zeta. assert (length (vec_resize MAX_CIRCUIT_MSG_HASH_BITS false bits) = MAX_CIRCUIT_MSG_HASH_BITS) as Hlen
    by apply vec_resize_length.
  set (padded := vec_resize _ _ _) in *.
  eapply evals_seq; [apply evals_total; unfold split_at; rewrite decide_True by (rewrite Hlen; cbv; lia); done|].
  cbn [fst snd]. eapply evals_seq.
  { apply evals_total. unfold split_at. rewrite decide_True; [done|]. rewrite length_drop, Hlen. cbv. lia. }
  cbn [fst snd]. do 3 (eapply evals_seq; [apply pack_bits_evals|]). do 3 (eapply evals_seq; [apply num_equals_evals|]).
  eapply evals_eq; [apply multi_and_evals| |done]. unfold message_matches, message_parts. fold padded.
  cbn [forallb]. unfold id. by rewrite andb_true_r.
Qed.
#[export] Instance message_construction_mono bits od : Mono (verify_signature_message_construction bits od).
Proof. unfold verify_signature_message_construction. apply _. Qed.

Definition chunk_bits (bits : list bool) (i : nat) : list bool := take CHUNK_BIT_WIDTH (drop (i * CHUNK_BIT_WIDTH) bits).
(** The chunk of the public data that has the given number; [start] when there is none. *)
Definition selected_chunk (start : Fr) (bits : list bool) (c : Fr) (n : nat) : Fr :=
  foldl (λ result i, if fr_eqb (fr_of_uint (Z.of_nat i)) c then le_bit_vector_into_field_element (chunk_bits bits i) else result)
    start (seq 0 n).

Lemma select_pubdata_chunk_evals start bits c n :
  length bits = (n * CHUNK_BIT_WIDTH)%nat → evals (select_pubdata_chunk start bits c n) (selected_chunk start bits c n) true.
Proof.
  intros Hl. unfold select_pubdata_chunk. eapply evals_seq; [by apply evals_assert, Nat.eqb_eq|].
  eapply evals_seq; [apply evals_alloc|]. apply evals_fold. intros r i Hi. apply elem_of_seq in Hi.
  eapply evals_seq; [|eapply evals_seq; [apply pack_bits_evals|apply num_select_ifeq_evals]].
  apply evals_total. unfold slice. rewrite decide_True by (unfold CHUNK_BIT_WIDTH in *; lia).
  by replace ((i + 1) * CHUNK_BIT_WIDTH - i * CHUNK_BIT_WIDTH)%nat with CHUNK_BIT_WIDTH by lia.
Qed.
#[export] Instance select_pubdata_chunk_mono start bits c n : Mono (select_pubdata_chunk start bits c n).
Proof. unfold select_pubdata_chunk. apply _. Qed.

Lemma selected_chunk_at start bits i n :
  (i < n)%nat → (n ≤ 256)%nat →
  selected_chunk start bits (fr_of_uint (Z.of_nat i)) n = le_bit_vector_into_field_element (chunk_bits bits i).
Proof.
  intros Hi Hn. unfold selected_chunk. induction n as [|n IH]; [lia|]. rewrite seq_S, foldl_app. cbn [foldl Nat.add].
  rewrite fr_eqb_uint by (unfold fits; split; [lia|]; trans 256; [lia|done]).
  destruct (Z.eqb_spec (Z.of_nat n) (Z.of_nat i)) as [E|E].
  - by replace n with i by lia.
  - apply IH; lia.
Qed.
Lemma selected_chunk_none start bits c n :
  (∀ i, (i < n)%nat → c ≠ fr_of_uint (Z.of_nat i)) → selected_chunk start bits c n = start.
Proof.
  unfold selected_chunk. induction n as [|n IH]; intros Hc; [done|]. rewrite seq_S, foldl_app. cbn [foldl Nat.add].
  destruct (fr_eqb _ c) eqn:E; [|apply IH; intros; apply Hc; lia].
  apply fr_eqb_eq in E. by destruct (Hc n ltac:(lia)).
Qed.
End Elements.
