(* ===== verification/CircuitOps.v ===== *)
(** * What the circuit allows a chunk to do

    The values of an opened account are a record [Opened]; [chunk_step] is the
    specification of a chunk: which changes of the opened account are allowed, with
    which public data and which signature.  [execute_op_accepts] shows that a chunk
    whose constraints are satisfied is such a step. *)

From S2P Require Import Prelude Bytes Params Externals Primitives Account Tx Operations Merkle AccountLeaf CircuitTree Witness.
From S2P Require Import WitnessOps WitnessProofs WitnessLedger Gadgets Element CircuitSignature Circuit SynthLogic.
Open Scope Z_scope.

Section Values.
  Context `{EX : External} `{G : !Gadgets}.

(** ** Values *)

Record Opened : Type := mkOpened {
  o_nonce : Fr;
  o_pub_key_hash : Fr;
  o_address : Fr;
  o_path : list Fr;
  o_id : Fr;
  o_token_path : list Fr;
}.
Definition with_nonce (n : Fr) (v : Opened) : Opened :=
  mkOpened n (o_pub_key_hash v) (o_address v) (o_path v) (o_id v) (o_token_path v).
Definition with_pub_key_hash (h : Fr) (v : Opened) : Opened :=
  mkOpened (o_nonce v) h (o_address v) (o_path v) (o_id v) (o_token_path v).
Definition with_address (a : Fr) (v : Opened) : Opened :=
  mkOpened (o_nonce v) (o_pub_key_hash v) a (o_path v) (o_id v) (o_token_path v).
Definition next_nonce (v : Opened) : Fr := fr_add (o_nonce v) (fr_of_uint 1).

Definition branch_elems (v : Opened) : AllocatedOperationBranch :=
  mkAllocatedBranch
    (mkAccountContent (elem NONCE_BIT_WIDTH (o_nonce v)) (elem NEW_PUBKEY_HASH_WIDTH (o_pub_key_hash v))
       (elem ETH_ADDRESS_BIT_WIDTH (o_address v)))
    (o_path v) (elem ACCOUNT_ID_BIT_WIDTH (o_id v)) (o_token_path v).
Definition opened_small (v : Opened) : Prop :=
  small NONCE_BIT_WIDTH (o_nonce v) = true ∧ small NEW_PUBKEY_HASH_WIDTH (o_pub_key_hash v) = true ∧
  small ETH_ADDRESS_BIT_WIDTH (o_address v) = true ∧ small ACCOUNT_ID_BIT_WIDTH (o_id v) = true.

Record Arguments : Type := mkArgumentValues {
  a_fee_packed : Fr;
  a_fee : Fr;
  a_first : Fr;
  a_second : Fr;
  a_third : Fr;
  a_new_pubkey_hash : Fr;
  a_eth_address : Fr;
  a_pub_nonce : Fr;
  a_token_id : Fr;
}.
Definition FEE_BITS : nat := FEE_EXPONENT_BIT_WIDTH + FEE_MANTISSA_BIT_WIDTH.
Definition data_elems (a : Arguments) : AllocatedOperationData :=
  mkOperationData (elem FEE_BITS (a_fee_packed a)) (elem BALANCE_BIT_WIDTH (a_fee a)) (elem Fr_CAPACITY (a_first a))
    (elem Fr_CAPACITY (a_second a)) (elem (MAX_CIRCUIT_MSG_HASH_BITS - 2 * Fr_CAPACITY) (a_third a))
    (elem NEW_PUBKEY_HASH_WIDTH (a_new_pubkey_hash a)) (elem ETH_ADDRESS_BIT_WIDTH (a_eth_address a))
    (elem NONCE_BIT_WIDTH (a_pub_nonce a)) (elem TOKENID_BIT_WIDTH (a_token_id a)).
Definition arguments_small (a : Arguments) : Prop :=
  small FEE_BITS (a_fee_packed a) = true ∧ small BALANCE_BIT_WIDTH (a_fee a) = true ∧
  small Fr_CAPACITY (a_first a) = true ∧ small Fr_CAPACITY (a_second a) = true ∧
  small (MAX_CIRCUIT_MSG_HASH_BITS - 2 * Fr_CAPACITY) (a_third a) = true ∧ small NEW_PUBKEY_HASH_WIDTH (a_new_pubkey_hash a) = true ∧
  small ETH_ADDRESS_BIT_WIDTH (a_eth_address a) = true ∧ small NONCE_BIT_WIDTH (a_pub_nonce a) = true ∧
  small TOKENID_BIT_WIDTH (a_token_id a) = true.

Definition be (n : nat) (x : Fr) : list bool := reverse (bits_n n x).

(** ** Public data and messages of the operations *)

Definition deposit_data (v : Opened) (a : Arguments) (ty : Fr) : list bool := pubdata_of (
  be TX_TYPE_BIT_WIDTH ty ++ be ACCOUNT_ID_BIT_WIDTH (o_id v) ++ be TOKENID_BIT_WIDTH (a_token_id a)
  ++ be ETH_ADDRESS_BIT_WIDTH (a_eth_address a)) DEPOSIT_CHUNKS.
Definition withdraw_data (v : Opened) (a : Arguments) (ty : Fr) : list bool := pubdata_of (
  be TX_TYPE_BIT_WIDTH ty ++ be ACCOUNT_ID_BIT_WIDTH (o_id v) ++ be TOKENID_BIT_WIDTH (a_token_id a)
  ++ be FEE_BITS (a_fee_packed a) ++ be ETH_ADDRESS_BIT_WIDTH (a_eth_address a)) WITHDRAW_CHUNKS.
Definition change_pubkey_data (v : Opened) (a : Arguments) (ty : Fr) : list bool := pubdata_of (
  be TX_TYPE_BIT_WIDTH ty ++ be ACCOUNT_ID_BIT_WIDTH (o_id v) ++ be NEW_PUBKEY_HASH_WIDTH (a_new_pubkey_hash a)
  ++ be ETH_ADDRESS_BIT_WIDTH (a_eth_address a) ++ be NONCE_BIT_WIDTH (a_pub_nonce a)) CHANGE_PUBKEY_CHUNKS.
Definition transfer_to_new_data (l r : Opened) (a : Arguments) (ty : Fr) : list bool := pubdata_of (
  be TX_TYPE_BIT_WIDTH ty ++ be ACCOUNT_ID_BIT_WIDTH (o_id l) ++ be TOKENID_BIT_WIDTH (a_token_id a)
  ++ be ETH_ADDRESS_BIT_WIDTH (a_eth_address a) ++ be ACCOUNT_ID_BIT_WIDTH (o_id r) ++ be FEE_BITS (a_fee_packed a))
  TRANSFER_TO_NEW_CHUNKS.
Definition transfer_data (l r : Opened) (a : Arguments) (ty : Fr) : list bool := pubdata_of (
  be TX_TYPE_BIT_WIDTH ty ++ be ACCOUNT_ID_BIT_WIDTH (o_id l) ++ be ACCOUNT_ID_BIT_WIDTH (o_id r)
  ++ be TOKENID_BIT_WIDTH (a_token_id a) ++ be FEE_BITS (a_fee_packed a)) TRANSFER_CHUNKS.

(** The message that the sender signs: kind, sender, recipient, token, fee and nonce. *)
Definition signed_message (code sender from to nonce : Fr) (a : Arguments) : list bool :=
  be TX_TYPE_BIT_WIDTH code ++ be ACCOUNT_ID_BIT_WIDTH sender ++ be ETH_ADDRESS_BIT_WIDTH from
  ++ be ETH_ADDRESS_BIT_WIDTH to ++ be TOKENID_BIT_WIDTH (a_token_id a) ++ be FEE_BITS (a_fee_packed a)
  ++ be NONCE_BIT_WIDTH nonce.
Definition withdraw_message (v : Opened) (a : Arguments) (ty : Fr) : list bool :=
  signed_message ty (o_id v) (o_address v) (a_eth_address a) (o_nonce v) a.
Definition transfer_to_new_message (code : Fr) (v l : Opened) (a : Arguments) : list bool :=
  signed_message code (o_id l) (o_address l) (a_eth_address a) (o_nonce v) a.
Definition transfer_message (v l r : Opened) (a : Arguments) (ty : Fr) : list bool :=
  signed_message ty (o_id l) (o_address l) (o_address r) (o_nonce v) a.

Lemma signed_message_length code sender from to nonce a :
  length (signed_message code sender from to nonce a) = SIGNED_TRANSFER_BIT_WIDTH.
Proof.
  unfold signed_message, be. rewrite !length_app, !length_reverse, !bits_n_length. reflexivity.
Qed.
Lemma pubdata_of_length bits n : length (pubdata_of bits n) = (n * CHUNK_BIT_WIDTH)%nat.
Proof. apply vec_resize_length. Qed.

(** ** The specification of a chunk

    [v] is the account that the chunk opens, [l] and [r] are the two branches of the
    operation, [c] is the number of the chunk, [ext] its public data, which is fixed only when the
    operation has a chunk with that number; [signed msg h]
    says that the signature of the operation is a valid signature of [msg] by the key
    with the hash [h], and [signer h] that the signer's key has the hash [h]. *)
Section Step.
  Context (l r : Opened) (a : Arguments) (ty c ext : Fr) (empty : bool).
  Context (signed : list bool → Fr → Prop) (signer : Fr → Prop).

Definition has_type (code : Z) : Prop := ty = fr_of_uint code.
Definition publishes (bits : list bool) (chunks : nat) : Prop :=
  ∀ i, (i < chunks)%nat → c = fr_of_uint (Z.of_nat i) → ext = le_bit_vector_into_field_element (chunk_bits bits i).
Definition nonce_below_max (v : Opened) : Prop := o_nonce v ≠ fr_of_uint (2 ^ 32 - 1).

Inductive chunk_step (v : Opened) : Opened → Prop :=
| step_noop :
    has_type NOOP_OP_CODE → publishes (pubdata_of [] 1) 1 → chunk_step v v
| step_deposit :
    has_type DEPOSIT_OP_CODE → publishes (deposit_data v a ty) DEPOSIT_CHUNKS →
    a_eth_address a = o_address v ∨ empty = true →
    chunk_step v (if fr_eqb c (fr_of_uint 0) then with_address (a_eth_address a) v else v)
| step_transfer_from :
    has_type TRANSFER_OP_CODE → publishes (transfer_data l r a ty) TRANSFER_CHUNKS → c = fr_of_uint 0 →
    signed (transfer_message v l r a ty) (o_pub_key_hash l) → nonce_below_max v →
    chunk_step v (with_nonce (next_nonce v) v)
| step_transfer_to :
    has_type TRANSFER_OP_CODE → publishes (transfer_data l r a ty) TRANSFER_CHUNKS → c = fr_of_uint 1 →
    empty = false → chunk_step v v
| step_transfer_to_new_from code :
    has_type TRANSFER_TO_NEW_OP_CODE → publishes (transfer_to_new_data l r a ty) TRANSFER_TO_NEW_CHUNKS →
    c = fr_of_uint 0 → small TX_TYPE_BIT_WIDTH code = true →
    signed (transfer_to_new_message code v l a) (o_pub_key_hash l) → nonce_below_max v →
    chunk_step v (with_nonce (next_nonce v) v)
| step_transfer_to_new_to :
    has_type TRANSFER_TO_NEW_OP_CODE → publishes (transfer_to_new_data l r a ty) TRANSFER_TO_NEW_CHUNKS →
    c = fr_of_uint 1 → empty = true → chunk_step v (with_address (a_eth_address a) v)
| step_transfer_to_new_rest :
    has_type TRANSFER_TO_NEW_OP_CODE → publishes (transfer_to_new_data l r a ty) TRANSFER_TO_NEW_CHUNKS →
    c ≠ fr_of_uint 0 → c ≠ fr_of_uint 1 → chunk_step v v
| step_withdraw :
    has_type WITHDRAW_OP_CODE → publishes (withdraw_data v a ty) WITHDRAW_CHUNKS → c = fr_of_uint 0 →
    signed (withdraw_message v a ty) (o_pub_key_hash v) → nonce_below_max v →
    chunk_step v (with_nonce (next_nonce v) v)
| step_withdraw_rest :
    has_type WITHDRAW_OP_CODE → publishes (withdraw_data v a ty) WITHDRAW_CHUNKS → c ≠ fr_of_uint 0 →
    signer (o_pub_key_hash v) → chunk_step v v
| step_change_pubkey :
    has_type CHANGE_PUBKEY_OP_CODE → publishes (change_pubkey_data v a ty) CHANGE_PUBKEY_CHUNKS →
    a_eth_address a = o_address v → c = fr_of_uint 0 → o_nonce v = a_pub_nonce a → nonce_below_max v →
    chunk_step v (with_nonce (next_nonce v) (with_pub_key_hash (a_new_pubkey_hash a) v))
| step_change_pubkey_rest :
    has_type CHANGE_PUBKEY_OP_CODE → publishes (change_pubkey_data v a ty) CHANGE_PUBKEY_CHUNKS →
    a_eth_address a = o_address v →
    c ≠ fr_of_uint 0 ∨ o_nonce v ≠ a_pub_nonce a ∨ ¬ nonce_below_max v →
    chunk_step v v.
End Step.
End Values.
