(* ===== verification/CircuitOpsProofs.v ===== *)
(** * The operations of the circuit implement the steps *)

From S2P Require Import Prelude Bytes Params Externals Primitives Account Tx Operations Merkle AccountLeaf CircuitTree Witness.
From S2P Require Import WitnessOps WitnessProofs WitnessLedger Gadgets Element CircuitSignature Circuit SynthLogic CircuitOps.
Open Scope Z_scope.

Section Flags.
  Context `{EX : External} `{EXL : !ExternalLaws} `{G : !Gadgets} `{GL : !GadgetLaws}.
  Context (adv : ChunkAdvice) (l r : Opened) (a : Arguments) (ty c ext : Fr) (empty last : bool).
  Context (key : AllocatedSignerPubkey) (verified : bool).

Notation type_is code := (fr_eqb ty (fr_of_uint code)).
Notation data_is code bits n := (fr_eqb (selected_chunk (adv_start adv code) bits c n) ext).
Notation first := (fr_eqb c (fr_of_uint 0)).
Notation second := (fr_eqb c (fr_of_uint 1)).
Notation below_max v := (negb (fr_eqb (o_nonce v) (fr_of_uint (2 ^ 32 - 1)))).
Notation key_is h := (fr_eqb (get_number (cp_hash (sk_pubkey key))) h).
Notation message_is bits := (message_matches bits (data_elems a)).

Definition chunk_elems : AllocatedChunkData := mkChunkData last first c (elem TX_TYPE_BIT_WIDTH ty).

(** *** The bits that the operations compute *)

Definition deposit_flag (v : Opened) : bool :=
  forallb id [data_is DEPOSIT_OP_CODE (deposit_data v a ty) DEPOSIT_CHUNKS; type_is DEPOSIT_OP_CODE;
              negb (negb (fr_eqb (a_eth_address a) (o_address v)) && negb empty)].
Definition deposit_next (v : Opened) : Opened :=
  if deposit_flag v && first then with_address (a_eth_address a) v else v.

Definition transfer_from (v : Opened) : bool :=
  forallb id [data_is TRANSFER_OP_CODE (transfer_data l r a ty) TRANSFER_CHUNKS; type_is TRANSFER_OP_CODE; first; verified; below_max v;
              message_is (transfer_message v l r a ty); key_is (o_pub_key_hash l)].
Definition transfer_to : bool :=
  forallb id [type_is TRANSFER_OP_CODE; second; negb empty; data_is TRANSFER_OP_CODE (transfer_data l r a ty) TRANSFER_CHUNKS].
Definition transfer_flag (v : Opened) : bool := negb (negb (transfer_from v) && negb transfer_to).
Definition transfer_next (v : Opened) : Opened := if transfer_from v then with_nonce (next_nonce v) v else v.

Definition to_new_from (v : Opened) : bool :=
  forallb id [data_is TRANSFER_TO_NEW_OP_CODE (transfer_to_new_data l r a ty) TRANSFER_TO_NEW_CHUNKS; type_is TRANSFER_TO_NEW_OP_CODE; first; below_max v;
              existsb id [forallb id [message_is (transfer_to_new_message (adv_tx_code adv) v l a); verified]; negb first];
              key_is (o_pub_key_hash l)].
Definition to_new_to : bool :=
  forallb id [data_is TRANSFER_TO_NEW_OP_CODE (transfer_to_new_data l r a ty) TRANSFER_TO_NEW_CHUNKS; second; type_is TRANSFER_TO_NEW_OP_CODE; empty].
Definition to_new_rest : bool :=
  forallb id [data_is TRANSFER_TO_NEW_OP_CODE (transfer_to_new_data l r a ty) TRANSFER_TO_NEW_CHUNKS; negb first; negb second;
              type_is TRANSFER_TO_NEW_OP_CODE].
Definition to_new_flag (v : Opened) : bool := existsb id [to_new_rest; to_new_from v; to_new_to].
Definition to_new_mid (v : Opened) : Opened := if to_new_from v then with_nonce (next_nonce v) v else v.
Definition to_new_next (v : Opened) : Opened :=
  if to_new_to then with_address (a_eth_address a) (to_new_mid v) else to_new_mid v.

Definition withdraw_base (v : Opened) : bool :=
  forallb id [data_is WITHDRAW_OP_CODE (withdraw_data v a ty) WITHDRAW_CHUNKS; type_is WITHDRAW_OP_CODE;
              existsb id [forallb id [message_is (withdraw_message v a ty); verified]; negb first]; key_is (o_pub_key_hash v)].
Definition withdraw_first (v : Opened) : bool := forallb id [first; withdraw_base v; below_max v].
Definition withdraw_flag (v : Opened) : bool :=
  existsb id [withdraw_first v; forallb id [withdraw_base v; negb first]].
Definition withdraw_next (v : Opened) : Opened := if withdraw_first v then with_nonce (next_nonce v) v else v.

Definition change_flag (v : Opened) : bool :=
  forallb id [data_is CHANGE_PUBKEY_OP_CODE (change_pubkey_data v a ty) CHANGE_PUBKEY_CHUNKS; type_is CHANGE_PUBKEY_OP_CODE;
              fr_eqb (a_eth_address a) (o_address v)].
Definition change_first (v : Opened) : bool :=
  forallb id [change_flag v; first; fr_eqb (o_nonce v) (a_pub_nonce a); below_max v].
Definition change_next (v : Opened) : Opened :=
  if change_first v then with_nonce (next_nonce v) (with_pub_key_hash (a_new_pubkey_hash a) v) else v.

Definition noop_flag : bool := forallb id [data_is NOOP_OP_CODE (pubdata_of [] 1) 1; type_is 0].

(** *** The operations compute them *)

Ltac ev := eapply evals_seq;
  [first [apply num_equals_evals | apply multi_and_evals | apply multi_or_evals | apply boolean_and_evals
         | apply no_nonce_overflow_evals | apply (select_pubdata_chunk_evals _ _ _ _ (pubdata_of_length _ _))
         ] |].

(** The message is constructed from the bits of [msg]. *)
Ltac ev_length msg := eapply evals_seq; [apply evals_assert, Nat.eqb_eq; change (length msg = SIGNED_TRANSFER_BIT_WIDTH); apply signed_message_length|].
Lemma message_short code sender from to nonce :
  (length (signed_message code sender from to nonce a) < MAX_CIRCUIT_MSG_HASH_BITS)%nat.
Proof. rewrite signed_message_length. cbv. lia. Qed.
Ltac ev_message msg := eapply evals_seq; [apply (message_construction_evals msg), message_short|].

Ltac small_width := cbv; lia.

Lemma deposit_evals v :
  evals (deposit adv (branch_elems v) chunk_elems empty (data_elems a) ext)
    (deposit_flag v, branch_elems (deposit_next v)) (small ETH_ADDRESS_BIT_WIDTH (o_address (deposit_next v))).
Proof.
  unfold deposit. cbv zeta. eapply evals_eq.
  - do 8 ev. eapply evals_then; [apply (select_evals _ (a_eth_address a) (o_address v)); small_width|apply evals_ret].
  - f_equal. change (forallb id _) with (deposit_flag v). unfold deposit_next. cbn [chunk_elems chunk_number].
    by destruct (deposit_flag v && first).
  - change (forallb id _) with (deposit_flag v). unfold deposit_next. cbn [chunk_elems chunk_number].
    by destruct (deposit_flag v && first).
Qed.

Lemma transfer_evals v :
  evals (transfer adv (branch_elems v) (branch_elems l) (branch_elems r) chunk_elems empty (data_elems a) key ext verified)
    (transfer_flag v, branch_elems (transfer_next v)) (small NONCE_BIT_WIDTH (o_nonce (transfer_next v))).
Proof.
  unfold transfer. cbv zeta. eapply evals_eq.
  - ev_length (transfer_message v l r a ty). do 5 ev. ev_message (transfer_message v l r a ty). do 2 ev.
    eapply evals_then; [apply (select_strict_evals _ (next_nonce v) (o_nonce v)); small_width|].
    do 3 ev. apply evals_ret.
  - change (forallb id (fr_eqb (selected_chunk _ _ _ _) ext :: _)) with (transfer_from v).
    f_equal. unfold transfer_next. by destruct (transfer_from v).
  - change (forallb id (fr_eqb (selected_chunk _ _ _ _) ext :: _)) with (transfer_from v).
    unfold transfer_next. by destruct (transfer_from v).
Qed.

Lemma withdraw_evals v :
  evals (withdraw adv (branch_elems v) chunk_elems (data_elems a) key ext verified)
    (withdraw_flag v, branch_elems (withdraw_next v)) (small NONCE_BIT_WIDTH (o_nonce (withdraw_next v))).
Proof.
  unfold withdraw. cbv zeta. eapply evals_eq.
  - ev_length (withdraw_message v a ty). do 4 ev. ev_message (withdraw_message v a ty). do 8 ev.
     eapply evals_then; [apply (select_strict_evals _ (next_nonce v) (o_nonce v)); small_width|apply evals_ret].
  - change (forallb id (fr_eqb (chunk_number chunk_elems) _ :: _)) with (withdraw_first v).
    f_equal. unfold withdraw_next. by destruct (withdraw_first v).
  - change (forallb id (fr_eqb (chunk_number chunk_elems) _ :: _)) with (withdraw_first v).
    unfold withdraw_next. by destruct (withdraw_first v).
Qed.

Ltac fold_to_new v :=
  change (forallb id (fr_eqb (selected_chunk _ _ _ _) ext :: fr_eqb _ _ :: fr_eqb (chunk_number chunk_elems) _ :: _))
    with (to_new_from v);
  change (forallb id (fr_eqb (selected_chunk _ _ _ _) ext :: fr_eqb (chunk_number chunk_elems) (fr_of_uint 1) :: _)) with to_new_to.

Lemma to_new_evals v :
  evals (transfer_to_new adv (branch_elems v) (branch_elems l) (branch_elems r) chunk_elems empty (data_elems a) key ext verified)
    (to_new_flag v, branch_elems (to_new_next v))
    (small TX_TYPE_BIT_WIDTH (adv_tx_code adv) &&
     (small NONCE_BIT_WIDTH (o_nonce (to_new_next v)) && small ETH_ADDRESS_BIT_WIDTH (o_address (to_new_next v)))).
Proof.
  unfold transfer_to_new. cbv zeta. eapply evals_eq.
  - eapply evals_bind; [apply (from_fe_evals (adv_tx_code adv) TX_TYPE_BIT_WIDTH); small_width|].
    ev_length (transfer_to_new_message (adv_tx_code adv) v l a). do 5 ev. ev_message (transfer_to_new_message (adv_tx_code adv) v l a). do 4 ev.
    eapply evals_bind; [apply (select_strict_evals _ (next_nonce v) (o_nonce v)); small_width|].
    do 2 ev. eapply evals_then; [apply (select_evals _ (a_eth_address a) (o_address v)); small_width|].
    do 2 ev. apply evals_ret.
  - fold_to_new v.
    f_equal. unfold to_new_next, to_new_mid. by destruct (to_new_from v), to_new_to.
  - f_equal. fold_to_new v.
    unfold to_new_next, to_new_mid. by destruct (to_new_from v), to_new_to.
Qed.

Lemma change_evals v :
  evals (change_pubkey_offchain adv (branch_elems v) chunk_elems (data_elems a) ext)
    (change_flag v, branch_elems (change_next v))
    (small NEW_PUBKEY_HASH_WIDTH (o_pub_key_hash (change_next v)) && small NONCE_BIT_WIDTH (o_nonce (change_next v))).
Proof.
  unfold change_pubkey_offchain. cbv zeta. eapply evals_eq.
  - do 9 ev. eapply evals_bind; [apply (select_evals _ (a_new_pubkey_hash a) (o_pub_key_hash v)); small_width|].
    eapply evals_then; [apply (select_strict_evals _ (next_nonce v) (o_nonce v)); small_width|apply evals_ret].
  - change (forallb id (forallb id _ :: _)) with (change_first v). f_equal. unfold change_next. by destruct (change_first v).
  - change (forallb id (forallb id _ :: _)) with (change_first v). unfold change_next. by destruct (change_first v).
Qed.

Lemma noop_evals : evals (noop adv chunk_elems ext) noop_flag true.
Proof. unfold noop. cbv zeta. eapply evals_eq; [do 3 ev; apply multi_and_evals|done|done]. Qed.

(** *** Only the operation of the chunk's type changes the account *)

Lemma deposit_other v : type_is DEPOSIT_OP_CODE = false → deposit_flag v = false ∧ deposit_next v = v.
Proof. intros E. unfold deposit_next, deposit_flag. cbn [forallb]. unfold id. rewrite E. by destruct (data_is _ _ _). Qed.
Lemma transfer_other v : type_is TRANSFER_OP_CODE = false → transfer_flag v = false ∧ transfer_next v = v.
Proof.
  intros E. unfold transfer_flag, transfer_next, transfer_from, transfer_to. cbn [forallb]. unfold id. rewrite E.
  by destruct (data_is _ _ _).
Qed.
Lemma to_new_other v : type_is TRANSFER_TO_NEW_OP_CODE = false → to_new_flag v = false ∧ to_new_next v = v.
Proof.
  intros E. unfold to_new_flag, to_new_next, to_new_mid, to_new_from, to_new_to, to_new_rest. cbn [forallb existsb]. unfold id.
  rewrite E. by destruct (data_is _ _ _), first, second.
Qed.
Lemma withdraw_other v : type_is WITHDRAW_OP_CODE = false → withdraw_flag v = false ∧ withdraw_next v = v.
Proof.
  intros E. unfold withdraw_flag, withdraw_next, withdraw_first, withdraw_base. cbn [forallb existsb]. unfold id. rewrite E.
  by destruct (data_is _ _ _), first.
Qed.
Lemma change_other v : type_is CHANGE_PUBKEY_OP_CODE = false → change_flag v = false ∧ change_next v = v.
Proof.
  intros E. unfold change_next, change_first, change_flag. cbn [forallb]. unfold id. rewrite E. by destruct (data_is _ _ _).
Qed.

Lemma type_unique code code' :
  fits 253 code → fits 253 code' → code ≠ code' → type_is code = true → type_is code' = false.
Proof. intros H H' Hne E%fr_eqb_eq. rewrite E, fr_eqb_uint by done. by apply Z.eqb_neq. Qed.

(** *** A valid operation is a step *)

Lemma message_is_parts bits : message_is bits = true → message_parts bits = (a_first a, a_second a, a_third a).
Proof.
  unfold message_matches. destruct (message_parts bits) as [[m1 m2] m3]. rewrite !andb_true_iff, !fr_eqb_eq. by intros (-> & -> & ->).
Qed.

Context (signed : list bool → Fr → Prop) (signer : Fr → Prop).
Context (Hsigned : ∀ msg h, verified = true → message_parts msg = (a_first a, a_second a, a_third a) → key_is h = true → signed msg h).
Context (Hsigner : ∀ h, key_is h = true → signer h).
Context (Hcode : small TX_TYPE_BIT_WIDTH (adv_tx_code adv) = true).
Notation step := (chunk_step l r a ty c ext empty signed signer).

(** A chunk of the operation is published as it is. *)
Lemma data_publishes start bits n : (n <=? 256)%nat = true → selected_chunk start bits c n = ext → publishes c ext bits n.
Proof. intros Hn%Nat.leb_le <- i Hi ->. by apply selected_chunk_at. Qed.

Lemma below_max_spec v : below_max v = true ↔ nonce_below_max v.
Proof. unfold nonce_below_max. rewrite negb_true_iff, <- not_true_iff_false, fr_eqb_eq. done. Qed.

Ltac flags H := cbn [forallb existsb] in H; unfold id in H;
  rewrite ?orb_false_r, ?andb_true_r in H;
  repeat match type of H with
  | context [?x && true] => rewrite (andb_true_r x) in H
  end.

Lemma deposit_is_step v : deposit_flag v = true → step v (deposit_next v).
Proof.
  intros H. unfold deposit_next. rewrite H, andb_true_l. unfold deposit_flag in H. flags H.
  apply andb_true_iff in H as (Hd%fr_eqb_eq & (Ht%fr_eqb_eq & He)%andb_true_iff).
  apply step_deposit; [done|by eapply data_publishes|]. destruct (fr_eqb (a_eth_address a) _) eqn:E; [by left; apply fr_eqb_eq|].
  right. by destruct empty.
Qed.

Lemma transfer_is_step v : transfer_flag v = true → step v (transfer_next v).
Proof.
  intros H. unfold transfer_flag in H. unfold transfer_next. destruct (transfer_from v) eqn:E.
  - unfold transfer_from in E. flags E.
    apply andb_true_iff in E as (Hd%fr_eqb_eq & (Ht%fr_eqb_eq & (Hc%fr_eqb_eq & (Hv & (Hm & (Hp & Hk)%andb_true_iff)%andb_true_iff)%andb_true_iff)%andb_true_iff)%andb_true_iff).
    apply step_transfer_from; [done|by eapply data_publishes|done| |by apply below_max_spec].
    apply Hsigned; [done|by apply message_is_parts|done].
  - rewrite negb_andb, !negb_involutive in H. unfold transfer_to in H. flags H. cbn [orb] in H.
    apply andb_true_iff in H as (Ht%fr_eqb_eq & (Hc%fr_eqb_eq & (He & Hd%fr_eqb_eq)%andb_true_iff)%andb_true_iff).
    apply step_transfer_to; [done|by eapply data_publishes|done|by destruct empty].
Qed.

Lemma first_not_second : first = true → second = false.
Proof. intros E%fr_eqb_eq. rewrite E. by rewrite fr_eqb_uint. Qed.

Lemma to_new_is_step v : to_new_flag v = true → step v (to_new_next v).
Proof.
  intros H. unfold to_new_next, to_new_mid. destruct (to_new_from v) eqn:E.
  - assert (first = true) as Hf by (unfold to_new_from in E; flags E; by rewrite !andb_true_iff in E; destruct E as (_ & _ & ? & _)).
    assert (to_new_to = false) as -> by
      (unfold to_new_to; cbn [forallb]; unfold id; rewrite (first_not_second Hf); by destruct (data_is _ _ _)).
    unfold to_new_from in E. flags E. rewrite Hf in E. cbn [negb orb] in E. rewrite !orb_false_r in E.
    apply andb_true_iff in E as (Hd%fr_eqb_eq & (Ht%fr_eqb_eq & (_ & (Hm & ((Hp & Hv)%andb_true_iff & Hk)%andb_true_iff)%andb_true_iff)%andb_true_iff)%andb_true_iff).
    eapply step_transfer_to_new_from; [done|by eapply data_publishes|by apply fr_eqb_eq|exact Hcode| |by apply below_max_spec].
    apply Hsigned; [done|by apply message_is_parts|done].
  - destruct to_new_to eqn:E2.
    + unfold to_new_to in E2. flags E2.
      apply andb_true_iff in E2 as (Hd%fr_eqb_eq & (Hc%fr_eqb_eq & (Ht%fr_eqb_eq & He)%andb_true_iff)%andb_true_iff).
      by apply step_transfer_to_new_to; [|eapply data_publishes|..].
    + unfold to_new_flag in H. rewrite E, E2 in H. cbn [existsb] in H. unfold id in H. rewrite !orb_false_r in H.
      unfold to_new_rest in H. flags H. rewrite !andb_true_iff, !negb_true_iff in H. destruct H as (Hd%fr_eqb_eq & Hc0 & Hc1 & Ht%fr_eqb_eq).
      apply step_transfer_to_new_rest; [done|by eapply data_publishes|..]; intros ->.
      * by rewrite fr_eqb_refl in Hc0.
      * by rewrite fr_eqb_refl in Hc1.
Qed.

Lemma withdraw_is_step v : withdraw_flag v = true → step v (withdraw_next v).
Proof.
  intros H. unfold withdraw_next. destruct (withdraw_first v) eqn:E.
  - unfold withdraw_first, withdraw_base in E. flags E. apply andb_true_iff in E as [Hf E]. rewrite Hf in E. cbn [negb] in E.
    rewrite !orb_false_r in E.
    apply andb_true_iff in E as ((Hd%fr_eqb_eq & (Ht%fr_eqb_eq & ((Hp & Hv)%andb_true_iff & Hk)%andb_true_iff)%andb_true_iff)%andb_true_iff & Hm).
    apply step_withdraw; [done|by eapply data_publishes|by apply fr_eqb_eq| |by apply below_max_spec].
    apply Hsigned; [done|by apply message_is_parts|done].
  - unfold withdraw_flag in H. rewrite E in H. flags H. cbn [orb] in H. apply andb_true_iff in H as [H Hf]. unfold withdraw_base in H. flags H.
    rewrite !andb_true_iff in H. destruct H as (Hd%fr_eqb_eq & Ht%fr_eqb_eq & _ & Hk).
    apply step_withdraw_rest; [done|by eapply data_publishes| |by apply Hsigner]. intros ->. by rewrite fr_eqb_refl in Hf.
Qed.

Lemma change_is_step v : change_flag v = true → step v (change_next v).
Proof.
  intros H. unfold change_next. destruct (change_first v) eqn:E.
  - unfold change_first in E. flags E. rewrite !andb_true_iff in E. destruct E as (_ & Hf%fr_eqb_eq & Hn%fr_eqb_eq & Hm).
    unfold change_flag in H. flags H. rewrite !andb_true_iff in H. destruct H as (Hd%fr_eqb_eq & Ht%fr_eqb_eq & Ha%fr_eqb_eq).
    by apply step_change_pubkey; [|eapply data_publishes|..|apply below_max_spec].
  - unfold change_first in E. rewrite H in E. flags E. rewrite andb_true_l in E.
    unfold change_flag in H. flags H. rewrite !andb_true_iff in H. destruct H as (Hd%fr_eqb_eq & Ht%fr_eqb_eq & Ha%fr_eqb_eq).
    apply step_change_pubkey_rest; [done|by eapply data_publishes|done|]. apply andb_false_iff in E as [E|E]; [left|right].
    { intros ->. by rewrite fr_eqb_refl in E. }
    apply andb_false_iff in E as [E|E]; [left|right].
    { intros Hn. by rewrite Hn, fr_eqb_refl in E. }
    intros Hm%below_max_spec. by rewrite E in Hm.
Qed.

Lemma noop_is_step v : noop_flag = true → step v v.
Proof.
  intros H. unfold noop_flag in H. flags H. rewrite !andb_true_iff in H. destruct H as (Hd%fr_eqb_eq & Ht%fr_eqb_eq).
  by apply step_noop; [|eapply data_publishes].
Qed.

(** The account after all operations were tried, and whether one of them is valid. *)
Definition final_opened (v : Opened) : Opened := change_next (withdraw_next (to_new_next (transfer_next (deposit_next v)))).
Definition op_valid (v : Opened) : bool :=
  let v1 := deposit_next v in
  let v2 := transfer_next v1 in
  let v3 := to_new_next v2 in
  let v4 := withdraw_next v3 in
  existsb id [deposit_flag v; transfer_flag v1; to_new_flag v2; withdraw_flag v3; change_flag v4; noop_flag].

Lemma flag_types v :
  (deposit_flag v = true → type_is DEPOSIT_OP_CODE = true) ∧ (transfer_flag v = true → type_is TRANSFER_OP_CODE = true) ∧
  (to_new_flag v = true → type_is TRANSFER_TO_NEW_OP_CODE = true) ∧ (withdraw_flag v = true → type_is WITHDRAW_OP_CODE = true) ∧
  (change_flag v = true → type_is CHANGE_PUBKEY_OP_CODE = true) ∧ (noop_flag = true → type_is 0 = true).
Proof.
  repeat split; intros H; apply not_false_iff_true; intros E.
  - by rewrite (proj1 (deposit_other v E)) in H.
  - by rewrite (proj1 (transfer_other v E)) in H.
  - by rewrite (proj1 (to_new_other v E)) in H.
  - by rewrite (proj1 (withdraw_other v E)) in H.
  - by rewrite (proj1 (change_other v E)) in H.
  - unfold noop_flag in H. cbn [forallb] in H. unfold id in H. rewrite E in H. by destruct (data_is _ _ _).
Qed.

(** The other operations leave the account as it is. *)
Lemma code_fits code : 0 ≤ code < 8 → fits 253 code.
Proof. intros H. split; [lia|]. trans 8; [lia|done]. Qed.
Lemma skipped code :
  0 ≤ code < 8 → type_is code = true →
  (code ≠ DEPOSIT_OP_CODE → ∀ v, deposit_next v = v) ∧ (code ≠ TRANSFER_OP_CODE → ∀ v, transfer_next v = v) ∧
  (code ≠ TRANSFER_TO_NEW_OP_CODE → ∀ v, to_new_next v = v) ∧ (code ≠ WITHDRAW_OP_CODE → ∀ v, withdraw_next v = v) ∧
  (code ≠ CHANGE_PUBKEY_OP_CODE → ∀ v, change_next v = v).
Proof.
  intros Hf%code_fits E. split; [|split; [|split; [|split]]]; intros Hne v.
  - apply deposit_other, (type_unique code); [done|by apply code_fits|done..].
  - apply transfer_other, (type_unique code); [done|by apply code_fits|done..].
  - apply to_new_other, (type_unique code); [done|by apply code_fits|done..].
  - apply withdraw_other, (type_unique code); [done|by apply code_fits|done..].
  - apply change_other, (type_unique code); [done|by apply code_fits|done..].
Qed.

Lemma valid_op_is_step v : op_valid v = true → step v (final_opened v).
Proof.
  intros H. unfold op_valid in H. cbn [existsb] in H. unfold id in H. rewrite !orb_true_iff in H. unfold final_opened.
  destruct H as [H|[H|[H|[H|[H|[H|?]]]]]]; [..|done].
  - destruct (skipped DEPOSIT_OP_CODE) as (_ & E2 & E3 & E4 & E5); [done|by eapply flag_types|].
    rewrite E2, E3, E4, E5 by done. by apply deposit_is_step.
  - destruct (skipped TRANSFER_OP_CODE) as (E1 & _ & E3 & E4 & E5); [done|by eapply flag_types|].
    rewrite E1 in * by done. rewrite E3, E4, E5 by done. by apply transfer_is_step.
  - destruct (skipped TRANSFER_TO_NEW_OP_CODE) as (E1 & E2 & _ & E4 & E5); [done|by eapply flag_types|].
    rewrite E1, E2 in * by done. rewrite E4, E5 by done. by apply to_new_is_step.
  - destruct (skipped WITHDRAW_OP_CODE) as (E1 & E2 & E3 & _ & E5); [done|by eapply flag_types|].
    rewrite E1, E2, E3 in * by done. rewrite E5 by done. by apply withdraw_is_step.
  - destruct (skipped CHANGE_PUBKEY_OP_CODE) as (E1 & E2 & E3 & E4 & _); [done|by eapply flag_types|].
    rewrite E1, E2, E3, E4 in * by done. by apply change_is_step.
  - destruct (skipped NOOP_OP_CODE) as (E1 & E2 & E3 & E4 & E5); [done|by eapply (flag_types v)|].
    rewrite E1, E2, E3, E4, E5 by done. by apply noop_is_step.
Qed.
End Flags.
