(* ===== verification/SynthMono.v ===== *)
(** * No part of the circuit repairs a violation

    A constraint that the values violate stays violated, whatever is synthesized
    afterwards. *)

From S2P Require Import Prelude Bytes Params Externals Primitives Account Tx Operations Merkle AccountLeaf CircuitTree Witness.
From S2P Require Import WitnessOps WitnessProofs WitnessLedger Gadgets Element CircuitSignature Circuit SynthLogic.
Open Scope Z_scope.

(** Instances are found by the name of the function. *)
#[global] Typeclasses Opaque deposit withdraw transfer transfer_to_new change_pubkey_offchain noop ensure_op_data
  unpack_point_if_possible verify_circuit_signature is_rescue_signature_verified challenge_input verify_schnorr_relationship
  AllocatedOperationData_from_witness AllocatedOperationBranch_from_witness AccountContent_from_witness CircuitPubkey_from_xy
  from_witness_be_bits from_le_bits execute_op select_branch check_account_data verify_correct_chunking
  from_fe_with_known_length from_number_with_known_length from_number conditionally_select
  conditionally_select_with_number_strict multi_and multi_or verify_signature_message_construction select_pubdata_chunk
  pack_bits_to_element synth_fold synth_map enforce alloc total assert_synth.

Ltac mono :=
  cbv zeta; intros;
  repeat lazymatch goal with
  | |- Mono (_ ≫= _) => apply bind_mono; [apply _|intros ?]
  | |- Mono (synth_fold _ _ _) => apply synth_fold_mono; intros
  | |- Mono (let '(_, _) := ?p in _) => destruct p
  end; apply _.

Section Monotone.
  Context `{EX : External} `{EXL : !ExternalLaws} `{G : !Gadgets} `{GL : !GadgetLaws}.

#[export] Instance allocate_numbers_mono l : Mono (allocate_numbers_vec l).
Proof. unfold allocate_numbers_vec. mono. Qed.
#[export] Instance allocate_bits_mono l : Mono (allocate_bits_vector l).
Proof. unfold allocate_bits_vector. mono. Qed.
#[export] Instance from_witness_bits_mono l : Mono (from_witness_be_bits l).
Proof. unfold from_witness_be_bits. mono. Qed.
#[export] Instance from_le_bits_mono l : Mono (from_le_bits l).
Proof. unfold from_le_bits. mono. Qed.
#[export] Instance single_output_mono l : Mono (single_output l).
Proof. unfold single_output. mono. Qed.
#[export] Instance from_xy_mono x y : Mono (CircuitPubkey_from_xy x y).
Proof. unfold CircuitPubkey_from_xy. mono. Qed.
#[export] Instance unpack_mono k : Mono (unpack_point_if_possible k).
Proof. unfold unpack_point_if_possible. mono. Qed.
#[export] Instance schnorr_mono s l g n : Mono (verify_schnorr_relationship s l g n).
Proof. unfold verify_schnorr_relationship, is_not_small_order. mono. Qed.
#[export] Instance challenge_mono l s : Mono (challenge_input l s).
Proof. unfold challenge_input, padded_message. mono. Qed.
#[export] Instance rescue_signature_mono l s g : Mono (is_rescue_signature_verified l s g).
Proof. unfold is_rescue_signature_verified. mono. Qed.
#[export] Instance verify_signature_mono od k s g : Mono (verify_circuit_signature od k s g).
Proof. unfold verify_circuit_signature. mono. Qed.
#[export] Instance account_content_mono w : Mono (AccountContent_from_witness w).
Proof. unfold AccountContent_from_witness. mono. Qed.
#[export] Instance branch_from_witness_mono b : Mono (AllocatedOperationBranch_from_witness b).
Proof. unfold AllocatedOperationBranch_from_witness. mono. Qed.
#[export] Instance data_from_witness_mono op : Mono (AllocatedOperationData_from_witness op).
Proof. unfold AllocatedOperationData_from_witness. mono. Qed.
#[export] Instance merkle_root_mono l i p : Mono (allocate_merkle_root l i p).
Proof. unfold allocate_merkle_root. mono. Qed.
#[export] Instance calc_state_root_mono e : Mono (calc_account_state_tree_root e).
Proof. unfold calc_account_state_tree_root. mono. Qed.
#[export] Instance account_leaf_bits_mono b t : Mono (allocate_account_leaf_bits b t).
Proof. unfold allocate_account_leaf_bits. mono. Qed.
#[export] Instance check_account_data_mono b t : Mono (check_account_data b t).
Proof. unfold check_account_data. mono. Qed.
#[export] Instance select_vec_mono a b x y : Mono (select_vec_ifeq a b x y).
Proof. unfold select_vec_ifeq. mono. Qed.
#[export] Instance select_branch_mono f s cd : Mono (select_branch f s cd).
Proof. unfold select_branch. mono. Qed.
#[export] Instance chunking_mono op n : Mono (verify_correct_chunking op n).
Proof. unfold verify_correct_chunking. mono. Qed.
#[export] Instance deposit_mono adv cur cd e od x : Mono (deposit adv cur cd e od x).
Proof. unfold deposit. mono. Qed.
#[export] Instance withdraw_mono adv cur cd od k x s : Mono (withdraw adv cur cd od k x s).
Proof. unfold withdraw. mono. Qed.
#[export] Instance change_mono adv cur cd od x : Mono (change_pubkey_offchain adv cur cd od x).
Proof. unfold change_pubkey_offchain. mono. Qed.
#[export] Instance noop_mono adv cd x : Mono (noop adv cd x).
Proof. unfold noop. mono. Qed.
#[export] Instance transfer_mono adv cur l r cd e od k x s : Mono (transfer adv cur l r cd e od k x s).
Proof. unfold transfer. mono. Qed.
#[export] Instance to_new_mono adv cur l r cd e od k x s : Mono (transfer_to_new adv cur l r cd e od k x s).
Proof. unfold transfer_to_new. mono. Qed.
#[export] Instance ensure_op_data_mono od p f : Mono (ensure_op_data od p f).
Proof. unfold ensure_op_data. mono. Qed.
#[export] Instance execute_op_mono adv cur l r op cd e x p : Mono (execute_op adv cur l r op cd e x p).
Proof. unfold execute_op. mono. Qed.
#[export] Instance process_chunk_mono adv st op : Mono (process_chunk adv st op).
Proof. unfold process_chunk. mono. Qed.
End Monotone.
