(* ===== verification/CircuitProofs.v ===== *)
(** * Chunks that satisfy the circuit

    [chunk_accepted] is what a chunk whose constraints are satisfied guarantees: it
    opens an account against the current root, does one of the steps of the
    specification and leaves the root of the changed account. *)

From S2P Require Import Prelude Bytes Params Externals Primitives Account Tx Operations Merkle AccountLeaf CircuitTree Witness.
From S2P Require Import WitnessOps WitnessProofs WitnessLedger Gadgets Element CircuitSignature Circuit SynthLogic SynthMono.
From S2P Require Import CircuitOps CircuitOpsProofs.
Open Scope Z_scope.

Section Chunks.
  Context `{EX : External} `{EXL : !ExternalLaws} `{G : !Gadgets} `{GL : !GadgetLaws}.

(** ** The data of an operation *)

(** [a] are the arguments of the operation; the unpacked fee is not one of them. *)
Definition arguments_of (op : CircuitOperation) (a : Arguments) : Prop :=
  arg_eth_address (op_args op) = Some (a_eth_address a) ∧ arg_fee (op_args op) = Some (a_fee_packed a) ∧
  arg_new_pub_key_hash (op_args op) = Some (a_new_pubkey_hash a) ∧ arg_pub_nonce (op_args op) = Some (a_pub_nonce a) ∧
  arg_token_id (op_args op) = Some (a_token_id a) ∧ first_sig_msg op = Some (a_first a) ∧
  second_sig_msg op = Some (a_second a) ∧ third_sig_msg op = Some (a_third a).

Ltac fe_step := eapply accepts_bind; [mono|apply from_fe_accepts; cbv; lia|];
  let x := fresh "x" in let Hx := fresh "Hx" in let Hs := fresh "Hs" in intros ? (x & Hx & -> & Hs).

Lemma data_from_witness_accepts op :
  accepts (AllocatedOperationData_from_witness op)
    (λ od, ∃ a, od = data_elems a ∧ arguments_of op a ∧ arguments_small a).
Proof.
  unfold AllocatedOperationData_from_witness. fe_step. fe_step. eapply accepts_bind; [apply _|apply accepts_self|].
  intros fee _. eapply accepts_step; [apply known_length_evals; cbv; lia|apply _|]. intros Hfee. do 6 fe_step.
  apply accepts_ret. eexists (mkArgumentValues _ _ _ _ _ _ _ _ _). split; [reflexivity|]. done.
Qed.

(** The arguments that two chunks of an operation must share. *)
Definition same_data (od od' : AllocatedOperationData) : bool :=
  forallb id [fr_eqb (get_number (od_fee_packed od)) (get_number (od_fee_packed od'));
    fr_eqb (get_number (od_eth_address od)) (get_number (od_eth_address od'));
    fr_eqb (get_number (od_new_pubkey_hash od)) (get_number (od_new_pubkey_hash od'));
    fr_eqb (get_number (od_token_id od)) (get_number (od_token_id od'))].

Lemma ensure_op_data_evals od prev first : evals (ensure_op_data od prev first) tt (same_data od prev || first).
Proof.
  unfold ensure_op_data, ce_equals. do 4 (eapply evals_seq; [apply num_equals_evals|]).
  eapply evals_seq; [apply multi_and_evals|]. eapply evals_seq; [apply multi_or_evals|].
  eapply evals_eq; [apply boolean_enforce_equal_evals|done|]. cbn [existsb]. unfold id at 2 3. rewrite orb_false_r. by destruct (_ || _).
Qed.

(** ** Signatures *)

(** The signature of the operation verifies in the circuit, for the message [msg] and a key with the
    hash [h], with a generator that the prover chooses on the curve. *)
Definition signature_ok (op : CircuitOperation) (a : Arguments) (msg : list bool) (h : Fr) : Prop :=
  ∃ generator key sd,
    on_curve generator = true ∧
    unpack_point_if_possible (signer_pub_key_packed op) true = Val (Ok key, true) ∧
    verify_circuit_signature (data_elems a) key (signature_data op) generator true = Val (Ok sd, true) ∧
    is_verified sd = true ∧ message_parts msg = (a_first a, a_second a, a_third a) ∧
    get_number (cp_hash (sk_pubkey key)) = h.
Definition signer_ok (op : CircuitOperation) (h : Fr) : Prop :=
  ∃ key, unpack_point_if_possible (signer_pub_key_packed op) true = Val (Ok key, true) ∧
    get_number (cp_hash (sk_pubkey key)) = h.

Lemma execute_op_accepts adv v l r op ty c last empty ext prev :
  accepts (execute_op adv (branch_elems v) (branch_elems l) (branch_elems r) op (chunk_elems ty c last) empty ext prev)
    (λ res, ∃ a v', res = (branch_elems v', data_elems a) ∧ arguments_of op a ∧ arguments_small a ∧
       (same_data (data_elems a) prev = true ∨ c = fr_of_uint 0) ∧
       chunk_step l r a ty c ext empty (signature_ok op a) (signer_ok op) v v').
Proof.
  unfold execute_op. eapply accepts_step; [apply point_witness_evals|mono|]. intros Hgen.
  eapply accepts_bind; [mono|apply data_from_witness_accepts|]. intros ? (a & -> & Ha & Hs).
  eapply accepts_step; [apply ensure_op_data_evals|mono|]. intros Hsame.
  eapply accepts_bind; [mono|apply accepts_self|]. intros key Hkey.
  eapply accepts_bind; [mono|apply accepts_self|]. intros sd Hsd. cbv zeta.
  eapply accepts_step; [apply deposit_evals|mono|]. intros _.
  eapply accepts_step; [apply transfer_evals|mono|]. intros _.
  eapply accepts_step; [apply to_new_evals|mono|]. intros [Hcode _]%andb_true_iff.
  eapply accepts_step; [apply withdraw_evals|mono|]. intros _.
  eapply accepts_step; [apply change_evals|mono|]. intros _.
  eapply accepts_step; [apply noop_evals|mono|]. intros _.
  eapply accepts_step; [apply multi_or_evals|mono|]. intros _.
  eapply accepts_step; [apply boolean_enforce_equal_evals|mono|]. intros Hvalid.
  apply accepts_ret. eexists a, (final_opened adv l r a ty c ext empty key (is_verified sd) v). split; [reflexivity|].
  split; [done|]. split; [done|]. split.
  { apply orb_true_iff in Hsame as [?|?%fr_eqb_eq]; [by left|by right]. }
  apply valid_op_is_step.
  - intros msg h Hv Hm Hh%fr_eqb_eq. by exists (adv_generator adv), key, sd.
  - intros h Hh%fr_eqb_eq. by exists key.
  - exact Hcode.
  - by apply Bool.eqb_prop in Hvalid.
Qed.

(** ** Branches and roots *)

Definition opened_of (b : OperationBranch) (v : Opened) : Prop :=
  b = mkBranch (Some (o_id v))
        (mkBranchWitness (mkAccountWitness (Some (o_nonce v)) (Some (o_pub_key_hash v)) (Some (o_address v)))
           (Some <$> o_path v) (Some <$> o_token_path v)) ∧
  length (o_path v) = account_tree_depth ∧ length (o_token_path v) = token_tree_depth.

Lemma allocate_numbers_accepts l : accepts (allocate_numbers_vec l) (λ xs, l = Some <$> xs).
Proof.
  unfold allocate_numbers_vec. eapply accepts_mono.
  - apply (accepts_map _ (λ o x, o = Some x)); [apply _|]. intros o. by apply accepts_grab.
  - intros xs H. induction H as [|o x l' xs -> H IH]; [done|]. by rewrite fmap_cons, IH.
Qed.

Lemma ce_pad_elem n x : (n ≤ Fr_NUM_BITS)%nat → ce_pad (elem n x) n = Val (elem n x).
Proof.
  intros Hn. unfold ce_pad. cbn [elem ce_length ce_get_bits_le ce_bits_le ce_number]. rewrite Nat.leb_refl.
  cbn [assert_that mbind outcome_bind]. rewrite (proj2 (Nat.leb_le _ _) Hn). cbn [assert_that mbind outcome_bind].
  unfold vec_resize. by rewrite bits_n_length, Nat.sub_diag, app_nil_r, take_ge by (by rewrite bits_n_length).
Qed.

Lemma branch_from_witness_accepts b :
  accepts (AllocatedOperationBranch_from_witness b)
    (λ e, ∃ v, e = branch_elems v ∧ opened_of b v ∧ opened_small v).
Proof.
  destruct b as [address [[nonce hash addr] path tpath]].
  unfold AllocatedOperationBranch_from_witness, AccountContent_from_witness.
  cbn [br_address br_witness account_path token_subtree_path account_witness aw_nonce aw_pub_key_hash aw_address]. fe_step.
  eapply accepts_bind; [mono|apply accepts_total|]. cbv beta. intros e He.
  change account_tree_depth with ACCOUNT_ID_BIT_WIDTH in He. rewrite (ce_pad_elem ACCOUNT_ID_BIT_WIDTH x) in He by (cbv; lia). injection He as <-.
  eapply accepts_bind; [mono|apply allocate_numbers_accepts|]. intros p ->.
  eapply accepts_bind; [mono|apply accepts_assert|]. cbv beta. intros [] Hl%Nat.eqb_eq.
  eapply accepts_bind; [mono| |].
  { fe_step. fe_step. fe_step. apply accepts_ret. instantiate (1 := λ ac, ∃ n h ad, nonce = Some n ∧ hash = Some h ∧ addr = Some ad ∧
      ac = mkAccountContent (elem NONCE_BIT_WIDTH n) (elem NEW_PUBKEY_HASH_WIDTH h) (elem ETH_ADDRESS_BIT_WIDTH ad) ∧
      small NONCE_BIT_WIDTH n = true ∧ small NEW_PUBKEY_HASH_WIDTH h = true ∧ small ETH_ADDRESS_BIT_WIDTH ad = true).
    by eexists _, _, _. }
  intros ? (n & h & ad & -> & -> & -> & -> & Hn & Hh & Had).
  eapply accepts_bind; [mono|apply allocate_numbers_accepts|]. intros tp ->.
  eapply accepts_bind; [mono|apply accepts_assert|]. cbv beta. intros [] Hl'%Nat.eqb_eq.
  apply accepts_ret. exists (mkOpened n h ad p x tp). split; [done|]. split; [by rewrite Hx|done].
Qed.

(** The side that a chunk opens. *)
Definition on_left (ty c : Fr) : bool := fr_eqb (fr_of_uint 0) (if fr_eqb ty (fr_of_uint 1) then fr_of_uint 0 else c).

Lemma select_vec_evals a b x y :
  length x = length y → evals (select_vec_ifeq a b x y) (if fr_eqb a b then x else y) true.
Proof.
  intros Hl. unfold select_vec_ifeq. eapply evals_seq; [by apply evals_assert, Nat.eqb_eq|]. eapply evals_eq.
  - apply (evals_map _ (λ p, if fr_eqb a b then p.1 else p.2)). intros p _. apply num_select_ifeq_evals.
  - destruct (fr_eqb a b); [apply fst_zip; lia|apply snd_zip; lia].
  - done.
Qed.

Lemma select_branch_accepts l r ty c last :
  length (o_path l) = length (o_path r) → length (o_token_path l) = length (o_token_path r) →
  accepts (select_branch (branch_elems l) (branch_elems r) (chunk_elems ty c last))
    (λ e, e = branch_elems (if on_left ty c then l else r)).
Proof.
  intros Hp Ht. unfold select_branch. cbv zeta. eapply accepts_step; [apply num_select_ifeq_evals|mono|]. intros _.
  eapply accepts_step; [apply num_equals_evals|mono|]. intros _.
  cbn [chunk_elems cd_tx_type get_number elem ce_number chunk_number]. fold (on_left ty c).
  do 3 (eapply accepts_step; [apply select_evals; cbv; lia|mono|]; intros _).
  eapply accepts_step; [by apply select_vec_evals|mono|]. intros _.
  eapply accepts_step; [apply select_evals; cbv; lia|mono|]. intros _.
  eapply accepts_step; [by apply select_vec_evals|mono|]. intros _.
  apply accepts_ret. cbn [branch_elems ab_account_audit_path ab_token_audit_path]. fold (on_left ty c). by destruct (on_left ty c).
Qed.

(** The bits of an account without its state root. *)
Definition content_bits (v : Opened) : list bool :=
  bits_n NONCE_BIT_WIDTH (o_nonce v) ++ bits_n NEW_PUBKEY_HASH_WIDTH (o_pub_key_hash v)
  ++ bits_n ETH_ADDRESS_BIT_WIDTH (o_address v).
Definition padded_root (x : Fr) : list bool := vec_resize FR_BIT_WIDTH_PADDED false (bits_n Fr_NUM_BITS x).

(** The token root, with the token itself as the leaf; the root of the account tree; and whether the
    packed data of the account are zero. *)
Definition opened_token_root (v : Opened) (token : Fr) : Fr :=
  path_root (bits_n TOKENID_BIT_WIDTH token) (bits_n TOKENID_BIT_WIDTH token) (o_token_path v).
Definition root_with (token_root : Fr) (v : Opened) : Fr :=
  path_root (content_bits v ++ padded_root (state_root_of token_root)) (bits_n ACCOUNT_ID_BIT_WIDTH (o_id v)) (o_path v).
Definition opened_root (v : Opened) (token : Fr) : Fr := root_with (opened_token_root v token) v.
Definition opened_empty (v : Opened) : bool := fr_eqb (le_bit_vector_into_field_element (content_bits v)) (fr_of_uint 0).

Lemma padded_le_elem n x m : (n ≤ m)%nat → into_padded_le_bits (elem n x) m = Val (vec_resize m false (bits_n n x)).
Proof.
  intros Hn. unfold into_padded_le_bits. cbn [elem ce_bits_le]. by rewrite bits_n_length, (proj2 (Nat.leb_le _ _) Hn).
Qed.

Lemma check_account_data_evals v token :
  (length (o_path v) ≤ account_tree_depth)%nat → (length (o_token_path v) ≤ token_tree_depth)%nat →
  evals (check_account_data (branch_elems v) (elem TOKENID_BIT_WIDTH token))
    (opened_root v token, opened_empty v, elem Fr_NUM_BITS (opened_token_root v token)) true.
Proof.
  intros Hp Ht. unfold check_account_data, allocate_account_leaf_bits. cbv zeta. eapply evals_seq.
  { eapply evals_seq; [apply allocate_merkle_root_evals; cbn [elem ce_get_bits_le ce_bits_le branch_elems ab_token_audit_path];
      rewrite bits_n_length; unfold token_tree_depth, TOKEN_TREE_DEPTH_VALUE, TOKENID_BIT_WIDTH in *; lia|].
    eapply evals_seq; [apply pack_bits_evals|]. eapply evals_seq; [apply num_equals_evals|].
    eapply evals_seq; [apply from_number_evals|]. eapply evals_seq; [apply calc_state_root_evals|].
    eapply evals_seq; [apply evals_total, padded_le_elem; cbv; lia|]. apply evals_ret. }
  cbv iota. eapply evals_seq.
  { apply allocate_merkle_root_evals. cbn [elem ce_get_bits_le ce_bits_le branch_elems ab_account_id ab_account_audit_path].
    by rewrite bits_n_length. }
  apply evals_ret.
Qed.

(** ** The sequence of chunks *)

(** The kinds of operations with the numbers of their last chunks. *)
Definition last_chunks : list (Z * Z) :=
  [(NOOP_OP_CODE, 0); (CLOSE_OP_CODE, 0); (TRANSFER_OP_CODE, 1); (DEPOSIT_OP_CODE, 5); (WITHDRAW_OP_CODE, 5);
   (TRANSFER_TO_NEW_OP_CODE, 4); (FULL_EXIT_OP_CODE, 5); (CHANGE_PUBKEY_OP_CODE, 5)].

Lemma maxchunk_polynomial :
  ∃ coeffs, generate_maxchunk_polynomial = Val coeffs ∧ ∀ x y, (x, y) ∈ last_chunks →
    evals (powers ← generate_powers (fr_of_uint x) DIFFERENT_TRANSACTIONS_TYPE_NUMBER; do_the_lookup coeffs powers) (fr_of_uint y) true.
Proof.
  destruct (interpolate_lookup last_chunks) as (coeffs & E & Hl & Hv).
  - apply (bool_decide_unpack _). by vm_compute.
  - repeat constructor; by vm_compute.
  - exists coeffs. split; [|exact Hv]. unfold generate_maxchunk_polynomial. cbv zeta.
    change [_; _; _; _; _; _; _; _] with ((λ p : Z * Z, (fr_of_uint p.1, fr_of_uint p.2)) <$> last_chunks).
    rewrite E. cbn [unwrap mbind outcome_bind]. by rewrite Hl.
Qed.

Definition last_chunk_ok (ty c : Fr) (last : bool) : Prop :=
  ∀ code n, (code, n) ∈ last_chunks → ty = fr_of_uint code → last = fr_eqb c (fr_of_uint n).

Lemma chunking_accepts op next :
  accepts (verify_correct_chunking op next)
    (λ res, ∃ ty last, tx_type op = Some ty ∧ chunk op = Some next ∧ small TX_TYPE_BIT_WIDTH ty = true ∧
       last_chunk_ok ty next last ∧
       res = (if last then fr_of_uint 0 else fr_add next (fr_of_uint 1), chunk_elems ty next last)).
Proof.
  unfold verify_correct_chunking. destruct maxchunk_polynomial as (coeffs & E & Hv). fe_step. rename x into ty.
  cbn [get_number elem ce_number]. eapply accepts_bind; [mono|apply accepts_self|]. intros powers Hp.
  eapply accepts_bind; [mono|apply accepts_total|]. intros ? Ec. rewrite E in Ec. injection Ec as <-.
  eapply accepts_bind; [mono|apply accepts_self|]. intros mx Hmx.
  eapply accepts_bind; [mono|apply accepts_grab; intros ? Ho; exact Ho|]. cbv beta. intros c Hc.
  eapply accepts_step; [apply evals_enforce|mono|]. intros ->%fr_eqb_eq.
  do 3 (eapply accepts_step; [first [apply num_equals_evals|apply num_select_evals]|mono|]; intros _).
  apply accepts_ret. exists ty, (fr_eqb next mx). repeat (split; [done|]). split; [|done].
  intros code n Hin ->. f_equal. pose proof (Hv code n Hin true) as Hlookup. unfold mbind, exec_bind in Hlookup.
  rewrite Hp, Hmx in Hlookup. by injection Hlookup.
Qed.

(** ** Chunks *)

(** What a chunk guarantees: from the state [st], the operation [op] leads to [st'].  The [token] that the account is
    opened with is not tied to the token of the operation. *)
Definition chunk_accepted (st : ChunkState) (op : CircuitOperation) (st' : ChunkState) : Prop :=
  ∃ (l r v' : Opened) (a : Arguments) (ty ext token : Fr) (last : bool),
    let c := cs_next_chunk_number st in
    let v := if on_left ty c then l else r in
    tx_type op = Some ty ∧ chunk op = Some c ∧ pubdata_chunk op = Some ext ∧ small CHUNK_BIT_WIDTH ext = true ∧
    opened_of (lhs op) l ∧ opened_of (rhs op) r ∧ opened_small v ∧ arguments_of op a ∧ arguments_small a ∧
    (same_data (data_elems a) (cs_prev st) = true ∨ c = fr_of_uint 0) ∧ last_chunk_ok ty c last ∧
    small TOKENID_BIT_WIDTH token = true ∧ opened_root v token = cs_rolling_root st ∧
    chunk_step l r a ty c ext (opened_empty v) (signature_ok op a) (signer_ok op) v v' ∧
    st' = mkChunkState (opened_root v' token) (if last then fr_of_uint 0 else fr_add c (fr_of_uint 1))
            (chunk_elems ty c last) (cs_pub_data_bits st ++ bits_n CHUNK_BIT_WIDTH ext) (data_elems a).

(** A step keeps the paths and the identifier of the account. *)
Lemma chunk_step_paths l r a ty c ext empty signed signer v v' :
  chunk_step l r a ty c ext empty signed signer v v' →
  o_path v' = o_path v ∧ o_token_path v' = o_token_path v ∧ o_id v' = o_id v.
Proof. by destruct 1; try case_match. Qed.

Lemma process_chunk_accepts adv st op : accepts (process_chunk adv st op) (chunk_accepted st op).
Proof.
  unfold process_chunk. eapply accepts_bind; [mono|apply chunking_accepts|].
  intros ? (ty & last & Hty & Hc & Hsty & Hlast & ->). fe_step. rename x into ext. cbv zeta.
  eapply accepts_bind; [mono|apply branch_from_witness_accepts|]. intros ? (l & -> & Hl & Hls).
  eapply accepts_bind; [mono|apply branch_from_witness_accepts|]. intros ? (r & -> & Hr & Hrs).
  assert (length (o_path l) = length (o_path r) ∧ length (o_token_path l) = length (o_token_path r)) as [Hp Ht].
  { destruct Hl as (_ & -> & ->), Hr as (_ & -> & ->). done. }
  eapply accepts_bind; [mono|by apply select_branch_accepts|]. intros ? ->.
  set (v := if on_left ty _ then l else r). assert (length (o_path v) = account_tree_depth ∧ length (o_token_path v) = token_tree_depth) as [Hpv Htv].
  { subst v. destruct Hl as (_ & ? & ?), Hr as (_ & ? & ?). by destruct (on_left _ _). }
  eapply accepts_bind; [mono|apply data_from_witness_accepts|]. intros ? (a & -> & Ha & Has).
  eapply accepts_step; [apply check_account_data_evals; [by rewrite Hpv|by rewrite Htv]|mono|]. intros _. cbv iota.
  eapply accepts_step; [apply evals_enforce|mono|]. intros Hroot%fr_eqb_eq.
  eapply accepts_bind; [mono|apply execute_op_accepts|]. intros ? (a' & v' & -> & Ha' & Has' & Hsame & Hstep).
  destruct (chunk_step_paths _ _ _ _ _ _ _ _ _ _ _ Hstep) as (Hp' & Ht' & _).
  eapply accepts_step; [apply check_account_data_evals; [by rewrite Hp', Hpv|by rewrite Ht', Htv]|mono|]. intros _. cbv iota.
  apply accepts_ret. exists l, r, v', a', ty, ext, (a_token_id a), last. cbv zeta. fold v.
  assert (small TOKENID_BIT_WIDTH (a_token_id a) = true) as Htoken by apply Has.
  repeat (split; [first [done|by subst v; destruct (on_left _ _)]|]). done.
Qed.

Inductive chunks_accepted : ChunkState → list CircuitOperation → ChunkState → Prop :=
| chunks_nil st : chunks_accepted st [] st
| chunks_cons st op st1 ops st2 :
    chunk_accepted st op st1 → chunks_accepted st1 ops st2 → chunks_accepted st (op :: ops) st2.

Lemma process_chunks_accepts advice st (l : list (nat * CircuitOperation)) :
  accepts (synth_fold (λ st p, process_chunk (advice p.1) st p.2) st l) (chunks_accepted st l.*2).
Proof.
  revert st. induction l as [|[i op] l IH]; intros st; cbn [synth_fold fst snd fmap list_fmap].
  - apply accepts_ret. constructor.
  - eapply accepts_bind; [mono|apply process_chunk_accepts|]. intros st1 H1. eapply accepts_mono; [apply IH|].
    intros st2 H2. by econstructor.
Qed.
Lemma imap_pair_snd (ops : list CircuitOperation) : (imap pair ops).*2 = ops.
Proof.
  apply list_eq. intros i. rewrite list_lookup_fmap, list_lookup_imap. by destruct (ops !! i).
Qed.

(** ** Types *)

(** An element of [n] bits: the bits are those of the number, which is below [2^n]. *)
Definition well_typed (n : nat) (e : CircuitElement) : Prop :=
  ce_length e = n ∧ 0 ≤ fr_val (ce_number e) < 2 ^ Z.of_nat n ∧ ce_bits_le e = le_bits n (fr_val (ce_number e)).
Definition data_typed (od : AllocatedOperationData) : Prop :=
  well_typed FEE_BITS (od_fee_packed od) ∧ well_typed BALANCE_BIT_WIDTH (od_fee od) ∧
  well_typed Fr_CAPACITY (od_first_sig_msg od) ∧ well_typed Fr_CAPACITY (od_second_sig_msg od) ∧
  well_typed (MAX_CIRCUIT_MSG_HASH_BITS - 2 * Fr_CAPACITY) (od_third_sig_msg od) ∧
  well_typed NEW_PUBKEY_HASH_WIDTH (od_new_pubkey_hash od) ∧ well_typed ETH_ADDRESS_BIT_WIDTH (od_eth_address od) ∧
  well_typed NONCE_BIT_WIDTH (od_pub_nonce od) ∧ well_typed TOKENID_BIT_WIDTH (od_token_id od).
Definition branch_typed (b : AllocatedOperationBranch) : Prop :=
  well_typed NONCE_BIT_WIDTH (ac_nonce (ab_account b)) ∧ well_typed NEW_PUBKEY_HASH_WIDTH (ac_pub_key_hash (ab_account b)) ∧
  well_typed ETH_ADDRESS_BIT_WIDTH (ac_address (ab_account b)) ∧ well_typed ACCOUNT_ID_BIT_WIDTH (ab_account_id b) ∧
  length (ab_account_audit_path b) = account_tree_depth ∧ length (ab_token_audit_path b) = token_tree_depth.

Lemma elem_typed n x : (n ≤ 256)%nat → small n x = true → well_typed n (elem n x).
Proof. intros Hn Hs. split; [done|]. split; [by apply small_val|]. by apply bits_n_val. Qed.

(** C37: When the constraints of the allocation are satisfied, every field of an operation and of its branches is an
    element of its width, whose bits are those of its number, and the Merkle paths have the depths of
    their trees. *)
Theorem allocated_operation_well_typed op od l r :
  AllocatedOperationData_from_witness op true = Val (Ok od, true) →
  AllocatedOperationBranch_from_witness (lhs op) true = Val (Ok l, true) →
  AllocatedOperationBranch_from_witness (rhs op) true = Val (Ok r, true) →
  data_typed od ∧ branch_typed l ∧ branch_typed r.
Proof.
  intros (a & -> & _ & Ha)%data_from_witness_accepts (vl & -> & (_ & Hl1 & Hl2) & Hl)%branch_from_witness_accepts
    (vr & -> & (_ & Hr1 & Hr2) & Hr)%branch_from_witness_accepts.
  assert (∀ n, (n <=? 256)%nat = true → (n ≤ 256)%nat) as Hle by (intros n; apply Nat.leb_le).
  unfold arguments_small, opened_small in *. destruct_and!. unfold data_typed, branch_typed.
  split_and!; first [done | apply elem_typed; [by apply Hle|done]].
Qed.
End Chunks.
