(* ===== verification/CircuitSound.v ===== *)
(** * Soundness of the circuit

    A circuit whose constraints are satisfied proves a block: the chunks lead from the
    old root to the root that is committed to, and the public input is the commitment
    that the contract computes from the published data.

    The theorems hold for every assignment of the variables that no constraint fixes
    ([ChunkAdvice]).  What a satisfied chunk may change: the nonce, the key and the address of an account
    change only with its owner's signature, or as an operation that the contract
    authorises; the tokens of the account never change. *)

From S2P Require Import Prelude Bytes Params Externals Primitives Account Tx Operations Block Merkle.
From S2P Require Import AccountLeaf BlockStorage BlockStorageProofs CircuitTree Witness WitnessOps WitnessProofs WitnessLedger Gadgets Element.
From S2P Require Import CircuitSignature Circuit SynthLogic CircuitOps CircuitOpsProofs SynthMono CircuitProofs.
Open Scope Z_scope.

(** ** Bits and bytes *)

Lemma be_bits_of_byte c : length c = 8%nat → byte_be_bits 8 (or_bits_be 0 0 c) = c.
Proof.
  intros H. do 8 (destruct c as [|? c]; [done|]). destruct c; [|done].
  repeat match goal with b : bool |- _ => destruct b end; done.
Qed.
Lemma or_bits_be_byte c : length c = 8%nat → is_byte (or_bits_be 0 0 c).
Proof.
  intros H. do 8 (destruct c as [|? c]; [done|]). destruct c; [|done].
  repeat match goal with b : bool |- _ => destruct b end; done.
Qed.

(** Whole bytes of bits are the bits of bytes. *)
Lemma bits_are_bytes k bits :
  length bits = (k * 8)%nat → ∃ l, Forall is_byte l ∧ length l = k ∧ bytes_into_be_bits l = bits.
Proof.
  revert bits. induction k as [|k IH]; intros bits Hl; [by exists []; destruct bits|].
  destruct (IH (drop 8 bits)) as (l & Hb & Hk & E); [rewrite length_drop; lia|].
  assert (length (take 8 bits) = 8%nat) as H8 by (rewrite length_take; lia).
  exists (or_bits_be 0 0 (take 8 bits) :: l). split; [constructor; [by apply or_bits_be_byte|done]|]. split; [by rewrite <- Hk|].
  unfold bytes_into_be_bits in *. rewrite fmap_cons. cbn [concat]. rewrite E, be_bits_of_byte by done. apply take_drop.
Qed.

Lemma vec_resize_le_bits n m z :
  (n ≤ m)%nat → 0 ≤ z < 2 ^ Z.of_nat n → vec_resize m false (le_bits n z) = le_bits m z.
Proof.
  intros Hnm Hz. unfold vec_resize. rewrite take_ge, le_bits_length by (by rewrite le_bits_length).
  replace m with (n + (m - n))%nat at 2 by lia. rewrite le_bits_split, Z.div_small, le_bits_zero by done. done.
Qed.

Section Sound.
  Context `{EX : External} `{EXL : !ExternalLaws} `{G : !Gadgets} `{GL : !GadgetLaws}.

(** ** The public input *)

Lemma padded_be_elem n x m : (n ≤ m)%nat → into_padded_be_bits (elem n x) m = Val (reverse (vec_resize m false (bits_n n x))).
Proof.
  intros Hn. unfold into_padded_be_bits. cbn [elem ce_bits_le]. by rewrite bits_n_length, (proj2 (Nat.leb_le _ _) Hn).
Qed.

Lemma padded_be_uint n v :
  (n ≤ 253)%nat → 0 ≤ v < 2 ^ Z.of_nat n →
  into_padded_be_bits (elem n (fr_of_uint v)) 256 = Val (bytes_into_be_bits (to_be_bytes 32 v)).
Proof.
  intros Hn Hv. rewrite padded_be_elem by lia. rewrite bits_n_uint, vec_resize_le_bits by
    (try lia; assert (2 ^ Z.of_nat n ≤ 2 ^ 253) by (apply Z.pow_le_mono_r; lia); unfold fits; lia).
  by rewrite (be_bits_of_bytes 32).
Qed.

Lemma padded_be_root x : into_padded_be_bits (elem Fr_NUM_BITS x) 256 = Val (bytes_into_be_bits (fe_to_bytes x)).
Proof.
  rewrite padded_be_elem by (cbv; lia). rewrite bits_n_val by (cbv; lia). pose proof (fr_val_range x). pose proof (fr_num_bits x).
  assert (Fr_NUM_BITS ≤ 256)%nat by (cbv; lia). rewrite vec_resize_le_bits by lia. rewrite <- packed_be_bits_fe. unfold packed_be_bits.
  rewrite bit_iterator_length, (proj1 (fr_repr_limbs x)). cbn [Nat.mul Nat.add Nat.sub replicate app].
  rewrite bit_iterator_be, <- fr_bits_256. fold (bits_n 256 x). by rewrite bits_n_val.
Qed.

Lemma sha256_bytes m : Forall is_byte (sha256 m).
Proof. apply sha256_array. Qed.

(** The low bits of a hash. *)
Lemma hash_low_bits h :
  is_array 32 h →
  le_bit_vector_into_field_element (take Fr_CAPACITY (reverse (bytes_into_be_bits h))) = fr_of_uint (from_be_bytes h mod 2 ^ 253).
Proof.
  intros Hh. rewrite <- (to_from_be_bytes 32 h Hh) at 1. rewrite (be_bits_of_bytes 32), reverse_involutive.
  rewrite take_le_bits by (cbv; lia). rewrite le_bit_vector_spec by (by rewrite le_bits_length). f_equal.
  rewrite <- (le_bits_mod Fr_CAPACITY Fr_CAPACITY) by done. apply le_bits_le_val. by apply Z.mod_pos_bound.
Qed.

Lemma public_data_hash_evals block validator old_root new_root data :
  fits 32 block → fits 24 validator → Forall is_byte data →
  evals (public_data_hash (elem BLOCK_NUMBER_BIT_WIDTH (fr_of_uint block)) (elem ACCOUNT_ID_BIT_WIDTH (fr_of_uint validator))
           (elem Fr_NUM_BITS old_root) (elem Fr_NUM_BITS new_root) (bytes_into_be_bits data))
    (fr_of_uint (commitment_of data old_root new_root validator block)) true.
Proof.
  intros Hb Hv Hd. unfold public_data_hash. eapply evals_seq; [apply evals_total, padded_be_uint; [cbv; lia|done]|].
  eapply evals_seq; [apply evals_total, padded_be_uint; [cbv; lia|done]|]. cbv zeta. rewrite <- be_bits_app.
  eapply evals_seq; [apply evals_assert; by rewrite bytes_into_be_bits_length, length_app, !to_be_bytes_length|].
  eapply evals_seq; [apply sha256_evals, Forall_app_2; apply to_be_bytes_array|].
  eapply evals_seq; [apply evals_total, padded_be_root|]. rewrite <- be_bits_app.
  eapply evals_seq; [apply sha256_evals, Forall_app_2; [apply sha256_bytes|apply fe_to_bytes_bytes]|].
  eapply evals_seq; [apply evals_total, padded_be_root|]. rewrite <- be_bits_app.
  eapply evals_seq; [apply sha256_evals, Forall_app_2; [apply sha256_bytes|apply fe_to_bytes_bytes]|]. rewrite <- be_bits_app.
  eapply evals_seq; [apply sha256_evals, Forall_app_2; [apply sha256_bytes|done]|].
  eapply evals_eq; [apply pack_bits_evals| |done]. rewrite hash_low_bits by apply sha256_array. done.
Qed.

(** ** The operator *)

Definition hash_level (l : list Fr) : list Fr := rescue_hash <$> chunks 2 l.
Definition levels (depth : nat) (l : list Fr) : list Fr := Nat.iter depth hash_level l.

Lemma hash_levels_evals depth l : evals (hash_levels depth l) (levels depth l) true.
Proof.
  revert l. induction depth as [|depth IH]; intros l; cbn [hash_levels]; [apply evals_ret|].
  eapply evals_seq; [apply (evals_map _ rescue_hash); intros; apply hash_single_evals|].
  eapply evals_eq; [apply IH| |done]. unfold levels. symmetry. apply Nat.iter_succ_r.
Qed.

Definition balances_root (balances : list Fr) : option Fr :=
  match levels token_tree_depth ((λ x, rescue_hash [x]) <$> balances) with [x] => Some x | _ => None end.

Lemma full_representation_accepts balances :
  accepts (calculate_root_from_full_representation_fees balances)
    (λ root, balances_root balances = Some root ∧ Forall (λ x, small BALANCE_BIT_WIDTH x = true) balances).
Proof.
  unfold calculate_root_from_full_representation_fees. eapply accepts_bind.
  { intros. eapply bind_mono; [eapply evals_Mono, hash_levels_evals|]. mono. }
  { apply (accepts_map _ (λ x h, h = rescue_hash [x] ∧ small BALANCE_BIT_WIDTH x = true)).
    - intros x. apply bind_mono; [eapply evals_Mono, limit_number_of_bits_evals; cbv; lia|]. mono.
    - intros x. eapply accepts_step; [apply limit_number_of_bits_evals; cbv; lia|mono|]. intros Hs.
      eapply evals_accepts; [apply hash_single_evals|done]. }
  intros hashes H. assert (hashes = (λ x, rescue_hash [x]) <$> balances ∧ Forall (λ x, small BALANCE_BIT_WIDTH x = true) balances) as [-> Hs].
  { clear - H. induction H as [|x h l hs [-> Hx] H [-> IH]]; [done|]. split; [done|by constructor]. }
  eapply accepts_step; [apply hash_levels_evals|mono|]. intros _. unfold balances_root.
  destruct (levels _ _) as [|root [|]]; [intros ? E; by unfold assert_synth, mbind, exec_bind in E| |intros ? E; by unfold assert_synth, mbind, exec_bind in E].
  eapply accepts_step; [by apply evals_assert|mono|]. intros _. eapply evals_accepts; [by apply evals_total|done].
Qed.

#[local] Instance full_representation_mono l : Mono (calculate_root_from_full_representation_fees l).
Proof.
  unfold calculate_root_from_full_representation_fees. apply bind_mono.
  - apply synth_map_mono. intros x. apply bind_mono; [eapply evals_Mono, limit_number_of_bits_evals; cbv; lia|]. mono.
  - intros ?. apply bind_mono; [eapply evals_Mono, hash_levels_evals|]. mono.
Qed.
#[local] Instance operator_root_mono a b i p : Mono (operator_root a b i p).
Proof. unfold operator_root. mono. Qed.
#[local] Instance allocate_sum_mono a b : Mono (allocate_sum a b).
Proof. eapply evals_Mono, allocate_sum_evals. Qed.
#[local] Instance apply_fees_mono f b : Mono (apply_fees_to_operator f b).
Proof. revert b. induction f as [|x f IH]; intros [|y b]; cbn [apply_fees_to_operator]; mono. Qed.
#[local] Instance public_data_hash_mono b v o n d : Mono (public_data_hash b v o n d).
Proof. unfold public_data_hash. mono. Qed.

Lemma merkle_root_accepts leaf index path :
  accepts (allocate_merkle_root leaf index path) (λ root, root = path_root leaf index path).
Proof.
  destruct (decide (length path ≤ length index)%nat) as [Hl|Hl].
  - eapply evals_accepts; [by apply allocate_merkle_root_evals|done].
  - intros root. unfold allocate_merkle_root, assert_synth, mbind, exec_bind.
    by rewrite (proj2 (Nat.leb_nle _ _) Hl).
Qed.

(** The account of the operator, opened with all its tokens. *)
Definition operator_leaf_root (account : AccountContent) (token_root : Fr) (index : list bool) (path : list Fr) : Fr :=
  path_root (account_content_bits account ++ padded_root (state_root_of token_root)) index path.

Lemma operator_root_accepts account balances index path :
  accepts (operator_root account balances index path)
    (λ root, ∃ token_root, balances_root balances = Some token_root ∧ Forall (λ x, small BALANCE_BIT_WIDTH x = true) balances ∧
       root = operator_leaf_root account token_root index path).
Proof.
  unfold operator_root. eapply accepts_bind; [mono|apply full_representation_accepts|]. intros root [Hroot Hs].
  eapply accepts_step; [apply from_number_evals|mono|]. intros _.
  eapply accepts_step; [apply calc_state_root_evals|mono|]. intros _.
  eapply accepts_step; [apply evals_total, padded_le_elem; cbv; lia|mono|]. intros _. cbv zeta.
  eapply accepts_mono; [apply merkle_root_accepts|]. intros ? ->. eauto.
Qed.

(** Fees of zero change nothing. *)
Lemma apply_fees_accepts n balances :
  Forall (λ x, small BALANCE_BIT_WIDTH x = true) balances →
  accepts (apply_fees_to_operator (replicate n (fr_of_uint 0)) balances) (λ res, res = balances).
Proof.
  intros Hs. revert n. induction Hs as [|x balances Hx Hs IH]; intros [|n]; cbn [replicate apply_fees_to_operator];
    try (by apply accepts_ret); [done|].
  eapply accepts_step; [apply allocate_sum_evals|mono|]. intros _. eapply accepts_bind; [mono|apply IH|]. intros ? ->.
  apply accepts_ret. f_equal. apply fr_add_0_r. apply small_val in Hx.
  assert (2 ^ Z.of_nat BALANCE_BIT_WIDTH ≤ 2 ^ 253) by (by apply Z.pow_le_mono_r). lia.
Qed.

(** ** Blocks *)

Definition initial_state (old_root : Fr) : ChunkState :=
  mkChunkState old_root (fr_of_uint 0)
    (mkChunkData false false (fr_of_uint 0) (unsafe_empty_of_some_length (fr_of_uint 0) 256)) []
    (empty_from_zero (fr_of_uint 0)).

Lemma chunks_accepted_data st ops st' :
  chunks_accepted st ops st' → length (cs_pub_data_bits st') = (length (cs_pub_data_bits st) + length ops * 8 * 8)%nat.
Proof.
  induction 1 as [|st op st1 ops st2 (l & r & v' & a & ty & ext & token & last & H) _ IH]; [cbn; lia|].
  rewrite IH. destruct H as (_ & _ & _ & _ & _ & _ & _ & _ & _ & _ & _ & _ & _ & _ & ->). cbn [cs_pub_data_bits].
  rewrite length_app, bits_n_length. cbn [length]. unfold CHUNK_BIT_WIDTH. lia.
Qed.

Lemma account_content_accepts w :
  accepts (AccountContent_from_witness w)
    (λ ac, ∃ n h ad, w = mkAccountWitness (Some n) (Some h) (Some ad) ∧
       ac = mkAccountContent (elem NONCE_BIT_WIDTH n) (elem NEW_PUBKEY_HASH_WIDTH h) (elem ETH_ADDRESS_BIT_WIDTH ad)).
Proof.
  destruct w as [n h ad]. unfold AccountContent_from_witness. cbn [aw_nonce aw_pub_key_hash aw_address].
  do 3 (eapply accepts_bind; [mono|apply from_fe_accepts; cbv; lia|]; intros ? (? & -> & -> & _)).
  apply accepts_ret. by eexists _, _, _.
Qed.

(** What a satisfied circuit proves of its public input. *)
Record block_proved (c : FranklinCircuit) (old_root : Fr) (st : ChunkState) (data : bytes) (validator block : Z) : Prop := {
  bp_old_root : fc_old_root c = Some old_root;
  bp_chunks : chunks_accepted (initial_state old_root) (fc_operations c) st;
  bp_whole : is_chunk_last (cs_chunk_data st) = true;
  bp_data : cs_pub_data_bits st = bytes_into_be_bits data ∧ Forall is_byte data ∧ length data = (length (fc_operations c) * 8)%nat;
  bp_validator : fc_validator_address c = Some (fr_of_uint validator) ∧ fits 24 validator;
  bp_block : fc_block_number c = Some (fr_of_uint block) ∧ fits 32 block;
  bp_operator : ∃ account balances token_root path,
    fc_validator_balances c = Some <$> balances ∧ fc_validator_audit_path c = Some <$> path ∧
    balances_root balances = Some token_root ∧
    operator_leaf_root account token_root (bits_n ACCOUNT_ID_BIT_WIDTH (fr_of_uint validator)) path = cs_rolling_root st;
  bp_commitment : fc_pub_data_commitment c =
    Some (fr_of_uint (commitment_of data old_root (cs_rolling_root st) validator block));
}.

Lemma small_fits n x : (n ≤ 253)%nat → small n x = true → ∃ v, x = fr_of_uint v ∧ fits (Z.of_nat n) v.
Proof. intros Hn Hs. exists (fr_val x). split; [by apply (small_of n)|by apply small_val]. Qed.

(** The first half of the circuit: everything up to the chunks is allocated. *)
Lemma synthesize_accepts advice c :
  accepts (synthesize advice c) (λ _, ∃ old_root st data validator block, block_proved c old_root st data validator block).
Proof.
  unfold synthesize. cbv zeta. eapply accepts_step; [apply evals_alloc|mono|]. intros _.
  eapply accepts_step; [apply evals_enforce|mono|]. intros _.
  eapply accepts_bind; [mono|apply accepts_grab; intros ? Ho; exact Ho|]. cbv beta. intros commitment Hcommitment.
  eapply accepts_step; [apply inputize_evals|mono|]. intros _.
  eapply accepts_bind; [mono|apply from_fe_accepts; cbv; lia|]. intros ? (vx & Hvx & -> & Hvs).
  eapply accepts_bind; [mono|apply accepts_assert|]. intros [] _.
  eapply accepts_bind; [mono|apply allocate_numbers_accepts|]. intros balances Hbalances.
  eapply accepts_bind; [mono|apply allocate_numbers_accepts|]. intros path Hpath.
  eapply accepts_bind; [mono|apply account_content_accepts|]. intros account _.
  eapply accepts_bind; [mono|apply accepts_grab; intros ? Ho; exact Ho|]. cbv beta. intros old_root Hroot.
  eapply accepts_step; [apply from_number_evals|mono|]. intros _.
  eapply accepts_bind; [mono|apply (process_chunks_accepts advice (initial_state old_root))|]. intros st Hst. rewrite imap_pair_snd in Hst.
  eapply accepts_step; [apply evals_enforce|mono|]. intros Hlast.
  eapply accepts_bind; [mono|apply operator_root_accepts|]. intros ? (token_root & Htoken & Hsmall & ->).
  eapply accepts_step; [apply evals_enforce|mono|]. intros Hop%fr_eqb_eq.
  eapply accepts_bind; [mono|by apply apply_fees_accepts|]. intros ? ->.
  eapply accepts_bind; [mono|apply operator_root_accepts|]. intros ? (token_root' & Htoken' & _ & ->).
  rewrite Htoken in Htoken'. injection Htoken' as <-. rewrite Hop.
  eapply accepts_step; [apply from_number_evals|mono|]. intros _.
  eapply accepts_bind; [mono|apply from_fe_accepts; cbv; lia|]. intros ? (bx & Hbx & -> & Hbs).
  destruct (small_fits ACCOUNT_ID_BIT_WIDTH vx) as (validator & -> & Hv); [cbv; lia|done|].
  destruct (small_fits BLOCK_NUMBER_BIT_WIDTH bx) as (block & -> & Hb); [cbv; lia|done|].
  destruct (bits_are_bytes (length (fc_operations c) * 8) (cs_pub_data_bits st)) as (data & Hd & Hl & E).
  { apply chunks_accepted_data in Hst. exact Hst. }
  rewrite <- E. eapply accepts_step; [by apply public_data_hash_evals|mono|]. intros _.
  eapply evals_accepts; [apply evals_enforce|]. intros ->%fr_eqb_eq.
  exists old_root, st, data, validator, block. split; try done. by exists account, balances, token_root, path.
Qed.

End Sound.

Section Safety.
  Context `{EX : External} `{EXL : !ExternalLaws} `{G : !Gadgets} `{GL : !GadgetLaws}.

(** The owner of the account signs a kind of operation, the account and its address, a recipient,
    the arguments and the current nonce.  The kind is that of the operation, but for transfers to new accounts. *)
Definition owner_signed (op : CircuitOperation) (v : Opened) : Prop :=
  ∃ a code to, arguments_of op a ∧ (tx_type op = Some code ∨ tx_type op = Some (fr_of_uint TRANSFER_TO_NEW_OP_CODE)) ∧
    signature_ok op a (signed_message code (o_id v) (o_address v) to (o_nonce v) a) (o_pub_key_hash v).

(** The change of a key that the contract checks: the address and the nonce are those of the account, and the chunk
    publishes the first chunk of the data of the change. *)
Definition key_change (op : CircuitOperation) (v v' : Opened) : Prop :=
  ∃ a, arguments_of op a ∧ tx_type op = Some (fr_of_uint CHANGE_PUBKEY_OP_CODE) ∧ chunk op = Some (fr_of_uint 0) ∧
    a_new_pubkey_hash a = o_pub_key_hash v' ∧ a_eth_address a = o_address v ∧ a_pub_nonce a = o_nonce v ∧
    pubdata_chunk op = Some (le_bit_vector_into_field_element
      (chunk_bits (change_pubkey_data v a (fr_of_uint CHANGE_PUBKEY_OP_CODE)) 0)).

Record change_authorised (op : CircuitOperation) (v v' : Opened) : Prop := {
  ca_place : o_id v' = o_id v ∧ o_path v' = o_path v;
  ca_tokens token : opened_token_root v' token = opened_token_root v token;
  ca_nonce : o_nonce v' ≠ o_nonce v →
    o_nonce v' = next_nonce v ∧ chunk op = Some (fr_of_uint 0) ∧ (owner_signed op v ∨ key_change op v v');
  ca_pub_key_hash : o_pub_key_hash v' ≠ o_pub_key_hash v → key_change op v v' ∧ o_nonce v' = next_nonce v;
  ca_address : o_address v' ≠ o_address v → opened_empty v = true ∧ arg_eth_address (op_args op) = Some (o_address v');
}.

Lemma on_left_first ty : on_left ty (fr_of_uint 0) = true.
Proof. unfold on_left. destruct (fr_eqb ty _); apply fr_eqb_refl. Qed.

Lemma step_key_change op a c ext v :
  tx_type op = Some (fr_of_uint CHANGE_PUBKEY_OP_CODE) → chunk op = Some c → pubdata_chunk op = Some ext → arguments_of op a →
  publishes c ext (change_pubkey_data v a (fr_of_uint CHANGE_PUBKEY_OP_CODE)) CHANGE_PUBKEY_CHUNKS →
  a_eth_address a = o_address v → c = fr_of_uint 0 → o_nonce v = a_pub_nonce a →
  key_change op v (with_nonce (next_nonce v) (with_pub_key_hash (a_new_pubkey_hash a) v)).
Proof.
  intros Hty Hc Hx Ha Hd Had -> Hn. exists a. split; [done|]. split; [done|]. split; [done|]. split; [done|].
  split; [done|]. split; [done|]. rewrite Hx. f_equal. apply Hd; [cbv; lia|done].
Qed.

Lemma step_authorised op l r a ty c ext v v' :
  tx_type op = Some ty → chunk op = Some c → pubdata_chunk op = Some ext → arguments_of op a → v = (if on_left ty c then l else r) →
  chunk_step l r a ty c ext (opened_empty v) (signature_ok op a) (signer_ok op) v v' → change_authorised op v v'.
Proof.
  intros Hty Hc Hx Ha Hv Hstep. destruct (chunk_step_paths _ _ _ _ _ _ _ _ _ _ _ Hstep) as (Hp & Ht & Hid).
  split; [done|intros; by unfold opened_token_root; rewrite Ht|..].
  - destruct Hstep as [|? ? ?|Hk Hd -> Hs Hm| |code Hk Hd -> Hcode Hs Hm| | |Hk Hd -> Hs Hm| |Hk Hd Had -> Hn Hm|]; try done.
    + by case_match.
    + intros _. split; [done|]. split; [done|]. left. rewrite on_left_first in Hv. subst v. exists a, ty, (o_address r). auto.
    + intros _. split; [done|]. split; [done|]. left. rewrite on_left_first in Hv. subst v.
      exists a, code, (a_eth_address a). rewrite Hty, Hk. auto.
    + intros _. split; [done|]. split; [done|]. left. exists a, ty, (a_eth_address a). auto.
    + intros _. split; [done|]. split; [done|]. right. hnf in Hk. subst ty. by eapply step_key_change.
  - destruct Hstep as [| | | | | | | | |Hk Hd Had Hc' Hn Hm|]; try done; [by case_match|]. intros _. split; [|done].
    hnf in Hk. subst ty. by eapply step_key_change.
  - destruct Hstep as [|Hk Hd [E|E]| | | | | | | | |]; try done; destruct Ha as (A1 & _).
    + case_match; [|done]. intros []. exact E.
    + by case_match.
    + by intros _.
Qed.


(** ** The chunks of an operation *)

(** The arguments that the chunks of an operation share. *)
Definition same_arguments (op op' : CircuitOperation) : Prop :=
  arg_fee (op_args op) = arg_fee (op_args op') ∧ arg_eth_address (op_args op) = arg_eth_address (op_args op') ∧
  arg_new_pub_key_hash (op_args op) = arg_new_pub_key_hash (op_args op') ∧ arg_token_id (op_args op) = arg_token_id (op_args op').

(** Chunks that the circuit takes for one operation: the numbers count up from [c], with the arguments of the chunk before,
    to a chunk that is the last one of its own kind; the kinds of the others are not tied to it, they only have more
    chunks.  [prev] is the chunk before. *)
Inductive chunk_group : option CircuitOperation → Z → list CircuitOperation → Prop :=
| group_last prev c op code :
    chunk op = Some (fr_of_uint c) → tx_type op = Some (fr_of_uint code) → (code, c) ∈ last_chunks →
    from_option (same_arguments op) True prev → chunk_group prev c [op]
| group_next prev c op code n ops :
    chunk op = Some (fr_of_uint c) → tx_type op = Some (fr_of_uint code) → (code, n) ∈ last_chunks → c ≠ n →
    from_option (same_arguments op) True prev → chunk_group (Some op) (c + 1) ops → chunk_group prev c (op :: ops).

Lemma step_type l r a ty c ext empty signed signer v v' :
  chunk_step l r a ty c ext empty signed signer v v' →
  ∃ code n, ty = fr_of_uint code ∧ (code, n) ∈ last_chunks ∧ 0 ≤ n < 6.
Proof.
  unfold last_chunks. destruct 1 as [H|H|H|H|? H|H|H|H|H|H|H];
    (eexists _, _; split; [exact H|]; split; [repeat first [left|right]|by split]).
Qed.

Lemma same_data_arguments op op' a a' :
  arguments_of op a → arguments_of op' a' → same_data (data_elems a) (data_elems a') = true → same_arguments op op'.
Proof.
  intros (A1 & A2 & A3 & _ & A5 & _) (B1 & B2 & B3 & _ & B5 & _). unfold same_data. cbn [forallb]. unfold id.
  rewrite !andb_true_iff, !fr_eqb_eq. cbn. intros (E1 & E2 & E3 & E4 & _). unfold same_arguments. rewrite A1, A2, A3, A5, B1, B2, B3, B5. by rewrite E1, E2, E3, E4.
Qed.

(** The data that the next chunk is compared with are those of [prev]. *)
Definition follows_chunk (prev : option CircuitOperation) (c : Z) (st : ChunkState) : Prop :=
  match prev with
  | None => c = 0
  | Some op => c ≠ 0 ∧ ∃ a, arguments_of op a ∧ cs_prev st = data_elems a
  end.

Lemma chunks_grouped st ops st' k prev :
  chunks_accepted st ops st' → cs_next_chunk_number st = fr_of_uint k → 0 ≤ k → k + Z.of_nat (length ops) < 2 ^ 253 →
  follows_chunk prev k st → is_chunk_last (cs_chunk_data st') = true → ops ≠ [] →
  ∃ g rest, ops = g ++ concat rest ∧ chunk_group prev k g ∧ Forall (chunk_group None 0) rest.
Proof.
  intros H. revert k prev. induction H as [|st op st1 ops st2 (l & r & v' & a & ty & ext & token & last & H) Hrest IH];
    intros k prev Hk H0 Hb Hprev Hlast Hne; [done|].
  cbv zeta in H. destruct H as (Hty & Hc & _ & _ & _ & _ & _ & Ha & _ & Hsame & Hok & _ & _ & Hstep & ->). rewrite Hk in *.
  destruct (step_type _ _ _ _ _ _ _ _ _ _ _ Hstep) as (code & n & -> & Hin & Hn). cbn [length] in Hb.
  pose proof (Hok code n Hin eq_refl) as El. rewrite fr_eqb_uint in El by (unfold fits; lia).
  assert (from_option (same_arguments op) True prev) as Hargs.
  { destruct prev as [op0|]; [|done]. destruct Hprev as (Hk0 & a0 & Ha0 & E0). destruct Hsame as [Hsame|Hz].
    - rewrite E0 in Hsame. by eapply same_data_arguments.
    - apply fr_eqb_eq in Hz. rewrite fr_eqb_uint in Hz by (unfold fits; lia). lia. }
  destruct last.
  - symmetry in El. apply Z.eqb_eq in El as ->. assert (chunk_group prev n [op]) as Hw by (by econstructor).
    destruct ops as [|op' ops]; [by exists [op], []|].
    destruct (IH 0 None) as (g & rest & -> & Hg & Hr); [done|done|cbn [length] in *; lia|done|done|done|].
    exists [op], (g :: rest). split; [done|]. split; [done|by constructor].
  - destruct ops as [|op' ops]; [by inversion Hrest; subst|].
    destruct (IH (k + 1) (Some op)) as (g & rest & E & Hg & Hr);
      [by cbn [cs_next_chunk_number]; rewrite fr_add_of_uint by lia|lia|lia|split; [lia|by exists a]|done|done|].
    exists (op :: g), rest. rewrite E. split; [done|]. split; [|done]. econstructor; try done. intros ->. by rewrite Z.eqb_refl in El.
Qed.

(** C34: The chunks of a block that the circuit accepts come in groups that it takes for operations: the chunks of a group
    are numbered from zero, each has the fee, the address, the new key and the token of the one before, and the group ends
    with the first chunk that has the last number of its own kind.  The kinds of the chunks of a group need
    not be the same. *)
Theorem chunks_come_in_groups advice c :
  synthesize advice c true = Val (Ok tt, true) → Z.of_nat (length (fc_operations c)) < 2 ^ 32 →
  ∃ groups, fc_operations c = concat groups ∧ groups ≠ [] ∧ Forall (chunk_group None 0) groups.
Proof.
  intros H Hb. apply synthesize_accepts in H as (old_root & st & data & validator & block & [_ Hchunks Hlast _ _ _ _ _]).
  destruct (chunks_grouped _ _ _ 0 None Hchunks) as (g & rest & E & Hg & Hr).
  - done.
  - done.
  - assert (2 ^ 32 < 2 ^ 253) by (by apply Z.pow_lt_mono_r). lia.
  - done.
  - done.
  - intros E. rewrite E in Hchunks. inversion Hchunks; subst. done.
  - exists (g :: rest). split; [done|]. split; [done|by constructor].
Qed.
End Safety.
