(* ===== verification/CircuitWitness.v ===== *)
(** * The circuit on the data of the witness generators
    (core/prover/src/prover_data.rs, core/circuit/src/witness/utils.rs)

    The instances of the circuit that the prover and the tests build, what the circuit
    computes from a branch of the generators, and that it rejects the data of the
    prover server. *)

From S2P Require Import Prelude Bytes Params Externals Primitives Amounts Account Tx Operations Block EthStorage Storage.
From S2P Require Import Merkle ParallelSmt ParallelSmtProofs AccountLeaf PlasmaState PlasmaProofs StateKeeperProofs ExecLogic BlockStorage CircuitTree Witness.
From S2P Require Import WitnessOps WitnessProofs WitnessLedger ProverPool Gadgets Element CircuitSignature Circuit SynthLogic.
From S2P Require Import SynthMono CircuitOps CircuitOpsProofs CircuitProofs CircuitSound.
Open Scope Z_scope.

(** ** Instances *)
Section Instances.
  Context `{EX : External}.

(** [ProverData::into_circuit]; a negative number does not parse as a field element. *)
Definition ProverData_into_circuit (self : ProverData) (block : Z) : FranklinCircuit :=
  mkFranklinCircuit (Some (pd_old_root self)) (if 0 <=? block then Some (fr_of_uint block) else None)
    (Some (pd_validator_address self)) (Some (pd_public_data_commitment self)) (pd_operations self)
    (pd_validator_balances self) (pd_validator_audit_path self) (pd_validator_account self).

(** [WitnessBuilder::into_circuit_instance] *)
Definition into_circuit_instance (self : WitnessBuilder) : outcome FranklinCircuit :=
  commitment ← unwrap "pubdata commitment not present" (wb_pubdata_commitment self);
  validator_account ← unwrap "fee account witness not present" (wb_fee_account_witness self);
  validator_balances ← unwrap "fee account balances not present" (wb_fee_account_balances self);
  validator_audit_path ← unwrap "fee account audit path not present" (wb_fee_account_audit_path self);
  Val (mkFranklinCircuit (Some (wb_initial_root_hash self)) (Some (fr_of_uint (wb_block_number self)))
         (Some (fr_of_uint (wb_fee_account_id self))) (Some commitment) (wb_operations self)
         validator_balances validator_audit_path validator_account).
End Instances.

(** ** Data without the operator's tokens *)
Section NoBalances.
  Context `{EX : External} `{EXL : !ExternalLaws} `{G : !Gadgets} `{GL : !GadgetLaws}.

Lemma levels_nil depth : levels depth [] = [].
Proof. induction depth as [|depth IH]; [done|]. change (hash_level (levels depth []) = []). by rewrite IH. Qed.

Lemma no_balances_root s r s' : calculate_root_from_full_representation_fees [] s ≠ Val (Ok r, s').
Proof.
  unfold calculate_root_from_full_representation_fees. cbn [synth_map].
  intros (hashes & s1 & [= <- <-] & H)%exec_bind_Ok. apply exec_bind_Ok in H as (hv & s2 & H1 & H2).
  rewrite hash_levels_evals, levels_nil in H1. injection H1 as <- <-. by apply exec_bind_Ok in H2 as ([] & s3 & H2 & _).
Qed.

(** Without the tokens of the operator the synthesis panics. *)
Lemma no_balances_synthesize advice c s s' : fc_validator_balances c = [] → synthesize advice c s ≠ Val (Ok tt, s').
Proof.
  intros Hb H. unfold synthesize in H. cbv zeta in H. rewrite Hb in H.
  do 6 apply exec_bind_Ok in H as (? & ? & _ & H). apply exec_bind_Ok in H as (balances & ? & E & H). injection E as <- _.
  do 6 apply exec_bind_Ok in H as (? & ? & _ & H). apply exec_bind_Ok in H as (root & s3 & E & _).
  unfold operator_root in E. apply exec_bind_Ok in E as (? & ? & E & _). by apply no_balances_root in E.
Qed.
End NoBalances.

Section ProverServer.
  Context `{C : Codec} `{EXL : !ExternalLaws} `{G : !Gadgets} `{GL : !GadgetLaws}.

Lemma build_witness_balances ops block b pd b' :
  build_witness ops block b = Val (Ok pd, b') → pd_validator_balances pd = [].
Proof.
  unfold build_witness. cbv zeta. intros H.
  do 12 apply exec_bind_Ok in H as (? & ? & _ & H). do 2 apply exec_bind_Ok in H as (? & ? & _ & H). by injection H as <- _.
Qed.

(** C36: The data that the prover server builds for a block cannot be proved: the synthesis of their circuit never
    succeeds, whatever block they are for. *)
Theorem prover_data_not_synthesizable advice now storage op t pd t' block s s' :
  build_prover_data now storage op t = Val (Ok pd, t') →
  synthesize advice (ProverData_into_circuit pd block) s ≠ Val (Ok tt, s').
Proof.
  intros H. apply no_balances_synthesize. unfold build_prover_data in H.
  destruct (WitnessBuilder_new _ _ _) as [b|]; [|done]. destruct (get_block_operations _ _ _) as [ops|]; [|done].
  destruct (build_witness ops _ b) as [[[?|?] ?]|] eqn:E; try done. injection H as -> _. by apply build_witness_balances in E.
Qed.
End ProverServer.

(** ** The branches of the generators *)
Section Branches.
  Context `{EX : External} `{EXL : !ExternalLaws} `{G : !Gadgets} `{GL : !GadgetLaws}.
  Implicit Types (m : AccountMap).

Lemma reference_path_insert {T} `{GetBits T, Default T} D (I : gmap Z T) d k x :
  (d ≤ D)%nat → reference_path (Hash := Fr) D (<[k := x]> I) d k = reference_path D I d k.
Proof.
  intros Hd. induction d as [|d IH]; [done|]. cbn [reference_path]. rewrite IH by lia. do 2 f_equal.
  apply subtree_hash_insert; [lia|]. replace (D - (D - S d))%nat with (S d) by lia.
  rewrite lxor_1_child by lia. pose proof (anc_child D d k ltac:(lia)) as E. rewrite E at 1.
  destruct (Z.odd (anc D (S d) k)); cbn [negb Z.b2z]; lia.
Qed.

Lemma path_root_fold leaf index path l :
  fold_path (Hash := Fr) l (hash_bits leaf) (zip path (take (length path) index)) = path_root leaf index path.
Proof.
  unfold path_root. generalize (take (length path) index) as idx. generalize (hash_bits leaf) as h. revert l.
  induction path as [|p path IH]; intros l h idx; [by destruct idx|]. destruct idx as [|b idx]; [done|].
  cbn [zip zip_with fold_path foldl]. rewrite IH. unfold path_step. cbn [fst snd]. by destruct b.
Qed.

(** The directions of a path are the low bits of the index. *)
Lemma take_bits_directions D n k :
  (D ≤ n)%nat → (n ≤ 256)%nat → fits 253 k → take D (bits_n n (fr_of_uint k)) = directions D k.
Proof.
  intros HD Hn Hk. rewrite bits_n_uint, take_le_bits by done. unfold directions. apply list_eq. intros i.
  destruct (decide (i < D)%nat).
  - rewrite le_bits_testbit by done. rewrite list_lookup_fmap, lookup_seq_lt by done. done.
  - rewrite !lookup_ge_None_2; [done|rewrite length_fmap, length_seq; lia|rewrite le_bits_length; lia].
Qed.

(** A path of the reference tree leads to the root of the tree in which the leaf is replaced. *)
Lemma reference_path_root {T} `{GetBits T, Default T} D n (I : gmap Z T) k x :
  (D ≤ n)%nat → (n ≤ 256)%nat → fits 253 k → leaf_ok D k →
  path_root (bits_of x) (bits_n n (fr_of_uint k)) (reference_path D I D k).*1 = reference_root D (<[k := x]> I).
Proof.
  intros HD Hn Hk Hl. rewrite <- (path_root_fold _ _ _ 0), length_fmap, reference_path_length, take_bits_directions by done.
  rewrite <- (reference_path_insert D I D k x), reference_path_zip by (done || apply Hl).
  rewrite <- (fold_leaf_path D (<[k := x]> I) k Hl), lookup_insert_eq. done.
Qed.

Lemma token_items_add t a : token_items (tokens (add_token t a)) = <[t := mkToken (fr_of_uint t)]> (token_items (tokens a)).
Proof.
  apply map_eq. intros k. cbn [add_token set_tokens tokens]. rewrite token_items_lookup. destruct (decide (k = t)) as [->|Hne].
  - by rewrite lookup_insert_eq, decide_True by set_solver.
  - rewrite lookup_insert_ne, token_items_lookup by done. destruct (decide (k ∈ tokens a)).
    + by rewrite decide_True by set_solver.
    + by rewrite decide_False by set_solver.
Qed.

(** The values of a branch of the generators. *)
Definition opened_branch m k t : Opened :=
  let a := account_at m k in
  mkOpened (fr_of_uint (nonce a)) (PubKeyHash_to_fr (pub_key_hash a)) (eth_address_to_fr (address a))
    (reference_path account_tree_depth m account_tree_depth k).*1 (fr_of_uint k)
    (reference_path token_tree_depth (token_items (tokens a)) token_tree_depth t).*1.
Lemma opened_branch_of m k t : opened_of (branch_of m k t) (opened_branch m k t).
Proof.
  split; [|cbn [opened_branch o_path o_token_path]; split; by rewrite length_fmap, reference_path_length]. unfold branch_of, account_audit, token_audit, audit_path, witness_of.
  cbn [opened_branch o_id o_nonce o_pub_key_hash o_address o_path o_token_path]. by rewrite <- !list_fmap_compose.
Qed.

Lemma some_fmap_inj {A} (l l' : list A) : Some <$> l = Some <$> l' → l = l'.
Proof. apply list_fmap_eq_inj. apply _. Qed.

Lemma opened_of_fields b v :
  b = mkBranch (Some (o_id v)) (mkBranchWitness (mkAccountWitness (Some (o_nonce v)) (Some (o_pub_key_hash v)) (Some (o_address v)))
        (Some <$> o_path v) (Some <$> o_token_path v)) →
  br_address b = Some (o_id v) ∧ aw_nonce (account_witness (br_witness b)) = Some (o_nonce v) ∧
  aw_pub_key_hash (account_witness (br_witness b)) = Some (o_pub_key_hash v) ∧
  aw_address (account_witness (br_witness b)) = Some (o_address v) ∧
  account_path (br_witness b) = Some <$> o_path v ∧ token_subtree_path (br_witness b) = Some <$> o_token_path v.
Proof. by intros ->. Qed.

(** What the circuit computes from a branch of the generators is the root of the ledger in which
    the account owns the token of the operation. *)
Lemma branch_root m k t v :
  leaves_ok m → leaf_ok account_tree_depth k → token_ok t → opened_of (branch_of m k t) v →
  opened_root v (fr_of_uint t) = ledger_root (<[k := add_token t (account_at m k)]> m).
Proof.
  intros Hm Hk Ht (E & Hlp & Hlt). set (a := account_at m k) in *.
  assert (fits 253 k ∧ fits 253 t) as [Hfk Hft].
  { split; (split; [apply Hk || apply Ht|]); (eapply Z.lt_trans; [apply Hk || apply Ht|done]). }
  destruct (opened_of_fields _ _ E) as (Hid & Hn & Hh & Ha & Hpath & Htpath).
  cbn [branch_of br_address br_witness account_witness witness_of aw_nonce aw_pub_key_hash aw_address account_path token_subtree_path]
    in Hid, Hn, Hh, Ha, Hpath, Htpath. fold a in Hn, Hh, Ha, Htpath. unfold account_audit, token_audit, audit_path in Hpath, Htpath.
  apply (inj Some) in Hid, Hn, Hh, Ha.
  assert (o_path v = (reference_path account_tree_depth m account_tree_depth k).*1) as Ep.
  { apply some_fmap_inj. rewrite <- Hpath. by rewrite <- list_fmap_compose. }
  assert (o_token_path v = (reference_path token_tree_depth (token_items (tokens a)) token_tree_depth t).*1) as Etp.
  { apply some_fmap_inj. rewrite <- Htpath. by rewrite <- list_fmap_compose. }
  unfold opened_root, root_with, opened_token_root, content_bits. rewrite Ep, Etp, <- Hid, <- Hn, <- Hh, <- Ha.
  assert (path_root (bits_n TOKENID_BIT_WIDTH (fr_of_uint t)) (bits_n TOKENID_BIT_WIDTH (fr_of_uint t))
            (reference_path token_tree_depth (token_items (tokens a)) token_tree_depth t).*1 =
          reference_root token_tree_depth (token_items (tokens (add_token t a)))) as ->.
  { rewrite token_items_add. rewrite <- (reference_path_root token_tree_depth TOKENID_BIT_WIDTH _ t) by first [done | by apply Nat.leb_le]. done. }
  assert (tokens_ok (add_token t a)) as Hok.
  { intros u. cbn [add_token set_tokens tokens]. intros [->%elem_of_singleton|Hu]%elem_of_union; [done|].
    by eapply (account_at_ok m k). }
  unfold ledger_root. rewrite <- (reference_path_root account_tree_depth ACCOUNT_ID_BIT_WIDTH) by first [done | by apply Nat.leb_le].
  f_equal. unfold bits_of. rewrite account_bits_ok by done. unfold leaf_bits, padded_root, state_root_of, bits_n.
  cbn [add_token set_tokens nonce pub_key_hash address tokens]. by rewrite <- !app_assoc.
Qed.

(** C35: The circuit takes it for granted that the account owns the token of the operation, before and after
    it: from a branch of the witness generators it computes the root of the ledger in which the
    account owns the token.  The root of the ledger itself comes out only if that makes no
    difference, so that the first chunk of a deposit of a new token is rejected, as is every chunk after a
    token has left the account. *)
Theorem circuit_root_assumes_token m k t v s :
  leaves_ok m → leaf_ok account_tree_depth k → token_ok t → opened_of (branch_of m k t) v →
  ∃ empty subtree_root,
    check_account_data (branch_elems v) (elem TOKENID_BIT_WIDTH (fr_of_uint t)) s =
    Val (Ok (ledger_root (<[k := add_token t (account_at m k)]> m), empty, subtree_root), s).
Proof.
  intros Hm Hk Ht Hv. eexists _, _. rewrite <- (branch_root m k t v) by done. destruct Hv as (_ & Hp & Htp).
  rewrite check_account_data_evals; [by rewrite andb_true_r|by rewrite Hp|by rewrite Htp].
Qed.
End Branches.
