(* ===== verification/Demo.v ===== *)
(** * A concrete rollup

    A small rollup on which every definition of the development can be run: the
    external functions are those of [demo_external], the account tree is the parallel
    sparse Merkle tree of depth 24, Alice (account 0, with a public key hash) owns token
    7 and Bob (account 1) owns nothing.  A keeper with blocks of 6 or 10 chunks executes
    a deposit, a transfer of Alice and the same transfer again, and seals a block; its
    public data is what the restore driver reads back.  The examples of the last part of
    the development apply the theorems to this rollup. *)

From S2P Require Import Prelude Bytes Params Externals Primitives Amounts Account Tx Operations Block Merkle.
From S2P Require Import ParallelSmt ParallelSmtProofs AccountLeaf PlasmaState PlasmaProofs Ledger StateKeeper StateKeeperProofs.
From S2P Require Import TreeState EventsState DataRestore.
Open Scope Z_scope.

Notation DemoTree := (ParallelSmt.SparseMerkleTree Account Fr).

(** The value of a computation that is known to return. *)
Definition is_val {A} (o : outcome A) : bool := match o with Val _ => true | Panic _ => false end.
Definition val_of {A} (o : outcome A) : is_val o = true → A :=
  match o with
  | Val a => λ _, a
  | Panic _ => λ H, match diff_false_true H with end
  end.
Lemma val_of_elim {A} (P : A → Prop) (o : outcome A) (H : is_val o = true) a : o = Val a → P a → P (val_of o H).
Proof. intros E. destruct o; [|done]. by injection E as ->. Qed.

Definition unwrap_ok {A} (o : Fallible A) : outcome A :=
  match o with
  | Val (Ok a) => Val a
  | Val (Err msg) => Panic msg
  | Panic msg => Panic msg
  end.

Definition exec_result {A S} (o : outcome (result A * S)) : outcome A := r ← o; unwrap_ok (Val r.1).
Definition exec_state {A S} (o : outcome (result A * S)) : outcome S := r ← o; Val r.2.
Lemma exec_eq {A S} (o : outcome (result A * S)) Hr Hs :
  o = Val (Ok (val_of (exec_result o) Hr), val_of (exec_state o) Hs).
Proof. by destruct o as [[[]]|]. Qed.

Lemma exec_inj {A S} (a a' : A) (s s' : S) : Val (Ok a, s) = Val (Ok a', s') → a = a' ∧ s = s'.
Proof. intros [= -> ->]. done. Qed.

(** ** Accounts *)

Definition alice_key : PrivateKey := 5.
Definition alice_hash : PubKeyHash :=
  val_of (PubKeyHash_from_pubkey (pk_from_private alice_key)) ltac:(vm_compute; reflexivity).
Definition alice_address : Address := replicate 20 1.
Definition bob_address : Address := replicate 20 2.
Definition carol_address : Address := replicate 20 3.
Definition alice : Account := mkAccount alice_hash alice_address {[7]} 0.
Definition bob : Account := mkAccount PubKeyHash_default bob_address ∅ 0.
Definition demo_map : AccountMap := {[0 := alice; 1 := bob]}.

Lemma demo_map_cases id a : demo_map !! id = Some a → (id = 0 ∧ a = alice) ∨ (id = 1 ∧ a = bob).
Proof.
  unfold demo_map. intros [[<- <-]|[_ [<- <-]%lookup_singleton_Some]]%lookup_insert_Some; naive_solver.
Qed.

Lemma demo_map_ok : account_map_ok demo_map.
Proof.
  split; [|split; [done|]].
  - change (Z.of_nat (size demo_map)) with 2. intros id. split.
    + intros [a [[-> _]|[-> _]]%demo_map_cases]; lia.
    + intros Hid. assert (id = 0 ∨ id = 1) as [->| ->] by lia; by eexists.
  - intros id id' a a' [[-> ->]|[-> ->]]%demo_map_cases [[-> ->]|[-> ->]]%demo_map_cases; done.
Qed.

Definition demo_build : outcome (PlasmaState DemoTree) := from_acc_map demo_map 1.
Definition demo_state : PlasmaState DemoTree := val_of demo_build ltac:(vm_compute; reflexivity).

Lemma demo_state_built : state_ok demo_state ∧ accounts demo_state = demo_map ∧ ps_block_number demo_state = 1.
Proof.
  destruct (from_acc_map_ok (Tree := DemoTree) demo_map 1) as (s & Hs & Hok & Hacc & Hn);
    [eexists; by vm_compute|exact demo_map_ok|].
  exact (val_of_elim (λ s, state_ok s ∧ accounts s = demo_map ∧ ps_block_number s = 1) demo_build _ s Hs
    (conj Hok (conj Hacc Hn))).
Qed.
#[global] Opaque demo_state.

(** ** Operations *)

Definition demo_transfer : Transfer :=
  val_of (unwrap_ok (Transfer_new_signed 0 alice_address bob_address 7 (bd_of_u128 0) 0 alice_key))
    ltac:(vm_compute; reflexivity).
Definition demo_self_transfer : Transfer :=
  val_of (unwrap_ok (Transfer_new_signed 0 alice_address alice_address 7 (bd_of_u128 0) 0 alice_key))
    ltac:(vm_compute; reflexivity).
Definition demo_deposit : Deposit := mkDeposit bob_address 9 carol_address.
Definition demo_full_exit : FullExit := mkFullExit 0 alice_address.

(** Executing the transfer in the state above. *)
Definition demo_execution : outcome (result OpSuccess * PlasmaState DemoTree) :=
  execute_tx (TxTransfer demo_transfer) demo_state.
Definition demo_result : OpSuccess := val_of (exec_result demo_execution) ltac:(vm_compute; reflexivity).
Definition demo_state' : PlasmaState DemoTree := val_of (exec_state demo_execution) ltac:(vm_compute; reflexivity).


Lemma demo_executed : demo_execution = Val (Ok demo_result, demo_state').
Proof. apply exec_eq. Qed.
Transparent demo_state.
Lemma demo_result_op : os_executed_op demo_result = OpTransfer (mkTransferOp demo_transfer 0 1).
Proof. vm_cast_no_check (eq_refl (OpTransfer (mkTransferOp demo_transfer 0 1))). Qed.
Definition demo_map' : AccountMap :=
  {[0 := mkAccount alice_hash alice_address ∅ 1; 1 := mkAccount PubKeyHash_default bob_address {[7]} 0]}.
Lemma demo_accounts' : accounts demo_state' = demo_map'.
Proof. vm_cast_no_check (eq_refl demo_map'). Qed.
#[global] Opaque demo_state demo_result demo_state'.
Lemma demo_token_gone : ¬ owns (accounts demo_state') 0 7.
Proof. rewrite demo_accounts'. intros (a & Ha & Ht). injection Ha as <-. by apply not_elem_of_empty in Ht. Qed.

Lemma demo_accounts : accounts demo_state = demo_map.
Proof. apply demo_state_built. Qed.
Lemma demo_ready : ready demo_state.
Proof. split; [apply demo_state_built|]. by rewrite demo_accounts. Qed.
Lemma demo_nonces_ok : nonces_ok (accounts demo_state).
Proof. rewrite demo_accounts. intros id a [[_ ->]|[_ ->]]%demo_map_cases; done. Qed.
Lemma demo_single_owner : single_owner (accounts demo_state).
Proof.
  rewrite demo_accounts. intros t id id' (a & Ha & Ht) (a' & Ha' & Ht').
  apply demo_map_cases in Ha as [[-> ->]|[-> ->]]; [|by cbn in Ht; set_solver].
  apply demo_map_cases in Ha' as [[-> ->]|[-> ->]]; [done|]. by cbn in Ht'; set_solver.
Qed.

Lemma demo_ledger_run :
  ledger_run demo_map [OpTransfer (mkTransferOp demo_transfer 0 1)] (os_updates demo_result) demo_map'.
Proof.
  destruct (execute_tx_ok demo_state (TxTransfer demo_transfer) (proj1 demo_ready) (proj2 demo_ready))
    as [[_ [e He]]|(_ & res & s' & Hrun & _ & Hstep & Hadd & _)].
  { pose proof demo_executed as H. unfold demo_execution in H. congruence. }
  pose proof demo_executed as H. unfold demo_execution in H. rewrite H in Hrun.
  destruct (exec_inj _ _ _ _ Hrun) as [<- <-].
  rewrite demo_accounts, demo_result_op in Hstep, Hadd. rewrite demo_accounts' in Hstep.
  by apply (run_snoc demo_map [] [] demo_map (OpTransfer (mkTransferOp demo_transfer 0 1)) (os_updates demo_result) demo_map'
    (run_nil _)).
Qed.

(** ** The state keeper *)

Definition demo_clock (n : nat) : Z := Z.of_nat n.
Definition demo_sizes : list nat := [6; 10]%nat.
(** Parameters that hold the tree and the index of a state. *)
Definition init_of_state (s : PlasmaState DemoTree) (n p : Z) : PlasmaStateInitParams DemoTree :=
  mkInitParams (token_tree s) (account_id_by_address s) n p.
Definition demo_init : PlasmaStateInitParams DemoTree := init_of_state demo_state 0 3.
Definition demo_priority_ops : list PriorityOp := [mkPriorityOp 3 (PDeposit demo_deposit) 100 []].
Definition demo_requests : list StateKeeperRequest := [
  GetLastUnprocessedPriorityOp;
  ExecuteMiniBlock (mkProposedBlock demo_priority_ops [TxTransfer demo_transfer; TxTransfer demo_transfer]);
  SealBlock
].
Definition demo_run : outcome (list StateKeeperReply * PlasmaStateKeeper DemoTree) :=
  k ← StateKeeper_new demo_init alice_address demo_sizes; run demo_clock demo_requests k.
Definition demo_run_keeper : outcome (PlasmaStateKeeper DemoTree) := r ← demo_run; Val r.2.
Definition demo_keeper : PlasmaStateKeeper DemoTree := val_of demo_run_keeper ltac:(vm_compute; reflexivity).

Lemma init_of_state_accounts s n p : ip_accounts (init_of_state s n p) = accounts s.
Proof. done. Qed.
Lemma init_of_state_ok s n p id a sizes max :
  state_ok s → leaves_ok (accounts s) → fits 64 p → accounts s !! id = Some a →
  Sorted le sizes → last sizes = Some max → (MAX_OP_CHUNKS ≤ max)%nat →
  init_ok (init_of_state s n p) (address a) sizes.
Proof.
  intros [H1 H2 H3] Hl Hp Ha Hsort Hlast Hmax. split; [by split|]. split_and!; try done; [|by exists max].
  exists id. apply H2. by exists a.
Qed.

Lemma demo_leaves_ok : leaves_ok demo_map.
Proof. intros id a [[_ ->]|[_ ->]]%demo_map_cases t Ht; cbn in Ht; set_unfold; [subst t|]; done. Qed.

Lemma demo_init_accounts : ip_accounts demo_init = demo_map.
Proof.
  unfold demo_init. rewrite init_of_state_accounts. apply demo_state_built.
Qed.

Lemma demo_init_ok : init_ok demo_init alice_address demo_sizes.
Proof.
  destruct demo_state_built as (Hs & Hacc & _).
  apply (init_of_state_ok demo_state 0 3 0 alice demo_sizes 10).
  - exact Hs.
  - rewrite Hacc. exact demo_leaves_ok.
  - split; lia.
  - rewrite Hacc. reflexivity.
  - repeat constructor.
  - reflexivity.
  - unfold MAX_OP_CHUNKS. lia.
Qed.

Lemma demo_requests_fine :
  Forall (request_fine demo_map) demo_requests ∧
  Z.of_nat (size demo_map + length (mjoin (request_ops <$> demo_requests))) ≤ 2 ^ 24.
Proof.
  split; [|by vm_compute]. repeat constructor; cbn; unfold total_tokens; lia.
Qed.

(** The keeper after the run: it has sent one block and is in a consistent state. *)
Lemma demo_keeper_ok : keeper_ok 1 3 demo_map demo_sizes demo_keeper.
Proof.
  destruct (StateKeeper_new_ok demo_init _ _ demo_init_ok) as (k & Hnew & Em & Hk & _).
  rewrite demo_init_accounts in Em, Hk. destruct demo_requests_fine as [Hfine Hroom].
  destruct (run_ok demo_clock _ _ _ _ demo_requests k Hk) as (replies & k' & _ & Hrun & Hk' & _);
    [by rewrite Em..|].
  assert (demo_run_keeper = Val k') as E.
  { unfold demo_run_keeper, demo_run. rewrite Hnew. cbn [mbind outcome_bind]. by rewrite Hrun. }
  exact (val_of_elim (keeper_ok 1 3 demo_map demo_sizes) demo_run_keeper _ k' E Hk').
Qed.

(** ** Publishing and restoring *)

Transparent demo_state.
Definition demo_commits : list CommitRequest := Eval vm_compute in tx_for_commitments demo_keeper.
Lemma demo_commits_eq : tx_for_commitments demo_keeper = demo_commits.
Proof. vm_cast_no_check (eq_refl demo_commits). Qed.
Lemma demo_pending_eq : pending_ops demo_keeper = [].
Proof. vm_cast_no_check (eq_refl ([] : list FranklinOp)). Qed.
Lemma demo_keeper_counter : current_unprocessed_priority_op demo_keeper = 4.
Proof. vm_cast_no_check (eq_refl 4). Qed.
Lemma demo_keeper_size : size (keeper_accounts demo_keeper) = 3%nat.
Proof. vm_cast_no_check (eq_refl 3%nat). Qed.
Lemma demo_keeper_alice : is_Some (keeper_accounts demo_keeper !! 0).
Proof. exists (mkAccount alice_hash alice_address ∅ 1). vm_cast_no_check (eq_refl (Some (mkAccount alice_hash alice_address ∅ 1))). Qed.
#[global] Opaque demo_state demo_keeper.

Lemma demo_chain :
  ∃ n p m, chain demo_sizes 1 3 demo_map demo_commits n p m ∧
    ledger_run m (pending_ops demo_keeper) (account_updates (pending_block demo_keeper)) (keeper_accounts demo_keeper).
Proof.
  destruct (ko_chain _ _ _ _ _ demo_keeper_ok) as (m & Hchain & Hrun).
  rewrite (ko_available _ _ _ _ _ demo_keeper_ok), demo_commits_eq in Hchain. by do 3 eexists.
Qed.

(** Decidable side conditions on concrete data. *)
Ltac by_decide := apply (bool_decide_unpack _); vm_compute; exact I.

Lemma demo_fee_packable : fee_packable (bd_of_u128 0).
Proof. exists 0. split; [by split|]. exists 0, 0. by vm_compute. Qed.

Lemma demo_publishable : Forall publishable (cr_block <$> demo_commits).
Proof.
  constructor; [|constructor]. split; [|split; by_decide].
  constructor; [split_and!; by_decide|]. constructor; [|constructor].
  split_and!; [by_decide..|]. exact demo_fee_packable.
Qed.

Definition demo_block : Block := Eval vm_compute in default (mkBlock 0 (fr_of_uint 0) 0 [] (0, 0) 0) (head (cr_block <$> demo_commits)).
Definition demo_public_data_bytes : bytes :=
  val_of (get_eth_public_data demo_block) ltac:(vm_compute; reflexivity).
Definition demo_transaction (h : Z) : result bytes := Ok (replicate 4 0 ++ [h]).
Definition demo_decode (input : bytes) : option (list EthToken) :=
  Some [TokUint 1; TokUint 0; TokOther; TokBytes demo_public_data_bytes].

Lemma demo_committed : Forall2 (committed_by demo_transaction demo_decode) [77] (cr_block <$> demo_commits).
Proof.
  constructor; [|constructor].
  exists (replicate 4 0 ++ [77]), [TokUint 1; TokUint 0; TokOther; TokBytes demo_public_data_bytes], demo_public_data_bytes.
  split; [done|]. split; [by_decide|]. split_and!; by vm_compute.
Qed.

(** The driver before the block, with the events of its commitment and verification. *)
Definition demo_driver : DataRestoreDriver :=
  mkDriver (mkEventsState [mkBlockEvent 1 77 Committed] [mkBlockEvent 1 78 Verified] 0)
    (mkTreeState demo_state 3 alice_address demo_sizes 0) [] [] [] demo_sizes.

Lemma mirrors_of_state s p ad sizes n :
  state_ok s → mirrors (mkTreeState s p ad sizes n) sizes p (accounts s).
Proof. by intros Hs. Qed.

Lemma demo_driver_mirrors : mirrors (drv_tree_state demo_driver) demo_sizes 3 demo_map.
Proof.
  destruct demo_state_built as (Hs & <- & _). apply (mirrors_of_state demo_state 3 alice_address demo_sizes 0 Hs).
Qed.
