(* ===== verification/Witnesses.v ===== *)
(** * The theorems at work

    Every theorem with hypotheses is applied here to concrete data, most of it from the
    rollup of [Demo]: the hypotheses are established by running the definitions, so the
    theorems are not vacuous.  The Merkle trees, the encodings, the database, the watcher
    of Ethereum and the mempool follow the state keeper and the ledger. *)

From S2P Require Import Prelude Bytes Params Externals Primitives Amounts Account Tx Operations Block Merkle.
From S2P Require Import ParallelSmt ParallelSmtProofs TreeEquivalence AccountLeaf PlasmaState PlasmaProofs Ledger StateKeeper.
From S2P Require Import StateKeeperProofs TreeState EventsState DataRestore EthWatch Mempool Demo.
From S2P Require SequentialSmt.
Open Scope Z_scope.

(** ** Restoring and the state keeper *)

Lemma restore_from_ethereum_witness :
  ∃ sg ops d1 d2 rs,
    update_operations_state demo_transaction demo_decode demo_driver = Val (ops, d1) ∧
    update_tree_state demo_clock ops d1 = Val d2 ∧ saved_blocks d2 = rs ∧
    Forall2 (λ c r, same_block sg (cr_block c) r.1 ∧ r.2 = cr_accounts_updated c) demo_commits rs.
Proof.
  destruct demo_chain as (n' & p' & m' & Hchain & _).
  destruct (restore_from_ethereum demo_clock demo_transaction demo_decode demo_sizes 0 3 demo_map demo_commits
    n' p' m' [77] demo_driver Hchain) as (sg & ops & d1 & d2 & rs & H1 & H2 & _ & H3 & H4).
  - by_decide.
  - exact demo_leaves_ok.
  - by_decide.
  - constructor; [by exists alice|constructor].
  - exact demo_publishable.
  - exact demo_committed.
  - exact demo_driver_mirrors.
  - reflexivity.
  - exists sg, ops, d1, d2, rs. exact (conj H1 (conj H2 (conj H3 H4))).
Defined.

Lemma state_keeper_correct_witness :
  ∃ k replies k', StateKeeper_new demo_init alice_address demo_sizes = Val k ∧
    run demo_clock demo_requests k = Val (replies, k') ∧ length replies = 3%nat ∧
    Forall2 reports_op (mjoin (request_ops <$> demo_requests))
      (mjoin (eon_operations <$> executed_tx_notify_sender k')).
Proof.
  destruct (state_keeper_correct demo_clock demo_init alice_address demo_sizes demo_requests demo_init_ok)
    as (k & replies & k' & m & H1 & H2 & H3 & _ & _ & H4 & _).
  - rewrite demo_init_accounts. apply demo_requests_fine.
  - rewrite demo_init_accounts. apply demo_requests_fine.
  - exists k, replies, k'. exact (conj H1 (conj H2 (conj H3 H4))).
Defined.

Lemma keeper_updates_replay_witness :
  apply_updates demo_map (mjoin (cr_accounts_updated <$> tx_for_commitments demo_keeper)
    ++ account_updates (pending_block demo_keeper)) = keeper_accounts demo_keeper.
Proof.
  apply (keeper_updates_replay 1 3 demo_map demo_sizes demo_keeper demo_keeper_ok).
  - rewrite demo_commits_eq. constructor; [|constructor]. cbn.
    constructor; [intros []|]. constructor; [intros [=]|]. constructor.
  - rewrite demo_pending_eq. constructor.
Defined.

(** ** The state and the ledger *)

Lemma execute_tx_refines_witness :
  ∃ res s', execute_tx (TxTransfer demo_transfer) demo_state = Val (Ok res, s') ∧ state_ok s' ∧
    ledger_step (accounts demo_state) (os_executed_op res) (os_updates res) (accounts s').
Proof.
  destruct (execute_tx_refines demo_state (TxTransfer demo_transfer) (proj1 demo_ready) (proj2 demo_ready))
    as [[_ [e He]]|(_ & res & s' & H1 & H2 & H3 & _)].
  - pose proof demo_executed as H. unfold demo_execution in H. congruence.
  - exists res, s'. exact (conj H1 (conj H2 H3)).
Defined.

Lemma execute_priority_op_refines_witness :
  (∃ res s', execute_priority_op (PDeposit demo_deposit) demo_state = Val (Ok res, s') ∧ state_ok s') ∧
  execute_priority_op (PFullExit (mkFullExit 5 alice_address)) demo_state = Panic "Full exit account not found".
Proof.
  split.
  - destruct (execute_priority_op_refines demo_state (PDeposit demo_deposit) (proj1 demo_ready)) as [H _].
    destruct H as (res & s' & H1 & H2 & _); [right; exact (proj2 demo_ready)|]. exists res, s'. exact (conj H1 H2).
  - refine (proj2 (execute_priority_op_refines demo_state _ (proj1 demo_ready)) _ eq_refl _).
    rewrite demo_accounts. reflexivity.
Defined.

Lemma how_tokens_leave_witness :
  alice_hash ≠ PubKeyHash_default ∧ Transfer_verify_signature demo_transfer = Val (Some alice_hash).
Proof.
  destruct (how_tokens_leave demo_state demo_state' 0 alice 7 demo_ready) as [H _].
  - rewrite demo_accounts. reflexivity.
  - by_decide.
  - exact demo_token_gone.
  - destruct (H (TxTransfer demo_transfer) demo_result demo_executed) as (H1 & _ & _ & _ & _ & H2). exact (conj H1 H2).
Defined.

Lemma single_owner_preserved_witness : single_owner (accounts demo_state').
Proof.
  exact (proj1 (single_owner_preserved demo_state demo_state' demo_ready demo_single_owner)
    (TxTransfer demo_transfer) (Ok demo_result) demo_executed).
Defined.

Lemma execute_tx_no_replay_witness : ∃ e, execute_tx (TxTransfer demo_transfer) demo_state' = Val (Err e, demo_state').
Proof.
  apply (execute_tx_no_replay demo_state (TxTransfer demo_transfer) demo_result demo_state' demo_ready demo_nonces_ok
    demo_executed). rewrite demo_accounts'. reflexivity.
Defined.

Lemma execute_tx_updates_replay_witness : apply_updates (accounts demo_state) (os_updates demo_result) = accounts demo_state'.
Proof.
  apply (execute_tx_updates_replay demo_state (TxTransfer demo_transfer) demo_result demo_state' demo_ready
    demo_nonces_ok demo_executed). rewrite demo_result_op. intros [=].
Defined.

Lemma execute_tx_updates_rollback_witness :
  apply_updates (apply_updates (accounts demo_state) (os_updates demo_result)) (reverse_updates (os_updates demo_result))
  = accounts demo_state.
Proof.
  exact (execute_tx_updates_rollback demo_state (TxTransfer demo_transfer) demo_result demo_state' demo_ready
    demo_single_owner demo_executed).
Defined.

Lemma from_acc_map_correct_witness :
  ∃ s : PlasmaState DemoTree, from_acc_map demo_map 1 = Val s ∧ state_ok s ∧ accounts s = demo_map.
Proof.
  destruct (from_acc_map_correct (Tree := DemoTree) demo_map 1 demo_map_ok) as (s & H1 & H2 & H3 & _).
  exists s. exact (conj H1 (conj H2 H3)).
Defined.


(** ** The Merkle trees *)

(** A tree of tokens of depth 8, as below every account, with one token. *)
Lemma demo_token_tree :
  ∃ t : ParallelSmt.SparseMerkleTree Token Fr,
    ParallelSmtProofs.smt_ok 8 t ∧ ParallelSmt.items t = {[7 := mkToken (fr_of_uint 7)]}.
Proof.
  destruct (smt_new_ok (T := Token) (Hash := Fr) 8) as (t0 & _ & Ht0 & Hi0); [lia|apply total_bits|].
  destruct (smt_insert_ok 8 t0 7 (mkToken (fr_of_uint 7)) Ht0) as (t & _ & Ht & Hi); [by_decide|].
  exists t. by rewrite Hi, Hi0.
Qed.

Lemma smt_root_hash_correct_witness :
  ∃ t t' : ParallelSmt.SparseMerkleTree Token Fr,
    ParallelSmt.smt_root_hash t = Val (reference_root 8 {[7 := mkToken (fr_of_uint 7)]}, t').
Proof.
  destruct demo_token_tree as (t & Ht & Hi).
  destruct (smt_root_hash_correct 8 t Ht) as (t' & H & _); [intros; apply total_bits|].
  exists t, t'. rewrite Hi in H. exact H.
Defined.

Lemma smt_merkle_path_correct_witness :
  ∃ (t : ParallelSmt.SparseMerkleTree Token Fr) path,
    fold_path 0 (item_hash (mkToken (fr_of_uint 7))) path = reference_root 8 {[7 := mkToken (fr_of_uint 7)]} ∧
    length path = 8%nat ∧ ∃ t', ParallelSmt.smt_merkle_path t 7 = Val (path, t').
Proof.
  destruct demo_token_tree as (t & Ht & Hi).
  destruct (smt_merkle_path_correct 8 t 7 Ht) as (path & t' & H1 & H2 & H3 & _);
    [by_decide|intros; apply total_bits|].
  rewrite Hi in H3. exists t, path. exact (conj H3 (conj H2 (ex_intro _ t' H1))).
Defined.

Lemma sequential_merkle_path_correct_witness :
  ∃ (t : SequentialSmt.SparseMerkleTree Token Fr) path,
    SequentialSmt.smt_merkle_path t 3 = Val path ∧
    fold_path 0 (item_hash (default_value : Token)) path = reference_root 8 (∅ : gmap Z Token).
Proof.
  destruct (SequentialSmt.seq_smt_new_ok (T := Token) (Hash := Fr) 8) as (t & _ & Ht & Hi); [lia|apply total_bits|].
  destruct (SequentialSmt.sequential_merkle_path_correct 8 t 3 Ht) as (path & H1 & _ & _ & H2); [by_decide|].
  rewrite Hi in H2. exists t, path. exact (conj H1 H2).
Defined.

Lemma parallel_sequential_same_root_witness :
  ∃ (p p' : ParallelSmt.SparseMerkleTree Token Fr) (q : SequentialSmt.SparseMerkleTree Token Fr) h,
    ParallelSmt.smt_root_hash p = Val (h, p') ∧ SequentialSmt.smt_root_hash q = Val h ∧
    ParallelSmt.items p = SequentialSmt.items q.
Proof.
  destruct (parallel_sequential_same_root (T := Token) (Hash := Fr) 8
    [TInsert 7 (mkToken (fr_of_uint 7)); TRootHash; TInsert 9 (mkToken (fr_of_uint 9)); TRemove 7])
    as (p & p' & q & h & _ & H1 & _ & H2 & H3 & _); [lia|repeat constructor; by_decide|].
  exists p, p', q, h. exact (conj H1 (conj H2 H3)).
Defined.

(** ** Encodings *)

Definition demo_op : FranklinOp := OpTransfer (mkTransferOp demo_transfer 0 1).
Lemma demo_op_wf : FranklinOp_wf demo_op.
Proof. split_and!; [by_decide..|exact demo_fee_packable]. Qed.

Lemma val_of_Val {A} (o : outcome A) H : o = Val (val_of o H).
Proof. by destruct o. Qed.
Definition demo_op_data : bytes := val_of (public_data demo_op) ltac:(vm_compute; reflexivity).
Lemma demo_op_data_eq : public_data demo_op = Val demo_op_data.
Proof. apply val_of_Val. Qed.
Definition demo_exit_op : FranklinOp := OpFullExit (mkFullExitOp demo_full_exit).
Definition demo_exit_data : bytes := val_of (public_data demo_exit_op) ltac:(vm_compute; reflexivity).
Lemma demo_exit_data_eq : public_data demo_exit_op = Val demo_exit_data.
Proof. apply val_of_Val. Qed.

Lemma block_public_data_roundtrip_witness :
  ∃ s data, get_eth_public_data demo_block = Val data ∧ length data = 80%nat ∧
    get_rollup_ops_from_data data = Val (Ok ((forget s <$> block_ops demo_block) ++ replicate 2 OpNoop)).
Proof.
  destruct (block_public_data_roundtrip demo_block) as (s & data & _ & H1 & H2 & H3).
  - exact (proj1 (Forall_inv demo_publishable)).
  - by_decide.
  - exists s, data. exact (conj H1 (conj H2 H3)).
Defined.

Lemma from_public_data_roundtrip_witness :
  ∃ s data, public_data demo_op = Val data ∧ length data = 16%nat ∧ from_public_data data = Val (Ok (forget s demo_op)).
Proof.
  destruct (from_public_data_roundtrip demo_op demo_op_wf) as (s & data & c & _ & H1 & _ & H2 & _ & H3).
  exists s, data. exact (conj H1 (conj H2 H3)).
Defined.

Lemma get_rollup_ops_truncated_witness :
  get_rollup_ops_from_data (take 15 demo_op_data) = Panic "slice out of range".
Proof.
  apply (get_rollup_ops_truncated [] demo_op [] demo_op_data 15 (Forall_nil_2 _) demo_op_wf eq_refl demo_op_data_eq).
  by_decide.
Defined.

Lemma from_public_data_total_witness : ∃ op, from_public_data demo_op_data = Val (Ok op).
Proof.
  refine (proj2 (proj2 (from_public_data_total demo_op_data)) _). exists TRANSFER_OP_CODE.
  split; [by_decide|]. cbv [accepts_length]. cbn [Z.eqb]. vm_cast_no_check (eq_refl 16%nat).
Defined.

Lemma get_rollup_ops_terminates_witness : get_rollup_ops_from_data (take 15 demo_op_data) ≠ Panic "out of fuel".
Proof.
  intros E. pose proof (get_rollup_ops_terminates (take 15 demo_op_data)) as H. rewrite E in H. discriminate H.
Defined.

Lemma parse_priority_log_roundtrip_witness :
  parse_from_priority_queue_logs (take 23 (drop 1 demo_exit_data)) (op_code demo_exit_op) bob_address
  = Val (Ok (PFullExit demo_full_exit)).
Proof.
  apply (parse_priority_log_roundtrip demo_exit_op (PFullExit demo_full_exit) bob_address demo_exit_data 23);
    [split; by_decide|reflexivity|exact demo_exit_data_eq|reflexivity].
Defined.

Lemma get_bytes_injective_witness :
  tx_content (TxTransfer (Transfer_set_cached NotCached demo_transfer)) = tx_content (TxTransfer demo_transfer).
Proof.
  apply (get_bytes_injective (TxTransfer (Transfer_set_cached NotCached demo_transfer)) (TxTransfer demo_transfer));
    [split_and!; by_decide..|reflexivity].
Defined.

Lemma demo_holds n : fits 128 n → bd_holds (bd_of_u128 n) n.
Proof. intros Hn. by apply bd_of_u128_holds. Qed.

Lemma Transfer_new_signed_verifies_witness :
  ∃ tx, Transfer_new_signed 0 alice_address bob_address 7 (bd_of_u128 5) 0 alice_key = Val (Ok tx) ∧
    Transfer_verify_signature tx = Val (Some alice_hash).
Proof.
  destruct (Transfer_new_signed_verifies 0 alice_address bob_address 7 (bd_of_u128 5) 0 alice_key alice_hash 5)
    as (tx & H1 & _ & H2 & _).
  - reflexivity.
  - apply demo_holds; by_decide.
  - exists 5, 0. split; [by_decide|]. split; [by_decide|reflexivity].
  - exists tx. exact (conj H1 H2).
Defined.

Lemma get_eth_signed_data_binding_witness :
  ∃ m1 m2, get_eth_signed_data 1 2 alice_hash = Ok m1 ∧ get_eth_signed_data 1 3 alice_hash = Ok m2 ∧ m1 ≠ m2.
Proof.
  destruct (get_eth_signed_data_binding 1 1 2 3 alice_hash alice_hash) as (m1 & m2 & H1 & H2 & _ & H3); [by_decide..|].
  exists m1, m2. refine (conj H1 (conj H2 _)). intros E. destruct (H3 E) as (_ & E' & _). discriminate.
Defined.

Lemma packable_checks_correct_witness :
  is_fee_amount_packable (bd_of_u128 2047) = Val true ∧ is_fee_amount_packable (bd_of_u128 2048) ≠ Val true.
Proof.
  split.
  - refine (proj2 (proj1 (packable_checks_correct (bd_of_u128 2047) 2047 (demo_holds 2047 ltac:(by_decide)))) _).
    exists 2047, 0. split; [by_decide|]. split; [by_decide|reflexivity].
  - intros H.
    destruct (proj1 (proj1 (packable_checks_correct (bd_of_u128 2048) 2048 (demo_holds 2048 ltac:(by_decide)))) H)
      as (m & e & Hm & He & E). change (2 ^ Z.of_nat FEE_MANTISSA_BIT_WIDTH) with 2048 in Hm.
    assert (e = 0 ∨ 1 ≤ e) as [->|He1] by lia; [lia|].
    assert (2048 mod 10 = 0) as Hmod; [|discriminate].
    rewrite E. replace e with (1 + (e - 1)) by lia. rewrite Z.pow_add_r, Z.pow_1_r by lia.
    replace (m * (10 * 10 ^ (e - 1))) with (m * 10 ^ (e - 1) * 10) by lia. apply Z.mod_mul. lia.
Defined.

Lemma closest_packable_fee_spec_witness :
  ∃ r q, closest_packable_fee_amount (bd_of_u128 2048) = Val r ∧ bd_holds r q ∧ q ≤ 2048.
Proof.
  destruct (closest_packable_fee_spec (bd_of_u128 2048) 2048) as (r & q & H1 & H2 & _ & H3 & _);
    [apply demo_holds; by_decide|by_decide|].
  exists r, q. exact (conj H1 (conj H2 H3)).
Defined.

Lemma account_bits_defined_iff_witness : ∃ b, get_bits_le alice = Val b.
Proof.
  refine (proj2 (proj1 (account_bits_defined_iff alice _)) _);
    intros t Ht; cbn in Ht; apply elem_of_singleton in Ht as ->; by_decide.
Defined.

Lemma token_zero_invisible_witness : get_bits_le (add_token 0 alice) = get_bits_le alice.
Proof.
  refine (proj1 (token_zero_invisible alice _ _)).
  - intros t Ht; cbn in Ht; apply elem_of_singleton in Ht as ->; by_decide.
  - cbn. rewrite elem_of_singleton. lia.
Defined.

(** ** Loading the state *)

Lemma demo_index_ok : index_ok (ip_state demo_init).
Proof. destruct demo_init_ok as ([H1 H2 _] & _). exact (conj H1 H2). Qed.
Definition no_blocks : BlockNumber → result (option Block) := λ _, Ok None.

Lemma load_state_diff_correct_witness :
  ∃ ip', load_state_diff (Ok (Some (1, [(1, AddToken 0 0 9)]))) no_blocks demo_init = Val (Ok tt, ip') ∧
    ip_accounts ip' = apply_updates demo_map [(1, AddToken 0 0 9)].
Proof.
  destruct (load_state_diff_correct demo_init 1 [(1, AddToken 0 0 9)] no_blocks 0 demo_index_ok)
    as (ip' & H1 & _ & H2 & _); [|reflexivity|].
  - rewrite demo_init_accounts. split; [by_decide|]. split; [|exact I].
    exists (add_token 9 bob). split; [reflexivity|].
    intros id a [[-> ->]|[-> ->]]%demo_map_cases E; [discriminate E|reflexivity].
  - rewrite demo_init_accounts in H2. exists ip'. exact (conj H1 H2).
Defined.

Lemma load_state_diff_delete_witness :
  ∃ ip', load_state_diff (Ok (Some (1, [(1, Delete bob_address 0)]))) no_blocks demo_init = Val (Ok tt, ip') ∧
    ip_accounts ip' !! 1 = Some Account_default.
Proof.
  destruct (load_state_diff_delete demo_init 1 1 bob bob_address 0 no_blocks 0 demo_index_ok)
    as (ip' & H1 & H2 & _); [rewrite demo_init_accounts; reflexivity|reflexivity|].
  exists ip'. exact (conj H1 H2).
Defined.

Lemma genesis_block_correct_witness :
  ∃ us (s : PlasmaState DemoTree) h, create_genesis_block (0, ∅) alice_address = Val (us, s, h) ∧ state_ok s.
Proof.
  destruct (proj1 (genesis_block_correct (Tree := DemoTree) 0 ∅ alice_address) (conj eq_refl eq_refl))
    as (us & s & h & H1 & H2 & _).
  exists us, s, h. exact (conj H1 H2).
Defined.

(** ** Ethereum *)

Lemma update_events_state_correct_witness :
  let log := [mkBlockLog [2; 1] (Some 77); mkBlockLog [2; 2] (Some 79); mkBlockLog [1; 1] (Some 78)] in
  ∃ evs es', update_events_state 1 2 3 (Ok 10) (λ _ _, Ok log) 20 0 EventsState_default = Val (Ok (evs, 10), es') ∧
    get_only_verified_committed_events es' = Val [mkBlockEvent 1 77 Committed].
Proof.
  intros log. edestruct (update_events_state_correct 1 2 3 ltac:(by_decide) 0 (mkContract 0 []) (mkContract 1 [77; 79])
    EventsState_default 10 (λ _ _, Ok log) log 20 0 (1, 10)) as (evs & es' & H1 & _ & _ & H2).
  - repeat split; by_decide.
  - eapply steps_cons; [apply (step_commit 1 2 3 (mkContract 0 [])); by_decide|].
    eapply steps_cons; [apply (step_commit 1 2 3 (mkContract 0 [77])); by_decide|].
    eapply steps_cons; [apply (step_verify 1 2 3 (mkContract 0 [77; 79])); by_decide|apply steps_nil].
  - reflexivity.
  - reflexivity.
  - exists evs, es'. exact (conj H1 H2).
Defined.

Definition demo_priority_op : PriorityOp := mkPriorityOp 4 (PFullExit demo_full_exit) 100 [].
Definition demo_watch : EthWatch := mkEthWatch 10 (mkETHState ∅ [] {[4 := demo_priority_op]}) 0.
Lemma demo_watch_lookup id op : priority_queue (eth_state demo_watch) !! id = Some op → id = 4 ∧ op = demo_priority_op.
Proof. cbn [demo_watch eth_state priority_queue]. intros [<- <-]%lookup_singleton_Some. done. Qed.
Lemma demo_watch_keyed : queue_keyed (priority_queue (eth_state demo_watch)).
Proof. by intros id op [-> ->]%demo_watch_lookup. Qed.

Lemma get_priority_requests_spec_witness : (ops_chunks (get_priority_requests 4 10 demo_watch) ≤ 10)%nat.
Proof. refine (proj1 (get_priority_requests_spec 4 10 demo_watch demo_watch_keyed _)). by_decide. Defined.

Definition demo_event : PriorityEvent := mkPriorityEvent alice_address 4 6 (take 23 (drop 1 demo_exit_data)) 100.
Definition demo_log : EthLog := mkEthLog (Some 50) (mkLog [] (Some [])).
Definition demo_history : list (Z * PriorityOp * EthLog) := [(50, demo_priority_op, demo_log)].
Definition demo_node (h : Z) : EthNode := mkEthNode (Ok h) (λ from to, Ok (logs_in demo_history from (Z.min h (default h to)))).

Lemma eth_watch_accepts_witness :
  ∃ w w', watch_start (λ _, Some demo_event) (demo_node 40) (EthWatch_new 5) = Val w ∧
    watch_polls (λ _, Some demo_event) [demo_node 52; demo_node 60] w = Val w' ∧
    priority_queue (eth_state w') !! 4 = Some demo_priority_op.
Proof.
  destruct (eth_watch_accepts (λ _, Some demo_event) demo_history 5 40 [52; 60] (demo_node 40) [demo_node 52; demo_node 60])
    as (w & w' & H1 & H2 & _ & H3).
  - split.
    + constructor; [|constructor]. split; [reflexivity|]. vm_cast_no_check (eq_refl (Val (Ok demo_priority_op))).
    + intros x y ->%list_elem_of_singleton ->%list_elem_of_singleton _. reflexivity.
  - by_decide.
  - split; [reflexivity|]. split; [by_decide|]. intros; reflexivity.
  - repeat constructor; try by_decide; intros; reflexivity.
  - exists w, w'. refine (conj H1 (conj H2 _)). apply H3. split; [reflexivity|]. exists 50, demo_log.
    split; [apply list_elem_of_here|]. right. split; by_decide.
Defined.

(** ** The mempool *)

Definition demo_mempool : Mempool :=
  mkMempool (mkMempoolState {[alice_address := 0; bob_address := 0]} {[0 := alice_address; 1 := bob_address]}
    [TxTransfer demo_transfer]) 10.

Lemma propose_new_block_correct_witness :
  let '(b, mp') := propose_new_block demo_watch 4 demo_mempool in
  pb_txs b ++ ready_txs (mempool_state mp') = [TxTransfer demo_transfer].
Proof.
  pose proof (propose_new_block_correct demo_watch 4 demo_mempool demo_watch_keyed ltac:(by_decide) ltac:(by_decide)) as H.
  destruct (propose_new_block demo_watch 4 demo_mempool) as [b mp']. destruct H as (_ & H & _). exact H.
Defined.

Lemma demo_nonces_match : nonces_match demo_map (mempool_state demo_mempool).
Proof.
  split.
  - unfold demo_map. rewrite fmap_insert, map_fmap_singleton. reflexivity.
  - intros ad n. cbn [demo_mempool mempool_state account_nonces]. split.
    + intros [[<- <-]|[_ [<- <-]%lookup_singleton_Some]]%lookup_insert_Some; [by exists 0, alice|by exists 1, bob].
    + intros (id & a & [[-> ->]|[-> ->]]%demo_map_cases & <- & <-); reflexivity.
  - apply demo_map_ok.
Qed.

Lemma update_nonces_correct_witness :
  nonces_match demo_map' (update_nonces (os_updates demo_result) (mempool_state demo_mempool)).
Proof.
  apply (update_nonces_correct demo_map [OpTransfer (mkTransferOp demo_transfer 0 1)] (os_updates demo_result) demo_map'
    (mempool_state demo_mempool) demo_nonces_match demo_ledger_run).
  constructor; [intros [=]|constructor].
Defined.

Lemma proposer_keeper_in_sync_witness :
  let '(req, mp', bp') := commit_new_tx_mini_batch demo_watch demo_mempool (mkBlockProposer 4) in
  ∃ reply k', handle_request demo_clock req demo_keeper = Val (reply, k') ∧
    current_priority_op_number bp' = current_unprocessed_priority_op k'.
Proof.
  pose proof (proposer_keeper_in_sync demo_clock 1 3 demo_map demo_sizes demo_keeper demo_watch demo_mempool
    (mkBlockProposer 4) demo_keeper_ok) as H.
  destruct (commit_new_tx_mini_batch demo_watch demo_mempool (mkBlockProposer 4)) as [[req mp'] bp'].
  destruct H as (reply & k' & es & ops & H1 & _ & H2 & _).
  - rewrite demo_keeper_counter. reflexivity.
  - exact demo_watch_keyed.
  - intros id op [_ ->]%demo_watch_lookup. exact demo_keeper_alice.
  - by_decide.
  - rewrite demo_keeper_size. by_decide.
  - exists reply, k'. exact (conj H1 H2).
Defined.
