(* ===== verification/WitnessesDb.v ===== *)
(** * The database at work

    A codec whose values are the encoded data themselves, the genesis with the accounts of
    [Demo], and the theorems on the database and the committer applied to the block of the
    demo keeper. *)

From S2P Require Import Prelude Bytes Params Externals Primitives Amounts Account Tx Operations Block Merkle AccountLeaf PlasmaState PlasmaProofs Ledger StateKeeper StateKeeperProofs.
From S2P Require Import Decimal TreeState EventsState DataRestore EthStorage Storage StorageProofs BlockStorage BlockStorageProofs Committer.
From S2P Require Import RestoreStorage RestoreStorageProofs Demo.
Open Scope Z_scope.

Inductive demo_value : Type :=
| VTx (tx : FranklinTx)
| VOp (op : FranklinOp)
| VOptOp (op : option FranklinOp)
| VProof (p : EncodedProofPlonk).

#[export] Instance demo_codec : Codec := {|
  Value := demo_value;
  tx_to_value tx := VTx (serde_tx tx);
  tx_from_value v := match v with VTx tx => Some tx | _ => None end;
  op_to_value op := VOp (serde_op op);
  op_from_value v := match v with VOp op => Some op | _ => None end;
  opt_op_to_value op := VOptOp (serde_op <$> op);
  opt_op_from_value v := match v with VOptOp op => Some op | _ => None end;
  proof_to_value := VProof;
  proof_from_value v := match v with VProof p => Some p | _ => None end;
|}.

#[export] Instance demo_codec_laws : CodecLaws.
Proof. by split. Qed.

(** ** The genesis *)

Definition genesis_updates : AccountUpdates := [
  (0, Create alice_address 0); (0, ChangePubKeyHash PubKeyHash_default alice_hash 0 0); (0, AddToken 0 0 7); (1, Create bob_address 0)].

Lemma genesis_state : apply_updates ∅ genesis_updates = demo_map.
Proof. vm_compute. reflexivity. Qed.

Lemma genesis_db :
  ∃ db, chain_ok 0 (pair 0 <$> genesis_updates) [] 0 0 db ∧ cd_proofs db = [] ∧ t_operations (cd_state db) = [].
Proof.
  destruct (genesis_chain_ok 0 genesis_updates) as (db & _ & H & Hp & Ho); [..|by exists db].
  - repeat constructor; vm_compute; done.
  - cbn. repeat constructor; set_solver.
  - done.
  - unfold genesis_updates. generalize alice_hash, alice_address, bob_address. intros h a b. cbn. repeat split; set_solver.
Qed.

(** ** The block of the keeper *)

Lemma demo_request_fits : Forall request_fits demo_commits.
Proof.
  constructor; [|constructor]. split; [|split; [|split]].
  - split; [by_decide|]. split; [by_decide|]. split; [by_decide|]. split; [by_decide|]. split; [by_decide|]. split.
    + repeat constructor; by_decide.
    + repeat constructor; vm_compute; by (left; done) || (right; done).
  - repeat constructor; vm_compute; done.
  - cbn. repeat constructor; set_solver.
  - by_decide.
Qed.

Definition demo_ops : list FranklinOp := mjoin ((λ req, block_ops (cr_block req)) <$> demo_commits).

Lemma demo_ops_fresh : fresh_deposits demo_map demo_ops ∧ Forall (λ op, ¬ is_self_transfer op) demo_ops.
Proof.
  split; [|constructor; [intros []|]; constructor; [intros [=]|constructor]].
  intros [|o1 [|o2 pre]] op post us m1 E Hrun.
  - injection E as <- _. inversion Hrun as [|ops]; [|by destruct ops]. intros (id & a & Ha & Ht).
    apply demo_map_cases in Ha as [[-> ->]|[-> ->]]; cbn in Ht; set_solver.
  - by injection E as _ <- _.
  - injection E as _ _ E. by destruct pre.
Qed.

Lemma committer_stores_keeper_chain_witness :
  ∃ db self' sent m, chain_ok 0 (pair 0 <$> genesis_updates) [] 0 0 db ∧
    committer_run 0 (EvBlock <$> demo_commits) (mkCommitter db [] [] [] 0) = Val self' ∧
    cm_tx_for_eth self' = sent ∧ length sent = 1%nat ∧
    ledger_run m (pending_ops demo_keeper) (account_updates (pending_block demo_keeper)) (keeper_accounts demo_keeper).
Proof.
  destruct genesis_db as (db & Hdb & _). destruct demo_chain as (n & p & m & Hchain & Hpend).
  assert (apply_updates ∅ (snd <$> (pair 0 <$> genesis_updates)) = demo_map) as Hm by (rewrite tagged_updates; apply genesis_state).
  destruct (committer_stores_keeper_chain 0 db (pair 0 <$> genesis_updates) [] 0 0 (mkCommitter db [] [] [] 0) demo_sizes 3 demo_commits n p m)
    as (s & k & sent & H1 & _ & H3 & H4 & _).
  - by constructor.
  - rewrite Hm. exact Hchain.
  - reflexivity.
  - exact demo_request_fits.
  - rewrite Hm, <- demo_accounts. exact demo_single_owner.
  - rewrite Hm. apply demo_ops_fresh.
  - apply demo_ops_fresh.
  - exists db, s, sent, m. split; [exact Hdb|]. split; [exact H1|]. split; [exact H4|]. split; [|exact Hpend].
    apply Forall2_length in H3. by rewrite <- H3.
Defined.

Definition demo_updates : AccountUpdates := default [] (head (cr_accounts_updated <$> demo_commits)).
Definition demo_proof : EncodedProofPlonk := mkProof [1] [2; 3].
Definition demo_hist : list (Z * (Z * AccountUpdate)) := (pair 0 <$> genesis_updates) ++ (pair 1 <$> demo_updates).

(** The block is committed and its proof is stored. *)
Lemma demo_stored :
  ∃ db0 db1 db, stored_chain 0 db0 demo_hist [demo_block] 1 0 db1 ∧ cd_proofs db1 = [] ∧ t_operations (cd_state db0) = [] ∧
    stored_chain 0 db0 demo_hist [demo_block] 1 0 db ∧ load_proof 1 db = Val (Ok demo_proof) ∧ load_proof 2 db = Val (Err "NotFound").
Proof.
  destruct genesis_db as (db0 & Hdb & Hpr & Hops). pose proof demo_request_fits as [(Hb & Hu & Hnd & Hlen) _]%Forall_cons.
  assert (updates_valid (state_at (pair 0 <$> genesis_updates) 0) demo_updates) as Hval.
  { rewrite (state_at_all _ 0 (ck_hist _ _ _ _ _ _ Hdb)), tagged_updates, genesis_state. destruct demo_chain as (n & p & m & Hchain & _).
    destruct (ledger_run_valid _ _ _ _ (chain_run _ _ _ _ _ _ _ _ Hchain)) as [Hv _]; [rewrite <- demo_accounts; exact demo_single_owner|apply demo_ops_fresh..|].
    exact Hv. }
  set (op := mkOperation None ACommit demo_block demo_updates).
  destruct (execute_commit 0 _ _ _ _ _ op Hdb eq_refl) as (db1 & E1 & _); [done..|].
  assert (cd_proofs db1 = []) as Hp1 by (rewrite <- Hpr; by apply (execute_operation_proofs 0 op db0 _ db1 E1)).
  assert (stored_chain 0 db0 demo_hist [demo_block] 1 0 db1) as Hst
    by (by eapply (sc_commit 0 db0 (pair 0 <$> genesis_updates) [] 0 0 db0 op); [apply sc_start|..]).
  exists db0, db1. eexists. split; [exact Hst|]. split; [exact Hp1|]. split; [exact Hops|]. split.
  - eapply (sc_proof 0 db0 demo_hist [demo_block] 1 0 db1 1 demo_proof); [exact Hst|]. unfold store_proof. by rewrite Hp1.
  - done.
Qed.


Lemma poll_verifies_proved_blocks_witness :
  ∃ db self', poll_for_new_proofs 0 5 (mkCommitter db [] [] [] 0) = Val self' ∧
    cm_last_verified_block self' = 1 ∧ length (cm_tx_for_eth self') = 1%nat.
Proof.
  destruct demo_stored as (db0 & _ & db & _ & _ & _ & H & Hp & Hn). exists db.
  destruct (poll_verifies_proved_blocks 0 db0 demo_hist [demo_block] 1 [demo_proof] 0 (mkCommitter db [] [] [] 0) 5 "NotFound" H)
    as (self' & ops & H1 & H2 & H3 & _ & H4 & _).
  - reflexivity.
  - intros [|i] q Hq; [|by destruct i]. injection Hq as <-. split; [apply list_elem_of_singleton; reflexivity|exact Hp].
  - exact Hn.
  - cbn. lia.
  - exists self'. split; [exact H1|]. split; [exact H4|]. by rewrite H2.
Defined.

(** Block 1 is committed but not proved; a proof of block 2 does not help. *)
Definition demo_events : list CommitterEvent := (EvBlock <$> demo_commits) ++ [EvProof 2 demo_proof; EvPoll 5].
Lemma demo_events_run : is_val (committer_run 0 demo_events (mkCommitter empty_db [] [] [] 0)) = true.
Proof. vm_cast_no_check (eq_refl true). Qed.
Definition demo_committer : Committer := val_of (committer_run 0 demo_events (mkCommitter empty_db [] [] [] 0)) demo_events_run.

Lemma verification_in_order_witness : cm_last_verified_block demo_committer < 1.
Proof.
  apply (verification_in_order 0 1 demo_events (mkCommitter empty_db [] [] [] 0)).
  - by split.
  - by split.
  - constructor.
  - repeat constructor. done.
  - unfold demo_committer. generalize demo_events_run. by destruct (committer_run _ _ _).
Defined.

Lemma last_committed_state_spec_witness :
  ∃ st last, AccountSchema.last_committed_state_for_account 0 st =
    Val (Account_apply_updates (state_at demo_hist 0 !! 0)
      (snd <$> List.filter (λ p, negb (is_key_change p)) (snd <$> account_updates_after 0 last demo_hist))).
Proof.
  destruct demo_stored as (db0 & _ & db & _ & _ & _ & H & _). apply stored_chain_ok in H. destruct (ck_stored _ _ _ _ _ _ H) as [ds Hs].
  destruct (last_committed_state_spec demo_hist ds (cd_state db) (state_at demo_hist 0) 0 Hs (ck_snapshot _ _ _ _ _ _ H)) as (last & _ & H2).
  exists (cd_state db), last. exact H2.
Defined.

(** ** The restore driver *)

Lemma demo_updates_valid : updates_valid demo_map (mjoin (cr_accounts_updated <$> demo_commits)).
Proof.
  destruct demo_chain as (n & p & m & Hchain & _).
  destruct (ledger_run_valid _ _ _ _ (chain_run _ _ _ _ _ _ _ _ Hchain)) as [Hv _]; [rewrite <- demo_accounts; exact demo_single_owner|apply demo_ops_fresh..|].
  exact Hv.
Qed.

Definition demo_contract : Contract := mkContract 0 [].
Definition demo_contract' : Contract := mkContract 1 [77].
Definition demo_block_logs : list BlockLog := [mkBlockLog [11; 1] (Some 77); mkBlockLog [10; 1] (Some 78)].
Definition demo_node_logs (from to : Z) : result (list BlockLog) := Ok demo_block_logs.
Definition demo_restore (db : ChainDb) : RestoreDriver :=
  mkRestoreDriver (mkRestoreDb db [] 1 [] 1 [decimal 0] ["None"%string] None) EventsState_default
    (mkTreeState demo_state 3 alice_address demo_sizes 0) demo_sizes.

Lemma demo_verified_in p' m' n' :
  chain demo_sizes 1 3 demo_map demo_commits n' p' m' →
  verified_in demo_transaction demo_decode 10 11 12 demo_contract demo_contract' EventsState_default demo_sizes 3 demo_map demo_commits p' m'
    100 demo_node_logs 200 0.
Proof.
  intros Hchain. split.
  - exists (1, 100), demo_block_logs. split; [reflexivity|]. split; [by_decide|]. split; [reflexivity|]. split.
    + eapply steps_cons; [apply (step_commit 10 11 12 demo_contract 77); done|].
      eapply steps_cons; [|apply steps_nil]. apply (step_verify 10 11 12 (mkContract 0 [77]) 78). cbn. lia.
    + constructor; [intros h [= <-]; by_decide|]. constructor; [intros h [= <-]; by_decide|constructor].
  - repeat constructor; by_decide.
  - by_decide.
  - by exists n'.
  - done.
  - exact demo_committed.
  - exact demo_publishable.
  - split; [exact demo_request_fits|exact demo_updates_valid|apply demo_ops_fresh|..].
    + constructor; [by exists alice|constructor].
    + repeat constructor; by_decide.
  - exact demo_leaves_ok.
  - by_decide.
Qed.

Lemma demo_restore_at db : chain_ok 0 (pair 0 <$> genesis_updates) [] 0 0 db → driver_at 0 demo_sizes demo_contract 3 demo_map (demo_restore db).
Proof.
  intros Hdb. exists 0%nat, 0. split; [|split; [exact demo_driver_mirrors|split; [|done]]].
  - split_and!; try done; cbn; try lia.
  - exists (pair 0 <$> genesis_updates), []. split; [exact Hdb|]. split; [|split; [|done]].
    + apply Forall_fmap, Forall_forall. cbn. lia.
    + by rewrite (state_at_all _ 0 (ck_hist _ _ _ _ _ _ Hdb)), tagged_updates, genesis_state.
Qed.

Lemma restart_resumes_witness :
  ∃ db d' p' m', state_update_round 0 demo_clock demo_transaction demo_decode 10 11 12 (Ok 100) demo_node_logs 200 0 (demo_restore db) = Val d' ∧
    driver_at 0 demo_sizes demo_contract' p' m' d'.
Proof.
  destruct genesis_db as (db & Hdb & _). destruct demo_chain as (n' & p' & m' & Hchain & _).
  destruct (restart_resumes 0 demo_clock demo_transaction demo_decode 10 11 12 ltac:(by_decide) demo_sizes demo_contract demo_contract' 3 demo_map
    demo_commits p' m' 100 demo_node_logs 200 0 (demo_restore db) (demo_restore_at db Hdb) (demo_verified_in p' m' n' Hchain))
    as (d1 & ops & d2 & d3 & d' & _ & _ & _ & H1 & H2 & _).
  exists db, d', p', m'. exact (conj H1 H2).
Defined.
