(* ===== verification/WitnessesEth.v ===== *)
(** * The Ethereum sender at work

    The theorems on the queue, the gas price and the sender, applied to the committed block
    of [Demo]: a node that answers and confirms, a node that is unreachable, and a signer
    that fails. *)

From S2P Require Import Prelude Bytes Params Externals Primitives Amounts Account Tx Operations Block Merkle StateKeeper.
From S2P Require Import EthStorage TxQueue GasAdjuster EthSender ExecLogic EthSenderProofs SenderSlots Storage BlockStorage BlockStorageProofs.
From S2P Require Import SenderRecovery Demo WitnessesDb.
Open Scope Z_scope.

Definition demo_op : Operation := mkOperation (Some 1) ACommit demo_block [].
Definition demo_tx : TxData := from_operation Commit demo_op [1; 2].

(** ** The queue *)

Definition demo_queue_ops : list QueueOp := [
  QVerify 1 (from_raw Verify [3]); QPop; QCommit demo_tx; QPop; QReturn; QPop; QWithdraw (from_raw Withdraw_ [4]); QPop; QReport; QPop].
Definition demo_builder : TxQueueBuilder := TxQueueBuilder_new 3.
Lemma demo_queue_val : is_val (queue_run demo_queue_ops ([], build demo_builder)) = true.
Proof. vm_cast_no_check (eq_refl true). Qed.
Definition demo_queue_result : list TxData * TxQueue := val_of (queue_run demo_queue_ops ([], build demo_builder)) demo_queue_val.

Lemma val_of_eq {A} (o : outcome A) (H : is_val o = true) : o = Val (val_of o H).
Proof. by destruct o. Qed.

Lemma tx_queue_order_witness :
  td_raw <$> demo_queue_result.1 = [[1; 2]; [3]; [4]] ∧ sent_pending_txs demo_queue_result.2 = 0 + Z.of_nat (length demo_queue_result.1) + 1 - 1 ∧
  of_type Commit demo_queue_result.1 `prefix_of` [demo_tx].
Proof.
  split; [vm_cast_no_check (eq_refl ([[1; 2]; [3]; [4]] : list bytes))|].
  destruct (tx_queue_order demo_builder demo_queue_ops demo_queue_result.1 demo_queue_result.2) as (H1 & _ & H2 & _).
  - by split.
  - done.
  - done.
  - by split.
  - done.
  - by repeat constructor.
  - rewrite <- surjective_pairing. apply val_of_eq.
  - exact (conj H1 H2).
Defined.

Lemma gas_price_spec_witness :
  ∃ self', get_gas_price (Ok 100) (Some 200) (GasAdjuster_new 220 0) = Val (Ok 220, self').
Proof.
  destruct (gas_price_spec 100 (Some 200) (GasAdjuster_new 220 0)) as (self' & H & _).
  - split; cbn; [lia|done|constructor|by split].
  - by split.
  - by split.
  - exists self'. exact H.
Defined.

(** ** The sender *)

Definition demo_options : EthSenderOptions := mkOptions 10 1 2.

(** Transactions are executed with three confirmations from the tenth call on. *)
Definition demo_env : Environment := {|
  env_block_number n := Ok 100;
  env_gas_price n := Ok 10;
  env_tx_status n h := Ok (if (n <? 10)%nat then None else Some (mkStatus 3 true None));
  env_send_tx n := Ok tt;
  env_sign n raw nonce gas := Ok (mkSigned raw gas nonce nonce);
  env_encode call := [];
  env_db n := Ok tt;
  env_notify n := Ok tt;
|}.

Definition demo_into_op (so : StoredOperation) : Fallible Operation :=
  if so_id so =? 1 then Val (Ok demo_op) else Val (Err "NotFound").

(** Decimal digits that are read as hexadecimal ones. *)
Fixpoint read_hex (digits : nat) (z : Z) : Z :=
  match digits with
  | O => 0
  | S digits => z mod 10 + 16 * read_hex digits (z / 10)
  end.
Definition demo_u256_from_str (z : Z) : option Z := Some (read_hex 78 z).

Definition demo_stored_op : StoredOperation := mkStoredOperation 1 1 "COMMIT" false.
Definition demo_eth_db : EthDb := mkEthDb [] 1 [] 1 [] (Some (mkETHParams 5 400 0 0 0)) [demo_stored_op].
Definition demo_input : RoundInput := mkRoundInput [] 0 100 1.

Lemma demo_sender_val : is_val (ETHSender_new demo_env demo_options demo_into_op demo_u256_from_str demo_eth_db 0) = true.
Proof. vm_cast_no_check (eq_refl true). Qed.
Definition demo_sender : ETHSender :=
  val_of (ETHSender_new demo_env demo_options demo_into_op demo_u256_from_str demo_eth_db 0) demo_sender_val.

Lemma demo_sender_db : es_db demo_sender = demo_eth_db.
Proof. vm_cast_no_check (eq_refl demo_eth_db). Qed.
Lemma demo_sender_ongoing : ongoing_ops demo_sender = [].
Proof. vm_cast_no_check (eq_refl ([] : list ETHOperation)). Qed.
Lemma demo_sender_sent : sent_txs demo_sender = [].
Proof. vm_cast_no_check (eq_refl ([] : list SignedCallResult)). Qed.

(** Four rounds of the run. *)
Definition demo_inputs : list RoundInput := [demo_input; demo_input; demo_input; demo_input].
Lemma demo_sender_runs : is_val (sender_run demo_env demo_options demo_inputs demo_sender) = true.
Proof. vm_cast_no_check (eq_refl true). Qed.
Definition demo_sender' : ETHSender := val_of (sender_run demo_env demo_options demo_inputs demo_sender) demo_sender_runs.

Lemma sender_records_witness :
  length (eth_operations (es_db demo_sender')) = 1%nat ∧ se_confirmed <$> eth_operations (es_db demo_sender') = [true] ∧
  se_nonce <$> eth_operations (es_db demo_sender') = seqZ 5 1 ∧
  Forall (tx_recorded demo_env (es_db demo_sender')) (sent_txs demo_sender').
Proof.
  assert (length (eth_operations (es_db demo_sender')) = 1%nat) as Hl by (vm_cast_no_check (eq_refl 1%nat)).
  split; [exact Hl|]. split; [vm_cast_no_check (eq_refl [true])|].
  destruct (sender_records demo_env demo_options demo_inputs demo_sender demo_sender' (mkETHParams 5 400 0 0 0)) as (H1 & H2 & _).
  - rewrite demo_sender_db. reflexivity.
  - rewrite demo_sender_db. reflexivity.
  - by split.
  - exact demo_sender_ongoing.
  - exact demo_sender_sent.
  - apply val_of_eq.
  - rewrite Hl in H1. exact (conj H1 H2).
Defined.

(** ** Restarting *)

Lemma demo_reliable : reliable demo_env.
Proof. split; [done|by eexists|]. cbn. intros n n' raw raw' nonce nonce' gas gas' tx tx' [= <-] [= <-]. done. Qed.
(** The sender that is started with the block of the demo keeper in the database. *)
Definition ok_of {A} (d : A) (r : Fallible A) : A := match r with Val (Ok a) => a | _ => d end.
Definition demo_chain_db : ChainDb := ok_of empty_db (save_block demo_block empty_db).
Definition demo_reader : StoredOperation → Fallible Operation := into_op 0 demo_chain_db.

Lemma restart_val : is_val (ETHSender_new demo_env demo_options demo_reader demo_u256_from_str demo_eth_db 0) = true.
Proof. vm_cast_no_check (eq_refl true). Qed.
Definition restart_sender : ETHSender := val_of (ETHSender_new demo_env demo_options demo_reader demo_u256_from_str demo_eth_db 0) restart_val.
Lemma restart_round_val : is_val (sender_run demo_env demo_options [demo_input] restart_sender) = true.
Proof. vm_cast_no_check (eq_refl true). Qed.
Definition restart_sender1 : ETHSender := val_of (sender_run demo_env demo_options [demo_input] restart_sender) restart_round_val.

Lemma sender_restart_witness :
  ∃ ops, load_unconfirmed_operations demo_reader demo_u256_from_str (es_db restart_sender1) = Val (Ok ops) ∧
    Forall2 (reloaded demo_u256_from_str) (ongoing_ops restart_sender1) ops ∧ length ops = 1%nat.
Proof.
  destruct (sender_restart demo_env demo_options demo_u256_from_str 0 demo_chain_db demo_eth_db (mkETHParams 5 400 0 0 0) 0 [demo_input]
    restart_sender restart_sender1 demo_reliable) as ((ops & H1 & H2) & _).
  - reflexivity.
  - reflexivity.
  - reflexivity.
  - reflexivity.
  - by split.
  - apply NoDup_singleton.
  - by split.
  - apply val_of_eq.
  - constructor; constructor.
  - apply val_of_eq.
  - intros op _. by eexists.
  - exists ops. split; [exact H1|]. split; [exact H2|]. apply Forall2_length in H2. rewrite <- H2. vm_cast_no_check (eq_refl 1%nat).
Defined.

(** ** Failures *)

Definition down_env : Environment := {|
  env_block_number n := Err "unreachable";
  env_gas_price n := Ok 10;
  env_tx_status n h := Ok None;
  env_send_tx n := Ok tt;
  env_sign n raw nonce gas := Err "locked";
  env_encode call := [];
  env_db n := Ok tt;
  env_notify n := Ok tt;
|}.
Definition locked_env : Environment := {|
  env_block_number n := Ok 100;
  env_gas_price n := Ok 10;
  env_tx_status n h := Ok None;
  env_send_tx n := Ok tt;
  env_sign n raw nonce gas := Err "locked";
  env_encode call := [];
  env_db n := Ok tt;
  env_notify n := Ok tt;
|}.

Definition demo_waiting : ETHSender :=
  mkSender [] demo_eth_db (add_commit_operation demo_tx (build demo_builder)) (GasAdjuster_new 400 0) [] [] 0.

Lemma down_run_val : is_val (sender_run down_env demo_options demo_inputs demo_waiting) = true.
Proof. vm_cast_no_check (eq_refl true). Qed.
Definition down_sender : ETHSender := val_of (sender_run down_env demo_options demo_inputs demo_waiting) down_run_val.

Lemma unreachable_node_blocks_sender_witness :
  max_pending_txs (tx_queue down_sender) ≤ sent_pending_txs (tx_queue down_sender) ∧ sent_txs down_sender = [].
Proof.
  destruct (unreachable_node_blocks_sender down_env demo_options demo_waiting demo_tx
    (mkTxQueue 3 0 (CounterQueue.mkCounterQueue [] 1) (verify_operations (build demo_builder)) (withdraw_operations (build demo_builder)))
    0 100 1 [demo_input; demo_input; demo_input] down_sender) as (H1 & _ & H2 & _).
  - split; cbn; by repeat constructor.
  - by split.
  - done.
  - reflexivity.
  - reflexivity.
  - intros n _. by eexists.
  - apply val_of_eq.
  - exact (conj H1 H2).
Defined.

Lemma locked_val : is_val (exec_state (initialize_operation locked_env demo_options demo_tx demo_waiting)) = true.
Proof. vm_cast_no_check (eq_refl true). Qed.
Definition locked_sender : ETHSender := val_of (exec_state (initialize_operation locked_env demo_options demo_tx demo_waiting)) locked_val.

Lemma failed_signing_breaks_restart_witness :
  ETHSender_new locked_env demo_options demo_into_op demo_u256_from_str (es_db locked_sender) 0 =
  Panic "No hashes stored for the Ethereum operation".
Proof.
  assert (length (eth_operations (es_db locked_sender)) = 1%nat) as Hl by (vm_cast_no_check (eq_refl 1%nat)).
  assert (∃ r, initialize_operation locked_env demo_options demo_tx demo_waiting = Val (r, locked_sender)) as [r Hr].
  { unfold locked_sender. generalize locked_val. unfold exec_state. destruct (initialize_operation _ _ _ _) as [[r s]|]; [|done]. intros H. by exists r. }
  apply (failed_signing_breaks_restart locked_env demo_options demo_into_op demo_u256_from_str demo_tx demo_waiting r locked_sender 0).
  - intros n raw nonce gas. by eexists.
  - reflexivity.
  - reflexivity.
  - exact Hr.
  - intros E. rewrite E in Hl. discriminate Hl.
Defined.
