(* ===== verification/WitnessesProver.v ===== *)
(** * Provers at work

    The theorems on the prover server, the jobs of the provers and the observer, applied
    to the block of the demo keeper and to small tables. *)

From S2P Require Import Prelude Bytes Params Externals Primitives Amounts Account Tx Operations Block Merkle ParallelSmt AccountLeaf PlasmaState PlasmaProofs Ledger.
From S2P Require Import StateKeeper StateKeeperProofs EthStorage Storage StorageProofs BlockStorage BlockStorageProofs Committer.
From S2P Require Import CircuitTree Witness WitnessOps WitnessProofs WitnessLedger WitnessFollows ProverPool BlockWitness ProverPoolProofs ProverJobs Observer Demo WitnessesDb.
Open Scope Z_scope.

(** ** The database with the block of the keeper, at its number or one later *)

Definition with_number (k : Z) (b : Block) : Block :=
  mkBlock k (new_root_hash b) (fee_account b) (block_transactions b) (processed_priority_ops b) (block_chunks_size b).
Definition hist_at (k : Z) : list (Z * (Z * AccountUpdate)) := (pair 0 <$> genesis_updates) ++ (pair k <$> demo_updates).

Lemma demo_committed_at k :
  0 < k < 5 →
  ∃ db0 db, stored_chain 0 db0 (hist_at k) [with_number k demo_block] k 0 db ∧ t_operations (cd_state db0) = [] ∧ cd_proofs db = [].
Proof.
  intros Hk. destruct genesis_db as (db0 & Hdb & Hpr & Hops). pose proof demo_request_fits as [(Hb & Hu & Hnd & Hlen) _]%Forall_cons.
  assert (updates_valid (state_at (pair 0 <$> genesis_updates) 0) demo_updates) as Hval.
  { rewrite (state_at_all _ 0 (ck_hist _ _ _ _ _ _ Hdb)), tagged_updates, genesis_state. destruct demo_chain as (n & p & m & Hchain & _).
    destruct (ledger_run_valid _ _ _ _ (chain_run _ _ _ _ _ _ _ _ Hchain)) as [Hv _]; [rewrite <- demo_accounts; exact demo_single_owner|apply demo_ops_fresh..|].
    exact Hv. }
  assert (block_fits (with_number k demo_block)) as Hfit.
  { destruct Hb as [_ Hb]. split; [unfold fits; cbn; assert (5 < 2 ^ 32) by done; lia|exact Hb]. }
  set (op := mkOperation None ACommit (with_number k demo_block) demo_updates).
  destruct (execute_commit 0 _ _ _ _ _ op Hdb eq_refl) as (db1 & E1 & _); [cbn; lia|done..|].
  exists db0, db1. split; [|split; [exact Hops|]].
  - eapply (sc_commit 0 db0 (pair 0 <$> genesis_updates) [] 0 0 db0 op); [by apply sc_start|done|cbn; lia|done..|exact E1].
  - rewrite <- Hpr. by apply (execute_operation_proofs 0 op db0 _ db1 E1).
Qed.

Lemma demo_tree_fits : tree_fits demo_map.
Proof.
  split; [exact demo_leaves_ok|]. intros id [a Ha]. apply demo_map_cases in Ha as [[-> _]|[-> _]]; by split.
Qed.

Lemma demo_provable : provable_from 2 demo_map.
Proof.
  split; [done|exact demo_leaves_ok|exact (proj1 demo_map_ok)|]. intros id a Ha. apply demo_map_cases in Ha as [[_ ->]|[_ ->]]; by split.
Qed.

Lemma demo_ops_provable : Forall op_provable (all_ops demo_commits).
Proof.
  pose proof demo_publishable as [Hp _]%Forall_cons. destruct Hp as [Hwf _].
  apply Forall_cons in Hwf as [H1 Hwf]. apply Forall_cons in Hwf as [H2 _].
  constructor; [by split|]. constructor; [|constructor]. by split.
Qed.

Lemma demo_chain_provable : chain_provable demo_map demo_commits.
Proof.
  split; [exact demo_provable|exact demo_ops_provable|]. constructor; [|constructor]. by exists alice.
Qed.

Definition demo_maintainer (t : CircuitAccountTree) (n : Z) : Maintainer := Maintainer_new (ProversDataPool_new (n - 1) 10) t (n - 1).

Lemma demo_maintainer_at : ∃ t, maintainer_at 1 demo_map (demo_maintainer t 1).
Proof.
  destruct empty_mirrors as (t0 & _ & Ht0). destruct (init_tree_ok demo_map t0 Ht0 demo_tree_fits) as (t & _ & Ht). exists t. by split.
Qed.

Lemma maintainer_prepares_blocks_witness :
  ∃ db t s' pd, maintainer_at 1 demo_map (demo_maintainer t 1) ∧ maintain_round 0 db (demo_maintainer t 1) = Val s' ∧
    pool_get 1 (mt_data s') = Some pd ∧ length (pd_operations pd) = block_chunks_size demo_block.
Proof.
  destruct (demo_committed_at 1 ltac:(lia)) as (db0 & db & Hst & Hops & Hpr). destruct demo_maintainer_at as [t Ht].
  destruct demo_chain as (n & p & m & Hch & _).
  destruct (maintainer_prepares_blocks 0 db0 (hist_at 1) [with_number 1 demo_block] 1 0 db demo_sizes 1 3 demo_map demo_commits n p m (demo_maintainer t 1))
    as (s' & ms & E & _ & [Hlen _] & _ & Hpd).
  - exact Hst.
  - exact Hops.
  - exact Ht.
  - cbn. lia.
  - reflexivity.
  - exact Hch.
  - lia.
  - reflexivity.
  - exact demo_chain_provable.
  - destruct ms as [|m2 ms]; [discriminate Hlen|].
    specialize (Hpd 0%nat _ demo_map m2 eq_refl eq_refl eq_refl). cbn zeta in Hpd. unfold has_proof in Hpd. rewrite Hpr in Hpd. cbn [existsb] in Hpd.
    destruct Hpd as (pd & data & Hget & _ & Hw). exists db, t, s', pd. split; [exact Ht|]. split; [exact E|]. split; [exact Hget|]. exact (bw_length _ _ _ _ _ Hw).
Defined.

(** Block 1 was skipped, block 2 is the first one in the database. *)
Lemma skipped_block_stops_provers_witness :
  ∃ db t, maintainer_at 1 demo_map (demo_maintainer t 1) ∧
    maintain_round 0 db (demo_maintainer t 1) = Panic "Blocks must be processed in order".
Proof.
  destruct (demo_committed_at 2 ltac:(lia)) as (db0 & db & Hst & Hops & _). destruct demo_maintainer_at as [t Ht]. exists db, t. split; [exact Ht|].
  apply (skipped_block_stops_provers 0 db0 (hist_at 2) [with_number 2 demo_block] 2 0 db 1 demo_map (demo_maintainer t 1) (with_number 2 demo_block) []).
  - exact Hst.
  - exact Hops.
  - exact Ht.
  - cbn. lia.
  - reflexivity.
  - cbn. lia.
Defined.

(** ** Public data *)

Definition demo_transfer_op : FranklinOp := OpTransfer (mkTransferOp demo_transfer 0 1).

Lemma run_single m op us m' :
  ledger_run m [op] us m' → ∃ us', ledger_step m op us' m' ∧ op_addressed m op ∧ op_token_ok op.
Proof.
  intros H. inversion H as [|ops us1 m1 op1 us2 m2 Hrun Hstep Ha Ht E1 E2 E3]. apply (app_inj_tail ops []) in E1 as [-> ->].
  inversion Hrun as [|ops' ? ? ? ? ? ? ? ? ? E]; [|by destruct ops']. subst. by exists us2.
Qed.
Lemma demo_transfer_step : ∃ us, ledger_step demo_map demo_transfer_op us demo_map' ∧ op_addressed demo_map demo_transfer_op ∧ op_token_ok demo_transfer_op.
Proof. exact (run_single _ _ _ _ demo_ledger_run). Qed.
Lemma demo_builder : ∃ b, mirrors (wb_account_tree b) demo_map.
Proof.
  destruct demo_maintainer_at as [t Ht]. exists (mkWitnessBuilder t 0 1 (fr_of_uint 0) [] [] None None None None None None). exact (ma_tree _ _ _ Ht).
Qed.

(** Alice's transfer is published with its recipient first. *)
Lemma collected_data_agrees_witness :
  ∃ b acc b' pd, collect_op demo_transfer_op (mkCollected [] [] []) b = Val (Ok acc, b') ∧ public_data demo_transfer_op = Val pd ∧
    co_pub_data acc ≠ bytes_into_be_bits pd.
Proof.
  destruct demo_builder as [b Hb]. destruct demo_transfer_step as (us & Hstep & Haddr & Htok).
  assert (op_provable demo_transfer_op) as Hop by (pose proof demo_ops_provable as [_ H]%Forall_cons; by apply Forall_cons in H as [H _]).
  destruct (collected_data_agrees demo_transfer_op demo_map us demo_map' b) as (acc & b' & pd & E & Hpd & Hiff).
  - exact Hb.
  - exact (provable_less _ 1 1 demo_provable ltac:(lia) ltac:(lia)).
  - exact Hop.
  - exact Hstep.
  - exact Haddr.
  - exact Htok.
  - exists b, acc, b', pd. split; [exact E|]. split; [exact Hpd|]. intros H%Hiff. cbn in H. destruct H as (x & H1 & _). lia.
Defined.

(** ** Full exits *)

Definition demo_exit_op : FranklinOp := OpFullExit (mkFullExitOp demo_full_exit).
Definition demo_exit_store : outcome ChainDb :=
  store_executed_priority_operation (mkExecutedPriorityOp (mkPriorityOp 3 (PFullExit demo_full_exit) 100 []) demo_exit_op 0) 1 empty_db.
Definition demo_exit_db : ChainDb := val_of demo_exit_store ltac:(vm_compute; reflexivity).
Definition demo_exit_commit : Operation := mkOperation None ACommit (with_number 1 demo_block) [].

Lemma demo_exit_ops : get_block_operations 0 1 demo_exit_db = Val [demo_exit_op].
Proof. vm_cast_no_check (eq_refl (Val [demo_exit_op] : outcome (list FranklinOp))). Qed.

Lemma full_exit_not_proved_witness :
  get_block_operations 0 1 demo_exit_db = Val [demo_exit_op] ∧ ∀ t pd t', build_prover_data 0 demo_exit_db demo_exit_commit t ≠ Val (Ok pd, t').
Proof.
  split; [exact demo_exit_ops|]. intros t pd t'.
  apply (full_exit_not_proved 0 demo_exit_db demo_exit_commit t [demo_exit_op] (mkFullExitOp demo_full_exit)).
  - exact demo_exit_ops.
  - by apply list_elem_of_singleton.
Defined.

(** ** Jobs *)

Definition demo_jobs_db : ChainDb :=
  mkChainDb (mkStateDb [] [] [] 1 [] [] 1 [mkStorageBlock 5 [] 0 0 0 6] [mkStoredOperation 1 5 (ActionType_to_string COMMIT) false] 2) [] 1 [] 1 [].
Definition demo_jobs : ProverTables := mkProverTables [mkProverRun 1 5 (Some "gone"%string) 100 100] 2 [] 1.
Definition demo_app : AppState := mkAppState demo_jobs_db demo_jobs (ProversDataPool_new 4 10) 60.

(** The job of block 5 timed out at 160. *)
Lemma demo_unassigned : unassigned 200 60 6 demo_jobs_db demo_jobs 5.
Proof.
  split; [by eexists; split; [apply list_elem_of_singleton|]|vm_compute; reflexivity|constructor| |by eexists; split; [apply list_elem_of_singleton|]].
  repeat constructor. unfold live. cbn. lia.
Qed.

Lemma block_to_prove_correct_witness :
  ∃ jobs, block_to_prove 200 (mkProverReq "worker" 6) demo_app = Val (Ok (mkBlockToProveRes 2 5), set_jobs jobs demo_app) ∧
    ∀ now' size', now' < 260 → ¬ unassigned now' 60 size' demo_jobs_db jobs 5.
Proof.
  pose proof (block_to_prove_correct 200 (mkProverReq "worker" 6) demo_app) as H. cbn zeta in H. rewrite decide_False in H by done.
  destruct H as [[_ H]|(n & jobs & E & Hfree & Hleast & _ & _ & _ & Hlater)].
  - by repeat constructor.
  - destruct (H 5 demo_unassigned).
  - assert (n = 5) as -> by (pose proof (ua_committed _ _ _ _ _ _ Hfree) as (o & ->%list_elem_of_singleton & <- & _); reflexivity).
    exists jobs. split; [exact E|exact Hlater].
Defined.

Lemma publish_correct_witness :
  ∃ data', publish (mkPublishReq 5 demo_proof) demo_app = Val (Ok tt, data') ∧ load_proof 5 (as_db data') = Val (Ok demo_proof) ∧
    ∀ now timeout size jobs, ¬ unassigned now timeout size (as_db data') jobs 5.
Proof.
  destruct (publish_correct (mkPublishReq 5 demo_proof) demo_app) as (data' & E & Hl & _ & _ & _ & _ & Hu). exists data'.
  split; [exact E|]. split; [exact Hl|exact Hu].
Defined.

Lemma concurrent_provers_share_a_block_witness :
  ∃ jobs' run1 run2, run_block_number run1 = run_block_number run2 ∧ run_id run1 ≠ run_id run2 ∧
    rtc (job_step 200 60 6 demo_jobs_db) (demo_jobs, [mkRequest "one" Waiting; mkRequest "two" Waiting])
      (jobs', [mkRequest "one" (Answered (Some run1)); mkRequest "two" (Answered (Some run2))]).
Proof.
  destruct (concurrent_provers_share_a_block 200 60 6 demo_jobs_db demo_jobs "one" "two" 5) as (jobs' & r1 & r2 & Hrun & Hb & Hid & _).
  - by repeat constructor.
  - lia.
  - exact demo_unassigned.
  - exists jobs', r1, r2. split; [exact Hb|]. split; [exact Hid|exact Hrun].
Defined.

(** ** The observer *)

Lemma genesis_state_at k : 0 < k → state_at (hist_at k) 0 = demo_map.
Proof.
  intros Hk. unfold hist_at. rewrite (state_at_later _ 0) by (try lia; by repeat constructor).
  rewrite (state_at_all _ 0) by (by repeat constructor). rewrite tagged_updates. exact genesis_state.
Qed.

Lemma run_nil_inv (m : AccountMap) us m' : ledger_run m [] us m' → m' = m.
Proof. intros H. remember [] as ops eqn:E. destruct H as [|ops]; [reflexivity|by destruct ops]. Qed.

Lemma demo_final_map : account_map_ok (apply_updates ∅ (snd <$> hist_at 1)).
Proof.
  unfold hist_at. rewrite fmap_app, !tagged_updates, apply_updates_app, genesis_state. destruct demo_chain as (n & p & m & Hch & Hpend).
  pose proof (chain_run _ _ _ _ _ _ _ _ Hch) as Hrun. pose proof (ledger_run_replay _ _ _ _ Hrun (proj2 demo_ops_fresh)) as E.
  change (mjoin (cr_accounts_updated <$> demo_commits)) with demo_updates in E. rewrite E.
  assert (m = keeper_accounts demo_keeper) as ->.
  { rewrite demo_pending_eq in Hpend. symmetry. exact (run_nil_inv _ _ _ Hpend). }
  apply (state_map_ok (Tree := DemoTree)); [exact (ko_state _ _ _ _ _ demo_keeper_ok)|]. change (accounts (sk_state demo_keeper)) with (keeper_accounts demo_keeper).
  rewrite demo_keeper_size. done.
Qed.

Lemma observer_init_correct_witness :
  ∃ db s0 s, observer_init (Tree := DemoTree) 0 db s0 = Val (Ok tt, s) ∧ circuit_tree_block s = 0 ∧ mirrors (circuit_acc_tree s) demo_map.
Proof.
  destruct (demo_committed_at 1 ltac:(lia)) as (db0 & db & Hst & Hops & _). destruct (ObservedState_new_Val (Tree := DemoTree)) as [s0 Hs0].
  destruct (observer_init_correct (Tree := DemoTree) 0 db0 (hist_at 1) [with_number 1 demo_block] 1 0 db s0)
    as (s & n & op_id & E & _ & _ & _ & _ & _ & Hb & Hm & _).
  - exact Hst.
  - exact Hops.
  - exact demo_final_map.
  - rewrite genesis_state_at by lia. exact demo_tree_fits.
  - lia.
  - exact Hs0.
  - rewrite genesis_state_at in Hm by lia. exists db, s0, s. split; [exact E|]. split; [exact Hb|exact Hm].
Defined.

Lemma demo_verified : ∃ db0 db, stored_chain 0 db0 demo_hist [demo_block] 1 1 db.
Proof.
  destruct demo_stored as (db0 & _ & db & _ & _ & _ & H & _). pose proof (stored_chain_ok _ _ _ _ _ _ _ H) as Hok.
  set (op := mkOperation None (AVerify demo_proof) demo_block []).
  assert (∀ e, e ∈ demo_hist → e.1 ≤ 0 ∨ block_number demo_block ≤ e.1) as Hgap.
  { intros e. unfold demo_hist. rewrite elem_of_app, !list_elem_of_fmap. intros [(u & -> & _)|(u & -> & _)]; cbn; lia. }
  assert (demo_block ∈ [demo_block]) as Hin by (by apply list_elem_of_singleton).
  destruct (execute_verify 0 _ _ _ _ _ op demo_proof demo_block Hok eq_refl Hin eq_refl ltac:(cbn; lia) Hgap) as (q & db' & E & _).
  exists db0, db'. eapply (sc_verify 0 db0 demo_hist [demo_block] 1 0 db op _ db' demo_proof demo_block); [exact H|done|exact Hin|done|cbn; lia|exact Hgap|exact E].
Qed.

Lemma observer_follows_verified_witness :
  ∃ db (s s' : ObservedState DemoTree), mirrors (circuit_acc_tree s) demo_map ∧ circuit_tree_block s = 0 ∧
    update_circuit_account_tree 0 db s = Val (Ok tt, s') ∧ circuit_tree_block s' = 1.
Proof.
  destruct demo_verified as (db0 & db & Hst). destruct empty_mirrors as (t0 & _ & Ht0).
  destruct (init_tree_ok demo_map t0 Ht0 demo_tree_fits) as (t & _ & Ht). destruct demo_chain as (n & p & m & Hch & _).
  set (s := mkObservedState demo_init t 0).
  destruct (observer_follows_verified (Tree := DemoTree) 0 db0 demo_hist [demo_block] 1 1 db demo_sizes 0 3 demo_map demo_commits n p m s)
    as (s' & E & _ & Hb & _).
  - exact Hst.
  - exact Ht.
  - reflexivity.
  - lia.
  - lia.
  - exact Hch.
  - reflexivity.
  - constructor; [by apply list_elem_of_singleton|constructor].
  - exact demo_provable.
  - exact demo_ops_provable.
  - exists db, s, s'. split; [exact Ht|]. split; [reflexivity|]. split; [exact E|exact Hb].
Defined.
