(* ===== verification/WitnessesCircuit.v ===== *)
(** * The circuit at work

    [demo_gadgets] gives every gadget a function with the documented value, except for
    those of the curve, which are trivial, and [demo_circuit] is a block of one
    noop, on which the circuit is satisfied.  The theorems on the circuit are applied to it
    and to the data of the prover server for an empty block. *)

From S2P Require Import Prelude Bytes Params Externals Primitives Amounts Account Tx Operations Block.
From S2P Require Import Merkle ParallelSmt AccountLeaf PlasmaState PlasmaProofs Ledger StateKeeper StateKeeperProofs EthStorage ExecLogic.
From S2P Require Import Storage StorageProofs BlockStorage BlockStorageProofs Committer CircuitTree Witness WitnessOps WitnessProofs WitnessLedger.
From S2P Require Import WitnessFollows ProverPool BlockWitness ProverPoolProofs Gadgets Element CircuitSignature Circuit SynthLogic CircuitOps.
From S2P Require Import CircuitOpsProofs SynthMono CircuitProofs CircuitSound CircuitWitness Demo WitnessesDb WitnessesProver.
Open Scope Z_scope.

Definition demo_gadget {A} (a : A) (b : bool) : Synth A := λ s, Val (Ok a, s && b).

Lemma demo_gadget_evals {A} (a : A) b : evals (demo_gadget a b) a b.
Proof. done. Qed.

(** The points of the polynomial, packed into its coefficients. *)
Definition demo_value (x : demo_fr) : Z := proj1_sig x.
Definition demo_interpolate (points : list (demo_fr * demo_fr)) : option (list demo_fr) :=
  Some ((λ p, demo_fr_of (demo_value p.1 + 256 * demo_value p.2)) <$> points).
Definition demo_lookup (coeffs powers : list demo_fr) : demo_fr :=
  match powers with
  | x :: _ =>
      match list_find (λ c, demo_value c mod 256 = demo_value x) coeffs with
      | Some (_, c) => demo_fr_of (demo_value c / 256)
      | None => demo_fr_of 0
      end
  | [] => demo_fr_of 0
  end.

#[export] Instance demo_gadgets : @Gadgets demo_external := {|
  num_equals x y := demo_gadget (fr_eqb x y) true;
  num_select x y c := demo_gadget (if c then x else y) true;
  num_select_ifeq a b x y := demo_gadget (if fr_eqb a b then x else y) true;
  num_reverse x y c := demo_gadget (if c then (y, x) else (x, y)) true;
  into_bits_le x := demo_gadget (get_bits_le_fixed (fr_repr x) 254) true;
  into_bits_le_fixed x n := demo_gadget (get_bits_le_fixed (fr_repr x) n) (fr_val x <? 2 ^ Z.of_nat n);
  limit_number_of_bits x n := demo_gadget tt (fr_val x <? 2 ^ Z.of_nat n);
  add_bool_with_coeff x b c := if b then fr_add x c else x;
  inputize _ := demo_gadget tt true;
  boolean_and a b := demo_gadget (a && b) true;
  boolean_enforce_equal a b := demo_gadget tt (Bool.eqb a b);
  le_bits_into_le_bytes l := l;
  rescue_hash_gadget l := demo_gadget [rescue_hash l] true;
  pack_into_witness bits := demo_gadget (multipacking bits) true;
  sha256_gadget bits := demo_gadget (bytes_into_be_bits (sha256 (be_bit_vector_into_bytes bits))) true;
  parse_with_exponent_le _ _ _ _ := demo_gadget (fr_of_uint 0) true;
  RescueSponge := unit;
  sponge_new := tt;
  sponge_specialize _ _ := demo_gadget tt true;
  sponge_absorb _ _ := demo_gadget tt true;
  sponge_squeeze _ := demo_gadget (fr_of_uint 0, tt) true;
  generate_powers x n := demo_gadget [x] true;
  do_the_lookup c p := demo_gadget (demo_lookup c p) true;
  interpolate := demo_interpolate;
  Fs_NUM_BITS := 251;
  Fs_CAPACITY := 250;
  EdwardsPoint := demo_fr;
  point_x p := p;
  point_y p := p;
  spending_key_generator := demo_fr_of 1;
  on_curve _ := true;
  point_witness p := demo_gadget p true;
  recover_from_y_unchecked _ y := demo_gadget (y, true) true;
  point_mul p _ := demo_gadget p true;
  point_add p q := demo_gadget p true;
  point_double p := demo_gadget p true;
  pedersen_hash _ := demo_gadget (demo_fr_of 1) true;
|}.

Lemma list_find_cons_eq {A} (P : A → Prop) `{!∀ x, Decision (P x)} x l :
  list_find P (x :: l) = if decide (P x) then Some (0%nat, x) else prod_map S id <$> list_find P l.
Proof. done. Qed.

Lemma demo_lookup_point points x y :
  NoDup points.*1 → Forall (λ p, fits 8 p.1 ∧ fits 8 p.2) points → (x, y) ∈ points →
  demo_lookup ((λ p, demo_fr_of (demo_value (demo_fr_of p.1) + 256 * demo_value (demo_fr_of p.2))) <$> points) [demo_fr_of x] = demo_fr_of y.
Proof.
  assert (∀ v, fits 8 v → demo_value (demo_fr_of v) = v) as Hval.
  { intros v Hv. unfold demo_value. rewrite demo_fr_of_val. apply Z.mod_small. split; [apply Hv|]. eapply Z.lt_trans; [apply Hv|done]. }
  assert (∀ a b, fits 8 a → fits 8 b → demo_value (demo_fr_of (demo_value (demo_fr_of a) + 256 * demo_value (demo_fr_of b))) = a + 256 * b) as Hpair.
  { intros a b Ha Hb. rewrite (Hval a Ha), (Hval b Hb). unfold demo_value. rewrite demo_fr_of_val. apply Z.mod_small. unfold fits in *.
    change (2 ^ 8) with 256 in *. split; [lia|]. trans (2 ^ 17); [|done]. change (2 ^ 17) with (512 * 256). lia. }
  intros Hnd Hf Hin. unfold demo_lookup. pose proof (proj1 (Forall_forall _ _) Hf _ Hin) as [Hx Hy]. cbn [fst snd] in Hx, Hy.
  induction points as [|[a b] points IH]; [by apply not_elem_of_nil in Hin|]. rewrite fmap_cons, list_find_cons_eq. cbn [fst snd].
  apply Forall_cons in Hf as [[Ha Hb] Hf]. rewrite Hpair by done. rewrite (Hval x Hx) in *.
  assert ((a + 256 * b) mod 256 = a) as Em.
  { rewrite (Z.mul_comm 256), Z.mod_add by done. apply Z.mod_small. unfold fits in Ha. by change (2 ^ 8) with 256 in Ha. }
  rewrite Em. cbn [fst] in *. apply NoDup_cons in Hnd as [Hna Hnd]. destruct (decide (a = x)) as [->|Hne].
  - rewrite Hpair by done. apply elem_of_cons in Hin as [E|Hin].
    + injection E as ->. f_equal. rewrite (Z.mul_comm 256), Z.div_add by done. unfold fits in Hx. change (2 ^ 8) with 256 in Hx.
      rewrite Z.div_small by done. lia.
    + destruct Hna. apply list_elem_of_fmap. by exists (x, y).
  - apply elem_of_cons in Hin as [[= -> ->]|Hin]; [done|]. specialize (IH Hnd Hf Hin).
    destruct (list_find _ _) as [[? ?]|]; exact IH.
Qed.

#[export] Instance demo_gadget_mono {A} (a : A) b : Mono (demo_gadget a b).
Proof. eapply evals_Mono, demo_gadget_evals. Qed.

#[export] Instance demo_gadget_laws : @GadgetLaws demo_external demo_gadgets.
Proof.
  split; try (intros; apply demo_gadget_evals); try (intros; apply demo_gadget_mono).
  - intros x. unfold fr_val. rewrite fr_bits_256. unfold fr_repr, demo_external. rewrite limbs_bits. destruct x as [x Hx].
    unfold demo_in_range in Hx. cbn [proj1_sig]. assert (0 ≤ x < 2 ^ 254) as [? ?] by lia.
    rewrite le_bits_le_val; [done|]. split; [done|]. by trans (2 ^ 254).
  - done.
  - intros l Hl. unfold sha256_gadget, demo_gadgets. by rewrite be_bit_vector_into_bytes_spec.
  - intros bits e m base _ Hb. exists 0. split; [|apply demo_gadget_evals]. split; [done|].
    apply Z.mul_nonneg_nonneg; [|apply Z.pow_nonneg; lia]. assert (0 < 2 ^ Z.of_nat m) by (apply Z.pow_pos_nonneg; lia). lia.
  - intros points Hnd Hf. eexists. split; [reflexivity|]. split; [by rewrite !length_fmap|]. intros x y Hin.
    eapply evals_seq; [apply demo_gadget_evals|]. eapply evals_eq; [apply demo_gadget_evals| |done].
    rewrite <- list_fmap_compose. by apply demo_lookup_point.
Qed.

(** ** A block with one change of a key *)

(** The hashes of the subtrees of a token tree without tokens. *)
Fixpoint demo_defaults (n : nat) (h : Fr) : list Fr :=
  match n with O => [] | S n => h :: demo_defaults n (rescue_hash [h; h]) end.

Definition demo_before : Opened :=
  mkOpened (fr_of_uint 5) (fr_of_uint 7) (fr_of_uint 9) (replicate 24 (fr_of_uint 0)) (fr_of_uint 3)
    (demo_defaults 8 (rescue_hash [fr_of_uint 0])).
Definition demo_after : Opened := with_nonce (fr_of_uint 6) (with_pub_key_hash (fr_of_uint 11) demo_before).
Definition demo_branch (v : Opened) : OperationBranch :=
  mkBranch (Some (o_id v))
    (mkBranchWitness (mkAccountWitness (Some (o_nonce v)) (Some (o_pub_key_hash v)) (Some (o_address v)))
       (Some <$> o_path v) (Some <$> o_token_path v)).
Definition demo_change_arguments : OperationArguments :=
  mkArguments (Some (fr_of_uint 0)) (Some (fr_of_uint 0)) (Some (fr_of_uint 11)) (Some (fr_of_uint 9)) (Some (fr_of_uint 5)).
Definition demo_change_data : list bool :=
  change_pubkey_data demo_before
    (mkArgumentValues (fr_of_uint 0) (fr_of_uint 0) (fr_of_uint 0) (fr_of_uint 0) (fr_of_uint 0) (fr_of_uint 11) (fr_of_uint 9)
       (fr_of_uint 5) (fr_of_uint 0)) (fr_of_uint CHANGE_PUBKEY_OP_CODE).
Definition demo_chunk (i : nat) : CircuitOperation :=
  mkCircuitOperation None (Some (fr_of_uint CHANGE_PUBKEY_OP_CODE)) (Some (fr_of_uint (Z.of_nat i)))
    (Some (le_bit_vector_into_field_element (chunk_bits demo_change_data i))) (replicate 256 (Some false))
    (Some (fr_of_uint 0)) (Some (fr_of_uint 0)) (Some (fr_of_uint 0)) SignatureData_init_empty demo_change_arguments
    (demo_branch demo_before) (demo_branch demo_after).
Definition demo_root : Fr := opened_root demo_before (fr_of_uint 0).
Definition demo_new_root : Fr := opened_root demo_after (fr_of_uint 0).
Definition demo_circuit : FranklinCircuit :=
  mkFranklinCircuit (Some demo_root) (Some (fr_of_uint 1)) (Some (fr_of_uint 3))
    (Some (fr_of_uint (commitment_of (be_bit_vector_into_bytes demo_change_data) demo_root demo_new_root 3 1)))
    (demo_chunk <$> seq 0 6) (replicate 256 (Some (fr_of_uint 0))) (Some <$> o_path demo_after)
    (account_witness (br_witness (demo_branch demo_after))).

Definition satisfied {A} (m : outcome (result A * bool)) : bool := match m with Val (Ok _, b) => b | _ => false end.
Lemma satisfied_value {A} (m : outcome (result A * bool)) : satisfied m = true → ∃ a, m = Val (Ok a, true).
Proof. destruct m as [[[a|] []]|]; try done. by exists a. Qed.

(** The free variables have the values that the code assigns to them. *)
Definition demo_advice (i : nat) : ChunkAdvice := prover_advice.

Lemma demo_circuit_satisfied : synthesize demo_advice demo_circuit true = Val (Ok tt, true).
Proof.
  assert (satisfied (synthesize demo_advice demo_circuit true) = true) as H by (vm_cast_no_check (@eq_refl bool true)).
  by apply satisfied_value in H as [[] ->].
Qed.
Lemma demo_chunk_satisfied : ∃ st, process_chunk prover_advice (initial_state demo_root) (demo_chunk 0) true = Val (Ok st, true).
Proof. apply satisfied_value. vm_cast_no_check (@eq_refl bool true). Qed.


Lemma chunks_come_in_groups_witness : ∃ groups, demo_chunk <$> seq 0 6 = concat groups ∧ Forall (chunk_group None 0) groups.
Proof.
  destruct (chunks_come_in_groups demo_advice demo_circuit) as (groups & E & _ & H).
  - exact demo_circuit_satisfied.
  - reflexivity.
  - exists groups. split; [exact E|exact H].
Defined.


(** *** Public data of the prover's choice

    The chunks 1 to 4 of the change are noops: the number of such a chunk is not one of a noop, so that the prover
    assigns what it publishes.  The circuit is satisfied, and the address and the nonce that it publishes are not those
    of the account whose key it changes. *)
Definition forged_value (i : nat) : Fr := fr_of_uint (1000 + Z.of_nat i).
Definition forged_chunk (i : nat) : CircuitOperation :=
  if (0 <? i)%nat && (i <? 5)%nat then
    mkCircuitOperation None (Some (fr_of_uint NOOP_OP_CODE)) (Some (fr_of_uint (Z.of_nat i))) (Some (forged_value i))
      (replicate 256 (Some false)) (Some (fr_of_uint 0)) (Some (fr_of_uint 0)) (Some (fr_of_uint 0)) SignatureData_init_empty
      demo_change_arguments (demo_branch demo_before) (demo_branch demo_after)
  else demo_chunk i.
Definition forged_data : bytes :=
  be_bit_vector_into_bytes (concat ((λ i, default [] (bits_n CHUNK_BIT_WIDTH <$> pubdata_chunk (forged_chunk i))) <$> seq 0 6)).
Definition forged_circuit : FranklinCircuit :=
  mkFranklinCircuit (Some demo_root) (Some (fr_of_uint 1)) (Some (fr_of_uint 3))
    (Some (fr_of_uint (commitment_of forged_data demo_root demo_new_root 3 1)))
    (forged_chunk <$> seq 0 6) (replicate 256 (Some (fr_of_uint 0))) (Some <$> o_path demo_after)
    (account_witness (br_witness (demo_branch demo_after))).
Definition forged_advice (i : nat) : ChunkAdvice :=
  mkChunkAdvice spending_key_generator (fr_of_uint TRANSFER_OP_CODE) (λ _, forged_value i) (λ op, op).
Lemma forged_data_accepted :
  synthesize forged_advice forged_circuit true = Val (Ok tt, true) ∧ forged_data ≠ be_bit_vector_into_bytes demo_change_data.
Proof.
  split; [|apply (bool_decide_eq_false_1 _); vm_cast_no_check (@eq_refl bool false)].
  assert (satisfied (synthesize forged_advice forged_circuit true) = true) as H by (vm_cast_no_check (@eq_refl bool true)).
  by apply satisfied_value in H as [[] ->].
Qed.

Lemma demo_allocation :
  ∃ od l r, AllocatedOperationData_from_witness (demo_chunk 0) true = Val (Ok od, true) ∧
    AllocatedOperationBranch_from_witness (lhs (demo_chunk 0)) true = Val (Ok l, true) ∧
    AllocatedOperationBranch_from_witness (rhs (demo_chunk 0)) true = Val (Ok r, true).
Proof.
  destruct (satisfied_value (AllocatedOperationData_from_witness (demo_chunk 0) true)) as [od H1]; [vm_cast_no_check (@eq_refl bool true)|].
  destruct (satisfied_value (AllocatedOperationBranch_from_witness (lhs (demo_chunk 0)) true)) as [l H2]; [vm_cast_no_check (@eq_refl bool true)|].
  destruct (satisfied_value (AllocatedOperationBranch_from_witness (rhs (demo_chunk 0)) true)) as [r H3]; [vm_cast_no_check (@eq_refl bool true)|].
  exists od, l, r. split; [exact H1|]. split; [exact H2|exact H3].
Qed.
Lemma allocated_operation_well_typed_witness : ∃ od l r, data_typed od ∧ branch_typed l ∧ branch_typed r.
Proof.
  destruct demo_allocation as (od & l & r & H1 & H2 & H3). exists od, l, r. exact (allocated_operation_well_typed (demo_chunk 0) od l r H1 H2 H3).
Defined.

(** ** Generated data *)

Lemma circuit_root_assumes_token_witness :
  ∃ v, opened_of (branch_of demo_map 0 7) v ∧ ∃ empty subtree_root,
    check_account_data (branch_elems v) (elem TOKENID_BIT_WIDTH (fr_of_uint 7)) true =
    Val (Ok (ledger_root (<[0 := add_token 7 (account_at demo_map 0)]> demo_map), empty, subtree_root), true).
Proof.
  assert (leaf_ok account_tree_depth 0) as Hk by (by split). assert (token_ok 7) as Ht by (by split).
  exists (opened_branch demo_map 0 7). split; [exact (opened_branch_of demo_map 0 7)|].
  apply (circuit_root_assumes_token demo_map 0 7 (opened_branch demo_map 0 7) true).
  - exact demo_leaves_ok.
  - exact Hk.
  - exact Ht.
  - exact (opened_branch_of demo_map 0 7).
Defined.

(** An empty block that keeps the accounts of the demo keeper. *)
Definition demo_empty_commit : Operation := mkOperation None ACommit (mkBlock 1 (ledger_root demo_map) 0 [] (0, 0) 1) [].
Lemma demo_no_ops : get_block_operations 0 1 empty_db = Val [].
Proof. vm_cast_no_check (eq_refl (Val [] : outcome (list FranklinOp))). Qed.

Lemma demo_still_provable : provable_from (Z.of_nat (length ([] : list FranklinOp))) demo_map.
Proof.
  destruct demo_provable as [_ Hl Hd Hn]. split; [by split|exact Hl|exact Hd|]. intros id a Ha. specialize (Hn id a Ha). cbn in *. lia.
Qed.
Lemma demo_prover_data : ∃ t pd t', build_prover_data 0 empty_db demo_empty_commit t = Val (Ok pd, t').
Proof.
  destruct demo_maintainer_at as [t Ht]. exists t.
  destruct (build_prover_data_runs 0 t demo_map demo_map [] [] empty_db demo_empty_commit) as (data & _ & pd & t' & E & _).
  - split; [constructor|exact demo_still_provable|constructor|cbn; lia|reflexivity|by exists alice|by split].
  - exact (ma_tree _ _ _ Ht).
  - exact demo_no_ops.
  - by exists pd, t'.
Qed.
Lemma prover_data_not_synthesizable_witness :
  ∃ t pd t', build_prover_data 0 empty_db demo_empty_commit t = Val (Ok pd, t') ∧
    ∀ advice s s', synthesize advice (ProverData_into_circuit pd 1) s ≠ Val (Ok tt, s').
Proof.
  destruct demo_prover_data as (t & pd & t' & E). exists t, pd, t'. split; [exact E|]. intros advice s s'.
  exact (prover_data_not_synthesizable advice 0 empty_db demo_empty_commit t pd t' 1 s s' E).
Defined.
