(* ===== verification/WitnessesApi.v ===== *)
(** * The API server at work

    A decoder of hexadecimal digits, a bounded cache, and the theorems on submissions and on
    the notifier applied to the transfer of the demo rollup.
    Then a deposit that waits for its confirmations, the queries for that transfer, and the
    history of its token. *)

From S2P Require Import Prelude Bytes Params Externals Primitives Amounts Account Tx Decimal Operations.
From S2P Require Import Block Merkle AccountLeaf PlasmaState StateKeeper EthWatch Mempool SignatureChecker EthStorage Storage.
From S2P Require Import BlockStorage Witness WitnessOps ProverPool ApiCaches RpcServer EventNotify EventNotifyProofs EventNotifyAnswers EventNotifyEvents.
From S2P Require Import RpcAnswers TokenHistory Demo Witnesses WitnessesDb.
Open Scope Z_scope.

(** ** The crates *)

Definition demo_hex_value (c : Z) : option Z :=
  if (48 <=? c) && (c <=? 57) then Some (c - 48) else if (97 <=? c) && (c <=? 102) then Some (c - 87) else None.
Fixpoint demo_hex_decode (l : bytes) : option bytes :=
  match l with
  | [] => Some []
  | a :: b :: l => match demo_hex_value a, demo_hex_value b, demo_hex_decode l with
                   | Some x, Some y, Some r => Some (16 * x + y :: r) | _, _, _ => None end
  | _ => None
  end.
#[export] Instance demo_hex : @HexDecoder demo_external := {| hex_decode := demo_hex_decode |}.

Lemma demo_hex_value_digit d : 0 ≤ d < 16 → demo_hex_value (demo_digit d) = Some d.
Proof.
  intros Hd. unfold demo_digit, demo_hex_value. destruct (Z.ltb_spec d 10).
  - assert ((48 <=? 48 + d) && (48 + d <=? 57) = true) as -> by lia. f_equal. lia.
  - assert ((48 <=? 87 + d) && (87 + d <=? 57) = false) as -> by lia.
    assert ((97 <=? 87 + d) && (87 + d <=? 102) = true) as -> by lia. f_equal. lia.
Qed.
Lemma demo_digit_range d : 0 ≤ d < 16 → is_digit (demo_digit d) = true ∨ 97 ≤ demo_digit d ≤ 102.
Proof. intros Hd. unfold demo_digit, is_digit. destruct (Z.ltb_spec d 10); [left|right]; lia. Qed.

#[export] Instance demo_hex_laws : HexLaws.
Proof.
  split; intros l; unfold hex_encode, demo_external; induction 1 as [|b l Hb _ IH]; cbn -[demo_digit demo_hex_value Z.div Z.modulo];
    [done|..|constructor|]; unfold is_byte in Hb; assert (0 ≤ b / 16 < 16 ∧ 0 ≤ b mod 16 < 16) as [H1 H2]
      by (split; [split; [apply Z.div_pos; lia|apply Z.div_lt_upper_bound; lia]|by apply Z.mod_pos_bound]).
  - cbn [demo_hex_decode]. rewrite !demo_hex_value_digit by done. unfold hex_decode, demo_hex in IH. rewrite IH. do 2 f_equal.
    pose proof (Z.div_mod b 16 ltac:(done)). lia.
  - constructor; [by apply demo_digit_range|]. constructor; [by apply demo_digit_range|done].
Qed.

(** A list of the latest entries. *)
#[export] Instance demo_caches : LruCaches := {|
  Lru K V := (nat * list (K * V))%type;
  lru_new K V n := (n, []);
  lru_get_mut K V _ k c := (snd <$> List.find (λ e, bool_decide (e.1 = k)) c.2, c);
  lru_insert K V _ k v c := (c.1, take c.1 ((k, v) :: List.filter (λ e, negb (bool_decide (e.1 = k))) c.2));
|}.

Lemma find_take {A} (f : A → bool) n l x : List.find f (take n l) = Some x → List.find f l = Some x.
Proof.
  revert n. induction l as [|y l IH]; intros [|n]; cbn; try done. destruct (f y); [done|]. apply IH.
Qed.
Lemma find_filter_other {A} (f g : A → bool) l : (∀ x, f x = true → g x = true) → List.find f (List.filter g l) = List.find f l.
Proof.
  intros H. induction l as [|y l IH]; cbn; [done|]. destruct (g y) eqn:Hg; cbn; [by rewrite IH|].
  destruct (f y) eqn:Hf; [|done]. apply H in Hf. congruence.
Qed.

#[export] Instance demo_caches_laws : LruLaws.
Proof.
  split; [done|done|]. intros K V Heq k v k' w [n l]. unfold lru_lookup. cbn. intros H.
  destruct (List.find _ _) as [e|] eqn:E in H; [|done]. injection H as <-. apply find_take in E. cbn in E.
  case_bool_decide as Hk; [injection E as <-; by left|]. right. split; [congruence|].
  rewrite find_filter_other in E; [by rewrite E|]. intros x Hx%bool_decide_eq_true. apply negb_true_iff, bool_decide_eq_false. congruence.
Qed.

(** ** Submissions *)

Definition demo_contracts : Contracts := mkContracts (λ _ _ _, Err "no contract") (λ _ _, Err "no facts").
Definition demo_mempool : Mempool := mkMempool (restore_from_db demo_map) 10.
Definition demo_signature : option TxEthSignature := Some (EthereumSignature (EX := demo_external) alice_address).
Definition demo_submission : (bytes + RpcError) * Mempool :=
  tx_submit demo_contracts (TxTransfer demo_transfer) demo_signature demo_mempool.
Definition demo_block_proposed : ProposedBlock * Mempool := propose_new_block (EthWatch_new 3) 0 demo_submission.2.

Definition is_inl {A B} (x : A + B) : bool := match x with inl _ => true | inr _ => false end.
Lemma demo_submitted : is_inl demo_submission.1 = true.
Proof. vm_compute. reflexivity. Qed.
Lemma demo_proposed_length : length (pb_txs demo_block_proposed.1) = 1%nat.
Proof. vm_compute. reflexivity. Qed.

Lemma demo_serves :
  serves demo_mempool [mkAdmission demo_contracts (TxTransfer demo_transfer) demo_signature (mempool_state demo_mempool)]
    (pb_txs demo_block_proposed.1) demo_block_proposed.2.
Proof.
  pose proof (serves_submit demo_mempool [] [] demo_mempool demo_contracts (TxTransfer demo_transfer) demo_signature
    demo_submission.1 demo_submission.2 (serves_start _)) as H.
  destruct demo_submission as [r mp] eqn:E. pose proof demo_submitted as Hr. rewrite E in Hr. cbn in Hr.
  destruct r as [h|]; [|done]. specialize (H E). cbn in H.
  pose proof (serves_propose _ _ _ _ (EthWatch_new 3) 0 demo_block_proposed.1 demo_block_proposed.2 H) as H2.
  apply H2. unfold demo_block_proposed. rewrite E. by destruct (propose_new_block _ _ _).
Qed.

(** The transfer of Alice was proposed because she signed it. *)
Lemma proposed_txs_admitted_witness :
  ∃ checked, pb_txs demo_block_proposed.1 ++ ready_txs (mempool_state demo_block_proposed.2) = checked ∧ length checked = 1%nat ∧
    Forall2 admits [mkAdmission demo_contracts (TxTransfer demo_transfer) demo_signature (mempool_state demo_mempool)] checked.
Proof.
  destruct (proposed_txs_admitted demo_mempool _ _ _ demo_serves) as (checked & Hall & E). exists checked.
  split; [exact E|]. split; [by apply Forall2_length in Hall|exact Hall].
Defined.

(** ** The notifier *)

Definition empty_state : StateDb := mkStateDb [] [] [] 0 [] [] 0 [] [] 0.
Definition empty_db : ChainDb := mkChainDb empty_state [] 0 [] 0 [].
Definition demo_executed_tx : ExecutedTx := mkExecutedTx (TxTransfer demo_transfer) true None None (Some 0) 0.
Definition demo_hash : bytes := FranklinTx_hash (TxTransfer demo_transfer).

(** The transfer is executed in block 1, which is committed and verified. *)
Definition verified_db : ChainDb :=
  mkChainDb (mkStateDb [] [] [] 0 [] [] 0 [] [mkStoredOperation 0 1 "COMMIT" true; mkStoredOperation 1 1 "VERIFY" true] 2)
    [prepare_stored_tx 0 demo_executed_tx 1] 1 [] 0 [].
Definition no_jobs : ProverTables := mkProverTables [] 0 [] 0.

Lemma empty_db_grows : db_extends empty_db verified_db.
Proof.
  split; [by eexists|by eexists| |by eexists|done]. exists [], (t_operations (cd_state verified_db)). split; [done|constructor].
Qed.

Definition demo_world (db : ChainDb) (random : Z) : World := mkWorld (Some (db, no_jobs)) (λ _, None) random 0.
Definition sub_of (client : Z) : Subscriber := mkSubscriber client true.

(** Client 1 subscribes before the transfer is executed and is notified; client 2 subscribes to another kind of
    event. *)
Definition demo_events : list (World * NotifierEvent) :=
  [(demo_world empty_db 5, NewSub (Sub (SubTransaction demo_hash COMMIT (sub_of 1))));
   (demo_world empty_db 6, NewSub (Sub (SubPriorityOp 4 VERIFY (sub_of 2))));
   (demo_world verified_db 7, NewExecBatch (mkExecutedOpsNotify [ExTx demo_executed_tx] 1))].
Lemma demo_notifier_val : is_val (notifier_run demo_events (OperationNotifier_new 8)) = true.
Proof. vm_cast_no_check (eq_refl true). Qed.
Definition demo_notifier : OperationNotifier := val_of (notifier_run demo_events (OperationNotifier_new 8)) demo_notifier_val.
Lemma demo_notifier_runs : notifier_run demo_events (OperationNotifier_new 8) = Val demo_notifier.
Proof. exact (val_of_Val _ demo_notifier_val). Qed.
Lemma demo_notifier_sent : event_clients (sent demo_notifier) = [1].
Proof. vm_cast_no_check (eq_refl [1]). Qed.
Lemma notified_at_most_once_witness : event_clients (sent demo_notifier) = [1] ∧ NoDup (event_clients (sent demo_notifier)).
Proof.
  split; [exact demo_notifier_sent|].
  pose proof (notified_at_most_once 8 demo_events demo_notifier demo_notifier_runs ltac:(by_decide)) as H.
  apply NoDup_app in H as (_ & _ & H). by apply NoDup_app in H as (_ & _ & H).
Defined.

Lemma demo_answer :
  tx_answer (demo_world verified_db 8) verified_db no_jobs demo_hash VERIFY =
  Some (mkTxInfo true (Some true) None (Some (mkBlockInfo 1 true true))).
Proof. vm_cast_no_check (eq_refl (Some (mkTxInfo true (Some true) None (Some (mkBlockInfo 1 true true))))). Qed.

(** Client 3 subscribes to the verification of the transfer, which the database knows. *)
Lemma subscription_answered_witness :
  ∃ s' info, handle_transaction_sub (demo_world verified_db 8) demo_hash VERIFY (sub_of 3) demo_notifier = Val (Ok tt, s') ∧
    sent s' = sent demo_notifier ++ [(3, MTx info)] ∧ ti_success info = Some true.
Proof.
  destruct (subscription_answered 8 demo_events empty_db verified_db no_jobs (demo_world verified_db 8) demo_notifier (sub_of 3)
    demo_notifier_runs) as [H _].
  - split; [apply db_extends_refl|]. split; [apply db_extends_refl|]. split; [exact empty_db_grows|apply db_extends_refl].
  - reflexivity.
  - destruct (H demo_hash VERIFY) as (r & s' & E & Hs').
    rewrite demo_answer in Hs'. destruct Hs' as [_ [-> Hs']]. exists s'. eexists. split; [exact E|]. split; [exact Hs'|reflexivity].
Defined.

(** Client 2 listens to the hash of nobody's transaction, and a client that is gone takes it along. *)
Definition other_hash : bytes := replicate 32 9.
Definition waiting_events : list (World * NotifierEvent) :=
  [(demo_world empty_db 5, NewSub (Sub (SubTransaction other_hash COMMIT (sub_of 2))))].
Lemma waiting_val : is_val (notifier_run waiting_events (OperationNotifier_new 8)) = true.
Proof. vm_cast_no_check (eq_refl true). Qed.
Definition waiting_notifier : OperationNotifier := val_of (notifier_run waiting_events (OperationNotifier_new 8)) waiting_val.
Definition waiting_sender : SubscriptionSender :=
  mkSender (SubString (subscription_text TX_SUB_PREFIX (TxHash_to_string other_hash) COMMIT 5)) 2.
Lemma waiting_subs : tx_subs waiting_notifier !! (other_hash, COMMIT) = Some [waiting_sender].
Proof. vm_cast_no_check (eq_refl (Some [waiting_sender])). Qed.

Lemma lost_client_drops_listeners :
  is_Some (tx_subs waiting_notifier !! (other_hash, COMMIT)) ∧
  ∃ s', handle_transaction_sub (demo_world empty_db 9) other_hash COMMIT (mkSubscriber 4 false) waiting_notifier =
          Val (Err "SubIdAssign", s') ∧ tx_subs s' !! (other_hash, COMMIT) = None.
Proof.
  split; [by rewrite waiting_subs|].
  destruct (transaction_sub_spec empty_db no_jobs (demo_world empty_db 9) waiting_notifier (mkSubscriber 4 false) other_hash COMMIT)
    as (r & s' & H1 & H2).
  - eapply (run_caches empty_db waiting_events);
      [split; apply db_extends_refl|apply caches_right_new|].
    exact (val_of_Val _ waiting_val).
  - reflexivity.
  - assert (tx_answer (demo_world empty_db 9) empty_db no_jobs other_hash COMMIT = None) as E by (vm_compute; reflexivity).
    rewrite E in H2. destruct H2 as [_ H2]. rewrite waiting_subs in H2. destruct H2 as [-> H2].
    exists s'. split; [exact H1|]. rewrite H2. apply lookup_delete_eq.
Qed.

Lemma unsubscribe_correct_witness :
  ∃ s', handle_unsub (SubString (subscription_text TX_SUB_PREFIX (TxHash_to_string other_hash) COMMIT 5)) waiting_notifier = Val (Ok tt, s') ∧
    tx_subs s' = ∅ ∧
    handle_unsub (SubString (subscription_text ACCOUNT_SUB_PREFIX (hex_encode (replicate 20 255)) COMMIT 5)) waiting_notifier =
      Val (Err "ParseIntError", waiting_notifier).
Proof.
  destruct (unsubscribe_correct waiting_notifier COMMIT 5 ltac:(lia)) as (H1 & _ & H3).
  eexists. split; [|split].
  - apply (H1 other_hash). by_decide.
  - vm_cast_no_check (eq_refl (∅ : gmap (bytes * ActionType) (list SubscriptionSender))).
  - apply (H3 (replicate 20 255)); [by_decide|]. apply Exists_exists. exists 102. by_decide.
Defined.

(** ** A deposit *)

Definition deposit_op : PriorityOp := mkPriorityOp 9 (PDeposit (mkDeposit alice_address 7 bob_address)) 300 [].
Definition deposit_event : PriorityEvent :=
  mkPriorityEvent alice_address 9 1 (to_be_bytes 3 0 ++ to_be_bytes 2 7 ++ bob_address) 300.
Definition deposit_log : EthLog := mkEthLog (Some 50) (mkLog [] (Some [])).
Definition deposit_history : list (Z * PriorityOp * EthLog) := [(50, deposit_op, deposit_log)].
Definition deposit_node (h : Z) : EthNode :=
  mkEthNode (Ok h) (λ from to, Ok (logs_in deposit_history from (Z.min h (default h to)))).

Lemma deposit_history_ok : history_ok (λ _, Some deposit_event) deposit_history.
Proof.
  split; [|by intros x y ->%list_elem_of_singleton ->%list_elem_of_singleton _].
  constructor; [|constructor]. split; [reflexivity|]. vm_cast_no_check (eq_refl (Val (Ok deposit_op))).
Qed.

(** Seen at height 52 the deposit is shown for block 55, where it is accepted. *)
Lemma deposits_shown_until_accepted_witness :
  ∃ w w' resp, watch_polls (λ _, Some deposit_event) [deposit_node 55] w = Val w' ∧
    from_pending_ops resp = Ok (mkDepositingAccountTokens [mkDepositingToken 7 55]) ∧
    priority_queue (eth_state w') !! 9 = Some deposit_op.
Proof.
  destruct (deposits_shown_until_accepted (λ _, Some deposit_event) deposit_history 5 40 [52] [55] (deposit_node 40) [deposit_node 52]
    [deposit_node 55] (RpcApp_new 8 5) bob_address) as (w0 & w & w' & resp & _ & _ & E & _ & _ & H1 & H2 & _).
  - exact deposit_history_ok.
  - constructor; [by_decide|constructor].
  - by_decide.
  - split; [reflexivity|]. split; [by_decide|]. intros; reflexivity.
  - repeat constructor; try by_decide; intros; reflexivity.
  - repeat constructor; try by_decide; intros; reflexivity.
  - by_decide.
  - reflexivity.
  - exists w, w', resp. split; [exact E|]. split; [exact H1|]. apply (H2 50 deposit_op deposit_log); [|by_decide].
    vm_compute. left.
Defined.

(** ** Queries *)

Definition is_some {A} (o : option A) : bool := match o with Some _ => true | None => false end.

(** The server is asked twice for the transfer, the second time it is cached. *)
Definition demo_eth_tables : EthDb := mkEthDb [] 1 [] 1 [] None [].
Definition demo_storage : RpcStorage := (verified_db, no_jobs, demo_eth_tables).
Definition verified_info : TransactionInfoResp := mkTxInfo true (Some true) None (Some (mkBlockInfo 1 true true)).
Definition demo_app : RpcApp :=
  match tx_info (Some demo_storage) demo_hash (RpcApp_new 8 5) with Val (_, app) => app | Panic _ => RpcApp_new 8 5 end.
Lemma demo_app_eq : tx_info (Some demo_storage) demo_hash (RpcApp_new 8 5) = Val (Ok verified_info, demo_app).
Proof. vm_cast_no_check (eq_refl (Val (Ok verified_info, demo_app))). Qed.
Lemma demo_app_cached : is_some (lru_lookup demo_hash (rpc_transaction_receipts demo_app)) = true.
Proof. vm_cast_no_check (eq_refl true). Qed.
Lemma demo_served : served (λ id, 100 + id) verified_db demo_app.
Proof. eapply served_tx; [apply served_new|exact demo_app_eq]. Qed.

Lemma demo_tx_info : tx_info_of verified_db no_jobs demo_hash = verified_info.
Proof. vm_cast_no_check (eq_refl verified_info). Qed.

Lemma queries_answered_witness :
  is_some (lru_lookup demo_hash (rpc_transaction_receipts demo_app)) = true ∧
  ∃ app', tx_info (Some demo_storage) demo_hash demo_app = Val (Ok verified_info, app').
Proof.
  split; [exact demo_app_cached|].
  destruct (queries_answered (λ id, 100 + id) verified_db no_jobs demo_eth_tables demo_app demo_served) as [H _]; [by constructor|].
  destruct (H demo_hash) as (app' & E). rewrite demo_tx_info in E. exists app'. exact E.
Defined.

(** ** The history of a token *)

Definition deposit_exec : ExecutedOperations :=
  ExPriorityOp (mkExecutedPriorityOp deposit_op (OpDeposit (mkDepositOp (mkDeposit alice_address 7 alice_address) 0)) 0).
Definition token_db : ChainDb :=
  val_of (save_block_transactions 1 [deposit_exec; ExTx demo_executed_tx] empty_db) ltac:(vm_compute; reflexivity).
Lemma token_db_stored : stored [(1, [deposit_exec; ExTx demo_executed_tx])] [] token_db.
Proof.
  apply (stored_block [] [] empty_db 1); [apply stored_empty|]. unfold token_db. apply val_of_Val.
Qed.

Definition token_blocks : list (Z * list ExecutedOperations) := [(1, [deposit_exec; ExTx demo_executed_tx])].
Definition demo_token_info : TokenInfoResp :=
  match token_info (λ _, 12) (λ _, last) (λ _, "date"%string) (Some (token_db, no_jobs, demo_eth_tables)) 7 with
  | Val (Ok info) => info
  | _ => mkTokenInfoResp [] None
  end.
Lemma demo_token_info_eq :
  token_info (λ _, 12) (λ _, last) (λ _, "date"%string) (Some (token_db, no_jobs, demo_eth_tables)) 7 = Val (Ok demo_token_info).
Proof. vm_cast_no_check (eq_refl (Val (Ok demo_token_info))). Qed.
Lemma demo_history_length : length (history_of (λ _, "date"%string) 7 token_blocks []) = 1%nat.
Proof. vm_cast_no_check (eq_refl 1%nat). Qed.

Lemma last_returns_a_row : returns_a_row (λ _, last).
Proof. intros A l. destruct (last l) eqn:E; [by eapply last_Some_elem_of|by apply last_None]. Qed.
Lemma demo_token_deposits : token_deposits 7 token_blocks = [(1, deposit_op, alice_address)].
Proof. vm_cast_no_check (eq_refl [(1, deposit_op, alice_address)]). Qed.

(** Alice's deposit and her transfer, in a block that is not proved yet. *)
Lemma token_history_correct_witness :
  length (history_of (λ _, "date"%string) 7 token_blocks []) = 1%nat ∧
  tk_history demo_token_info = mkTransferHistory None (address_text alice_address) false 1 "date" (str "0x")
    :: history_of (λ _, "date"%string) 7 token_blocks [].
Proof.
  split; [exact demo_history_length|].
  destruct (token_history_correct (λ _, 12) (λ _, last) (λ _, "date"%string) token_blocks [] token_db no_jobs demo_eth_tables 7 demo_token_info
    last_returns_a_row token_db_stored demo_token_info_eq) as (n & op & to & time & Hin & H).
  change ((n, op, to) ∈ token_deposits 7 token_blocks) in Hin. rewrite demo_token_deposits in Hin. apply list_elem_of_singleton in Hin.
  exact (eq_trans H (f_equal (λ d : Z * PriorityOp * Address, mkTransferHistory None (address_text d.2) (bool_decide (d.1.1 ∈ [])) d.1.1 "date"
    (str "0x" ++ hex_encode (hex_encode (po_eth_hash d.1.2))) :: history_of (λ _, "date"%string) 7 token_blocks []) Hin)).
Defined.
